(* ===== verification/_CoqProject ===== *)
-Q . S2P
Prelude.v
Models.v
Canonical.v
Authority.v
Receipts.v
Registry.v
Conformance.v
Approvals.v
StripeModels.v
CustodyModels.v
AgentModels.v
StoreBase.v
StoredValidity.v
StoreContract.v
Documents.v
MemoryStore.v
SqliteStore.v
ProposalEncoding.v
PostgresStore.v
PostgresRefinement.v
Recovery.v
PostgresWork.v
PostgresHistory.v
Evidence.v
Program.v
Custody.v
LocalKek.v
AwsKms.v
CustodySafety.v
CustodyHost.v
CustodyScenario.v
StripeOperation.v
StripeRefunds.v
StripeBilling.v
StripeActions.v
StripeSafety.v
StripeVerdicts.v
StripeLedger.v
StripeEffects.v
StripeScenario.v
SdkGateway.v
SdkSafety.v
Runtime.v
Scenario.v
RecoveryWorker.v
Lifecycle.v
RuntimeGuarantee.v
RuntimeCalls.v
RuntimeReads.v
RuntimeSafety.v
RuntimeWorld.v
RuntimeEffects.v
EvidenceOfRecords.v
StripeGoverned.v
StripeGovernedScenario.v
Sessions.v
ApprovalRequests.v
Attribution.v
Authoring.v
AgentTools.v
AgentSafety.v
AgentScenario.v
SqlText.v
Migrations.v
MigrationSafety.v
MigrationScripts.v
Readiness.v
MigrationScenario.v
MysqlStore.v
MysqlRefinement.v
MysqlLiveness.v
MysqlScenario.v
StoreHarness.v
StoreHarnessRules.v
StoreHarnessExact.v
Leakage.v
ProviderHarness.v
ProviderConformance.v
