(* ===== verification/Prelude.v ===== *)
(** * Threvo Actions: the runtime of governed actions, verified

    Threvo Actions (src/src/threvo_actions) runs consequential actions that need
    approval: a host prepares a proposal, authorities approve it, the runtime
    executes it through the host's executor, and the outcome is whatever the
    target's verifier observes.  The package owns no business truth.  What it
    promises is that the executor is called only for an approved, committed,
    unexpired and undrifted proposal; that an effect is not executed twice
    unless the target authoritatively says the first execution left nothing;
    that verdicts are never invented; and that evidence is complete and
    discloses no private state.

    ** Parts and files

    Data and validation:
    - [Prelude]: Python strings, instants, exceptions, results, tactics.
    - [Models] (models.py), [Canonical] (canonical.py), [Authority]
      (authority.py), [Receipts] (receipts.py), [Registry] (registry.py),
      [Approvals] (approvals.py): the data of the package and its validators,
      canonical JSON with the commitment input, the validation of authority
      evidence, the registry, and the approval requirements.
    - [Conformance] (registry.py): the construction checks of a definition, with
      the search for floats in the boundary models; the host's model classes
      are a table of their configurations and field annotations.
    - [StripeModels] (integrations/stripe/models.py, gateway.py,
      subscriptions.py, credit_notes.py) and [CustodyModels]
      (integrations/local_kek.py, aws_kms.py): the data of the integrations
      and the requests they make of their gateways and hosts.

    Stores:
    - [StoreBase] (stores/base.py): stored proposals and the validation of
      their creation and update; [StoredValidity]: what makes a record valid,
      as one predicate.  [StoreContract]: the operations of [ActionStore] and
      [RetentionStore] as one type, the observable state, the relation
      [contract] that says what each operation may do and answer, and the
      class [ActionStore] of the stores that keep it.  [Documents]: the members
      of a JSON object put by name, one representative for the dictionaries Python
      takes to be equal, since [jsonb] and MySQL's JSON keep no order.
    - [MemoryStore] (stores/memory.py): the in-memory store.  [SqliteStore]
      (stores/sqlite.py and its migrations): the tables with their constraints
      and triggers, and every operation as a transaction on them; the clock
      the store is given is an argument.
    - [ProposalEncoding], [PostgresStore] (stores/postgres.py and its
      migrations): rows, constraints, the guard trigger, effect claims and
      every operation as the statements it sends; [PostgresRefinement]: the
      store keeps the contract; [PostgresWork], [PostgresHistory]: due work,
      its cursor and the histories of its rows.
    - [MysqlStore] (stores/mysql.py and its migrations): the two tables with
      their trigger and procedures, and every operation as statements of which
      any may fail; [MysqlRefinement]: the store keeps the contract;
      [MysqlLiveness]: when nothing fails it does what the contract allows and
      the procedures, whose tests of values are translated, accept;
      [MysqlScenario]: a concrete server.
    - [StoreHarness] (conformance.py): the conformance harness of stores, as
      programs over the store it is given; [StoreHarnessRules]: what one of its
      checks learns of an answer; [StoreHarnessExact]: what it accepts.
    - [Leakage] (conformance.py): the search of objects for seeded secrets.
    - [ProviderHarness] (conformance.py): the harness of commitment providers and
      protection codecs; [ProviderConformance]: what it accepts, and that the local
      custody adapter passes it.

    The runtime:
    - [Recovery] (recovery.py): conditions, steps and due work.
      [RecoveryWorker] (recovery.py): the worker that scans due work.
    - [Evidence] (evidence.py): bundles, their digest and their validation.
    - [Program]: programs that perform operations ([op]: the store, the clock,
      identifiers, events, the host's ports, commitment providers, protection
      codecs, Stripe, key custody and the host of an agent), their executions ([runs], and [run]
      against a handler), and the assertions [wp G R p Q h] (under the
      assumption [R] on answers, [p] performs only what [G] allows and ends in
      [Q]).
    - [Runtime] (runtime.py): every method of [ActionRuntime] as a program.  A
      method of more than a screen is split where its guards end ([execute],
      [execute_resolved], [execute_admitted]); records are updated with
      [set_field] functions, as [model_copy(update=...)] does.
    - [Scenario]: a concrete deployment, on which definitions are evaluated.
    - [Lifecycle]: the abstract machine of one proposal ([lifecycle_step]), and
      the invariant of its records ([live_record]).
    - [RuntimeGuarantee]: for each method, a guarantee on every operation it
      performs given what it performed before.  [RuntimeCalls]: the public
      methods as one type of calls, and bounds on what they perform.
    - [RuntimeReads], [RuntimeSafety]: the properties of single calls, in any
      environment.  [RuntimeWorld]: any number of calls interleaved operation by
      operation over one store, with lost answers and crashes (a call may stop
      being scheduled at any point).  [RuntimeEffects], [EvidenceOfRecords]:
      the properties of such deployments.

    Integrations:
    - [StripeOperation] (integrations/stripe/_operation.py): the workflow the
      three groups share, over a record of a group's own steps
      ([StripePrepared], [Workflow]).  [StripeRefunds] (gateway.py,
      actions.py), [StripeBilling] (subscriptions.py, credit_notes.py): the
      groups; [StripeActions]: the groups as one type and their definitions.
      [StripeLedger] (postgres.py and its migration): the host ledger.
      [StripeSafety], [StripeVerdicts], [StripeEffects], [StripeScenario]:
      their properties and a concrete case.
    - [SdkGateway] (integrations/stripe/sdk_gateway.py, billing_gateway.py): the
      transports over the Stripe SDK, as the requests a method sends and what it
      reads of the object it gets; [SdkSafety]: under a workflow, and the reading.
    - [StripeGoverned], [StripeGovernedScenario]: the runtime and a workflow
      together; [inline serve] answers each request the runtime makes of its
      host with the workflow's program, as [_definition] wires them.
    - [Custody] (what the custodians share), [LocalKek]
      (integrations/local_kek.py), [AwsKms] (integrations/aws_kms.py): both
      custodians, with mutable key buffers as references that programs
      allocate and overwrite.  [CustodySafety], [CustodyHost],
      [CustodyScenario]: their properties, for any answers and on a host whose
      key store keeps what it acknowledges.
    - [Sessions]: database sessions as sequences of transactions, any number of
      them interleaved and abandoned over one database; [ApprovalRequests]
      (integrations/approval_channels, and its migration): the requests a host
      keeps for its approval channels.
    - [Attribution] (attribution.py): the runtime revision of an installation,
      over a record of what the file system and the distribution show.
    - [Authoring] (action.py, experimental/application.py and inspection.py):
      the [Action] base class, applications, handles and bindings.
    - [AgentModels], [AgentTools] (integrations/pydantic_ai.py): the tools an
      agent gets, as programs over the runtime; [AgentSafety],
      [AgentScenario]: what a call of a tool may do, and a concrete call.

    Deployment:
    - [SqlText] (migrations.py, mysql_migrations.py): quoting, placeholders and
      the rendered lifecycle predicate, with what a server reads of them.
    - [Migrations] (migration_compatibility.py, migrations.py,
      sqlite_migrations.py, mysql_migrations.py and the migrations of the
      integrations): the packaged migrations, the ledger, and migrating and
      inspecting each store; [MigrationSafety]: releases, attempts and what they
      leave.  [MigrationScripts] (migrations.py): the offline script, as text and
      as what it does.  [Readiness] (readiness.py, store_security.py and the
      grants and checks of migrations.py and mysql_migrations.py): profiles,
      privileges, the grants scripts and the readiness checks.
      [MigrationScenario]: concrete databases.

    ** What the theorems show

    - The stores: each refines the contract, for records whose free-form members
      are JSON documents the database keeps (PostgreSQL and MySQL: up to the order
      of members); SQLite is the in-memory store with a clock;
      the PostgreSQL guard keeps tombstones; live records of one effect exclude each
      other; of competing writes of one revision one wins.
      MySQL keeps the contract even if two effects have one digest, and admits
      what the contract allows when no statement fails, for updates of the members
      its procedure leaves free.
      The conformance harness passes exactly the stores that answer its calls as
      the in-memory store does, refusals raising or not, and claims of its probes
      acquired or owned.  Its search for secrets misses none among objects
      with identities of their own.
    - The runtime, per call: the gate before the executor, grounded verdicts,
      counted verifications, justified destruction of protected state, events
      that project records, reads that only observe, bounded operations; every
      write is a step of the lifecycle machine.
    - The runtime, per deployment and for every [ActionStore]: stored records
      follow the lifecycle machine and stay well-formed; a second execution of a
      proposal needs an authoritative final absence, and there is none when no
      definition allows resending; what an audit says of what is stored is
      determined, the two cases it mistakes included.
    - Canonical JSON is injective up to member order; the commitment input binds
      reference and payload; evidence is validated exactly as the binding says;
      approvals count distinct declared authorities.
    - The worker holds a lease for everything it does and reports what the
      schedule acknowledged; scans terminate and miss nothing; due work in
      PostgreSQL is discovered in full.
    - Stripe: a mutation is sent at most once per execution and, with the
      ledger, per intent, behind the runtime's gate and the workflow's; amounts
      are exact; completion is reported only for what Stripe showed; the SDK transports send one
      mutating request per execution and observe what Stripe shows.
    - Custody: key bytes are overwritten on every path but one; a protected
      payload opens to itself for its proposal, and never after destruction; the
      local adapter passes the conformance harness of providers.
    - Agents: a tool reaches the executor only in an approved call, for a
      proposal its consumer may read, behind the gate of the runtime; it names no
      other proposal; it leaves the dependency scope it enters, but for one path.
      A binding of a handle is one of what was registered with it.
    - Approval requests: answers agree over any interleaving of sessions.
    - Migrations: the ledger of PostgreSQL and SQLite names just what made the
      schema, whatever releases attempted what; an attempt is all or nothing; on
      MySQL, which commits each statement, the ledger never names more than was
      done; the offline script does what the online migration does; the lifecycle
      predicate in the schema is the table of the package; the grants script
      and the readiness check agree, on PostgreSQL, for each lane.
    - Definitions whose construction is accepted commit to no floats, but for
      what the search does not look at (opaque types, nested classes that allow
      undeclared fields).  Revisions of source checkouts determine the commit and
      the files.

    ** Choices and bounds

    Instants and durations are integers (microseconds), revisions and counters
    unbounded integers as in Python; amounts are integers of minor units with
    their limits written out.  The only fuel is the page count of [scan]
    in [RecoveryWorker] and of the observations of Stripe's lists, the bounds
    the code itself has; for [scan] there is a theorem that it is enough when
    cursors advance.  The search for floats visits each class once, so that the
    number of classes is fuel enough; the search for secrets enters each object
    once, so that the number of objects is (Python's recursion limit is left
    out).  Every other recursion is structural, and bounds on a call are theorems.
    Rely conditions are explicit: [RuntimeSafety] assumes of the answers only
    that records read are well-formed, which [RuntimeWorld] discharges.

    Parameters: the normalization and character classes of Unicode (class
    [Unicode]), what Pydantic dumps of models and SHA-256 ([PyDump] and the
    variables of [Evidence]), the text of proposals and dates in SQLite
    ([SqliteCodec]), what PostgreSQL makes of a JSON document and how it orders
    text ([PostgresServer]: the same value, its members in any order;
    [TextOrder], [LedgerServer]; its clock is part of the database), what MySQL
    makes of one, its comparison of JSON, its SHA-256 and the characters of
    category C in its regular expressions ([MySqlServer]), SHA-256 in the
    references of the harness ([Sha256]), which exceptions are of the Stripe SDK
    ([SdkErrors]), case folding and the decoding of bytes ([Text]), AES-GCM, HMAC
    and digests ([Cryptography], with the documented laws in [CryptographyLaws]),
    what an approval request is read back
    from ([ApprovalCodec]), the metadata of a suspended tool call
    ([AgentCodec]), the installation ([Installation]), and all that hosts and services
    answer.  Host Pydantic classes are names; what their JSON validation gives
    is an answer of the host ([ValidateJson]).

    ** Not modelled

    Of MySQL, the tests of the types and members of a document in its procedures,
    which hold of the document of any [StoredProposal], and the assertion of its
    schema against information_schema with the normalization of definitions.  The
    effect of a packaged migration's SQL is a parameter of [Migrations], so that
    [MigrationScripts] gives effects to the sections of a script and not to its
    text, and supposes what the constraint of migration 004 does.  The command
    line; the HTML rendering of evidence; of conformance.py the harness of the runtime
    and the benchmarks; the review scripts of
    the integrations' migrations; of Stripe, webhooks,
    [observe_effect] and the grouping of arguments.  Of the agent
    integration, the framework's own types and the JSON schemas it derives.
    Logging and the text of validation messages are left out. *)

From Stdlib Require Export ZArith Lia.
From Stdlib Require Import Strings.Byte.
From stdpp Require Export base gmap list fin_maps numbers option.

(** * Python strings

    A Python [str] is a sequence of Unicode code points.  String literals of
    the source are written ["..."%py]; all of them are ASCII. *)

Record pystr := PyStr { code_points : list N }.

Definition pystr_of_bytes (l : list Byte.byte) : pystr := PyStr (Byte.to_N <$> l).

Definition pystr_to_bytes (s : pystr) : option (list Byte.byte) :=
  mapM Byte.of_N (code_points s).

Declare Scope pystr_scope.
Delimit Scope pystr_scope with py.
Bind Scope pystr_scope with pystr.
String Notation pystr pystr_of_bytes pystr_to_bytes : pystr_scope.

#[export] Instance pystr_eq_dec : EqDecision pystr.
Proof. solve_decision. Defined.

#[export] Instance pystr_countable : Countable pystr.
Proof. refine (inj_countable' code_points PyStr _). by intros []. Defined.

(** [a + b] on strings, and [len]. *)
Definition pystr_app (a b : pystr) : pystr := PyStr (code_points a ++ code_points b).
Definition pystr_len (s : pystr) : nat := length (code_points s).
Infix "+:+" := pystr_app (at level 60, right associativity) : pystr_scope.

(** The truth value of an optional string: [None] and [""] are false.  The
    source writes [a or b] for "the reason the host gave, else this one". *)
Definition pystr_or (a : option pystr) (b : pystr) : pystr :=
  match a with
  | Some s => if decide (s = PyStr []) then b else s
  | None => b
  end.

(** * Time

    An aware [datetime] is the instant it denotes and a [timedelta] its
    length, both in microseconds, the resolution of the Python types. *)

Abbreviation datetime := Z (only parsing).
Abbreviation timedelta := Z (only parsing).

Definition minutes (n : Z) : timedelta := (n * 60000000)%Z.
Definition seconds (n : Z) : timedelta := (n * 1000000)%Z.

(** * Exceptions

    The exception classes the package raises or discriminates on.  The four
    open classes stand for host exceptions: subclasses of [ValueError], of
    [KeyError], other subclasses of [Exception], and other subclasses of
    [BaseException]; their argument is the class name. *)

Inductive exn_kind :=
  | ProposalNotFoundError
  | AuthorizationDeniedError (message : pystr)
  | InvalidAuthorityEvidenceError (message : pystr)
  | InvalidActionResultError (message : pystr)
  | RetentionStoreUnavailableError (message : pystr)
  | ProposalPersistenceOutcomeUnknownError (tenant_reference proposal_reference : pystr)
  | ProposalAlreadyExistsError (message : pystr)
  | StoreInvariantError (message : pystr)
  | ValidationError
  | CanonicalizationError (message : pystr)
  | UnicodeEncodeError
  | CancelledError
  | ValueErrorLike (class_name : pystr)
  | KeyErrorLike (class_name : pystr)
  | OtherException (class_name : pystr)
  | OtherBaseException (class_name : pystr).

(** An exception object: its class and payload, and the notes [add_note] put
    on it. *)
Record exn := Exn { exn_class : exn_kind; exn_notes : list pystr }.

Definition raised (k : exn_kind) : exn := Exn k [].
Definition add_note (note : pystr) (e : exn) : exn :=
  Exn (exn_class e) (exn_notes e ++ [note]).

(** [isinstance(e, Exception)], [isinstance(e, (KeyError, ValueError))] and
    [isinstance(e, CancelledError)]. *)
Definition is_Exception (e : exn) : bool :=
  match exn_class e with
  | CancelledError | OtherBaseException _ => false
  | _ => true
  end.

Definition is_KeyError_or_ValueError (e : exn) : bool :=
  match exn_class e with
  | InvalidAuthorityEvidenceError _ | ValidationError | CanonicalizationError _
  | UnicodeEncodeError | ValueErrorLike _ | KeyErrorLike _ => true
  | _ => false
  end.

Definition is_CancelledError (e : exn) : bool :=
  match exn_class e with CancelledError => true | _ => false end.

(** [type(e).__name__]. *)
Definition type_name (e : exn) : pystr :=
  match exn_class e with
  | ProposalNotFoundError => "ProposalNotFoundError"
  | AuthorizationDeniedError _ => "AuthorizationDeniedError"
  | InvalidAuthorityEvidenceError _ => "InvalidAuthorityEvidenceError"
  | InvalidActionResultError _ => "InvalidActionResultError"
  | RetentionStoreUnavailableError _ => "RetentionStoreUnavailableError"
  | ProposalPersistenceOutcomeUnknownError _ _ => "ProposalPersistenceOutcomeUnknownError"
  | ProposalAlreadyExistsError _ => "ProposalAlreadyExistsError"
  | StoreInvariantError _ => "StoreInvariantError"
  | ValidationError => "ValidationError"
  | CanonicalizationError _ => "CanonicalizationError"
  | UnicodeEncodeError => "UnicodeEncodeError"
  | CancelledError => "CancelledError"
  | ValueErrorLike n | KeyErrorLike n | OtherException n | OtherBaseException n => n
  end%py.

#[export] Instance exn_kind_eq_dec : EqDecision exn_kind.
Proof. solve_decision. Defined.
#[export] Instance exn_eq_dec : EqDecision exn.
Proof. solve_decision. Defined.

(** What a synchronous call gives back: a value, or the exception it raises. *)
Inductive res (A : Type) :=
  | Ok (a : A)
  | Err (e : exn).
Arguments Ok {A} a.
Arguments Err {A} e.

Definition fail {A} (k : exn_kind) : res A := Err (raised k).

#[export] Instance res_ret : MRet res := λ A a, Ok a.
#[export] Instance res_bind : MBind res := λ A B f m,
  match m with Ok a => f a | Err e => Err e end.

Lemma Ok_inj {A} (a b : A) : Ok a = Ok b → a = b.
Proof. congruence. Qed.

Lemma res_bind_Ok {A B} (m : res A) (f : A → res B) b :
  (m ≫= f) = Ok b → ∃ a, m = Ok a ∧ f a = Ok b.
Proof. destruct m; [|done]. eauto. Qed.

(** * Generic list operations of the source *)

(** [next((x for x in reversed(l) if f(x)), None)]. *)
Definition find_last {A} (f : A → bool) (l : list A) : option A := List.find f (rev l).

Lemma find_last_Some {A} (f : A → bool) (l : list A) x :
  find_last f l = Some x → x ∈ l ∧ f x = true.
Proof. intros [H ?]%find_some. apply in_rev in H. by rewrite list_elem_of_In. Qed.

Lemma find_last_None {A} (f : A → bool) (l : list A) :
  find_last f l = None → ∀ x, x ∈ l → f x = false.
Proof.
  intros H x Hx. apply (find_none _ _ H), in_rev. by rewrite rev_involutive, <-list_elem_of_In.
Qed.

(** [updated[: len(current)] == current] says that [current] is a prefix. *)
Lemma take_length_prefix {A} (a b : list A) : take (length a) b = a ↔ a `prefix_of` b.
Proof.
  split.
  - intros H. exists (drop (length a) b). by rewrite <-(take_drop (length a) b), H at 1.
  - intros [c ->]. by rewrite take_app_length.
Qed.

Lemma existsb_elem {A} (f : A → bool) (l : list A) :
  existsb f l = true ↔ ∃ x, x ∈ l ∧ f x = true.
Proof. rewrite existsb_exists. by setoid_rewrite list_elem_of_In. Qed.

Lemma existsb_false_elem {A} (f : A → bool) (l : list A) :
  existsb f l = false ↔ ∀ x, x ∈ l → f x = false.
Proof.
  split.
  - intros H x Hx. destruct (f x) eqn:E; [|done].
    assert (existsb f l = true) by (apply existsb_elem; eauto). congruence.
  - intros H. apply not_true_is_false. intros (x & Hx & Hf)%existsb_elem.
    by rewrite H in Hf.
Qed.

(** * Automation *)

Create HintDb actions discriminated.
#[export] Hint Constants Transparent : actions.

(** Split boolean conditions in the hypotheses into propositions. *)
Ltac to_prop :=
  repeat match goal with
  | H : _ && _ = true |- _ => apply andb_prop in H as [? ?]
  | H : _ || _ = false |- _ => apply orb_false_elim in H as [? ?]
  | H : negb _ = true |- _ => apply negb_true_iff in H
  | H : negb _ = false |- _ => apply negb_false_iff in H
  | H : bool_decide _ = true |- _ => apply bool_decide_eq_true_1 in H
  | H : bool_decide _ = false |- _ => apply bool_decide_eq_false_1 in H
  | H : (_ <=? _)%Z = true |- _ => apply Z.leb_le in H
  | H : (_ <=? _)%Z = false |- _ => apply Z.leb_gt in H
  | H : (_ <? _)%Z = true |- _ => apply Z.ltb_lt in H
  | H : (_ <? _)%Z = false |- _ => apply Z.ltb_ge in H
  | H : (_ =? _)%Z = true |- _ => apply Z.eqb_eq in H
  | H : (_ =? _)%Z = false |- _ => apply Z.eqb_neq in H
  end.

(** Case analysis on the next test of a goal or hypothesis. *)
Ltac split_if :=
  match goal with
  | |- context [if ?b then _ else _] => let E := fresh "Hif" in destruct b eqn:E
  | H : context [if ?b then _ else _] |- _ => let E := fresh "Hif" in destruct b eqn:E
  end.

(** Case analysis on membership in a literal list. *)
Ltac elem_cases H := apply list_elem_of_In in H; simpl in H; destruct_or? H; subst; try done.
