(* ===== verification/Models.v ===== *)
(** Boundary models shared by every component: references, action types,
    participants and the lifecycle vocabulary ([models.py]). *)

From S2P Require Import Prelude.

(** * The Unicode database

    [unicodedata] is data the package only reads: the code points whose
    general category starts with ["C"], and normalization form C. *)

Class Unicode := {
  category_other : N → bool;
  normalize_nfc : pystr → pystr
}.

(** A database for ASCII text, used by the witnesses: the control characters
    are the only code points of a [C] category, and NFC changes nothing. *)
Definition ascii_unicode : Unicode := {|
  category_other c := (c <? 32)%N || (c =? 127)%N;
  normalize_nfc s := s
|}.

(** * References *)

(** The white space [str.strip] removes. *)
Definition is_space (c : N) : bool :=
  existsb (λ '(lo, hi), (lo <=? c)%N && (c <=? hi)%N)
    [(9, 13); (28, 32); (133, 133); (160, 160); (5760, 5760); (8192, 8202);
     (8232, 8233); (8239, 8239); (8287, 8287); (12288, 12288)]%N.

Fixpoint lstrip_points (l : list N) : list N :=
  match l with
  | c :: l' => if is_space c then lstrip_points l' else l
  | [] => []
  end.

Definition strip (s : pystr) : pystr :=
  PyStr (reverse (lstrip_points (reverse (lstrip_points (code_points s))))).

Section References.
Context `{U : Unicode}.

Definition _validate_safe_reference (value : pystr) : res pystr :=
  if negb (bool_decide (value = strip value)) then
    fail (ValueErrorLike "reference cannot have leading or trailing whitespace")
  else if existsb category_other (code_points value) then
    fail (ValueErrorLike "reference cannot contain control or format characters")
  else Ok value.

(** [SafeReference]: the length bounds, then the validator; a refusal of
    either is a [ValidationError] of the model under construction. *)
Definition SafeReference (value : pystr) : res pystr :=
  if (1 <=? pystr_len value)%nat && (pystr_len value <=? 255)%nat then
    match _validate_safe_reference value with
    | Ok v => Ok v
    | Err _ => fail ValidationError
    end
  else fail ValidationError.

Definition safe_reference (value : pystr) : bool :=
  match SafeReference value with Ok _ => true | Err _ => false end.

End References.

(** * Names: the patterns [^[a-z][a-z0-9_]*$] and its dotted form *)

Definition lower (c : N) : bool := (97 <=? c)%N && (c <=? 122)%N.
Definition digit (c : N) : bool := (48 <=? c)%N && (c <=? 57)%N.
Definition upper (c : N) : bool := (65 <=? c)%N && (c <=? 90)%N.
Definition name_tail (c : N) : bool := lower c || digit c || (c =? 95)%N.

Definition name_segment (l : list N) : bool :=
  match l with
  | c :: l' => lower c && forallb name_tail l'
  | [] => false
  end.

Definition ActionName (s : pystr) : bool := name_segment (code_points s).

(** Split at the full stops. *)
Fixpoint dot_segments (l : list N) : list (list N) :=
  match l with
  | [] => [[]]
  | c :: l' =>
      match dot_segments l' with
      | seg :: rest => if (c =? 46)%N then [] :: seg :: rest else (c :: seg) :: rest
      | [] => [[c]]
      end
  end.

Definition ActionNamespace (s : pystr) : bool :=
  let segments := dot_segments (code_points s) in
  (2 <=? length segments)%nat && forallb name_segment segments.

Definition CurrencyCode (s : pystr) : bool :=
  (pystr_len s =? 3)%nat && forallb upper (code_points s).

(** * Models *)

Inductive EffectKind := single | itemized.

Record ActionType := mkActionType {
  at_namespace : pystr;
  at_name : pystr;
  at_version : Z
}.

Definition action_type_valid (a : ActionType) : bool :=
  ActionNamespace (at_namespace a) && ActionName (at_name a) && (1 <=? at_version a)%Z.

Record ProposalIdentity := mkProposalIdentity {
  pi_tenant_reference : pystr;
  pi_proposal_reference : pystr
}.

Inductive LifecycleStatus :=
  | AWAITING_AUTHORITY
  | DENIED
  | EXPIRED
  | AUTHORIZED
  | BLOCKED
  | STALE
  | SUPERSEDED
  | EXECUTING
  | FAILED_KNOWN
  | FAILED_UNKNOWN
  | VERIFICATION_PENDING
  | VERIFICATION_UNRESOLVED
  | PARTIALLY_SUCCEEDED
  | VERIFIED.

(** [list(LifecycleStatus)]. *)
Definition lifecycle_statuses : list LifecycleStatus :=
  [AWAITING_AUTHORITY; DENIED; EXPIRED; AUTHORIZED; BLOCKED; STALE; SUPERSEDED;
   EXECUTING; FAILED_KNOWN; FAILED_UNKNOWN; VERIFICATION_PENDING;
   VERIFICATION_UNRESOLVED; PARTIALLY_SUCCEEDED; VERIFIED].

(** [LifecycleStatus.value]. *)
Definition lifecycle_value (s : LifecycleStatus) : pystr :=
  match s with
  | AWAITING_AUTHORITY => "awaiting_authority"
  | DENIED => "denied"
  | EXPIRED => "expired"
  | AUTHORIZED => "authorized"
  | BLOCKED => "blocked"
  | STALE => "stale"
  | SUPERSEDED => "superseded"
  | EXECUTING => "executing"
  | FAILED_KNOWN => "failed_known"
  | FAILED_UNKNOWN => "failed_unknown"
  | VERIFICATION_PENDING => "verification_pending"
  | VERIFICATION_UNRESOLVED => "verification_unresolved"
  | PARTIALLY_SUCCEEDED => "partially_succeeded"
  | VERIFIED => "verified"
  end.

(** The participant models; each wraps one safe reference, and its [kind]
    tag is its type. *)
Record RequestingPrincipal := mkRequestingPrincipal { rp_reference : pystr }.
Record ProposingAgent := mkProposingAgent { pa_reference : pystr }.
Record ConfirmingAuthority := mkConfirmingAuthority { ca_reference : pystr }.
Record GovernedExecutor := mkGovernedExecutor { ge_reference : pystr }.
Record AuthoritativeTarget := mkAuthoritativeTarget { tg_reference : pystr }.
Record EvidenceConsumer := mkEvidenceConsumer { ec_reference : pystr }.
Record RecoveryOperator := mkRecoveryOperator { ro_reference : pystr }.

#[export] Instance EffectKind_eq_dec : EqDecision EffectKind.
Proof. solve_decision. Defined.
#[export] Instance ActionType_eq_dec : EqDecision ActionType.
Proof. solve_decision. Defined.
#[export] Instance ProposalIdentity_eq_dec : EqDecision ProposalIdentity.
Proof. solve_decision. Defined.
#[export] Instance LifecycleStatus_eq_dec : EqDecision LifecycleStatus.
Proof. solve_decision. Defined.
#[export] Instance RequestingPrincipal_eq_dec : EqDecision RequestingPrincipal.
Proof. solve_decision. Defined.
#[export] Instance ProposingAgent_eq_dec : EqDecision ProposingAgent.
Proof. solve_decision. Defined.
#[export] Instance ConfirmingAuthority_eq_dec : EqDecision ConfirmingAuthority.
Proof. solve_decision. Defined.
#[export] Instance GovernedExecutor_eq_dec : EqDecision GovernedExecutor.
Proof. solve_decision. Defined.
#[export] Instance AuthoritativeTarget_eq_dec : EqDecision AuthoritativeTarget.
Proof. solve_decision. Defined.
#[export] Instance EvidenceConsumer_eq_dec : EqDecision EvidenceConsumer.
Proof. solve_decision. Defined.
#[export] Instance RecoveryOperator_eq_dec : EqDecision RecoveryOperator.
Proof. solve_decision. Defined.

(** * Facts *)

Lemma lifecycle_statuses_complete (s : LifecycleStatus) : s ∈ lifecycle_statuses.
Proof. apply list_elem_of_In. destruct s; vm_compute; tauto. Qed.

#[export] Hint Resolve lifecycle_statuses_complete : actions.

Section ReferenceFacts.
Context `{U : Unicode}.

Lemma safe_reference_inv (s : pystr) :
  safe_reference s = true →
  SafeReference s = Ok s ∧ strip s = s ∧ 1 ≤ pystr_len s ≤ 255 ∧
  ∀ c, c ∈ code_points s → category_other c = false.
Proof.
  unfold safe_reference, SafeReference, _validate_safe_reference. intros Hs.
  repeat split_if; try discriminate. cbn. to_prop.
  repeat match goal with H : (_ <=? _)%nat = true |- _ => apply Nat.leb_le in H end.
  repeat split; [done|lia|lia|]. by apply existsb_false_elem.
Qed.

End ReferenceFacts.
