(* ===== verification/Canonical.v ===== *)
(** Canonical JSON, the domain-separated commitment payload, and the metadata
    of protected state ([canonical.py]).

    [canonicalize_v1] is what an approval is bound to, so the results of this
    file say that its output determines the document up to Unicode
    normalization and key order, and that the commitment payload determines
    the proposal reference and the document. *)

From Stdlib Require Import DecimalZ.
From S2P Require Import Prelude Models.

(** * Documents *)

(** A [float] as the source looks at it: finite or not. *)
Inductive pyfloat :=
  | finite_float (mantissa exponent : Z)
  | infinite_float (negative : bool)
  | nan_float.

Definition isfinite (f : pyfloat) : bool :=
  match f with finite_float _ _ => true | _ => false end.

(** [JsonValue]; a [dict] is its items in insertion order.  Python compares
    dictionaries without the order: two are equal when their representatives are
    ([Documents.by_name_object_same]). *)
Inductive json :=
  | JNull
  | JBool (b : bool)
  | JInt (z : Z)
  | JFloat (f : pyfloat)
  | JStr (s : pystr)
  | JList (l : list json)
  | JObj (items : list (pystr * json)).

Abbreviation JsonObject := (list (pystr * json)).

(** What [_normalize] returns: a document without floats. *)
Inductive cjson :=
  | CNull
  | CBool (b : bool)
  | CInt (z : Z)
  | CStr (s : pystr)
  | CList (l : list cjson)
  | CObj (items : list (pystr * cjson)).

#[export] Instance pyfloat_eq_dec : EqDecision pyfloat.
Proof. solve_decision. Defined.

#[export] Instance json_eq_dec : EqDecision json.
Proof.
  refine (fix go (x y : json) : Decision (x = y) :=
    match x, y with
    | JNull, JNull => left eq_refl
    | JBool a, JBool b => cast_if (decide (a = b))
    | JInt a, JInt b => cast_if (decide (a = b))
    | JFloat a, JFloat b => cast_if (decide (a = b))
    | JStr a, JStr b => cast_if (decide (a = b))
    | JList a, JList b => cast_if (@decide (a = b) (@list_eq_dec json go a b))
    | JObj a, JObj b =>
        cast_if (@decide (a = b) (@list_eq_dec _ (@prod_eq_dec _ pystr_eq_dec _ go) a b))
    | _, _ => right _
    end); try clear go; intros; congruence.
Defined.

(** * Key metadata *)

Record KeyedCommitment := mkKeyedCommitment {
  kc_algorithm : pystr;
  kc_key_handle : pystr;
  kc_key_version : pystr;
  kc_digest : pystr
}.

Record ProtectedPayload := mkProtectedPayload {
  pp_codec : pystr;
  pp_key_handle : pystr;
  pp_key_version : pystr;
  pp_ciphertext : pystr
}.

#[export] Instance KeyedCommitment_eq_dec : EqDecision KeyedCommitment.
Proof. solve_decision. Defined.
#[export] Instance ProtectedPayload_eq_dec : EqDecision ProtectedPayload.
Proof. solve_decision. Defined.

(** * Normalization *)

Section Normalization.
Context `{U : Unicode}.

(** The two loops of [_normalize]: over the elements of a list, and over the
    items of a dictionary, whose normalized key is checked against the keys
    already taken before its value is normalized. *)
Definition normalize_elements (f : json → res cjson) : list json → res (list cjson) :=
  fix go l :=
    match l with
    | [] => Ok []
    | x :: l' => y ← f x; ys ← go l'; Ok (y :: ys)
    end.

Definition normalize_entries (f : json → res cjson) :
  list (pystr * cjson) → list (pystr * json) → res (list (pystr * cjson)) :=
  fix go normalized o :=
    match o with
    | [] => Ok normalized
    | (key, item) :: o' =>
        let normalized_key := normalize_nfc key in
        if bool_decide (normalized_key ∈ normalized.*1) then
          fail (CanonicalizationError "keys collide after Unicode normalization")
        else
          v ← f item;
          go (normalized ++ [(normalized_key, v)]) o'
    end.

Fixpoint _normalize (value : json) : res cjson :=
  match value with
  | JNull => Ok CNull
  | JBool b => Ok (CBool b)
  | JInt z => Ok (CInt z)
  | JStr s => Ok (CStr (normalize_nfc s))
  | JFloat f =>
      if isfinite f then fail (CanonicalizationError "floating-point values are forbidden")
      else fail (CanonicalizationError "non-finite numbers are forbidden")
  | JList l => ys ← normalize_elements _normalize l; Ok (CList ys)
  | JObj o => ys ← normalize_entries _normalize [] o; Ok (CObj ys)
  end.

End Normalization.

(** * Printing *)

(** Strings are compared code point by code point. *)
Fixpoint points_leb (a b : list N) : bool :=
  match a, b with
  | [], _ => true
  | _ :: _, [] => false
  | x :: a', y :: b' => (x <? y)%N || ((x =? y)%N && points_leb a' b')
  end.

Definition key_leb {A} (a b : pystr * A) : bool :=
  points_leb (code_points a.1) (code_points b.1).

Fixpoint insert_item {A} (x : pystr * A) (l : list (pystr * A)) : list (pystr * A) :=
  match l with
  | [] => [x]
  | y :: l' => if key_leb x y then x :: l else y :: insert_item x l'
  end.

Definition sort_items {A} (l : list (pystr * A)) : list (pystr * A) :=
  foldr insert_item [] l.

(** [sort_keys=True], at every level. *)
Fixpoint sort_keys (v : cjson) : cjson :=
  match v with
  | CList l => CList (map sort_keys l)
  | CObj o => CObj (sort_items (map (λ '(k, x), (k, sort_keys x)) o))
  | _ => v
  end.

(** The escapes of [json.dumps] with [ensure_ascii=False]. *)
Definition hex_digit (n : N) : N := if (n <? 10)%N then 48 + n else 87 + n.

Definition escape (c : N) : list N :=
  if (c =? 34)%N then [92; 34]%N
  else if (c =? 92)%N then [92; 92]%N
  else if (c =? 10)%N then [92; 110]%N
  else if (c =? 13)%N then [92; 114]%N
  else if (c =? 9)%N then [92; 116]%N
  else if (c =? 8)%N then [92; 98]%N
  else if (c =? 12)%N then [92; 102]%N
  else if (c <? 32)%N then [92; 117; 48; 48; hex_digit (c / 16); hex_digit (c mod 16)]%N
  else [c].

Definition dumps_str (s : pystr) : list N := 34%N :: flat_map escape (code_points s) ++ [34%N].

Fixpoint uint_points (u : Decimal.uint) : list N :=
  match u with
  | Decimal.Nil => []
  | Decimal.D0 u => 48%N :: uint_points u
  | Decimal.D1 u => 49%N :: uint_points u
  | Decimal.D2 u => 50%N :: uint_points u
  | Decimal.D3 u => 51%N :: uint_points u
  | Decimal.D4 u => 52%N :: uint_points u
  | Decimal.D5 u => 53%N :: uint_points u
  | Decimal.D6 u => 54%N :: uint_points u
  | Decimal.D7 u => 55%N :: uint_points u
  | Decimal.D8 u => 56%N :: uint_points u
  | Decimal.D9 u => 57%N :: uint_points u
  end.

Definition dumps_int (z : Z) : list N :=
  match Z.to_int z with
  | Decimal.Pos u => uint_points u
  | Decimal.Neg u => 45%N :: uint_points u
  end.

(** [json.dumps] with compact separators, on a document whose keys are
    already in order. *)
Fixpoint dumps (v : cjson) : list N :=
  match v with
  | CNull => [110; 117; 108; 108]%N
  | CBool true => [116; 114; 117; 101]%N
  | CBool false => [102; 97; 108; 115; 101]%N
  | CInt z => dumps_int z
  | CStr s => dumps_str s
  | CList [] => [91; 93]%N
  | CList (x :: l) => 91%N :: dumps x ++ flat_map (λ y, 44%N :: dumps y) l ++ [93%N]
  | CObj [] => [123; 125]%N
  | CObj ((k, x) :: o) =>
      123%N :: dumps_str k ++ 58%N :: dumps x
        ++ flat_map (λ '(k', y), 44%N :: dumps_str k' ++ 58%N :: dumps y) o ++ [125%N]
  end.

(** Python refuses to print an integer of more than 4300 digits. *)
Definition int_str_bound : Z := 10 ^ 4300.

Fixpoint ints_printable (v : cjson) : bool :=
  match v with
  | CInt z => (Z.abs z <? int_str_bound)%Z
  | CList l => forallb ints_printable l
  | CObj o => forallb (λ '(_, x), ints_printable x) o
  | _ => true
  end.

(** * UTF-8 *)

Abbreviation bytes := (list Z).

Definition is_surrogate (c : N) : bool := (0xD800 <=? c)%N && (c <=? 0xDFFF)%N.

Definition utf8_char (c : N) : res bytes :=
  let z := Z.of_N c in
  if (c <? 0x80)%N then Ok [z]
  else if (c <? 0x800)%N then Ok [0xC0 + z / 64; 0x80 + z mod 64]%Z
  else if is_surrogate c then fail UnicodeEncodeError
  else if (c <? 0x10000)%N then
    Ok [0xE0 + z / 4096; 0x80 + (z / 64) mod 64; 0x80 + z mod 64]%Z
  else if (c <? 0x110000)%N then
    Ok [0xF0 + z / 262144; 0x80 + (z / 4096) mod 64; 0x80 + (z / 64) mod 64; 0x80 + z mod 64]%Z
  else fail UnicodeEncodeError.

Fixpoint utf8 (l : list N) : res bytes :=
  match l with
  | [] => Ok []
  | c :: l' => b ← utf8_char c; bs ← utf8 l'; Ok (b ++ bs)
  end.

(** * The two payloads *)

Section Payloads.
Context `{U : Unicode}.

Definition canonicalize_v1 (document : json) : res bytes :=
  normalized ← _normalize document;
  if ints_printable normalized then utf8 (dumps (sort_keys normalized))
  else fail (CanonicalizationError "document is not canonical JSON").

(** [n.to_bytes(width, "big")]. *)
Fixpoint big_endian (width : nat) (n : Z) : bytes :=
  match width with
  | O => []
  | S w => (n / 256 ^ Z.of_nat w) mod 256 :: big_endian w n
  end%Z.

Definition to_bytes_big (width : nat) (n : Z) : res bytes :=
  if (n <? 256 ^ Z.of_nat width)%Z then Ok (big_endian width n)
  else fail (OtherException "OverflowError").

Definition commitment_prefix : bytes :=
  Z.of_N <$> code_points "threvo-actions:proposal-commitment:v1".

Definition commitment_payload_v1 (proposal_reference : pystr) (canonical_payload : bytes)
  : res bytes :=
  reference ← utf8 (code_points (normalize_nfc proposal_reference));
  reference_length ← to_bytes_big 4 (Z.of_nat (length reference));
  payload_length ← to_bytes_big 8 (Z.of_nat (length canonical_payload));
  Ok (commitment_prefix ++ reference_length ++ reference ++ payload_length
         ++ canonical_payload).

End Payloads.

(** * Injectivity of printing *)

Section CJsonInd.
Variable P : cjson → Prop.
Hypothesis Hnull : P CNull.
Hypothesis Hbool : ∀ b, P (CBool b).
Hypothesis Hint : ∀ z, P (CInt z).
Hypothesis Hstr : ∀ s, P (CStr s).
Hypothesis Hlist : ∀ l, Forall P l → P (CList l).
Hypothesis Hobj : ∀ o, Forall (λ kv, P kv.2) o → P (CObj o).

Fixpoint cjson_ind' (v : cjson) : P v :=
  match v with
  | CNull => Hnull
  | CBool b => Hbool b
  | CInt z => Hint z
  | CStr s => Hstr s
  | CList l => Hlist l ((fix go l : Forall P l :=
      match l with
      | [] => Forall_nil_2 _
      | x :: l' => Forall_cons_2 _ _ _ (cjson_ind' x) (go l')
      end) l)
  | CObj o => Hobj o ((fix go o : Forall (λ kv, P kv.2) o :=
      match o with
      | [] => Forall_nil_2 _
      | kv :: o' => Forall_cons_2 _ kv o' (cjson_ind' kv.2) (go o')
      end) o)
  end.
End CJsonInd.

(** What may follow a printed value: nothing, [,], [\]] or [}]. *)
Definition closes (r : list N) : Prop :=
  match r with [] => True | c :: _ => c = 44%N ∨ c = 93%N ∨ c = 125%N end.

Definition is_digit (c : N) : Prop := (48 <= c <= 57)%N.

Lemma digits_then_closes (a b r s : list N) :
  Forall is_digit a → Forall is_digit b → closes r → closes s →
  a ++ r = b ++ s → a = b ∧ r = s.
Proof.
  intros Ha. revert b. induction Ha as [|x a Hx _ IH]; intros b Hb Hr Hs E.
  - destruct Hb as [|y b Hy _]; [done|]. simpl in E. subst r.
    unfold closes, is_digit in *. lia.
  - destruct Hb as [|y b Hy Hb]; simpl in E.
    + subst s. unfold closes, is_digit in *. lia.
    + injection E as -> E. by destruct (IH b Hb Hr Hs E) as [-> ->].
Qed.

Lemma uint_points_digits u : Forall is_digit (uint_points u).
Proof. induction u; simpl; constructor; try done; unfold is_digit; lia. Qed.

Lemma uint_points_inj u v : uint_points u = uint_points v → u = v.
Proof. revert v. induction u; intros [] [=]; f_equal; auto. Qed.

Lemma to_int_nonnil z u : Z.to_int z = Decimal.Pos u ∨ Z.to_int z = Decimal.Neg u →
  u ≠ Decimal.Nil.
Proof.
  destruct z as [|p|p]; simpl; intros [[= <-]|[= <-]]; try done;
    apply DecimalPos.Unsigned.to_uint_nonnil.
Qed.

Lemma dumps_int_cons z : ∃ c l, dumps_int z = c :: l ∧ (c = 45%N ∨ is_digit c).
Proof.
  unfold dumps_int. destruct (Z.to_int z) as [u|u] eqn:E.
  - assert (Hu := to_int_nonnil z u (or_introl E)).
    assert (Hd := uint_points_digits u). destruct u; try done; simpl in *;
      inversion Hd; eauto 10.
  - eauto 10.
Qed.

Lemma dumps_int_inj z w r s :
  closes r → closes s → dumps_int z ++ r = dumps_int w ++ s → z = w ∧ r = s.
Proof.
  intros Hr Hs E. rewrite <-(DecimalZ.of_to z), <-(DecimalZ.of_to w).
  unfold dumps_int in E.
  assert (Hz := uint_points_digits). assert (Hnz := to_int_nonnil z).
  assert (Hnw := to_int_nonnil w).
  destruct (Z.to_int z) as [u|u], (Z.to_int w) as [v|v]; simpl in E.
  - destruct (digits_then_closes _ _ _ _ (Hz u) (Hz v) Hr Hs E) as [->%uint_points_inj ->]. done.
  - specialize (Hz u). specialize (Hnz u (or_introl eq_refl)).
    destruct u; try done; simpl in E; injection E as ?; discriminate.
  - specialize (Hz v). specialize (Hnw v (or_introl eq_refl)).
    destruct v; try done; simpl in E; injection E as ?; discriminate.
  - injection E as E.
    destruct (digits_then_closes _ _ _ _ (Hz u) (Hz v) Hr Hs E) as [->%uint_points_inj ->]. done.
Qed.

Lemma hex_digit_inj a b : (a < 16)%N → (b < 16)%N → hex_digit a = hex_digit b → a = b.
Proof. unfold hex_digit. intros. repeat split_if; lia. Qed.

Lemma escape_cons c : ∃ x l, escape c = x :: l ∧ x ≠ 34%N.
Proof.
  unfold escape. repeat split_if; eauto. apply N.eqb_neq in Hif. eauto.
Qed.

Lemma cons_tail {A} (x y : A) l m : x :: l = y :: m → l = m.
Proof. congruence. Qed.

Lemma control_inj c d :
  (c < 32)%N → (d < 32)%N → hex_digit (c / 16) = hex_digit (d / 16) →
  hex_digit (c mod 16) = hex_digit (d mod 16) → c = d.
Proof.
  intros Hc Hd ?%hex_digit_inj ?%hex_digit_inj.
  - rewrite (N.div_mod' c 16), (N.div_mod' d 16). congruence.
  - apply N.mod_lt; lia.
  - apply N.mod_lt; lia.
  - apply N.Div0.div_lt_upper_bound; lia.
  - apply N.Div0.div_lt_upper_bound; lia.
Qed.

Lemma escape_inj c d a b : escape c ++ a = escape d ++ b → c = d ∧ a = b.
Proof.
  unfold escape. intros E.
  repeat match type of E with context [if ?t then _ else _] => destruct t eqn:? end;
    simpl in E;
    repeat match goal with
    | H : (_ =? _)%N = true |- _ => apply N.eqb_eq in H; subst
    | H : (_ =? _)%N = false |- _ => apply N.eqb_neq in H
    | H : (_ <? _)%N = true |- _ => apply N.ltb_lt in H
    end;
    injection E; intros; subst; try done; try congruence.
  split; [|done]. by apply control_inj.
Qed.

Lemma escapes_inj (a b r s : list N) :
  flat_map escape a ++ 34%N :: r = flat_map escape b ++ 34%N :: s → a = b ∧ r = s.
Proof.
  revert b. induction a as [|c a IH]; intros [|d b] E; simpl in E.
  - by injection E.
  - destruct (escape_cons d) as (x & l & Hd & ?). rewrite Hd in E. simpl in E. congruence.
  - destruct (escape_cons c) as (x & l & Hc & ?). rewrite Hc in E. simpl in E. congruence.
  - rewrite <-!app_assoc in E. apply escape_inj in E as [-> E].
    by apply IH in E as [-> ->].
Qed.

Lemma dumps_str_inj k l r s : dumps_str k ++ r = dumps_str l ++ s → k = l ∧ r = s.
Proof.
  unfold dumps_str. destruct k as [a], l as [b]. simpl. intros [= E].
  rewrite <-!app_assoc in E. by apply escapes_inj in E as [-> ->].
Qed.

Lemma dumps_str_cons k : ∃ t, dumps_str k = 34%N :: t.
Proof. unfold dumps_str. eauto. Qed.

(** The first code point of a printed value tells its kind. *)
Definition head_kind (c : N) : nat :=
  if (c =? 110)%N then 0 else if (c =? 116)%N then 1 else if (c =? 102)%N then 2
  else if (c =? 34)%N then 3 else if (c =? 91)%N then 4 else if (c =? 123)%N then 5 else 6.

Definition value_kind (v : cjson) : nat :=
  match v with
  | CNull => 0 | CBool true => 1 | CBool false => 2 | CStr _ => 3 | CList _ => 4
  | CObj _ => 5 | CInt _ => 6
  end.

Lemma dumps_head v : ∃ c l, dumps v = c :: l ∧ head_kind c = value_kind v ∧ c ≠ 93%N.
Proof.
  destruct v as [|[]|z|s|[|x l]|[|[k x] o]]; simpl; try (eexists _, _; split; [done|done]).
  destruct (dumps_int_cons z) as (c & l & -> & Hc). exists c, l. split; [done|].
  destruct Hc as [->|Hc]; [done|]. unfold is_digit in Hc. unfold head_kind.
  repeat match goal with |- context [(?a =? ?b)%N] => destruct (N.eqb_spec a b) end; try lia.
Qed.

#[local] Opaque dumps_str dumps_int.

(** The elements of an array and the members of an object, one after the
    other: the separator tells whether another one follows. *)
Lemma dumps_elements_inj (l m : list cjson) (r s : list N) :
  Forall (λ v, ∀ w r s, closes r → closes s → dumps v ++ r = dumps w ++ s → v = w ∧ r = s) l →
  flat_map (λ y, 44%N :: dumps y) l ++ 93%N :: r =
    flat_map (λ y, 44%N :: dumps y) m ++ 93%N :: s →
  l = m ∧ r = s.
Proof.
  intros Hl. revert m. induction Hl as [|x l Hx _ IH]; intros [|y m] E; simpl in E;
    try discriminate.
  - by injection E.
  - injection E as E. rewrite <-!app_assoc in E. apply Hx in E as [-> E].
    + by apply IH in E as [-> ->].
    + destruct l; simpl; auto.
    + destruct m; simpl; auto.
Qed.

Lemma dumps_members_inj (l m : list (pystr * cjson)) (r s : list N) :
  Forall (λ kv, ∀ w r s, closes r → closes s → dumps kv.2 ++ r = dumps w ++ s → kv.2 = w ∧ r = s) l →
  flat_map (λ '(k, y), 44%N :: dumps_str k ++ 58%N :: dumps y) l ++ 125%N :: r =
    flat_map (λ '(k, y), 44%N :: dumps_str k ++ 58%N :: dumps y) m ++ 125%N :: s →
  l = m ∧ r = s.
Proof.
  intros Hl. revert m. induction Hl as [|[k x] l Hx _ IH]; intros [|[j y] m] E; simpl in E;
    try discriminate.
  - by injection E.
  - apply cons_tail in E. rewrite <-!app_assoc in E. apply dumps_str_inj in E as [-> E].
    simpl in E. apply cons_tail in E. rewrite <-?app_assoc in E. simpl in Hx.
    apply Hx in E as [-> E].
    + by apply IH in E as [-> ->].
    + destruct l as [|[? ?] ?]; simpl; auto.
    + destruct m as [|[? ?] ?]; simpl; auto.
Qed.

Lemma dumps_kind v w r s : dumps v ++ r = dumps w ++ s → value_kind v = value_kind w.
Proof.
  destruct (dumps_head v) as (c & l & -> & <- & _), (dumps_head w) as (d & m & -> & <- & _).
  by intros [= -> _].
Qed.

Lemma dumps_inj (v w : cjson) (r s : list N) :
  closes r → closes s → dumps v ++ r = dumps w ++ s → v = w ∧ r = s.
Proof.
  revert w r s. induction v as [|b|z|a|l IH|o IH] using cjson_ind'; intros w r s Hr Hs E;
    assert (Hk := dumps_kind _ _ _ _ E);
    destruct w as [|b'|z'|a'|m|m];
    repeat match goal with b : bool |- _ => destruct b end; try discriminate; clear Hk.
  - by injection E.
  - by injection E.
  - by injection E.
  - by apply dumps_int_inj in E as [-> ->].
  - by apply dumps_str_inj in E as [-> ->].
  - enough (l = m ∧ r = s) as [-> ->] by done.
    apply (dumps_elements_inj _ _ _ _ IH). destruct l as [|x l], m as [|y m]; simpl in *.
    + congruence.
    + destruct (dumps_head y) as (c & t & Hy & _ & ?). rewrite Hy in E. simpl in E. congruence.
    + destruct (dumps_head x) as (c & t & Hx & _ & ?). rewrite Hx in E. simpl in E. congruence.
    + apply cons_tail in E. rewrite <-!app_assoc in E. rewrite <-!app_assoc. simpl in *.
      by rewrite E.
  - enough (o = m ∧ r = s) as [-> ->] by done.
    apply (dumps_members_inj _ _ _ _ IH). destruct o as [|[k x] o], m as [|[j y] m]; simpl in *.
    + congruence.
    + destruct (dumps_str_cons j) as [t Ht]. rewrite Ht in E. simpl in E. congruence.
    + destruct (dumps_str_cons k) as [t Ht]. rewrite Ht in E. simpl in E. congruence.
    + apply cons_tail in E. repeat (rewrite <-app_assoc in E; simpl in E).
      repeat (rewrite <-app_assoc; simpl). by rewrite E.
Qed.

(** ** UTF-8 *)

Lemma utf8_char_inj c d b e (r s : bytes) :
  utf8_char c = Ok b → utf8_char d = Ok e → b ++ r = e ++ s → c = d ∧ r = s.
Proof.
  unfold utf8_char. intros Hc Hd E.
  repeat match goal with
  | H : (if ?t then _ else _) = Ok _ |- _ => destruct t eqn:?; try discriminate
  | H : (_ <? _)%N = true |- _ => apply N.ltb_lt in H
  | H : (_ <? _)%N = false |- _ => apply N.ltb_ge in H
  end; injection Hc as <-; injection Hd as <-; simpl in E; injection E; intros; subst;
  clear E; (split; [|congruence]) || exfalso; Z.to_euclidean_division_equations; lia.
Qed.

Lemma utf8_char_cons c b : utf8_char c = Ok b → ∃ x l, b = x :: l.
Proof. unfold utf8_char. intros. repeat split_if; simplify_eq; eauto. Qed.

Lemma utf8_inj l m b : utf8 l = Ok b → utf8 m = Ok b → l = m.
Proof.
  revert m b. induction l as [|c l IH]; intros [|d m] b Hl Hm; simpl in *.
  - done.
  - injection Hl as <-. apply res_bind_Ok in Hm as (x & Hd & Hm).
    apply res_bind_Ok in Hm as (y & Hm & [= E]).
    apply utf8_char_cons in Hd as (? & ? & ->). done.
  - injection Hm as <-. apply res_bind_Ok in Hl as (x & Hd & Hl).
    apply res_bind_Ok in Hl as (y & Hl & [= E]).
    apply utf8_char_cons in Hd as (? & ? & ->). done.
  - apply res_bind_Ok in Hl as (x & Hc & Hl). apply res_bind_Ok in Hl as (y & Hl & [= <-]).
    apply res_bind_Ok in Hm as (x' & Hd & Hm). apply res_bind_Ok in Hm as (y' & Hm & [= E]).
    destruct (utf8_char_inj _ _ _ _ _ _ Hd Hc E) as [-> ->].
    f_equal. by eapply IH.
Qed.

(** ** Fixed-width lengths *)

Lemma length_big_endian w n : length (big_endian w n) = w.
Proof. revert n. induction w; simpl; auto. Qed.

Lemma big_endian_inj w n m :
  (0 <= n < 256 ^ Z.of_nat w)%Z → (0 <= m < 256 ^ Z.of_nat w)%Z →
  big_endian w n = big_endian w m → n = m.
Proof.
  intros Hn Hm E.
  assert (n mod 256 ^ Z.of_nat w = m mod 256 ^ Z.of_nat w)%Z as Hmod.
  { clear Hn Hm. induction w as [|w IH]; simpl in E; [by rewrite !Z.mod_1_r|].
    injection E as Ew E. apply IH in E.
    rewrite Nat2Z.inj_succ, Z.pow_succ_r, (Z.mul_comm 256) by lia.
    rewrite !Z.rem_mul_r by lia. by rewrite E, Ew. }
  by rewrite !Z.mod_small in Hmod by lia.
Qed.

Lemma to_bytes_big_inv w n b :
  to_bytes_big w n = Ok b → b = big_endian w n ∧ (n < 256 ^ Z.of_nat w)%Z.
Proof. unfold to_bytes_big. split_if; [|done]. intros [= <-]. to_prop. done. Qed.

(** ** Sorting *)

Lemma points_leb_total a b : points_leb a b = true ∨ points_leb b a = true.
Proof.
  revert b. induction a as [|x a IH]; intros [|y b]; simpl; auto.
  destruct (IH b) as [H|H], (N.ltb_spec x y), (N.ltb_spec y x), (N.eqb_spec x y),
    (N.eqb_spec y x); simpl; try rewrite H; auto; lia.
Qed.

Lemma points_leb_antisym a b : points_leb a b = true → points_leb b a = true → a = b.
Proof.
  revert b. induction a as [|x a IH]; intros [|y b]; simpl; try done.
  destruct (N.ltb_spec x y), (N.ltb_spec y x), (N.eqb_spec x y), (N.eqb_spec y x);
    simpl; try lia; try done. intros. subst. f_equal. auto.
Qed.

Lemma points_leb_trans a b c :
  points_leb a b = true → points_leb b c = true → points_leb a c = true.
Proof.
  revert b c. induction a as [|x a IH]; intros [|y b] [|z c]; simpl; try done.
  destruct (N.ltb_spec x y), (N.ltb_spec y z), (N.ltb_spec x z), (N.eqb_spec x y),
    (N.eqb_spec y z), (N.eqb_spec x z); simpl; try lia; try done. apply IH.
Qed.

Lemma key_leb_antisym {A} (x y : pystr * A) : key_leb x y = true → key_leb y x = true → x.1 = y.1.
Proof.
  unfold key_leb. intros H1 H2. assert (H := points_leb_antisym _ _ H1 H2).
  by destruct (x.1), (y.1); simpl in *; subst.
Qed.

Lemma key_leb_flip {A} (x y : pystr * A) : key_leb x y = false → key_leb y x = true.
Proof. unfold key_leb. intros H. destruct (points_leb_total (code_points x.1) (code_points y.1)); congruence. Qed.

Lemma key_leb_trans {A} (x y z : pystr * A) :
  key_leb x y = true → key_leb y z = true → key_leb x z = true.
Proof. apply points_leb_trans. Qed.

Lemma insert_item_comm {A} (x y : pystr * A) l :
  x.1 ≠ y.1 → insert_item x (insert_item y l) = insert_item y (insert_item x l).
Proof.
  intros Hne. induction l as [|z l IH]; simpl.
  - destruct (key_leb x y) eqn:E, (key_leb y x) eqn:E'; try done.
    + by destruct Hne; apply key_leb_antisym.
    + apply key_leb_flip in E. congruence.
  - destruct (key_leb y z) eqn:Hyz, (key_leb x z) eqn:Hxz; simpl;
      rewrite ?Hyz, ?Hxz; try (by rewrite IH).
    + destruct (key_leb x y) eqn:E, (key_leb y x) eqn:E'; try done.
      * by destruct Hne; apply key_leb_antisym.
      * apply key_leb_flip in E. congruence.
    + destruct (key_leb x y) eqn:E; [|done].
      assert (key_leb x z = true) by (by eapply key_leb_trans). congruence.
    + destruct (key_leb y x) eqn:E; [|done].
      assert (key_leb y z = true) by (by eapply key_leb_trans). congruence.
Qed.

Lemma sort_items_Permutation {A} (l m : list (pystr * A)) :
  NoDup l.*1 → l ≡ₚ m → sort_items l = sort_items m.
Proof.
  intros Hnd. apply foldr_permutation; [apply _..|].
  intros i [k x] j [k' y] b Hij Hi Hj. apply insert_item_comm. simpl. intros <-.
  apply Hij. eapply (NoDup_lookup l.*1); [done|..]; rewrite list_lookup_fmap;
    [rewrite Hi|rewrite Hj]; done.
Qed.

Lemma insert_item_Permutation {A} (x : pystr * A) l : insert_item x l ≡ₚ x :: l.
Proof.
  induction l as [|y l IH]; simpl; [done|]. split_if; [done|].
  rewrite IH. apply Permutation_swap.
Qed.

Lemma sort_items_perm {A} (l : list (pystr * A)) : sort_items l ≡ₚ l.
Proof. induction l as [|x l IH]; simpl; [done|]. by rewrite insert_item_Permutation, IH. Qed.

Lemma forallb_Permutation {A} (f : A → bool) l m : l ≡ₚ m → forallb f l = forallb f m.
Proof. induction 1; simpl; try congruence. by rewrite !andb_assoc, (andb_comm (f y)). Qed.

Lemma ints_printable_sort v : ints_printable (sort_keys v) = ints_printable v.
Proof.
  induction v as [| | | |l IH|o IH] using cjson_ind'; simpl; try done.
  - induction IH as [|x l Hx _ IHl]; simpl; congruence.
  - rewrite (forallb_Permutation _ _ _ (sort_items_perm _)).
    induction IH as [|[k x] l Hx _ IHl]; simpl in *; congruence.
Qed.

(** ** What the canonical bytes determine *)

Section JsonInd.
Variable P : json → Prop.
Hypothesis Hnull : P JNull.
Hypothesis Hbool : ∀ b, P (JBool b).
Hypothesis Hint : ∀ z, P (JInt z).
Hypothesis Hfloat : ∀ f, P (JFloat f).
Hypothesis Hstr : ∀ s, P (JStr s).
Hypothesis Hlist : ∀ l, Forall P l → P (JList l).
Hypothesis Hobj : ∀ o, Forall (λ kv, P kv.2) o → P (JObj o).

Fixpoint json_ind' (v : json) : P v :=
  match v with
  | JNull => Hnull
  | JBool b => Hbool b
  | JInt z => Hint z
  | JFloat f => Hfloat f
  | JStr s => Hstr s
  | JList l => Hlist l ((fix go l : Forall P l :=
      match l with
      | [] => Forall_nil_2 _
      | x :: l' => Forall_cons_2 _ _ _ (json_ind' x) (go l')
      end) l)
  | JObj o => Hobj o ((fix go o : Forall (λ kv, P kv.2) o :=
      match o with
      | [] => Forall_nil_2 _
      | kv :: o' => Forall_cons_2 _ kv o' (json_ind' kv.2) (go o')
      end) o)
  end.
End JsonInd.

(** A document holds a float somewhere. *)
Fixpoint has_float (v : json) : bool :=
  match v with
  | JFloat _ => true
  | JList l => existsb has_float l
  | JObj o => existsb (λ '(_, x), has_float x) o
  | _ => false
  end.

(** The specification of the canonical form: normalized text, sorted keys. *)
Definition canonical_form `{U : Unicode} (document : json) : res cjson :=
  v ← _normalize document; Ok (sort_keys v).

Section CanonicalFacts.
Context `{U : Unicode}.

Lemma canonicalize_v1_inv document b :
  canonicalize_v1 document = Ok b ↔
  ∃ v, canonical_form document = Ok v ∧ ints_printable v = true ∧ utf8 (dumps v) = Ok b.
Proof.
  unfold canonicalize_v1, canonical_form. destruct (_normalize document) as [v|e]; simpl.
  - rewrite <-(ints_printable_sort v). split.
    + destruct (ints_printable _) eqn:E; [|done]. eauto.
    + by intros (w & [= <-] & -> & ?).
  - split; [done|]. by intros (w & ? & _).
Qed.

Lemma canonical_bytes_inj v w b : utf8 (dumps v) = Ok b → utf8 (dumps w) = Ok b → v = w.
Proof.
  intros Hv Hw. assert (E := utf8_inj _ _ _ Hv Hw).
  apply (dumps_inj v w [] []); simpl; auto. by rewrite !app_nil_r.
Qed.

Definition is_canonicalization_error {A} (r : res A) : Prop :=
  ∃ message, r = fail (CanonicalizationError message).

Lemma normalize_errors v : match _normalize v with
  | Ok _ => has_float v = false
  | Err _ => is_canonicalization_error (_normalize v)
  end.
Proof.
  unfold is_canonicalization_error.
  induction v as [| | | | |l IH|o IH] using json_ind'; simpl; try done.
  - destruct (isfinite f); simpl; eauto.
  - enough (match normalize_elements _normalize l with
            | Ok _ => existsb has_float l = false
            | Err e => ∃ m, e = raised (CanonicalizationError m) end) as Hl.
    { destruct (normalize_elements _ l); simpl; [done|]. destruct Hl as [? ->]. by eexists. }
    induction IH as [|x l Hx _ IHl]; simpl; [done|].
    destruct (_normalize x) as [y|]; simpl in *.
    + destruct (normalize_elements _ l); simpl; [|done]. by rewrite Hx, IHl.
    + destruct Hx as [? [= ->]]. eauto.
  - enough (∀ acc, match normalize_entries _normalize acc o with
            | Ok _ => existsb (λ '(_, x), has_float x) o = false
            | Err e => ∃ m, e = raised (CanonicalizationError m) end) as Ho.
    { specialize (Ho []). destruct (normalize_entries _ [] o); simpl; [done|].
      destruct Ho as [? ->]. by eexists. }
    induction IH as [|[k x] o Hx _ IHo]; intros acc; simpl; [done|].
    case_bool_decide; [by eexists|]. simpl in Hx.
    destruct (_normalize x) as [y|]; simpl in *.
    + specialize (IHo (acc ++ [(normalize_nfc k, y)])).
      destruct (normalize_entries _ _ o); simpl; [|done]. by rewrite Hx, IHo.
    + destruct Hx as [? [= ->]]. eauto.
Qed.

End CanonicalFacts.

Section CanonicalTheorems.
Context `{U : Unicode}.

(** The items a dictionary normalizes to, as a relation that does not depend
    on the order of the loop. *)
Definition entry_normal (x : pystr * json) (y : pystr * cjson) : Prop :=
  y.1 = normalize_nfc x.1 ∧ _normalize x.2 = Ok y.2.

Lemma normalize_entries_Ok acc o ys :
  NoDup acc.*1 →
  normalize_entries _normalize acc o = Ok ys ↔
  ∃ zs, ys = acc ++ zs ∧ Forall2 entry_normal o zs ∧ NoDup ys.*1.
Proof.
  revert acc. induction o as [|[k x] o IH]; intros acc Hacc; simpl.
  - split.
    + intros [= <-]. exists []. rewrite app_nil_r. auto.
    + intros (zs & -> & Hzs & _). inversion Hzs. by rewrite app_nil_r.
  - split.
    + intros H. case_bool_decide as Hk; [done|].
      apply res_bind_Ok in H as (y & Hy & H). apply IH in H as (zs & -> & Hzs & Hnd).
      * eexists. rewrite <-app_assoc. split; [done|]. split; [|by rewrite <-app_assoc in Hnd].
        constructor; [|done]. done.
      * rewrite fmap_app. apply list.NoDup_app. split; [done|]. split; [|apply NoDup_singleton].
        intros j Hj ->%list_elem_of_singleton. by apply Hk.
    + intros (zs & -> & Hzs & Hnd). inversion Hzs as [|? [k' y] ? zs' [Hk Hy] Hzs']; subst.
      simpl in *. subst k'. assert (Hnd' := Hnd). rewrite fmap_app in Hnd'.
      apply list.NoDup_app in Hnd' as (_ & Hdis & _).
      case_bool_decide as Hk; [exfalso; apply (Hdis _ Hk); left|].
      rewrite Hy. simpl. apply IH.
      * rewrite fmap_app. apply list.NoDup_app. split; [done|]. split; [|apply NoDup_singleton].
        intros j Hj ->%list_elem_of_singleton. by apply Hk.
      * exists zs'. rewrite <-app_assoc. auto.
Qed.

Lemma normalize_JObj_Permutation o o' v :
  o ≡ₚ o' → _normalize (JObj o) = Ok v →
  ∃ v', _normalize (JObj o') = Ok v' ∧ sort_keys v = sort_keys v'.
Proof.
  intros Ho H. simpl in *. apply res_bind_Ok in H as (ys & H & [= <-]).
  apply normalize_entries_Ok in H as (zs & -> & Hzs & Hnd); [|constructor].
  simpl in *. destruct (Permutation_Forall2 Ho Hzs) as (zs' & Hp & Hzs').
  exists (CObj zs'). split.
  - replace (normalize_entries _normalize [] o') with (Ok zs'); [done|]. symmetry.
    apply normalize_entries_Ok; [constructor|]. exists zs'. split_and!; [done..|].
    by rewrite <-Hp.
  - simpl. f_equal. apply sort_items_Permutation; [|by rewrite Hp].
    eapply eq_ind_r with (P := NoDup); [exact Hnd|].
    clear. induction zs as [|[k x] zs IH]; simpl; [done|]. f_equal. exact IH.
Qed.

(** C21: [canonicalize_v1] is a faithful name of the document: a document gets
    the bytes of another one exactly when the two have the same canonical
    form, that is when they are equal up to normalization form C of their
    strings and keys and up to the order of keys. *)
Theorem canonicalize_v1_binds (document other : json) (b : bytes)
  (Hdoc : canonicalize_v1 document = Ok b) :
  canonicalize_v1 other = Ok b ↔ canonical_form other = canonical_form document.
Proof.
  apply canonicalize_v1_inv in Hdoc as (v & Hv & Hp & Hb). rewrite canonicalize_v1_inv, Hv.
  split; [|eauto]. intros (w & -> & _ & Hw). f_equal. by eapply canonical_bytes_inj.
Qed.

(** The canonical bytes of an object do not depend on the order in which
    its items were inserted. *)
Theorem canonicalize_v1_item_order (items items' : JsonObject) (b : bytes)
  (Hperm : items ≡ₚ items') (Hdoc : canonicalize_v1 (JObj items) = Ok b) :
  canonicalize_v1 (JObj items') = Ok b.
Proof.
  apply canonicalize_v1_inv in Hdoc as (v & Hv & Hp & Hb). apply canonicalize_v1_inv.
  exists v. split; [|done]. unfold canonical_form in *.
  apply res_bind_Ok in Hv as (w & Hw & [= <-]).
  destruct (normalize_JObj_Permutation _ _ _ Hperm Hw) as (w' & -> & E). simpl. by rewrite E.
Qed.

(** A document that holds a floating-point number anywhere, finite or not,
    is refused with a [CanonicalizationError]. *)
Theorem canonicalize_v1_rejects_floats (document : json) (Hfloat : has_float document = true) :
  is_canonicalization_error (canonicalize_v1 document).
Proof.
  assert (H := normalize_errors document). unfold canonicalize_v1.
  destruct (_normalize document) as [v|e]; simpl; [congruence|].
  destruct H as [m [= ->]]. by exists m.
Qed.

Lemma commitment_payload_v1_inj reference payload reference' payload' b :
  commitment_payload_v1 reference payload = Ok b →
  commitment_payload_v1 reference' payload' = Ok b →
  normalize_nfc reference = normalize_nfc reference' ∧ payload = payload'.
Proof.
  unfold commitment_payload_v1. intros H H'.
  apply res_bind_Ok in H as (r & Hr & H). apply res_bind_Ok in H as (rl & Hrl & H).
  apply res_bind_Ok in H as (pl & Hpl & <-%Ok_inj).
  apply res_bind_Ok in H' as (r' & Hr' & H'). apply res_bind_Ok in H' as (rl' & Hrl' & H').
  apply res_bind_Ok in H' as (pl' & Hpl' & H').
  apply to_bytes_big_inv in Hrl as [-> ?], Hrl' as [-> ?], Hpl as [-> ?], Hpl' as [-> ?].
  apply Ok_inj in H'. apply app_inv_head in H' as E.
  apply app_inj_1 in E as [El E]; [|by rewrite !length_big_endian].
  apply big_endian_inj in El; [|lia..].
  apply app_inj_1 in E as [<- E]; [|lia].
  apply app_inj_1 in E as [_ E]; [|by rewrite !length_big_endian].
  split; [|done].
  assert (code_points (normalize_nfc reference) = code_points (normalize_nfc reference'))
    as Hpts by by eapply utf8_inj.
  by destruct (normalize_nfc reference), (normalize_nfc reference'); simpl in *; subst.
Qed.

(** The commitment an approval is bound to determines both what was
    approved and for which proposal: if the commitment payloads of two
    proposals over two documents coincide, the normalized proposal references
    are equal and so are the canonical forms of the documents. *)
Theorem commitment_payload_v1_binds (reference reference' : pystr) (document document' : json)
  (canonical canonical' payload : bytes)
  (Hdoc : canonicalize_v1 document = Ok canonical)
  (Hdoc' : canonicalize_v1 document' = Ok canonical')
  (Hpay : commitment_payload_v1 reference canonical = Ok payload)
  (Hpay' : commitment_payload_v1 reference' canonical' = Ok payload) :
  normalize_nfc reference = normalize_nfc reference' ∧
  canonical_form document = canonical_form document'.
Proof.
  destruct (commitment_payload_v1_inj _ _ _ _ _ Hpay Hpay') as [Href ->]. split; [done|].
  apply canonicalize_v1_inv in Hdoc as (v & Hv & _ & Hb).
  apply canonicalize_v1_inv in Hdoc' as (w & Hw & _ & Hb').
  rewrite Hv, Hw. f_equal. by eapply canonical_bytes_inj.
Qed.

End CanonicalTheorems.

(** * Witnesses *)

Definition sample_document : json :=
  JObj [("b"%py, JInt (-12)); ("a"%py, JList [JNull; JBool true; JStr "x"])].
Definition sample_document' : json :=
  JObj [("a"%py, JList [JNull; JBool true; JStr "x"]); ("b"%py, JInt (-12))].
Definition sample_bytes : bytes :=
  Z.of_N <$> [123; 34; 97; 34; 58; 91; 110; 117; 108; 108; 44; 116; 114; 117; 101; 44; 34; 120;
   34; 93; 44; 34; 98; 34; 58; 45; 49; 50; 125]%N.

Example sample_canonical : canonicalize_v1 (U := ascii_unicode) sample_document = Ok sample_bytes.
Proof. vm_compute. reflexivity. Qed.

Lemma canonicalize_v1_binds_witness :
  canonicalize_v1 (U := ascii_unicode) sample_document' = Ok sample_bytes.
Proof.
  apply (canonicalize_v1_binds (U := ascii_unicode) sample_document).
  - vm_compute. reflexivity.
  - vm_compute. reflexivity.
Defined.

Lemma canonicalize_v1_item_order_witness :
  canonicalize_v1 (U := ascii_unicode) sample_document' = Ok sample_bytes.
Proof.
  refine (canonicalize_v1_item_order (U := ascii_unicode)
    [("b"%py, JInt (-12)); ("a"%py, JList [JNull; JBool true; JStr "x"])] _ _ _ _).
  - apply perm_swap.
  - vm_compute. reflexivity.
Defined.

Lemma canonicalize_v1_rejects_floats_witness :
  is_canonicalization_error
    (canonicalize_v1 (U := ascii_unicode) (JObj [("amount"%py, JFloat (finite_float 1 (-1)))])).
Proof. apply (canonicalize_v1_rejects_floats (U := ascii_unicode)). reflexivity. Defined.

Definition sample_payload : bytes :=
  match commitment_payload_v1 (U := ascii_unicode) "p-1" sample_bytes with
  | Ok b => b | Err _ => [] end.

Lemma commitment_payload_v1_binds_witness :
  canonical_form (U := ascii_unicode) sample_document =
  canonical_form (U := ascii_unicode) sample_document'.
Proof.
  refine (proj2 (commitment_payload_v1_binds (U := ascii_unicode) "p-1" "p-1" sample_document
    sample_document' sample_bytes sample_bytes sample_payload _ _ _ _)); vm_compute; reflexivity.
Defined.
