(* ===== verification/Authority.v ===== *)
(** Authority evidence and its validation against a binding ([authority.py]). *)

From S2P Require Import Prelude Models.

Inductive AuthorityDecision := APPROVE | REJECT.

(** [AuthorityDecision.DENY] is an alias of [REJECT]: same value. *)
Definition DENY : AuthorityDecision := REJECT.

Record AuthorityBinding := mkAuthorityBinding {
  ab_tenant_reference : pystr;
  ab_action_type : ActionType;
  ab_proposal_instance_reference : pystr;
  ab_semantic_effect_reference : pystr;
  ab_proposal_commitment : pystr;
  ab_required_audience : pystr;
  ab_required_channel_assurance : pystr
}.

Inductive AuthorityValidationFailure := BINDING_MISMATCH | AUTHORITY_EVIDENCE_EXPIRED | NOT_YET_VALID.

(** [AuthorityValidationFailure.value]. *)
Definition validation_failure_value (f : AuthorityValidationFailure) : pystr :=
  match f with
  | BINDING_MISMATCH => "binding_mismatch"
  | AUTHORITY_EVIDENCE_EXPIRED => "expired"
  | NOT_YET_VALID => "not_yet_valid"
  end.

Record AuthorityValidationResult := mkAuthorityValidationResult {
  av_valid : bool;
  av_failure : option AuthorityValidationFailure
}.

Record ExternalAuthorityAttestation := mkExternalAuthorityAttestation {
  ea_format : pystr;
  ea_issuer_reference : pystr;
  ea_artifact_reference : pystr;
  ea_artifact_digest : pystr
}.

(** The three literal fields [kind], [domain] and [schema_version] have one
    value each and are left out. *)
Record AuthorityEvidence := mkAuthorityEvidence {
  ae_tenant_reference : pystr;
  ae_action_type : ActionType;
  ae_proposal_instance_reference : pystr;
  ae_semantic_effect_reference : pystr;
  ae_authority : ConfirmingAuthority;
  ae_audience : list pystr;
  ae_decision : AuthorityDecision;
  ae_proposal_commitment : pystr;
  ae_channel_assurance : pystr;
  ae_issued_at : datetime;
  ae_expires_at : datetime;
  ae_external_attestation : option ExternalAuthorityAttestation
}.

#[export] Instance AuthorityDecision_eq_dec : EqDecision AuthorityDecision.
Proof. solve_decision. Defined.
#[export] Instance AuthorityBinding_eq_dec : EqDecision AuthorityBinding.
Proof. solve_decision. Defined.
#[export] Instance ExternalAuthorityAttestation_eq_dec : EqDecision ExternalAuthorityAttestation.
Proof. solve_decision. Defined.
#[export] Instance AuthorityEvidence_eq_dec : EqDecision AuthorityEvidence.
Proof. solve_decision. Defined.

(** What the model accepts: a non-empty audience, and the validator
    [expiry_follows_issue_time]. *)
Definition expiry_follows_issue_time (e : AuthorityEvidence) : res AuthorityEvidence :=
  if (ae_expires_at e <=? ae_issued_at e)%Z then
    fail (ValueErrorLike "expires_at must be later than issued_at")
  else Ok e.

Definition authority_evidence_matches_binding (evidence : AuthorityEvidence)
  (binding : AuthorityBinding) : bool :=
  bool_decide (ae_tenant_reference evidence = ab_tenant_reference binding)
  && bool_decide (ae_action_type evidence = ab_action_type binding)
  && bool_decide (ae_proposal_instance_reference evidence = ab_proposal_instance_reference binding)
  && bool_decide (ae_semantic_effect_reference evidence = ab_semantic_effect_reference binding)
  && bool_decide (ae_proposal_commitment evidence = ab_proposal_commitment binding)
  && bool_decide (ab_required_audience binding ∈ ae_audience evidence)
  && bool_decide (ae_channel_assurance evidence = ab_required_channel_assurance binding).

Definition validate_authority_evidence (evidence : AuthorityEvidence)
  (binding : AuthorityBinding) (now : datetime) : AuthorityValidationResult :=
  if negb (authority_evidence_matches_binding evidence binding) then
    mkAuthorityValidationResult false (Some BINDING_MISMATCH)
  else if (now <? ae_issued_at evidence)%Z then
    mkAuthorityValidationResult false (Some NOT_YET_VALID)
  else if (ae_expires_at evidence <=? now)%Z then
    mkAuthorityValidationResult false (Some AUTHORITY_EVIDENCE_EXPIRED)
  else mkAuthorityValidationResult true None.

(** * Facts *)

(** The declarative reading of a match. *)
Record evidence_bound (e : AuthorityEvidence) (b : AuthorityBinding) : Prop := {
  bound_tenant : ae_tenant_reference e = ab_tenant_reference b;
  bound_action : ae_action_type e = ab_action_type b;
  bound_proposal : ae_proposal_instance_reference e = ab_proposal_instance_reference b;
  bound_effect : ae_semantic_effect_reference e = ab_semantic_effect_reference b;
  bound_commitment : ae_proposal_commitment e = ab_proposal_commitment b;
  bound_audience : ab_required_audience b ∈ ae_audience e;
  bound_assurance : ae_channel_assurance e = ab_required_channel_assurance b
}.

Lemma authority_evidence_matches_bound e b :
  authority_evidence_matches_binding e b = true ↔ evidence_bound e b.
Proof.
  unfold authority_evidence_matches_binding. rewrite !andb_true_iff, !bool_decide_eq_true.
  split; [intros; destruct_and!; by constructor|intros []; auto 10].
Qed.

Lemma validate_authority_evidence_valid e b now :
  av_valid (validate_authority_evidence e b now) = true ↔
  evidence_bound e b ∧ (ae_issued_at e <= now < ae_expires_at e)%Z.
Proof.
  rewrite <-authority_evidence_matches_bound. unfold validate_authority_evidence.
  destruct (authority_evidence_matches_binding e b); simpl; [|by intuition].
  destruct (Z.ltb_spec now (ae_issued_at e)); simpl; [intuition; lia|].
  destruct (Z.leb_spec (ae_expires_at e) now); simpl; intuition; lia.
Qed.

(** Evidence is accepted exactly when every security dimension of the
    binding matches and the instant lies in the half-open validity interval;
    otherwise the failure names the first dimension that does not hold, in the
    order binding, start, expiry. *)
Theorem validate_authority_evidence_correct (e : AuthorityEvidence) (b : AuthorityBinding)
  (now : datetime) :
  match av_failure (validate_authority_evidence e b now) with
  | None => av_valid (validate_authority_evidence e b now) = true ∧ evidence_bound e b ∧
      (ae_issued_at e <= now < ae_expires_at e)%Z
  | Some f => av_valid (validate_authority_evidence e b now) = false ∧
      match f with
      | BINDING_MISMATCH => ¬ evidence_bound e b
      | NOT_YET_VALID => evidence_bound e b ∧ (now < ae_issued_at e)%Z
      | AUTHORITY_EVIDENCE_EXPIRED => evidence_bound e b ∧ (ae_issued_at e <= now)%Z ∧
          (ae_expires_at e <= now)%Z
      end
  end.
Proof.
  assert (Hb := authority_evidence_matches_bound e b). unfold validate_authority_evidence.
  destruct (authority_evidence_matches_binding e b); simpl; [|by split; [|intros ?%Hb]].
  assert (evidence_bound e b) by by apply Hb.
  destruct (Z.ltb_spec now (ae_issued_at e)); simpl; [done|].
  destruct (Z.leb_spec (ae_expires_at e) now); simpl; auto.
Qed.
