(* ===== verification/Receipts.v ===== *)
(** Receipts and runtime events ([receipts.py]). *)

From S2P Require Import Prelude Models.

Inductive ProposalReceiptStatus := PR_PREPARED | PR_FAILED | PR_MISSING.
Inductive AuthorityReceiptStatus := AR_RECORDED | AR_REJECTED | AR_FAILED | AR_MISSING.
Inductive ExecutionReceiptStatus :=
  | ER_STARTED | ER_ACCEPTED | ER_PARTIALLY_SUCCEEDED | ER_STALE_NO_EFFECT
  | ER_FAILED_KNOWN | ER_FAILED_UNKNOWN | ER_MISSING.
Inductive VerificationReceiptStatus :=
  | VR_VERIFIED_COMPLETION | VR_VERIFIED_TERMINAL_FAILURE | VR_PROVISIONAL_ABSENCE
  | VR_AUTHORITATIVE_FINAL_ABSENCE | VR_TARGET_UNAVAILABLE | VR_VERIFICATION_UNRESOLVED
  | VR_MISSING.
Inductive RecoveryReceiptStatus := RR_VERIFICATION_RESUMED.

Record ExternalReference := mkExternalReference {
  er_system : pystr;
  er_reference : pystr
}.

Inductive ItemOutcomeStatus := IO_SUCCEEDED | IO_FAILED_KNOWN | IO_FAILED_UNKNOWN.

Record ItemOutcome := mkItemOutcome {
  io_item_reference : pystr;
  io_status : ItemOutcomeStatus;
  io_reason_code : option pystr
}.

(** The fields every receipt carries.  [schema_version] is a literal of one
    value, which [evidence.py] reads back: it is kept. *)
Record ReceiptBase := mkReceiptBase {
  rb_schema_version : pystr;
  rb_receipt_reference : pystr;
  rb_correlation_reference : pystr;
  rb_causation_reference : pystr;
  rb_observed_at : datetime;
  rb_runtime_revision : option pystr;
  rb_external_reference : option ExternalReference;
  rb_corrects_receipt_reference : option pystr;
  rb_supersedes_receipt_reference : option pystr;
  rb_reason_code : option pystr
}.

(** The discriminated union on [receipt_type]. *)
Inductive Receipt :=
  | ProposalReceipt (base : ReceiptBase) (status : ProposalReceiptStatus)
      (requesting_principal : RequestingPrincipal) (proposing_agent : option ProposingAgent)
  | AuthorityReceipt (base : ReceiptBase) (status : AuthorityReceiptStatus)
      (participant : ConfirmingAuthority)
  | ExecutionReceipt (base : ReceiptBase) (status : ExecutionReceiptStatus)
      (participant : GovernedExecutor) (item_outcomes : list ItemOutcome)
  | VerificationReceipt (base : ReceiptBase) (status : VerificationReceiptStatus)
      (participant : AuthoritativeTarget) (item_outcomes : list ItemOutcome)
  | RecoveryReceipt (base : ReceiptBase) (status : RecoveryReceiptStatus)
      (participant : RecoveryOperator).

Definition receipt_base (r : Receipt) : ReceiptBase :=
  match r with
  | ProposalReceipt b _ _ _ | AuthorityReceipt b _ _ | ExecutionReceipt b _ _ _
  | VerificationReceipt b _ _ _ | RecoveryReceipt b _ _ => b
  end.

(** [isinstance(receipt, VerificationReceipt)]. *)
Definition is_VerificationReceipt (r : Receipt) : bool :=
  match r with VerificationReceipt _ _ _ _ => true | _ => false end.

Definition verification_status (r : Receipt) : option VerificationReceiptStatus :=
  match r with VerificationReceipt _ s _ _ => Some s | _ => None end.

Definition execution_status (r : Receipt) : option ExecutionReceiptStatus :=
  match r with ExecutionReceipt _ s _ _ => Some s | _ => None end.

Inductive RuntimeEventType :=
  | PROPOSAL_PREPARED | AUTHORITY_RECORDED | LIFECYCLE_CHANGED
  | VERIFICATION_OBSERVED | VERIFICATION_RESUMED | PROPOSAL_ERASED.

Record RuntimeEvent := mkRuntimeEvent {
  ev_event_type : RuntimeEventType;
  ev_tenant_reference : pystr;
  ev_proposal_reference : pystr;
  ev_action_type : ActionType;
  ev_lifecycle_status : LifecycleStatus;
  ev_correlation_reference : pystr;
  ev_observed_at : datetime;
  ev_reason_code : option pystr
}.

#[export] Instance ProposalReceiptStatus_eq_dec : EqDecision ProposalReceiptStatus.
Proof. solve_decision. Defined.
#[export] Instance AuthorityReceiptStatus_eq_dec : EqDecision AuthorityReceiptStatus.
Proof. solve_decision. Defined.
#[export] Instance ExecutionReceiptStatus_eq_dec : EqDecision ExecutionReceiptStatus.
Proof. solve_decision. Defined.
#[export] Instance VerificationReceiptStatus_eq_dec : EqDecision VerificationReceiptStatus.
Proof. solve_decision. Defined.
#[export] Instance RecoveryReceiptStatus_eq_dec : EqDecision RecoveryReceiptStatus.
Proof. solve_decision. Defined.
#[export] Instance ExternalReference_eq_dec : EqDecision ExternalReference.
Proof. solve_decision. Defined.
#[export] Instance ItemOutcomeStatus_eq_dec : EqDecision ItemOutcomeStatus.
Proof. solve_decision. Defined.
#[export] Instance ItemOutcome_eq_dec : EqDecision ItemOutcome.
Proof. solve_decision. Defined.
#[export] Instance ReceiptBase_eq_dec : EqDecision ReceiptBase.
Proof. solve_decision. Defined.
#[export] Instance Receipt_eq_dec : EqDecision Receipt.
Proof. solve_decision. Defined.

(** * Reading receipts *)

(** The last verification receipt, and its status. *)
Definition last_verification (receipts : list Receipt) : option Receipt :=
  find_last is_VerificationReceipt receipts.

Definition last_verification_status (receipts : list Receipt) : option VerificationReceiptStatus :=
  last_verification receipts ≫= verification_status.

(** The last reason code any receipt gives. *)
Definition last_reason_code (receipts : list Receipt) : option pystr :=
  find_last (λ r, bool_decide (is_Some (rb_reason_code (receipt_base r)))) receipts
    ≫= λ r, rb_reason_code (receipt_base r).
