(* ===== verification/Registry.v ===== *)
(** Host boundary types, action definitions and the action registry
    ([registry.py]).

    Host objects reached through the protocols of the source (authorization,
    executor, verifier, ...) are handles: what they answer is not part of the
    program.  Host Pydantic classes are identified by name. *)

From S2P Require Import Prelude Models Canonical Authority Receipts.

(** * Contexts *)

Record PreparationContext := mkPreparationContext {
  pc_tenant_reference : pystr;
  pc_requesting_principal : RequestingPrincipal;
  pc_proposing_agent : option ProposingAgent;
  pc_prepared_at : datetime
}.

Record DecisionContext := mkDecisionContext {
  dc_tenant_reference : pystr;
  dc_authority : ConfirmingAuthority;
  dc_decided_at : datetime
}.

Record ReadContext := mkReadContext {
  rd_tenant_reference : pystr;
  rd_consumer : EvidenceConsumer
}.

Record RecoveryContext := mkRecoveryContext {
  rv_tenant_reference : pystr;
  rv_operator : RecoveryOperator;
  rv_intervention_reference : pystr;
  rv_requested_at : datetime
}.

Record ExecutionContext := mkExecutionContext {
  xc_tenant_reference : pystr;
  xc_proposal_reference : pystr;
  xc_semantic_effect_reference : pystr;
  xc_requesting_principal : RequestingPrincipal;
  xc_authorities : list ConfirmingAuthority;
  xc_observed_at : datetime
}.

(** * Host results *)

Record AuthorizationResult := mkAuthorizationResult {
  az_allowed : bool;
  az_reason_code : option pystr
}.

Record AuthorityEvaluation := mkAuthorityEvaluation {
  au_satisfied : bool;
  au_reason_code : option pystr
}.

(** An instance of a host Pydantic model: its class, and its JSON dump. *)
Record PyModel := mkPyModel {
  model_class : pystr;
  model_dump_json : JsonObject
}.

Record PreparedAction := mkPreparedAction {
  pd_private_snapshot : PyModel;
  pd_display_preview : PyModel;
  pd_semantic_effect_reference : pystr
}.

Record ResolvedState := mkResolvedState {
  rs_current_snapshot : PyModel;
  rs_execution_precondition : pystr;
  rs_materially_drifted : bool;
  rs_replacement : option PreparedAction
}.

Inductive ExecutionStatus :=
  | EX_ACCEPTED | EX_STALE_NO_EFFECT | EX_FAILED_KNOWN | EX_FAILED_UNKNOWN
  | EX_PARTIALLY_SUCCEEDED.

Record ExecutionResult := mkExecutionResult {
  xr_status : ExecutionStatus;
  xr_result : option PyModel;
  xr_item_outcomes : list ItemOutcome;
  xr_external_reference : option ExternalReference;
  xr_reason_code : option pystr
}.

Inductive VerificationStatus :=
  | VS_VERIFIED_COMPLETION | VS_VERIFIED_TERMINAL_FAILURE | VS_PROVISIONAL_ABSENCE
  | VS_AUTHORITATIVE_FINAL_ABSENCE | VS_TARGET_UNAVAILABLE.

Record VerificationResult := mkVerificationResult {
  vr_status : VerificationStatus;
  vr_result : option PyModel;
  vr_item_outcomes : list ItemOutcome;
  vr_external_reference : option ExternalReference;
  vr_reason_code : option pystr;
  vr_settling_boundary_passed : bool;
  vr_target_idempotency_guaranteed : bool
}.

#[export] Instance ExecutionStatus_eq_dec : EqDecision ExecutionStatus.
Proof. solve_decision. Defined.
#[export] Instance VerificationStatus_eq_dec : EqDecision VerificationStatus.
Proof. solve_decision. Defined.

Definition item_succeeded (i : ItemOutcome) : bool := bool_decide (io_status i = IO_SUCCEEDED).
Definition item_unknown (i : ItemOutcome) : bool := bool_decide (io_status i = IO_FAILED_UNKNOWN).

(** The model validator of [ExecutionResult]. *)
Definition partial_requires_items (r : ExecutionResult) : res ExecutionResult :=
  let partial := bool_decide (xr_status r = EX_PARTIALLY_SUCCEEDED) in
  if partial && bool_decide (xr_item_outcomes r = []) then
    fail (ValueErrorLike "partial execution requires item outcomes")
  else if partial && forallb item_succeeded (xr_item_outcomes r) then
    fail (ValueErrorLike "partial execution requires at least one unsuccessful item")
  else if partial && negb (existsb item_succeeded (xr_item_outcomes r)) then
    fail (ValueErrorLike "partial execution requires at least one successful item")
  else if bool_decide (xr_status r = EX_STALE_NO_EFFECT)
       && (bool_decide (is_Some (xr_result r)) || negb (bool_decide (xr_item_outcomes r = []))
           || bool_decide (is_Some (xr_external_reference r))) then
    fail (ValueErrorLike "stale no-effect execution cannot carry an effect result")
  else Ok r.

(** The model validator of [VerificationResult]. *)
Definition absence_requires_consistent_evidence (r : VerificationResult) : res VerificationResult :=
  let absence := bool_decide (vr_status r ∈ [VS_PROVISIONAL_ABSENCE; VS_AUTHORITATIVE_FINAL_ABSENCE]) in
  let items := negb (bool_decide (vr_item_outcomes r = [])) in
  if absence && (bool_decide (is_Some (vr_result r)) || items) then
    fail (ValueErrorLike "absence verification cannot carry effect outcomes")
  else if bool_decide (vr_status r = VS_VERIFIED_COMPLETION) && items
       && negb (existsb item_succeeded (vr_item_outcomes r)) then
    fail (ValueErrorLike "verified completion requires at least one successful item")
  else if bool_decide (vr_status r ∈ [VS_VERIFIED_COMPLETION; VS_VERIFIED_TERMINAL_FAILURE])
       && existsb item_unknown (vr_item_outcomes r) then
    fail (ValueErrorLike "terminal verification cannot contain an unknown item outcome")
  else if xorb (bool_decide (vr_status r = VS_AUTHORITATIVE_FINAL_ABSENCE))
            (vr_settling_boundary_passed r) then
    fail (ValueErrorLike
      "settling_boundary_passed must be true only for authoritative final absence")
  else Ok r.

(** * Action definitions *)

(** A handle on a host object. *)
Abbreviation port := positive.

(** The two forms a commitment provider and a protection codec come in; the
    runtime tells them apart with [isinstance]. *)
Inductive CommitmentProviderPort :=
  | CommitmentProvider (p : port)
  | ProposalBoundCommitmentProvider (p : port).

Inductive ProtectionCodecPort :=
  | ProtectionCodec (p : port)
  | ProposalBoundProtectionCodec (p : port).

Record ActionDefinition := mkActionDefinition {
  ad_action_type : ActionType;
  ad_command_model : pystr;
  ad_private_snapshot_model : pystr;
  ad_display_preview_model : pystr;
  ad_result_model : pystr;
  ad_preparation : port;
  ad_authorization : port;
  ad_authority_evaluator : port;
  ad_state_resolver : port;
  ad_executor : port;
  ad_verifier : port;
  ad_commitment_provider : CommitmentProviderPort;
  ad_protection_codec : ProtectionCodecPort;
  ad_retention : port;
  ad_proposal_ttl : timedelta;
  ad_executor_identity : GovernedExecutor;
  ad_target_identity : AuthoritativeTarget;
  ad_authority_audience : pystr;
  ad_authority_channel_assurance : pystr;
  ad_recovery_authorization : option port;
  ad_verification_delay : timedelta;
  ad_max_verification_attempts : Z;
  ad_effect_kind : EffectKind;
  ad_allow_resend_after_final_absence : bool;
  ad_verification_lease_duration : timedelta
}.

(** * The registry *)

Abbreviation ActionKey := (pystr * pystr * Z)%type.

Definition _action_key (a : ActionType) : ActionKey := (at_namespace a, at_name a, at_version a).

Record ActionRegistry := mkActionRegistry {
  _definitions : gmap ActionKey ActionDefinition
}.

Definition empty_registry : ActionRegistry := mkActionRegistry ∅.

Definition register (definition : ActionDefinition) (r : ActionRegistry) : res ActionRegistry :=
  let key := _action_key (ad_action_type definition) in
  match _definitions r !! key with
  | Some _ => fail (OtherException "DuplicateActionError")
  | None => Ok (mkActionRegistry (<[key := definition]> (_definitions r)))
  end.

Definition model_contract (d : ActionDefinition) : pystr * pystr * pystr * pystr :=
  (ad_command_model d, ad_private_snapshot_model d, ad_display_preview_model d, ad_result_model d).

Definition get_typed (action_type : ActionType) (command_model private_snapshot_model
  display_preview_model result_model : pystr) (r : ActionRegistry) : res ActionDefinition :=
  match _definitions r !! _action_key action_type with
  | None => fail (OtherException "ActionNotRegisteredError")
  | Some value =>
      if bool_decide (model_contract value =
           (command_model, private_snapshot_model, display_preview_model, result_model))
      then Ok value
      else fail (OtherException "DefinitionTypeMismatchError")
  end.

(** * Facts *)

Lemma _action_key_inj a b : _action_key a = _action_key b → a = b.
Proof. destruct a, b. unfold _action_key. simpl. congruence. Qed.

(** The registry is a typed finite map: after registering [d], looking up
    any action type with any requested models gives [d] exactly when the type
    is that of [d] and the four models are the registered ones, a type
    mismatch when only the type is, and what it gave before otherwise; a
    second registration of the type of [d] is refused. *)
Theorem register_get_typed (d : ActionDefinition) (r r' : ActionRegistry)
  (Hreg : register d r = Ok r') :
  (∀ a c p v t, get_typed a c p v t r' =
     if decide (a = ad_action_type d) then
       if decide (model_contract d = (c, p, v, t)) then Ok d
       else fail (OtherException "DefinitionTypeMismatchError")
     else get_typed a c p v t r) ∧
  ∀ d', ad_action_type d' = ad_action_type d →
    register d' r' = fail (OtherException "DuplicateActionError").
Proof.
  unfold register in Hreg. destruct (_definitions r !! _) eqn:E; [done|].
  injection Hreg as <-. split.
  - intros a c p v t. unfold get_typed. simpl. case_decide as Ha.
    + subst a. rewrite lookup_insert_eq. case_bool_decide; case_decide; done.
    + rewrite lookup_insert_ne; [done|]. intros Ek. by apply _action_key_inj in Ek.
  - intros d' Hd'. unfold register. simpl. by rewrite Hd', lookup_insert_eq.
Qed.
