(* ===== verification/Conformance.v ===== *)
(** The conformance of an action definition's declared models ([registry.py]):
    the settings every boundary model must have, the search of the private
    snapshot model for floating-point fields, and the construction checks of
    [ActionDefinition].

    Python's classes are a finite table.  The search visits each class once, so
    as many nested visits as there are classes are enough ([scan_exact]). *)

From stdpp Require Import sorting.
From S2P Require Import Prelude Models Canonical Authority Receipts Registry.

(** * Classes *)

(** A field's annotation: [float] itself or a literal float; a model class; a
    generic type with its arguments ([X | None], [list[X]], [dict[str, X]],
    [tuple[X, Y]]); a type of values that are no floats ([str], [int], [Decimal],
    [None]); or a type whose values the search does not look into ([Any],
    [object], a dataclass, a [TypedDict], an alias).  The search treats the last
    two alike. *)
Inductive annotation :=
  | AFloat
  | AModel (class_name : pystr)
  | AGeneric (arguments : list annotation)
  | AScalar
  | AOpaque.

Record ModelConfig := mkModelConfig {
  mc_extra : option pystr;
  mc_strict : option bool;
  mc_frozen : option bool
}.

(** What Pydantic knows of a host class. *)
Record ModelClass := mkModelClass {
  cls_config : ModelConfig;
  cls_fields : list (pystr * annotation)
}.

Definition _assert_boundary_model_config (m : ModelConfig) : bool :=
  bool_decide (mc_extra m = Some "forbid"%py)
  && bool_decide (mc_strict m = Some true)
  && bool_decide (mc_frozen m = Some true).

(** What [inspect] accumulates: the paths found and the classes visited. *)
Record inspection := mkInspection {
  found_paths : list pystr;
  visited : gset pystr
}.

Definition child_path (path field_name : pystr) : pystr :=
  (if decide (path = PyStr []) then field_name else path +:+ "." +:+ field_name)%py.

Section Classes.
Context (classes : gmap pystr ModelClass).

(** [inspect], given how a class is inspected. *)
Definition inspect_annotation (inspect_class : pystr → pystr → inspection → inspection)
  : annotation → pystr → inspection → inspection :=
  fix inspect a path st :=
    match a with
    | AFloat => mkInspection (found_paths st ++ [path]) (visited st)
    | AModel c => inspect_class c path st
    | AGeneric arguments => fold_left (λ st argument, inspect argument path st) arguments st
    | AScalar | AOpaque => st
    end.

(** The branch of [inspect] for a class, with [fuel] nested visits left. *)
Fixpoint inspect_class (fuel : nat) (c path : pystr) (st : inspection) : inspection :=
  match fuel with
  | O => st
  | S fuel =>
      if decide (c ∈ visited st) then st
      else
        match classes !! c with
        | None => st
        | Some cls =>
            fold_left
              (λ st '(field_name, a), inspect_annotation (inspect_class fuel) a (child_path path field_name) st)
              (cls_fields cls) (mkInspection (found_paths st) ({[c]} ∪ visited st))
        end
  end.

Definition path_le (a b : pystr) : Prop := points_leb (code_points a) (code_points b) = true.
#[local] Instance path_le_dec : RelDecision path_le.
Proof. intros a b. unfold path_le. apply _. Defined.

(** [tuple(sorted(set(paths)))]. *)
Definition _floating_point_field_paths (model : pystr) : list pystr :=
  merge_sort path_le (remove_dups (found_paths (inspect_class (S (size classes)) model (PyStr []) (mkInspection [] ∅)))).

Definition model_config (c : pystr) : ModelConfig :=
  match classes !! c with Some cls => cls_config cls | None => mkModelConfig None None None end.

Definition assert_boundary_models_conform (command_model private_snapshot_model
  display_preview_model result_model : pystr) : res unit :=
  if negb (forallb (λ c, _assert_boundary_model_config (model_config c))
       [command_model; private_snapshot_model; display_preview_model; result_model]) then
    fail (ValueErrorLike "DefinitionConformanceError")
  else if negb (bool_decide (_floating_point_field_paths private_snapshot_model = [])) then
    fail (ValueErrorLike "DefinitionConformanceError")
  else Ok ().

(** [ActionDefinition.__post_init__]. *)
Definition ActionDefinition_post_init `{U : Unicode} (d : ActionDefinition) : res ActionDefinition :=
  if (ad_proposal_ttl d <=? 0)%Z then fail (ValueErrorLike "proposal_ttl must be positive")
  else if (ad_verification_delay d <? 0)%Z then
    fail (ValueErrorLike "verification_delay must not be negative")
  else if (ad_max_verification_attempts d <=? 0)%Z then
    fail (ValueErrorLike "max_verification_attempts must be positive")
  else if (ad_verification_lease_duration d <=? 0)%Z then
    fail (ValueErrorLike "verification_lease_duration must be positive")
  else
    _ ← SafeReference (ad_authority_audience d);
    _ ← SafeReference (ad_authority_channel_assurance d);
    _ ← assert_boundary_models_conform (ad_command_model d) (ad_private_snapshot_model d)
          (ad_display_preview_model d) (ad_result_model d);
    Ok d.

(** * Values of a type

    [reaches t a]: the type [t] can be reached from [a] through fields and
    arguments.  [typed a v]: [v] is what a validated value of type [a] dumps to: a
    class dumps its declared fields and, when it is configured with
    [extra="allow"], members it does not declare, of any value.  Computed fields,
    serializers of the host's own and defaults that are not validated are not
    modelled. *)
Inductive reaches (target : annotation) : annotation → Prop :=
  | reaches_here : reaches target target
  | reaches_argument arguments a : a ∈ arguments → reaches target a → reaches target (AGeneric arguments)
  | reaches_field c cls field_name a : classes !! c = Some cls → (field_name, a) ∈ cls_fields cls →
      reaches target a → reaches target (AModel c).

Definition scalar_value (v : json) : Prop :=
  match v with JNull | JBool _ | JInt _ | JStr _ => True | _ => False end.

Inductive typed : annotation → json → Prop :=
  | typed_float f : typed AFloat (JFloat f)
  | typed_scalar v : scalar_value v → typed AScalar v
  | typed_opaque v : typed AOpaque v
  | typed_argument arguments a v : a ∈ arguments → typed a v → typed (AGeneric arguments) v
  | typed_list arguments l : (∀ v, v ∈ l → ∃ a, a ∈ arguments ∧ typed a v) →
      typed (AGeneric arguments) (JList l)
  | typed_dict arguments o : (∀ k v, (k, v) ∈ o → ∃ a, a ∈ arguments ∧ typed a v) →
      typed (AGeneric arguments) (JObj o)
  | typed_model c cls o : classes !! c = Some cls →
      (∀ k v, (k, v) ∈ o →
         (∃ a, (k, a) ∈ cls_fields cls ∧ typed a v) ∨
         mc_extra (cls_config cls) = Some "allow"%py ∧ k ∉ (cls_fields cls).*1) →
      typed (AModel c) (JObj o).

(** What the search does not look at: an opaque type, or the members a class
    takes without declaring them. *)
Definition unsearched (a : annotation) : Prop :=
  reaches AOpaque a ∨ ∃ c, reaches (AModel c) a ∧ mc_extra (model_config c) = Some "allow"%py.

(** * The search finds exactly the floats *)

(** Everything an annotation mentions is visited, and it is no float. *)
Fixpoint covered (V : gset pystr) (a : annotation) : Prop :=
  match a with
  | AFloat => False
  | AModel c => c ∈ V ∨ classes !! c = None
  | AGeneric arguments => foldr (λ a P, covered V a ∧ P) True arguments
  | AScalar | AOpaque => True
  end.

Definition fields_covered (V : gset pystr) (c : pystr) : Prop :=
  ∀ cls, classes !! c = Some cls → ∀ f a, (f, a) ∈ cls_fields cls → covered V a.

Lemma covered_arguments V arguments :
  covered V (AGeneric arguments) ↔ ∀ a, a ∈ arguments → covered V a.
Proof.
  simpl. induction arguments as [|a l IH]; simpl; [by split; [intros _ a []%elem_of_nil|]|].
  rewrite IH. setoid_rewrite elem_of_cons. split; [by intros [? ?] b [->|]; auto|]. intros H. split; auto.
Qed.

Section Annotation_ind.
Context (P : annotation → Prop) (Hf : P AFloat) (Hm : ∀ c, P (AModel c)) (Hs : P AScalar) (Ho : P AOpaque)
  (Hg : ∀ l, (∀ a, a ∈ l → P a) → P (AGeneric l)).

Fixpoint annotation_ind' (a : annotation) : P a :=
  match a with
  | AFloat => Hf
  | AModel c => Hm c
  | AScalar => Hs
  | AOpaque => Ho
  | AGeneric l => Hg l ((fix go l : ∀ a, a ∈ l → P a :=
      match l with
      | [] => λ a H, match not_elem_of_nil a H with end
      | b :: l' => λ a H, match proj1 (elem_of_cons l' a b) H with
                          | or_introl E => eq_rect_r P (annotation_ind' b) E
                          | or_intror H => go l' a H
                          end
      end) l)
  end.
End Annotation_ind.

Lemma covered_mono V V' a : V ⊆ V' → covered V a → covered V' a.
Proof.
  intros HV. induction a as [|c| | |l IH] using annotation_ind'; [done| |done|done|].
  - intros [?|?]; [left; by apply HV|by right].
  - rewrite !covered_arguments. auto.
Qed.

(** What a part of the search does: [C] is covered by what is visited at its
    end, and [F] holds if it finds a path. *)
Record inspects (C : gset pystr → Prop) (F : Prop) (st st' : inspection) : Prop := {
  inspects_visited : visited st ⊆ visited st';
  inspects_found : ∃ ps, found_paths st' = found_paths st ++ ps ∧ (ps ≠ [] → F);
  inspects_covers : found_paths st' = [] → C (visited st') ∧
    ∀ c, c ∈ visited st' → c ∈ visited st ∨ fields_covered (visited st') c
}.

Lemma inspects_trans (C1 C2 : gset pystr → Prop) F st1 st2 st3 :
  (∀ V V', V ⊆ V' → C1 V → C1 V') →
  inspects C1 F st1 st2 → inspects C2 F st2 st3 → inspects (λ V, C1 V ∧ C2 V) F st1 st3.
Proof.
  intros Hm [V1 (ps1 & E1 & F1) K1] [V2 (ps2 & E2 & F2) K2]. split.
  - by etrans.
  - exists (ps1 ++ ps2). rewrite E2, E1, app_assoc. split; [done|].
    destruct ps1; [by rewrite app_nil_l|auto].
  - intros E3. assert (found_paths st2 = []) as E by (rewrite E2 in E3; by destruct (found_paths st2)).
    destruct (K1 E) as [HC1 HN1], (K2 E3) as [HC2 HN2]. split; [split; [by eapply Hm|done]|].
    intros c [Hc|Hc]%HN2; [|by right]. apply HN1 in Hc as [|Hc]; [by left|right].
    intros cls Hl f a Hfa. eapply covered_mono; [exact V2|]. by eapply Hc.
Qed.

(** A loop over the parts [l]. *)
Lemma inspects_fold {X} (part : inspection → X → inspection) (C : X → gset pystr → Prop) (F : Prop)
  (N : inspection → Prop) (l : list X) st :
  (∀ x V V', V ⊆ V' → C x V → C x V') →
  (∀ st st' : inspection, visited st ⊆ visited st' → N st → N st') →
  (∀ x st, x ∈ l → N st → inspects (C x) F st (part st x)) → N st →
  inspects (λ V, ∀ x, x ∈ l → C x V) F st (fold_left part l st).
Proof.
  intros Hm Hn. revert st. induction l as [|x l IH]; intros st Hp Hst; simpl.
  - split; [done|exists []; by rewrite app_nil_r|]. intros _. split; [intros x []%elem_of_nil|auto].
  - assert (inspects (C x) F st (part st x)) as H1 by (apply Hp; [by left|done]).
    assert (N (part st x)) as Hst' by (eapply Hn; [apply H1|done]).
    assert (H2 := IH (part st x) (λ y st Hy, Hp y st (proj2 (elem_of_cons l y x) (or_intror Hy))) Hst').
    destruct (inspects_trans _ _ F _ _ _ (Hm x) H1 H2) as [V E K]. split; [done|done|].
    intros E'. destruct (K E') as [[? ?] ?]. split; [|done]. intros y [->|]%elem_of_cons; auto.
Qed.

(** The classes that are still to be visited. *)
Definition unvisited (st : inspection) : nat := size (dom classes ∖ visited st).

Lemma smaller_difference (D V : gset pystr) c : c ∈ D → c ∉ V → size (D ∖ ({[c]} ∪ V)) < size (D ∖ V).
Proof.
  intros Hd Hv. apply subset_size. split; [set_solver|]. intros H.
  assert (c ∈ D ∖ ({[c]} ∪ V)) as Hc; [apply H; set_solver|set_solver].
Qed.

Lemma unvisited_mono st st' : visited st ⊆ visited st' → unvisited st' ≤ unvisited st.
Proof. intros H. unfold unvisited. apply subseteq_size. set_solver. Qed.

Lemma inspects_same C F st : C (visited st) → inspects C F st st.
Proof. split; [done|exists []; by rewrite app_nil_r|auto]. Qed.

Lemma inspects_weaken C C' (F F' : Prop) st st' :
  inspects C F st st' → (∀ V, C V → C' V) → (F → F') → inspects C' F' st st'.
Proof.
  intros [V (ps & E & HF) K] HC HF'. split; [done|exists ps; auto|]. intros [? ?]%K. auto.
Qed.

(** The search of an annotation, when the search of a class is right. *)
Lemma inspect_annotation_inspects (visit : pystr → pystr → inspection → inspection) n a path st :
  (∀ c path st, unvisited st ≤ n →
     inspects (λ V, covered V (AModel c)) (reaches AFloat (AModel c)) st (visit c path st)) →
  unvisited st ≤ n →
  inspects (λ V, covered V a) (reaches AFloat a) st (inspect_annotation visit a path st).
Proof.
  intros Hv. revert st. induction a as [|c| | |l IH] using annotation_ind'; intros st Hn; simpl.
  - split; [done|exists [path]; split; [done|constructor]|]. by intros []%app_nil.
  - by apply Hv.
  - by apply inspects_same.
  - by apply inspects_same.
  - eapply inspects_weaken; [apply (inspects_fold _ (λ a V, covered V a) (reaches AFloat (AGeneric l))
      (λ st, unvisited st ≤ n))| |done].
    + intros a V V'. apply covered_mono.
    + intros s s' Hs%unvisited_mono. lia.
    + intros a s Ha Hs. eapply inspects_weaken; [by apply IH|done|]. by apply reaches_argument.
    + done.
    + intros V H. by apply covered_arguments.
Qed.

Lemma inspect_class_inspects n c path st :
  unvisited st < n →
  inspects (λ V, covered V (AModel c)) (reaches AFloat (AModel c)) st (inspect_class n c path st).
Proof.
  revert c path st. induction n as [|n IH]; intros c path st Hn; [lia|]. simpl.
  destruct (decide (c ∈ visited st)) as [Hc|Hc]; [apply inspects_same; by left|].
  destruct (classes !! c) as [cls|] eqn:Hl; [|apply inspects_same; by right].
  set (st1 := mkInspection (found_paths st) ({[c]} ∪ visited st)).
  assert (unvisited st1 < n) as H1.
  { unfold unvisited in *. simpl. assert (c ∈ dom classes ∖ visited st) as Hin.
    { apply elem_of_difference. split; [by apply elem_of_dom_2 in Hl|done]. }
    apply elem_of_difference in Hin as [Hd _]. assert (H := smaller_difference _ _ _ Hd Hc). lia. }
  assert (inspects (λ V, ∀ x, x ∈ cls_fields cls → covered V x.2) (reaches AFloat (AModel c)) st1
    (fold_left (λ st '(field_name, a), inspect_annotation (inspect_class n) a (child_path path field_name) st)
       (cls_fields cls) st1)) as [V E K].
  { apply inspects_fold with (N := λ st, unvisited st < n).
    - intros x V V'. apply covered_mono.
    - intros s s' Hs%unvisited_mono. lia.
    - intros [f a] s Hx Hs. simpl. destruct n as [|n']; [lia|].
      eapply inspects_weaken; [apply (inspect_annotation_inspects _ n')| |].
      + intros c' p' s' Hs'. apply IH. lia.
      + lia.
      + done.
      + by eapply reaches_field.
    - done. }
  split.
  - etrans; [|exact V]. simpl. set_solver.
  - exact E.
  - intros [HC HN]%K. split; [left; apply V; simpl; set_solver|].
    intros c' [Hc'|Hc']%HN; [|by right]. simpl in Hc'.
    apply elem_of_union in Hc' as [->%elem_of_singleton|Hc']; [right|by left].
    intros cls' Hl' f a Hfa. rewrite Hl in Hl'. injection Hl' as <-. exact (HC (f, a) Hfa).
Qed.

(** The search of the model: it is empty exactly when no [float] is reached. *)
Theorem scan_exact (model : pystr) :
  _floating_point_field_paths model = [] ↔ ¬ reaches AFloat (AModel model).
Proof.
  set (st := inspect_class (S (size classes)) model (PyStr []) (mkInspection [] ∅)).
  assert (_floating_point_field_paths model = [] ↔ found_paths st = []) as ->.
  { unfold _floating_point_field_paths. fold st. split; [|by intros ->].
    intros E. assert (Hp := merge_sort_Permutation path_le (remove_dups (found_paths st))).
    rewrite E in Hp. apply Permutation_nil in Hp. destruct (found_paths st) as [|p ps]; [done|].
    assert (p ∈ remove_dups (p :: ps)) as Hin by (apply elem_of_remove_dups; by left). rewrite Hp in Hin. by apply elem_of_nil in Hin. }
  destruct (inspect_class_inspects (S (size classes)) model (PyStr []) (mkInspection [] ∅)) as [_ (ps & E & HF) K].
  { unfold unvisited. simpl. rewrite difference_empty_L, size_dom. lia. }
  fold st in E, K. simpl in E. rewrite E. split.
  - intros ->. destruct (K E) as [HC HN].
    assert (∀ a, reaches AFloat a → covered (visited st) a → False) as Hno; [|by intros ?%Hno].
    clear E HC. induction 1 as [|l a Ha _ IH|c cls f a Hl Hf _ IH]; [done| |].
    + rewrite covered_arguments. auto.
    + intros [Hc|Hc]; [|congruence]. apply IH. destruct (HN c Hc) as [[]%elem_of_empty|Hfc].
      by eapply Hfc.
  - intros Hno. destruct ps; [done|]. destruct Hno. by apply HF.
Qed.

(** ** Values of a type without floats *)

(** The part of a type that a value is made of. *)
Inductive made_of : annotation → json → Prop :=
  | made_float f : made_of AFloat (JFloat f)
  | made_scalar v : scalar_value v → made_of AScalar v
  | made_opaque v : made_of AOpaque v
  | made_list arguments l : (∀ v, v ∈ l → ∃ a, a ∈ arguments ∧ typed a v) →
      made_of (AGeneric arguments) (JList l)
  | made_dict arguments o : (∀ k v, (k, v) ∈ o → ∃ a, a ∈ arguments ∧ typed a v) →
      made_of (AGeneric arguments) (JObj o)
  | made_model c cls o : classes !! c = Some cls →
      (∀ k v, (k, v) ∈ o →
         (∃ a, (k, a) ∈ cls_fields cls ∧ typed a v) ∨
         mc_extra (cls_config cls) = Some "allow"%py ∧ k ∉ (cls_fields cls).*1) → made_of (AModel c) (JObj o).

Lemma typed_made a v :
  typed a v → ∃ b, made_of b v ∧ ∀ target, reaches target b → reaches target a.
Proof.
  induction 1 as [f|v|v|l a v Ha _ (b & Hb & IH)|l vs|l o|c cls o];
    try (eexists; split; [by econstructor|done]).
  exists b. split; [done|]. intros target Ht. by eapply reaches_argument, IH.
Qed.

Lemma unsearched_part a b :
  (∀ target, reaches target b → reaches target a) → unsearched b → unsearched a.
Proof. intros H [Ho|(c & Hc & He)]; [left; auto|right; exists c; auto]. Qed.

Lemma typed_floatless v a :
  typed a v → ¬ reaches AFloat a → ¬ unsearched a → has_float v = false.
Proof.
  revert a. induction v as [| | | | |l IH|o IH] using json_ind'; intros a Ht Hf Ho; try done;
    destruct (typed_made _ _ Ht) as (b & Hb & Hr);
    (assert (¬ reaches AFloat b) as Hf' by auto);
    (assert (¬ unsearched b) as Ho' by (intros Hx; by eapply Ho, unsearched_part));
    clear Hr Ht Hf Ho; inversion Hb; subst; try done; try (by destruct Ho'; left; constructor);
    try (by destruct Hf'; constructor); simpl.
  - apply existsb_false_elem. intros v Hv. rewrite List.Forall_forall in IH.
    destruct (H1 v Hv) as (a' & Ha' & Ht). apply (IH v) with a'; [by apply list_elem_of_In|done|..];
      [intros Hr; apply Hf'; by eapply reaches_argument|].
    intros Hx. apply Ho'. eapply unsearched_part; [|exact Hx]. intros target. by apply reaches_argument.
  - apply existsb_false_elem. intros [k v] Hv. rewrite List.Forall_forall in IH.
    destruct (H1 k v Hv) as (a' & Ha' & Ht). apply (IH (k, v)) with a'; [by apply list_elem_of_In|done|..];
      [intros Hr; apply Hf'; by eapply reaches_argument|].
    intros Hx. apply Ho'. eapply unsearched_part; [|exact Hx]. intros target. by apply reaches_argument.
  - apply existsb_false_elem. intros [k v] Hv. rewrite List.Forall_forall in IH.
    destruct (H2 k v Hv) as [(a' & Ha' & Ht)|[Hallow _]].
    2: { destruct Ho'. right. exists c. split; [constructor|]. unfold model_config. by rewrite H0. }
    apply (IH (k, v)) with a'; [by apply list_elem_of_In|done|..];
      [intros Hr; apply Hf'; by eapply reaches_field|].
    intros Hx. apply Ho'. eapply unsearched_part; [|exact Hx]. intros target. by eapply reaches_field.
Qed.

(** What canonicalization says of a document without floats. *)
Definition key_collision : exn_kind := CanonicalizationError "keys collide after Unicode normalization".

Lemma normalize_floatless `{U : Unicode} v :
  has_float v = false → match _normalize v with Ok _ => True | Err e => e = raised key_collision end.
Proof.
  induction v as [| | | | |l IH|o IH] using json_ind'; simpl; try done; intros Hf.
  - enough (match normalize_elements _normalize l with Ok _ => True | Err e => e = raised key_collision end) as H
      by by destruct (normalize_elements _normalize l).
    induction IH as [|x l Hx _ IHl]; simpl in *; [done|]. apply orb_false_elim in Hf as [Hfx Hfl].
    specialize (Hx Hfx). destruct (_normalize x); simpl; [|done].
    specialize (IHl Hfl). by destruct (normalize_elements _ l).
  - enough (∀ acc, match normalize_entries _normalize acc o with Ok _ => True | Err e => e = raised key_collision end) as H
      by (specialize (H []); by destruct (normalize_entries _normalize [] o)).
    induction IH as [|[k x] o Hx _ IHo]; intros acc; simpl in *; [done|].
    apply orb_false_elim in Hf as [Hfx Hfo]. case_bool_decide; [done|].
    specialize (Hx Hfx). destruct (_normalize x); simpl; [|done]. by apply IHo.
Qed.

Lemma boundary_config m :
  _assert_boundary_model_config m = true → m = mkModelConfig (Some "forbid"%py) (Some true) (Some true).
Proof.
  unfold _assert_boundary_model_config. rewrite !andb_true_iff, !bool_decide_eq_true.
  destruct m; simpl. intros ((-> & ->) & ->). done.
Qed.

(** C36: a definition that passes its construction checks has four boundary models
    that forbid extra fields, are strict and frozen, positive durations and
    attempts, and a private snapshot model from which no [float] can be reached
    through fields and type arguments, however the classes refer to each other.
    A snapshot that is a validated value of that model is never refused by
    canonicalization for holding a floating-point number, unless the model reaches
    what the search does not look at ([unsearched]): an opaque type, or a class
    configured with [extra="allow"], which the checks require of the four
    boundary models only ([nested_extras_pass]). *)
Theorem conforming_snapshots_hold_no_floats `{U : Unicode} (d d' : ActionDefinition)
  (Hd : ActionDefinition_post_init d = Ok d') :
  d' = d ∧ (0 < ad_proposal_ttl d)%Z ∧ (0 < ad_max_verification_attempts d)%Z ∧
  (0 < ad_verification_lease_duration d)%Z ∧
  Forall (λ c, model_config c = mkModelConfig (Some "forbid"%py) (Some true) (Some true))
    [ad_command_model d; ad_private_snapshot_model d; ad_display_preview_model d; ad_result_model d] ∧
  ¬ reaches AFloat (AModel (ad_private_snapshot_model d)) ∧
  ∀ snapshot, typed (AModel (ad_private_snapshot_model d)) snapshot →
    ¬ unsearched (AModel (ad_private_snapshot_model d)) →
    match _normalize snapshot with Ok _ => True | Err e => e = raised key_collision end.
Proof.
  unfold ActionDefinition_post_init in Hd. repeat (split_if; [done|]).
  apply res_bind_Ok in Hd as (? & _ & Hd). apply res_bind_Ok in Hd as (? & _ & Hd).
  apply res_bind_Ok in Hd as ([] & Hc & [= <-]). unfold assert_boundary_models_conform in Hc.
  split_if; [done|]. split_if; [done|]. to_prop.
  assert (¬ reaches AFloat (AModel (ad_private_snapshot_model d))) as Hf by by apply scan_exact.
  split_and!; [done|lia..| |done|].
  - apply List.Forall_forall. intros c Hin.
    match goal with H : forallb _ _ = true |- _ => rewrite forallb_forall in H; specialize (H c Hin) end.
    by apply boundary_config.
  - intros v Ht Ho. apply normalize_floatless. by eapply typed_floatless.
Qed.
End Classes.

(** * Examples *)

#[local] Existing Instance ascii_unicode.

#[local] Definition strict (fields : list (pystr * annotation)) : ModelClass :=
  mkModelClass (mkModelConfig (Some "forbid"%py) (Some true) (Some true)) fields.

(** A tree of orders, whose class refers to itself, with or without floats. *)
#[local] Definition host_classes (amount : annotation) : gmap pystr ModelClass :=
  {["Command"%py := strict [("order"%py, AScalar)];
    "Snapshot"%py := strict [("order"%py, AModel "Order"); ("tags"%py, AGeneric [AScalar])];
    "Order"%py := strict [("amount"%py, amount); ("parts"%py, AGeneric [AModel "Order"])]]}.

#[local] Definition order_definition : ActionDefinition :=
  mkActionDefinition (mkActionType "orders.desk" "place" 1) "Command" "Snapshot" "Command" "Command"
    1 2 3 4 5 6 (CommitmentProvider 7) (ProtectionCodec 8) 9 1000 (mkGovernedExecutor "executor")
    (mkAuthoritativeTarget "target") "audience" "session" None 0 3 single false 60.

(** Floats are found where they are, once for each class. *)
Example float_paths_found :
  _floating_point_field_paths (host_classes (AGeneric [AScalar; AFloat])) "Snapshot" = ["order.amount"%py].
Proof. vm_compute. reflexivity. Qed.

(** An opaque field passes the checks, although a float may be in it. *)
Example opaque_fields_pass :
  ActionDefinition_post_init (host_classes AOpaque) order_definition = Ok order_definition.
Proof. vm_compute. reflexivity. Qed.

(** A class inside the snapshot that takes extra members passes the checks, and a
    float it takes is refused when the snapshot is committed to. *)
#[local] Definition open_classes : gmap pystr ModelClass :=
  <["Order"%py := mkModelClass (mkModelConfig (Some "allow"%py) (Some true) (Some true)) [("amount"%py, AScalar)]]>
    (host_classes AScalar).

#[local] Definition open_snapshot : json :=
  JObj [("order"%py, JObj [("amount"%py, JStr "1.50"); ("discount"%py, JFloat (finite_float 1 (-1)))]);
        ("tags"%py, JList [])].

Example nested_extras_pass :
  ActionDefinition_post_init open_classes order_definition = Ok order_definition ∧
  typed open_classes (AModel "Snapshot") open_snapshot ∧
  _normalize open_snapshot = fail (CanonicalizationError "floating-point values are forbidden").
Proof.
  split; [vm_compute; reflexivity|]. split; [|vm_compute; reflexivity].
  eapply typed_model; [reflexivity|]. intros k v Hv. left. elem_cases Hv; simplify_eq.
  - exists (AModel "Order"). split; [left|]. eapply typed_model; [vm_compute; reflexivity|].
    intros k v Hv. elem_cases Hv; simplify_eq.
    + left. exists AScalar. split; [left|by constructor].
    + right. split; [reflexivity|]. apply (bool_decide_unpack _). vm_compute. exact I.
  - exists (AGeneric [AScalar]). split; [right; left|]. apply typed_list. intros v Hv. elem_cases Hv.
Qed.

#[local] Definition order_snapshot : json :=
  JObj [("order"%py, JObj [("amount"%py, JStr "1.50");
    ("parts"%py, JList [JObj [("amount"%py, JInt 1)]])]); ("tags"%py, JList [JStr "new"])].

Lemma order_snapshot_typed : typed (host_classes AScalar) (AModel "Snapshot") order_snapshot.
Proof.
  assert (∀ o, (∀ k v, (k, v) ∈ o → ∃ a, (k, a) ∈ [("amount"%py, AScalar); ("parts"%py, AGeneric [AModel "Order"])] ∧
      typed (host_classes AScalar) a v) → typed (host_classes AScalar) (AModel "Order") (JObj o)) as Horder.
  { intros o Ho. eapply typed_model; [vm_compute; reflexivity|]. intros k v Hv. left. exact (Ho k v Hv). }
  eapply typed_model; [reflexivity|]. intros k v Hv. left. elem_cases Hv; simplify_eq.
  - exists (AModel "Order"). split; [left|]. apply Horder. intros k v Hv. elem_cases Hv; simplify_eq.
    + exists AScalar. split; [left|by constructor].
    + exists (AGeneric [AModel "Order"]). split; [right; left|]. apply typed_list. intros v Hv. elem_cases Hv.
      exists (AModel "Order"). split; [left|]. apply Horder. intros k v Hv. elem_cases Hv; simplify_eq.
      exists AScalar. split; [left|by constructor].
  - exists (AGeneric [AScalar]). split; [right; left|]. apply typed_list. intros v Hv. elem_cases Hv.
    exists AScalar. split; [left|by constructor].
Qed.

(** What the snapshot reaches. *)
Lemma order_reaches target :
  reaches (host_classes AScalar) target (AModel "Snapshot") →
  target ∈ [AModel "Snapshot"; AModel "Order"; AScalar; AGeneric [AScalar]; AGeneric [AModel "Order"]].
Proof.
  intros H.
  assert (∀ a, reaches (host_classes AScalar) target a →
    a ∈ [AModel "Snapshot"; AModel "Order"; AScalar; AGeneric [AScalar]; AGeneric [AModel "Order"]] →
    target ∈ [AModel "Snapshot"; AModel "Order"; AScalar; AGeneric [AScalar]; AGeneric [AModel "Order"]])
    as Hall; [|apply (Hall _ H); left].
  clear H. induction 1 as [|l a Ha _ IH|c cls f a Hl Hf _ IH]; intros Hin; [done|..]; elem_cases Hin; simplify_eq.
  - apply IH. elem_cases Ha. right. right. left.
  - apply IH. elem_cases Ha. right. left.
  - vm_compute in Hl. injection Hl as <-. apply IH. elem_cases Hf; simplify_eq.
    + right. left.
    + do 3 right. left.
  - vm_compute in Hl. injection Hl as <-. apply IH. elem_cases Hf; simplify_eq.
    + do 2 right. left.
    + do 4 right. left.
Qed.

Lemma order_searched : ¬ unsearched (host_classes AScalar) (AModel "Snapshot").
Proof.
  intros [H|(c & H & He)]; apply order_reaches in H; elem_cases H; simplify_eq; vm_compute in He; discriminate He.
Qed.

Lemma conforming_snapshots_hold_no_floats_witness :
  ActionDefinition_post_init (host_classes AScalar) order_definition = Ok order_definition ∧
  match _normalize order_snapshot with Ok _ => True | Err e => e = raised key_collision end.
Proof.
  assert (H : ActionDefinition_post_init (host_classes AScalar) order_definition = Ok order_definition)
    by (vm_compute; reflexivity).
  split; [exact H|].
  apply (conforming_snapshots_hold_no_floats (host_classes AScalar) order_definition order_definition H).
  - exact order_snapshot_typed.
  - exact order_searched.
Defined.
