(* ===== verification/Approvals.v ===== *)
(** Evidence-only approval requirements ([approvals.py]). *)

From S2P Require Import Prelude Models Authority Registry.

Definition _references (authorities : list ConfirmingAuthority) : list pystr :=
  ca_reference <$> authorities.

Definition _validate_authorities (authorities : list ConfirmingAuthority) : res unit :=
  if bool_decide (authorities = []) then fail (ValueErrorLike "at least one authority is required")
  else
    let references := _references authorities in
    if negb (size (list_to_set references : gset pystr) =? length references)%nat then
      fail (ValueErrorLike "authorities must be distinct")
    else Ok ().

(** [ApprovalReasonCode.MORE_AUTHORITY_REQUIRED.value]. *)
Definition MORE_AUTHORITY_REQUIRED : pystr := "more_authority_required".

(** The set [approving] of [_satisfied]. *)
Definition approving (authorities : list ConfirmingAuthority) (binding : AuthorityBinding)
  (evidence : list AuthorityEvidence) : gset pystr :=
  list_to_set (ca_reference ∘ ae_authority <$>
    List.filter (λ record,
      bool_decide (ae_decision record = APPROVE)
      && bool_decide (ca_reference (ae_authority record) ∈
                       (list_to_set (_references authorities) : gset pystr))
      && authority_evidence_matches_binding record binding) evidence).

Definition _satisfied (required : Z) (authorities : list ConfirmingAuthority)
  (binding : AuthorityBinding) (evidence : list AuthorityEvidence) : AuthorityEvaluation :=
  let satisfied := (required <=? Z.of_nat (size (approving authorities binding evidence)))%Z in
  mkAuthorityEvaluation satisfied (if satisfied then None else Some MORE_AUTHORITY_REQUIRED).

(** The three requirements, with the checks their construction makes. *)
Inductive ApprovalRequirement :=
  | SingleApproval (authority : ConfirmingAuthority)
  | AnyApproval (authorities : list ConfirmingAuthority)
  | MOfNApprovals (required : Z) (authorities : list ConfirmingAuthority).

Definition requirement_post_init (r : ApprovalRequirement) : res ApprovalRequirement :=
  match r with
  | SingleApproval _ => Ok r
  | AnyApproval authorities => _ ← _validate_authorities authorities; Ok r
  | MOfNApprovals required authorities =>
      _ ← _validate_authorities authorities;
      if (1 <=? required)%Z && (required <=? Z.of_nat (length authorities))%Z then Ok r
      else fail (ValueErrorLike "required must be between one and the authority count")
  end.

Definition evaluate (r : ApprovalRequirement) (binding : AuthorityBinding)
  (evidence : list AuthorityEvidence) : AuthorityEvaluation :=
  match r with
  | SingleApproval authority => _satisfied 1 [authority] binding evidence
  | AnyApproval authorities => _satisfied 1 authorities binding evidence
  | MOfNApprovals required authorities => _satisfied required authorities binding evidence
  end.

(** * Facts *)

(** [a] is a declared authority that approved this binding. *)
Definition approved_by (authorities : list ConfirmingAuthority) (b : AuthorityBinding)
  (evidence : list AuthorityEvidence) (a : pystr) : Prop :=
  mkConfirmingAuthority a ∈ authorities ∧
  ∃ e, e ∈ evidence ∧ ae_decision e = APPROVE ∧ ca_reference (ae_authority e) = a ∧
    evidence_bound e b.

Lemma elem_of_references authorities a :
  a ∈ _references authorities ↔ mkConfirmingAuthority a ∈ authorities.
Proof.
  unfold _references. rewrite list_elem_of_fmap. split.
  - by intros ([] & -> & ?).
  - intros ?. by eexists (mkConfirmingAuthority a).
Qed.

Lemma elem_of_approving authorities b evidence a :
  a ∈ approving authorities b evidence ↔ approved_by authorities b evidence a.
Proof.
  unfold approving, approved_by. rewrite elem_of_list_to_set, list_elem_of_fmap.
  assert (∀ e, (bool_decide (ae_decision e = APPROVE)
      && bool_decide (ca_reference (ae_authority e) ∈ (list_to_set (_references authorities) : gset pystr))
      && authority_evidence_matches_binding e b) = true ↔
    ae_decision e = APPROVE ∧
      mkConfirmingAuthority (ca_reference (ae_authority e)) ∈ authorities ∧ evidence_bound e b) as Hf.
  { intros e. rewrite !andb_true_iff, !bool_decide_eq_true, elem_of_list_to_set,
      elem_of_references, authority_evidence_matches_bound. tauto. }
  split.
  - intros (e & -> & (He & (? & ? & ?)%Hf)%list_elem_of_In%filter_In). simpl.
    split; [done|]. exists e. rewrite list_elem_of_In. auto.
  - intros (? & e & He & ? & <- & ?). exists e. split; [done|].
    apply list_elem_of_In, filter_In. rewrite <-list_elem_of_In, Hf. auto.
Qed.

(** The number of approvals a requirement asks for, and from whom. *)
Definition threshold (r : ApprovalRequirement) : Z :=
  match r with SingleApproval _ | AnyApproval _ => 1 | MOfNApprovals n _ => n end.
Definition declared (r : ApprovalRequirement) : list ConfirmingAuthority :=
  match r with SingleApproval a => [a] | AnyApproval l | MOfNApprovals _ l => l end.

Lemma evaluate_satisfied r b evidence :
  au_satisfied (evaluate r b evidence) = true ↔
  (threshold r <= Z.of_nat (size (approving (declared r) b evidence)))%Z.
Proof. destruct r; simpl; apply Z.leb_le. Qed.

(** A requirement is satisfied exactly when at least the threshold number
    of pairwise distinct declared authorities have each approved the exact
    binding, whatever the order of the evidence and however often one
    authority approved. *)
Theorem evaluate_counts_distinct_approvals (r : ApprovalRequirement) (b : AuthorityBinding)
  (evidence : list AuthorityEvidence) :
  au_satisfied (evaluate r b evidence) = true ↔
  ∃ approvers : list pystr, NoDup approvers ∧ (threshold r <= Z.of_nat (length approvers))%Z ∧
    ∀ a, a ∈ approvers → approved_by (declared r) b evidence a.
Proof.
  rewrite evaluate_satisfied. split.
  - intros H. exists (elements (approving (declared r) b evidence)).
    split; [apply NoDup_elements|]. split; [exact H|].
    intros a. rewrite elem_of_elements. apply elem_of_approving.
  - intros (l & Hnd & Hlen & Hl). etrans; [exact Hlen|]. apply inj_le.
    rewrite <-(size_list_to_set (C := gset pystr) l Hnd). apply subseteq_size.
    intros a. rewrite elem_of_list_to_set, elem_of_approving. apply Hl.
Qed.

(** A requirement that the constructor accepts can be met, and only by
    approvals: it is satisfied once every declared authority has approved the
    binding, and never by evidence that holds no approval. *)
Theorem requirement_satisfiable (r : ApprovalRequirement) (b : AuthorityBinding)
  (evidence : list AuthorityEvidence) (Hinit : requirement_post_init r = Ok r) :
  ((∀ a, a ∈ declared r → approved_by (declared r) b evidence (ca_reference a)) →
     au_satisfied (evaluate r b evidence) = true) ∧
  ((∀ e, e ∈ evidence → ae_decision e ≠ APPROVE) →
     evaluate r b evidence = mkAuthorityEvaluation false (Some MORE_AUTHORITY_REQUIRED)).
Proof.
  assert (1 <= threshold r <= Z.of_nat (size (list_to_set (_references (declared r)) : gset pystr)))%Z
    as [Hlo Hhi].
  { destruct r as [a|l|n l];
      [rewrite (size_list_to_set (C := gset pystr)) by apply NoDup_singleton; simpl; lia|..];
      simpl in *; unfold _validate_authorities in Hinit; repeat (split_if; try discriminate);
      to_prop; repeat match goal with H : (_ =? _)%nat = true |- _ => apply Nat.eqb_eq in H end;
      unfold _references in *; rewrite length_fmap in *.
    - destruct l; simpl in *; [done|lia].
    - lia. }
  split.
  - intros Hall. apply evaluate_satisfied. etrans; [exact Hhi|]. apply inj_le, subseteq_size.
    intros a. rewrite elem_of_list_to_set, elem_of_references, elem_of_approving. apply Hall.
  - intros Hnone.
    assert (approving (declared r) b evidence = ∅) as E.
    { apply set_eq. intros a. rewrite elem_of_approving. split; [|set_solver].
      intros (_ & e & He & Hap & _). by destruct (Hnone e He). }
    destruct r; simpl in *; unfold _satisfied; rewrite E, size_empty;
      replace (_ <=? _)%Z with false by (symmetry; apply Z.leb_gt; lia); done.
Qed.

Section Witness.
#[local] Definition alice := mkConfirmingAuthority "alice".
#[local] Definition bob := mkConfirmingAuthority "bob".
#[local] Definition two_of_two := MOfNApprovals 2 [alice; bob].
#[local] Definition some_binding : AuthorityBinding :=
  mkAuthorityBinding "t" (mkActionType "a.b" "c" 1) "p" "e" "digest" "aud" "session".

Lemma requirement_satisfiable_witness :
  evaluate two_of_two some_binding [] = mkAuthorityEvaluation false (Some MORE_AUTHORITY_REQUIRED).
Proof.
  apply (proj2 (requirement_satisfiable two_of_two some_binding [] ltac:(vm_compute; reflexivity))).
  intros e He. inversion He.
Defined.
End Witness.
