(* ===== verification/StripeModels.v ===== *)
(** The money and the data of the Stripe integration
    ([integrations/stripe/gateway.py], [models.py], [ports.py] and
    [_operation.py]), and the operations of its hosts and gateways.

    Parameters: [sha256_hexdigest], and in [PyDump] the JSON dump Pydantic
    makes of a model of the host boundary. *)

From S2P Require Import Prelude Models Canonical Authority Receipts Registry.

(** * Decimal numbers *)

(** [decimal.Decimal]: a sign, digits and an exponent of ten, or a special
    value (infinities and NaN). *)
Inductive PyDecimal :=
  | Finite (negative : bool) (digits : N) (exponent : Z)
  | Special.

#[export] Instance PyDecimal_eq_dec : EqDecision PyDecimal.
Proof. solve_decision. Defined.

Definition is_finite (d : PyDecimal) : bool := match d with Finite _ _ _ => true | Special => false end.

Definition exponent_of (d : PyDecimal) : Z := match d with Finite _ _ e => e | Special => 0 end.

(** The value of [d] in units of [10 ^ e], for [e] at most its exponent. *)
Definition units_at (e : Z) (d : PyDecimal) : Z :=
  match d with
  | Finite negative digits exponent =>
      (if negative then - Z.of_N digits else Z.of_N digits) * 10 ^ (exponent - e)
  | Special => 0
  end%Z.

(** [a <= b] and [a < b]; a special operand answers [False] here, where Python
    compares infinities and refuses NaN (every use is guarded by [is_finite]). *)
Definition dec_leb (a b : PyDecimal) : bool :=
  let e := Z.min (exponent_of a) (exponent_of b) in
  is_finite a && is_finite b && (units_at e a <=? units_at e b)%Z.

Definition dec_ltb (a b : PyDecimal) : bool :=
  let e := Z.min (exponent_of a) (exponent_of b) in
  is_finite a && is_finite b && (units_at e a <? units_at e b)%Z.

Definition dec_zero : PyDecimal := Finite false 0 0.
Definition dec_int (z : Z) : PyDecimal := Finite (z <? 0)%Z (Z.to_N (Z.abs z)) 0.

(** [d.scaleb(n)].  A [Money] has at most 28 digits, the precision of the
    context, so nothing is rounded. *)
Definition scaleb (d : PyDecimal) (n : Z) : PyDecimal :=
  match d with Finite s g e => Finite s g (e + n) | Special => Special end.

(** [d == d.to_integral_value()]. *)
Definition is_integral (d : PyDecimal) : bool :=
  match d with
  | Finite _ digits e => (0 <=? e)%Z || (Z.of_N digits mod 10 ^ (- e) =? 0)%Z
  | Special => false
  end.

(** [int(d)] rounds towards zero. *)
Definition int_of (d : PyDecimal) : Z :=
  match d with
  | Finite negative digits e =>
      let n := (if (0 <=? e)%Z then Z.of_N digits * 10 ^ e else Z.of_N digits / 10 ^ (- e))%Z in
      if negative then (- n)%Z else n
  | Special => 0
  end.

Record Money := mkMoney { mo_amount : PyDecimal; mo_currency : pystr }.

#[export] Instance Money_eq_dec : EqDecision Money.
Proof. solve_decision. Defined.

(** * Accounts and identifiers *)

Record StripeAccount := mkStripeAccount {
  sa_reference : pystr;
  sa_connected_account : option pystr;
  sa_livemode : bool
}.

#[export] Instance StripeAccount_eq_dec : EqDecision StripeAccount.
Proof. solve_decision. Defined.

(** [str.lower], on the ASCII letters of a currency code. *)
Definition lower_code (s : pystr) : pystr :=
  PyStr ((λ c, if upper c then (c + 32)%N else c) <$> code_points s).

(** * Refunds *)

Record RefundRequest := mkRefundRequest {
  rq_intent_reference : pystr;
  rq_payment_reference : pystr;
  rq_amount : Money
}.

Record RefundPayment := mkRefundPayment {
  py_tenant_reference : pystr;
  py_payment_reference : pystr;
  py_version : Z;
  py_account : StripeAccount;
  py_charge_id : pystr;
  py_currency : pystr;
  py_currency_exponent : Z
}.

Record RefundPolicy := mkRefundPolicy { rl_limits : list Money; rl_allow_live : bool }.

(** The model validator of [RefundPolicy] (and of [CreditNotePolicy]). *)
Definition unique_positive_limits (limits : list Money) : res unit :=
  if negb (bool_decide (NoDup (mo_currency <$> limits))) then
    fail (ValueErrorLike "refund limits must name each currency once")
  else if existsb (λ limit, negb (is_finite (mo_amount limit)) || dec_leb (mo_amount limit) dec_zero) limits
  then fail (ValueErrorLike "refund limits must be finite and positive")
  else Ok tt.

Definition within_limits (limits : list Money) (amount : Money) : bool :=
  existsb (λ limit,
    bool_decide (mo_currency limit = mo_currency amount)
    && dec_ltb dec_zero (mo_amount amount) && dec_leb (mo_amount amount) (mo_amount limit)) limits.

Definition refund_policy_permits (policy : RefundPolicy) (amount : Money) (livemode : bool) : bool :=
  (negb livemode || rl_allow_live policy) && is_finite (mo_amount amount)
  && within_limits (rl_limits policy) amount.

Record RefundIntent := mkRefundIntent {
  ri_tenant_reference : pystr;
  ri_intent_reference : pystr;
  ri_account : StripeAccount;
  ri_charge_id : pystr;
  ri_amount : Money;
  ri_currency_exponent : Z
}.

(** The model validator of [RefundIntent]. *)
Definition exact_minor_units (intent : RefundIntent) : res RefundIntent :=
  let units := scaleb (mo_amount (ri_amount intent)) (ri_currency_exponent intent) in
  if negb (is_finite units) || dec_leb units dec_zero || negb (is_integral units) then
    fail (ValueErrorLike "refund amount must be positive and exact in the currency minor unit")
  else if negb (dec_leb units (dec_int 99999999)) then
    fail (ValueErrorLike "refund amount exceeds the supported Stripe amount range")
  else Ok intent.

Definition amount_minor (intent : RefundIntent) : Z :=
  int_of (scaleb (mo_amount (ri_amount intent)) (ri_currency_exponent intent)).

Record RefundSnapshot := mkRefundSnapshot {
  sn_intent : RefundIntent;
  sn_payment_reference : pystr;
  sn_payment_version : Z;
  sn_refunded_minor : Z;
  sn_policy_fingerprint : pystr
}.

Record RefundPreview := mkRefundPreview { rp_payment_reference : pystr; rp_amount : Money }.

(** ** What the provider shows *)

Record ChargeObservation := mkChargeObservation {
  ch_charge_id : pystr;
  ch_currency : pystr;
  ch_amount_minor : Z;
  ch_refunded_minor : Z;
  ch_captured : bool;
  ch_paid : bool;
  ch_disputed : bool;
  ch_livemode : bool;
  ch_indirect_charge : bool
}.

Definition charge_permits (charge : ChargeObservation) (intent : RefundIntent) : bool :=
  bool_decide (ch_charge_id charge = ri_charge_id intent)
  && bool_decide (ch_currency charge = lower_code (mo_currency (ri_amount intent)))
  && Bool.eqb (ch_livemode charge) (sa_livemode (ri_account intent))
  && ch_captured charge && ch_paid charge && negb (ch_disputed charge)
  && negb (ch_indirect_charge charge)
  && (amount_minor intent <=? ch_amount_minor charge - ch_refunded_minor charge)%Z.

Inductive RefundStatus := RF_pending | RF_requires_action | RF_succeeded | RF_failed | RF_canceled.

#[export] Instance RefundStatus_eq_dec : EqDecision RefundStatus.
Proof. solve_decision. Defined.

Record RefundObservation := mkRefundObservation {
  ro_refund_id : pystr;
  ro_charge_id : pystr;
  ro_currency : pystr;
  ro_amount_minor : Z;
  ro_status : RefundStatus;
  ro_correlation : pystr
}.

Record RefundPage := mkRefundPage { rg_refunds : list RefundObservation; rg_has_more : bool }.

Record RefundOutcome := mkRefundOutcome { ou_amount : Money; ou_status : RefundStatus }.

(** * Subscriptions *)

Inductive SubscriptionOperation := SCHEDULE | WITHDRAW.

#[export] Instance SubscriptionOperation_eq_dec : EqDecision SubscriptionOperation.
Proof. solve_decision. Defined.

Record SubscriptionCancellationRequest := mkSubscriptionCancellationRequest {
  cr_intent_reference : pystr;
  cr_subscription_reference : pystr;
  cr_operation : SubscriptionOperation
}.

Record SubscriptionBinding := mkSubscriptionBinding {
  sb_tenant_reference : pystr;
  sb_subscription_reference : pystr;
  sb_version : Z;
  sb_account : StripeAccount;
  sb_subscription_id : pystr;
  sb_customer_id : pystr
}.

Inductive SubscriptionStatus :=
  | SU_active | SU_canceled | SU_incomplete | SU_incomplete_expired | SU_past_due | SU_paused
  | SU_trialing | SU_unpaid.

Record SubscriptionObservation := mkSubscriptionObservation {
  so_subscription_id : pystr;
  so_customer_id : pystr;
  so_status : SubscriptionStatus;
  so_livemode : bool;
  so_item_id : pystr;
  so_price_id : pystr;
  so_quantity : Z;
  so_period_start : datetime;
  so_period_end : datetime;
  so_cancel_at_period_end : bool;
  so_cancel_at : option datetime;
  so_supported : bool;
  so_correlation : pystr
}.

#[export] Instance SubscriptionBinding_eq_dec : EqDecision SubscriptionBinding.
Proof. solve_decision. Defined.
#[export] Instance SubscriptionStatus_eq_dec : EqDecision SubscriptionStatus.
Proof. solve_decision. Defined.
#[export] Instance SubscriptionObservation_eq_dec : EqDecision SubscriptionObservation.
Proof. solve_decision. Defined.

Definition subscription_bound_to (observed : SubscriptionObservation) (binding : SubscriptionBinding)
  : bool :=
  bool_decide (so_subscription_id observed = sb_subscription_id binding)
  && bool_decide (so_customer_id observed = sb_customer_id binding)
  && Bool.eqb (so_livemode observed) (sa_livemode (sb_account binding)).

Definition subscription_permits (observed : SubscriptionObservation) (operation : SubscriptionOperation)
  (now : datetime) : bool :=
  so_supported observed
  && bool_decide (so_status observed ∈ [SU_active; SU_trialing])
  && (so_period_start observed <=? now)%Z && (now <? so_period_end observed)%Z
  && Bool.eqb (so_cancel_at_period_end observed) (bool_decide (operation = WITHDRAW))
  && (bool_decide (so_cancel_at observed = None)
      || (so_cancel_at_period_end observed
          && bool_decide (so_cancel_at observed = Some (so_period_end observed)))).

Record SubscriptionCancellationPolicy := mkSubscriptionCancellationPolicy {
  cl_allow_live : bool;
  cl_allow_withdrawal : bool
}.

Definition cancellation_policy_permits (policy : SubscriptionCancellationPolicy)
  (operation : SubscriptionOperation) (livemode : bool) : bool :=
  (negb livemode || cl_allow_live policy)
  && (bool_decide (operation = SCHEDULE) || cl_allow_withdrawal policy).

Record SubscriptionCancellationSnapshot := mkSubscriptionCancellationSnapshot {
  cs_tenant_reference : pystr;
  cs_intent_reference : pystr;
  cs_policy_fingerprint : pystr;
  cs_binding : SubscriptionBinding;
  cs_operation : SubscriptionOperation;
  cs_observed : SubscriptionObservation
}.

(** The model validator of [SubscriptionCancellationSnapshot]. *)
Definition cancellation_snapshot_validated (s : SubscriptionCancellationSnapshot)
  : res SubscriptionCancellationSnapshot :=
  if negb (bool_decide (sb_tenant_reference (cs_binding s) = cs_tenant_reference s))
     || negb (subscription_bound_to (cs_observed s) (cs_binding s)) then
    fail (ValueErrorLike "subscription snapshot binding is inconsistent")
  else Ok s.

Record SubscriptionCancellationPreview := mkSubscriptionCancellationPreview {
  cp_subscription_reference : pystr;
  cp_operation : SubscriptionOperation;
  cp_current_period_end : datetime;
  cp_scheduled_end : option datetime
}.

Inductive CancellationStatus := scheduled | withdrawn.

Record SubscriptionCancellationOutcome := mkSubscriptionCancellationOutcome {
  co_subscription_reference : pystr;
  co_status : CancellationStatus;
  co_scheduled_end : option datetime
}.

(** * Credit notes *)

Inductive CreditDisposition := INVOICE_REDUCTION | CUSTOMER_BALANCE.
Inductive CreditNoteReason := CR_duplicate | CR_fraudulent | CR_order_change | CR_product_unsatisfactory.
Inductive InvoiceStatus := IN_draft | IN_open | IN_paid | IN_uncollectible | IN_void.
Inductive CreditNoteStatus := CN_issued | CN_void.
Inductive TaxBehavior := exclusive | inclusive.

#[export] Instance CreditDisposition_eq_dec : EqDecision CreditDisposition.
Proof. solve_decision. Defined.
#[export] Instance CreditNoteReason_eq_dec : EqDecision CreditNoteReason.
Proof. solve_decision. Defined.
#[export] Instance InvoiceStatus_eq_dec : EqDecision InvoiceStatus.
Proof. solve_decision. Defined.
#[export] Instance CreditNoteStatus_eq_dec : EqDecision CreditNoteStatus.
Proof. solve_decision. Defined.
#[export] Instance TaxBehavior_eq_dec : EqDecision TaxBehavior.
Proof. solve_decision. Defined.

Record CreditNoteLineRequest := mkCreditNoteLineRequest {
  lr_line_reference : pystr;
  lr_amount : Money
}.

Record CreditNoteRequest := mkCreditNoteRequest {
  nr_intent_reference : pystr;
  nr_invoice_reference : pystr;
  nr_lines : list CreditNoteLineRequest;
  nr_expected_total : Money;
  nr_disposition : CreditDisposition;
  nr_reason : CreditNoteReason
}.

(** The model validator of [CreditNoteRequest]. *)
Definition consistent_lines (r : CreditNoteRequest) : res CreditNoteRequest :=
  if negb (bool_decide (NoDup (lr_line_reference <$> nr_lines r))) then
    fail (ValueErrorLike "credit lines must be distinct")
  else if existsb (λ l, negb (bool_decide
            (mo_currency (lr_amount l) = mo_currency (nr_expected_total r)))) (nr_lines r) then
    fail (ValueErrorLike "credit lines and total must use the same currency")
  else if existsb (λ m, negb (is_finite (mo_amount m)) || dec_leb (mo_amount m) dec_zero)
            (nr_expected_total r :: (lr_amount <$> nr_lines r)) then
    fail (ValueErrorLike "credit amounts must be finite and positive")
  else Ok r.

Record InvoiceLineBinding := mkInvoiceLineBinding {
  lb_line_reference : pystr;
  lb_invoice_line_id : pystr
}.

Record CreditNoteInvoice := mkCreditNoteInvoice {
  iv_tenant_reference : pystr;
  iv_invoice_reference : pystr;
  iv_version : Z;
  iv_account : StripeAccount;
  iv_invoice_id : pystr;
  iv_customer_id : pystr;
  iv_currency : pystr;
  iv_currency_exponent : Z;
  iv_lines : list InvoiceLineBinding
}.

(** The model validator of [CreditNoteInvoice]. *)
Definition unique_lines (b : CreditNoteInvoice) : res CreditNoteInvoice :=
  if negb (bool_decide (NoDup (lb_line_reference <$> iv_lines b)))
     || negb (bool_decide (NoDup (lb_invoice_line_id <$> iv_lines b))) then
    fail (ValueErrorLike "invoice line bindings must be unique")
  else Ok b.

Record InvoiceObservation := mkInvoiceObservation {
  io_invoice_id : pystr;
  io_customer_id : pystr;
  io_currency : pystr;
  io_livemode : bool;
  io_invoice_status : InvoiceStatus;
  io_total_minor : Z;
  io_amount_due_minor : Z;
  io_amount_paid_minor : Z;
  io_remaining_minor : Z;
  io_pre_payment_credits_minor : Z;
  io_post_payment_credits_minor : Z;
  io_supported : bool
}.

Definition invoice_bound_to (observed : InvoiceObservation) (binding : CreditNoteInvoice) : bool :=
  bool_decide (io_invoice_id observed = iv_invoice_id binding)
  && bool_decide (io_customer_id observed = iv_customer_id binding)
  && bool_decide (io_currency observed = lower_code (iv_currency binding))
  && Bool.eqb (io_livemode observed) (sa_livemode (iv_account binding)).

Definition invoice_permits (observed : InvoiceObservation) (disposition : CreditDisposition)
  (total_minor : Z) : bool :=
  if negb (io_supported observed) then false
  else if bool_decide (disposition = INVOICE_REDUCTION) then
    bool_decide (io_invoice_status observed = IN_open) && (total_minor <=? io_remaining_minor observed)%Z
  else bool_decide (io_invoice_status observed = IN_paid) && (io_remaining_minor observed =? 0)%Z.

Record CreditNotePolicy := mkCreditNotePolicy {
  np_limits : list Money;
  np_allow_live : bool;
  np_allow_customer_balance : bool
}.

Definition credit_policy_permits (policy : CreditNotePolicy) (request : CreditNoteRequest)
  (livemode : bool) : bool :=
  (negb livemode || np_allow_live policy)
  && (bool_decide (nr_disposition request = INVOICE_REDUCTION) || np_allow_customer_balance policy)
  && within_limits (np_limits policy) (nr_expected_total request).

Record CreditNoteLine := mkCreditNoteLine { nl_invoice_line_id : pystr; nl_amount_minor : Z }.

Record CreditNoteTax := mkCreditNoteTax {
  tx_amount_minor : Z;
  tx_taxable_minor : option Z;
  tx_behavior : TaxBehavior;
  tx_rate_reference : option pystr;
  tx_reason : pystr
}.

Record CreditNoteCalculatedLine := mkCreditNoteCalculatedLine {
  kl_invoice_line_id : pystr;
  kl_amount_minor : Z;
  kl_discount_minor : Z;
  kl_taxes : list CreditNoteTax
}.

Record CreditNoteCalculation := mkCreditNoteCalculation {
  ka_currency : pystr;
  ka_total_minor : Z;
  ka_pre_payment_minor : Z;
  ka_post_payment_minor : Z;
  ka_lines : list CreditNoteCalculatedLine
}.

Record CreditNoteDraft := mkCreditNoteDraft {
  dr_invoice : CreditNoteInvoice;
  dr_request : CreditNoteRequest;
  dr_lines : list CreditNoteLine;
  dr_total_minor : Z
}.

Definition credit_minor (d : CreditNoteDraft) : Z :=
  if bool_decide (nr_disposition (dr_request d) = CUSTOMER_BALANCE) then dr_total_minor d else 0.

(** [{line.invoice_line_id: line.amount_minor for line in lines}]. *)
Definition amounts_by_line (l : list (pystr * Z)) : gmap pystr Z := list_to_map (reverse l).

Definition matches_calculation (d : CreditNoteDraft) (c : CreditNoteCalculation) : bool :=
  bool_decide (ka_currency c = lower_code (iv_currency (dr_invoice d)))
  && (ka_total_minor c =? dr_total_minor d)%Z
  && (ka_pre_payment_minor c =? dr_total_minor d - credit_minor d)%Z
  && (ka_post_payment_minor c =? credit_minor d)%Z
  && (length (ka_lines c) =? length (dr_lines d))%nat
  && bool_decide (amounts_by_line ((λ l, (kl_invoice_line_id l, kl_amount_minor l)) <$> ka_lines c) =
       amounts_by_line ((λ l, (nl_invoice_line_id l, nl_amount_minor l)) <$> dr_lines d)).

Record CreditNoteSnapshot := mkCreditNoteSnapshot {
  ns_tenant_reference : pystr;
  ns_intent_reference : pystr;
  ns_policy_fingerprint : pystr;
  ns_draft : CreditNoteDraft;
  ns_observed_invoice : InvoiceObservation;
  ns_calculation : CreditNoteCalculation
}.

(** The model validator of [CreditNoteSnapshot]. *)
Definition credit_snapshot_validated (s : CreditNoteSnapshot) : res CreditNoteSnapshot :=
  let draft := ns_draft s in
  if negb (bool_decide (iv_tenant_reference (dr_invoice draft) = ns_tenant_reference s))
     || negb (bool_decide (nr_intent_reference (dr_request draft) = ns_intent_reference s))
     || negb (bool_decide (nr_invoice_reference (dr_request draft) =
                iv_invoice_reference (dr_invoice draft)))
     || negb (invoice_bound_to (ns_observed_invoice s) (dr_invoice draft))
     || negb (matches_calculation draft (ns_calculation s)) then
    fail (ValueErrorLike "credit note snapshot binding is inconsistent")
  else Ok s.

Record CreditNoteObservation := mkCreditNoteObservation {
  no_note_id : pystr;
  no_invoice_id : pystr;
  no_customer_id : pystr;
  no_livemode : bool;
  no_status : CreditNoteStatus;
  no_reason : option CreditNoteReason;
  no_calculation : CreditNoteCalculation;
  no_correlation : pystr;
  no_balance_transaction_id : option pystr;
  no_has_refunds : bool;
  no_out_of_band_minor : Z
}.

Record CreditNoteLookup := mkCreditNoteLookup { lk_note_id : pystr; lk_correlation : pystr }.
Record CreditNotePage := mkCreditNotePage { ng_notes : list CreditNoteLookup; ng_has_more : bool }.

Record CustomerCreditObservation := mkCustomerCreditObservation {
  cc_transaction_id : pystr;
  cc_customer_id : pystr;
  cc_note_id : pystr;
  cc_currency : pystr;
  cc_amount_minor : Z;
  cc_kind : pystr
}.

Record CreditNotePreview := mkCreditNotePreview {
  nv_invoice_reference : pystr;
  nv_lines : list CreditNoteLineRequest;
  nv_total : Money;
  nv_disposition : CreditDisposition;
  nv_reason : CreditNoteReason
}.

Record CreditNoteOutcome := mkCreditNoteOutcome {
  nt_invoice_reference : pystr;
  nt_total : Money;
  nt_disposition : CreditDisposition;
  nt_status : CreditNoteStatus
}.

#[export] Instance CreditNoteInvoice_eq_dec : EqDecision CreditNoteInvoice.
Proof.
  assert (EqDecision InvoiceLineBinding) by solve_decision. solve_decision.
Defined.
#[export] Instance InvoiceObservation_eq_dec : EqDecision InvoiceObservation.
Proof. solve_decision. Defined.
#[export] Instance CreditNoteCalculation_eq_dec : EqDecision CreditNoteCalculation.
Proof.
  assert (EqDecision CreditNoteTax) by solve_decision.
  assert (EqDecision CreditNoteCalculatedLine) by solve_decision. solve_decision.
Defined.

(** A model validator's [ValueError] is a [ValidationError] of the model. *)
Definition model_validated {A} (r : res A) : res A :=
  match r with Ok a => Ok a | Err _ => fail ValidationError end.

(** * The operations of hosts and gateways *)

Inductive StripeReservationStatus := RS_ACQUIRED | RS_ALREADY_SUBMITTED | RS_UNAVAILABLE | RS_STALE.

(** [StripeActionRepository] and [RefundRepository]. *)
Inductive repository_op (SnapshotT : Type) :=
  | Remember (snapshot : SnapshotT) (requester : pystr)
  | Load (tenant_reference effect_reference : pystr)
  | Reserve (snapshot : SnapshotT) (not_after : datetime)
  | RecordNoSubmission (tenant_reference effect_reference : pystr)
  | RecordOutcome (tenant_reference effect_reference : pystr) (outcome : PyModel).
Arguments Remember {SnapshotT} snapshot requester.
Arguments Load {SnapshotT} tenant_reference effect_reference.
Arguments Reserve {SnapshotT} snapshot not_after.
Arguments RecordNoSubmission {SnapshotT} tenant_reference effect_reference.
Arguments RecordOutcome {SnapshotT} tenant_reference effect_reference outcome.

Definition repository_resp {SnapshotT} (o : repository_op SnapshotT) : Type :=
  match o with
  | Remember _ _ => unit
  | Load _ _ => SnapshotT
  | Reserve _ _ => StripeReservationStatus
  | RecordNoSubmission _ _ | RecordOutcome _ _ _ => unit
  end.

Inductive StripeHostActionGroup := REFUNDS | SUBSCRIPTIONS | CREDIT_NOTES.

#[export] Instance StripeHostActionGroup_eq_dec : EqDecision StripeHostActionGroup.
Proof. solve_decision. Defined.

(** The snapshots of a group. *)
Definition snapshot_of (g : StripeHostActionGroup) : Type :=
  match g with
  | REFUNDS => RefundSnapshot
  | SUBSCRIPTIONS => SubscriptionCancellationSnapshot
  | CREDIT_NOTES => CreditNoteSnapshot
  end.

(** The host payment and [StripeRefundGateway]. *)
Inductive refund_op :=
  | Payment (tenant_reference payment_reference : pystr)
  | Charge (intent : RefundIntent)
  | CreateRefund (intent : RefundIntent)
  | RetrieveRefund (intent : RefundIntent) (refund_id : pystr)
  | ListRefunds (intent : RefundIntent) (after : option pystr).

Definition refund_resp (o : refund_op) : Type :=
  match o with
  | Payment _ _ => RefundPayment
  | Charge _ => ChargeObservation
  | CreateRefund _ | RetrieveRefund _ _ => RefundObservation
  | ListRefunds _ _ => RefundPage
  end.

(** The host subscription and [StripeSubscriptionGateway]. *)
Inductive subscription_op :=
  | Subscription (tenant_reference subscription_reference : pystr)
  | RetrieveSubscription (binding : SubscriptionBinding)
  | UpdateSubscription (snapshot : SubscriptionCancellationSnapshot).

Definition subscription_resp (o : subscription_op) : Type :=
  match o with
  | Subscription _ _ => SubscriptionBinding
  | RetrieveSubscription _ | UpdateSubscription _ => SubscriptionObservation
  end.

(** The host invoice and [StripeCreditNoteGateway]. *)
Inductive credit_note_op :=
  | HostInvoice (tenant_reference invoice_reference : pystr)
  | Invoice (binding : CreditNoteInvoice)
  | Preview (draft : CreditNoteDraft)
  | CreateNote (snapshot : CreditNoteSnapshot)
  | ListNotes (binding : CreditNoteInvoice) (after : option pystr)
  | RetrieveNote (binding : CreditNoteInvoice) (note_id : pystr)
  | CustomerCredit (binding : CreditNoteInvoice) (transaction_id : pystr).

Definition credit_note_resp (o : credit_note_op) : Type :=
  match o with
  | HostInvoice _ _ => CreditNoteInvoice
  | Invoice _ => InvoiceObservation
  | Preview _ => CreditNoteCalculation
  | CreateNote _ | RetrieveNote _ _ => CreditNoteObservation
  | ListNotes _ _ => CreditNotePage
  | CustomerCredit _ _ => CustomerCreditObservation
  end.

Inductive stripe_op :=
  | Repository (g : StripeHostActionGroup) (o : repository_op (snapshot_of g))
  | Refunds (o : refund_op)
  | Subscriptions (o : subscription_op)
  | CreditNotes (o : credit_note_op).

Definition stripe_resp (o : stripe_op) : Type :=
  match o with
  | Repository g o => repository_resp o
  | Refunds o => refund_resp o
  | Subscriptions o => subscription_resp o
  | CreditNotes o => credit_note_resp o
  end.

(** * Digests *)

(** What Pydantic dumps of the models whose digests bind a submission, and
    [hashlib.sha256(b).hexdigest()]. *)
Class PyDump := {
  sha256_hexdigest : bytes → pystr;
  refund_intent_json : RefundIntent → json;
  refund_policy_json : RefundPolicy → json;
  cancellation_policy_json : SubscriptionCancellationPolicy → json;
  cancellation_snapshot_json : SubscriptionCancellationSnapshot → json;
  credit_policy_json : CreditNotePolicy → json;
  credit_snapshot_json : CreditNoteSnapshot → json;
  refund_snapshot_model : RefundSnapshot → PyModel;
  cancellation_snapshot_model : SubscriptionCancellationSnapshot → PyModel;
  credit_snapshot_model : CreditNoteSnapshot → PyModel;
  refund_preview_model : RefundPreview → PyModel;
  cancellation_preview_model : SubscriptionCancellationPreview → PyModel;
  credit_preview_model : CreditNotePreview → PyModel;
  refund_outcome_model : RefundOutcome → PyModel;
  cancellation_outcome_model : SubscriptionCancellationOutcome → PyModel;
  credit_outcome_model : CreditNoteOutcome → PyModel
}.

Section Digests.
Context `{U : Unicode, D : PyDump}.

Definition digest (document : json) : res pystr :=
  b ← canonicalize_v1 document; Ok (sha256_hexdigest b).

Definition prefixed (prefix : pystr) (digest : pystr) : pystr :=
  PyStr (code_points prefix ++ 58%N :: code_points digest).

(** [effect_reference] of a tenant's intent in a name space. *)
Definition effect_reference (namespace tenant_reference intent_reference : pystr) : res pystr :=
  d ← digest (JList [JStr tenant_reference; JStr intent_reference]); Ok (prefixed namespace d).

Definition refund_effect_reference (s : RefundSnapshot) : res pystr :=
  effect_reference "refund" (ri_tenant_reference (sn_intent s)) (ri_intent_reference (sn_intent s)).

Definition cancellation_effect_reference (s : SubscriptionCancellationSnapshot) : res pystr :=
  effect_reference "subscription-cancellation" (cs_tenant_reference s) (cs_intent_reference s).

Definition credit_effect_reference (s : CreditNoteSnapshot) : res pystr :=
  effect_reference "credit-note" (ns_tenant_reference s) (ns_intent_reference s).

Definition refund_correlation (i : RefundIntent) : res pystr := digest (refund_intent_json i).
Definition cancellation_correlation (s : SubscriptionCancellationSnapshot) : res pystr :=
  digest (cancellation_snapshot_json s).
Definition credit_correlation (s : CreditNoteSnapshot) : res pystr := digest (credit_snapshot_json s).

Definition refund_policy_fingerprint (p : RefundPolicy) : res pystr := digest (refund_policy_json p).
Definition cancellation_policy_fingerprint (p : SubscriptionCancellationPolicy) : res pystr :=
  digest (cancellation_policy_json p).
Definition credit_policy_fingerprint (p : CreditNotePolicy) : res pystr := digest (credit_policy_json p).

(** The tenant, effect and dump of a snapshot of any group. *)
Definition tenant_of (g : StripeHostActionGroup) : snapshot_of g → pystr :=
  match g with
  | REFUNDS => λ s, ri_tenant_reference (sn_intent s)
  | SUBSCRIPTIONS => cs_tenant_reference
  | CREDIT_NOTES => ns_tenant_reference
  end.

Definition effect_of (g : StripeHostActionGroup) : snapshot_of g → res pystr :=
  match g with
  | REFUNDS => refund_effect_reference
  | SUBSCRIPTIONS => cancellation_effect_reference
  | CREDIT_NOTES => credit_effect_reference
  end.

Definition model_of (g : StripeHostActionGroup) : snapshot_of g → PyModel :=
  match g with
  | REFUNDS => refund_snapshot_model
  | SUBSCRIPTIONS => cancellation_snapshot_model
  | CREDIT_NOTES => credit_snapshot_model
  end.

(** ** Does an observation match what was submitted? *)

Definition refund_matches (o : RefundObservation) (i : RefundIntent) : res bool :=
  if bool_decide (ro_charge_id o = ri_charge_id i)
     && bool_decide (ro_currency o = lower_code (mo_currency (ri_amount i)))
     && (ro_amount_minor o =? amount_minor i)%Z
  then c ← refund_correlation i; Ok (bool_decide (ro_correlation o = c))
  else Ok false.

Definition expected_subscription (s : SubscriptionCancellationSnapshot) (correlation : pystr)
  : SubscriptionObservation :=
  let o := cs_observed s in
  let schedule := bool_decide (cs_operation s = SCHEDULE) in
  mkSubscriptionObservation (so_subscription_id o) (so_customer_id o) (so_status o) (so_livemode o)
    (so_item_id o) (so_price_id o) (so_quantity o) (so_period_start o) (so_period_end o)
    schedule (if schedule then Some (so_period_end o) else None) (so_supported o) correlation.

Definition matches_result (s : SubscriptionCancellationSnapshot) (o : SubscriptionObservation) : res bool :=
  c ← cancellation_correlation s;
  Ok (bool_decide (o = expected_subscription s c) && subscription_bound_to o (cs_binding s)).

Definition note_matches (o : CreditNoteObservation) (s : CreditNoteSnapshot) : res bool :=
  let binding := dr_invoice (ns_draft s) in
  if bool_decide (no_invoice_id o = iv_invoice_id binding)
     && bool_decide (no_customer_id o = iv_customer_id binding)
     && Bool.eqb (no_livemode o) (sa_livemode (iv_account binding))
     && bool_decide (no_reason o = Some (nr_reason (dr_request (ns_draft s))))
  then
    c ← credit_correlation s;
    Ok (bool_decide (no_correlation o = c)
        && bool_decide (no_calculation o = ns_calculation s)
        && negb (no_has_refunds o) && (no_out_of_band_minor o =? 0)%Z
        && Bool.eqb (bool_decide (is_Some (no_balance_transaction_id o)))
             (0 <? credit_minor (ns_draft s))%Z)
  else Ok false.

End Digests.
