(* ===== verification/CustodyModels.v ===== *)
(** The data of the key custody integrations ([integrations/local_kek.py] and
    [integrations/aws_kms.py]), the operations of their ports, and the encodings
    they use.

    A [bytearray] is a reference to mutable bytes: the adapters overwrite the
    ones that hold keys, so reading and overwriting them are operations.  The
    primitives of the cryptography package and of [hmac] are parameters (class
    [Cryptography]). *)

From S2P Require Import Prelude Models Canonical.

(** * Data *)

(** A [bytearray], by its identity. *)
Abbreviation bytearray := positive.

Inductive EnvelopePurpose := FOR_COMMITMENT | FOR_PAYLOAD.

Definition purpose_value (p : EnvelopePurpose) : pystr :=
  match p with FOR_COMMITMENT => "commitment" | FOR_PAYLOAD => "payload" end.

Record LocalKekMaterial := mkLocalKekMaterial { km_version : pystr; km_key : bytearray }.

Record LocalWrappedDataKey := mkLocalWrappedDataKey {
  lw_tenant_reference : pystr;
  lw_proposal_reference : pystr;
  lw_purpose : EnvelopePurpose;
  lw_kek_version : pystr;
  lw_ciphertext : bytes
}.

Record GeneratedDataKey := mkGeneratedDataKey {
  gd_plaintext : bytearray;
  gd_ciphertext : bytes;
  gd_resolved_key_id : pystr
}.

Record WrappedDataKey := mkWrappedDataKey {
  wd_tenant_reference : pystr;
  wd_proposal_reference : pystr;
  wd_purpose : EnvelopePurpose;
  wd_key_id : pystr;
  wd_key_version : pystr;
  wd_ciphertext : bytes
}.

(** [LocalWrappedKeyDeleteOutcome] and [WrappedDataKeyDeleteOutcome]; a store
    that answers anything else answers [DO_INVALID]. *)
Inductive DeleteOutcome := DO_DELETED | DO_ALREADY_ABSENT | DO_MISMATCH | DO_INVALID.

#[export] Instance EnvelopePurpose_eq_dec : EqDecision EnvelopePurpose.
Proof. solve_decision. Defined.
#[export] Instance LocalWrappedDataKey_eq_dec : EqDecision LocalWrappedDataKey.
Proof. solve_decision. Defined.
#[export] Instance WrappedDataKey_eq_dec : EqDecision WrappedDataKey.
Proof. solve_decision. Defined.

(** * Operations *)

(** The [encryption_context] of a KMS call. *)
Abbreviation encryption_context := (list (pystr * pystr)).

Inductive custody_op :=
  (* [secrets] *)
  | TokenBytes (n : nat)
  | TokenHex (n : nat)
  (* [bytearray] *)
  | NewBytearray (content : bytes)
  | ReadBytearray (b : bytearray)
  | ZeroBytearray (b : bytearray)
  (* [LocalKekProvider] and [LocalWrappedKeyStore] *)
  | KekCurrent (p : positive)
  | KekResolve (p : positive) (version : pystr)
  | PutLocalKey (p : positive) (key_handle : pystr) (envelope : LocalWrappedDataKey)
  | GetLocalKey (p : positive) (key_handle : pystr)
  | DeleteLocalKey (p : positive) (key_handle : pystr) (proposal_identity : ProposalIdentity)
      (purpose : EnvelopePurpose) (kek_version : pystr)
  (* [KmsDataKeyClient] and [WrappedDataKeyStore] *)
  | GenerateDataKey (p : positive) (key_id : pystr) (context : encryption_context) (number_of_bytes : Z)
  | DecryptDataKey (p : positive) (key_id : pystr) (ciphertext : bytes) (context : encryption_context)
  | PutDataKey (p : positive) (key_handle : pystr) (envelope : WrappedDataKey)
  | GetDataKey (p : positive) (key_handle : pystr)
  | DeleteDataKey (p : positive) (key_handle : pystr) (proposal_identity : ProposalIdentity)
      (purpose : EnvelopePurpose) (key_version : pystr).

Definition custody_resp (o : custody_op) : Type :=
  match o with
  | TokenBytes _ => bytes
  | TokenHex _ => pystr
  | NewBytearray _ => bytearray
  | ReadBytearray _ => bytes
  | ZeroBytearray _ => unit
  | KekCurrent _ => LocalKekMaterial
  | KekResolve _ _ => option LocalKekMaterial
  | PutLocalKey _ _ _ | PutDataKey _ _ _ => unit
  | GetLocalKey _ _ => option LocalWrappedDataKey
  | DeleteLocalKey _ _ _ _ _ | DeleteDataKey _ _ _ _ _ => DeleteOutcome
  | GenerateDataKey _ _ _ _ => GeneratedDataKey
  | DecryptDataKey _ _ _ _ => bytes + bytearray
  | GetDataKey _ _ => option WrappedDataKey
  end.

(** * Cryptography *)

(** [AESGCM(key).encrypt(nonce, data, aad)], its inverse ([None] is
    [InvalidTag]), and [hmac.new(key, msg, sha256).hexdigest()]. *)
Class Cryptography := {
  aes_encrypt : bytes → bytes → bytes → bytes → bytes;
  aes_decrypt : bytes → bytes → bytes → bytes → option bytes;
  hmac_sha256_hexdigest : bytes → bytes → pystr;
  sha256_hex : bytes → pystr
}.

(** What the package relies on: decryption inverts encryption under the same
    key, nonce and associated data, and a tag of sixteen bytes is added. *)
Class CryptographyLaws (C : Cryptography) := {
  aes_round_trip : ∀ key nonce data aad,
    aes_decrypt key nonce (aes_encrypt key nonce data aad) aad = Some data;
  aes_length : ∀ key nonce data aad, length (aes_encrypt key nonce data aad) = 16 + length data;
  aes_bytes : ∀ key nonce data aad,
    Forall (λ b, 0 <= b < 256)%Z data → Forall (λ b, 0 <= b < 256)%Z (aes_encrypt key nonce data aad)
}.

(** * Encodings *)

(** Each part behind its length in four bytes. *)
Fixpoint length_prefixed (parts : list bytes) : res bytes :=
  match parts with
  | [] => Ok []
  | part :: parts' =>
      size ← to_bytes_big 4 (Z.of_nat (length part));
      rest ← length_prefixed parts';
      Ok (size ++ part ++ rest)
  end.

Fixpoint encode_parts (parts : list pystr) : res (list bytes) :=
  match parts with
  | [] => Ok []
  | part :: parts' =>
      b ← utf8 (code_points part); rest ← encode_parts parts'; Ok (b :: rest)
  end.

(** The associated data of an envelope: a prefix, then the parts. *)
Definition metadata_of (prefix : pystr) (parts : list pystr) : res bytes :=
  encoded ← encode_parts parts;
  body ← length_prefixed encoded;
  Ok ((Z.of_N <$> code_points prefix) ++ body).

(** [hmac.compare_digest] of two strings. *)
Definition compare_digest (a b : pystr) : res bool :=
  if forallb (λ c, (c <? 128)%N) (code_points a ++ code_points b) then Ok (bool_decide (a = b))
  else fail (OtherException "TypeError").

(** ** Base 64 *)

Definition b64_char (v : Z) : N :=
  Z.to_N (if v <? 26 then 65 + v else if v <? 52 then 71 + v else if v <? 62 then v - 4
          else if v =? 62 then 43 else 47)%Z.

Definition b64_value (c : N) : option Z :=
  let z := Z.of_N c in
  (if (65 <=? z) && (z <=? 90) then Some (z - 65)
   else if (97 <=? z) && (z <=? 122) then Some (z - 71)
   else if (48 <=? z) && (z <=? 57) then Some (z + 4)
   else if z =? 43 then Some 62 else if z =? 47 then Some 63 else None)%Z.

(** [base64.b64encode(data).decode("ascii")]. *)
Fixpoint b64encode (l : bytes) : list N :=
  match l with
  | [] => []
  | [a] => [b64_char (a / 4); b64_char (a mod 4 * 16); 61; 61]%N
  | [a; b] => [b64_char (a / 4); b64_char (a mod 4 * 16 + b / 16); b64_char (b mod 16 * 4); 61]%N
  | a :: b :: c :: l' =>
      b64_char (a / 4) :: b64_char (a mod 4 * 16 + b / 16) :: b64_char (b mod 16 * 4 + c / 64)
        :: b64_char (c mod 64) :: b64encode l'
  end%Z.

(** [base64.b64decode(text, validate=True)]; [None] is an error. *)
Fixpoint b64decode (l : list N) : option bytes :=
  match l with
  | [] => Some []
  | w :: x :: y :: z :: l' =>
      v ← b64_value w; u ← b64_value x;
      if (z =? 61)%N then
        match l' with
        | [] =>
            if (y =? 61)%N then Some [v * 4 + u / 16]%Z
            else t ← b64_value y; Some [v * 4 + u / 16; u mod 16 * 16 + t / 4]%Z
        | _ => None
        end
      else
        t ← b64_value y; s ← b64_value z; rest ← b64decode l';
        Some (v * 4 + u / 16 :: u mod 16 * 16 + t / 4 :: t mod 4 * 64 + s :: rest)%Z
  | _ => None
  end.

Lemma b64_alphabet v : (0 <= v < 64)%Z → b64_value (b64_char v) = Some v ∧ (b64_char v =? 61)%N = false.
Proof.
  intros Hv.
  assert (H : forallb (λ n, bool_decide (b64_value (b64_char (Z.of_nat n)) = Some (Z.of_nat n)
    ∧ (b64_char (Z.of_nat n) =? 61)%N = false)) (seq 0 64) = true) by (vm_compute; reflexivity).
  rewrite forallb_forall in H. specialize (H (Z.to_nat v)). rewrite Z2Nat.id in H by lia.
  apply bool_decide_eq_true_1 in H; [done|]. apply in_seq. lia.
Qed.

Lemma b64_value_char v : (0 <= v < 64)%Z → b64_value (b64_char v) = Some v.
Proof. intros Hv. by apply b64_alphabet. Qed.
Lemma b64_char_pad v : (0 <= v < 64)%Z → (b64_char v =? 61)%N = false.
Proof. intros Hv. by apply b64_alphabet. Qed.

Ltac dlia := Z.to_euclidean_division_equations; lia.

(** Decoding gives back what was encoded. *)
Lemma b64_round_trip l : Forall (λ b, 0 <= b < 256)%Z l → b64decode (b64encode l) = Some l.
Proof.
  remember (length l) as n eqn:Hn. revert l Hn.
  induction (lt_wf n) as [n _ IH]. intros l -> Hl.
  destruct l as [|a [|b [|c l]]]; [done| | |]; repeat (let H := fresh in pose proof (Forall_inv Hl) as H; cbv beta in H; apply Forall_inv_tail in Hl);
    cbn [b64encode b64decode].
  - rewrite !b64_value_char by dlia. cbn. do 2 f_equal. dlia.
  - rewrite !b64_value_char by dlia. simpl. rewrite b64_char_pad by dlia. simpl. f_equal. f_equal; [dlia|]. f_equal. dlia.
  - rewrite !b64_value_char by dlia. simpl. rewrite b64_char_pad by dlia. simpl. rewrite (IH (length l)); [|simpl; lia|done|done].
    simpl. f_equal. f_equal; [dlia|]. f_equal; [dlia|]. f_equal. dlia.
Qed.
