(* ===== verification/AgentModels.v ===== *)
(** The data of the agent integration ([integrations/pydantic_ai.py]) and of the
    authoring application it binds tools to ([experimental/application.py]), and
    the host objects they call: context resolvers, dependency scopes, recipes,
    inline authority handlers and failure handlers. *)

From S2P Require Import Prelude Models Canonical Registry.

(** [ActionAgentContext]: what the host trusts of an agent's dependencies. *)
Record ActionAgentContext := mkActionAgentContext {
  ac_tenant_reference : pystr;
  ac_requesting_principal : RequestingPrincipal;
  ac_evidence_consumer : EvidenceConsumer;
  ac_proposing_agent : option ProposingAgent
}.

Record DeferredActionRequest := mkDeferredActionRequest {
  df_tool_call_id : pystr;
  df_tool_name : pystr;
  df_proposal_reference : pystr;
  df_action_type : ActionType
}.

(** [ActionComponents], as a recipe may really give it: any field may be
    [None].  Clock, identifiers and event sink are always there, by default or
    not. *)
Record ActionComponents := mkActionComponents {
  cm_preparation : option port;
  cm_authorization : option port;
  cm_authority_evaluator : option port;
  cm_state_resolver : option port;
  cm_executor : option port;
  cm_verifier : option port;
  cm_commitment_provider : option CommitmentProviderPort;
  cm_protection_codec : option ProtectionCodecPort;
  cm_retention : option port;
  cm_store : option port;
  cm_retention_store : option port;
  cm_runtime_revision : option pystr;
  cm_recovery_authorization : option port
}.

(** The dependencies a tool call runs with are a host object as well. *)
Inductive agent_op :=
  | ResolveContext (resolver dependencies : port)
  | ReportFailure (handler : port) (failure : exn) (action_type : ActionType) (tool_name : pystr)
  (* [__aenter__] and [__aexit__] of a dependency scope; the latter answers
     whether it suppresses the exception *)
  | EnterScope (scope dependencies : port)
  | ExitScope (scope dependencies : port) (failure : option exn)
  (* [recipe.bind(dependencies)]; [None] is anything but [ActionComponents] *)
  | BindRecipe (recipe dependencies : port)
  (* the truth of what the handler answers, awaited if need be *)
  | InlineAuthority (handler : port) (request : DeferredActionRequest) (dependencies : port).

Definition agent_resp (o : agent_op) : Type :=
  match o with
  | ResolveContext _ _ => ActionAgentContext
  | ReportFailure _ _ _ _ => unit
  | EnterScope _ _ => port
  | ExitScope _ _ _ => bool
  | BindRecipe _ _ => option ActionComponents
  | InlineAuthority _ _ _ => bool
  end.
