(* ===== verification/StoreBase.v ===== *)
(** The stored proposal, its lifecycle table, and the checks every store runs
    before a write ([stores/base.py]). *)

From S2P Require Import Prelude Models Canonical Authority Receipts.

(** * The record *)

Record StoredProposal := mkStoredProposal {
  sp_tenant_reference : pystr;
  sp_proposal_reference : pystr;
  sp_action_type : ActionType;
  sp_semantic_effect_reference : pystr;
  sp_effect_kind : EffectKind;
  sp_lifecycle_status : LifecycleStatus;
  sp_revision : Z;
  sp_protected_private_snapshot : option ProtectedPayload;
  sp_commitment : option KeyedCommitment;
  sp_display_preview : JsonObject;
  sp_requesting_principal : option RequestingPrincipal;
  sp_proposing_agent : option ProposingAgent;
  sp_created_at : datetime;
  sp_expires_at : datetime;
  sp_authority_evidence : list AuthorityEvidence;
  sp_receipts : list Receipt;
  sp_verification_attempts : Z;
  sp_max_verification_attempts : Z;
  sp_next_verification_at : option datetime;
  sp_safe_result : option JsonObject;
  sp_execution_precondition : option pystr;
  sp_superseded_by : option pystr;
  sp_erasure_pending_at : option datetime;
  sp_erased_at : option datetime
}.

#[export] Instance StoredProposal_eq_dec : EqDecision StoredProposal.
Proof. solve_decision. Defined.

(** [model_copy(update={...})], one field at a time. *)

Definition set_lifecycle_status (v : LifecycleStatus) (p : StoredProposal) : StoredProposal :=
  mkStoredProposal
    (sp_tenant_reference p) (sp_proposal_reference p) (sp_action_type p)
    (sp_semantic_effect_reference p) (sp_effect_kind p) v (sp_revision p)
    (sp_protected_private_snapshot p) (sp_commitment p) (sp_display_preview p)
    (sp_requesting_principal p) (sp_proposing_agent p) (sp_created_at p)
    (sp_expires_at p) (sp_authority_evidence p) (sp_receipts p)
    (sp_verification_attempts p) (sp_max_verification_attempts p)
    (sp_next_verification_at p) (sp_safe_result p) (sp_execution_precondition p)
    (sp_superseded_by p) (sp_erasure_pending_at p) (sp_erased_at p).

Definition set_revision (v : Z) (p : StoredProposal) : StoredProposal :=
  mkStoredProposal
    (sp_tenant_reference p) (sp_proposal_reference p) (sp_action_type p)
    (sp_semantic_effect_reference p) (sp_effect_kind p) (sp_lifecycle_status p) v
    (sp_protected_private_snapshot p) (sp_commitment p) (sp_display_preview p)
    (sp_requesting_principal p) (sp_proposing_agent p) (sp_created_at p)
    (sp_expires_at p) (sp_authority_evidence p) (sp_receipts p)
    (sp_verification_attempts p) (sp_max_verification_attempts p)
    (sp_next_verification_at p) (sp_safe_result p) (sp_execution_precondition p)
    (sp_superseded_by p) (sp_erasure_pending_at p) (sp_erased_at p).

Definition set_authority_evidence (v : list AuthorityEvidence) (p : StoredProposal) : StoredProposal :=
  mkStoredProposal
    (sp_tenant_reference p) (sp_proposal_reference p) (sp_action_type p)
    (sp_semantic_effect_reference p) (sp_effect_kind p) (sp_lifecycle_status p)
    (sp_revision p) (sp_protected_private_snapshot p) (sp_commitment p)
    (sp_display_preview p) (sp_requesting_principal p) (sp_proposing_agent p)
    (sp_created_at p) (sp_expires_at p) v (sp_receipts p) (sp_verification_attempts p)
    (sp_max_verification_attempts p) (sp_next_verification_at p) (sp_safe_result p)
    (sp_execution_precondition p) (sp_superseded_by p) (sp_erasure_pending_at p)
    (sp_erased_at p).

Definition set_receipts (v : list Receipt) (p : StoredProposal) : StoredProposal :=
  mkStoredProposal
    (sp_tenant_reference p) (sp_proposal_reference p) (sp_action_type p)
    (sp_semantic_effect_reference p) (sp_effect_kind p) (sp_lifecycle_status p)
    (sp_revision p) (sp_protected_private_snapshot p) (sp_commitment p)
    (sp_display_preview p) (sp_requesting_principal p) (sp_proposing_agent p)
    (sp_created_at p) (sp_expires_at p) (sp_authority_evidence p) v
    (sp_verification_attempts p) (sp_max_verification_attempts p)
    (sp_next_verification_at p) (sp_safe_result p) (sp_execution_precondition p)
    (sp_superseded_by p) (sp_erasure_pending_at p) (sp_erased_at p).

Definition set_verification_attempts (v : Z) (p : StoredProposal) : StoredProposal :=
  mkStoredProposal
    (sp_tenant_reference p) (sp_proposal_reference p) (sp_action_type p)
    (sp_semantic_effect_reference p) (sp_effect_kind p) (sp_lifecycle_status p)
    (sp_revision p) (sp_protected_private_snapshot p) (sp_commitment p)
    (sp_display_preview p) (sp_requesting_principal p) (sp_proposing_agent p)
    (sp_created_at p) (sp_expires_at p) (sp_authority_evidence p) (sp_receipts p) v
    (sp_max_verification_attempts p) (sp_next_verification_at p) (sp_safe_result p)
    (sp_execution_precondition p) (sp_superseded_by p) (sp_erasure_pending_at p)
    (sp_erased_at p).

Definition set_next_verification_at (v : option datetime) (p : StoredProposal) : StoredProposal :=
  mkStoredProposal
    (sp_tenant_reference p) (sp_proposal_reference p) (sp_action_type p)
    (sp_semantic_effect_reference p) (sp_effect_kind p) (sp_lifecycle_status p)
    (sp_revision p) (sp_protected_private_snapshot p) (sp_commitment p)
    (sp_display_preview p) (sp_requesting_principal p) (sp_proposing_agent p)
    (sp_created_at p) (sp_expires_at p) (sp_authority_evidence p) (sp_receipts p)
    (sp_verification_attempts p) (sp_max_verification_attempts p) v (sp_safe_result p)
    (sp_execution_precondition p) (sp_superseded_by p) (sp_erasure_pending_at p)
    (sp_erased_at p).

Definition set_safe_result (v : option JsonObject) (p : StoredProposal) : StoredProposal :=
  mkStoredProposal
    (sp_tenant_reference p) (sp_proposal_reference p) (sp_action_type p)
    (sp_semantic_effect_reference p) (sp_effect_kind p) (sp_lifecycle_status p)
    (sp_revision p) (sp_protected_private_snapshot p) (sp_commitment p)
    (sp_display_preview p) (sp_requesting_principal p) (sp_proposing_agent p)
    (sp_created_at p) (sp_expires_at p) (sp_authority_evidence p) (sp_receipts p)
    (sp_verification_attempts p) (sp_max_verification_attempts p)
    (sp_next_verification_at p) v (sp_execution_precondition p) (sp_superseded_by p)
    (sp_erasure_pending_at p) (sp_erased_at p).

Definition set_execution_precondition (v : option pystr) (p : StoredProposal) : StoredProposal :=
  mkStoredProposal
    (sp_tenant_reference p) (sp_proposal_reference p) (sp_action_type p)
    (sp_semantic_effect_reference p) (sp_effect_kind p) (sp_lifecycle_status p)
    (sp_revision p) (sp_protected_private_snapshot p) (sp_commitment p)
    (sp_display_preview p) (sp_requesting_principal p) (sp_proposing_agent p)
    (sp_created_at p) (sp_expires_at p) (sp_authority_evidence p) (sp_receipts p)
    (sp_verification_attempts p) (sp_max_verification_attempts p)
    (sp_next_verification_at p) (sp_safe_result p) v (sp_superseded_by p)
    (sp_erasure_pending_at p) (sp_erased_at p).

Definition set_superseded_by (v : option pystr) (p : StoredProposal) : StoredProposal :=
  mkStoredProposal
    (sp_tenant_reference p) (sp_proposal_reference p) (sp_action_type p)
    (sp_semantic_effect_reference p) (sp_effect_kind p) (sp_lifecycle_status p)
    (sp_revision p) (sp_protected_private_snapshot p) (sp_commitment p)
    (sp_display_preview p) (sp_requesting_principal p) (sp_proposing_agent p)
    (sp_created_at p) (sp_expires_at p) (sp_authority_evidence p) (sp_receipts p)
    (sp_verification_attempts p) (sp_max_verification_attempts p)
    (sp_next_verification_at p) (sp_safe_result p) (sp_execution_precondition p) v
    (sp_erasure_pending_at p) (sp_erased_at p).

Definition set_erasure_pending_at (v : option datetime) (p : StoredProposal) : StoredProposal :=
  mkStoredProposal
    (sp_tenant_reference p) (sp_proposal_reference p) (sp_action_type p)
    (sp_semantic_effect_reference p) (sp_effect_kind p) (sp_lifecycle_status p)
    (sp_revision p) (sp_protected_private_snapshot p) (sp_commitment p)
    (sp_display_preview p) (sp_requesting_principal p) (sp_proposing_agent p)
    (sp_created_at p) (sp_expires_at p) (sp_authority_evidence p) (sp_receipts p)
    (sp_verification_attempts p) (sp_max_verification_attempts p)
    (sp_next_verification_at p) (sp_safe_result p) (sp_execution_precondition p)
    (sp_superseded_by p) v (sp_erased_at p).

(** * The lifecycle table *)

Definition ALLOWED_LIFECYCLE_TRANSITIONS (s : LifecycleStatus) : list LifecycleStatus :=
  match s with
  | AWAITING_AUTHORITY => [AUTHORIZED; DENIED; EXPIRED]
  | AUTHORIZED => [BLOCKED; EXPIRED; EXECUTING; STALE]
  | EXECUTING => [STALE; FAILED_KNOWN; FAILED_UNKNOWN; VERIFICATION_PENDING]
  | FAILED_UNKNOWN => [VERIFICATION_PENDING]
  | VERIFICATION_PENDING =>
      [AUTHORIZED; EXECUTING; FAILED_KNOWN; FAILED_UNKNOWN; PARTIALLY_SUCCEEDED;
       VERIFICATION_UNRESOLVED; VERIFIED]
  | STALE => [SUPERSEDED]
  | VERIFIED => []
  | BLOCKED => []
  | DENIED => []
  | EXPIRED => []
  | FAILED_KNOWN => []
  | PARTIALLY_SUCCEEDED => []
  | SUPERSEDED => []
  | VERIFICATION_UNRESOLVED => [VERIFICATION_PENDING]
  end.

Definition ERASABLE_LIFECYCLE_STATUSES : list LifecycleStatus :=
  List.filter (λ status, negb (bool_decide
    (status ∈ [EXECUTING; FAILED_UNKNOWN; VERIFICATION_PENDING]))) lifecycle_statuses.

(** * Effect admission *)

Inductive EffectClaimResult :=
  | ACQUIRED
  | OWNED_BY_PROPOSAL
  | CONFLICT
  | PROPOSAL_NOT_FOUND
  | PROPOSAL_NOT_AUTHORIZED.

#[export] Instance EffectClaimResult_eq_dec : EqDecision EffectClaimResult.
Proof. solve_decision. Defined.

(** * Validation *)

Definition evidence_matches_proposal (evidence : AuthorityEvidence) (proposal : StoredProposal)
  : bool :=
  match sp_commitment proposal with
  | None => false
  | Some commitment =>
      bool_decide (ae_tenant_reference evidence = sp_tenant_reference proposal)
      && bool_decide (ae_action_type evidence = sp_action_type proposal)
      && bool_decide (ae_proposal_instance_reference evidence = sp_proposal_reference proposal)
      && bool_decide (ae_semantic_effect_reference evidence = sp_semantic_effect_reference proposal)
      && bool_decide (ae_proposal_commitment evidence = kc_digest commitment)
  end.

Definition _validate_proposal_bindings (proposal : StoredProposal) : res unit :=
  if negb (forallb (λ e, evidence_matches_proposal e proposal) (sp_authority_evidence proposal)) then
    fail (StoreInvariantError "authority evidence binding does not match proposal")
  else if existsb (λ r, negb (bool_decide
            (rb_correlation_reference (receipt_base r) = sp_proposal_reference proposal)))
          (sp_receipts proposal) then
    fail (StoreInvariantError "receipt correlation does not match proposal")
  else Ok ().

Definition validate_proposal_create (proposal : StoredProposal) : res unit :=
  if negb (sp_revision proposal =? 0)%Z then
    fail (StoreInvariantError "a new proposal must start at revision zero")
  else if negb (bool_decide (sp_lifecycle_status proposal = AWAITING_AUTHORITY)) then
    fail (StoreInvariantError "a new proposal must start before authorization")
  else if bool_decide (is_Some (sp_erasure_pending_at proposal))
       || bool_decide (is_Some (sp_erased_at proposal)) then
    fail (StoreInvariantError "a new proposal cannot start erased")
  else _validate_proposal_bindings proposal.

Definition proposal_with_erasure_pending (proposal : StoredProposal) (pending_at : datetime)
  : StoredProposal :=
  set_revision (sp_revision proposal + 1) $ set_erasure_pending_at (Some pending_at) proposal.

Definition erased_proposal (p : StoredProposal) (erased_at : datetime) : StoredProposal :=
  mkStoredProposal
    (sp_tenant_reference p) (sp_proposal_reference p) (sp_action_type p)
    (sp_semantic_effect_reference p) (sp_effect_kind p) (sp_lifecycle_status p)
    (sp_revision p + 1)%Z None None [] None None (sp_created_at p) (sp_expires_at p) []
    [] (sp_verification_attempts p) (sp_max_verification_attempts p) None None None
    (sp_superseded_by p) None (Some erased_at).

Definition proposal_identity (p : StoredProposal) :=
  (sp_tenant_reference p, sp_proposal_reference p, sp_action_type p,
   sp_semantic_effect_reference p, sp_effect_kind p, sp_created_at p).

(** The content an erased proposal may not keep. *)
Definition holds_content (p : StoredProposal) : bool :=
  bool_decide (is_Some (sp_protected_private_snapshot p))
  || bool_decide (is_Some (sp_commitment p))
  || negb (bool_decide (sp_display_preview p = []))
  || bool_decide (is_Some (sp_requesting_principal p))
  || bool_decide (is_Some (sp_proposing_agent p))
  || negb (bool_decide (sp_authority_evidence p = []))
  || negb (bool_decide (sp_receipts p = []))
  || bool_decide (is_Some (sp_safe_result p))
  || bool_decide (is_Some (sp_execution_precondition p)).

Definition validate_proposal_update (current updated : StoredProposal) : res unit :=
  if negb (bool_decide (proposal_identity current = proposal_identity updated)) then
    fail (StoreInvariantError "proposal identity cannot change")
  else if negb (sp_revision updated =? sp_revision current + 1)%Z then
    fail (StoreInvariantError "updated revision must advance by exactly one")
  else if bool_decide (is_Some (sp_erasure_pending_at current))
       && bool_decide (sp_erasure_pending_at updated = None)
       && bool_decide (sp_erased_at updated = None) then
    fail (StoreInvariantError "pending erasure can only advance to erased")
  else if bool_decide (is_Some (sp_erased_at updated)) && holds_content updated then
    fail (StoreInvariantError "an erased proposal must be a content-free tombstone")
  else if bool_decide (sp_erased_at updated = None)
       && negb (bool_decide (take (length (sp_authority_evidence current))
                               (sp_authority_evidence updated) = sp_authority_evidence current)) then
    fail (StoreInvariantError "authority evidence is append-only before erasure")
  else if bool_decide (sp_erased_at updated = None)
       && negb (bool_decide (take (length (sp_receipts current)) (sp_receipts updated)
                             = sp_receipts current)) then
    fail (StoreInvariantError "receipts are append-only before erasure")
  else if negb (bool_decide (sp_lifecycle_status updated = sp_lifecycle_status current))
       && negb (bool_decide (sp_lifecycle_status updated ∈
                  ALLOWED_LIFECYCLE_TRANSITIONS (sp_lifecycle_status current))) then
    fail (StoreInvariantError ("invalid lifecycle transition: "
      +:+ lifecycle_value (sp_lifecycle_status current) +:+ " -> "
      +:+ lifecycle_value (sp_lifecycle_status updated)))
  else _validate_proposal_bindings updated.

(** * Facts *)

(** A status the lifecycle never leaves through [STALE] or a new claim: the
    effect may have been submitted and is not known to be void. *)
Definition effect_live (s : LifecycleStatus) : bool :=
  bool_decide (s ∈ [EXECUTING; FAILED_UNKNOWN; VERIFICATION_PENDING; VERIFICATION_UNRESOLVED;
                    PARTIALLY_SUCCEEDED; VERIFIED]).

(** What an accepted binding check says. *)
Record bindings_ok (p : StoredProposal) : Prop := {
  bindings_evidence : ∀ e, e ∈ sp_authority_evidence p → evidence_matches_proposal e p = true;
  bindings_receipts : ∀ r, r ∈ sp_receipts p →
    rb_correlation_reference (receipt_base r) = sp_proposal_reference p
}.

Lemma validate_bindings_ok p : _validate_proposal_bindings p = Ok () ↔ bindings_ok p.
Proof.
  unfold _validate_proposal_bindings. split.
  - intros H. repeat (split_if; try discriminate). to_prop. constructor.
    + intros e He. apply list_elem_of_In in He.
      by rewrite forallb_forall in Hif; apply Hif.
    + intros r Hr. rewrite existsb_false_elem in Hif0. specialize (Hif0 r Hr). by to_prop.
  - intros [He Hr].
    assert (forallb (λ e, evidence_matches_proposal e p) (sp_authority_evidence p) = true) as ->.
    { apply forallb_forall. intros e. rewrite <-list_elem_of_In. apply He. }
    simpl.
    assert (existsb (λ r, negb (bool_decide
      (rb_correlation_reference (receipt_base r) = sp_proposal_reference p))) (sp_receipts p)
      = false) as ->; [|done].
    apply existsb_false_elem. intros r Hin. by rewrite bool_decide_eq_true_2 by by apply Hr.
Qed.

(** What an accepted creation says. *)
Record create_ok (p : StoredProposal) : Prop := {
  create_revision : sp_revision p = 0%Z;
  create_status : sp_lifecycle_status p = AWAITING_AUTHORITY;
  create_pending : sp_erasure_pending_at p = None;
  create_erased : sp_erased_at p = None;
  create_bindings : bindings_ok p
}.

Lemma validate_create_ok p : validate_proposal_create p = Ok () ↔ create_ok p.
Proof.
  unfold validate_proposal_create. split.
  - intros H. repeat (split_if; try discriminate). to_prop. constructor; try done.
    + by apply eq_None_not_Some.
    + by apply eq_None_not_Some.
    + by apply validate_bindings_ok.
  - intros [-> -> -> -> H%validate_bindings_ok]. by rewrite H.
Qed.

(** What an accepted update says. *)
Record update_ok (c u : StoredProposal) : Prop := {
  update_identity : proposal_identity c = proposal_identity u;
  update_revision : sp_revision u = (sp_revision c + 1)%Z;
  update_pending : is_Some (sp_erasure_pending_at c) →
    is_Some (sp_erasure_pending_at u) ∨ is_Some (sp_erased_at u);
  update_tombstone : is_Some (sp_erased_at u) → holds_content u = false;
  update_evidence : sp_erased_at u = None →
    sp_authority_evidence c `prefix_of` sp_authority_evidence u;
  update_receipts : sp_erased_at u = None → sp_receipts c `prefix_of` sp_receipts u;
  update_status : sp_lifecycle_status u = sp_lifecycle_status c ∨
    sp_lifecycle_status u ∈ ALLOWED_LIFECYCLE_TRANSITIONS (sp_lifecycle_status c);
  update_bindings : bindings_ok u
}.

Lemma None_or_Some {A} (o : option A) : o = None ∨ is_Some o.
Proof. destruct o; eauto. Qed.

Lemma validate_update_ok c u : validate_proposal_update c u = Ok () ↔ update_ok c u.
Proof.
  unfold validate_proposal_update. split.
  - intros H. repeat (split_if; try discriminate).
    repeat match goal with H : _ && _ = false |- _ => apply andb_false_iff in H end.
    to_prop. constructor; try done.
    + intros Hp. destruct Hif1 as [[Hx|Hx]%andb_false_iff|Hx]; to_prop; [done|left|right];
        destruct (None_or_Some (sp_erasure_pending_at u)), (None_or_Some (sp_erased_at u)); done.
    + intros He. destruct Hif2 as [Hx|?]; [to_prop; done|done].
    + intros He. apply take_length_prefix. destruct Hif3 as [Hx|Hx]; to_prop; done.
    + intros He. apply take_length_prefix. destruct Hif4 as [Hx|Hx]; to_prop; done.
    + destruct Hif5 as [Hx|Hx]; to_prop; auto.
    + by apply validate_bindings_ok.
  - intros [-> -> Hp Ht He Hr Hs Hb%validate_bindings_ok]. rewrite Hb.
    rewrite bool_decide_eq_true_2, Z.eqb_refl by done. simpl.
    assert (bool_decide (is_Some (sp_erasure_pending_at c))
      && bool_decide (sp_erasure_pending_at u = None)
      && bool_decide (sp_erased_at u = None) = false) as ->.
    { destruct (None_or_Some (sp_erasure_pending_at c)) as [->|Hc]; [done|].
      destruct (Hp Hc) as [[? ->]|[? ->]]; [|by rewrite andb_comm].
      by rewrite (bool_decide_eq_false_2 (Some _ = None)), andb_false_r by done. }
    assert (bool_decide (is_Some (sp_erased_at u)) && holds_content u = false) as ->.
    { case_bool_decide; [by rewrite Ht|done]. }
    assert (bool_decide (sp_erased_at u = None)
      && negb (bool_decide (take (length (sp_authority_evidence c))
           (sp_authority_evidence u) = sp_authority_evidence c)) = false) as ->.
    { case_bool_decide; [|done]. by rewrite bool_decide_eq_true_2 by by apply take_length_prefix, He. }
    assert (bool_decide (sp_erased_at u = None)
      && negb (bool_decide (take (length (sp_receipts c)) (sp_receipts u) = sp_receipts c))
      = false) as ->.
    { case_bool_decide; [|done]. by rewrite bool_decide_eq_true_2 by by apply take_length_prefix, Hr. }
    destruct Hs as [Hs|Hs].
    + by rewrite (bool_decide_eq_true_2 _ Hs).
    + by rewrite (bool_decide_eq_true_2 _ Hs), andb_false_r.
Qed.

Lemma update_status_step c u :
  update_ok c u → sp_lifecycle_status u = sp_lifecycle_status c ∨
    sp_lifecycle_status u ∈ ALLOWED_LIFECYCLE_TRANSITIONS (sp_lifecycle_status c).
Proof. by intros []. Qed.

(** Entering the live statuses from outside is entering [EXECUTING]; and a
    live proposal becomes void only by failing or going stale. *)
Lemma live_entered_by_executing s t :
  t = s ∨ t ∈ ALLOWED_LIFECYCLE_TRANSITIONS s → effect_live t = true → effect_live s = false →
  t = EXECUTING.
Proof.
  intros [->|Ht] Hl Hn; [congruence|].
  destruct s; try discriminate Hn; simpl in Ht; apply list_elem_of_In in Ht; simpl in Ht;
    destruct_or?; subst; try discriminate Hl; done.
Qed.
