(* ===== verification/StoredValidity.v ===== *)
(** What Pydantic accepts as a stored proposal ([stores/base.py] and the models
    of its fields), one predicate per model, and the documents JSON text keeps.
    The stores that keep JSON text validate a proposal before they write it. *)

From S2P Require Import Prelude Models Canonical Authority Receipts StoreBase.

(** Text that can be encoded. *)
Definition unicode_text (s : pystr) : bool := forallb (λ c, negb (is_surrogate c)) (code_points s).

Definition optional {A} (f : A → bool) (o : option A) : bool :=
  match o with Some x => f x | None => true end.

Section Validity.
Context `{U : Unicode}.

(** * The models *)

Definition commitment_valid (c : KeyedCommitment) : bool :=
  unicode_text (kc_algorithm c) && safe_reference (kc_key_handle c)
  && safe_reference (kc_key_version c) && safe_reference (kc_digest c).

Definition OpaquePayload (s : pystr) : bool :=
  unicode_text s && (1 <=? Z.of_nat (pystr_len s))%Z && (Z.of_nat (pystr_len s) <=? 1048576)%Z.

Definition payload_valid (p : ProtectedPayload) : bool :=
  safe_reference (pp_codec p) && safe_reference (pp_key_handle p)
  && safe_reference (pp_key_version p) && OpaquePayload (pp_ciphertext p).

Definition attestation_valid (a : ExternalAuthorityAttestation) : bool :=
  safe_reference (ea_format a) && safe_reference (ea_issuer_reference a)
  && safe_reference (ea_artifact_reference a) && safe_reference (ea_artifact_digest a).

Definition authority_evidence_valid (e : AuthorityEvidence) : bool :=
  safe_reference (ae_tenant_reference e) && action_type_valid (ae_action_type e)
  && safe_reference (ae_proposal_instance_reference e)
  && safe_reference (ae_semantic_effect_reference e)
  && safe_reference (ca_reference (ae_authority e))
  && forallb safe_reference (ae_audience e) && negb (bool_decide (ae_audience e = []))
  && safe_reference (ae_proposal_commitment e) && safe_reference (ae_channel_assurance e)
  && optional attestation_valid (ae_external_attestation e)
  && match expiry_follows_issue_time e with Ok _ => true | Err _ => false end.

Definition external_reference_valid (r : ExternalReference) : bool :=
  safe_reference (er_system r) && safe_reference (er_reference r).

Definition item_outcome_valid (o : ItemOutcome) : bool :=
  safe_reference (io_item_reference o) && optional safe_reference (io_reason_code o).

Definition receipt_base_valid (b : ReceiptBase) : bool :=
  bool_decide (rb_schema_version b = "internal/v0"%py)
  && safe_reference (rb_receipt_reference b) && safe_reference (rb_correlation_reference b)
  && safe_reference (rb_causation_reference b)
  && optional safe_reference (rb_runtime_revision b)
  && optional external_reference_valid (rb_external_reference b)
  && optional safe_reference (rb_corrects_receipt_reference b)
  && optional safe_reference (rb_supersedes_receipt_reference b)
  && optional safe_reference (rb_reason_code b).

Definition receipt_valid (r : Receipt) : bool :=
  receipt_base_valid (receipt_base r) &&
  match r with
  | ProposalReceipt _ _ principal agent =>
      safe_reference (rp_reference principal) && optional (λ a, safe_reference (pa_reference a)) agent
  | AuthorityReceipt _ _ participant => safe_reference (ca_reference participant)
  | ExecutionReceipt _ _ participant outcomes =>
      safe_reference (ge_reference participant) && forallb item_outcome_valid outcomes
  | VerificationReceipt _ _ participant outcomes =>
      safe_reference (tg_reference participant) && forallb item_outcome_valid outcomes
  | RecoveryReceipt _ _ participant => safe_reference (ro_reference participant)
  end.

Definition stored_proposal_valid (p : StoredProposal) : bool :=
  safe_reference (sp_tenant_reference p) && safe_reference (sp_proposal_reference p)
  && action_type_valid (sp_action_type p) && safe_reference (sp_semantic_effect_reference p)
  && (0 <=? sp_revision p)%Z
  && optional payload_valid (sp_protected_private_snapshot p)
  && optional commitment_valid (sp_commitment p)
  && optional (λ r, safe_reference (rp_reference r)) (sp_requesting_principal p)
  && optional (λ a, safe_reference (pa_reference a)) (sp_proposing_agent p)
  && forallb authority_evidence_valid (sp_authority_evidence p)
  && forallb receipt_valid (sp_receipts p)
  && (0 <=? sp_verification_attempts p)%Z && (1 <=? sp_max_verification_attempts p)%Z
  && optional safe_reference (sp_execution_precondition p)
  && optional safe_reference (sp_superseded_by p).

(** * Documents *)

(** JSON text has no infinite numbers, and its objects are read as
    dictionaries. *)
Fixpoint json_document (v : json) : bool :=
  match v with
  | JNull | JBool _ | JInt _ => true
  | JFloat f => isfinite f
  | JStr s => unicode_text s
  | JList l => forallb json_document l
  | JObj o => bool_decide (NoDup o.*1) && forallb (λ '(k, x), unicode_text k && json_document x) o
  end.

Definition json_fields (p : StoredProposal) : bool :=
  json_document (JObj (sp_display_preview p))
  && optional (λ o, json_document (JObj o)) (sp_safe_result p).

(** * Erasure keeps both *)

(** Split a conjunction of checks, and close one whose checks are known. *)
Ltac checks_known :=
  repeat match goal with
  | H : _ && _ = true |- _ => apply andb_prop in H as [? ?]
  end;
  cbn -[Z.leb Z.add]; rewrite ?andb_true_r, ?andb_true_iff; split_and?; try done.

Lemma stored_proposal_valid_pending p t :
  stored_proposal_valid p = true → stored_proposal_valid (proposal_with_erasure_pending p t) = true.
Proof. unfold stored_proposal_valid. intros H. checks_known. rewrite Z.leb_le in *. lia. Qed.

Lemma stored_proposal_valid_erased p t :
  stored_proposal_valid p = true → stored_proposal_valid (erased_proposal p t) = true.
Proof. unfold stored_proposal_valid. intros H. checks_known. rewrite Z.leb_le in *. lia. Qed.

Lemma json_fields_erased p t : json_fields (erased_proposal p t) = true.
Proof. done. Qed.

End Validity.
