(* ===== verification/StoreContract.v ===== *)
(** The persistence contract of [stores/base.py] as an abstract specification:
    the operations of [ActionStore] and [RetentionStore], the state a client
    can observe, and what each operation may do to it.

    [ActionStore] is the interface the runtime is verified against; a store
    implements it by giving its operations and proving [store_contract]. *)

From S2P Require Import Prelude Models Canonical Authority Receipts Registry StoreBase.

(** * Operations *)

Inductive store_op :=
  | Create (proposal : StoredProposal)
  | Get (tenant_reference proposal_reference : pystr)
  | CompareAndSet (tenant_reference proposal_reference : pystr) (expected_revision : Z)
      (expected_statuses : list LifecycleStatus) (updated : StoredProposal)
  | AdmitExecution (tenant_reference proposal_reference : pystr) (expected_revision : Z)
      (admitted_at : datetime) (updated : StoredProposal)
  | GetEffectClaimOwner (tenant_reference : pystr) (action_type : ActionType)
      (semantic_effect_reference : pystr)
  | MarkErasurePending (tenant_reference proposal_reference : pystr) (expected_revision : Z)
      (pending_at : datetime)
  | CompleteErasure (tenant_reference proposal_reference : pystr) (expected_revision : Z)
      (erased_at : datetime).

Definition store_resp (o : store_op) : Type :=
  match o with
  | Create _ => unit
  | Get _ _ => option StoredProposal
  | CompareAndSet _ _ _ _ _ => bool
  | AdmitExecution _ _ _ _ _ => EffectClaimResult
  | GetEffectClaimOwner _ _ _ => option pystr
  | MarkErasurePending _ _ _ _ => bool
  | CompleteErasure _ _ _ _ => bool
  end.

(** * Observable state *)

Abbreviation ProposalKey := (pystr * pystr)%type.
Abbreviation ClaimKey := (pystr * ActionKey * pystr)%type.

Record StoreView := mkStoreView {
  proposals : gmap ProposalKey StoredProposal;
  effect_claims : gmap ClaimKey pystr
}.

Definition empty_view : StoreView := mkStoreView ∅ ∅.

Definition proposal_key (p : StoredProposal) : ProposalKey :=
  (sp_tenant_reference p, sp_proposal_reference p).

Definition claim_key_of (tenant : pystr) (a : ActionType) (effect : pystr) : ClaimKey :=
  (tenant, _action_key a, effect).

Definition claim_key (p : StoredProposal) : ClaimKey :=
  claim_key_of (sp_tenant_reference p) (sp_action_type p) (sp_semantic_effect_reference p).

Definition put_proposal (k : ProposalKey) (p : StoredProposal) (v : StoreView) : StoreView :=
  mkStoreView (<[k := p]> (proposals v)) (effect_claims v).

Definition put_claim (c : ClaimKey) (owner : pystr) (v : StoreView) : StoreView :=
  mkStoreView (proposals v) (<[c := owner]> (effect_claims v)).

(** * The contract *)

(** A claim may be taken when nobody has it, when the proposal has it, or from
    a proposal that is known to have had no effect. *)
Definition claimable (v : StoreView) (c : ClaimKey) (reference : pystr) : Prop :=
  match effect_claims v !! c with
  | None => True
  | Some owner => owner = reference ∨
      ∃ record, proposals v !! (c.1.1, owner) = Some record ∧
        sp_lifecycle_status record ∈ [FAILED_KNOWN; STALE]
  end.

Definition cas_effect (v : StoreView) (k : ProposalKey) (revision : Z)
  (statuses : list LifecycleStatus) (updated : StoredProposal) (v' : StoreView) : Prop :=
  ∃ current, proposals v !! k = Some current ∧ sp_revision current = revision ∧
    sp_lifecycle_status current ∈ statuses ∧ update_ok current updated ∧
    (sp_lifecycle_status updated = EXECUTING → sp_lifecycle_status current ≠ EXECUTING →
       effect_claims v !! claim_key current = Some (sp_proposal_reference current)) ∧
    v' = put_proposal k updated v.

Definition admit_effect (v : StoreView) (k : ProposalKey) (revision : Z) (admitted_at : datetime)
  (updated : StoredProposal) (v' : StoreView) : Prop :=
  ∃ current, proposals v !! k = Some current ∧ sp_revision current = revision ∧
    sp_lifecycle_status current = AUTHORIZED ∧ sp_erasure_pending_at current = None ∧
    sp_erased_at current = None ∧ (admitted_at < sp_expires_at current)%Z ∧
    update_ok current updated ∧ sp_lifecycle_status updated = EXECUTING ∧
    claimable v (claim_key current) k.2 ∧
    v' = put_proposal k updated (put_claim (claim_key current) k.2 v).

Definition mark_effect (v : StoreView) (k : ProposalKey) (revision : Z) (pending_at : datetime)
  (v' : StoreView) : Prop :=
  ∃ current, proposals v !! k = Some current ∧ sp_revision current = revision ∧
    sp_lifecycle_status current ∈ ERASABLE_LIFECYCLE_STATUSES ∧ sp_erased_at current = None ∧
    ((is_Some (sp_erasure_pending_at current) ∧ v' = v) ∨
     v' = put_proposal k (proposal_with_erasure_pending current pending_at) v).

Definition erase_effect (v : StoreView) (k : ProposalKey) (revision : Z) (erased_at : datetime)
  (v' : StoreView) : Prop :=
  ∃ current, proposals v !! k = Some current ∧ sp_revision current = revision ∧
    is_Some (sp_erasure_pending_at current) ∧ sp_erased_at current = None ∧
    v' = put_proposal k (erased_proposal current erased_at) v.

(** What an operation may answer and do.  An operation that raises, and a
    guarded write that reports refusal, changes nothing. *)
Definition contract (v : StoreView) (o : store_op) : res (store_resp o) → StoreView → Prop :=
  match o with
  | Create p => λ r v',
      match r with
      | Ok _ => proposals v !! proposal_key p = None ∧ create_ok p ∧
                v' = put_proposal (proposal_key p) p v
      | Err _ => v' = v
      end
  | Get t p => λ r v', v' = v ∧ ∀ x, r = Ok x → x = proposals v !! (t, p)
  | CompareAndSet t p revision statuses updated => λ r v',
      match r with
      | Ok true => cas_effect v (t, p) revision statuses updated v'
      | _ => v' = v
      end
  | AdmitExecution t p revision admitted_at updated => λ r v',
      match r with
      | Ok ACQUIRED | Ok OWNED_BY_PROPOSAL => admit_effect v (t, p) revision admitted_at updated v'
      | _ => v' = v
      end
  | GetEffectClaimOwner t a e => λ r v',
      v' = v ∧ ∀ x, r = Ok x → x = effect_claims v !! claim_key_of t a e
  | MarkErasurePending t p revision pending_at => λ r v',
      match r with
      | Ok true => mark_effect v (t, p) revision pending_at v'
      | _ => v' = v
      end
  | CompleteErasure t p revision erased_at => λ r v',
      match r with
      | Ok true => erase_effect v (t, p) revision erased_at v'
      | _ => v' = v
      end
  end.

(** * The interface *)

Class ActionStore (S : Type) := {
  store_empty : S;
  store_run : ∀ o : store_op, S → res (store_resp o) * S;
  store_view : S → StoreView;
  store_empty_view : store_view store_empty = empty_view;
  store_contract : ∀ o s,
    contract (store_view s) o (store_run o s).1 (store_view (store_run o s).2)
}.

(** * Histories allowed by the contract *)

(** One call and its answer. *)
Record store_event := StoreEvent { se_op : store_op; se_resp : res (store_resp se_op) }.

Inductive contract_trace : StoreView → list store_event → StoreView → Prop :=
  | trace_nil v : contract_trace v [] v
  | trace_cons v o r v' es v'' :
      contract v o r v' → contract_trace v' es v'' →
      contract_trace v (StoreEvent o r :: es) v''.

(** * The store invariant *)

Record record_ok (k : ProposalKey) (p : StoredProposal) (v : StoreView) : Prop := {
  record_key : proposal_key p = k;
  record_bindings : bindings_ok p;
  record_claim : effect_live (sp_lifecycle_status p) = true →
    effect_claims v !! claim_key p = Some (sp_proposal_reference p)
}.

Definition view_ok (v : StoreView) : Prop :=
  ∀ k p, proposals v !! k = Some p → record_ok k p v.

Lemma update_ok_keys c u : update_ok c u → proposal_key u = proposal_key c ∧ claim_key u = claim_key c.
Proof.
  intros [Hid _ _ _ _ _ _ _]. unfold proposal_identity in Hid. simplify_eq.
  unfold proposal_key, claim_key. split; congruence.
Qed.

Lemma erased_status p t : sp_lifecycle_status (erased_proposal p t) = sp_lifecycle_status p.
Proof. done. Qed.

(** A write of one record that keeps its key, its claim key and its bindings,
    and does not enter the live statuses without the claim, keeps the
    invariant. *)
Lemma view_ok_put k c u v :
  view_ok v → proposals v !! k = Some c → proposal_key u = proposal_key c →
  claim_key u = claim_key c → bindings_ok u →
  (effect_live (sp_lifecycle_status u) = true → effect_live (sp_lifecycle_status c) = true ∨
     effect_claims v !! claim_key c = Some (sp_proposal_reference c)) →
  view_ok (put_proposal k u v).
Proof.
  intros Hok Hc Hk Hck Hb Hlive k' p Hp. simpl in Hp.
  destruct (decide (k' = k)) as [->|Hne].
  - rewrite lookup_insert_eq in Hp. injection Hp as <-.
    destruct (Hok k c Hc) as [Hkc _ Hcl]. constructor; [congruence|done|].
    intros Hu. simpl. rewrite Hck.
    replace (sp_proposal_reference u) with (sp_proposal_reference c)
      by (unfold proposal_key in Hk; congruence).
    destruct (Hlive Hu); auto.
  - rewrite lookup_insert_ne in Hp by done. destruct (Hok k' p Hp). by constructor.
Qed.

Lemma bindings_ok_pending p t :
  bindings_ok p → bindings_ok (proposal_with_erasure_pending p t).
Proof. intros [He Hr]. constructor; [exact He|exact Hr]. Qed.

Lemma bindings_ok_erased p t : bindings_ok (erased_proposal p t).
Proof. constructor; simpl; intros ? H; inversion H. Qed.

Lemma effect_live_void s : s ∈ [FAILED_KNOWN; STALE] → effect_live s = false.
Proof. intros H. elem_cases H. Qed.

(** Moving a claim to [reference] where the contract allows it takes it from
    no live proposal. *)
Lemma view_ok_claim c reference v :
  view_ok v → claimable v c reference → view_ok (put_claim c reference v).
Proof.
  intros Hok Hcl k p Hp. simpl in Hp. destruct (Hok k p Hp) as [Hk Hb Hlive].
  constructor; [done..|]. intros Hl. simpl. specialize (Hlive Hl).
  destruct (decide (c = claim_key p)) as [->|Hne].
  - rewrite lookup_insert_eq. unfold claimable in Hcl. rewrite Hlive in Hcl.
    destruct Hcl as [->|(q & Hq & Hvoid%effect_live_void)]; [done|].
    change (proposals v !! proposal_key p = Some q) in Hq. congruence.
  - by rewrite lookup_insert_ne.
Qed.

Lemma view_ok_contract v o r v' : view_ok v → contract v o r v' → view_ok v'.
Proof.
  intros Hok. destruct o as [p|t p|t p rev sts u|t p rev at_ u|t a e|t p rev at_|t p rev at_];
    simpl; intros H.
  - destruct r as [[]|]; [|by subst]. destruct H as (Hnone & [_ Hs _ _ Hb] & ->).
    intros k q Hq. simpl in Hq. destruct (decide (k = proposal_key p)) as [->|Hne].
    + rewrite lookup_insert_eq in Hq. injection Hq as <-. constructor; [done..|].
      by rewrite Hs.
    + rewrite lookup_insert_ne in Hq by done. destruct (Hok k q Hq). by constructor.
  - by destruct H as [-> _].
  - destruct r as [[]|]; [|by subst..]. destruct H as (c & Hc & _ & _ & Hu & Hex & ->).
    destruct (update_ok_keys _ _ Hu) as [Hk Hck].
    apply (view_ok_put _ c); try done; [apply Hu|]. intros Hl.
    destruct (effect_live (sp_lifecycle_status c)) eqn:Ec; [by left|right].
    apply Hex; [by eapply live_entered_by_executing; eauto using update_status_step|].
    intros Hx. by rewrite Hx in Ec.
  - enough (∀ c, admit_effect v (t, p) rev at_ u v' → view_ok v') as Hadm
      by (destruct r as [[]|]; try (by subst); by eapply Hadm).
    intros _ (c & Hc & _ & _ & _ & _ & _ & Hu & _ & Hcl & ->).
    destruct (update_ok_keys _ _ Hu) as [Hk Hck]; destruct (Hok _ _ Hc) as [Hkey _ _].
    apply (view_ok_put _ c); try done; [by apply view_ok_claim|apply Hu|].
    intros _. right. simpl. rewrite lookup_insert_eq. unfold proposal_key in Hkey. by simplify_eq.
  - by destruct H as [-> _].
  - destruct r as [[]|]; [|by subst..].
    destruct H as (c & Hc & _ & _ & _ & [[_ ->]| ->]); [done|].
    apply (view_ok_put _ c); try done; [by apply bindings_ok_pending, (Hok _ _ Hc)|auto].
  - destruct r as [[]|]; [|by subst..]. destruct H as (c & Hc & _ & _ & _ & ->).
    apply (view_ok_put _ c); try done; [apply bindings_ok_erased|auto].
Qed.

Lemma view_ok_trace v es v' : view_ok v → contract_trace v es v' → view_ok v'.
Proof. induction 2; eauto using view_ok_contract. Qed.

Lemma view_ok_empty : view_ok empty_view.
Proof. intros k p H. simpl in H. by rewrite lookup_empty in H. Qed.

Lemma contract_trace_app v es v' fs v'' :
  contract_trace v es v' → contract_trace v' fs v'' → contract_trace v (es ++ fs) v''.
Proof. induction 1; simpl; [done|]. intros. econstructor; eauto. Qed.

#[export] Hint Resolve view_ok_empty view_ok_contract view_ok_trace : actions.

(** * Revisions *)

(** What a step may do to the record at one key. *)
Inductive record_step (k : ProposalKey) : option StoredProposal → option StoredProposal → Prop :=
  | step_keep o : record_step k o o
  | step_create p : create_ok p → record_step k None (Some p)
  | step_update c u : update_ok c u → record_step k (Some c) (Some u)
  | step_pending c t : sp_erased_at c = None → sp_lifecycle_status c ∈ ERASABLE_LIFECYCLE_STATUSES →
      record_step k (Some c) (Some (proposal_with_erasure_pending c t))
  | step_erase c t : is_Some (sp_erasure_pending_at c) →
      record_step k (Some c) (Some (erased_proposal c t)).

Lemma put_record_step k k' p v :
  record_step k' (proposals v !! k') (Some p) →
  record_step k (proposals v !! k) (proposals (put_proposal k' p v) !! k).
Proof.
  intros H. simpl. destruct (decide (k = k')) as [->|Hne].
  - by rewrite lookup_insert_eq.
  - rewrite lookup_insert_ne by done. constructor.
Qed.

Lemma contract_record_step k v o r v' :
  contract v o r v' → record_step k (proposals v !! k) (proposals v' !! k).
Proof.
  destruct o as [p|t p|t p rev sts u|t p rev at_ u|t a e|t p rev at_|t p rev at_]; simpl; intros H.
  - destruct r as [[]|]; [|subst; constructor]. destruct H as (Hnone & Hc & ->).
    apply put_record_step. rewrite Hnone. by constructor.
  - destruct H as [-> _]. constructor.
  - destruct r as [[]|]; [|subst; constructor..]. destruct H as (c & Hc & _ & _ & Hu & _ & ->).
    apply put_record_step. rewrite Hc. by constructor.
  - assert (admit_effect v (t, p) rev at_ u v' →
      record_step k (proposals v !! k) (proposals v' !! k)) as Hadm.
    { intros (c & Hc & _ & _ & _ & _ & _ & Hu & _ & _ & ->).
      apply (put_record_step k (t, p) u (put_claim (claim_key c) p v)). simpl. rewrite Hc.
      by constructor. }
    destruct r as [[]|]; try (subst; constructor); by apply Hadm.
  - destruct H as [-> _]. constructor.
  - destruct r as [[]|]; [|subst; constructor..].
    destruct H as (c & Hc & _ & ? & ? & [[_ ->]| ->]); [constructor|].
    apply put_record_step. rewrite Hc. by constructor.
  - destruct r as [[]|]; [|subst; constructor..]. destruct H as (c & Hc & _ & ? & _ & ->).
    apply put_record_step. rewrite Hc. by constructor.
Qed.

Lemma record_step_revision k c o :
  record_step k (Some c) o → ∃ u, o = Some u ∧
    (u = c ∨ sp_revision u = (sp_revision c + 1)%Z).
Proof.
  inversion 1 as [|?|? u Hu|? t|? t]; subst; eauto using update_revision.
Qed.

Lemma record_step_status k c o :
  record_step k (Some c) o → ∃ u, o = Some u ∧
    (sp_lifecycle_status u = sp_lifecycle_status c ∨
     sp_lifecycle_status u ∈ ALLOWED_LIFECYCLE_TRANSITIONS (sp_lifecycle_status c)).
Proof.
  inversion 1 as [|?|? u Hu|? t|? t]; subst; eauto using update_status_step.
Qed.

(** Revisions only grow along a history. *)
Lemma trace_revision v es v' k c :
  contract_trace v es v' → proposals v !! k = Some c →
  ∃ u, proposals v' !! k = Some u ∧ (sp_revision c <= sp_revision u)%Z.
Proof.
  intros Ht. revert c. induction Ht as [|v o r v1 es v2 Hs _ IH]; intros c Hc.
  - exists c. split; [done|lia].
  - apply (contract_record_step k) in Hs. rewrite Hc in Hs.
    apply record_step_revision in Hs as (u & Hu & Hr). destruct (IH u Hu) as (w & Hw & ?).
    exists w. split; [done|]. destruct Hr as [->|]; lia.
Qed.

(** A guarded write that took effect: its key and the revision it expected. *)
Definition guarded_write (e : store_event) : option (ProposalKey * Z) :=
  match e with
  | StoreEvent (CompareAndSet t p revision _ _) (Ok true) => Some ((t, p), revision)
  | StoreEvent (AdmitExecution t p revision _ _) (Ok ACQUIRED)
  | StoreEvent (AdmitExecution t p revision _ _) (Ok OWNED_BY_PROPOSAL) => Some ((t, p), revision)
  | StoreEvent (CompleteErasure t p revision _) (Ok true) => Some ((t, p), revision)
  | _ => None
  end.

Lemma guarded_write_effect v o r v' k n :
  contract v o r v' → guarded_write (StoreEvent o r) = Some (k, n) →
  ∃ c u, proposals v !! k = Some c ∧ sp_revision c = n ∧ proposals v' !! k = Some u ∧
    sp_revision u = (n + 1)%Z.
Proof.
  destruct o as [p|t p|t p rev sts u|t p rev at_ u|t a e|t p rev at_|t p rev at_]; simpl;
    intros H Hw; try discriminate.
  - destruct r as [[]|]; try discriminate. injection Hw as <- <-.
    destruct H as (c & Hc & Hr & _ & Hu & _ & ->). exists c, u. simpl.
    rewrite lookup_insert_eq. split_and!; try done. rewrite <-Hr. apply Hu.
  - assert (admit_effect v (t, p) rev at_ u v' → ((t, p), rev) = (k, n) →
      ∃ c u, proposals v !! k = Some c ∧ sp_revision c = n ∧ proposals v' !! k = Some u ∧
        sp_revision u = (n + 1)%Z) as Hadm.
    { intros (c & Hc & Hr & _ & _ & _ & _ & Hu & _ & _ & ->) [= <- <-]. exists c, u. simpl.
      rewrite lookup_insert_eq. split_and!; try done. rewrite <-Hr. apply Hu. }
    destruct r as [[]|]; try discriminate; injection Hw as Hk Hn; apply Hadm; congruence.
  - destruct r as [[]|]; try discriminate. injection Hw as <- <-.
    destruct H as (c & Hc & Hr & _ & _ & ->). eexists c, _. simpl.
    rewrite lookup_insert_eq. split_and!; try done. simpl. by rewrite Hr.
Qed.

(** After a guarded write on a revision, none on the same revision follows. *)
Lemma guarded_write_once_from v es v' k c n :
  contract_trace v es v' → proposals v !! k = Some c → (n < sp_revision c)%Z →
  ∀ e, e ∈ es → guarded_write e ≠ Some (k, n).
Proof.
  intros Ht. revert c. induction Ht as [|v o r v1 es v2 Hs Ht IH]; intros c Hc Hn e He.
  - inversion He.
  - apply elem_of_cons in He as [->|He].
    + intros Hw. destruct (guarded_write_effect _ _ _ _ _ _ Hs Hw) as (c' & ? & ? & ? & ?).
      simplify_eq. lia.
    + apply (contract_record_step k) in Hs. rewrite Hc in Hs.
      apply record_step_revision in Hs as (u & Hu & Hr). apply (IH u Hu); [|done].
      destruct Hr as [->|]; lia.
Qed.

Lemma guarded_write_once v es v' i j e f k n :
  contract_trace v es v' → es !! i = Some e → es !! j = Some f →
  guarded_write e = Some (k, n) → guarded_write f = Some (k, n) → i = j.
Proof.
  intros Ht. revert i j. induction Ht as [|v o r v1 es v2 Hs Ht IH]; [done|].
  intros [|i] [|j] Hi Hj He Hf; simpl in *; [done|..].
  - injection Hi as <-. destruct (guarded_write_effect _ _ _ _ _ _ Hs He) as (? & u & ? & ? & Hu & ?).
    destruct (guarded_write_once_from v1 es v2 k u n Ht Hu ltac:(lia) f); [|done].
    by eapply list_elem_of_lookup_2.
  - injection Hj as <-. destruct (guarded_write_effect _ _ _ _ _ _ Hs Hf) as (? & u & ? & ? & Hu & ?).
    destruct (guarded_write_once_from v1 es v2 k u n Ht Hu ltac:(lia) e); [|done].
    by eapply list_elem_of_lookup_2.
  - f_equal. by eapply IH.
Qed.
