(* ===== verification/Documents.v ===== *)
(** Dictionaries as values: Python compares them without the order of their
    members, and the databases that keep a document do not keep that order.

    [by_name] writes the members of a document by name, at every level; two
    documents are the same value exactly when [by_name] makes them equal
    ([same_object]).  It is the representative that the stores of [PostgresStore]
    and [MysqlStore] are stated over. *)

From S2P Require Import Prelude Models Canonical Authority Receipts StoreBase StoredValidity StoreContract.

(** * The representative of a document *)

Fixpoint by_name (v : json) : json :=
  match v with
  | JList l => JList (map by_name l)
  | JObj o => JObj (sort_items (map (λ '(k, x), (k, by_name x)) o))
  | v => v
  end.

Definition by_name_object (o : JsonObject) : JsonObject :=
  sort_items (map (λ '(k, x), (k, by_name x)) o).

Definition by_name_record (p : StoredProposal) : StoredProposal :=
  mkStoredProposal (sp_tenant_reference p) (sp_proposal_reference p) (sp_action_type p)
    (sp_semantic_effect_reference p) (sp_effect_kind p) (sp_lifecycle_status p) (sp_revision p)
    (sp_protected_private_snapshot p) (sp_commitment p) (by_name_object (sp_display_preview p))
    (sp_requesting_principal p) (sp_proposing_agent p) (sp_created_at p) (sp_expires_at p)
    (sp_authority_evidence p) (sp_receipts p) (sp_verification_attempts p)
    (sp_max_verification_attempts p) (sp_next_verification_at p)
    (by_name_object <$> sp_safe_result p) (sp_execution_precondition p) (sp_superseded_by p)
    (sp_erasure_pending_at p) (sp_erased_at p).

(** What a call hands over, its dictionaries by name. *)
Definition by_name_op (o : store_op) : store_op :=
  match o with
  | Create p => Create (by_name_record p)
  | CompareAndSet t p revision statuses u => CompareAndSet t p revision statuses (by_name_record u)
  | AdmitExecution t p revision at_ u => AdmitExecution t p revision at_ (by_name_record u)
  | o => o
  end.

(** * Facts *)

Lemma by_name_JObj o : by_name (JObj o) = JObj (by_name_object o).
Proof. done. Qed.

Lemma keys_map (f : json → json) (o : JsonObject) : (map (λ '(k, x), (k, f x)) o).*1 = o.*1.
Proof. induction o as [|[k x] o IH]; simpl; [done|]. f_equal. exact IH. Qed.

Lemma sort_items_keys {A} (o : list (pystr * A)) : (sort_items o).*1 ≡ₚ o.*1.
Proof. by rewrite (sort_items_perm o). Qed.

Lemma by_name_object_keys o : (by_name_object o).*1 ≡ₚ o.*1.
Proof. unfold by_name_object. by rewrite sort_items_keys, keys_map. Qed.

(** Sorting twice is sorting once. *)
Lemma sort_items_idemp {A} (o : list (pystr * A)) : NoDup o.*1 → sort_items (sort_items o) = sort_items o.
Proof.
  intros Hnd. apply sort_items_Permutation; [by rewrite sort_items_keys|]. apply sort_items_perm.
Qed.

Lemma map_insert_item (f : json → json) x (o : JsonObject) :
  map (λ '(k, x), (k, f x)) (insert_item x o) = insert_item (x.1, f x.2) (map (λ '(k, x), (k, f x)) o).
Proof.
  destruct x as [k x]. induction o as [|[k' y] o IH]; simpl; [done|]. unfold key_leb. simpl.
  split_if; simpl; [done|]. by rewrite IH.
Qed.

Lemma map_sort_items (f : json → json) (o : JsonObject) :
  map (λ '(k, x), (k, f x)) (sort_items o) = sort_items (map (λ '(k, x), (k, f x)) o).
Proof. induction o as [|[k x] o IH]; simpl; [done|]. by rewrite map_insert_item, IH. Qed.

Lemma json_document_entries o :
  json_document (JObj o) = true ↔ NoDup o.*1 ∧ Forall (λ kx, unicode_text kx.1 && json_document kx.2 = true) o.
Proof.
  simpl. rewrite andb_true_iff, bool_decide_eq_true. split; intros [Hnd H]; split; try done.
  - apply List.Forall_forall. intros [k x] Hx. by apply (proj1 (forallb_forall _ _) H (k, x)).
  - apply forallb_forall. intros [k x] Hx. by apply (proj1 (List.Forall_forall _ _) H (k, x)).
Qed.

Lemma by_name_idemp v : json_document v = true → by_name (by_name v) = by_name v.
Proof.
  induction v as [| | | | |l IH|o IH] using json_ind'; try done; intros Hd.
  - simpl in *. f_equal. induction IH as [|x l Hx _ IHl]; simpl in *; [done|].
    apply andb_prop in Hd as [??]. f_equal; auto.
  - apply json_document_entries in Hd as [Hnd Hall]. simpl. f_equal. rewrite map_sort_items.
    rewrite sort_items_idemp by (by rewrite !keys_map). f_equal. rewrite map_map.
    clear Hnd. induction IH as [|[k x] o Hx _ IHo]; simpl in *; [done|].
    inversion_clear Hall as [|?? Hkx Hrest]. apply andb_prop in Hkx as [_ ?]. simpl in *.
    rewrite (Hx ltac:(done)). f_equal. by apply IHo.
Qed.

(** A test of the values of a document that does not look at the order. *)
Lemma forallb_by_name (f : pystr * json → bool) o :
  Forall (λ kx, f (kx.1, by_name kx.2) = f kx) o → forallb f (by_name_object o) = forallb f o.
Proof.
  intros H. unfold by_name_object. rewrite (forallb_Permutation _ _ _ (sort_items_perm _)).
  induction H as [|[k x] o Hx _ IH]; simpl in *; [done|]. by rewrite Hx, IH.
Qed.

Lemma json_document_by_name v : json_document (by_name v) = json_document v.
Proof.
  induction v as [| | | | |l IH|o IH] using json_ind'; try done.
  - simpl. induction IH as [|x l Hx _ IHl]; simpl; [done|]. by rewrite Hx, IHl.
  - rewrite by_name_JObj. simpl. f_equal.
    + apply bool_decide_ext. by rewrite by_name_object_keys.
    + apply forallb_by_name. eapply List.Forall_impl; [|exact IH]. intros [k x] Hx. simpl in *. by rewrite Hx.
Qed.

Lemma json_fields_by_name p : json_fields (by_name_record p) = json_fields p.
Proof.
  unfold json_fields. cbn [by_name_record sp_display_preview sp_safe_result].
  rewrite <-by_name_JObj, json_document_by_name. f_equal.
  destruct (sp_safe_result p) as [o|]; [|done].
  cbn [fmap option_fmap option_map optional]. rewrite <-by_name_JObj. apply json_document_by_name.
Qed.

Lemma stored_proposal_valid_by_name `{U : Unicode} p :
  stored_proposal_valid (by_name_record p) = stored_proposal_valid p.
Proof. done. Qed.

Lemma by_name_object_idemp o :
  json_document (JObj o) = true → by_name_object (by_name_object o) = by_name_object o.
Proof. intros Hd%by_name_idemp. rewrite !by_name_JObj in Hd. by injection Hd. Qed.

Lemma by_name_record_idemp p :
  json_fields p = true → by_name_record (by_name_record p) = by_name_record p.
Proof.
  unfold json_fields. intros [Hd Hr]%andb_prop. unfold by_name_record at 1.
  cbn [by_name_record sp_display_preview sp_safe_result]. rewrite by_name_object_idemp by done.
  assert (by_name_object <$> (by_name_object <$> sp_safe_result p) = by_name_object <$> sp_safe_result p) as ->;
    [|done].
  destruct (sp_safe_result p) as [o|]; [|done].
  cbn [fmap option_fmap option_map optional] in *. by rewrite by_name_object_idemp.
Qed.

(** ** What the representative decides *)

(** Two dictionaries are the same value: each is the other in another order, up
    to the values of the members. *)
Definition same_object (o o' : JsonObject) : Prop :=
  ∃ m, m ≡ₚ o' ∧ Forall2 (λ x y, x.1 = y.1 ∧ by_name x.2 = by_name y.2) o m.

Lemma by_name_object_same o o' :
  NoDup o.*1 → by_name_object o = by_name_object o' ↔ same_object o o'.
Proof.
  intros Hnd. unfold same_object. split.
  - intros H. assert (map (λ '(k, x), (k, by_name x)) o ≡ₚ map (λ '(k, x), (k, by_name x)) o') as Hp.
    { rewrite <-(sort_items_perm (map _ o)), <-(sort_items_perm (map _ o')). unfold by_name_object in H. by rewrite H. }
    apply Permutation_map_inv in Hp as (m & Hm & Hp). exists m. split; [by symmetry|].
    clear Hp Hnd H. revert m Hm. induction o as [|[k x] o IH]; intros [|[k' y] m] Hm; try done.
    simpl in Hm. injection Hm as -> Hxy Hm. constructor; [done|]. by apply IH.
  - intros (m & Hp & Hm). assert (map (λ '(k, x), (k, by_name x)) o = map (λ '(k, x), (k, by_name x)) m) as Heq.
    { clear Hnd Hp. induction Hm as [|[k x] [k' y] o m [Hk Hx] _ IH]; simpl in *; [done|]. by rewrite Hk, Hx, IH. }
    unfold by_name_object. apply sort_items_Permutation; [by rewrite keys_map|].
    rewrite Heq. by apply Permutation_map.
Qed.

Lemma by_name_object_Permutation o o' :
  NoDup o.*1 → o ≡ₚ o' → by_name_object o = by_name_object o'.
Proof.
  intros Hnd Hp. apply by_name_object_same; [done|]. exists o. split; [done|].
  clear. induction o; by constructor.
Qed.
