(* ===== verification/MemoryStore.v ===== *)
(** The in-memory store ([stores/memory.py]), as an implementation of the
    persistence contract.

    Every method of the source runs under one [asyncio.Lock], so a method is
    one atomic step on the two dictionaries.  The store keeps deep copies,
    which are the values themselves here. *)

From S2P Require Import Prelude Models Canonical Authority Receipts Registry StoreBase StoreContract.

Record MemoryActionStore := mkMemoryActionStore {
  _proposals : gmap ProposalKey StoredProposal;
  _effect_claims : gmap ClaimKey pystr
}.

Definition memory_init : MemoryActionStore := mkMemoryActionStore ∅ ∅.

Definition store_proposal (k : ProposalKey) (p : StoredProposal) (s : MemoryActionStore)
  : MemoryActionStore :=
  mkMemoryActionStore (<[k := p]> (_proposals s)) (_effect_claims s).

Definition create (proposal : StoredProposal) (s : MemoryActionStore)
  : res unit * MemoryActionStore :=
  let key := (sp_tenant_reference proposal, sp_proposal_reference proposal) in
  match _proposals s !! key with
  | Some _ => (fail (ProposalAlreadyExistsError "proposal already exists"), s)
  | None =>
      match validate_proposal_create proposal with
      | Err e => (Err e, s)
      | Ok _ => (Ok (), store_proposal key proposal s)
      end
  end.

Definition get (tenant_reference proposal_reference : pystr) (s : MemoryActionStore)
  : option StoredProposal :=
  _proposals s !! (tenant_reference, proposal_reference).

Definition compare_and_set (tenant_reference proposal_reference : pystr) (expected_revision : Z)
  (expected_statuses : list LifecycleStatus) (updated : StoredProposal) (s : MemoryActionStore)
  : res bool * MemoryActionStore :=
  let key := (tenant_reference, proposal_reference) in
  match _proposals s !! key with
  | None => (Ok false, s)
  | Some current =>
      if negb (sp_revision current =? expected_revision)%Z then (Ok false, s)
      else if negb (bool_decide (sp_lifecycle_status current ∈ expected_statuses)) then (Ok false, s)
      else
        match validate_proposal_update current updated with
        | Err e => (Err e, s)
        | Ok _ =>
            let claim_key := (sp_tenant_reference current, _action_key (sp_action_type current),
                              sp_semantic_effect_reference current) in
            if bool_decide (sp_lifecycle_status updated = EXECUTING)
               && negb (bool_decide (sp_lifecycle_status current = EXECUTING))
               && negb (bool_decide (_effect_claims s !! claim_key
                                     = Some (sp_proposal_reference current))) then
              (fail (StoreInvariantError
                "execution requires this proposal to own the semantic effect claim"), s)
            else (Ok true, store_proposal key updated s)
        end
  end.

Definition _claim_effect_locked (claim_key : ClaimKey) (proposal_reference : pystr)
  (s : MemoryActionStore) : EffectClaimResult * MemoryActionStore :=
  let acquire := mkMemoryActionStore (_proposals s)
                   (<[claim_key := proposal_reference]> (_effect_claims s)) in
  match _effect_claims s !! claim_key with
  | None => (ACQUIRED, acquire)
  | Some owner =>
      if bool_decide (owner = proposal_reference) then (OWNED_BY_PROPOSAL, s)
      else
        match _proposals s !! (claim_key.1.1, owner) with
        | Some owner_record =>
            if bool_decide (sp_lifecycle_status owner_record ∈ [FAILED_KNOWN; STALE])
            then (ACQUIRED, acquire) else (CONFLICT, s)
        | None => (CONFLICT, s)
        end
  end.

Definition admit_execution (tenant_reference proposal_reference : pystr) (expected_revision : Z)
  (admitted_at : datetime) (updated : StoredProposal) (s : MemoryActionStore)
  : res EffectClaimResult * MemoryActionStore :=
  let proposal_key := (tenant_reference, proposal_reference) in
  match _proposals s !! proposal_key with
  | None => (Ok PROPOSAL_NOT_FOUND, s)
  | Some current =>
      if negb (sp_revision current =? expected_revision)%Z
         || negb (bool_decide (sp_lifecycle_status current = AUTHORIZED))
         || bool_decide (is_Some (sp_erasure_pending_at current))
         || bool_decide (is_Some (sp_erased_at current))
         || (sp_expires_at current <=? admitted_at)%Z then (Ok PROPOSAL_NOT_AUTHORIZED, s)
      else
        match validate_proposal_update current updated with
        | Err e => (Err e, s)
        | Ok _ =>
            if negb (bool_decide (sp_lifecycle_status updated = EXECUTING)) then
              (fail (StoreInvariantError "execution admission must enter executing"), s)
            else
              let claim_key := (sp_tenant_reference current, _action_key (sp_action_type current),
                                sp_semantic_effect_reference current) in
              let '(claim, s') := _claim_effect_locked claim_key proposal_reference s in
              if bool_decide (claim = CONFLICT) then (Ok claim, s')
              else (Ok claim, store_proposal proposal_key updated s')
        end
  end.

Definition get_effect_claim_owner (tenant_reference : pystr) (action_type : ActionType)
  (semantic_effect_reference : pystr) (s : MemoryActionStore) : option pystr :=
  _effect_claims s !! (tenant_reference, _action_key action_type, semantic_effect_reference).

Definition mark_erasure_pending (tenant_reference proposal_reference : pystr)
  (expected_revision : Z) (pending_at : datetime) (s : MemoryActionStore)
  : bool * MemoryActionStore :=
  let key := (tenant_reference, proposal_reference) in
  match _proposals s !! key with
  | None => (false, s)
  | Some current =>
      if negb (sp_revision current =? expected_revision)%Z
         || negb (bool_decide (sp_lifecycle_status current ∈ ERASABLE_LIFECYCLE_STATUSES))
         || bool_decide (is_Some (sp_erased_at current)) then (false, s)
      else if bool_decide (is_Some (sp_erasure_pending_at current)) then (true, s)
      else (true, store_proposal key (proposal_with_erasure_pending current pending_at) s)
  end.

Definition complete_erasure (tenant_reference proposal_reference : pystr)
  (expected_revision : Z) (erased_at : datetime) (s : MemoryActionStore)
  : bool * MemoryActionStore :=
  let key := (tenant_reference, proposal_reference) in
  match _proposals s !! key with
  | None => (false, s)
  | Some current =>
      if negb (sp_revision current =? expected_revision)%Z
         || bool_decide (sp_erasure_pending_at current = None)
         || bool_decide (is_Some (sp_erased_at current)) then (false, s)
      else (true, store_proposal key (erased_proposal current erased_at) s)
  end.

(** * The store as an implementation of the interface *)

Definition memory_run (o : store_op) (s : MemoryActionStore)
  : res (store_resp o) * MemoryActionStore :=
  match o with
  | Create p => create p s
  | Get t p => (Ok (get t p s), s)
  | CompareAndSet t p revision statuses updated => compare_and_set t p revision statuses updated s
  | AdmitExecution t p revision admitted_at updated => admit_execution t p revision admitted_at updated s
  | GetEffectClaimOwner t a e => (Ok (get_effect_claim_owner t a e s), s)
  | MarkErasurePending t p revision at_ =>
      let '(b, s') := mark_erasure_pending t p revision at_ s in (Ok b, s')
  | CompleteErasure t p revision at_ =>
      let '(b, s') := complete_erasure t p revision at_ s in (Ok b, s')
  end.

Definition memory_view (s : MemoryActionStore) : StoreView :=
  mkStoreView (_proposals s) (_effect_claims s).

(** A client's whole interaction with the store. *)
Fixpoint memory_run_all (os : list store_op) (s : MemoryActionStore)
  : list store_event * MemoryActionStore :=
  match os with
  | [] => ([], s)
  | o :: os' =>
      let '(r, s1) := memory_run o s in
      let '(es, s2) := memory_run_all os' s1 in
      (StoreEvent o r :: es, s2)
  end.

(** * Facts *)

Lemma not_is_Some_None {A} (o : option A) : ¬ is_Some o → o = None.
Proof. apply eq_None_not_Some. Qed.

#[local] Hint Resolve not_is_Some_None : actions.

Lemma claim_effect_locked_spec c reference s :
  match _claim_effect_locked c reference s with
  | (CONFLICT, s') => s' = s ∧ ¬ claimable (memory_view s) c reference
  | (ACQUIRED, s') | (OWNED_BY_PROPOSAL, s') =>
      claimable (memory_view s) c reference ∧
      memory_view s' = put_claim c reference (memory_view s)
  | _ => False
  end.
Proof.
  unfold _claim_effect_locked, claimable. simpl.
  destruct (_effect_claims s !! c) as [owner|] eqn:Ec; [|done].
  case_bool_decide as Ho.
  - subst. split; [auto|]. unfold memory_view, put_claim. simpl. by rewrite insert_id.
  - destruct (_proposals s !! _) as [q|] eqn:Eq.
    + case_bool_decide as Hv; [eauto|]. split; [done|]. intros [?|(q' & ? & ?)]; congruence.
    + split; [done|]. intros [?|(q' & ? & ?)]; congruence.
Qed.

Lemma memory_run_contract o s :
  contract (memory_view s) o (memory_run o s).1 (memory_view (memory_run o s).2).
Proof.
  destruct o as [p|t p|t p rev sts u|t p rev at_ u|t a e|t p rev at_|t p rev at_]; simpl.
  - unfold create. destruct (_proposals s !! _) eqn:E; [done|].
    destruct (validate_proposal_create p) as [[]|] eqn:V; [|done].
    simpl. by apply validate_create_ok in V.
  - split; [done|]. by intros x [= <-].
  - unfold compare_and_set. destruct (_proposals s !! _) as [c|] eqn:E; [|done].
    repeat (split_if; [done|]). to_prop.
    destruct (validate_proposal_update c u) as [[]|] eqn:V; [|done].
    apply validate_update_ok in V. split_if; [done|]. simpl. exists c.
    split_and!; try done. intros Hx Hc.
    apply andb_false_iff in Hif1 as [[Hif1|Hif1]%andb_false_iff|Hif1]; to_prop; [done..|].
    unfold claim_key. done.
  - unfold admit_execution. destruct (_proposals s !! _) as [c|] eqn:E; [|done].
    split_if; [done|]. to_prop.
    destruct (validate_proposal_update c u) as [[]|] eqn:V; [|done].
    apply validate_update_ok in V. split_if; [done|]. to_prop.
    assert (Hcl := claim_effect_locked_spec
      (sp_tenant_reference c, _action_key (sp_action_type c), sp_semantic_effect_reference c) p s).
    destruct (_claim_effect_locked _ p s) as [[] s']; simpl in *; try done;
      [destruct Hcl as [Hcl Hv]..|destruct Hcl as [-> _]; done];
      exists c; split_and!; eauto with actions;
      (transitivity (put_proposal (t, p) u (memory_view s')); [done|by rewrite Hv]).
  - split; [done|]. by intros x [= <-].
  - unfold mark_erasure_pending. destruct (_proposals s !! _) as [c|] eqn:E; [|done].
    split_if; [done|]. to_prop. split_if; to_prop; simpl; exists c; split_and!; eauto with actions.
  - unfold complete_erasure. destruct (_proposals s !! _) as [c|] eqn:E; [|done].
    split_if; [done|]. to_prop. simpl. exists c. split_and!; eauto with actions.
    by destruct (None_or_Some (sp_erasure_pending_at c)).
Qed.

#[export] Instance memory_action_store : ActionStore MemoryActionStore := {|
  store_empty := memory_init;
  store_run := memory_run;
  store_view := memory_view;
  store_empty_view := eq_refl;
  store_contract := memory_run_contract
|}.

Lemma memory_trace os s :
  contract_trace (memory_view s) (memory_run_all os s).1 (memory_view (memory_run_all os s).2).
Proof.
  revert s. induction os as [|o os IH]; intros s; simpl; [constructor|].
  assert (Hc := memory_run_contract o s). destruct (memory_run o s) as [r s1]. simpl in Hc.
  specialize (IH s1). destruct (memory_run_all os s1) as [es s2]. econstructor; eauto.
Qed.

Lemma memory_reachable_ok os : view_ok (memory_view (memory_run_all os memory_init).2).
Proof. eapply view_ok_trace, (memory_trace os memory_init). apply view_ok_empty. Qed.

(** * Properties *)

(** C4: every interaction with the in-memory store is a history of the
    persistence contract, and the store it leaves is well-formed: each record
    sits at its key, its evidence and receipts are bound to it, and a live
    record holds its semantic effect's claim. *)
Theorem memory_store_refines_contract (os : list store_op) :
  let run := memory_run_all os memory_init in
  contract_trace empty_view run.1 (memory_view run.2) ∧ view_ok (memory_view run.2).
Proof. split; [apply (memory_trace os memory_init)|apply memory_reachable_ok]. Qed.

(** C7: semantic effects are exclusive: after any sequence of operations, two
    stored proposals of one tenant, action type and semantic effect whose
    effect may have been submitted are the same proposal. *)
Theorem live_effect_exclusive (os : list store_op) (k k' : ProposalKey) (p q : StoredProposal)
  (Hp : _proposals (memory_run_all os memory_init).2 !! k = Some p)
  (Hq : _proposals (memory_run_all os memory_init).2 !! k' = Some q)
  (Hlive : effect_live (sp_lifecycle_status p) = true)
  (Hlive' : effect_live (sp_lifecycle_status q) = true)
  (Heffect : claim_key p = claim_key q) :
  k = k' ∧ p = q.
Proof.
  assert (Hok := memory_reachable_ok os).
  destruct (Hok k p Hp) as [Hk _ Hc], (Hok k' q Hq) as [Hk' _ Hc'].
  specialize (Hc Hlive). specialize (Hc' Hlive'). rewrite Heffect, Hc' in Hc.
  assert (k = k') as ->; [|simplify_eq; auto].
  rewrite <-Hk, <-Hk'. unfold proposal_key. unfold claim_key, claim_key_of in Heffect. congruence.
Qed.

(** Optimistic concurrency: of all guarded writes (compare-and-set,
    admission, erasure) a history performs on one record at one revision, at
    most one takes effect. *)
Theorem guarded_write_exclusive (os : list store_op) (s : MemoryActionStore) (i j : nat)
  (e f : store_event) (k : ProposalKey) (revision : Z)
  (Hi : (memory_run_all os s).1 !! i = Some e) (Hj : (memory_run_all os s).1 !! j = Some f)
  (He : guarded_write e = Some (k, revision)) (Hf : guarded_write f = Some (k, revision)) :
  i = j.
Proof. by eapply guarded_write_once; eauto using memory_trace. Qed.

(** An admission succeeds exactly when the named record is at the expected
    revision, authorized, neither erased nor being erased and not expired at
    the admission instant, the update is a valid step to [EXECUTING], and the
    semantic effect is free, already its own, or held by a proposal known to
    have had no effect; the write and the claim are then made together. *)
Theorem admit_execution_exact (t p : pystr) (revision : Z) (admitted_at : datetime)
  (updated : StoredProposal) (s : MemoryActionStore) :
  let '(r, s') := admit_execution t p revision admitted_at updated s in
  match r with
  | Ok ACQUIRED | Ok OWNED_BY_PROPOSAL =>
      admit_effect (memory_view s) (t, p) revision admitted_at updated (memory_view s')
  | _ => s' = s ∧
      ¬ ∃ v', admit_effect (memory_view s) (t, p) revision admitted_at updated v'
  end.
Proof.
  assert (H := memory_run_contract (AdmitExecution t p revision admitted_at updated) s).
  simpl in H. destruct (admit_execution t p revision admitted_at updated s) as [r s'] eqn:E.
  assert (∀ (P : Prop) v', (∀ c, _proposals s !! (t, p) = Some c → sp_revision c = revision →
      sp_lifecycle_status c = AUTHORIZED → sp_erasure_pending_at c = None → sp_erased_at c = None →
      (admitted_at < sp_expires_at c)%Z → validate_proposal_update c updated = Ok () →
      sp_lifecycle_status updated = EXECUTING → claimable (memory_view s) (claim_key c) p → P) →
    admit_effect (memory_view s) (t, p) revision admitted_at updated v' → P) as Hinv.
  { intros P v' HP (c & Hc & ? & ? & ? & ? & ? & Hu%validate_update_ok & ? & ? & _). eauto. }
  unfold admit_execution in E.
  destruct (_proposals s !! (t, p)) as [c|] eqn:Ec;
    [|injection E as <- <-; split; [done|intros [v' Hv]; by eapply Hinv; eauto]].
  split_if.
  { injection E as <- <-. split; [done|]. intros [v' Hv]. eapply Hinv, Hv.
    intros c' [= <-] Hr Hs Hpd Her Hexp _ _ _.
    rewrite Hr, Hs, Hpd, Her, Z.eqb_refl, (proj2 (Z.leb_gt _ _) Hexp) in Hif. done. }
  destruct (validate_proposal_update c updated) as [[]|x] eqn:V.
  2:{ injection E as <- <-. split; [done|]. intros [v' Hv]. eapply Hinv, Hv. congruence. }
  split_if.
  { injection E as <- <-. split; [done|]. intros [v' Hv]. eapply Hinv, Hv. to_prop. congruence. }
  assert (Hcl := claim_effect_locked_spec
    (sp_tenant_reference c, _action_key (sp_action_type c), sp_semantic_effect_reference c) p s).
  destruct (_claim_effect_locked _ p s) as [[] s1]; try done; injection E as <- <-; try done.
  destruct Hcl as [-> Hn]. split; [done|]. intros [v' Hv]. eapply Hinv, Hv.
  intros c' [= <-] _ _ _ _ _ _ _ Hc. by apply Hn.
Qed.

(** A proposal closed for good, other than [FAILED_KNOWN]. *)
Definition closed_with_claim (s : LifecycleStatus) : bool :=
  bool_decide (s ∈ [VERIFIED; PARTIALLY_SUCCEEDED; SUPERSEDED; EXPIRED; BLOCKED; DENIED]).

(** An admission that succeeded for a claim key. *)
Definition admits (c : ClaimKey) (k : ProposalKey) (e : store_event) : Prop :=
  match e with
  | StoreEvent (AdmitExecution t p _ _ updated) (Ok ACQUIRED)
  | StoreEvent (AdmitExecution t p _ _ updated) (Ok OWNED_BY_PROPOSAL) =>
      (t, p) = k ∧ claim_key updated = c
  | _ => False
  end.

Lemma closed_owner_step v o r v' c owner q k :
  view_ok v → contract v o r v' → effect_claims v !! c = Some owner →
  proposals v !! (c.1.1, owner) = Some q → closed_with_claim (sp_lifecycle_status q) = true →
  k.2 ≠ owner →
  ¬ admits c k (StoreEvent o r) ∧
  effect_claims v' !! c = Some owner ∧
  ∃ q', proposals v' !! (c.1.1, owner) = Some q' ∧
    closed_with_claim (sp_lifecycle_status q') = true.
Proof.
  intros Hok Hc Hcl Hq Hclosed Hk.
  assert (∀ k' rev at_ u, admit_effect v k' rev at_ u v' →
    claim_key u ≠ c ∨ k'.2 = owner) as Hadm.
  { intros k' rev at_ u (cur & Hcur & _ & _ & _ & _ & _ & Hu & _ & Hcb & _).
    destruct (update_ok_keys _ _ Hu) as [_ Hck]. rewrite Hck.
    destruct (decide (claim_key cur = c)) as [<-|]; [right|by left].
    unfold claimable in Hcb. rewrite Hcl in Hcb. destruct Hcb as [|(w & Hw & Hin)]; [done|].
    rewrite Hq in Hw. injection Hw as <-.
    elem_cases Hin; match goal with H : _ = sp_lifecycle_status q |- _ =>
      rewrite <-H in Hclosed; discriminate Hclosed end. }
  split_and!.
  - destruct o as [| | |t p rev at_ u| | |]; try (by intros []).
    destruct r as [[]|]; try (by intros []); intros [Heq Hckey];
      by destruct (Hadm _ _ _ _ Hc) as [|Hown]; [|rewrite Heq in Hown].
  - assert (∀ k' rev at_ u, admit_effect v k' rev at_ u v' → effect_claims v' !! c = Some owner)
      as Hcl'.
    { intros k' rev at_ u Ha. destruct (Hadm _ _ _ _ Ha) as [Hne|Hk'];
        destruct Ha as (cur & Hcur & _ & _ & _ & _ & _ & Hu & _ & _ & ->); simpl;
        destruct (update_ok_keys _ _ Hu) as [_ Hck].
      - rewrite lookup_insert_ne by congruence. done.
      - destruct (decide (claim_key cur = c)) as [->|];
          [by rewrite lookup_insert_eq, Hk'|by rewrite lookup_insert_ne]. }
    destruct o as [p|t p|t p rev sts u|t p rev at_ u|t a e|t p rev at_|t p rev at_]; simpl in Hc;
      [destruct r as [[]|]|by destruct Hc as [-> _]|destruct r as [[]|]|destruct r as [[]|]
      |by destruct Hc as [-> _]|destruct r as [[]|]|destruct r as [[]|]]; try (by subst); eauto.
    + by destruct Hc as (_ & _ & ->).
    + by destruct Hc as (? & _ & _ & _ & _ & _ & ->).
    + by destruct Hc as (? & _ & _ & _ & _ & [[_ ->]| ->]).
    + by destruct Hc as (? & _ & _ & _ & _ & ->).
  - apply (contract_record_step (c.1.1, owner)) in Hc. rewrite Hq in Hc.
    apply record_step_status in Hc as (q' & -> & Hs). exists q'. split; [done|].
    destruct Hs as [->|Hs]; [done|].
    unfold closed_with_claim in Hclosed. to_prop.
    elem_cases Hclosed; match goal with H : _ = sp_lifecycle_status q |- _ =>
      rewrite <-H in Hs; inversion Hs end.
Qed.

Lemma closed_owner_trace v es v' c owner q k :
  view_ok v → contract_trace v es v' → effect_claims v !! c = Some owner →
  proposals v !! (c.1.1, owner) = Some q → closed_with_claim (sp_lifecycle_status q) = true →
  k.2 ≠ owner → ∀ e, e ∈ es → ¬ admits c k e.
Proof.
  intros Hok Ht. revert q Hok. induction Ht as [|v o r v1 es v2 Hs Ht IH];
    intros q Hok Hcl Hq Hclosed Hk e He; [inversion He|].
  destruct (closed_owner_step _ _ _ _ _ _ _ _ Hok Hs Hcl Hq Hclosed Hk) as (Hn & Hcl' & q' & Hq' & Hc').
  apply elem_of_cons in He as [->|He]; [done|].
  eapply (IH q'); eauto using view_ok_contract.
Qed.

(** C25: a claim is never given away by a proposal that closed as anything but
    a known failure: from then on no history admits another proposal for the
    same effect.  For [VERIFIED] this is the intended protection; it also
    holds when the owner closed as superseded, expired or blocked. *)
Theorem closed_owner_keeps_effect (os os' : list store_op) (c : ClaimKey) (owner : pystr)
  (q : StoredProposal) (k : ProposalKey)
  (Hclaim : _effect_claims (memory_run_all os memory_init).2 !! c = Some owner)
  (Howner : _proposals (memory_run_all os memory_init).2 !! (c.1.1, owner) = Some q)
  (Hclosed : closed_with_claim (sp_lifecycle_status q) = true) (Hother : k.2 ≠ owner) :
  ∀ e, e ∈ (memory_run_all os' (memory_run_all os memory_init).2).1 → ¬ admits c k e.
Proof.
  by eapply closed_owner_trace; eauto using memory_trace, memory_reachable_ok.
Qed.

(** * Concrete histories *)

Section Witness.
#[local] Definition sample_type : ActionType := mkActionType "a.b" "c" 1.

#[local] Definition sample (reference : pystr) (revision : Z) (s : LifecycleStatus)
  : StoredProposal :=
  mkStoredProposal "t" reference sample_type "effect" single s revision None None [] None None
    0 1000 [] [] 0 3 None None None None None None.

#[local] Definition move (reference : pystr) (revision : Z) (s s' : LifecycleStatus) : store_op :=
  CompareAndSet "t" reference revision [s] (sample reference (revision + 1) s').

#[local] Definition attempt_admission (reference : pystr) (revision : Z) : store_op :=
  AdmitExecution "t" reference revision 5 (sample reference (revision + 1) EXECUTING).

(** "p" executes, is found absent, may be sent again, then drifts and is
    superseded by "q". *)
#[local] Definition superseded_history : list store_op :=
  [Create (sample "p" 0 AWAITING_AUTHORITY); move "p" 0 AWAITING_AUTHORITY AUTHORIZED;
   attempt_admission "p" 1; move "p" 2 EXECUTING VERIFICATION_PENDING;
   move "p" 3 VERIFICATION_PENDING AUTHORIZED; move "p" 4 AUTHORIZED STALE;
   Create (sample "q" 0 AWAITING_AUTHORITY); move "p" 5 STALE SUPERSEDED].

#[local] Definition replacement_history : list store_op :=
  [move "q" 0 AWAITING_AUTHORITY AUTHORIZED; attempt_admission "q" 1].

Lemma live_effect_exclusive_witness :
  _proposals (memory_run_all (take 3 superseded_history) memory_init).2 !! ("t"%py, "p"%py) =
    Some (sample "p" 2 EXECUTING) ∧ ∀ k' q,
  _proposals (memory_run_all (take 3 superseded_history) memory_init).2 !! k' = Some q →
  effect_live (sp_lifecycle_status q) = true →
  claim_key (sample "p" 2 EXECUTING) = claim_key q → ("t"%py, "p"%py) = k'.
Proof.
  split; [vm_compute; reflexivity|]. intros k' q Hq Hl Hc.
  refine (proj1 (live_effect_exclusive (take 3 superseded_history) ("t"%py, "p"%py) k'
    (sample "p" 2 EXECUTING) q _ Hq eq_refl Hl Hc)).
  vm_compute. reflexivity.
Defined.

(** Two admissions race on revision 1; only the first event is a guarded
    write on it. *)
Lemma guarded_write_exclusive_witness :
  (memory_run_all (take 3 superseded_history ++ [attempt_admission "p" 1]) memory_init).1 !! 2 =
    Some (StoreEvent (attempt_admission "p" 1) (Ok ACQUIRED)) ∧ ∀ j f,
  (memory_run_all (take 3 superseded_history ++ [attempt_admission "p" 1]) memory_init).1 !! j = Some f →
  guarded_write f = Some (("t"%py, "p"%py), 1%Z) → 2 = j.
Proof.
  split; [vm_compute; reflexivity|]. intros j f Hj Hf.
  refine (guarded_write_exclusive (take 3 superseded_history ++ [attempt_admission "p" 1]) memory_init 2 j
    (StoreEvent (attempt_admission "p" 1) (Ok ACQUIRED)) f _ _ _ Hj _ Hf); vm_compute; reflexivity.
Defined.

Lemma closed_owner_keeps_effect_witness :
  sp_lifecycle_status <$> (_proposals (memory_run_all superseded_history memory_init).2
    !! ("t"%py, "p"%py)) = Some SUPERSEDED ∧ ∀ os' e,
  e ∈ (memory_run_all os' (memory_run_all superseded_history memory_init).2).1 →
  ¬ admits (claim_key_of "t" sample_type "effect") ("t"%py, "q"%py) e.
Proof.
  split; [vm_compute; reflexivity|]. intros os' e He.
  refine (closed_owner_keeps_effect superseded_history os'
    (claim_key_of "t" sample_type "effect") "p" (sample "p" 6 SUPERSEDED) ("t"%py, "q"%py)
    _ _ eq_refl _ e He).
  - vm_compute. reflexivity.
  - vm_compute. reflexivity.
  - discriminate.
Defined.

(** The documented follow-up of a superseded proposal is its replacement; here
    the replacement is refused for as long as the store lives. *)
Example superseded_owner_blocks_replacement :
  list.last (memory_run_all (superseded_history ++ replacement_history) memory_init).1 =
  Some (StoreEvent (attempt_admission "q" 1) (Ok CONFLICT)).
Proof. vm_compute. reflexivity. Qed.

(** An update may take an erased record back to life: the check on pending
    erasure does not cover a completed one. *)
Example erased_record_can_be_revived :
  let erased := sample "p" 0 AWAITING_AUTHORITY in
  let history := [Create erased; MarkErasurePending "t" "p" 0 7; CompleteErasure "t" "p" 1 8;
                  CompareAndSet "t" "p" 2 [AWAITING_AUTHORITY] (sample "p" 3 AUTHORIZED)] in
  list.last (memory_run_all history memory_init).1 =
    Some (StoreEvent (CompareAndSet "t" "p" 2 [AWAITING_AUTHORITY] (sample "p" 3 AUTHORIZED)) (Ok true)) ∧
  sp_erased_at <$> (_proposals (memory_run_all history memory_init).2 !! ("t"%py, "p"%py)) =
    Some None.
Proof. vm_compute. split; reflexivity. Qed.

End Witness.
