(* ===== verification/SqliteStore.v ===== *)
(** The SQLite store ([stores/sqlite.py]) with its schema and trigger
    ([_migrations/sqlite]), as a second implementation of the persistence
    contract.

    A database is its two tables, keyed by their primary keys.  Every writing
    method is one [BEGIN IMMEDIATE] transaction, which SQLite serializes; a
    transaction that raises is rolled back.  Parameters ([SqliteCodec]): the
    JSON text of a proposal and its validation, and the text of a timestamp
    (instants are compared by value here, so one instant has one text).  The
    comparison of a deadline with the clock of the database is answered by
    [db_clock].  Connections, locks and the thread [_run] settles are left out.
    The CHECK constraints compare columns with the document they were written
    with, and a foreign key relates a claim to its owner: [sqlite_integrity]
    says that what these methods write satisfies them.

    [sqlite_action_store] makes the store an [ActionStore] for clients whose
    proposals hold JSON documents ([storable]): Pydantic writes [null] for an
    infinite number, so other proposals are not read back as they were given. *)

From S2P Require Import Prelude Models Canonical Authority Receipts Registry StoreBase StoredValidity.
From S2P Require Import StoreContract MemoryStore.

(** What is used of Pydantic and of [datetime.isoformat]: a valid proposal whose
    JSON fields are documents is read back from its JSON text. *)
Class SqliteCodec `{U : Unicode} := {
  proposal_json : StoredProposal → pystr;
  proposal_of_json : pystr → option StoredProposal;
  isoformat : datetime → pystr;
  validate_dumped : ∀ p, stored_proposal_valid p = true → json_fields p = true →
    proposal_of_json (proposal_json p) = Some p
}.

(** * The schema *)

Record ProposalRow := mkProposalRow {
  row_action_key : ActionKey;
  row_semantic_effect_reference : pystr;
  row_effect_kind : EffectKind;
  row_lifecycle_status : pystr;
  row_revision : Z;
  row_created_at : pystr;
  row_expires_at : pystr;
  row_proposal_data : pystr
}.

Record ClaimRow := mkClaimRow { row_proposal_reference : pystr; row_admitted_at : pystr }.

Record Database := mkDatabase {
  db_proposals : gmap ProposalKey ProposalRow;
  db_effect_claims : gmap ClaimKey ClaimRow;
  db_clock : list bool
}.

(** The transitions the trigger lists. *)
Definition trigger_transitions : list (LifecycleStatus * LifecycleStatus) :=
  [(AWAITING_AUTHORITY, DENIED); (AWAITING_AUTHORITY, EXPIRED); (AWAITING_AUTHORITY, AUTHORIZED);
   (AUTHORIZED, EXPIRED); (AUTHORIZED, BLOCKED); (AUTHORIZED, STALE); (AUTHORIZED, EXECUTING);
   (STALE, SUPERSEDED); (EXECUTING, STALE); (EXECUTING, FAILED_KNOWN); (EXECUTING, FAILED_UNKNOWN);
   (EXECUTING, VERIFICATION_PENDING); (FAILED_UNKNOWN, VERIFICATION_PENDING);
   (VERIFICATION_PENDING, AUTHORIZED); (VERIFICATION_PENDING, EXECUTING);
   (VERIFICATION_PENDING, FAILED_KNOWN); (VERIFICATION_PENDING, FAILED_UNKNOWN);
   (VERIFICATION_PENDING, VERIFICATION_UNRESOLVED); (VERIFICATION_PENDING, PARTIALLY_SUCCEEDED);
   (VERIFICATION_PENDING, VERIFIED); (VERIFICATION_UNRESOLVED, VERIFICATION_PENDING)].

(** The trigger, on the old and the new row of one key: [true] lets the update
    pass. *)
Definition enforce_proposal_update (old new : ProposalRow) : bool :=
  bool_decide ((row_action_key new, row_semantic_effect_reference new, row_effect_kind new, row_created_at new)
             = (row_action_key old, row_semantic_effect_reference old, row_effect_kind old, row_created_at old))
  && (row_revision new =? row_revision old + 1)%Z
  && (bool_decide (row_lifecycle_status new = row_lifecycle_status old)
      || existsb (λ t, bool_decide (row_lifecycle_status old = lifecycle_value t.1)
                       && bool_decide (row_lifecycle_status new = lifecycle_value t.2))
           trigger_transitions).

Section Sqlite.
Context `{U : Unicode, K : !SqliteCodec}.

Abbreviation corrupt := (OtherException "SQLiteStoredDataCorruptionError").

Definition _validated_proposal (proposal : StoredProposal) : res StoredProposal :=
  if stored_proposal_valid proposal then Ok proposal else fail ValidationError.

(** The columns of the row of a proposal. *)
Definition proposal_row (p : StoredProposal) : ProposalRow :=
  mkProposalRow (_action_key (sp_action_type p)) (sp_semantic_effect_reference p) (sp_effect_kind p)
    (lifecycle_value (sp_lifecycle_status p)) (sp_revision p) (isoformat (sp_created_at p))
    (isoformat (sp_expires_at p)) (proposal_json p).

(** The columns that are compared with the proposal read from the row. *)
Definition indexed_identity (key : ProposalKey) (row : ProposalRow) :=
  (key, row_action_key row, row_semantic_effect_reference row, row_effect_kind row,
   row_lifecycle_status row, row_revision row, row_created_at row, row_expires_at row).

Definition model_identity (p : StoredProposal) :=
  (proposal_key p, _action_key (sp_action_type p), sp_semantic_effect_reference p, sp_effect_kind p,
   lifecycle_value (sp_lifecycle_status p), sp_revision p, isoformat (sp_created_at p),
   isoformat (sp_expires_at p)).

Definition load_row (key : ProposalKey) (row : ProposalRow) : res StoredProposal :=
  match proposal_of_json (row_proposal_data row) with
  | None => fail corrupt
  | Some proposal =>
      if negb (bool_decide (indexed_identity key row = model_identity proposal)) then fail corrupt
      else Ok proposal
  end.

Definition _load (db : Database) (tenant_reference proposal_reference : pystr)
  : res (option StoredProposal) :=
  match db_proposals db !! (tenant_reference, proposal_reference) with
  | None => Ok None
  | Some row => proposal ← load_row (tenant_reference, proposal_reference) row; Ok (Some proposal)
  end.

Definition set_proposals (m : gmap ProposalKey ProposalRow) (db : Database) : Database :=
  mkDatabase m (db_effect_claims db) (db_clock db).
Definition set_claims (m : gmap ClaimKey ClaimRow) (db : Database) : Database :=
  mkDatabase (db_proposals db) m (db_clock db).

(** UPDATE with its guard, the trigger, and the check on the number of rows. *)
Definition _update (current updated : StoredProposal) (db : Database) : res Database :=
  let key := proposal_key current in
  match db_proposals db !! key with
  | Some row =>
      if (row_revision row =? sp_revision current)%Z
         && bool_decide (row_lifecycle_status row = lifecycle_value (sp_lifecycle_status current)) then
        let row' := mkProposalRow (row_action_key row) (row_semantic_effect_reference row)
          (row_effect_kind row) (lifecycle_value (sp_lifecycle_status updated)) (sp_revision updated)
          (row_created_at row) (isoformat (sp_expires_at updated)) (proposal_json updated) in
        if enforce_proposal_update row row' then
          Ok (set_proposals (<[key := row']> (db_proposals db)) db)
        else fail (OtherException "IntegrityError")
      else fail (StoreInvariantError "guarded SQLite update lost its locked proposal")
  | None => fail (StoreInvariantError "guarded SQLite update lost its locked proposal")
  end.

Definition _claim_owner (db : Database) (claim_key : ClaimKey) : option pystr :=
  row_proposal_reference <$> db_effect_claims db !! claim_key.

Definition _claim_effect (db : Database) (proposal : StoredProposal) (admitted_at : datetime)
  : res (EffectClaimResult * Database) :=
  let key := claim_key proposal in
  let claimed := set_claims (<[key := mkClaimRow (sp_proposal_reference proposal) (isoformat admitted_at)]>
                               (db_effect_claims db)) db in
  match _claim_owner db key with
  | None => Ok (ACQUIRED, claimed)
  | Some owner =>
      if bool_decide (owner = sp_proposal_reference proposal) then Ok (OWNED_BY_PROPOSAL, db)
      else
        owner_record ← _load db (sp_tenant_reference proposal) owner;
        match owner_record with
        | Some record =>
            if bool_decide (sp_lifecycle_status record ∈ [FAILED_KNOWN; STALE])
            then Ok (ACQUIRED, claimed) else Ok (CONFLICT, db)
        | None => Ok (CONFLICT, db)
        end
  end.

(** * Transactions *)

(** [body] answers and says what it commits; [None] is a rollback. *)
Definition transaction {A} (body : Database → res (A * option Database)) (db : Database)
  : res A * Database :=
  match body db with
  | Ok (a, Some db') => (Ok a, db')
  | Ok (a, None) => (Ok a, db)
  | Err e => (Err e, db)
  end.

(** * The operations *)

Definition sqlite_create (proposal : StoredProposal) (db : Database) : res unit * Database :=
  match (p ← _validated_proposal proposal; _ ← validate_proposal_create p; Ok p) with
  | Err e => (Err e, db)
  | Ok p =>
      transaction (λ db,
        match db_proposals db !! proposal_key p with
        | Some _ => fail (ProposalAlreadyExistsError "proposal already exists")
        | None => Ok (tt, Some (set_proposals (<[proposal_key p := proposal_row p]> (db_proposals db)) db))
        end) db
  end.

Definition sqlite_compare_and_set (tenant_reference proposal_reference : pystr)
  (expected_revision : Z) (expected_statuses : list LifecycleStatus) (updated : StoredProposal)
  (db : Database) : res bool * Database :=
  match _validated_proposal updated with
  | Err e => (Err e, db)
  | Ok updated =>
      transaction (λ db,
        loaded ← _load db tenant_reference proposal_reference;
        match loaded with
        | None => Ok (false, None)
        | Some current =>
            if negb (sp_revision current =? expected_revision)%Z
               || negb (bool_decide (sp_lifecycle_status current ∈ expected_statuses)) then
              Ok (false, None)
            else
              _ ← validate_proposal_update current updated;
              if bool_decide (sp_lifecycle_status updated = EXECUTING)
                 && negb (bool_decide (sp_lifecycle_status current = EXECUTING))
                 && negb (bool_decide (_claim_owner db (claim_key current)
                                       = Some (sp_proposal_reference current))) then
                fail (StoreInvariantError
                  "execution requires this proposal to own the semantic effect claim")
              else
                db' ← _update current updated db;
                Ok (true, Some db')
        end) db
  end.

(** [SELECT julianday(?) > julianday('now')]; one answer is set aside for each
    admission. *)
Definition database_unexpired (db : Database) : bool := default true (head (db_clock db)).
Definition tick (db : Database) : Database :=
  mkDatabase (db_proposals db) (db_effect_claims db) (tail (db_clock db)).

Definition sqlite_admit_execution (tenant_reference proposal_reference : pystr)
  (expected_revision : Z) (admitted_at : datetime) (updated : StoredProposal) (db : Database)
  : res EffectClaimResult * Database :=
  let unexpired := database_unexpired db in
  let db := tick db in
  match _validated_proposal updated with
  | Err e => (Err e, db)
  | Ok updated =>
      transaction (λ db,
        loaded ← _load db tenant_reference proposal_reference;
        match loaded with
        | None => Ok (PROPOSAL_NOT_FOUND, None)
        | Some current =>
            if negb (sp_revision current =? expected_revision)%Z
               || negb (bool_decide (sp_lifecycle_status current = AUTHORIZED))
               || bool_decide (is_Some (sp_erasure_pending_at current))
               || bool_decide (is_Some (sp_erased_at current))
               || (sp_expires_at current <=? admitted_at)%Z || negb unexpired then
              Ok (PROPOSAL_NOT_AUTHORIZED, None)
            else
              _ ← validate_proposal_update current updated;
              if negb (bool_decide (sp_lifecycle_status updated = EXECUTING)) then
                fail (StoreInvariantError "execution admission must enter executing")
              else
                '(claim, db1) ← _claim_effect db current admitted_at;
                if bool_decide (claim = CONFLICT) then Ok (claim, None)
                else
                  db2 ← _update current updated db1;
                  Ok (claim, Some db2)
        end) db
  end.

Definition sqlite_mark_erasure_pending (tenant_reference proposal_reference : pystr)
  (expected_revision : Z) (pending_at : datetime) (db : Database) : res bool * Database :=
  transaction (λ db,
    loaded ← _load db tenant_reference proposal_reference;
    match loaded with
    | None => Ok (false, None)
    | Some current =>
        if negb (sp_revision current =? expected_revision)%Z
           || negb (bool_decide (sp_lifecycle_status current ∈ ERASABLE_LIFECYCLE_STATUSES))
           || bool_decide (is_Some (sp_erased_at current)) then Ok (false, None)
        else if bool_decide (is_Some (sp_erasure_pending_at current)) then Ok (true, None)
        else
          updated ← _validated_proposal (proposal_with_erasure_pending current pending_at);
          _ ← validate_proposal_update current updated;
          db' ← _update current updated db;
          Ok (true, Some db')
    end) db.

Definition sqlite_complete_erasure (tenant_reference proposal_reference : pystr)
  (expected_revision : Z) (erased_at : datetime) (db : Database) : res bool * Database :=
  transaction (λ db,
    loaded ← _load db tenant_reference proposal_reference;
    match loaded with
    | None => Ok (false, None)
    | Some current =>
        if negb (sp_revision current =? expected_revision)%Z
           || bool_decide (sp_erasure_pending_at current = None)
           || bool_decide (is_Some (sp_erased_at current)) then Ok (false, None)
        else
          updated ← _validated_proposal (erased_proposal current erased_at);
          _ ← validate_proposal_update current updated;
          db' ← _update current updated db;
          Ok (true, Some db')
    end) db.

Definition sqlite_run (o : store_op) (db : Database) : res (store_resp o) * Database :=
  match o with
  | Create p => sqlite_create p db
  | Get t p => (_load db t p, db)
  | CompareAndSet t p revision statuses updated =>
      sqlite_compare_and_set t p revision statuses updated db
  | AdmitExecution t p revision admitted_at updated =>
      sqlite_admit_execution t p revision admitted_at updated db
  | GetEffectClaimOwner t a e => (Ok (_claim_owner db (claim_key_of t a e)), db)
  | MarkErasurePending t p revision at_ => sqlite_mark_erasure_pending t p revision at_ db
  | CompleteErasure t p revision at_ => sqlite_complete_erasure t p revision at_ db
  end.

(** The CHECK constraints of a row, and the foreign key of a claim. *)
Definition row_checks (key : ProposalKey) (row : ProposalRow) : bool :=
  (0 <? (row_action_key row).2)%Z && (0 <=? row_revision row)%Z
  && existsb (λ s, bool_decide (row_lifecycle_status row = lifecycle_value s)) lifecycle_statuses
  && match proposal_of_json (row_proposal_data row) with
     | None => false
     | Some p =>
         bool_decide (sp_tenant_reference p = key.1) && bool_decide (sp_proposal_reference p = key.2)
         && bool_decide (_action_key (sp_action_type p) = row_action_key row)
         && bool_decide (sp_semantic_effect_reference p = row_semantic_effect_reference row)
         && bool_decide (sp_effect_kind p = row_effect_kind row)
         && bool_decide (lifecycle_value (sp_lifecycle_status p) = row_lifecycle_status row)
         && (sp_revision p =? row_revision row)%Z
     end.

Definition foreign_key (db : Database) (key : ClaimKey) (claim : ClaimRow) : bool :=
  match db_proposals db !! (key.1.1, row_proposal_reference claim) with
  | None => false
  | Some row =>
      bool_decide (row_action_key row = key.1.2)
      && bool_decide (row_semantic_effect_reference row = key.2)
  end.

(** What a client can observe: the rows that can be read. *)
Definition row_view (key : ProposalKey) (row : ProposalRow) : option StoredProposal :=
  match load_row key row with Ok p => Some p | Err _ => None end.

Definition sqlite_view (db : Database) : StoreView :=
  mkStoreView (map_imap row_view (db_proposals db)) (row_proposal_reference <$> db_effect_claims db).

(** * Facts *)

Lemma lifecycle_value_inj a b : lifecycle_value a = lifecycle_value b → a = b.
Proof. destruct a, b; try done; discriminate. Qed.

(** ** What the tables hold *)

Definition row_ok (key : ProposalKey) (row : ProposalRow) : Prop :=
  ∃ p, key = proposal_key p ∧ row = proposal_row p ∧
    stored_proposal_valid p = true ∧ json_fields p = true.

Definition db_ok (db : Database) : Prop :=
  ∀ key row, db_proposals db !! key = Some row → row_ok key row.

(** The proposals an operation hands over hold documents. *)
Definition storable (o : store_op) : bool :=
  match o with
  | Create p | CompareAndSet _ _ _ _ p | AdmitExecution _ _ _ _ p => json_fields p
  | _ => true
  end.

Lemma proposal_row_load p :
  stored_proposal_valid p = true → json_fields p = true →
  load_row (proposal_key p) (proposal_row p) = Ok p.
Proof.
  intros Hv Hj. unfold load_row. simpl. rewrite validate_dumped by done.
  by rewrite bool_decide_eq_true_2.
Qed.

Lemma proposal_row_view p :
  stored_proposal_valid p = true → json_fields p = true →
  row_view (proposal_key p) (proposal_row p) = Some p.
Proof. intros. unfold row_view. by rewrite proposal_row_load. Qed.

Lemma row_view_inv key row p :
  row_view key row = Some p →
  proposal_of_json (row_proposal_data row) = Some p ∧ indexed_identity key row = model_identity p.
Proof.
  unfold row_view, load_row. destruct (proposal_of_json _) as [q|]; [|done].
  case_bool_decide; [|done]. by intros [= ->].
Qed.

Lemma view_lookup db key :
  proposals (sqlite_view db) !! key = db_proposals db !! key ≫= row_view key.
Proof. simpl. apply map_lookup_imap. Qed.

Lemma db_ok_lookup db k p :
  db_ok db → proposals (sqlite_view db) !! k = Some p →
  db_proposals db !! k = Some (proposal_row p) ∧ k = proposal_key p ∧
  stored_proposal_valid p = true ∧ json_fields p = true.
Proof.
  rewrite view_lookup. intros Hok (row & Hrow & Hp)%bind_Some.
  destruct (Hok k row Hrow) as (q & -> & -> & Hv & Hj).
  rewrite proposal_row_view in Hp by done. by simplify_eq.
Qed.

(** Reading never fails. *)
Lemma db_ok_load db t p : db_ok db → _load db t p = Ok (proposals (sqlite_view db) !! (t, p)).
Proof.
  intros Hok. rewrite view_lookup. unfold _load.
  destruct (db_proposals db !! (t, p)) as [row|] eqn:Hrow; [|done].
  destruct (Hok _ _ Hrow) as (q & Hk & -> & Hv & Hj). rewrite Hk. simpl.
  by rewrite proposal_row_view, proposal_row_load.
Qed.

Lemma db_ok_put db p :
  db_ok db → stored_proposal_valid p = true → json_fields p = true →
  let db' := set_proposals (<[proposal_key p := proposal_row p]> (db_proposals db)) db in
  db_ok db' ∧ db_clock db' = db_clock db ∧ sqlite_view db' = put_proposal (proposal_key p) p (sqlite_view db).
Proof.
  intros Hok Hv Hj. split_and!; [| done |].
  - intros k row. simpl. intros [[<- <-]|[_ Hk]]%lookup_insert_Some; [by exists p|by apply Hok].
  - unfold sqlite_view, put_proposal. simpl. f_equal. apply map_eq. intros k.
    rewrite map_lookup_imap. destruct (decide (k = proposal_key p)) as [->|Hne].
    + rewrite !lookup_insert_eq. by apply proposal_row_view.
    + by rewrite !lookup_insert_ne, map_lookup_imap by done.
Qed.

(** The trigger and the table of [stores/base.py] agree. *)
Lemma trigger_transitions_allowed s t :
  (s, t) ∈ trigger_transitions ↔ t ∈ ALLOWED_LIFECYCLE_TRANSITIONS s.
Proof.
  split.
  - intros H. elem_cases H; simplify_eq; apply (bool_decide_unpack _); done.
  - intros H. apply list_elem_of_In. destruct s; elem_cases H; simpl; tauto.
Qed.

Lemma trigger_status s t :
  existsb (λ x, bool_decide (lifecycle_value s = lifecycle_value x.1)
                && bool_decide (lifecycle_value t = lifecycle_value x.2)) trigger_transitions = true ↔
  t ∈ ALLOWED_LIFECYCLE_TRANSITIONS s.
Proof.
  rewrite existsb_elem, <-trigger_transitions_allowed. split.
  - intros ([a b] & Hin & H). to_prop. simpl in *.
    by repeat match goal with H : lifecycle_value _ = _ |- _ => apply lifecycle_value_inj in H as -> end.
  - intros Hin. exists (s, t). split; [done|]. by rewrite !bool_decide_eq_true_2.
Qed.

(** A validated update passes the guard and the trigger. *)
Lemma update_view db current updated :
  db_ok db → proposals (sqlite_view db) !! proposal_key current = Some current →
  update_ok current updated → stored_proposal_valid updated = true → json_fields updated = true →
  ∃ db', _update current updated db = Ok db' ∧ db_ok db' ∧ db_clock db' = db_clock db ∧
    sqlite_view db' = put_proposal (proposal_key current) updated (sqlite_view db).
Proof.
  intros Hok Hk Hu Hv Hj. destruct (db_ok_lookup _ _ _ Hok Hk) as (Hrow & _ & _ & _).
  assert (Hidu := update_identity _ _ Hu). unfold proposal_identity in Hidu. simplify_eq.
  assert (proposal_key current = proposal_key updated) as Hkey by (unfold proposal_key; congruence).
  unfold _update. rewrite Hrow. cbn -[enforce_proposal_update].
  rewrite Z.eqb_refl, bool_decide_eq_true_2 by done. cbn -[enforce_proposal_update].
  set (row' := mkProposalRow _ _ _ _ _ _ _ _).
  assert (row' = proposal_row updated) as -> by (unfold row', proposal_row; f_equal; congruence).
  assert (Htr : enforce_proposal_update (proposal_row current) (proposal_row updated) = true).
  { unfold enforce_proposal_update. simpl.
    rewrite bool_decide_eq_true_2, (update_revision _ _ Hu), Z.eqb_refl by congruence. simpl.
    destruct (update_status _ _ Hu) as [->|Ha]; [by rewrite bool_decide_eq_true_2|].
    apply orb_true_iff. right. by apply trigger_status. }
  rewrite Htr, Hkey. eexists. split; [done|]. by apply db_ok_put.
Qed.

Lemma tick_view db : sqlite_view (tick db) = sqlite_view db.
Proof. done. Qed.

(** A transaction commits, rolls back with an answer, or raises. *)
Lemma transaction_spec {A} (P : res A → Database → Prop) (body : Database → res (A * option Database)) db :
  (∀ e, P (Err e) db) → (∀ a, body db = Ok (a, None) → P (Ok a) db) →
  (∀ a db', body db = Ok (a, Some db') → P (Ok a) db') →
  P (transaction body db).1 (transaction body db).2.
Proof.
  intros He Hn Hs. unfold transaction. destruct (body db) as [[a [d|]]|e]; simpl; auto.
Qed.

(** ** The in-memory store with validation and a clock *)

(** The in-memory store a database stands for. *)
Definition memory_of (db : Database) : MemoryActionStore :=
  mkMemoryActionStore (proposals (sqlite_view db)) (effect_claims (sqlite_view db)).

Definition op_valid (o : store_op) : bool :=
  match o with
  | Create p | CompareAndSet _ _ _ _ p | AdmitExecution _ _ _ _ p => stored_proposal_valid p
  | _ => true
  end.

(** What differs from the in-memory store: proposals handed over are validated,
    a new proposal is judged before its key is looked up, and an admission also
    asks the clock of the database. *)
Definition clocked_run (unexpired : bool) (o : store_op) (s : MemoryActionStore)
  : res (store_resp o) * MemoryActionStore :=
  if negb (op_valid o) then (fail ValidationError, s)
  else
    match o as o return res (store_resp o) * MemoryActionStore with
    | Create p =>
        match validate_proposal_create p with Err e => (Err e, s) | Ok _ => create p s end
    | AdmitExecution t p revision admitted_at updated =>
        if unexpired then admit_execution t p revision admitted_at updated s
        else (Ok (match _proposals s !! (t, p) with
                  | None => PROPOSAL_NOT_FOUND
                  | Some _ => PROPOSAL_NOT_AUTHORIZED
                  end), s)
    | o => memory_run o s
    end.

Definition clock_after (o : store_op) (clock : list bool) : list bool :=
  match o with AdmitExecution _ _ _ _ _ => tail clock | _ => clock end.

(** [x] is the outcome of one call on [db]. *)
Definition matches {A} (db : Database) (clock : list bool) (x : res A * Database)
  (y : res A * MemoryActionStore) : Prop :=
  x.1 = y.1 ∧ memory_of x.2 = y.2 ∧ db_ok x.2 ∧ db_clock x.2 = clock.

Lemma memory_of_view db : memory_view (memory_of db) = sqlite_view db.
Proof. done. Qed.

Lemma claim_owner_view db c : effect_claims (sqlite_view db) !! c = _claim_owner db c.
Proof. apply lookup_fmap. Qed.

Lemma claim_effect_matches db p at_ :
  db_ok db → ∃ r db', _claim_effect db p at_ = Ok (r, db') ∧
    _claim_effect_locked (claim_key p) (sp_proposal_reference p) (memory_of db) = (r, memory_of db') ∧
    db_ok db' ∧ db_clock db' = db_clock db.
Proof.
  intros Hok. unfold _claim_effect, _claim_effect_locked.
  change (_effect_claims (memory_of db)) with (effect_claims (sqlite_view db)).
  rewrite claim_owner_view.
  set (claimed := set_claims _ db).
  assert (memory_of claimed = mkMemoryActionStore (_proposals (memory_of db))
    (<[claim_key p := sp_proposal_reference p]> (effect_claims (sqlite_view db)))) as <-.
  { unfold memory_of, claimed. simpl. by rewrite fmap_insert. }
  assert (db_ok claimed ∧ db_clock claimed = db_clock db) as Hclaimed by done.
  destruct (_claim_owner db (claim_key p)) as [owner|]; [|eauto].
  case_bool_decide; [eauto|].
  rewrite db_ok_load by done. simpl.
  case_match; [case_bool_decide|]; eauto.
Qed.

(** ** Each operation *)

Lemma validated_cases p :
  _validated_proposal p = if negb (stored_proposal_valid p) then fail ValidationError else Ok p.
Proof. unfold _validated_proposal. by destruct (stored_proposal_valid p). Qed.

Lemma matches_same {A} db clock (r : res A) :
  db_ok db → db_clock db = clock → matches db clock (r, db) (r, memory_of db).
Proof. by intros. Qed.

(** Writing over the loaded record. *)
Lemma update_matches db t p current updated :
  db_ok db → proposals (sqlite_view db) !! (t, p) = Some current →
  validate_proposal_update current updated = Ok () →
  stored_proposal_valid updated = true → json_fields updated = true →
  ∃ db', _update current updated db = Ok db' ∧
    memory_of db' = store_proposal (t, p) updated (memory_of db) ∧ db_ok db' ∧
    db_clock db' = db_clock db.
Proof.
  intros Hok Hk Hu%validate_update_ok Hv Hj. destruct (db_ok_lookup _ _ _ Hok Hk) as (_ & Hkey & _).
  rewrite Hkey in Hk |- *. destruct (update_view db current updated) as (db' & -> & Hok' & Hcl & Hview);
    auto. exists db'. split_and!; auto. unfold memory_of. by rewrite Hview.
Qed.

Lemma create_matches p db :
  db_ok db → json_fields p = true →
  matches db (db_clock db) (sqlite_create p db) (clocked_run true (Create p) (memory_of db)).
Proof.
  intros Hok Hj. unfold sqlite_create, clocked_run, op_valid. rewrite validated_cases.
  destruct (stored_proposal_valid p) eqn:Hv; simpl; [|by apply matches_same].
  destruct (validate_proposal_create p) as [[]|e] eqn:Hc; simpl; [|by apply matches_same].
  unfold create. change (_proposals (memory_of db)) with (proposals (sqlite_view db)).
  fold (proposal_key p). rewrite view_lookup. unfold transaction.
  destruct (db_proposals db !! proposal_key p) as [row|] eqn:Hrow; simpl.
  - destruct (Hok _ _ Hrow) as (q & Hk & -> & Hq & Hjq).
    rewrite Hk, proposal_row_view by done. by apply matches_same.
  - rewrite Hc. destruct (db_ok_put db p Hok Hv Hj) as (Hok' & Hcl & Hview).
    split_and!; try done. cbn [snd]. unfold memory_of at 1. by rewrite Hview.
Qed.

Lemma cas_matches t p revision statuses u db :
  db_ok db → json_fields u = true →
  matches db (db_clock db) (sqlite_compare_and_set t p revision statuses u db)
    (clocked_run true (CompareAndSet t p revision statuses u) (memory_of db)).
Proof.
  intros Hok Hj. unfold sqlite_compare_and_set, clocked_run, op_valid. rewrite validated_cases.
  destruct (stored_proposal_valid u) eqn:Hv; [|by apply matches_same].
  cbn [negb memory_run]. unfold transaction, compare_and_set. rewrite db_ok_load by done.
  change (_proposals (memory_of db)) with (proposals (sqlite_view db)). cbn [mbind res_bind].
  destruct (proposals (sqlite_view db) !! (t, p)) as [c|] eqn:Hc; [|by apply matches_same].
  destruct (negb (sp_revision c =? revision)%Z); [by apply matches_same|].
  destruct (negb (bool_decide (sp_lifecycle_status c ∈ statuses))); [by apply matches_same|].
  cbn [orb].
  destruct (validate_proposal_update c u) as [[]|] eqn:Hu; [|by apply matches_same].
  cbn [mbind res_bind]. rewrite <-claim_owner_view.
  change (_effect_claims (memory_of db)) with (effect_claims (sqlite_view db)).
  fold (claim_key_of (sp_tenant_reference c) (sp_action_type c) (sp_semantic_effect_reference c)).
  fold (claim_key c). split_if; [by apply matches_same|].
  destruct (update_matches _ _ _ _ _ Hok Hc Hu Hv Hj) as (db' & -> & ? & ? & ?). done.
Qed.

Lemma claim_locked_proposals c r s : _proposals (_claim_effect_locked c r s).2 = _proposals s.
Proof. unfold _claim_effect_locked. repeat case_match; done. Qed.

Lemma admit_matches t p revision at_ u db :
  db_ok db → json_fields u = true →
  matches db (tail (db_clock db)) (sqlite_admit_execution t p revision at_ u db)
    (clocked_run (database_unexpired db) (AdmitExecution t p revision at_ u) (memory_of db)).
Proof.
  intros Hok Hj. unfold sqlite_admit_execution, clocked_run, op_valid. rewrite validated_cases.
  generalize (database_unexpired db) as unexpired. intros unexpired.
  destruct (stored_proposal_valid u) eqn:Hv; [|by apply (matches_same (tick db))].
  cbn [negb]. unfold transaction, admit_execution.
  rewrite (db_ok_load (tick db)) by done.
  change (_proposals (memory_of db)) with (proposals (sqlite_view db)). cbn [mbind res_bind].
  change (sqlite_view (tick db)) with (sqlite_view db).
  destruct (proposals (sqlite_view db) !! (t, p)) as [c|] eqn:Hc;
    [|destruct unexpired; by apply (matches_same (tick db))].
  destruct unexpired; cbn [negb]; [rewrite orb_false_r|rewrite orb_true_r; by apply (matches_same (tick db))].
  match goal with |- context [if ?b then Ok (PROPOSAL_NOT_AUTHORIZED, None) else _] => destruct b end;
    [by apply (matches_same (tick db))|].
  destruct (validate_proposal_update c u) as [[]|] eqn:Hu; [|by apply (matches_same (tick db))].
  cbn [mbind res_bind].
  destruct (negb (bool_decide (sp_lifecycle_status u = EXECUTING))); [by apply (matches_same (tick db))|].
  assert (sp_proposal_reference c = p) as Hp.
  { destruct (db_ok_lookup _ _ _ Hok Hc) as (_ & Hk & _). unfold proposal_key in Hk. congruence. }
  destruct (claim_effect_matches (tick db) c at_ Hok) as (r & db1 & -> & Hl & Hok1 & Hcl1).
  change (memory_of (tick db)) with (memory_of db) in Hl. rewrite Hp in Hl.
  fold (claim_key_of (sp_tenant_reference c) (sp_action_type c) (sp_semantic_effect_reference c)).
  fold (claim_key c). rewrite Hl. cbn [mbind res_bind]. case_bool_decide as Hr.
  - subst r. assert (Hs := claim_effect_locked_spec (claim_key c) p (memory_of db)).
    rewrite Hl in Hs. destruct Hs as [-> _]. by apply (matches_same (tick db)).
  - assert (proposals (sqlite_view db1) = proposals (sqlite_view db)) as Hsame.
    { assert (H := claim_locked_proposals (claim_key c) p (memory_of db)). by rewrite Hl in H. }
    rewrite <-Hsame in Hc.
    destruct (update_matches _ _ _ _ _ Hok1 Hc Hu Hv Hj) as (db2 & -> & ? & ? & ?).
    split_and!; try done. cbn [fst snd]. by etrans.
Qed.

(** The updates an erasure writes are valid steps. *)
Lemma pending_update c t :
  bindings_ok c → sp_erased_at c = None →
  validate_proposal_update c (proposal_with_erasure_pending c t) = Ok ().
Proof.
  intros Hb He. apply validate_update_ok. constructor; simpl; try done; eauto.
  - rewrite He. by intros [].
  - by apply bindings_ok_pending.
Qed.

Lemma erased_update c t :
  validate_proposal_update c (erased_proposal c t) = Ok ().
Proof.
  apply validate_update_ok. constructor; simpl; try done; eauto. apply bindings_ok_erased.
Qed.

Lemma mark_matches t p revision at_ db :
  db_ok db → view_ok (sqlite_view db) →
  matches db (db_clock db) (sqlite_mark_erasure_pending t p revision at_ db)
    (clocked_run true (MarkErasurePending t p revision at_) (memory_of db)).
Proof.
  intros Hok Hview. unfold sqlite_mark_erasure_pending, clocked_run, op_valid, transaction.
  cbn [negb memory_run]. unfold mark_erasure_pending. rewrite db_ok_load by done.
  change (_proposals (memory_of db)) with (proposals (sqlite_view db)). cbn [mbind res_bind].
  destruct (proposals (sqlite_view db) !! (t, p)) as [c|] eqn:Hc; [|by apply matches_same].
  split_if; [by apply matches_same|]. to_prop. split_if; [by apply matches_same|]. to_prop.
  destruct (db_ok_lookup _ _ _ Hok Hc) as (_ & _ & Hv & Hj).
  rewrite validated_cases, stored_proposal_valid_pending by done. cbn [negb mbind res_bind].
  assert (Hu : validate_proposal_update c (proposal_with_erasure_pending c at_) = Ok ()).
  { apply pending_update; [by apply (Hview _ _ Hc)|by apply eq_None_not_Some]. }
  rewrite Hu. cbn [mbind res_bind].
  destruct (update_matches _ _ _ _ _ Hok Hc Hu) as (db' & -> & ? & ? & ?); [|done|].
  - by apply stored_proposal_valid_pending.
  - done.
Qed.

Lemma erase_matches t p revision at_ db :
  db_ok db →
  matches db (db_clock db) (sqlite_complete_erasure t p revision at_ db)
    (clocked_run true (CompleteErasure t p revision at_) (memory_of db)).
Proof.
  intros Hok. unfold sqlite_complete_erasure, clocked_run, op_valid, transaction.
  cbn [negb memory_run]. unfold complete_erasure. rewrite db_ok_load by done.
  change (_proposals (memory_of db)) with (proposals (sqlite_view db)). cbn [mbind res_bind].
  destruct (proposals (sqlite_view db) !! (t, p)) as [c|] eqn:Hc; [|by apply matches_same].
  split_if; [by apply matches_same|].
  destruct (db_ok_lookup _ _ _ Hok Hc) as (_ & _ & Hv & _).
  assert (Hv' := stored_proposal_valid_erased c at_ Hv).
  rewrite validated_cases, Hv'. cbn [negb mbind res_bind].
  assert (Hu := erased_update c at_). rewrite Hu. cbn [mbind res_bind].
  by destruct (update_matches _ _ _ _ _ Hok Hc Hu Hv' (json_fields_erased c at_)) as (db' & -> & ? & ? & ?).
Qed.

Lemma sqlite_run_matches o db :
  db_ok db → view_ok (sqlite_view db) → storable o = true →
  matches db (clock_after o (db_clock db)) (sqlite_run o db)
    (clocked_run (database_unexpired db) o (memory_of db)).
Proof.
  intros Hok Hview Hs.
  destruct o as [p|t p|t p rev sts u|t p rev at_ u|t a e|t p rev at_|t p rev at_].
  - by apply create_matches.
  - split_and!; try done. simpl. by rewrite db_ok_load.
  - by apply cas_matches.
  - by apply admit_matches.
  - split_and!; try done. simpl. by rewrite <-claim_owner_view.
  - by apply mark_matches.
  - by apply erase_matches.
Qed.

(** ** The contract and the constraints *)

Lemma clocked_run_contract b o s :
  contract (memory_view s) o (clocked_run b o s).1 (memory_view (clocked_run b o s).2).
Proof.
  assert (Hm := memory_run_contract o s). unfold clocked_run.
  destruct (op_valid o); cbn [negb]; [|by destruct o].
  destruct o as [p|t p|t p rev sts u|t p rev at_ u|t a e|t p rev at_|t p rev at_]; try exact Hm.
  - by destruct (validate_proposal_create p) as [[]|].
  - destruct b; [exact Hm|]. simpl. by destruct (_proposals s !! (t, p)).
Qed.

Lemma matches_contract {A} db clock (x : res A * Database) (y : res A * MemoryActionStore) :
  matches db clock x y → x.1 = y.1 ∧ sqlite_view x.2 = memory_view y.2 ∧ db_ok x.2.
Proof. intros (? & <- & ? & ?). done. Qed.

Lemma sqlite_run_contract o db :
  db_ok db → view_ok (sqlite_view db) → storable o = true →
  contract (sqlite_view db) o (sqlite_run o db).1 (sqlite_view (sqlite_run o db).2) ∧
  db_ok (sqlite_run o db).2.
Proof.
  intros Hok Hview Hs.
  destruct (matches_contract _ _ _ _ (sqlite_run_matches o db Hok Hview Hs)) as (-> & -> & Hok').
  split; [|done]. apply (clocked_run_contract _ o (memory_of db)).
Qed.

(** Every claim belongs to a stored proposal of that effect. *)
Definition claims_owned (v : StoreView) : Prop :=
  ∀ c owner, effect_claims v !! c = Some owner →
  ∃ p, proposals v !! (c.1.1, owner) = Some p ∧ claim_key p = c.

Lemma claims_owned_put k o u v :
  claims_owned v → proposals v !! k = o → (∀ c, o = Some c → claim_key u = claim_key c) →
  claims_owned (put_proposal k u v).
Proof.
  intros Hown Hk Hu c owner Hc. destruct (Hown c owner Hc) as (p & Hp & Hpc). simpl.
  destruct (decide (k = (c.1.1, owner))) as [->|Hne].
  - exists u. rewrite lookup_insert_eq. split; [done|]. rewrite Hk in Hp. by rewrite (Hu p).
  - exists p. by rewrite lookup_insert_ne.
Qed.

Lemma claims_owned_contract v o r v' :
  view_ok v → claims_owned v → contract v o r v' → claims_owned v'.
Proof.
  intros Hok Hown. destruct o as [p|t p|t p rev sts u|t p rev at_ u|t a e|t p rev at_|t p rev at_];
    simpl; intros H.
  - destruct r as [[]|]; [|by subst]. destruct H as (Hnone & _ & ->). by eapply claims_owned_put.
  - by destruct H as [-> _].
  - destruct r as [[]|]; [|by subst..]. destruct H as (c & Hc & _ & _ & Hu & _ & ->).
    eapply claims_owned_put; [done..|]. intros ? [= <-]. by apply update_ok_keys.
  - enough (admit_effect v (t, p) rev at_ u v' → claims_owned v') by (destruct r as [[]|]; subst; auto).
    intros (c & Hc & _ & _ & _ & _ & _ & Hu & _ & _ & ->).
    destruct (update_ok_keys _ _ Hu) as [_ Hck]. destruct (Hok _ _ Hc) as [Hk _ _].
    eapply claims_owned_put; [|done|by intros ? [= <-]].
    intros c' owner. simpl. intros [[<- <-]|[_ Hc']]%lookup_insert_Some; [|by apply Hown].
    exists c. unfold proposal_key in Hk. injection Hk as Ht _. split; [simpl; by rewrite Ht|done].
  - by destruct H as [-> _].
  - destruct r as [[]|]; [|by subst..]. destruct H as (c & Hc & _ & _ & _ & [[_ ->]| ->]); [done|].
    eapply claims_owned_put; [done..|]. by intros ? [= <-].
  - destruct r as [[]|]; [|by subst..]. destruct H as (c & Hc & _ & _ & _ & ->).
    eapply claims_owned_put; [done..|]. by intros ? [= <-].
Qed.

Lemma proposal_row_checks p :
  stored_proposal_valid p = true → json_fields p = true →
  row_checks (proposal_key p) (proposal_row p) = true.
Proof.
  intros Hv Hj. unfold row_checks. cbn -[existsb lifecycle_statuses Z.ltb Z.leb Z.eqb]. rewrite validate_dumped by done.
  rewrite !bool_decide_eq_true_2, Z.eqb_refl by done. unfold stored_proposal_valid in Hv.
  repeat (apply andb_prop in Hv as [Hv ?]). unfold action_type_valid in *. to_prop.
  rewrite !andb_true_r, !andb_true_iff, Z.ltb_lt, Z.leb_le.
  split_and!; [lia|done|]. apply existsb_elem. exists (sp_lifecycle_status p).
  split; [apply lifecycle_statuses_complete|by apply bool_decide_eq_true_2].
Qed.

(** ** Histories *)

(** A database as created by the migrations, with the answers its clock will
    give. *)
Definition fresh_database (clock : list bool) : Database := mkDatabase ∅ ∅ clock.

Fixpoint sqlite_run_all (os : list store_op) (db : Database) : list store_event * Database :=
  match os with
  | [] => ([], db)
  | o :: os' =>
      let '(r, db1) := sqlite_run o db in
      let '(es, db2) := sqlite_run_all os' db1 in
      (StoreEvent o r :: es, db2)
  end.

Fixpoint clocked_run_all (os : list store_op) (clock : list bool) (s : MemoryActionStore)
  : list store_event * MemoryActionStore :=
  match os with
  | [] => ([], s)
  | o :: os' =>
      let '(r, s1) := clocked_run (default true (head clock)) o s in
      let '(es, s2) := clocked_run_all os' (clock_after o clock) s1 in
      (StoreEvent o r :: es, s2)
  end.

Record db_inv (db : Database) : Prop := {
  inv_rows : db_ok db;
  inv_view : view_ok (sqlite_view db);
  inv_claims : claims_owned (sqlite_view db)
}.

Lemma fresh_view clock : sqlite_view (fresh_database clock) = empty_view.
Proof. unfold sqlite_view, empty_view. simpl. by rewrite fmap_empty. Qed.

Lemma fresh_inv clock : db_inv (fresh_database clock).
Proof.
  constructor.
  - intros k row H. simpl in H. by rewrite lookup_empty in H.
  - rewrite fresh_view. apply view_ok_empty.
  - rewrite fresh_view. intros c owner H. simpl in H. by rewrite lookup_empty in H.
Qed.

Lemma sqlite_run_inv o db : db_inv db → storable o = true → db_inv (sqlite_run o db).2.
Proof.
  intros [Hok Hview Hown] Hs. destruct (sqlite_run_contract o db Hok Hview Hs) as [Hc Hok'].
  constructor; eauto using view_ok_contract, claims_owned_contract.
Qed.

Lemma sqlite_history os db :
  db_inv db → forallb storable os = true →
  let run := sqlite_run_all os db in
  let expected := clocked_run_all os (db_clock db) (memory_of db) in
  run.1 = expected.1 ∧ memory_of run.2 = expected.2 ∧ db_inv run.2 ∧
  contract_trace (sqlite_view db) run.1 (sqlite_view run.2).
Proof.
  revert db. induction os as [|o os IH]; intros db Hinv Hs; [split_and!; [done..|constructor]|].
  cbn [forallb] in Hs. to_prop. assert (Hinv0 := Hinv); destruct Hinv0 as [Hok Hview _].
  assert (Hinv' := sqlite_run_inv o db Hinv ltac:(done)).
  destruct (sqlite_run_contract o db Hok Hview) as [Hc _]; [done|].
  destruct (sqlite_run_matches o db Hok Hview) as (Hr & Hm & _ & Hclock); [done|].
  cbn [sqlite_run_all clocked_run_all]. unfold database_unexpired in *.
  destruct (sqlite_run o db) as [r db1], (clocked_run _ o (memory_of db)) as [r' s1]. simpl in *. subst.
  specialize (IH db1 Hinv' ltac:(done)). rewrite Hclock in IH.
  destruct (sqlite_run_all os db1) as [es db2], (clocked_run_all os _ _) as [es' s2].
  simpl in *. destruct IH as (-> & -> & ? & ?). split_and!; try done. by econstructor.
Qed.

(** ** The interface *)

(** The store as an [ActionStore], for clients whose proposals hold documents:
    another operation is not performed. *)
Record SqliteSystem := mkSystem { system_db : Database; system_inv : db_inv system_db }.

Definition system_run (o : store_op) (s : SqliteSystem) : res (store_resp o) * SqliteSystem :=
  match Bool.bool_dec (storable o) true with
  | left Hs =>
      ((sqlite_run o (system_db s)).1,
       mkSystem (sqlite_run o (system_db s)).2 (sqlite_run_inv o (system_db s) (system_inv s) Hs))
  | right _ => (fail (OtherException "PydanticSerializationError"), s)
  end.

Lemma system_run_contract o s :
  contract (sqlite_view (system_db s)) o (system_run o s).1 (sqlite_view (system_db (system_run o s).2)).
Proof.
  unfold system_run. destruct (Bool.bool_dec (storable o) true) as [Hs|Hs]; simpl.
  - destruct s as [db [Hok Hview ?]]. by apply sqlite_run_contract.
  - destruct o; done.
Qed.

Definition sqlite_action_store (clock : list bool) : ActionStore SqliteSystem := {|
  store_empty := mkSystem (fresh_database clock) (fresh_inv clock);
  store_run := system_run;
  store_view s := sqlite_view (system_db s);
  store_empty_view := fresh_view clock;
  store_contract := system_run_contract
|}.

(** * Properties *)

(** C26: the SQLite store answers as the in-memory store does, in every history
    and for every clock of the database, but for the validation of what it is
    handed and the clock it asks at admissions; and what it holds is what the
    in-memory store would hold.  Supposed of the records handed over ([storable]):
    the preview and the safe result are JSON documents (Pydantic writes [null]
    for an infinite number, so that other records are read back changed). *)
Theorem sqlite_is_clocked_memory (os : list store_op) (clock : list bool)
  (Hs : forallb storable os = true) :
  let run := sqlite_run_all os (fresh_database clock) in
  let expected := clocked_run_all os clock memory_init in
  run.1 = expected.1 ∧ sqlite_view run.2 = memory_view expected.2.
Proof.
  intros run expected. destruct (sqlite_history os (fresh_database clock) (fresh_inv clock) Hs)
    as (Hr & Hm & _).
  assert (memory_of (fresh_database clock) = memory_init) as Hinit
    by (unfold memory_of; by rewrite fresh_view).
  rewrite Hinit in Hr, Hm. split; [exact Hr|exact (f_equal memory_view Hm)].
Qed.

(** Every history of the SQLite store is a history of the persistence
    contract, and leaves it well-formed. *)
Theorem sqlite_store_refines_contract (os : list store_op) (clock : list bool)
  (Hs : forallb storable os = true) :
  let run := sqlite_run_all os (fresh_database clock) in
  contract_trace empty_view run.1 (sqlite_view run.2) ∧ view_ok (sqlite_view run.2).
Proof.
  intros run. destruct (sqlite_history os (fresh_database clock) (fresh_inv clock) Hs)
    as (_ & _ & [_ Hview _] & Ht). by rewrite fresh_view in Ht.
Qed.

(** What the store writes satisfies the schema and can be read back: each
    row passes its CHECK constraints and loads as a valid proposal at its key,
    and each claim names the row of a proposal of its effect. *)
Theorem sqlite_integrity (os : list store_op) (clock : list bool)
  (Hs : forallb storable os = true) :
  let db := (sqlite_run_all os (fresh_database clock)).2 in
  (∀ key row, db_proposals db !! key = Some row → row_checks key row = true ∧
     ∃ p, load_row key row = Ok p ∧ proposal_key p = key ∧ stored_proposal_valid p = true) ∧
  (∀ key claim, db_effect_claims db !! key = Some claim → foreign_key db key claim = true).
Proof.
  intros db. destruct (sqlite_history os (fresh_database clock) (fresh_inv clock) Hs)
    as (_ & _ & [Hok _ Hown] & _). fold db in Hok, Hown. split.
  - intros key row Hrow. destruct (Hok key row Hrow) as (p & -> & -> & Hv & Hj).
    split; [by apply proposal_row_checks|]. exists p. by rewrite proposal_row_load.
  - intros key claim Hc.
    destruct (Hown key (row_proposal_reference claim)) as (p & Hp & <-);
      [simpl; by rewrite lookup_fmap, Hc|].
    destruct (db_ok_lookup _ _ _ Hok Hp) as (Hrow & _). unfold foreign_key. rewrite Hrow.
    by rewrite !bool_decide_eq_true_2.
Qed.

(** The trigger of the schema lets a row replace another exactly when the
    immutable columns agree, the revision advances by one, and the status stays
    or moves along [ALLOWED_LIFECYCLE_TRANSITIONS]. *)
Theorem trigger_enforces_lifecycle (current updated : StoredProposal) :
  enforce_proposal_update (proposal_row current) (proposal_row updated) = true ↔
  sp_action_type updated = sp_action_type current ∧
  sp_semantic_effect_reference updated = sp_semantic_effect_reference current ∧
  sp_effect_kind updated = sp_effect_kind current ∧
  isoformat (sp_created_at updated) = isoformat (sp_created_at current) ∧
  sp_revision updated = (sp_revision current + 1)%Z ∧
  (sp_lifecycle_status updated = sp_lifecycle_status current ∨
   sp_lifecycle_status updated ∈ ALLOWED_LIFECYCLE_TRANSITIONS (sp_lifecycle_status current)).
Proof.
  unfold enforce_proposal_update. cbn -[existsb trigger_transitions Z.eqb Z.add].
  rewrite !andb_true_iff, orb_true_iff, trigger_status, !bool_decide_eq_true, Z.eqb_eq. split.
  - intros [[[=] ?] Hs]. split_and!; try done.
    + by apply _action_key_inj; unfold _action_key; congruence.
    + destruct Hs as [?%lifecycle_value_inj|?]; auto.
  - intros (-> & -> & -> & -> & -> & Hs). split_and!; try done.
    destruct Hs as [->|?]; auto.
Qed.

End Sqlite.
