(* ===== verification/ProposalEncoding.v ===== *)
(** An injective text for stored proposals: a concrete [SqliteCodec], on which
    statements about stores that keep text are evaluated.  It stands for no
    code of the package. *)

From stdpp Require Import countable finite.
From S2P Require Import Prelude Models Canonical Authority Receipts StoreBase StoredValidity.
From S2P Require Import StoreContract MemoryStore SqliteStore.

(** * Enumerations *)

Ltac enumeration_of l :=
  refine {| enum := l |};
  [apply (bool_decide_unpack _); vm_compute; exact I
  |let x := fresh in intros x; apply list_elem_of_In; destruct x; vm_compute; tauto].

#[local] Instance EffectKind_finite : Finite EffectKind.
Proof. enumeration_of [single; itemized]. Defined.
#[local] Instance LifecycleStatus_finite : Finite LifecycleStatus.
Proof. enumeration_of lifecycle_statuses. Defined.
#[local] Instance AuthorityDecision_finite : Finite AuthorityDecision.
Proof. enumeration_of [APPROVE; REJECT]. Defined.
#[local] Instance ProposalReceiptStatus_finite : Finite ProposalReceiptStatus.
Proof. enumeration_of [PR_PREPARED; PR_FAILED; PR_MISSING]. Defined.
#[local] Instance AuthorityReceiptStatus_finite : Finite AuthorityReceiptStatus.
Proof. enumeration_of [AR_RECORDED; AR_REJECTED; AR_FAILED; AR_MISSING]. Defined.
#[local] Instance ExecutionReceiptStatus_finite : Finite ExecutionReceiptStatus.
Proof.
  enumeration_of [ER_STARTED; ER_ACCEPTED; ER_PARTIALLY_SUCCEEDED; ER_STALE_NO_EFFECT;
                  ER_FAILED_KNOWN; ER_FAILED_UNKNOWN; ER_MISSING].
Defined.
#[local] Instance VerificationReceiptStatus_finite : Finite VerificationReceiptStatus.
Proof.
  enumeration_of [VR_VERIFIED_COMPLETION; VR_VERIFIED_TERMINAL_FAILURE; VR_PROVISIONAL_ABSENCE;
                  VR_AUTHORITATIVE_FINAL_ABSENCE; VR_TARGET_UNAVAILABLE;
                  VR_VERIFICATION_UNRESOLVED; VR_MISSING].
Defined.
#[local] Instance RecoveryReceiptStatus_finite : Finite RecoveryReceiptStatus.
Proof. enumeration_of [RR_VERIFICATION_RESUMED]. Defined.
#[local] Instance ItemOutcomeStatus_finite : Finite ItemOutcomeStatus.
Proof. enumeration_of [IO_SUCCEEDED; IO_FAILED_KNOWN; IO_FAILED_UNKNOWN]. Defined.

(** * Records, as tuples of their fields *)

#[local] Instance RequestingPrincipal_countable : Countable RequestingPrincipal.
Proof. refine (inj_countable' rp_reference mkRequestingPrincipal _). by intros []. Defined.
#[local] Instance ProposingAgent_countable : Countable ProposingAgent.
Proof. refine (inj_countable' pa_reference mkProposingAgent _). by intros []. Defined.
#[local] Instance ConfirmingAuthority_countable : Countable ConfirmingAuthority.
Proof. refine (inj_countable' ca_reference mkConfirmingAuthority _). by intros []. Defined.
#[local] Instance GovernedExecutor_countable : Countable GovernedExecutor.
Proof. refine (inj_countable' ge_reference mkGovernedExecutor _). by intros []. Defined.
#[local] Instance AuthoritativeTarget_countable : Countable AuthoritativeTarget.
Proof. refine (inj_countable' tg_reference mkAuthoritativeTarget _). by intros []. Defined.
#[local] Instance RecoveryOperator_countable : Countable RecoveryOperator.
Proof. refine (inj_countable' ro_reference mkRecoveryOperator _). by intros []. Defined.

#[local] Instance ActionType_countable : Countable ActionType.
Proof.
  refine (inj_countable' (λ a, (at_namespace a, at_name a, at_version a))
    (λ '(a, b, c), mkActionType a b c) _). by intros [].
Defined.

#[local] Instance KeyedCommitment_countable : Countable KeyedCommitment.
Proof.
  refine (inj_countable' (λ k, (kc_algorithm k, kc_key_handle k, kc_key_version k, kc_digest k))
    (λ '(a, b, c, d), mkKeyedCommitment a b c d) _). by intros [].
Defined.

#[local] Instance ProtectedPayload_countable : Countable ProtectedPayload.
Proof.
  refine (inj_countable' (λ p, (pp_codec p, pp_key_handle p, pp_key_version p, pp_ciphertext p))
    (λ '(a, b, c, d), mkProtectedPayload a b c d) _). by intros [].
Defined.

#[local] Instance ExternalReference_countable : Countable ExternalReference.
Proof.
  refine (inj_countable' (λ r, (er_system r, er_reference r))
    (λ '(a, b), mkExternalReference a b) _). by intros [].
Defined.

#[local] Instance ItemOutcome_countable : Countable ItemOutcome.
Proof.
  refine (inj_countable' (λ o, (io_item_reference o, io_status o, io_reason_code o))
    (λ '(a, b, c), mkItemOutcome a b c) _). by intros [].
Defined.

#[local] Instance ExternalAuthorityAttestation_countable : Countable ExternalAuthorityAttestation.
Proof.
  refine (inj_countable' (λ a, (ea_format a, ea_issuer_reference a, ea_artifact_reference a,
                                ea_artifact_digest a))
    (λ '(a, b, c, d), mkExternalAuthorityAttestation a b c d) _). by intros [].
Defined.

#[local] Instance AuthorityEvidence_countable : Countable AuthorityEvidence.
Proof.
  refine (inj_countable' (λ e, (ae_tenant_reference e, ae_action_type e,
      ae_proposal_instance_reference e, ae_semantic_effect_reference e, ae_authority e,
      ae_audience e, ae_decision e, ae_proposal_commitment e, ae_channel_assurance e,
      ae_issued_at e, ae_expires_at e, ae_external_attestation e))
    (λ '(a, b, c, d, e, f, g, h, i, j, k, l), mkAuthorityEvidence a b c d e f g h i j k l) _).
  by intros [].
Defined.

#[local] Instance ReceiptBase_countable : Countable ReceiptBase.
Proof.
  refine (inj_countable' (λ b, (rb_schema_version b, rb_receipt_reference b,
      rb_correlation_reference b, rb_causation_reference b, rb_observed_at b,
      rb_runtime_revision b, rb_external_reference b, rb_corrects_receipt_reference b,
      rb_supersedes_receipt_reference b, rb_reason_code b))
    (λ '(a, b, c, d, e, f, g, h, i, j), mkReceiptBase a b c d e f g h i j) _). by intros [].
Defined.

#[local] Instance Receipt_countable : Countable Receipt.
Proof.
  refine (inj_countable'
    (λ r, match r with
          | ProposalReceipt b s p a => inl (b, s, p, a)
          | AuthorityReceipt b s p => inr (inl (b, s, p))
          | ExecutionReceipt b s p o => inr (inr (inl (b, s, p, o)))
          | VerificationReceipt b s p o => inr (inr (inr (inl (b, s, p, o))))
          | RecoveryReceipt b s p => inr (inr (inr (inr (b, s, p))))
          end)
    (λ x, match x with
          | inl (b, s, p, a) => ProposalReceipt b s p a
          | inr (inl (b, s, p)) => AuthorityReceipt b s p
          | inr (inr (inl (b, s, p, o))) => ExecutionReceipt b s p o
          | inr (inr (inr (inl (b, s, p, o)))) => VerificationReceipt b s p o
          | inr (inr (inr (inr (b, s, p)))) => RecoveryReceipt b s p
          end) _). by intros [].
Defined.

(** * Documents, as trees *)

#[local] Instance pyfloat_countable : Countable pyfloat.
Proof.
  refine (inj_countable'
    (λ f, match f with
          | finite_float m e => inl (m, e)
          | infinite_float n => inr (Some n)
          | nan_float => inr None
          end)
    (λ x, match x with
          | inl (m, e) => finite_float m e
          | inr (Some n) => infinite_float n
          | inr None => nan_float
          end) _). by intros [].
Defined.

Abbreviation json_leaf := (unit + bool + Z + pyfloat + pystr)%type.

Fixpoint json_tree (v : json) : gen_tree json_leaf :=
  match v with
  | JNull => GenLeaf (inl (inl (inl (inl tt))))
  | JBool b => GenLeaf (inl (inl (inl (inr b))))
  | JInt z => GenLeaf (inl (inl (inr z)))
  | JFloat f => GenLeaf (inl (inr f))
  | JStr s => GenLeaf (inr s)
  | JList l => GenNode 0 (json_tree <$> l)
  | JObj o => GenNode 1 ((λ '(k, x), GenNode 2 [GenLeaf (inr k); json_tree x]) <$> o)
  end.

Fixpoint tree_json (t : gen_tree json_leaf) : json :=
  match t with
  | GenLeaf (inl (inl (inl (inl _)))) => JNull
  | GenLeaf (inl (inl (inl (inr b)))) => JBool b
  | GenLeaf (inl (inl (inr z))) => JInt z
  | GenLeaf (inl (inr f)) => JFloat f
  | GenLeaf (inr s) => JStr s
  | GenNode 0 l => JList (tree_json <$> l)
  | GenNode _ o =>
      JObj ((λ t, match t with
                  | GenNode 2 [GenLeaf (inr k); x] => (k, tree_json x)
                  | _ => (PyStr [], JNull)
                  end) <$> o)
  end.

Lemma tree_json_tree v : tree_json (json_tree v) = v.
Proof.
  induction v as [| | | | |l IH|o IH] using json_ind'; simpl; try done.
  - f_equal. trans (id <$> l); [|apply list_fmap_id].
    rewrite <-list_fmap_compose. by apply Forall_fmap_ext_1.
  - f_equal. trans (id <$> o); [|apply list_fmap_id].
    rewrite <-list_fmap_compose. apply Forall_fmap_ext_1.
    revert IH. apply Forall_impl. intros [k x]. simpl. by intros ->.
Qed.

#[local] Instance json_countable : Countable json := inj_countable' json_tree tree_json tree_json_tree.

#[local] Instance StoredProposal_countable : Countable StoredProposal.
Proof.
  refine (inj_countable' (λ p, (sp_tenant_reference p, sp_proposal_reference p, sp_action_type p,
      sp_semantic_effect_reference p, sp_effect_kind p, sp_lifecycle_status p, sp_revision p,
      sp_protected_private_snapshot p, sp_commitment p, sp_display_preview p,
      sp_requesting_principal p, sp_proposing_agent p, sp_created_at p, sp_expires_at p,
      sp_authority_evidence p, sp_receipts p, sp_verification_attempts p,
      sp_max_verification_attempts p, sp_next_verification_at p, sp_safe_result p,
      sp_execution_precondition p, sp_superseded_by p, sp_erasure_pending_at p, sp_erased_at p))
    (λ '(a, b, c, d, e, f, g, h, i, j, k, l, m, n, o, p, q, r, s, t, u, v, w, x),
      mkStoredProposal a b c d e f g h i j k l m n o p q r s t u v w x) _). by intros [].
Defined.

(** * Text *)

(** A positive number as the digits of its binary form, lowest first, and
    ["."]. *)
Fixpoint digits (p : positive) : list N :=
  match p with xH => [46] | xO p => 48 :: digits p | xI p => 49 :: digits p end%N.

Fixpoint of_digits (l : list N) : positive :=
  match l with
  | c :: l' => if (c =? 48)%N then xO (of_digits l') else if (c =? 49)%N then xI (of_digits l') else xH
  | [] => xH
  end.

Lemma of_digits_digits p : of_digits (digits p) = p.
Proof. induction p as [p IH|p IH|]; simpl; congruence. Qed.

Definition text_of {A} `{Countable A} (x : A) : pystr := PyStr (digits (encode x)).
Definition of_text {A} `{Countable A} (s : pystr) : option A := decode (of_digits (code_points s)).

Lemma of_text_of {A} `{Countable A} (x : A) : of_text (text_of x) = Some x.
Proof. unfold of_text, text_of. simpl. by rewrite of_digits_digits, decode_encode. Qed.

Definition binary_codec `{U : Unicode} : SqliteCodec := {|
  proposal_json := text_of;
  proposal_of_json := of_text;
  isoformat := text_of;
  validate_dumped p _ _ := of_text_of p
|}.

(** * A concrete history of the SQLite store *)

Section SqliteHistory.
#[local] Existing Instance ascii_unicode.
#[local] Existing Instance binary_codec.

#[local] Definition stored (reference : pystr) (revision : Z) (s : LifecycleStatus) : StoredProposal :=
  mkStoredProposal "t" reference (mkActionType "a.b" "c" 1) "effect" single s revision None None
    [("amount"%py, JInt 5)] None None 0 1000 [] [] 0 3 None None None None None None.

#[local] Definition authorize (reference : pystr) : list store_op :=
  [Create (stored reference 0 AWAITING_AUTHORITY);
   CompareAndSet "t" reference 0 [AWAITING_AUTHORITY] (stored reference 1 AUTHORIZED)].

#[local] Definition start (reference : pystr) : store_op :=
  AdmitExecution "t" reference 1 5 (stored reference 2 EXECUTING).

(** Two proposals of one effect: the clock of the database refuses the first
    admission, then one proposal gets the claim and the other does not. *)
#[local] Definition racing_history : list store_op :=
  authorize "p" ++ authorize "q" ++ [start "p"; start "p"; start "q";
    Create (stored "p" 0 AWAITING_AUTHORITY); Create (stored " p" 0 AWAITING_AUTHORITY)].

Lemma sqlite_is_clocked_memory_witness :
  forallb storable racing_history = true ∧
  drop 4 (sqlite_run_all racing_history (fresh_database [false; true; true])).1 =
  [StoreEvent (start "p") (Ok PROPOSAL_NOT_AUTHORIZED); StoreEvent (start "p") (Ok ACQUIRED);
   StoreEvent (start "q") (Ok CONFLICT);
   StoreEvent (Create (stored "p" 0 AWAITING_AUTHORITY))
     (fail (ProposalAlreadyExistsError "proposal already exists"));
   StoreEvent (Create (stored " p" 0 AWAITING_AUTHORITY)) (fail ValidationError)].
Proof.
  split; [vm_compute; reflexivity|].
  assert (H := proj1 (sqlite_is_clocked_memory racing_history [false; true; true] eq_refl)).
  rewrite H. vm_compute. reflexivity.
Defined.

Lemma sqlite_store_refines_contract_witness :
  forallb storable racing_history = true ∧
  contract_trace empty_view (sqlite_run_all racing_history (fresh_database [true])).1
    (sqlite_view (sqlite_run_all racing_history (fresh_database [true])).2).
Proof.
  split; [vm_compute; reflexivity|].
  exact (proj1 (sqlite_store_refines_contract racing_history [true] eq_refl)).
Defined.

Lemma sqlite_integrity_witness :
  forallb storable racing_history = true ∧ ∀ key claim,
  db_effect_claims (sqlite_run_all racing_history (fresh_database [true])).2 !! key = Some claim →
  foreign_key (sqlite_run_all racing_history (fresh_database [true])).2 key claim = true.
Proof.
  split; [vm_compute; reflexivity|].
  exact (proj2 (sqlite_integrity racing_history [true] eq_refl)).
Defined.

End SqliteHistory.
