(* ===== verification/PostgresStore.v ===== *)
(** The PostgreSQL store ([stores/postgres.py]) with the schema, functions and
    trigger its statements run against ([_migrations/postgres]).

    A proposal is kept in three tables: its parent row, its authority evidence
    and its receipts, the last two one row an element.  A method is one
    transaction on the tables: the parent row is locked by the first statement
    and the claim by an advisory lock, so two calls that meet on a row or on a
    claim run one after the other.  A transaction that raises leaves the tables
    as they were.  The runtime's role is not the owner of the tables, as
    [docs/postgres.md] asks; the functions of the retention store run as the
    owner.

    Parameters ([PostgresServer]): which JSON texts the server takes, and what
    [jsonb] gives back for the two free-form members: it keeps no order of
    members, but the value of a document whose numbers it writes as they were
    ([jsonb_exact]).  The other members are written and read as the values they
    denote, and instants are compared by value.  [pg_clock] holds the readings of
    [clock_timestamp()].  Connections, pools and advisory locks are left out. *)

From S2P Require Import Prelude Models Canonical Authority Receipts Registry StoreBase StoredValidity.
From S2P Require Import StoreContract Documents.

(** * The tables *)

(** The members of [proposal_data]. *)
Record ParentData := mkParentData {
  pd_protected_private_snapshot : option ProtectedPayload;
  pd_commitment : option KeyedCommitment;
  pd_display_preview : JsonObject;
  pd_requesting_principal : option RequestingPrincipal;
  pd_proposing_agent : option ProposingAgent;
  pd_verification_attempts : Z;
  pd_max_verification_attempts : Z;
  pd_safe_result : option JsonObject;
  pd_execution_precondition : option pystr;
  pd_superseded_by : option pystr;
  pd_erasure_pending_at : option datetime;
  pd_erased_at : option datetime
}.

(** A row of [proposals]; its CHECK constraint makes [lifecycle_status] the
    enumeration. *)
Record ParentRow := mkParentRow {
  pr_action_key : ActionKey;
  pr_semantic_effect_reference : pystr;
  pr_effect_kind : EffectKind;
  pr_lifecycle_status : LifecycleStatus;
  pr_revision : Z;
  pr_commitment_digest : option pystr;
  pr_created_at : datetime;
  pr_expires_at : datetime;
  pr_status_changed_at : datetime;
  pr_next_verification_at : option datetime;
  pr_proposal_data : ParentData
}.

Record EvidenceRow := mkEvidenceRow {
  er_key : ProposalKey;
  er_sequence : Z;
  er_action_key : ActionKey;
  er_semantic_effect_reference : pystr;
  er_commitment_digest : pystr;
  er_evidence_data : AuthorityEvidence
}.

Record ReceiptRow := mkReceiptRow {
  rr_key : ProposalKey;
  rr_sequence : Z;
  rr_receipt_reference : pystr;
  rr_receipt_data : Receipt
}.

Record PgClaimRow := mkPgClaimRow { cl_proposal_reference : pystr; cl_admitted_at : datetime }.

Record PgDatabase := mkPgDatabase {
  pg_proposals : gmap ProposalKey ParentRow;
  pg_evidence : list EvidenceRow;
  pg_receipts : list ReceiptRow;
  pg_effect_claims : gmap ClaimKey PgClaimRow;
  pg_clock : nat → datetime;
  pg_readings : nat
}.

Definition pg_tables (db : PgDatabase) :=
  (pg_proposals db, pg_evidence db, pg_receipts db, pg_effect_claims db).

Definition set_pg_proposals m db :=
  mkPgDatabase m (pg_evidence db) (pg_receipts db) (pg_effect_claims db) (pg_clock db) (pg_readings db).
Definition set_pg_evidence l db :=
  mkPgDatabase (pg_proposals db) l (pg_receipts db) (pg_effect_claims db) (pg_clock db) (pg_readings db).
Definition set_pg_receipts l db :=
  mkPgDatabase (pg_proposals db) (pg_evidence db) l (pg_effect_claims db) (pg_clock db) (pg_readings db).
Definition set_pg_claims m db :=
  mkPgDatabase (pg_proposals db) (pg_evidence db) (pg_receipts db) m (pg_clock db) (pg_readings db).

(** The floating-point numbers [jsonb] keeps: [numeric] holds the decimal digits
    of the text exactly, and prints them without an exponent, so that a float
    whose text has a positive exponent comes back as an integer; those below
    [2 ^ 53] have none. *)
Fixpoint jsonb_exact (v : json) : bool :=
  match v with
  | JFloat (finite_float mantissa exponent) => (exponent <=? 0)%Z && (Z.abs mantissa <? 2 ^ 53)%Z
  | JFloat _ => false
  | JList l => forallb jsonb_exact l
  | JObj o => forallb (λ '(_, x), jsonb_exact x) o
  | _ => true
  end.

Definition jsonb_document (p : StoredProposal) : bool :=
  json_fields p && jsonb_exact (JObj (sp_display_preview p))
  && optional (λ o, jsonb_exact (JObj o)) (sp_safe_result p).

(** [jsonb] orders the members of an object as it likes. *)
Class PostgresServer := {
  jsonb_accepts : ParentData → bool;
  jsonb_object : JsonObject → JsonObject;
  jsonb_object_kept o : json_document (JObj o) = true → jsonb_exact (JObj o) = true →
    by_name_object (jsonb_object o) = by_name_object o
}.

(** * Transactions *)

Definition txn (A : Type) : Type := PgDatabase → res A * PgDatabase.

#[export] Instance txn_ret : MRet txn := λ A a db, (Ok a, db).
#[export] Instance txn_bind : MBind txn := λ A B f m db,
  match m db with (Ok a, db') => f a db' | (Err e, db') => (Err e, db') end.

Definition raise {A} (k : exn_kind) : txn A := λ db, (fail k, db).
Definition lift {A} (r : res A) : txn A := λ db, (r, db).
Definition read {A} (f : PgDatabase → A) : txn A := λ db, (Ok (f db), db).
Definition write (f : PgDatabase → PgDatabase) : txn unit := λ db, (Ok tt, f db).
Definition require (b : bool) (k : exn_kind) : txn unit := if b then mret tt else raise k.

Definition clock_timestamp : txn datetime := λ db,
  (Ok (pg_clock db (pg_readings db)),
   mkPgDatabase (pg_proposals db) (pg_evidence db) (pg_receipts db) (pg_effect_claims db)
     (pg_clock db) (S (pg_readings db))).

(** The end of a transaction: after an exception only the clock has moved. *)
Definition commit {A} (m : txn A) : txn A := λ db,
  match m db with
  | (Ok a, db') => (Ok a, db')
  | (Err e, db') =>
      (Err e, mkPgDatabase (pg_proposals db) (pg_evidence db) (pg_receipts db) (pg_effect_claims db)
                (pg_clock db) (pg_readings db'))
  end.

Abbreviation UniqueViolation := (OtherException "UniqueViolationError").
Abbreviation CheckViolation := (OtherException "CheckViolationError").
Abbreviation ForeignKeyViolation := (OtherException "ForeignKeyViolationError").
Abbreviation InsufficientPrivilege := (OtherException "InsufficientPrivilegeError").
Abbreviation DataError := (OtherException "DataError").
Abbreviation StoredDataCorruption := (OtherException "StoredDataCorruptionError").

(** The ranges of [integer] and [bigint]. *)
Definition pg_integer (z : Z) : bool := (-2147483648 <=? z)%Z && (z <=? 2147483647)%Z.
Definition pg_bigint (z : Z) : bool :=
  (-9223372036854775808 <=? z)%Z && (z <=? 9223372036854775807)%Z.

Section Postgres.
Context `{U : Unicode, V : PostgresServer}.

(** * Rows and proposals *)

Definition _parent_data (p : StoredProposal) : ParentData :=
  mkParentData (sp_protected_private_snapshot p) (sp_commitment p) (sp_display_preview p)
    (sp_requesting_principal p) (sp_proposing_agent p) (sp_verification_attempts p)
    (sp_max_verification_attempts p) (sp_safe_result p) (sp_execution_precondition p)
    (sp_superseded_by p) (sp_erasure_pending_at p) (sp_erased_at p).

(** [convert_from(..., 'UTF8')::jsonb]; a document in the column is the dictionary
    that is read from it, written by name. *)
Definition to_jsonb (d : ParentData) : txn ParentData :=
  _ ← require (jsonb_accepts d) DataError;
  mret (mkParentData (pd_protected_private_snapshot d) (pd_commitment d)
          (by_name_object (jsonb_object (pd_display_preview d))) (pd_requesting_principal d) (pd_proposing_agent d)
          (pd_verification_attempts d) (pd_max_verification_attempts d)
          (by_name_object ∘ jsonb_object <$> pd_safe_result d) (pd_execution_precondition d) (pd_superseded_by d)
          (pd_erasure_pending_at d) (pd_erased_at d)).

Definition _commitment_digest (p : StoredProposal) : option pystr := kc_digest <$> sp_commitment p.

(** The document [_load] puts together from the three tables. *)
Definition assemble (key : ProposalKey) (row : ParentRow) (evidence : list AuthorityEvidence)
  (receipts : list Receipt) : StoredProposal :=
  let d := pr_proposal_data row in
  mkStoredProposal key.1 key.2
    (mkActionType (pr_action_key row).1.1 (pr_action_key row).1.2 (pr_action_key row).2)
    (pr_semantic_effect_reference row) (pr_effect_kind row) (pr_lifecycle_status row)
    (pr_revision row) (pd_protected_private_snapshot d) (pd_commitment d) (pd_display_preview d)
    (pd_requesting_principal d) (pd_proposing_agent d) (pr_created_at row) (pr_expires_at row)
    evidence receipts (pd_verification_attempts d) (pd_max_verification_attempts d)
    (pr_next_verification_at row) (pd_safe_result d) (pd_execution_precondition d)
    (pd_superseded_by d) (pd_erasure_pending_at d) (pd_erased_at d).

(** [ORDER BY], for an order of the rows. *)
Fixpoint insert_by {A} (leb : A → A → bool) (x : A) (l : list A) : list A :=
  match l with
  | [] => [x]
  | y :: l' => if leb x y then x :: l else y :: insert_by leb x l'
  end.

Definition order_by {A} (leb : A → A → bool) (l : list A) : list A := foldr (insert_by leb) [] l.

Definition by_sequence {A} (column : A → Z) (x y : A) : bool := (column x <=? column y)%Z.

Definition rows_of {A} (key_of : A → ProposalKey) (key : ProposalKey) (l : list A) : list A :=
  List.filter (λ r, bool_decide (key_of r = key)) l.

Definition select_evidence (key : ProposalKey) (db : PgDatabase) : list AuthorityEvidence :=
  er_evidence_data <$> order_by (by_sequence er_sequence) (rows_of er_key key (pg_evidence db)).

Definition select_receipts (key : ProposalKey) (db : PgDatabase) : list Receipt :=
  rr_receipt_data <$> order_by (by_sequence rr_sequence) (rows_of rr_key key (pg_receipts db)).

Definition load_pg (key : ProposalKey) (db : PgDatabase) : res (option StoredProposal) :=
  match pg_proposals db !! key with
  | None => Ok None
  | Some row =>
      let p := assemble key row (select_evidence key db) (select_receipts key db) in
      if stored_proposal_valid p then Ok (Some p) else fail StoredDataCorruption
  end.

Definition _load (tenant_reference proposal_reference : pystr) : txn (option StoredProposal) :=
  λ db, (load_pg (tenant_reference, proposal_reference) db, db).

(** * Writing children *)

Definition evidence_row (p : StoredProposal) (digest : pystr) (sequence : Z) (e : AuthorityEvidence)
  : EvidenceRow :=
  mkEvidenceRow (proposal_key p) sequence (_action_key (sp_action_type p))
    (sp_semantic_effect_reference p) digest e.

Definition receipt_row (p : StoredProposal) (sequence : Z) (r : Receipt) : ReceiptRow :=
  mkReceiptRow (proposal_key p) sequence (rb_receipt_reference (receipt_base r)) r.

(** The CHECK constraints of [authority_evidence]. *)
Definition evidence_checks (r : EvidenceRow) : bool :=
  let e := er_evidence_data r in
  (0 <=? er_sequence r)%Z
  && bool_decide (ae_tenant_reference e = (er_key r).1)
  && bool_decide (ae_proposal_instance_reference e = (er_key r).2)
  && bool_decide (_action_key (ae_action_type e) = er_action_key r)
  && bool_decide (ae_semantic_effect_reference e = er_semantic_effect_reference r)
  && bool_decide (ae_proposal_commitment e = er_commitment_digest r).

(** Its foreign key, on the seven columns it shares with [proposals]. *)
Definition evidence_parent (r : EvidenceRow) (db : PgDatabase) : bool :=
  match pg_proposals db !! er_key r with
  | None => false
  | Some row =>
      bool_decide (pr_action_key row = er_action_key r)
      && bool_decide (pr_semantic_effect_reference row = er_semantic_effect_reference r)
      && bool_decide (pr_commitment_digest row = Some (er_commitment_digest r))
  end.

Definition insert_evidence (r : EvidenceRow) : txn unit :=
  db ← read id;
  _ ← require (evidence_checks r) CheckViolation;
  _ ← require (negb (existsb (λ x, bool_decide (er_key x = er_key r)
                                   && (er_sequence x =? er_sequence r)%Z) (pg_evidence db)))
        UniqueViolation;
  _ ← require (evidence_parent r db) ForeignKeyViolation;
  write (set_pg_evidence (pg_evidence db ++ [r])).

Definition receipt_checks (r : ReceiptRow) : bool :=
  let base := receipt_base (rr_receipt_data r) in
  (0 <=? rr_sequence r)%Z
  && bool_decide (rb_receipt_reference base = rr_receipt_reference r)
  && bool_decide (rb_correlation_reference base = (rr_key r).2).

(** A receipt is unique by its sequence and by its reference. *)
Definition receipt_conflict (r x : ReceiptRow) : bool :=
  bool_decide (rr_key x = rr_key r)
  && ((rr_sequence x =? rr_sequence r)%Z
      || bool_decide (rr_receipt_reference x = rr_receipt_reference r)).

Definition insert_receipt (r : ReceiptRow) : txn unit :=
  db ← read id;
  _ ← require (receipt_checks r) CheckViolation;
  _ ← require (negb (existsb (receipt_conflict r) (pg_receipts db))) UniqueViolation;
  _ ← require (bool_decide (is_Some (pg_proposals db !! rr_key r))) ForeignKeyViolation;
  write (set_pg_receipts (pg_receipts db ++ [r])).

(** [executemany] over the elements with their sequence numbers. *)
Fixpoint executemany {A} (f : Z → A → txn unit) (start : Z) (l : list A) : txn unit :=
  match l with
  | [] => mret tt
  | x :: l' => _ ← f start x; executemany f (start + 1)%Z l'
  end.

Definition _insert_children (current : option StoredProposal) (updated : StoredProposal) : txn unit :=
  let evidence_offset := default 0 (length ∘ sp_authority_evidence <$> current) in
  let receipt_offset := default 0 (length ∘ sp_receipts <$> current) in
  _ ← match drop evidence_offset (sp_authority_evidence updated), sp_commitment updated with
      | [], _ => mret tt
      | _, None => raise (StoreInvariantError "authority evidence requires a proposal commitment")
      | new_evidence, Some commitment =>
          executemany (λ n e, insert_evidence (evidence_row updated (kc_digest commitment) n e))
            (Z.of_nat evidence_offset) new_evidence
      end;
  executemany (λ n r, insert_receipt (receipt_row updated n r)) (Z.of_nat receipt_offset)
    (drop receipt_offset (sp_receipts updated)).

(** * Writing the parent *)

Definition proposal_checks (row : ParentRow) : bool :=
  (0 <? (pr_action_key row).2)%Z && (0 <=? pr_revision row)%Z
  && (pr_created_at row <? pr_expires_at row)%Z.

Definition insert_parent (proposal : StoredProposal) : txn unit :=
  _ ← require (pg_integer (at_version (sp_action_type proposal)) && pg_bigint (sp_revision proposal))
        DataError;
  data ← to_jsonb (_parent_data proposal);
  db ← read id;
  let row := mkParentRow (_action_key (sp_action_type proposal))
    (sp_semantic_effect_reference proposal) (sp_effect_kind proposal)
    (sp_lifecycle_status proposal) (sp_revision proposal) (_commitment_digest proposal)
    (sp_created_at proposal) (sp_expires_at proposal) (sp_created_at proposal)
    (sp_next_verification_at proposal) data in
  _ ← require (proposal_checks row) CheckViolation;
  _ ← require (bool_decide (pg_proposals db !! proposal_key proposal = None)) UniqueViolation;
  write (set_pg_proposals (<[proposal_key proposal := row]> (pg_proposals db))).

(** The members only the owner of the table may change. *)
Definition protected_members (row : ParentRow) :=
  (pr_commitment_digest row, pd_protected_private_snapshot (pr_proposal_data row),
   pd_commitment (pr_proposal_data row), pd_erasure_pending_at (pr_proposal_data row),
   pd_erased_at (pr_proposal_data row)).

Definition enforce_proposal_update (as_owner : bool) (old new : ParentRow) : txn unit :=
  _ ← require (as_owner || bool_decide (protected_members new = protected_members old))
        InsufficientPrivilege;
  _ ← require (bool_decide
        ((pr_action_key new, pr_semantic_effect_reference new, pr_effect_kind new, pr_created_at new)
         = (pr_action_key old, pr_semantic_effect_reference old, pr_effect_kind old, pr_created_at old))
      && (pr_revision new =? pr_revision old + 1)%Z
      && (bool_decide (pr_lifecycle_status new = pr_lifecycle_status old)
          || bool_decide (pr_lifecycle_status new
                          ∈ ALLOWED_LIFECYCLE_TRANSITIONS (pr_lifecycle_status old))))
    CheckViolation;
  mret tt.

(** UPDATE of one row, under the trigger and the CHECK constraints. *)
Definition update_row (as_owner : bool) (key : ProposalKey) (old new : ParentRow) : txn unit :=
  _ ← require (pg_bigint (pr_revision new)) DataError;
  _ ← enforce_proposal_update as_owner old new;
  _ ← require (proposal_checks new) CheckViolation;
  db ← read id;
  write (set_pg_proposals (<[key := new]> (pg_proposals db))).

Definition _update_parent (current updated : StoredProposal) : txn unit :=
  _ ← require (pg_bigint (sp_revision current) && pg_bigint (sp_revision updated)) DataError;
  data ← to_jsonb (_parent_data updated);
  now ← clock_timestamp;
  db ← read id;
  match pg_proposals db !! proposal_key current with
  | Some row =>
      if (pr_revision row =? sp_revision current)%Z
         && bool_decide (pr_lifecycle_status row = sp_lifecycle_status current) then
        update_row false (proposal_key current) row
          (mkParentRow (pr_action_key row) (pr_semantic_effect_reference row) (pr_effect_kind row)
             (sp_lifecycle_status updated) (sp_revision updated) (pr_commitment_digest row)
             (pr_created_at row) (sp_expires_at updated)
             (if bool_decide (pr_lifecycle_status row = sp_lifecycle_status updated)
              then pr_status_changed_at row else now)
             (sp_next_verification_at updated) data)
      else raise (StoreInvariantError "guarded PostgreSQL update lost its locked proposal")
  | None => raise (StoreInvariantError "guarded PostgreSQL update lost its locked proposal")
  end.

(** * Claims *)

Definition select_claim_owner (key : ClaimKey) (db : PgDatabase) : option pystr :=
  cl_proposal_reference <$> pg_effect_claims db !! key.

Definition _claim_owner (tenant : pystr) (action : ActionType) (effect : pystr) : txn (option pystr) :=
  _ ← require (pg_integer (at_version action)) DataError;
  read (select_claim_owner (claim_key_of tenant action effect)).

(** The foreign key of a claim. *)
Definition claim_parent (key : ClaimKey) (owner : pystr) (db : PgDatabase) : bool :=
  match pg_proposals db !! (key.1.1, owner) with
  | None => false
  | Some row => bool_decide (pr_action_key row = key.1.2)
                && bool_decide (pr_semantic_effect_reference row = key.2)
  end.

Definition write_claim (key : ClaimKey) (owner : pystr) (admitted_at : datetime) : txn unit :=
  db ← read id;
  _ ← require (claim_parent key owner db) ForeignKeyViolation;
  write (set_pg_claims (<[key := mkPgClaimRow owner admitted_at]> (pg_effect_claims db))).

(** [transfer_failed_known_effect_claim], as migration 2 leaves it. *)
Definition transfer_failed_known_effect_claim (key : ClaimKey) (current_owner replacement : pystr)
  (admitted_at : datetime) : txn bool :=
  now ← clock_timestamp;
  db ← read id;
  let owner_void :=
    match pg_proposals db !! (key.1.1, current_owner) with
    | Some row => bool_decide (pr_lifecycle_status row ∈ [FAILED_KNOWN; STALE])
    | None => false
    end in
  let replacement_ready :=
    match pg_proposals db !! (key.1.1, replacement) with
    | Some row =>
        bool_decide (pr_action_key row = key.1.2)
        && bool_decide (pr_semantic_effect_reference row = key.2)
        && bool_decide (pr_lifecycle_status row = AUTHORIZED)
        && (Z.max admitted_at now <? pr_expires_at row)%Z
        && bool_decide (pd_erasure_pending_at (pr_proposal_data row) = None)
        && bool_decide (pd_erased_at (pr_proposal_data row) = None)
    | None => false
    end in
  if bool_decide (select_claim_owner key db = Some current_owner) && owner_void && replacement_ready
  then _ ← write_claim key replacement admitted_at; mret true
  else mret false.

Definition _claim_effect (proposal : StoredProposal) (admitted_at : datetime) : txn EffectClaimResult :=
  let key := claim_key proposal in
  owner ← _claim_owner (sp_tenant_reference proposal) (sp_action_type proposal)
            (sp_semantic_effect_reference proposal);
  match owner with
  | None =>
      _ ← write_claim key (sp_proposal_reference proposal) admitted_at;
      mret ACQUIRED
  | Some owner =>
      if bool_decide (owner = sp_proposal_reference proposal) then mret OWNED_BY_PROPOSAL
      else
        owner_row ← read (λ db, pg_proposals db !! (sp_tenant_reference proposal, owner));
        match owner_row with
        | Some row =>
            if bool_decide (pr_lifecycle_status row ∈ [FAILED_KNOWN; STALE]) then
              transferred ← transfer_failed_known_effect_claim key owner
                              (sp_proposal_reference proposal) admitted_at;
              mret (if transferred : bool then ACQUIRED else CONFLICT)
            else mret CONFLICT
        | None => mret CONFLICT
        end
  end.

(** * The methods *)

(** [sqlstate] 23505 becomes [ProposalAlreadyExistsError]. *)
Definition translate_unique {A} (m : txn A) : txn A := λ db,
  match m db with
  | (Err e, db') =>
      if bool_decide (exn_class e = UniqueViolation)
      then (fail (ProposalAlreadyExistsError "proposal already exists"), db') else (Err e, db')
  | r => r
  end.

Definition pg_create (proposal : StoredProposal) : txn unit :=
  _ ← lift (validate_proposal_create proposal);
  translate_unique (commit (_ ← insert_parent proposal; _insert_children None proposal)).

Definition pg_get (tenant_reference proposal_reference : pystr) : txn (option StoredProposal) :=
  commit (_load tenant_reference proposal_reference).

Definition pg_compare_and_set (tenant_reference proposal_reference : pystr) (expected_revision : Z)
  (expected_statuses : list LifecycleStatus) (updated : StoredProposal) : txn bool :=
  commit (
    loaded ← _load tenant_reference proposal_reference;
    match loaded with
    | None => mret false
    | Some current =>
        if negb (sp_revision current =? expected_revision)%Z
           || negb (bool_decide (sp_lifecycle_status current ∈ expected_statuses)) then mret false
        else
          _ ← lift (validate_proposal_update current updated);
          _ ← (if bool_decide (sp_lifecycle_status updated = EXECUTING)
                  && negb (bool_decide (sp_lifecycle_status current = EXECUTING)) then
                 owner ← _claim_owner (sp_tenant_reference current) (sp_action_type current)
                           (sp_semantic_effect_reference current);
                 require (bool_decide (owner = Some (sp_proposal_reference current)))
                   (StoreInvariantError
                     "execution requires this proposal to own the semantic effect claim")
               else mret tt);
          _ ← _insert_children (Some current) updated;
          _ ← _update_parent current updated;
          mret true
    end).

Definition pg_admit_execution (tenant_reference proposal_reference : pystr) (expected_revision : Z)
  (admitted_at : datetime) (updated : StoredProposal) : txn EffectClaimResult :=
  commit (
    loaded ← _load tenant_reference proposal_reference;
    match loaded with
    | None => mret PROPOSAL_NOT_FOUND
    | Some current =>
        now ← clock_timestamp;
        let database_unexpired := (now <? sp_expires_at current)%Z in
        if negb (sp_revision current =? expected_revision)%Z
           || negb (bool_decide (sp_lifecycle_status current = AUTHORIZED))
           || bool_decide (is_Some (sp_erasure_pending_at current))
           || bool_decide (is_Some (sp_erased_at current))
           || (sp_expires_at current <=? admitted_at)%Z || negb database_unexpired then
          mret PROPOSAL_NOT_AUTHORIZED
        else
          _ ← lift (validate_proposal_update current updated);
          _ ← require (bool_decide (sp_lifecycle_status updated = EXECUTING))
                (StoreInvariantError "execution admission must enter executing");
          claim ← _claim_effect current admitted_at;
          if bool_decide (claim = CONFLICT) then mret claim
          else
            _ ← _insert_children (Some current) updated;
            _ ← _update_parent current updated;
            mret claim
    end).

Definition pg_get_effect_claim_owner (tenant_reference : pystr) (action_type : ActionType)
  (semantic_effect_reference : pystr) : txn (option pystr) :=
  _claim_owner tenant_reference action_type semantic_effect_reference.

(** ** The functions of the retention store *)

Definition set_pending (pending_at : datetime) (d : ParentData) : ParentData :=
  mkParentData (pd_protected_private_snapshot d) (pd_commitment d) (pd_display_preview d)
    (pd_requesting_principal d) (pd_proposing_agent d) (pd_verification_attempts d)
    (pd_max_verification_attempts d) (pd_safe_result d) (pd_execution_precondition d)
    (pd_superseded_by d) (Some pending_at) (pd_erased_at d).

Definition set_erased (erased_at : datetime) (d : ParentData) : ParentData :=
  mkParentData None None [] None None (pd_verification_attempts d)
    (pd_max_verification_attempts d) None None (pd_superseded_by d) None (Some erased_at).

Definition pg_mark_erasure_pending (tenant_reference proposal_reference : pystr)
  (expected_revision : Z) (pending_at : datetime) : txn bool :=
  commit (
    _ ← require (pg_bigint expected_revision) DataError;
    db ← read id;
    let key := (tenant_reference, proposal_reference) in
    match pg_proposals db !! key with
    | Some row =>
        if (pr_revision row =? expected_revision)%Z
           && negb (bool_decide (pr_lifecycle_status row
                                 ∈ [EXECUTING; FAILED_UNKNOWN; VERIFICATION_PENDING]))
           && bool_decide (pd_erasure_pending_at (pr_proposal_data row) = None)
           && bool_decide (pd_erased_at (pr_proposal_data row) = None) then
          _ ← update_row true key row
                (mkParentRow (pr_action_key row) (pr_semantic_effect_reference row)
                   (pr_effect_kind row) (pr_lifecycle_status row) (pr_revision row + 1)
                   (pr_commitment_digest row) (pr_created_at row) (pr_expires_at row)
                   (pr_status_changed_at row) (pr_next_verification_at row)
                   (set_pending pending_at (pr_proposal_data row)));
          mret true
        else mret false
    | None => mret false
    end).

Definition pg_complete_erasure (tenant_reference proposal_reference : pystr)
  (expected_revision : Z) (erased_at : datetime) : txn bool :=
  commit (
    _ ← require (pg_bigint expected_revision) DataError;
    db ← read id;
    let key := (tenant_reference, proposal_reference) in
    match pg_proposals db !! key with
    | Some row =>
        if (pr_revision row =? expected_revision)%Z
           && bool_decide (is_Some (pd_erasure_pending_at (pr_proposal_data row)))
           && bool_decide (pd_erased_at (pr_proposal_data row) = None) then
          _ ← write (set_pg_evidence (List.filter (λ r, negb (bool_decide (er_key r = key)))
                                        (pg_evidence db)));
          _ ← write (set_pg_receipts (List.filter (λ r, negb (bool_decide (rr_key r = key)))
                                        (pg_receipts db)));
          _ ← update_row true key row
                (mkParentRow (pr_action_key row) (pr_semantic_effect_reference row)
                   (pr_effect_kind row) (pr_lifecycle_status row) (pr_revision row + 1) None
                   (pr_created_at row) (pr_expires_at row) (pr_status_changed_at row) None
                   (set_erased erased_at (pr_proposal_data row)));
          mret true
        else mret false
    | None => mret false
    end).

Definition pg_run (o : store_op) : txn (store_resp o) :=
  match o as o return txn (store_resp o) with
  | Create p => pg_create p
  | Get t p => pg_get t p
  | CompareAndSet t p revision statuses updated => pg_compare_and_set t p revision statuses updated
  | AdmitExecution t p revision admitted_at updated =>
      pg_admit_execution t p revision admitted_at updated
  | GetEffectClaimOwner t a e => pg_get_effect_claim_owner t a e
  | MarkErasurePending t p revision at_ => pg_mark_erasure_pending t p revision at_
  | CompleteErasure t p revision at_ => pg_complete_erasure t p revision at_
  end.

(** What a client can observe. *)
Definition pg_view (db : PgDatabase) : StoreView :=
  mkStoreView
    (map_imap (λ key _, match load_pg key db with Ok p => p | Err _ => None end) (pg_proposals db))
    (cl_proposal_reference <$> pg_effect_claims db).

End Postgres.
