(* ===== verification/PostgresRefinement.v ===== *)
(** The PostgreSQL store keeps the persistence contract: its three tables
    represent the stored proposals, and a method that succeeds does to them what
    the contract allows. *)

From S2P Require Import Prelude Models Canonical Authority Receipts Registry StoreBase StoredValidity.
From S2P Require Import StoreContract Documents PostgresStore.

(** * Transactions *)

Lemma txn_bind_Ok {A B} (m : txn A) (f : A → txn B) db b db' :
  (m ≫= f) db = (Ok b, db') → ∃ a db1, m db = (Ok a, db1) ∧ f a db1 = (Ok b, db').
Proof. unfold mbind, txn_bind. destruct (m db) as [[a|e] db1]; [eauto|done]. Qed.

Lemma require_Ok b k db u db' : require b k db = (Ok u, db') → b = true ∧ db' = db.
Proof. destruct b; [|done]. by intros [= <-]. Qed.

Lemma lift_Ok {A} (r : res A) db a db' : lift r db = (Ok a, db') → r = Ok a ∧ db' = db.
Proof. by intros [= -> ->]. Qed.

Lemma read_Ok {A} (f : PgDatabase → A) db a db' : read f db = (Ok a, db') → a = f db ∧ db' = db.
Proof. by intros [= <- <-]. Qed.

Lemma write_Ok f db u db' : write f db = (Ok u, db') → db' = f db.
Proof. by intros [= <-]. Qed.

Lemma ret_Ok {A} (a : A) db b db' : (mret a : txn A) db = (Ok b, db') → b = a ∧ db' = db.
Proof. by intros [= <- <-]. Qed.

(** Take apart the run of a transaction that succeeds. *)
Ltac txn_step H :=
  match type of H with
  | (mbind _ _) _ = (Ok _, _) =>
      let H1 := fresh "Hstep" in apply txn_bind_Ok in H as (? & ? & H1 & H); txn_step H1
  | require _ _ _ = (Ok _, _) => apply require_Ok in H as [? ->]
  | lift _ _ = (Ok _, _) => apply lift_Ok in H as [? ->]
  | read _ _ = (Ok _, _) => apply read_Ok in H as [-> ->]
  | write _ _ = (Ok _, _) => apply write_Ok in H as ->
  | (mret _) _ = (Ok _, _) => apply ret_Ok in H as [-> ->]
  | raise _ _ = (Ok _, _) => discriminate H
  | _ => idtac
  end.

(** Two databases with the same tables. *)
Record same_tables (db db' : PgDatabase) : Prop := {
  same_proposals : pg_proposals db' = pg_proposals db;
  same_evidence : pg_evidence db' = pg_evidence db;
  same_receipts : pg_receipts db' = pg_receipts db;
  same_claims : pg_effect_claims db' = pg_effect_claims db
}.

Lemma same_tables_refl db : same_tables db db.
Proof. done. Qed.

#[export] Hint Resolve same_tables_refl : actions.

Lemma clock_Ok db now db' : clock_timestamp db = (Ok now, db') → same_tables db db'.
Proof. by intros [= _ <-]. Qed.

(** An exception leaves the tables alone. *)
Lemma commit_spec {A} (P : res A → PgDatabase → Prop) (m : txn A) db :
  (∀ e db', same_tables db db' → P (Err e) db') → (∀ a db', m db = (Ok a, db') → P (Ok a) db') →
  P (commit m db).1 (commit m db).2.
Proof. intros He Ha. unfold commit. destruct (m db) as [[a|e] db']; simpl; auto. by apply He. Qed.

(** * Lists of rows *)

(** The rows of the elements of a list, numbered from [start]. *)
Fixpoint numbered {A B} (f : Z → A → B) (start : Z) (l : list A) : list B :=
  match l with [] => [] | x :: l' => f start x :: numbered f (start + 1) l' end.

Lemma numbered_app {A B} (f : Z → A → B) start l l' :
  numbered f start (l ++ l') = numbered f start l ++ numbered f (start + Z.of_nat (length l)) l'.
Proof.
  revert start. induction l as [|x l IH]; intros start; simpl.
  - by rewrite Z.add_0_r.
  - rewrite IH. do 3 f_equal. lia.
Qed.

Lemma insert_by_head {A} (leb : A → A → bool) x l :
  (∀ y, y ∈ l → leb x y = true) → insert_by leb x l = x :: l.
Proof. destruct l as [|y l]; [done|]. intros H. simpl. by rewrite (H y ltac:(left)). Qed.

Lemma numbered_column {A B} (f : Z → A → B) (column : B → Z) start l r :
  (∀ n x, column (f n x) = n) → r ∈ numbered f start l → (start <= column r)%Z.
Proof.
  intros Hc. revert start. induction l as [|x l IH]; intros start; simpl; [by intros ?%elem_of_nil|].
  intros [->|Hr]%elem_of_cons; [by rewrite Hc|]. specialize (IH _ Hr). lia.
Qed.

(** Rows inserted in sequence are already in the order of a query. *)
Lemma order_numbered {A B} (f : Z → A → B) (column : B → Z) start l :
  (∀ n x, column (f n x) = n) → order_by (by_sequence column) (numbered f start l) = numbered f start l.
Proof.
  intros Hc. revert start. induction l as [|x l IH]; intros start; simpl; [done|].
  unfold order_by in *. rewrite IH. apply insert_by_head. intros y Hy.
  apply Z.leb_le. rewrite Hc. apply (numbered_column _ column) in Hy; [lia|done].
Qed.

Lemma numbered_values {A B} (f : Z → A → B) (value : B → A) start l :
  (∀ n x, value (f n x) = x) → value <$> numbered f start l = l.
Proof.
  intros Hv. revert start. induction l as [|x l IH]; intros start; simpl; [done|]. by rewrite Hv, IH.
Qed.

Section Rows.
Context {A : Type} (key_of : A → ProposalKey).

Lemma rows_of_app key l l' : rows_of key_of key (l ++ l') = rows_of key_of key l ++ rows_of key_of key l'.
Proof. apply List.filter_app. Qed.

Lemma rows_of_all key l : (∀ r, r ∈ l → key_of r = key) → rows_of key_of key l = l.
Proof.
  unfold rows_of. induction l as [|x l IH]; intros H; simpl; [done|].
  rewrite bool_decide_eq_true_2 by (apply H; left). rewrite IH; [done|]. intros r Hr. apply H. by right.
Qed.

Lemma rows_of_none key l : (∀ r, r ∈ l → key_of r ≠ key) → rows_of key_of key l = [].
Proof.
  unfold rows_of. induction l as [|x l IH]; intros H; simpl; [done|].
  rewrite bool_decide_eq_false_2 by (apply H; left). apply IH. intros r Hr. apply H. by right.
Qed.

(** Deleting the rows of a key. *)
Lemma rows_of_delete key k l :
  rows_of key_of k (List.filter (λ r, negb (bool_decide (key_of r = key))) l) =
  if decide (k = key) then [] else rows_of key_of k l.
Proof.
  unfold rows_of. induction l as [|x l IH]; simpl; [by case_decide|].
  case_decide as Hk; simplify_eq; repeat case_bool_decide; simpl; simplify_eq;
    rewrite ?bool_decide_eq_true_2, ?bool_decide_eq_false_2, ?IH by done; done.
Qed.

Lemma numbered_keys {X} (f : Z → X → A) key start l r :
  (∀ n x, key_of (f n x) = key) → r ∈ numbered f start l → key_of r = key.
Proof.
  intros Hk. revert start. induction l as [|x l IH]; intros start; simpl; [by intros ?%elem_of_nil|].
  intros [->|Hr]%elem_of_cons; eauto.
Qed.

End Rows.

(** * Representation *)

Section Refinement.
Context `{U : Unicode, V : PostgresServer}.

(** The rows of a proposal. *)
Definition parent_row (p : StoredProposal) (status_changed_at : datetime) : ParentRow :=
  mkParentRow (_action_key (sp_action_type p)) (sp_semantic_effect_reference p) (sp_effect_kind p)
    (sp_lifecycle_status p) (sp_revision p) (_commitment_digest p) (sp_created_at p)
    (sp_expires_at p) status_changed_at (sp_next_verification_at p) (_parent_data p).

Definition evidence_rows (p : StoredProposal) : list EvidenceRow :=
  numbered (evidence_row p (default "" (_commitment_digest p))%py) 0 (sp_authority_evidence p).

Definition receipt_rows (p : StoredProposal) : list ReceiptRow :=
  numbered (receipt_row p) 0 (sp_receipts p).

Record represents (db : PgDatabase) (p : StoredProposal) : Prop := {
  rep_evidence : rows_of er_key (proposal_key p) (pg_evidence db) = evidence_rows p;
  rep_receipts : rows_of rr_key (proposal_key p) (pg_receipts db) = receipt_rows p;
  rep_valid : stored_proposal_valid p = true;
  rep_tombstone : is_Some (sp_erased_at p) → holds_content p = false
}.

Record pg_ok (db : PgDatabase) : Prop := {
  ok_rows : ∀ key row, pg_proposals db !! key = Some row →
    ∃ p changed, key = proposal_key p ∧ row = parent_row p changed ∧ represents db p;
  ok_orphans : ∀ key, pg_proposals db !! key = None →
    rows_of er_key key (pg_evidence db) = [] ∧ rows_of rr_key key (pg_receipts db) = []
}.

Lemma assemble_row p changed evidence receipts :
  evidence = sp_authority_evidence p → receipts = sp_receipts p →
  assemble (proposal_key p) (parent_row p changed) evidence receipts = p.
Proof. intros -> ->. by destruct p as [? ? [] ? ? ? ? ? ? ? ? ? ? ? ? ? ? ? ? ? ? ? ? ?]. Qed.

Lemma represents_load db p changed :
  represents db p → pg_proposals db !! proposal_key p = Some (parent_row p changed) →
  load_pg (proposal_key p) db = Ok (Some p).
Proof.
  intros [He Hr Hv _] Hrow. unfold load_pg. rewrite Hrow. cbv zeta. rewrite assemble_row.
  - by rewrite Hv.
  - unfold select_evidence. rewrite He. unfold evidence_rows.
    by rewrite order_numbered, numbered_values.
  - unfold select_receipts. rewrite Hr. unfold receipt_rows.
    by rewrite order_numbered, numbered_values.
Qed.

Lemma pg_view_lookup db key :
  proposals (pg_view db) !! key =
  match pg_proposals db !! key with
  | Some _ => match load_pg key db with Ok p => p | Err _ => None end
  | None => None
  end.
Proof. simpl. rewrite map_lookup_imap. by destruct (pg_proposals db !! key). Qed.

(** What the view shows at a key is represented by the rows of that key. *)
Lemma pg_ok_lookup db key p :
  pg_ok db → proposals (pg_view db) !! key = Some p →
  key = proposal_key p ∧ represents db p ∧
  ∃ changed, pg_proposals db !! key = Some (parent_row p changed).
Proof.
  intros [Hrows _]. rewrite pg_view_lookup.
  destruct (pg_proposals db !! key) as [row|] eqn:Hrow; [|done].
  destruct (Hrows key row Hrow) as (q & changed & -> & -> & Hrep).
  rewrite (represents_load _ _ _ Hrep Hrow). intros [= <-]. eauto.
Qed.

Lemma pg_ok_load db key : pg_ok db → load_pg key db = Ok (proposals (pg_view db) !! key).
Proof.
  intros [Hrows _]. rewrite pg_view_lookup.
  destruct (pg_proposals db !! key) as [row|] eqn:Hrow; [|by unfold load_pg; rewrite Hrow].
  destruct (Hrows key row Hrow) as (q & changed & -> & -> & Hrep).
  by rewrite (represents_load _ _ _ Hrep Hrow).
Qed.

Lemma pg_ok_absent db key :
  pg_ok db → proposals (pg_view db) !! key = None → pg_proposals db !! key = None.
Proof.
  intros [Hrows _]. rewrite pg_view_lookup.
  destruct (pg_proposals db !! key) as [row|] eqn:Hrow; [|done].
  destruct (Hrows key row Hrow) as (q & changed & -> & -> & Hrep).
  by rewrite (represents_load _ _ _ Hrep Hrow).
Qed.

Lemma load_same db db' key :
  pg_proposals db' !! key = pg_proposals db !! key →
  rows_of er_key key (pg_evidence db') = rows_of er_key key (pg_evidence db) →
  rows_of rr_key key (pg_receipts db') = rows_of rr_key key (pg_receipts db) →
  load_pg key db' = load_pg key db.
Proof. unfold load_pg, select_evidence, select_receipts. by intros -> -> ->. Qed.

Lemma same_tables_view db db' : same_tables db db' → pg_view db' = pg_view db.
Proof.
  intros [Hp He Hr Hc]. unfold pg_view. rewrite Hp, Hc. f_equal. apply map_eq. intros key.
  rewrite !map_lookup_imap. by rewrite (load_same db db') by congruence.
Qed.

Lemma same_tables_ok db db' : same_tables db db' → pg_ok db → pg_ok db'.
Proof.
  intros [Hp He Hr Hc] [Hrows Horphans]. constructor; rewrite Hp, ?He, ?Hr; [|done].
  intros key row Hrow. destruct (Hrows key row Hrow) as (p & changed & ? & ? & [? ? ? ?]).
  exists p, changed. split_and!; try done. constructor; by rewrite ?He, ?Hr.
Qed.

Lemma view_ext (v w : StoreView) :
  (∀ k, proposals v !! k = proposals w !! k) → effect_claims v = effect_claims w → v = w.
Proof. destruct v, w. simpl. intros H ->. f_equal. by apply map_eq. Qed.

(** Writing the rows of one proposal. *)
Lemma pg_put db db' p changed :
  pg_ok db → pg_proposals db' = <[proposal_key p := parent_row p changed]> (pg_proposals db) →
  pg_effect_claims db' = pg_effect_claims db →
  (∀ k, k ≠ proposal_key p → rows_of er_key k (pg_evidence db') = rows_of er_key k (pg_evidence db) ∧
                             rows_of rr_key k (pg_receipts db') = rows_of rr_key k (pg_receipts db)) →
  represents db' p →
  pg_ok db' ∧ pg_view db' = put_proposal (proposal_key p) p (pg_view db).
Proof.
  intros Hok Hp Hc Hother Hrep. split.
  - destruct Hok as [Hrows Horphans]. constructor; rewrite Hp.
    + intros k row [[<- <-]|[Hne Hrow]]%lookup_insert_Some; [by exists p, changed|].
      destruct (Hrows k row Hrow) as (q & c & -> & -> & [He Hr Hv Ht]).
      exists q, c. split_and!; try done. destruct (Hother (proposal_key q)) as [Ee Er]; [done|].
      constructor; by rewrite ?Ee, ?Er.
    + intros k [Hk Hne]%lookup_insert_None. destruct (Hother k) as [-> ->]; [done|]. by apply Horphans.
  - apply view_ext; [|simpl; by rewrite Hc]. intros k.
    change (proposals (pg_view db') !! k = <[proposal_key p:=p]> (proposals (pg_view db)) !! k).
    rewrite pg_view_lookup. destruct (decide (k = proposal_key p)) as [->|Hne].
    + rewrite lookup_insert_eq. assert (pg_proposals db' !! proposal_key p = Some (parent_row p changed)) as Hrow
        by (by rewrite Hp, lookup_insert_eq).
      by rewrite Hrow, (represents_load _ _ _ Hrep Hrow).
    + rewrite lookup_insert_ne, pg_view_lookup by done.
      assert (pg_proposals db' !! k = pg_proposals db !! k) as Hk by (by rewrite Hp, lookup_insert_ne).
      destruct (Hother k Hne). by rewrite (load_same db db'), Hk.
Qed.

(** * Writing a proposal *)

Lemma insert_evidence_Ok r db u db' :
  insert_evidence r db = (Ok u, db') → db' = set_pg_evidence (pg_evidence db ++ [r]) db.
Proof. unfold insert_evidence. intros H. by repeat txn_step H. Qed.

Lemma insert_receipt_Ok r db u db' :
  insert_receipt r db = (Ok u, db') → db' = set_pg_receipts (pg_receipts db ++ [r]) db.
Proof. unfold insert_receipt. intros H. by repeat txn_step H. Qed.

Lemma executemany_evidence f start l db u db' :
  executemany (λ n (e : AuthorityEvidence), insert_evidence (f n e)) start l db = (Ok u, db') →
  db' = set_pg_evidence (pg_evidence db ++ numbered f start l) db.
Proof.
  revert start db. induction l as [|x l IH]; intros start db H; cbn [executemany numbered] in *.
  - txn_step H. destruct db. unfold set_pg_evidence. simpl. by rewrite app_nil_r.
  - txn_step H. apply insert_evidence_Ok in Hstep as ->. apply IH in H as ->.
    unfold set_pg_evidence. simpl. by rewrite <-app_assoc.
Qed.

Lemma executemany_receipts f start l db u db' :
  executemany (λ n (r : Receipt), insert_receipt (f n r)) start l db = (Ok u, db') →
  db' = set_pg_receipts (pg_receipts db ++ numbered f start l) db.
Proof.
  revert start db. induction l as [|x l IH]; intros start db H; cbn [executemany numbered] in *.
  - txn_step H. destruct db. unfold set_pg_receipts. simpl. by rewrite app_nil_r.
  - txn_step H. apply insert_receipt_Ok in Hstep as ->. apply IH in H as ->.
    unfold set_pg_receipts. simpl. by rewrite <-app_assoc.
Qed.

Lemma insert_children_Ok current updated db u db' :
  _insert_children current updated db = (Ok u, db') →
  let eo := default 0 (length ∘ sp_authority_evidence <$> current) in
  let ro := default 0 (length ∘ sp_receipts <$> current) in
  db' = set_pg_receipts
    (pg_receipts db ++ numbered (receipt_row updated) (Z.of_nat ro) (drop ro (sp_receipts updated)))
    (set_pg_evidence
      (pg_evidence db ++ numbered (evidence_row updated (default "" (_commitment_digest updated))%py)
         (Z.of_nat eo) (drop eo (sp_authority_evidence updated))) db).
Proof.
  unfold _insert_children, _commitment_digest. cbv zeta. intros H.
  txn_step H. apply executemany_receipts in H as ->.
  destruct (drop _ (sp_authority_evidence updated)) as [|e l]; [|destruct (sp_commitment updated) as [c|]].
  - txn_step Hstep. destruct db. unfold set_pg_evidence, set_pg_receipts. simpl. by rewrite app_nil_r.
  - by apply executemany_evidence in Hstep as ->.
  - discriminate.
Qed.

(** The free-form members are documents [jsonb] keeps, written by name. *)
Definition json_stable (p : StoredProposal) : bool :=
  bool_decide (by_name_record p = p) && jsonb_document p.

Lemma jsonb_read_back o :
  json_document (JObj o) = true → jsonb_exact (JObj o) = true → by_name_object o = o →
  by_name_object (jsonb_object o) = o.
Proof. intros. by rewrite jsonb_object_kept. Qed.

Lemma to_jsonb_Ok p db d db' :
  json_stable p = true → to_jsonb (_parent_data p) db = (Ok d, db') → d = _parent_data p ∧ db' = db.
Proof.
  unfold json_stable, jsonb_document, json_fields, to_jsonb. intros Hj H.
  apply andb_prop in Hj as [Hn%bool_decide_eq_true Hj].
  apply andb_prop in Hj as [Hj Hr2]. apply andb_prop in Hj as [Hj Hp2]. apply andb_prop in Hj as [Hp1 Hr1].
  repeat txn_step H. split; [|done]. assert (Hp := f_equal sp_display_preview Hn). assert (Hr := f_equal sp_safe_result Hn).
  unfold _parent_data. cbn [by_name_record sp_display_preview sp_safe_result pd_display_preview pd_safe_result] in *.
  rewrite jsonb_read_back by done. f_equal.
  destruct (sp_safe_result p) as [o|]; [|done]. injection Hr as Hr.
  cbn [fmap option_fmap option_map optional compose] in *. by rewrite jsonb_read_back.
Qed.

Lemma update_row_Ok as_owner key old new db u db' :
  update_row as_owner key old new db = (Ok u, db') →
  (as_owner = true ∨ protected_members new = protected_members old) ∧
  db' = set_pg_proposals (<[key := new]> (pg_proposals db)) db.
Proof.
  unfold update_row, enforce_proposal_update. intros H. repeat txn_step H.
  repeat match goal with H : (mbind _ _) _ = _ |- _ => progress (repeat txn_step H) end.
  split; [|done]. destruct as_owner; [by left|right]. simpl in *. by to_prop.
Qed.

(** The databases a successful update of the parent row leads to. *)
Lemma update_parent_Ok current changed updated db u db' :
  json_stable updated = true → update_ok current updated →
  pg_proposals db !! proposal_key current = Some (parent_row current changed) →
  _update_parent current updated db = (Ok u, db') →
  ∃ changed', same_tables
    (set_pg_proposals (<[proposal_key current := parent_row updated changed']> (pg_proposals db)) db) db' ∧
    sp_commitment updated = sp_commitment current ∧ sp_erased_at updated = sp_erased_at current.
Proof.
  unfold _update_parent. intros Hj Hu Hrow H. repeat txn_step H.
  apply to_jsonb_Ok in Hstep as [-> ->]; [|done]. apply clock_Ok in Hstep0 as [Hp He Hr Hc].
  cbn [id] in H. rewrite Hp, Hrow in H. split_if; [|discriminate].
  apply update_row_Ok in H as [[|Hprot] ->]; [done|].
  assert (Hid := update_identity _ _ Hu). unfold proposal_identity in Hid. simplify_eq.
  unfold protected_members in Hprot. simpl in Hprot. simplify_eq.
  eexists. split; [|done]. constructor; [|done..]. simpl. rewrite Hp. f_equal.
  unfold parent_row, _commitment_digest. simpl.
  f_equal; first [reflexivity | congruence].
Qed.

(** The elements that are not yet stored follow the stored ones. *)
Lemma stored_prefix {A B} (f : Z → A → B) (current updated : list A) :
  current `prefix_of` updated →
  numbered f 0 current ++ numbered f (Z.of_nat (length current)) (drop (length current) updated) =
  numbered f 0 updated.
Proof. intros [k ->]. by rewrite drop_app_length, numbered_app. Qed.

Lemma content_free p : holds_content p = false → sp_authority_evidence p = [] ∧ sp_receipts p = [].
Proof. unfold holds_content. intros H. by to_prop. Qed.

Lemma accepted_prefix c u :
  update_ok c u → sp_erased_at u = sp_erased_at c → (is_Some (sp_erased_at c) → holds_content c = false) →
  sp_authority_evidence c `prefix_of` sp_authority_evidence u ∧ sp_receipts c `prefix_of` sp_receipts u.
Proof.
  intros Hu He Ht. destruct (None_or_Some (sp_erased_at u)) as [Hn|Hn].
  - split; [by apply (update_evidence _ _ Hu)|by apply (update_receipts _ _ Hu)].
  - destruct (content_free _ (update_tombstone _ _ Hu Hn)) as [-> ->].
    rewrite He in Hn. by destruct (content_free _ (Ht Hn)) as [-> ->].
Qed.

Lemma same_rows_numbered p q : 
  proposal_key p = proposal_key q → _action_key (sp_action_type p) = _action_key (sp_action_type q) →
  sp_semantic_effect_reference p = sp_semantic_effect_reference q →
  evidence_row p = evidence_row q ∧ receipt_row p = receipt_row q.
Proof. unfold evidence_row, receipt_row. by intros -> -> ->. Qed.

(** A guarded write that succeeds replaces the record. *)
Lemma pg_write db db1 db2 t p current updated u1 u2 :
  pg_ok db → proposals (pg_view db) !! (t, p) = Some current → update_ok current updated →
  stored_proposal_valid updated = true → json_stable updated = true →
  _insert_children (Some current) updated db = (Ok u1, db1) →
  _update_parent current updated db1 = (Ok u2, db2) →
  pg_ok db2 ∧ pg_view db2 = put_proposal (t, p) updated (pg_view db) ∧
  sp_erased_at updated = sp_erased_at current.
Proof.
  intros Hok Hk Hu Hv Hj Hins Hupd.
  destruct (pg_ok_lookup _ _ _ Hok Hk) as (Hkey & [He Hr _ Ht] & changed & Hrow).
  destruct (update_ok_keys _ _ Hu) as [Hku _].
  apply insert_children_Ok in Hins as ->. rewrite Hkey in Hrow.
  apply (update_parent_Ok _ changed) in Hupd as (changed' & Hs & Hcommit & Herased); [|done..].
  assert (Hid := update_identity _ _ Hu). unfold proposal_identity in Hid. injection Hid as _ _ Hi3 Hi4 _ _.
  destruct (accepted_prefix current updated Hu Herased Ht) as [Hpe Hpr].
  destruct (same_rows_numbered current updated) as [Ere Err]; [done|by rewrite Hi3|done|].
  rewrite Hkey.
  match type of Hs with same_tables ?d _ => set (written := d) in * end.
  enough (pg_ok written ∧ pg_view written = put_proposal (proposal_key current) updated (pg_view db))
    as [Hok' Hview'] by (rewrite (same_tables_view _ _ Hs); split_and!; eauto using same_tables_ok).
  rewrite <-Hku in He, Hr |- *. apply (pg_put db written updated changed'); [done| |done|..].
  - unfold written. by rewrite Hku.
  - intros k Hne. simpl. rewrite !rows_of_app.
    rewrite (rows_of_none er_key k (numbered _ _ _)), (rows_of_none rr_key k (numbered _ _ _));
      [by rewrite !app_nil_r|..]; intros r ->%(numbered_keys _ _ (proposal_key updated)); done.
  - constructor; [..|done|apply (update_tombstone _ _ Hu)]; simpl.
    + rewrite rows_of_app, He, rows_of_all;
        [|intros r; by apply (numbered_keys _ _ (proposal_key updated))].
      unfold evidence_rows, _commitment_digest. rewrite Ere, <-Hcommit. by apply stored_prefix.
    + rewrite rows_of_app, Hr, rows_of_all;
        [|intros r; by apply (numbered_keys _ _ (proposal_key updated))].
      unfold receipt_rows. rewrite Err. by apply stored_prefix.
Qed.

(** * Claims *)

(** The three tables of proposals, without the claims. *)
Record same_rows (db db' : PgDatabase) : Prop := {
  sr_proposals : pg_proposals db' = pg_proposals db;
  sr_evidence : pg_evidence db' = pg_evidence db;
  sr_receipts : pg_receipts db' = pg_receipts db
}.

Lemma same_rows_ok db db' : same_rows db db' → pg_ok db → pg_ok db'.
Proof.
  intros [Hp He Hr] Hok.
  assert (pg_ok (set_pg_claims (pg_effect_claims db') db)) as Hok'.
  { destruct Hok as [Hrows Ho]. constructor; [|exact Ho]. intros key row Hrow.
    destruct (Hrows key row Hrow) as (p & changed & ? & ? & [? ? ? ?]). by exists p, changed. }
  by apply (same_tables_ok (set_pg_claims (pg_effect_claims db') db)).
Qed.

Lemma same_rows_view db db' :
  same_rows db db' →
  pg_view db' = mkStoreView (proposals (pg_view db)) (cl_proposal_reference <$> pg_effect_claims db').
Proof.
  intros [Hp He Hr]. apply view_ext; [|done]. intros k.
  change (proposals (pg_view db') !! k = proposals (pg_view db) !! k).
  rewrite !pg_view_lookup, Hp. by rewrite (load_same db db') by congruence.
Qed.

Lemma claim_view db db' key owner at_ :
  same_rows db db' → pg_effect_claims db' = <[key := mkPgClaimRow owner at_]> (pg_effect_claims db) →
  pg_view db' = put_claim key owner (pg_view db).
Proof. intros Hs Hc. rewrite (same_rows_view _ _ Hs), Hc, fmap_insert. done. Qed.

Lemma write_claim_Ok key owner at_ db u db' :
  write_claim key owner at_ db = (Ok u, db') →
  same_rows db db' ∧ pg_effect_claims db' = <[key := mkPgClaimRow owner at_]> (pg_effect_claims db).
Proof. unfold write_claim. intros H. by repeat txn_step H. Qed.

Lemma pg_claim_owner_view db key : select_claim_owner key db = effect_claims (pg_view db) !! key.
Proof. symmetry. apply lookup_fmap. Qed.

(** A row in one of the statuses that free a claim is such a record. *)
Lemma void_owner db key row :
  pg_ok db → pg_proposals db !! key = Some row → pr_lifecycle_status row ∈ [FAILED_KNOWN; STALE] →
  ∃ record, proposals (pg_view db) !! key = Some record ∧
    sp_lifecycle_status record ∈ [FAILED_KNOWN; STALE].
Proof.
  intros Hok Hrow Hs. destruct (ok_rows _ Hok _ _ Hrow) as (q & changed & -> & -> & Hrep).
  exists q. split; [|done]. rewrite pg_view_lookup, Hrow.
  by rewrite (represents_load _ _ _ Hrep Hrow).
Qed.

Lemma transfer_Ok key owner reference at_ db (b : bool) db' :
  transfer_failed_known_effect_claim key owner reference at_ db = (Ok b, db') →
  if b then same_rows db db' ∧
    pg_effect_claims db' = <[key := mkPgClaimRow reference at_]> (pg_effect_claims db)
  else same_tables db db'.
Proof.
  unfold transfer_failed_known_effect_claim. intros H. do 2 txn_step H.
  apply clock_Ok in Hstep as [Hp He Hr Hc].
  match type of H with (if ?ready then _ else _) _ = _ => destruct ready end.
  - txn_step H. apply write_claim_Ok in Hstep as [[? ? ?] ?]. repeat txn_step H.
    split; [constructor|]; simpl in *; congruence.
  - by txn_step H.
Qed.

Lemma pg_claim_effect_Ok p at_ db r db' :
  pg_ok db → _claim_effect p at_ db = (Ok r, db') →
  same_rows db db' ∧
  match r with
  | CONFLICT => pg_view db' = pg_view db
  | ACQUIRED | OWNED_BY_PROPOSAL =>
      claimable (pg_view db) (claim_key p) (sp_proposal_reference p) ∧
      pg_view db' = put_claim (claim_key p) (sp_proposal_reference p) (pg_view db)
  | _ => False
  end.
Proof.
  unfold _claim_effect, _claim_owner. intros Hok H. txn_step H. repeat txn_step Hstep.
  fold (claim_key p) in H. unfold claimable. rewrite <-pg_claim_owner_view.
  destruct (select_claim_owner (claim_key p) db) as [owner|] eqn:Eo.
  2:{ txn_step H. apply write_claim_Ok in Hstep as [Hs Hc]. txn_step H.
      split_and!; [done..|]. by apply (claim_view _ _ _ _ at_). }
  case_bool_decide as Hown.
  { txn_step H. split_and!; [done|by left|]. apply view_ext; [done|].
    symmetry. apply insert_id. by rewrite <-pg_claim_owner_view, Eo, Hown. }
  txn_step H.
  destruct (pg_proposals db !! (sp_tenant_reference p, owner)) as [row|] eqn:Erow; [|by txn_step H].
  case_bool_decide as Hv; [|by txn_step H]. txn_step H. apply transfer_Ok in Hstep.
  txn_step H. destruct x.
  - destruct Hstep as [Hs Hc]. split_and!; [done|right; by eapply void_owner|].
    by apply (claim_view _ _ _ _ at_).
  - split; [by destruct Hstep|by apply same_tables_view].
Qed.

(** * The methods *)

(** An erased record stays erased. *)
Definition erasures_kept (v v' : StoreView) : Prop :=
  ∀ k p, proposals v !! k = Some p → is_Some (sp_erased_at p) →
  ∃ p', proposals v' !! k = Some p' ∧ sp_erased_at p' = sp_erased_at p.

Lemma erasures_kept_refl v : erasures_kept v v.
Proof. intros k p. eauto. Qed.

Lemma erasures_put v k u :
  (∀ c, proposals v !! k = Some c → is_Some (sp_erased_at c) → sp_erased_at u = sp_erased_at c) →
  erasures_kept v (put_proposal k u v).
Proof.
  intros Hu k' p Hp He. simpl. destruct (decide (k' = k)) as [->|Hne].
  - rewrite lookup_insert_eq. eauto.
  - rewrite lookup_insert_ne by done. eauto.
Qed.

(** A method keeps the contract, the representation and the erasures. *)
Definition keeps (db : PgDatabase) (o : store_op) (r : res (store_resp o)) (db' : PgDatabase) : Prop :=
  contract (pg_view db) o r (pg_view db') ∧ pg_ok db' ∧ erasures_kept (pg_view db) (pg_view db').

Lemma keeps_same db o r db' :
  pg_ok db' → pg_view db' = pg_view db → contract (pg_view db) o r (pg_view db) → keeps db o r db'.
Proof. intros Hok Hv Hc. split_and!; [by rewrite Hv|done|rewrite Hv; apply erasures_kept_refl]. Qed.

(** A method that writes a record that was not erased, or stays so. *)
Lemma keeps_put db o r db' k u v :
  pg_ok db' → pg_view db' = put_proposal k u v → proposals v = proposals (pg_view db) →
  (∀ c, proposals (pg_view db) !! k = Some c → is_Some (sp_erased_at c) → sp_erased_at u = sp_erased_at c) →
  contract (pg_view db) o r (put_proposal k u v) → keeps db o r db'.
Proof.
  intros Hok Hview Hv He Hc. split_and!; [by rewrite Hview|done|]. rewrite Hview. intros k' p Hp.
  rewrite <-Hv in Hp, He. by apply (erasures_put v k u He).
Qed.

Lemma contract_error v o e : contract v o (Err e) v.
Proof. by destruct o. Qed.

Lemma keeps_error db o e db' : pg_ok db → same_tables db db' → keeps db o (Err e) db'.
Proof.
  intros Hok Hs. apply keeps_same; [by eapply same_tables_ok|by apply same_tables_view|].
  apply contract_error.
Qed.

Lemma load_Ok t p db o db' :
  pg_ok db → _load t p db = (Ok o, db') → o = proposals (pg_view db) !! (t, p) ∧ db' = db.
Proof. intros Hok. unfold _load. rewrite pg_ok_load by done. by intros [= <- <-]. Qed.

(** The body of a creation. *)
Lemma insert_keeps p db :
  pg_ok db → create_ok p → stored_proposal_valid p = true → json_stable p = true →
  keeps db (Create p) (commit (_ ← insert_parent p; _insert_children None p) db).1
    (commit (_ ← insert_parent p; _insert_children None p) db).2.
Proof.
  intros Hok Hc Hv Hj. apply commit_spec; [intros; by apply keeps_error|]. intros [] db' H. txn_step H.
  unfold insert_parent in Hstep. repeat txn_step Hstep.
  apply to_jsonb_Ok in Hstep0 as [-> ->]; [|done]. to_prop.
  apply insert_children_Ok in H as ->. cbn [fmap option_fmap option_map default id] in *.
  rewrite !drop_0. destruct (ok_orphans _ Hok (proposal_key p)) as [He Hr]; [done|].
  match goal with |- keeps _ _ _ ?d => set (db' := d) end.
  destruct (pg_put db db' p (sp_created_at p)) as [Hok' Hview]; [done..| | |].
  - intros k Hne. simpl. rewrite !rows_of_app.
    rewrite (rows_of_none er_key k (numbered _ _ _)), (rows_of_none rr_key k (numbered _ _ _));
      [by rewrite !app_nil_r|..]; intros r ->%(numbered_keys _ _ (proposal_key p)); done.
  - constructor; [..|done|]; simpl.
    + rewrite rows_of_app, He, rows_of_all; [done|]. intros r. by apply numbered_keys.
    + rewrite rows_of_app, Hr, rows_of_all; [done|]. intros r. by apply numbered_keys.
    + rewrite (create_erased _ Hc). by intros [].
  - assert (proposals (pg_view db) !! proposal_key p = None) as Hnone.
    { rewrite pg_view_lookup. by match goal with H : pg_proposals _ !! _ = None |- _ => rewrite H end. }
    apply (keeps_put _ _ _ _ _ _ _ Hok' Hview); [done| |by split_and!]. intros c. by rewrite Hnone.
Qed.

Lemma lift_bind {A B} (r : res A) (f : A → txn B) db :
  (a ← lift r; f a) db = match r with Ok a => f a db | Err e => (Err e, db) end.
Proof. by destruct r. Qed.

Lemma pg_create_keeps p db :
  pg_ok db → stored_proposal_valid p = true → json_stable p = true →
  keeps db (Create p) (pg_create p db).1 (pg_create p db).2.
Proof.
  intros Hok Hv Hj. unfold pg_create. rewrite lift_bind.
  destruct (validate_proposal_create p) as [[]|e] eqn:Hc; [|by apply keeps_error].
  apply validate_create_ok in Hc. assert (Hkeeps := insert_keeps p db Hok Hc Hv Hj).
  unfold translate_unique. destruct (commit _ db) as [[a|e] db']; [exact Hkeeps|].
  by case_bool_decide.
Qed.

Lemma validated_update c u x : validate_proposal_update c u = Ok x → update_ok c u.
Proof. destruct x. apply validate_update_ok. Qed.

Lemma pg_cas_keeps t p revision statuses u db :
  pg_ok db → stored_proposal_valid u = true → json_stable u = true →
  keeps db (CompareAndSet t p revision statuses u)
    (pg_compare_and_set t p revision statuses u db).1 (pg_compare_and_set t p revision statuses u db).2.
Proof.
  intros Hok Hv Hj. unfold pg_compare_and_set.
  apply commit_spec; [intros; by apply keeps_error|]. intros b db' H.
  txn_step H. apply load_Ok in Hstep as [-> ->]; [|done].
  destruct (proposals (pg_view db) !! (t, p)) as [c|] eqn:Hc; [|txn_step H; by apply keeps_same].
  split_if; [txn_step H; by apply keeps_same|]. apply orb_false_iff in Hif as [??]. to_prop.
  txn_step H. match goal with Hx : validate_proposal_update _ _ = _ |- _ => apply validated_update in Hx as Hu end.
  txn_step H. rename Hstep into Hclaim. txn_step H. rename Hstep into Hins.
  txn_step H. rename Hstep into Hupd. txn_step H.
  assert (x1 = db ∧ (sp_lifecycle_status u = EXECUTING → sp_lifecycle_status c ≠ EXECUTING →
    effect_claims (pg_view db) !! claim_key c = Some (sp_proposal_reference c))) as [-> Hcl].
  { match type of Hclaim with (if ?entering then _ else _) _ = _ => destruct entering eqn:Hif end.
    - txn_step Hclaim. unfold _claim_owner in Hstep. txn_step Hstep. txn_step Hstep.
      txn_step Hclaim. to_prop. split; [done|]. intros _ _. by rewrite <-pg_claim_owner_view.
    - txn_step Hclaim. split; [done|]. intros Hx Hy.
      apply andb_false_iff in Hif as [Hif|Hif]; by to_prop. }
  destruct (pg_write _ _ _ _ _ _ _ _ _ Hok Hc Hu Hv Hj Hins Hupd) as (Hok' & Hview & Her).
  apply (keeps_put _ _ _ _ _ _ _ Hok' Hview); [done|by intros c' Hc'; simplify_eq|]. exists c. split_and!; done.
Qed.

Ltac case_claim := match goal with r : EffectClaimResult |- _ => destruct r end.

Lemma pg_admit_keeps t p revision at_ u db :
  pg_ok db → stored_proposal_valid u = true → json_stable u = true →
  keeps db (AdmitExecution t p revision at_ u)
    (pg_admit_execution t p revision at_ u db).1 (pg_admit_execution t p revision at_ u db).2.
Proof.
  intros Hok Hv Hj. unfold pg_admit_execution.
  apply commit_spec; [intros; by apply keeps_error|]. intros b db' H.
  txn_step H. apply load_Ok in Hstep as [-> ->]; [|done].
  destruct (proposals (pg_view db) !! (t, p)) as [c|] eqn:Hc; [|txn_step H; by apply keeps_same].
  txn_step H. apply clock_Ok in Hstep. rename Hstep into Hs.
  assert (Hok0 := same_tables_ok _ _ Hs Hok). assert (Hv0 := same_tables_view _ _ Hs).
  split_if; [txn_step H; by apply keeps_same|]. to_prop.
  txn_step H. match goal with Hx : validate_proposal_update _ _ = _ |- _ => apply validated_update in Hx as Hu end.
  txn_step H. to_prop. txn_step H. rename Hstep into Hclaim.
  apply pg_claim_effect_Ok in Hclaim as [Hrows Hclaim]; [|done]. rewrite Hv0 in Hclaim.
  case_bool_decide as Hr; [txn_step H; subst; apply keeps_same; [by eapply same_rows_ok|done..]|].
  txn_step H. rename Hstep into Hins. txn_step H. rename Hstep into Hupd. txn_step H.
  match type of Hins with _ ?d = _ => set (db1 := d) in * end.
  destruct (pg_ok_lookup _ _ _ Hok Hc) as (Hkey & _). unfold proposal_key in Hkey.
  assert (pg_view db1 = put_claim (claim_key c) p (pg_view db) ∧ claimable (pg_view db) (claim_key c) p)
    as [Hview1 Hcl] by (simplify_eq; case_claim; try done; by destruct Hclaim).
  assert (proposals (pg_view db1) !! (t, p) = Some c) as Hc1 by (by rewrite Hview1).
  destruct (pg_write _ _ _ _ _ _ _ _ _ (same_rows_ok _ _ Hrows Hok0) Hc1 Hu Hv Hj Hins Hupd)
    as (Hok' & Hview & Her). rewrite Hview1 in Hview.
  apply (keeps_put _ _ _ _ _ _ _ Hok' Hview); [done|by intros c' Hc'; simplify_eq|].
  assert (admit_effect (pg_view db) (t, p) revision at_ u
    (put_proposal (t, p) u (put_claim (claim_key c) p (pg_view db)))) as Hadmit.
  { exists c. split_and!; try done; by apply eq_None_not_Some. }
  by case_claim.
Qed.

(** ** The retention store *)

Lemma erasable_status s :
  s ∉ [EXECUTING; FAILED_UNKNOWN; VERIFICATION_PENDING] → s ∈ ERASABLE_LIFECYCLE_STATUSES.
Proof. intros H. apply (bool_decide_unpack _). destruct s; try done; exfalso; apply H; set_solver. Qed.

Lemma pg_mark_keeps t p revision at_ db :
  pg_ok db →
  keeps db (MarkErasurePending t p revision at_)
    (pg_mark_erasure_pending t p revision at_ db).1 (pg_mark_erasure_pending t p revision at_ db).2.
Proof.
  intros Hok. unfold pg_mark_erasure_pending.
  apply commit_spec; [intros; by apply keeps_error|]. intros b db' H. txn_step H. txn_step H.
  destruct (pg_proposals (id db) !! (t, p)) as [row|] eqn:Hrow; [|txn_step H; by apply keeps_same].
  split_if; [|txn_step H; by apply keeps_same]. to_prop. cbn [id] in *.
  destruct (ok_rows _ Hok _ _ Hrow) as (c & changed & Hkey & -> & Hrep).
  txn_step H. apply update_row_Ok in Hstep as [_ ->]. txn_step H.
  match goal with |- keeps _ _ _ ?d => set (written := d) end.
  simpl in *. assert (proposals (pg_view db) !! (t, p) = Some c) as Hc.
  { rewrite pg_view_lookup, Hrow. rewrite Hkey in Hrow |- *. by rewrite (represents_load _ _ _ Hrep Hrow). }
  destruct Hrep as [He Hr Hv Ht].
  destruct (pg_put db written (proposal_with_erasure_pending c at_) changed) as [Hok' Hview]; try done.
  - unfold written. simpl. rewrite Hkey. done.
  - constructor; [done|done|by apply stored_proposal_valid_pending|done].
  - change (proposal_key (proposal_with_erasure_pending c at_)) with (proposal_key c) in Hview.
    rewrite <-Hkey in Hview. apply (keeps_put _ _ _ _ _ _ _ Hok' Hview); [done|intros c' Hc' [x' Hx']; congruence|].
    exists c. split_and!; try done; [by apply erasable_status|by right].
Qed.

Lemma pg_erase_keeps t p revision at_ db :
  pg_ok db →
  keeps db (CompleteErasure t p revision at_)
    (pg_complete_erasure t p revision at_ db).1 (pg_complete_erasure t p revision at_ db).2.
Proof.
  intros Hok. unfold pg_complete_erasure.
  apply commit_spec; [intros; by apply keeps_error|]. intros b db' H. txn_step H. txn_step H.
  destruct (pg_proposals (id db) !! (t, p)) as [row|] eqn:Hrow; [|txn_step H; by apply keeps_same].
  split_if; [|txn_step H; by apply keeps_same]. to_prop. cbn [id] in *.
  destruct (ok_rows _ Hok _ _ Hrow) as (c & changed & Hkey & -> & Hrep).
  do 2 txn_step H. txn_step H. apply update_row_Ok in Hstep as [_ ->]. txn_step H.
  match goal with |- keeps _ _ _ ?d => set (written := d) end.
  simpl in *. assert (proposals (pg_view db) !! (t, p) = Some c) as Hc.
  { rewrite pg_view_lookup, Hrow. rewrite Hkey in Hrow |- *. by rewrite (represents_load _ _ _ Hrep Hrow). }
  destruct Hrep as [He Hr Hv Ht].
  destruct (pg_put db written (erased_proposal c at_) changed) as [Hok' Hview]; try done.
  - unfold written. simpl. rewrite Hkey. done.
  - intros k Hne. unfold written. simpl. rewrite !rows_of_delete, !decide_False by (by rewrite Hkey). done.
  - constructor; [..|by apply stored_proposal_valid_erased|done]; unfold written; simpl;
      by rewrite rows_of_delete, decide_True.
  - change (proposal_key (erased_proposal c at_)) with (proposal_key c) in Hview.
    rewrite <-Hkey in Hview. apply (keeps_put _ _ _ _ _ _ _ Hok' Hview); [done|intros c' Hc' [x' Hx']; congruence|].
    exists c. by split_and!.
Qed.

(** * Updates that the server takes *)

(** Beyond the contract: the protected members are untouched, the deadline
    follows the creation, receipt references differ, the numbers are in range
    and the server takes the document. *)
Record acceptable (current updated : StoredProposal) : Prop := {
  acc_valid : stored_proposal_valid updated = true;
  acc_stable : json_stable updated = true;
  acc_accepts : jsonb_accepts (_parent_data updated) = true;
  acc_snapshot : sp_protected_private_snapshot updated = sp_protected_private_snapshot current;
  acc_commitment : sp_commitment updated = sp_commitment current;
  acc_pending : sp_erasure_pending_at updated = sp_erasure_pending_at current;
  acc_erased : sp_erased_at updated = sp_erased_at current;
  acc_expires : (sp_created_at updated < sp_expires_at updated)%Z;
  acc_receipts : NoDup ((λ r, rb_receipt_reference (receipt_base r)) <$> sp_receipts updated);
  acc_version : pg_integer (at_version (sp_action_type updated)) = true;
  acc_revision : pg_bigint (sp_revision current) = true ∧ pg_bigint (sp_revision updated) = true
}.

Lemma numbered_bound {A B} (f : Z → A → B) (column : B → Z) start l r :
  (∀ n x, column (f n x) = n) → r ∈ numbered f start l →
  (column r < start + Z.of_nat (length l))%Z.
Proof.
  intros Hc. revert start. induction l as [|x l IH]; intros start; simpl; [by intros ?%elem_of_nil|].
  intros [->|Hr]%elem_of_cons; [rewrite Hc; lia|]. specialize (IH _ Hr). lia.
Qed.

Lemma numbered_elem {A B} (f : Z → A → B) start l r :
  r ∈ numbered f start l → ∃ n x, r = f n x ∧ x ∈ l.
Proof.
  revert start. induction l as [|x l IH]; intros start; simpl; [by intros ?%elem_of_nil|].
  intros [->|Hr]%elem_of_cons; [exists start, x; split; [done|left]|].
  destruct (IH _ Hr) as (n & y & -> & Hy). exists n, y. split; [done|by right].
Qed.

Lemma rows_of_elem {A} (key_of : A → ProposalKey) key (l : list A) r :
  r ∈ rows_of key_of key l ↔ r ∈ l ∧ key_of r = key.
Proof.
  unfold rows_of. rewrite !list_elem_of_In, filter_In. by rewrite bool_decide_eq_true.
Qed.

Lemma bind_succeeds {A B} (m : txn A) (f : A → txn B) db a db1 r :
  m db = (Ok a, db1) → f a db1 = r → (m ≫= f) db = r.
Proof. unfold mbind, txn_bind. by intros ->. Qed.

Lemma require_succeeds b k db : b = true → require b k db = (Ok tt, db).
Proof. by intros ->. Qed.

Lemma insert_evidence_succeeds r db :
  evidence_checks r = true → evidence_parent r db = true →
  (∀ x, x ∈ pg_evidence db → er_key x = er_key r → er_sequence x ≠ er_sequence r) →
  insert_evidence r db = (Ok tt, set_pg_evidence (pg_evidence db ++ [r]) db).
Proof.
  intros Hc Hp Hf. unfold insert_evidence. eapply bind_succeeds; [done|].
  eapply bind_succeeds; [by apply require_succeeds|].
  eapply bind_succeeds; [apply require_succeeds|eapply bind_succeeds; [by apply require_succeeds|done]].
  apply negb_true_iff, existsb_false_elem. intros x Hx. apply andb_false_iff.
  destruct (decide (er_key x = er_key r)) as [Hk|]; [right|left; by apply bool_decide_eq_false_2].
  by apply Z.eqb_neq, Hf.
Qed.

Lemma insert_receipt_succeeds r db :
  receipt_checks r = true → is_Some (pg_proposals db !! rr_key r) →
  (∀ x, x ∈ pg_receipts db → rr_key x = rr_key r →
     rr_sequence x ≠ rr_sequence r ∧ rr_receipt_reference x ≠ rr_receipt_reference r) →
  insert_receipt r db = (Ok tt, set_pg_receipts (pg_receipts db ++ [r]) db).
Proof.
  intros Hc Hp Hf. unfold insert_receipt. eapply bind_succeeds; [done|].
  eapply bind_succeeds; [by apply require_succeeds|].
  eapply bind_succeeds; [apply require_succeeds|
    eapply bind_succeeds; [by apply require_succeeds, bool_decide_eq_true_2|done]].
  apply negb_true_iff, existsb_false_elem. intros x Hx. unfold receipt_conflict. apply andb_false_iff.
  destruct (decide (rr_key x = rr_key r)) as [Hk|]; [right|left; by apply bool_decide_eq_false_2].
  destruct (Hf x Hx Hk). apply orb_false_iff. by rewrite Z.eqb_neq, bool_decide_eq_false.
Qed.

(** Inserting the evidence that follows [stored]. *)
Lemma insert_evidence_all p digest stored l db :
  (∀ n e, e ∈ l → (0 <= n)%Z → evidence_checks (evidence_row p digest n e) = true) →
  (∀ n e, evidence_parent (evidence_row p digest n e) db = true) →
  rows_of er_key (proposal_key p) (pg_evidence db) = numbered (evidence_row p digest) 0 stored →
  executemany (λ n e, insert_evidence (evidence_row p digest n e)) (Z.of_nat (length stored)) l db =
  (Ok tt, set_pg_evidence
    (pg_evidence db ++ numbered (evidence_row p digest) (Z.of_nat (length stored)) l) db).
Proof.
  revert stored db. induction l as [|e l IH]; intros stored db Hc Hp Hrows; cbn [executemany numbered].
  { destruct db. unfold set_pg_evidence. simpl. by rewrite app_nil_r. }
  eapply bind_succeeds.
  { apply insert_evidence_succeeds; [apply Hc; [left|lia]|apply Hp|]. intros x Hx Hk.
    assert (x ∈ rows_of er_key (proposal_key p) (pg_evidence db)) as Hr by by apply rows_of_elem.
    rewrite Hrows in Hr. apply (numbered_bound _ er_sequence) in Hr; [simpl; lia|done]. }
  replace (Z.of_nat (length stored) + 1)%Z with (Z.of_nat (length (stored ++ [e])))
    by (rewrite length_app; simpl; lia).
  rewrite IH.
  - unfold set_pg_evidence. simpl. by rewrite <-app_assoc.
  - intros. apply Hc; [by right|done].
  - done.
  - simpl. rewrite rows_of_app, Hrows, (rows_of_all _ _ [_]), numbered_app; [done|].
    by intros r ->%list_elem_of_singleton.
Qed.

Lemma insert_receipts_all p stored l db :
  (∀ n r, r ∈ l → (0 <= n)%Z → receipt_checks (receipt_row p n r) = true) →
  is_Some (pg_proposals db !! proposal_key p) →
  NoDup ((λ r, rb_receipt_reference (receipt_base r)) <$> (stored ++ l)) →
  rows_of rr_key (proposal_key p) (pg_receipts db) = numbered (receipt_row p) 0 stored →
  executemany (λ n r, insert_receipt (receipt_row p n r)) (Z.of_nat (length stored)) l db =
  (Ok tt, set_pg_receipts
    (pg_receipts db ++ numbered (receipt_row p) (Z.of_nat (length stored)) l) db).
Proof.
  revert stored db. induction l as [|e l IH]; intros stored db Hc Hp Hnd Hrows; cbn [executemany numbered].
  { destruct db. unfold set_pg_receipts. simpl. by rewrite app_nil_r. }
  eapply bind_succeeds.
  { apply insert_receipt_succeeds; [apply Hc; [left|lia]|done|]. intros x Hx Hk.
    assert (x ∈ rows_of rr_key (proposal_key p) (pg_receipts db)) as Hr by by apply rows_of_elem.
    rewrite Hrows in Hr. split; [apply (numbered_bound _ rr_sequence) in Hr; [simpl; lia|done]|].
    apply numbered_elem in Hr as (n & y & -> & Hy). simpl. intros Heq.
    rewrite fmap_app in Hnd. apply list.NoDup_app in Hnd as (_ & Hnd & _).
    apply (Hnd (rb_receipt_reference (receipt_base y))); [apply list_elem_of_fmap; by exists y|].
    simpl. rewrite Heq. left. }
  replace (Z.of_nat (length stored) + 1)%Z with (Z.of_nat (length (stored ++ [e])))
    by (rewrite length_app; simpl; lia).
  rewrite IH.
  - unfold set_pg_receipts. simpl. by rewrite <-app_assoc.
  - intros. apply Hc; [by right|done].
  - done.
  - by rewrite <-app_assoc.
  - simpl. rewrite rows_of_app, Hrows, (rows_of_all _ _ [_]), numbered_app; [done|].
    by intros r ->%list_elem_of_singleton.
Qed.

Lemma insert_children_succeeds c u changed db :
  represents db c → pg_proposals db !! proposal_key c = Some (parent_row c changed) →
  update_ok c u → acceptable c u →
  ∃ db', _insert_children (Some c) u db = (Ok tt, db') ∧ pg_proposals db' = pg_proposals db.
Proof.
  intros [He Hr _ Ht] Hrow Hu Ha.
  destruct (update_ok_keys _ _ Hu) as [Hkey _].
  assert (Hid := update_identity _ _ Hu). unfold proposal_identity in Hid. injection Hid as _ _ Hi3 Hi4 _ _.
  destruct (same_rows_numbered c u) as [Ere Err]; [done|by rewrite Hi3|done|].
  destruct (accepted_prefix c u Hu (acc_erased _ _ Ha) Ht) as [[es Hes] [rs Hrs]].
  rewrite <-Hkey in He, Hr, Hrow. unfold _insert_children. cbn [fmap option_fmap option_map compose default id].
  rewrite Hes, Hrs, !drop_app_length.
  assert (∀ db0, pg_proposals db0 = pg_proposals db → pg_receipts db0 = pg_receipts db →
    executemany (λ n r, insert_receipt (receipt_row u n r)) (Z.of_nat (length (sp_receipts c))) rs db0 =
    (Ok tt, set_pg_receipts (pg_receipts db0 ++ numbered (receipt_row u) (Z.of_nat (length (sp_receipts c))) rs) db0))
    as Hreceipts.
  { intros db0 Hp0 Hr0. apply insert_receipts_all.
    - intros n r Hin Hn. unfold receipt_checks. simpl.
      rewrite (bindings_receipts _ (update_bindings _ _ Hu) r) by (rewrite Hrs; apply elem_of_app; by right).
      by rewrite !bool_decide_eq_true_2, (proj2 (Z.leb_le _ _) Hn).
    - rewrite Hp0, Hrow. by eexists.
    - rewrite <-Hrs. apply Ha.
    - rewrite Hr0, Hr. unfold receipt_rows. by rewrite Err. }
  destruct es as [|e es].
  { eexists. split; [eapply bind_succeeds; [done|by apply Hreceipts]|done]. }
  assert (∀ x, x ∈ e :: es → evidence_matches_proposal x u = true) as Hmatch.
  { intros x Hx. apply (bindings_evidence _ (update_bindings _ _ Hu)). rewrite Hes. apply elem_of_app. by right. }
  assert (Hfirst := Hmatch e ltac:(left)). unfold evidence_matches_proposal in Hfirst, Hmatch.
  destruct (sp_commitment u) as [k|] eqn:Hk; [clear Hfirst|done].
  assert (Hdigest : _commitment_digest c = Some (kc_digest k)).
  { unfold _commitment_digest. by rewrite <-(acc_commitment _ _ Ha), Hk. }
  assert (Hins := insert_evidence_all u (kc_digest k) (sp_authority_evidence c) (e :: es) db).
  eexists. split; [eapply bind_succeeds; [apply Hins|by apply Hreceipts]|done].
  - intros n x Hx Hn. specialize (Hmatch x Hx). to_prop. unfold evidence_checks. simpl.
    rewrite !bool_decide_eq_true_2 by congruence. by rewrite (proj2 (Z.leb_le _ _) Hn).
  - intros n x. unfold evidence_parent. cbn [evidence_row er_key]. rewrite Hrow.
    cbn [parent_row evidence_row pr_action_key pr_semantic_effect_reference pr_commitment_digest
         er_action_key er_semantic_effect_reference er_commitment_digest].
    by rewrite !bool_decide_eq_true_2 by congruence.
  - rewrite He. unfold evidence_rows. by rewrite Hdigest, Ere.
Qed.

Lemma update_parent_succeeds c u changed db :
  pg_proposals db !! proposal_key c = Some (parent_row c changed) →
  update_ok c u → acceptable c u → ∃ db', _update_parent c u db = (Ok tt, db').
Proof.
  intros Hrow Hu Ha. destruct (acc_revision _ _ Ha) as [Hr1 Hr2].
  assert (Hid := update_identity _ _ Hu). unfold proposal_identity in Hid. injection Hid as _ _ Hi3 _ _ Hi6.
  eexists. unfold _update_parent.
  eapply bind_succeeds; [apply require_succeeds; by rewrite Hr1, Hr2|].
  eapply bind_succeeds; [eapply bind_succeeds; [apply require_succeeds, Ha|done]|].
  eapply bind_succeeds; [done|]. eapply bind_succeeds; [done|].
  cbn [id pg_proposals]. rewrite Hrow. cbn [parent_row pr_revision pr_lifecycle_status].
  rewrite Z.eqb_refl, bool_decide_eq_true_2 by done. cbn [andb].
  unfold update_row, enforce_proposal_update. cbn [pr_revision].
  eapply bind_succeeds; [by apply require_succeeds|].
  eapply bind_succeeds.
  { eapply bind_succeeds; [apply require_succeeds|eapply bind_succeeds; [apply require_succeeds|done]].
    - apply bool_decide_eq_true_2. unfold protected_members. simpl.
      by rewrite (acc_snapshot _ _ Ha), (acc_commitment _ _ Ha), (acc_pending _ _ Ha), (acc_erased _ _ Ha).
    - rewrite bool_decide_eq_true_2 by done. simpl. rewrite (update_revision _ _ Hu), Z.eqb_refl. simpl.
      destruct (update_status _ _ Hu) as [->|Hs]; [by rewrite bool_decide_eq_true_2|].
      by rewrite (bool_decide_eq_true_2 _ Hs), orb_true_r. }
  eapply bind_succeeds; [apply require_succeeds|eapply bind_succeeds; done].
  assert (Hv := acc_valid _ _ Ha). unfold stored_proposal_valid in Hv.
  repeat (apply andb_prop in Hv as [Hv ?]). unfold action_type_valid in *. to_prop.
  assert (He := acc_expires _ _ Ha). unfold proposal_checks. simpl.
  rewrite Hi3, Hi6, !andb_true_iff, !Z.ltb_lt, Z.leb_le. lia.
Qed.

Lemma cas_succeeds t p revision statuses c u db :
  pg_ok db → proposals (pg_view db) !! (t, p) = Some c → sp_revision c = revision →
  sp_lifecycle_status c ∈ statuses → update_ok c u → acceptable c u →
  (sp_lifecycle_status u = EXECUTING → sp_lifecycle_status c ≠ EXECUTING →
   effect_claims (pg_view db) !! claim_key c = Some (sp_proposal_reference c)) →
  (pg_compare_and_set t p revision statuses u db).1 = Ok true.
Proof.
  intros Hok Hc Hrev Hst Hu Ha Hcl. destruct (pg_ok_lookup _ _ _ Hok Hc) as (Hkey & Hrep & changed & Hrow).
  rewrite Hkey in Hrow.
  destruct (insert_children_succeeds c u changed db Hrep Hrow Hu Ha) as (db1 & Hins & Hsame).
  rewrite <-Hsame in Hrow. destruct (update_parent_succeeds c u changed db1 Hrow Hu Ha) as (db2 & Hupd).
  assert (Hid := update_identity _ _ Hu). unfold proposal_identity in Hid. injection Hid as _ _ Hi3 _ _ _.
  enough ((pg_compare_and_set t p revision statuses u db) = (Ok true, db2)) as -> by done.
  unfold pg_compare_and_set, commit.
  match goal with |- match ?m with _ => _ end = _ => enough (m = (Ok true, db2)) as -> by done end.
  eapply bind_succeeds; [unfold _load; by rewrite pg_ok_load|]. rewrite Hc.
  rewrite Hrev, Z.eqb_refl, (bool_decide_eq_true_2 _ Hst). cbn [negb orb].
  eapply bind_succeeds; [unfold lift; by rewrite (proj2 (validate_update_ok c u) Hu)|].
  eapply (bind_succeeds _ _ _ tt db).
  { destruct (_ && _) eqn:Hif; [|done]. to_prop. unfold _claim_owner.
    eapply bind_succeeds; [eapply bind_succeeds; [apply require_succeeds; rewrite Hi3; apply Ha|done]|].
    apply require_succeeds, bool_decide_eq_true_2. rewrite pg_claim_owner_view. by apply Hcl. }
  eapply bind_succeeds; [exact Hins|]. by eapply bind_succeeds; [exact Hupd|].
Qed.

(** * Histories *)

(** What is handed to the store is a valid proposal whose documents [jsonb]
    keeps. *)
Definition pg_storable (o : store_op) : bool :=
  match o with
  | Create p | CompareAndSet _ _ _ _ p | AdmitExecution _ _ _ _ p =>
      stored_proposal_valid p && jsonb_document p
  | _ => true
  end.

(** ... and its dictionaries are written by name. *)
Definition pg_kept (o : store_op) : bool :=
  match o with
  | Create p | CompareAndSet _ _ _ _ p | AdmitExecution _ _ _ _ p =>
      stored_proposal_valid p && json_stable p
  | _ => true
  end.

Lemma jsonb_exact_by_name v : jsonb_exact (by_name v) = jsonb_exact v.
Proof.
  induction v as [| | | | |l IH|o IH] using json_ind'; try done.
  - simpl. induction IH as [|x l Hx _ IHl]; simpl; [done|]. by rewrite Hx, IHl.
  - rewrite by_name_JObj. simpl. apply forallb_by_name. eapply List.Forall_impl; [|exact IH]. by intros [k x].
Qed.

Lemma jsonb_document_by_name p : jsonb_document (by_name_record p) = jsonb_document p.
Proof.
  unfold jsonb_document. rewrite json_fields_by_name. cbn [by_name_record sp_display_preview sp_safe_result].
  rewrite <-by_name_JObj, jsonb_exact_by_name. f_equal. destruct (sp_safe_result p) as [o|]; [|done].
  cbn [fmap option_fmap option_map optional]. by rewrite <-by_name_JObj, jsonb_exact_by_name.
Qed.

Lemma json_stable_by_name p : jsonb_document p = true → json_stable (by_name_record p) = true.
Proof.
  intros Hj. assert (Hf := Hj). unfold jsonb_document in Hf. apply andb_prop in Hf as [Hf _].
  apply andb_prop in Hf as [Hf _].
  unfold json_stable. rewrite jsonb_document_by_name, Hj, by_name_record_idemp by done.
  by rewrite bool_decide_eq_true_2.
Qed.

(** Every history of storable records is one of kept records, its dictionaries
    written by name. *)
Lemma kept_by_name os : forallb pg_storable os = true → forallb pg_kept (by_name_op <$> os) = true.
Proof.
  induction os as [|o os IH]; [done|]. cbn [forallb]. intros [Ho Hos]%andb_prop.
  cbn [fmap list_fmap forallb]. rewrite IH, andb_true_r by done.
  destruct o; simpl in *; try done; apply andb_prop in Ho as [Hv Hj];
    by rewrite stored_proposal_valid_by_name, Hv, json_stable_by_name.
Qed.

Definition fresh_pg (clock : nat → datetime) : PgDatabase := mkPgDatabase ∅ [] [] ∅ clock 0.

Fixpoint pg_run_all (os : list store_op) (db : PgDatabase) : list store_event * PgDatabase :=
  match os with
  | [] => ([], db)
  | o :: os' =>
      let '(r, db1) := pg_run o db in
      let '(es, db2) := pg_run_all os' db1 in
      (StoreEvent o r :: es, db2)
  end.

Lemma pg_run_keeps o db :
  pg_ok db → pg_kept o = true → keeps db o (pg_run o db).1 (pg_run o db).2.
Proof.
  intros Hok Hs. destruct o as [p|t p|t p rev sts u|t p rev at_ u|t a e|t p rev at_|t p rev at_];
    simpl in Hs; to_prop.
  - by apply pg_create_keeps.
  - cbn [pg_run]. unfold pg_get. apply commit_spec; [intros; by apply keeps_error|].
    intros x db' H. apply load_Ok in H as [-> ->]; [|done]. apply keeps_same; [done..|].
    split; [done|]. by intros y [= <-].
  - by apply pg_cas_keeps.
  - by apply pg_admit_keeps.
  - cbn [pg_run]. unfold pg_get_effect_claim_owner, _claim_owner.
    destruct (pg_integer (at_version a)); simpl; [|by apply keeps_error].
    apply keeps_same; [done..|]. split; [done|]. intros y [= <-]. apply pg_claim_owner_view.
  - by apply pg_mark_keeps.
  - by apply pg_erase_keeps.
Qed.

Lemma fresh_pg_ok clock : pg_ok (fresh_pg clock).
Proof. constructor; [|done]. intros key row H. simpl in H. by rewrite lookup_empty in H. Qed.

Lemma fresh_pg_view clock : pg_view (fresh_pg clock) = empty_view.
Proof. unfold pg_view, empty_view. simpl. by rewrite fmap_empty. Qed.

Lemma pg_history os db :
  pg_ok db → forallb pg_kept os = true →
  contract_trace (pg_view db) (pg_run_all os db).1 (pg_view (pg_run_all os db).2) ∧
  pg_ok (pg_run_all os db).2 ∧ erasures_kept (pg_view db) (pg_view (pg_run_all os db).2).
Proof.
  revert db. induction os as [|o os IH]; intros db Hok Hs.
  { split_and!; [constructor|done|apply erasures_kept_refl]. }
  cbn [forallb] in Hs. to_prop. destruct (pg_run_keeps o db) as (Hc & Hok1 & He1); [done..|].
  cbn [pg_run_all]. destruct (pg_run o db) as [r db1]. simpl in Hc, Hok1, He1.
  destruct (IH db1) as (Ht & Hok2 & He2); [done..|].
  destruct (pg_run_all os db1) as [es db2]. simpl in *. split_and!; [by econstructor|done|].
  intros k p Hp Hx. destruct (He1 k p Hp Hx) as (q & Hq & Eq).
  destruct (He2 k q Hq) as (w & Hw & Ew); [by rewrite Eq|]. exists w. by rewrite Ew.
Qed.

(** * The interface *)

(** The store as an [ActionStore], for clients that hand over valid proposals
    whose free-form members [jsonb] keeps, their dictionaries written by name:
    another operation is not performed. *)
Record PgSystem := mkPgSystem { pg_db : PgDatabase; pg_db_ok : pg_ok pg_db }.

Definition pg_system_run (o : store_op) (s : PgSystem) : res (store_resp o) * PgSystem :=
  match Bool.bool_dec (pg_kept o) true with
  | left Hs =>
      ((pg_run o (pg_db s)).1,
       mkPgSystem (pg_run o (pg_db s)).2 (proj1 (proj2 (pg_run_keeps o (pg_db s) (pg_db_ok s) Hs))))
  | right _ => (fail DataError, s)
  end.

Lemma pg_system_contract o s :
  contract (pg_view (pg_db s)) o (pg_system_run o s).1 (pg_view (pg_db (pg_system_run o s).2)).
Proof.
  unfold pg_system_run. destruct (Bool.bool_dec (pg_kept o) true) as [Hs|Hs]; simpl.
  - by apply pg_run_keeps; [apply pg_db_ok|].
  - apply contract_error.
Qed.

Definition postgres_action_store (clock : nat → datetime) : ActionStore PgSystem := {|
  store_empty := mkPgSystem (fresh_pg clock) (fresh_pg_ok clock);
  store_run := pg_system_run;
  store_view s := pg_view (pg_db s);
  store_empty_view := fresh_pg_view clock;
  store_contract := pg_system_contract
|}.

(** * Properties *)

(** C27: the PostgreSQL store over its three tables, with the constraints, trigger
    and functions of the schema, is a history of the persistence contract,
    whatever the server refuses, and leaves the view well-formed.  Dictionaries
    are values without order: [jsonb] may return their members in any order, and
    the history is stated over their representatives ([by_name_op]), one for each
    dictionary.  Supposed: the records handed over are valid models whose two
    free-form members are JSON documents (distinct keys, encodable text, finite
    numbers), without floats that [jsonb] writes as integers ([jsonb_exact]:
    those of magnitude below [2 ^ 53] are kept). *)
Theorem postgres_store_refines_contract (os : list store_op) (clock : nat → datetime)
  (Hs : forallb pg_storable os = true) :
  let run := pg_run_all (by_name_op <$> os) (fresh_pg clock) in
  contract_trace empty_view run.1 (pg_view run.2) ∧ view_ok (pg_view run.2).
Proof.
  destruct (pg_history _ (fresh_pg clock) (fresh_pg_ok clock) (kept_by_name os Hs)) as (Ht & _ & _).
  rewrite fresh_pg_view in Ht. split; [done|]. eapply view_ok_trace, Ht. apply view_ok_empty.
Qed.

(** In the PostgreSQL store a tombstone stays: once a record is erased, no
    history brings it back or changes the time of its erasure. *)
Theorem postgres_tombstones_stay (os os' : list store_op) (clock : nat → datetime)
  (k : ProposalKey) (p : StoredProposal) (Hs : forallb pg_kept os = true)
  (Hs' : forallb pg_kept os' = true)
  (Hp : proposals (pg_view (pg_run_all os (fresh_pg clock)).2) !! k = Some p)
  (Herased : is_Some (sp_erased_at p)) :
  ∃ p', proposals (pg_view (pg_run_all os' (pg_run_all os (fresh_pg clock)).2).2) !! k = Some p' ∧
    sp_erased_at p' = sp_erased_at p ∧ holds_content p' = false.
Proof.
  destruct (pg_history os _ (fresh_pg_ok clock) Hs) as (_ & Hok & _).
  destruct (pg_history os' _ Hok Hs') as (_ & Hok' & Hkept).
  destruct (Hkept k p Hp Herased) as (p' & Hp' & He). exists p'. split_and!; [done..|].
  destruct (pg_ok_lookup _ _ _ Hok' Hp') as (_ & Hrep & _).
  apply (rep_tombstone _ _ Hrep). by rewrite He.
Qed.

(** The PostgreSQL store applies every update the contract allows, when it
    leaves the protected members alone and the server takes its document. *)
Theorem postgres_applies_updates (os : list store_op) (clock : nat → datetime) (t p : pystr)
  (revision : Z) (statuses : list LifecycleStatus) (updated : StoredProposal) (v' : StoreView)
  (Hs : forallb pg_kept os = true) (db := (pg_run_all os (fresh_pg clock)).2)
  (Hcas : cas_effect (pg_view db) (t, p) revision statuses updated v')
  (Haccept : ∀ current, proposals (pg_view db) !! (t, p) = Some current → acceptable current updated) :
  (pg_compare_and_set t p revision statuses updated db).1 = Ok true.
Proof.
  destruct (pg_history os _ (fresh_pg_ok clock) Hs) as (_ & Hok & _).
  destruct Hcas as (c & Hc & Hrev & Hst & Hu & Hcl & _). eapply cas_succeeds; eauto.
Qed.

End Refinement.
