(* ===== verification/Recovery.v ===== *)
(** Recovery projections ([recovery.py]): the condition of a stored revision
    and the operation it suggests. *)

From S2P Require Import Prelude Models Receipts.

Inductive ActionRecoveryCondition :=
  | WAITING_FOR_AUTHORITY
  | READY_FOR_EXECUTION
  | EFFECT_OWNED_ELSEWHERE
  | ACTIVE_EXECUTION_LEASE
  | WAITING_FOR_PROVIDER
  | OBSERVATION_UNAVAILABLE
  | OUTCOME_UNPROVEN
  | OPERATOR_ATTENTION
  | RESOLVED
  | REPLACEMENT_REQUIRED
  | REFUSED
  | EXPIRY_DUE
  | RECOVERY_ERASED.

Inductive ActionRecoveryOperation :=
  | RO_AWAIT_AUTHORITY
  | RO_EXPIRE
  | RO_EXECUTE
  | RO_WAIT
  | RO_RECONCILE
  | RO_INSPECT_OWNER
  | RO_OPERATOR_REVIEW
  | RO_VIEW_RECORDED_OUTCOME
  | RO_PREPARE_REPLACEMENT
  | RO_NO_ACTION.

Inductive ActionWorkOperation := WO_EXECUTE | WO_EXPIRE | WO_RECONCILE | WO_ATTENTION.

Inductive ActionEffectOwnership :=
  | UNCLAIMED
  | OWNED_BY_THIS_PROPOSAL
  | OWNED_ELSEWHERE
  | OBSERVATION_UNCERTAIN.

#[export] Instance ActionRecoveryCondition_eq_dec : EqDecision ActionRecoveryCondition.
Proof. solve_decision. Defined.
#[export] Instance ActionRecoveryOperation_eq_dec : EqDecision ActionRecoveryOperation.
Proof. solve_decision. Defined.
#[export] Instance ActionWorkOperation_eq_dec : EqDecision ActionWorkOperation.
Proof. solve_decision. Defined.
#[export] Instance ActionEffectOwnership_eq_dec : EqDecision ActionEffectOwnership.
Proof. solve_decision. Defined.

Record ActionRecoveryStep := mkActionRecoveryStep {
  st_operation : ActionRecoveryOperation;
  st_not_before : option datetime;
  st_reason_code : option pystr
}.

Record ActionRecoveryOwnerView := mkActionRecoveryOwnerView {
  ov_proposal_reference : pystr;
  ov_revision : Z;
  ov_lifecycle_status : LifecycleStatus;
  ov_condition : ActionRecoveryCondition;
  ov_next_check_at : option datetime
}.

Record ActionRecoveryView := mkActionRecoveryView {
  rw_proposal_reference : pystr;
  rw_lifecycle_status : LifecycleStatus;
  rw_revision : Z;
  rw_erased : bool;
  rw_observed_at : datetime;
  rw_expires_at : option datetime;
  rw_next_verification_at : option datetime;
  rw_verification_attempts : option Z;
  rw_max_verification_attempts : option Z;
  rw_last_verification_status : option VerificationReceiptStatus;
  rw_reason_code : option pystr;
  rw_condition : ActionRecoveryCondition;
  rw_effect_ownership : ActionEffectOwnership;
  rw_owner : option ActionRecoveryOwnerView;
  rw_recommended_steps : list ActionRecoveryStep
}.

(** ** Due work *)

Record ActionWorkCursor := mkActionWorkCursor {
  cu_due_at : datetime;
  cu_proposal_reference : pystr
}.

Record ActionWorkItem := mkActionWorkItem {
  wi_action_type : ActionType;
  wi_proposal_reference : pystr;
  wi_operation : ActionWorkOperation;
  wi_due_at : datetime;
  wi_reason_code : option pystr
}.

Record ActionWorkPage := mkActionWorkPage {
  wp_tenant_reference : pystr;
  wp_cutoff : datetime;
  wp_items : list ActionWorkItem;
  wp_next_cursor : option ActionWorkCursor
}.

Inductive RecoveryWorkerDisposition :=
  | COMPLETED
  | DEFERRED
  | ATTENTION
  | ALREADY_LEASED
  | LEASE_LOST.

#[export] Instance RecoveryWorkerDisposition_eq_dec : EqDecision RecoveryWorkerDisposition.
Proof. solve_decision. Defined.

Record RecoveryWorkerResult := mkRecoveryWorkerResult {
  wr_proposal_reference : pystr;
  wr_disposition : RecoveryWorkerDisposition;
  wr_operation : ActionWorkOperation;
  wr_reason_code : option pystr
}.

(** * Conditions and steps *)

(** [next_verification_at is not None and next_verification_at > observed_at]. *)
Definition lies_after (next_verification_at : option datetime) (observed_at : datetime) : bool :=
  match next_verification_at with
  | Some at_ => (observed_at <? at_)%Z
  | None => false
  end.

Definition recovery_condition (lifecycle_status : LifecycleStatus) (observed_at expires_at : datetime)
  (next_verification_at : option datetime)
  (last_verification_status : option VerificationReceiptStatus) : ActionRecoveryCondition :=
  if bool_decide (lifecycle_status ∈ [AWAITING_AUTHORITY; AUTHORIZED])
     && (expires_at <=? observed_at)%Z then EXPIRY_DUE
  else
    match lifecycle_status with
    | AWAITING_AUTHORITY => WAITING_FOR_AUTHORITY
    | AUTHORIZED => READY_FOR_EXECUTION
    | EXECUTING =>
        if lies_after next_verification_at observed_at then ACTIVE_EXECUTION_LEASE
        else OUTCOME_UNPROVEN
    | FAILED_UNKNOWN => OUTCOME_UNPROVEN
    | VERIFICATION_PENDING =>
        if lies_after next_verification_at observed_at then WAITING_FOR_PROVIDER
        else if bool_decide (last_verification_status = Some VR_TARGET_UNAVAILABLE) then
          OBSERVATION_UNAVAILABLE
        else if bool_decide (last_verification_status = Some VR_PROVISIONAL_ABSENCE) then
          WAITING_FOR_PROVIDER
        else OUTCOME_UNPROVEN
    | VERIFICATION_UNRESOLVED | PARTIALLY_SUCCEEDED => OPERATOR_ATTENTION
    | VERIFIED | FAILED_KNOWN => RESOLVED
    | STALE | SUPERSEDED => REPLACEMENT_REQUIRED
    | DENIED | EXPIRED | BLOCKED => REFUSED
    end.

Definition condition_operation (condition : ActionRecoveryCondition) : ActionRecoveryOperation :=
  match condition with
  | WAITING_FOR_AUTHORITY => RO_AWAIT_AUTHORITY
  | READY_FOR_EXECUTION => RO_EXECUTE
  | EFFECT_OWNED_ELSEWHERE => RO_INSPECT_OWNER
  | ACTIVE_EXECUTION_LEASE => RO_WAIT
  | WAITING_FOR_PROVIDER => RO_WAIT
  | OBSERVATION_UNAVAILABLE => RO_RECONCILE
  | OUTCOME_UNPROVEN => RO_RECONCILE
  | OPERATOR_ATTENTION => RO_OPERATOR_REVIEW
  | RESOLVED => RO_VIEW_RECORDED_OUTCOME
  | REPLACEMENT_REQUIRED => RO_PREPARE_REPLACEMENT
  | REFUSED => RO_NO_ACTION
  | EXPIRY_DUE => RO_EXPIRE
  | RECOVERY_ERASED => RO_NO_ACTION
  end.

Definition recovery_steps (condition : ActionRecoveryCondition)
  (next_verification_at : option datetime) (reason_code : option pystr) : list ActionRecoveryStep :=
  let not_before :=
    if bool_decide (condition ∈ [ACTIVE_EXECUTION_LEASE; WAITING_FOR_PROVIDER])
    then next_verification_at else None in
  [mkActionRecoveryStep (condition_operation condition) not_before reason_code].

(** * Facts *)

Lemma lies_after_true o t : lies_after o t = true ↔ ∃ at_, o = Some at_ ∧ (t < at_)%Z.
Proof.
  destruct o as [a|]; simpl; [|by split; [done|intros (? & ? & _)]].
  rewrite Z.ltb_lt. split; [eauto|by intros (? & [= ->] & ?)].
Qed.

Lemma lies_after_false o t : lies_after o t = false ↔ ∀ at_, o = Some at_ → (at_ <= t)%Z.
Proof.
  destruct o as [a|]; simpl; [|by split]. rewrite Z.ltb_ge.
  split; [by intros ? ? [= <-]|by intros H; apply H].
Qed.
