(* ===== verification/PostgresWork.v ===== *)
(** Due-work discovery on PostgreSQL ([PostgresActionWorkSource] of
    [stores/postgres.py]): keyset pages of the rows that need work at a cutoff.

    Parameter ([TextOrder]): the collation of the server, a total order on
    text. *)

From S2P Require Import Prelude Models Canonical Authority Receipts Registry StoreBase StoredValidity.
From S2P Require Import StoreContract Documents PostgresStore PostgresRefinement Recovery.
From stdpp Require Import sorting list.

Class TextOrder := {
  text_leb : pystr → pystr → bool;
  text_total : ∀ a b, text_leb a b = true ∨ text_leb b a = true;
  text_antisym : ∀ a b, text_leb a b = true → text_leb b a = true → a = b;
  text_trans : ∀ a b c, text_leb a b = true → text_leb b c = true → text_leb a c = true
}.

Record WorkRow := mkWorkRow {
  wr_action_key : ActionKey;
  wr_proposal_reference : pystr;
  wr_due_at : datetime;
  wr_operation : ActionWorkOperation;
  wr_work_reason_code : option pystr
}.

Definition unobserved (s : LifecycleStatus) : bool :=
  bool_decide (s ∈ [EXECUTING; FAILED_UNKNOWN; VERIFICATION_PENDING]).

Definition undecided (s : LifecycleStatus) : bool :=
  bool_decide (s ∈ [AWAITING_AUTHORITY; AUTHORIZED]).

(** The WHERE clause of [due] but for the tenant. *)
Definition is_due (cutoff : datetime) (row : ParentRow) : bool :=
  bool_decide (pd_erasure_pending_at (pr_proposal_data row) = None)
  && bool_decide (pd_erased_at (pr_proposal_data row) = None)
  && ((bool_decide (pr_lifecycle_status row = AWAITING_AUTHORITY) && (pr_expires_at row <=? cutoff)%Z)
      || (bool_decide (pr_lifecycle_status row = AUTHORIZED) && (pr_status_changed_at row <=? cutoff)%Z)
      || (unobserved (pr_lifecycle_status row)
          && match pr_next_verification_at row with
             | None => true
             | Some at_ => (at_ <=? cutoff)%Z
             end)).

(** Its SELECT list. *)
Definition work_row (cutoff : datetime) (reference : pystr) (row : ParentRow) : WorkRow :=
  let status := pr_lifecycle_status row in
  let expired := undecided status && (pr_expires_at row <=? cutoff)%Z in
  let unscheduled := unobserved status && bool_decide (pr_next_verification_at row = None) in
  mkWorkRow (pr_action_key row) reference
    (if expired then pr_expires_at row
     else if bool_decide (status = AUTHORIZED) then pr_status_changed_at row
     else default (pr_status_changed_at row) (pr_next_verification_at row))
    (if expired then WO_EXPIRE
     else if bool_decide (status = AUTHORIZED) then WO_EXECUTE
     else if unscheduled then WO_ATTENTION else WO_RECONCILE)
    (if unscheduled then Some "recovery_schedule_missing"%py else None).

Definition due (db : PgDatabase) (tenant_reference : pystr) (cutoff : datetime) : list WorkRow :=
  omap (λ '((tenant, reference), row),
    if bool_decide (tenant = tenant_reference) && is_due cutoff row
    then Some (work_row cutoff reference row) else None) (map_to_list (pg_proposals db)).

Section Work.
Context `{U : Unicode, T : TextOrder}.

(** The order of the pages: [due_at], then [proposal_reference]. *)
Definition position_leb (a b : datetime * pystr) : bool :=
  (a.1 <? b.1)%Z || ((a.1 =? b.1)%Z && text_leb a.2 b.2).

Definition position (r : WorkRow) : datetime * pystr := (wr_due_at r, wr_proposal_reference r).

Definition by_position (x y : WorkRow) : bool := position_leb (position x) (position y).

(** [(due_at, proposal_reference) > ($3, $4)]. *)
Definition after_cursor (cursor : option ActionWorkCursor) (r : WorkRow) : bool :=
  match cursor with
  | None => true
  | Some c => negb (position_leb (position r) (cu_due_at c, cu_proposal_reference c))
  end.

Definition _query (db : PgDatabase) (tenant_reference : pystr) (cutoff : datetime)
  (cursor : option ActionWorkCursor) (limit : nat) : list WorkRow :=
  take limit (order_by by_position (List.filter (after_cursor cursor) (due db tenant_reference cutoff))).

Definition work_item (row : WorkRow) : ActionWorkItem :=
  mkActionWorkItem
    (mkActionType (wr_action_key row).1.1 (wr_action_key row).1.2 (wr_action_key row).2)
    (wr_proposal_reference row) (wr_operation row) (wr_due_at row) (wr_work_reason_code row).

Definition _item (row : WorkRow) : res ActionWorkItem :=
  let item := work_item row in
  if action_type_valid (wi_action_type item) && safe_reference (wi_proposal_reference item)
     && optional safe_reference (wi_reason_code item)
  then Ok item else fail ValidationError.

Definition discover_due (db : PgDatabase) (tenant_reference : pystr) (cutoff : datetime) (limit : Z)
  (cursor : option ActionWorkCursor) : res ActionWorkPage :=
  if negb ((1 <=? limit)%Z && (limit <=? 500)%Z) then
    fail (ValueErrorLike "work discovery limit must be between 1 and 500")
  else
    let rows := _query db tenant_reference cutoff cursor (Z.to_nat (limit + 1)) in
    items ← mapM _item (take (Z.to_nat limit) rows);
    let next_cursor :=
      if (Z.to_nat limit <? length rows)%nat then
        (λ i, mkActionWorkCursor (wi_due_at i) (wi_proposal_reference i)) <$> list.last items
      else None in
    if safe_reference tenant_reference
    then Ok (mkActionWorkPage tenant_reference cutoff items next_cursor) else fail ValidationError.

(** The pages a client reads by following cursors. *)
Fixpoint pages_from (fuel : nat) (db : PgDatabase) (tenant_reference : pystr) (cutoff : datetime)
  (limit : Z) (cursor : option ActionWorkCursor) : list ActionWorkPage :=
  match fuel with
  | O => []
  | S fuel' =>
      match discover_due db tenant_reference cutoff limit cursor with
      | Err _ => []
      | Ok page =>
          page :: match wp_next_cursor page with
                  | None => []
                  | Some c => pages_from fuel' db tenant_reference cutoff limit (Some c)
                  end
      end
  end.

(** * Sorting *)

Section Sorting.
Context {A : Type} (leb : A → A → bool).
Hypothesis total : ∀ x y, leb x y = true ∨ leb y x = true.
Hypothesis trans : ∀ x y z, leb x y = true → leb y z = true → leb x z = true.

Abbreviation sorted := (StronglySorted (λ x y, leb x y = true)).

Lemma insert_by_perm x l : insert_by leb x l ≡ₚ x :: l.
Proof.
  induction l as [|y l IH]; simpl; [done|]. destruct (leb x y); [done|]. rewrite IH. constructor.
Qed.

Lemma order_by_perm l : order_by leb l ≡ₚ l.
Proof. induction l as [|x l IH]; simpl; [done|]. by rewrite insert_by_perm, IH. Qed.

Lemma insert_by_sorted x l : sorted l → sorted (insert_by leb x l).
Proof.
  induction 1 as [|y l Hl IH Hy]; simpl; [by repeat constructor|]. destruct (leb x y) eqn:E.
  - constructor; [by constructor|]. constructor; [done|].
    eapply Forall_impl; [exact Hy|]. eauto.
  - constructor; [done|]. rewrite insert_by_perm. constructor; [|done].
    by destruct (total x y); [congruence|].
Qed.

Lemma order_by_sorted l : sorted (order_by leb l).
Proof. induction l; simpl; [constructor|]. by apply insert_by_sorted. Qed.

Lemma insert_by_filter (P : A → bool) x l :
  sorted l →
  List.filter P (insert_by leb x l) =
  if P x then insert_by leb x (List.filter P l) else List.filter P l.
Proof.
  induction 1 as [|y l Hl IH Hy]; simpl; [by destruct (P x)|]. destruct (leb x y) eqn:E; simpl.
  - destruct (P x); [|done]. destruct (P y); simpl; [by rewrite E|].
    rewrite insert_by_head; [done|]. intros z Hz. apply list_elem_of_In, filter_In in Hz as [Hz _].
    eapply trans; [done|]. rewrite Forall_forall in Hy. apply Hy. by apply list_elem_of_In.
  - rewrite IH. destruct (P y), (P x); simpl; rewrite ?E; done.
Qed.

(** Filtering before or after the sort is the same. *)
Lemma order_by_filter (P : A → bool) l :
  order_by leb (List.filter P l) = List.filter P (order_by leb l).
Proof.
  induction l as [|x l IH]; simpl; [done|].
  rewrite insert_by_filter by apply order_by_sorted. destruct (P x); simpl; by rewrite IH.
Qed.

End Sorting.

(** * Positions *)

Lemma position_leb_spec a b :
  position_leb a b = true ↔ (a.1 < b.1)%Z ∨ a.1 = b.1 ∧ text_leb a.2 b.2 = true.
Proof. unfold position_leb. by rewrite orb_true_iff, andb_true_iff, Z.ltb_lt, Z.eqb_eq. Qed.

Lemma position_total a b : position_leb a b = true ∨ position_leb b a = true.
Proof.
  rewrite !position_leb_spec. destruct (text_total a.2 b.2), (Z.lt_trichotomy a.1 b.1) as [|[|]]; auto.
Qed.

Lemma position_trans a b c :
  position_leb a b = true → position_leb b c = true → position_leb a c = true.
Proof.
  rewrite !position_leb_spec. intros [?|[? ?]] [?|[? ?]]; [left; lia..|].
  right. split; [congruence|eauto using text_trans].
Qed.

Lemma position_antisym a b : position_leb a b = true → position_leb b a = true → a = b.
Proof.
  rewrite !position_leb_spec. destruct a, b; simpl. intros [?|[? ?]] [?|[? ?]]; [lia..|].
  f_equal; eauto using text_antisym.
Qed.

(** The due rows in the order of the pages. *)
Definition due_in_order (db : PgDatabase) (tenant_reference : pystr) (cutoff : datetime) : list WorkRow :=
  order_by by_position (due db tenant_reference cutoff).

Abbreviation strict := (StronglySorted (λ x y, position_leb (position y) (position x) = false)).

Lemma strict_of_sorted l :
  StronglySorted (λ x y, by_position x y = true) l → NoDup (wr_proposal_reference <$> l) → strict l.
Proof.
  induction 1 as [|x l Hl IH Hx]; [constructor|]. cbn [fmap list_fmap]. intros [Hn Hnd]%NoDup_cons.
  constructor; [by apply IH|]. rewrite Forall_forall in Hx |- *. intros y Hy.
  destruct (position_leb (position y) (position x)) eqn:E; [|done]. destruct Hn.
  apply list_elem_of_fmap. exists y. split; [|done].
  assert (position x = position y) as Hxy by (apply position_antisym; [by apply Hx|done]).
  unfold position in Hxy. congruence.
Qed.

Lemma due_references_NoDup db tenant cutoff :
  NoDup (wr_proposal_reference <$> due db tenant cutoff).
Proof.
  unfold due. assert (Hk := NoDup_fst_map_to_list (pg_proposals db)). revert Hk.
  induction (map_to_list (pg_proposals db)) as [|[[t r] row] l IH]; [constructor|].
  cbn [fmap list_fmap fst omap list_omap]. intros [Hn Hnd]%NoDup_cons.
  case_bool_decide as Ht; simpl; [|by apply IH].
  destruct (is_due cutoff row); simpl; [|by apply IH].
  apply NoDup_cons. split; [|by apply IH]. intros Hr. apply Hn.
  apply list_elem_of_fmap in Hr as (w & -> & Hw).
  apply list_elem_of_omap in Hw as ([[t' r'] row'] & Hin & Hw).
  apply list_elem_of_fmap. exists ((t', r'), row'). split; [|done].
  case_bool_decide; simplify_eq/=. by destruct (is_due cutoff row'); simplify_eq.
Qed.

Lemma due_in_order_strict db tenant cutoff : strict (due_in_order db tenant cutoff).
Proof.
  apply strict_of_sorted.
  - apply order_by_sorted; [intros; apply position_total|intros; by eapply position_trans].
  - unfold due_in_order. rewrite (order_by_perm by_position). apply due_references_NoDup.
Qed.

Definition cursor_of (r : WorkRow) : ActionWorkCursor :=
  mkActionWorkCursor (wr_due_at r) (wr_proposal_reference r).

(** The rows after the last row of a page. *)
Lemma filter_after l1 x l2 :
  strict (l1 ++ x :: l2) → List.filter (after_cursor (Some (cursor_of x))) (l1 ++ x :: l2) = l2.
Proof.
  unfold after_cursor, cursor_of. cbn [cu_due_at cu_proposal_reference].
  change (wr_due_at x, wr_proposal_reference x) with (position x).
  induction l1 as [|y l1 IH]; cbn [app List.filter]; intros H.
  - rewrite (proj2 (position_leb_spec _ _)) by (right; split; [done|by destruct (text_total (position x).2 (position x).2)]).
    cbn [negb]. inversion H as [|? ? _ Hx]; subst. clear H.
    induction Hx as [|z l2 Hz _ IH]; simpl; [done|]. rewrite Hz. simpl. by rewrite IH.
  - inversion H as [|? ? Hs Hy]; subst.
    assert (position_leb (position y) (position x) = true) as ->.
    { rewrite Forall_forall in Hy. specialize (Hy x ltac:(apply elem_of_app; right; left)).
      by destruct (position_total (position x) (position y)); [congruence|]. }
    simpl. by apply IH.
Qed.

(** * Pages *)

Context {V : PostgresServer}.

(** Unicode: the letters, digits and underscore of a name are in no [C]
    category. *)
Hypothesis names_plain : ∀ c, name_tail c = true → category_other c = false.

Lemma reason_safe : safe_reference "recovery_schedule_missing" = true.
Proof.
  unfold safe_reference, SafeReference, _validate_safe_reference.
  replace (existsb category_other (code_points "recovery_schedule_missing")) with false; [done|].
  symmetry. apply existsb_false_elem. intros c Hc. apply names_plain.
  revert c Hc. apply Forall_forall. by repeat constructor.
Qed.

Lemma _query_take db tenant cutoff cursor n :
  _query db tenant cutoff cursor n =
  take n (List.filter (after_cursor cursor) (due_in_order db tenant cutoff)).
Proof.
  unfold _query, due_in_order. rewrite order_by_filter; [done|..].
  - intros; apply position_total.
  - intros; by eapply position_trans.
Qed.

Lemma filter_all {A} (l : list A) : List.filter (λ _, true) l = l.
Proof. induction l; simpl; congruence. Qed.

(** The rows of a well-formed database make work items. *)
Lemma due_items db tenant cutoff row :
  pg_ok db → row ∈ due_in_order db tenant cutoff → _item row = Ok (work_item row).
Proof.
  intros [Hrows _]. unfold due_in_order. rewrite (order_by_perm by_position). unfold due.
  intros (((t, r), pr) & Hin & Hw)%list_elem_of_omap. case_bool_decide; [|done].
  destruct (is_due cutoff pr); simplify_eq/=. apply elem_of_map_to_list in Hin.
  destruct (Hrows _ _ Hin) as (p & changed & [= -> ->] & -> & Hrep). assert (Hv := rep_valid _ _ Hrep).
  unfold stored_proposal_valid in Hv. to_prop. unfold _item.
  match goal with H : action_type_valid _ = true |- _ => rename H into Ha end.
  match goal with H : safe_reference (sp_proposal_reference p) = true |- _ => rename H into Hr end.
  unfold work_item, work_row. cbn [wi_action_type wi_proposal_reference wi_reason_code wr_action_key
    wr_proposal_reference wr_work_reason_code pr_action_key parent_row].
  destruct (sp_action_type p). unfold _action_key. cbn [fst snd]. simpl in Ha |- *.
  rewrite Ha, Hr. cbn [andb]. destruct (unobserved _ && _); [|done].
  cbn [optional]. by rewrite reason_safe.
Qed.

Lemma mapM_items rows :
  (∀ row, row ∈ rows → _item row = Ok (work_item row)) → mapM _item rows = Ok (work_item <$> rows).
Proof.
  induction rows as [|row rows IH]; intros H; [done|]. cbn [mapM]. rewrite (H row) by left.
  simpl. rewrite IH; [done|]. intros x Hx. apply H. by right.
Qed.

Definition page_of (tenant : pystr) (cutoff : datetime) (rows : list WorkRow)
  (cursor : option ActionWorkCursor) : ActionWorkPage :=
  mkActionWorkPage tenant cutoff (work_item <$> rows) cursor.

(** One page: the first rows after the cursor, and the cursor of the rest. *)
Lemma discover_due_page db tenant cutoff limit cursor rest n :
  pg_ok db → safe_reference tenant = true → (1 <= limit <= 500)%Z → n = Z.to_nat limit →
  List.filter (after_cursor cursor) (due_in_order db tenant cutoff) = rest →
  discover_due db tenant cutoff limit cursor =
  Ok (page_of tenant cutoff (take n rest)
    (if (n <? length rest)%nat then cursor_of <$> list.last (take n rest) else None)).
Proof.
  intros Hok Ht Hl -> Hrest. unfold discover_due.
  rewrite (proj2 (Z.leb_le 1 limit)), (proj2 (Z.leb_le limit 500)) by lia. cbn [andb negb].
  cbv zeta. rewrite _query_take, Hrest, take_take. replace (_ `min` _)%nat with (Z.to_nat limit) by lia.
  rewrite mapM_items.
  2:{ intros row Hr. eapply due_items; [done|]. apply list_elem_of_In.
      assert (row ∈ rest) as Hin by (by eapply elem_of_sublist, sublist_take).
      rewrite <-Hrest, list_elem_of_In, filter_In in Hin. apply Hin. }
  cbn [mbind]. simpl. rewrite Ht, length_take. unfold page_of. repeat f_equal.
  replace (Z.to_nat limit <? _)%nat with (Z.to_nat limit <? length rest)%nat.
  - rewrite fmap_last. destruct (_ <? _)%nat; [|done]. by destruct (list.last _).
  - apply eq_true_iff_eq. rewrite !Nat.ltb_lt. lia.
Qed.

Lemma take_snoc {A} n (l : list A) :
  n ≠ 0%nat → (n < length l)%nat → ∃ l1 x, take n l = l1 ++ [x] ∧ l = l1 ++ x :: drop n l.
Proof.
  intros Hn Hl. destruct (List.exists_last (l := take n l)) as (l1 & x & H).
  - intros H. apply (f_equal length) in H. rewrite length_take in H. simpl in H. lia.
  - exists l1, x. split; [done|]. rewrite <-(take_drop n l) at 1. rewrite H. by rewrite <-app_assoc.
Qed.

Lemma pages_from_rest fuel db tenant cutoff limit cursor before rest :
  pg_ok db → safe_reference tenant = true → (1 <= limit <= 500)%Z →
  due_in_order db tenant cutoff = before ++ rest →
  List.filter (after_cursor cursor) (due_in_order db tenant cutoff) = rest →
  (length rest < fuel)%nat →
  let pages := pages_from fuel db tenant cutoff limit cursor in
  mjoin (wp_items <$> pages) = work_item <$> rest ∧
  Forall (λ page, (Z.of_nat (length (wp_items page)) <= limit)%Z ∧ wp_tenant_reference page = tenant
    ∧ wp_cutoff page = cutoff) pages ∧
  ∃ page, list.last pages = Some page ∧ wp_next_cursor page = None.
Proof.
  intros Hok Ht Hlimit. revert cursor before rest.
  induction fuel as [|fuel IH]; intros cursor before rest Hsplit Hrest Hfuel; [lia|].
  cbn [pages_from]. rewrite (discover_due_page _ _ _ _ _ rest _ Hok Ht Hlimit eq_refl Hrest).
  set (n := Z.to_nat limit). unfold page_of. cbn [wp_next_cursor].
  assert (Z.of_nat (length (work_item <$> take n rest)) <= limit)%Z as Hlen
    by (rewrite length_fmap, length_take; lia).
  destruct (n <? length rest)%nat eqn:E.
  - apply Nat.ltb_lt in E. destruct (take_snoc n rest) as (l1 & x & Htake & Heq); [lia|done|].
    rewrite Htake, last_snoc. cbn [fmap option_fmap option_map].
    assert (before ++ rest = (before ++ l1) ++ x :: drop n rest) as Hl
      by (rewrite Heq at 1; by rewrite app_assoc).
    destruct (IH (Some (cursor_of x)) (before ++ l1 ++ [x]) (drop n rest)) as (Hi & Hb & page & Hp & Hn).
    + rewrite Hsplit, Hl, <-!app_assoc. done.
    + assert (Hs := due_in_order_strict db tenant cutoff). rewrite Hsplit, Hl in Hs |- *.
      by apply filter_after.
    + rewrite length_drop. lia.
    + split_and!.
      * trans ((work_item <$> (l1 ++ [x])) ++
          mjoin (wp_items <$> pages_from fuel db tenant cutoff limit (Some (cursor_of x)))); [done|].
        rewrite Hi, <-fmap_app, <-Htake.
        by rewrite take_drop.
      * constructor; [|done]. rewrite <-Htake. done.
      * exists page. split; [|done]. by destruct (pages_from fuel db tenant cutoff limit _).
  - apply Nat.ltb_ge in E. rewrite (take_ge rest) in * by done. split_and!.
    + simpl. by rewrite app_nil_r.
    + by repeat constructor.
    + by eexists.
Qed.

(** A proposal in flight: its effect may have happened, and nothing observed
    it yet. *)
Definition in_flight (p : StoredProposal) (cutoff : datetime) : bool :=
  unobserved (sp_lifecycle_status p)
  && bool_decide (sp_erasure_pending_at p = None) && bool_decide (sp_erased_at p = None)
  && match sp_next_verification_at p with None => true | Some at_ => (at_ <=? cutoff)%Z end.

Lemma in_flight_due db tenant reference p cutoff :
  pg_ok db → proposals (pg_view db) !! (tenant, reference) = Some p → in_flight p cutoff = true →
  reference ∈ (wr_proposal_reference <$> due_in_order db tenant cutoff).
Proof.
  intros Hok Hp Hf. destruct (pg_ok_lookup _ _ _ Hok Hp) as (_ & _ & changed & Hrow).
  apply list_elem_of_fmap. exists (work_row cutoff reference (parent_row p changed)). split; [done|].
  unfold due_in_order. rewrite (order_by_perm by_position). apply list_elem_of_omap.
  exists ((tenant, reference), parent_row p changed). split; [by apply elem_of_map_to_list|].
  rewrite bool_decide_eq_true_2 by done.
  enough (is_due cutoff (parent_row p changed) = true) as -> by done.
  unfold in_flight in Hf. rewrite !andb_true_iff in Hf. destruct Hf as [[[Hu He] Hx] Hn].
  unfold is_due, parent_row, _parent_data. simpl. rewrite Hu, He, Hx, Hn. simpl. by rewrite !orb_true_r.
Qed.

(** C24: following the cursors of [discover_due] reads every due row of the
    tenant exactly once, in the order of [due_at] and then of the reference, in
    pages of at most [limit] items, and ends with a page without cursor; among
    them is every proposal in flight whose verification is due or was never
    scheduled.  The pages are read from one state of the database, which any
    history left: what is written between two pages is not considered.  Supposed
    of that history is what the refinement of the contract supposes (valid
    records with JSON documents, written by name). *)
Theorem discover_due_covers (os : list store_op) (clock : nat → datetime) (tenant : pystr)
  (cutoff : datetime) (limit : Z) (Hs : forallb pg_storable os = true)
  (Ht : safe_reference tenant = true) (Hlimit : (1 <= limit <= 500)%Z) :
  let db := (pg_run_all (by_name_op <$> os) (fresh_pg clock)).2 in
  let rows := due_in_order db tenant cutoff in
  let pages := pages_from (S (length rows)) db tenant cutoff limit None in
  let items := mjoin (wp_items <$> pages) in
  (items = work_item <$> rows ∧ strict rows ∧ NoDup (wi_proposal_reference <$> items)) ∧
  Forall (λ page, (Z.of_nat (length (wp_items page)) <= limit)%Z ∧ wp_tenant_reference page = tenant
    ∧ wp_cutoff page = cutoff) pages ∧
  (∃ page, list.last pages = Some page ∧ wp_next_cursor page = None) ∧
  ∀ reference p, proposals (pg_view db) !! (tenant, reference) = Some p → in_flight p cutoff = true →
    reference ∈ (wi_proposal_reference <$> items).
Proof.
  intros db rows pages items.
  destruct (pg_history _ _ (fresh_pg_ok clock) (kept_by_name os Hs)) as (_ & Hok & _).
  destruct (pages_from_rest (S (length rows)) db tenant cutoff limit None [] rows) as (Hi & Hb & Hl);
    [done..| | |].
  { apply filter_all. }
  { lia. }
  fold pages in Hi, Hb, Hl. fold items in Hi.
  assert (wi_proposal_reference <$> items = wr_proposal_reference <$> rows) as Hrefs
    by (by rewrite Hi, <-list_fmap_compose).
  split_and!; [done|apply due_in_order_strict| |done|done|].
  - rewrite Hrefs. unfold rows, due_in_order. rewrite (order_by_perm by_position).
    apply due_references_NoDup.
  - intros reference p Hp Hf. rewrite Hrefs. by eapply in_flight_due.
Qed.

End Work.
