(* ===== verification/PostgresHistory.v ===== *)
(** A concrete history of the PostgreSQL store, on a server that takes every
    document, returns its members in another order, and collates text by code
    point: the witnesses of [PostgresRefinement] and [PostgresWork]. *)

From S2P Require Import Prelude Models Canonical Authority Receipts Registry StoreBase StoredValidity.
From S2P Require Import StoreContract Documents MemoryStore PostgresStore PostgresRefinement Recovery PostgresWork.

#[local] Existing Instance ascii_unicode.

Lemma reversed_document o :
  json_document (JObj o) = true → jsonb_exact (JObj o) = true →
  by_name_object (reverse o) = by_name_object o.
Proof.
  intros [Hnd _]%json_document_entries _. apply by_name_object_Permutation; [|apply reverse_Permutation].
  by rewrite reverse_Permutation.
Qed.

#[local] Instance reversing_server : PostgresServer := {|
  jsonb_accepts _ := true;
  jsonb_object o := reverse o;
  jsonb_object_kept := reversed_document
|}.

#[local] Instance code_point_order : TextOrder.
Proof.
  refine {| text_leb a b := points_leb (code_points a) (code_points b) |}.
  - intros a b. apply points_leb_total.
  - intros [a] [b] H1 H2. simpl in *. f_equal. by apply points_leb_antisym.
  - intros a b c. apply points_leb_trans.
Defined.

#[local] Definition stored (reference : pystr) (revision : Z) (s : LifecycleStatus) : StoredProposal :=
  mkStoredProposal "t" reference (mkActionType "a.b" "c" 1) "effect" single s revision None None
    [("reason"%py, JStr "duplicate"); ("amount"%py, JInt 5)] None None 0 1000 [] [] 0 3 None None None None None None.

#[local] Definition authorize (reference : pystr) : list store_op :=
  [Create (stored reference 0 AWAITING_AUTHORITY);
   CompareAndSet "t" reference 0 [AWAITING_AUTHORITY] (stored reference 1 AUTHORIZED)].

#[local] Definition start (reference : pystr) : store_op :=
  AdmitExecution "t" reference 1 5 (stored reference 2 EXECUTING).

(** Two proposals of one effect, a third of the same tenant that is abandoned
    and erased. *)
#[local] Definition racing_history : list store_op :=
  authorize "p" ++ authorize "q" ++ [start "p"; start "q"; Create (stored "p" 0 AWAITING_AUTHORITY);
    CompareAndSet "t" "q" 1 [AUTHORIZED] (stored "q" 2 STALE);
    MarkErasurePending "t" "q" 2 20; CompleteErasure "t" "q" 3 21].

#[local] Definition at_ (n : nat) : datetime := (10 + Z.of_nat n)%Z.

#[local] Definition raced := pg_run_all (by_name_op <$> racing_history) (fresh_pg at_).

Lemma postgres_store_refines_contract_witness :
  forallb pg_storable racing_history = true ∧
  drop 4 raced.1 =
  [StoreEvent (by_name_op (start "p")) (Ok ACQUIRED); StoreEvent (by_name_op (start "q")) (Ok CONFLICT);
   StoreEvent (by_name_op (Create (stored "p" 0 AWAITING_AUTHORITY)))
     (fail (ProposalAlreadyExistsError "proposal already exists"));
   StoreEvent (by_name_op (CompareAndSet "t" "q" 1 [AUTHORIZED] (stored "q" 2 STALE))) (Ok true);
   StoreEvent (MarkErasurePending "t" "q" 2 20) (Ok true);
   StoreEvent (CompleteErasure "t" "q" 3 21) (Ok true)] ∧
  sp_display_preview <$> proposals (pg_view raced.2) !! ("t"%py, "p"%py)
  = Some [("amount"%py, JInt 5); ("reason"%py, JStr "duplicate")] ∧
  contract_trace empty_view raced.1 (pg_view raced.2).
Proof.
  do 3 (split; [vm_compute; reflexivity|]).
  exact (proj1 (postgres_store_refines_contract racing_history at_ eq_refl)).
Defined.

(** The erased proposal after the first history, and an attempt to write it
    again. *)
#[local] Definition tombstone : StoredProposal :=
  erased_proposal (proposal_with_erasure_pending (stored "q" 2 STALE) 20) 21.

#[local] Definition rewrite_history : list store_op :=
  [by_name_op (CompareAndSet "t" "q" 4 [STALE] (stored "q" 5 STALE))].

Lemma postgres_tombstones_stay_witness :
  proposals (pg_view raced.2) !! ("t"%py, "q"%py) = Some tombstone ∧
  ∃ p', proposals (pg_view (pg_run_all rewrite_history
          raced.2).2) !! ("t"%py, "q"%py) = Some p' ∧
    sp_erased_at p' = Some 21%Z ∧ holds_content p' = false.
Proof.
  assert (proposals (pg_view raced.2) !! ("t"%py, "q"%py) =
    Some tombstone) as H by (vm_compute; reflexivity).
  split; [exact H|].
  refine (postgres_tombstones_stay (by_name_op <$> racing_history) rewrite_history at_ ("t"%py, "q"%py) tombstone
    eq_refl eq_refl H _). by eexists.
Defined.

#[local] Definition listed (reference : pystr) (revision : Z) (s : LifecycleStatus) : StoredProposal :=
  by_name_record (stored reference revision s).

Lemma postgres_applies_updates_witness :
  (pg_compare_and_set "t" "p" 0 [AWAITING_AUTHORITY] (listed "p" 1 AUTHORIZED)
     (pg_run_all [Create (listed "p" 0 AWAITING_AUTHORITY)] (fresh_pg at_)).2).1 = Ok true.
Proof.
  assert (proposals (pg_view (pg_run_all [Create (listed "p" 0 AWAITING_AUTHORITY)] (fresh_pg at_)).2)
    !! ("t"%py, "p"%py) = Some (listed "p" 0 AWAITING_AUTHORITY)) as H by (vm_compute; reflexivity).
  eapply (postgres_applies_updates [Create (listed "p" 0 AWAITING_AUTHORITY)] at_ "t" "p" 0
    [AWAITING_AUTHORITY] (listed "p" 1 AUTHORIZED)).
  - vm_compute. reflexivity.
  - exists (listed "p" 0 AWAITING_AUTHORITY). split; [exact H|]. split; [reflexivity|].
    split; [left|]. split; [apply validate_update_ok; vm_compute; reflexivity|].
    split; [discriminate|reflexivity].
  - intros current Hc. rewrite H in Hc. injection Hc as <-.
    constructor; try (vm_compute; reflexivity); [constructor|by split].
Defined.

Lemma discover_due_covers_witness :
  let db := (pg_run_all (by_name_op <$> authorize "p" ++ authorize "q") (fresh_pg at_)).2 in
  wi_proposal_reference <$> mjoin (wp_items <$> pages_from 3 db "t" 500 1 None) = ["p"%py; "q"%py] ∧
  NoDup (wi_proposal_reference <$> mjoin (wp_items <$> pages_from 3 db "t" 500 1 None)).
Proof.
  intros db. split; [vm_compute; reflexivity|].
  assert (Hnames : ∀ c, name_tail c = true → category_other c = false).
  { intros c. unfold name_tail, lower, digit. simpl. rewrite !orb_true_iff, !andb_true_iff.
    rewrite !N.leb_le, N.eqb_eq, orb_false_iff, N.ltb_ge, N.eqb_neq. lia. }
  refine (proj2 (proj2 (proj1 (discover_due_covers Hnames (authorize "p" ++ authorize "q") at_ "t" 500 1
    eq_refl eq_refl _)))). lia.
Defined.
