(* ===== verification/Evidence.v ===== *)
(** The minimized evidence bundle of a stored revision, and the consistency
    check on bundles ([evidence.py]).

    The JSON dump of a bundle is Pydantic's and the hash is [hashlib]'s; both
    are parameters of the section. *)

From S2P Require Import Prelude Models Canonical Authority Receipts StoreBase.

(** * [bytes.decode()] *)

Definition continuation (b : Z) : bool := (0x80 <=? b)%Z && (b <=? 0xBF)%Z.
Definition low6 (b : Z) : Z := (b - 0x80)%Z.

Definition scalar (lo hi c : Z) : bool :=
  (lo <=? c)%Z && (c <? hi)%Z && negb (is_surrogate (Z.to_N c)).

Fixpoint utf8_decode (l : bytes) : option (list N) :=
  match l with
  | [] => Some []
  | a :: l1 =>
      if (0 <=? a)%Z && (a <? 0x80)%Z then cons (Z.to_N a) <$> utf8_decode l1
      else
        match l1 with
        | b :: l2 =>
            if (0xC0 <=? a)%Z && (a <? 0xE0)%Z && continuation b then
              let c := ((a - 0xC0) * 64 + low6 b)%Z in
              if scalar 0x80 0x800 c then cons (Z.to_N c) <$> utf8_decode l2 else None
            else
              match l2 with
              | d :: l3 =>
                  if (0xE0 <=? a)%Z && (a <? 0xF0)%Z && continuation b && continuation d then
                    let c := ((a - 0xE0) * 4096 + low6 b * 64 + low6 d)%Z in
                    if scalar 0x800 0x10000 c then cons (Z.to_N c) <$> utf8_decode l3 else None
                  else
                    match l3 with
                    | e :: l4 =>
                        if (0xF0 <=? a)%Z && (a <? 0xF8)%Z && continuation b && continuation d
                           && continuation e then
                          let c := ((a - 0xF0) * 262144 + low6 b * 4096 + low6 d * 64 + low6 e)%Z in
                          if scalar 0x10000 0x110000 c then cons (Z.to_N c) <$> utf8_decode l4
                          else None
                        else None
                    | [] => None
                    end
              | [] => None
              end
        | [] => None
        end
  end.

Definition decode (b : bytes) : res pystr :=
  match utf8_decode b with
  | Some l => Ok (PyStr l)
  | None => fail (ValueErrorLike "UnicodeDecodeError")
  end.

(** * The bundle *)

Record FrozenJsonEntry := mkFrozenJsonEntry {
  fe_name : pystr;
  fe_canonical_value : pystr
}.

Record FrozenJsonObject := mkFrozenJsonObject { fj_entries : list FrozenJsonEntry }.

Definition is_empty (f : FrozenJsonObject) : bool := bool_decide (length (fj_entries f) = 0).

Inductive EvidenceOmission :=
  | PRIVATE_SNAPSHOT
  | PROTECTED_PAYLOAD
  | COMMITMENT_AND_CUSTODY
  | REPLAYABLE_AUTHORITY_EVIDENCE
  | ERASED_SOURCE_EVIDENCE
  | LEGACY_RUNTIME_ATTRIBUTION
  | HISTORICAL_AUTHORITY_UNAVAILABLE.

#[export] Instance EvidenceOmission_eq_dec : EqDecision EvidenceOmission.
Proof. solve_decision. Defined.

Record EvidenceAuthoritySummary := mkEvidenceAuthoritySummary {
  es_authority_reference : pystr;
  es_decision : AuthorityDecision;
  es_audience : list pystr;
  es_channel_assurance : pystr;
  es_issued_at : datetime;
  es_expires_at : datetime;
  es_external_attestation : option ExternalAuthorityAttestation
}.

(** [schema_version] and [authenticity] are literals of one value. *)
Record ActionEvidenceBundle := mkActionEvidenceBundle {
  eb_exported_at : datetime;
  eb_exporter_runtime_revision : pystr;
  eb_proposal_reference : pystr;
  eb_action_type : ActionType;
  eb_semantic_effect_reference : pystr;
  eb_effect_kind : EffectKind;
  eb_source_revision : Z;
  eb_lifecycle_status : LifecycleStatus;
  eb_created_at : datetime;
  eb_expires_at : datetime;
  eb_erased : bool;
  eb_display_preview : FrozenJsonObject;
  eb_safe_result : option FrozenJsonObject;
  eb_authority_summaries : list EvidenceAuthoritySummary;
  eb_receipts : list Receipt;
  eb_embedded_receipt_schema_versions : list pystr;
  eb_omitted : list EvidenceOmission;
  eb_content_digest : pystr
}.

Definition set_content_digest (digest : pystr) (b : ActionEvidenceBundle) : ActionEvidenceBundle :=
  mkActionEvidenceBundle (eb_exported_at b) (eb_exporter_runtime_revision b)
    (eb_proposal_reference b) (eb_action_type b) (eb_semantic_effect_reference b)
    (eb_effect_kind b) (eb_source_revision b) (eb_lifecycle_status b) (eb_created_at b)
    (eb_expires_at b) (eb_erased b) (eb_display_preview b) (eb_safe_result b)
    (eb_authority_summaries b) (eb_receipts b) (eb_embedded_receipt_schema_versions b)
    (eb_omitted b) digest.

Inductive EvidenceValidationStatus := CONSISTENT | INCONSISTENT | INSUFFICIENT.

Inductive EvidenceValidationReason :=
  | DIGEST_MISMATCH
  | DUPLICATE_RECEIPT
  | DANGLING_RECEIPT_LINK
  | RECEIPT_IDENTITY_MISMATCH
  | RECEIPT_VERSION_MISMATCH
  | LIFECYCLE_EVIDENCE_MISMATCH
  | ERASED_SOURCE
  | LEGACY_ATTRIBUTION_MISSING
  | AUTHORITY_HISTORY_MISSING.

#[export] Instance EvidenceValidationReason_eq_dec : EqDecision EvidenceValidationReason.
Proof. solve_decision. Defined.

Record EvidenceValidationReport := mkEvidenceValidationReport {
  er_status : EvidenceValidationStatus;
  er_reasons : list EvidenceValidationReason;
  er_digest_matches : bool;
  er_authenticity_established : bool
}.

(** * Freezing JSON objects *)

Section Evidence.
Context `{U : Unicode}.

Definition freeze_entry (item : pystr * json) : res FrozenJsonEntry :=
  canonical ← canonicalize_v1 (snd item);
  text ← decode canonical;
  if (pystr_len (fst item) <=? 255)%nat && (Z.of_nat (pystr_len text) <=? 1048576)%Z
  then Ok (mkFrozenJsonEntry (fst item) text)
  else fail ValidationError.

Fixpoint freeze_entries (items : JsonObject) : res (list FrozenJsonEntry) :=
  match items with
  | [] => Ok []
  | item :: items' =>
      entry ← freeze_entry item; entries ← freeze_entries items'; Ok (entry :: entries)
  end.

(** [FrozenJsonObject.from_mapping]: a [ValueError] of the validator is a
    [ValidationError] of the model. *)
Definition from_mapping (value : JsonObject) : res FrozenJsonObject :=
  match freeze_entries (sort_items value) with
  | Ok entries => Ok (mkFrozenJsonObject entries)
  | Err e => if is_KeyError_or_ValueError e then fail ValidationError else Err e
  end.

(** * The digest *)

(** [bundle.model_dump(mode="json", exclude={"content_digest"})]. *)
Variable model_dump_without_digest : ActionEvidenceBundle → JsonObject.
(** [hashlib.sha256(b).hexdigest()]. *)
Variable sha256_hexdigest : bytes → pystr.

Definition _digest_payload (bundle : ActionEvidenceBundle) : JsonObject :=
  model_dump_without_digest bundle.

Definition evidence_digest (bundle : ActionEvidenceBundle) : res pystr :=
  canonical ← canonicalize_v1 (JObj (_digest_payload bundle));
  Ok (sha256_hexdigest canonical).

(** * Building *)

Definition record_erased (record : StoredProposal) : bool :=
  bool_decide (is_Some (sp_erasure_pending_at record)) || bool_decide (is_Some (sp_erased_at record)).

Definition authority_summary (evidence : AuthorityEvidence) : EvidenceAuthoritySummary :=
  mkEvidenceAuthoritySummary (ca_reference (ae_authority evidence)) (ae_decision evidence)
    (ae_audience evidence) (ae_channel_assurance evidence) (ae_issued_at evidence)
    (ae_expires_at evidence) (ae_external_attestation evidence).

Definition runtime_revision_missing (receipt : Receipt) : bool :=
  bool_decide (rb_runtime_revision (receipt_base receipt) = None).

(** [tuple(sorted({receipt.schema_version for receipt in receipts}))]. *)
Definition schema_versions (receipts : list Receipt) : list pystr :=
  fst <$> sort_items ((λ v, (v, ())) <$>
    elements (list_to_set (rb_schema_version ∘ receipt_base <$> receipts) : gset pystr)).

Definition omissions (record : StoredProposal) (receipts : list Receipt)
  (summaries : list EvidenceAuthoritySummary) : list EvidenceOmission :=
  [PRIVATE_SNAPSHOT; PROTECTED_PAYLOAD; COMMITMENT_AND_CUSTODY; REPLAYABLE_AUTHORITY_EVIDENCE]
  ++ (if record_erased record then [ERASED_SOURCE_EVIDENCE] else [])
  ++ (if existsb runtime_revision_missing receipts then [LEGACY_RUNTIME_ATTRIBUTION] else [])
  ++ (if negb (record_erased record)
         && negb (bool_decide (sp_lifecycle_status record = AWAITING_AUTHORITY))
         && bool_decide (length summaries = 0)
      then [HISTORICAL_AUTHORITY_UNAVAILABLE] else []).

(** ["0" * 64]. *)
Definition zero_digest : pystr := PyStr (replicate 64 48%N).

Definition build_evidence_bundle (record : StoredProposal) (exported_at : datetime)
  (exporter_runtime_revision : pystr) : res ActionEvidenceBundle :=
  let erased := record_erased record in
  let receipts := if erased then [] else sp_receipts record in
  let summaries := if erased then [] else authority_summary <$> sp_authority_evidence record in
  display_preview ← from_mapping (if erased then [] else sp_display_preview record);
  safe_result ←
    match (if erased then None else sp_safe_result record) with
    | None => Ok None
    | Some result => frozen ← from_mapping result; Ok (Some frozen)
    end;
  _ ← SafeReference exporter_runtime_revision;
  let bundle := mkActionEvidenceBundle exported_at exporter_runtime_revision
    (sp_proposal_reference record) (sp_action_type record) (sp_semantic_effect_reference record)
    (sp_effect_kind record) (sp_revision record) (sp_lifecycle_status record)
    (sp_created_at record) (sp_expires_at record) erased display_preview safe_result
    summaries receipts (schema_versions receipts) (omissions record receipts summaries)
    zero_digest in
  digest ← evidence_digest bundle;
  Ok (set_content_digest digest bundle).

(** * Validation *)

Definition is_prepared (receipt : Receipt) : bool :=
  match receipt with ProposalReceipt _ PR_PREPARED _ _ => true | _ => false end.

Definition _lifecycle_is_supported (bundle : ActionEvidenceBundle) : bool :=
  if eb_erased bundle then
    bool_decide (eb_receipts bundle = []) && bool_decide (length (eb_authority_summaries bundle) = 0)
    && is_empty (eb_display_preview bundle) && bool_decide (¬ is_Some (eb_safe_result bundle))
  else
    match eb_receipts bundle with
    | [] => false
    | first :: _ =>
        if negb (is_prepared first) then false
        else
          match eb_lifecycle_status bundle with
          | VERIFIED =>
              existsb (λ r, bool_decide (verification_status r = Some VR_VERIFIED_COMPLETION))
                (eb_receipts bundle)
          | FAILED_KNOWN =>
              existsb (λ r, bool_decide (execution_status r = Some ER_FAILED_KNOWN)
                || bool_decide (verification_status r = Some VR_VERIFIED_TERMINAL_FAILURE))
                (eb_receipts bundle)
          | _ => true
          end
    end.

(** A correction or supersession link that leads nowhere, or to itself. *)
Definition dangling (references : list pystr) (receipt : Receipt) : bool :=
  existsb (λ link,
    match link with
    | None => false
    | Some l => negb (bool_decide (l ∈ references))
                || bool_decide (l = rb_receipt_reference (receipt_base receipt))
    end) [rb_corrects_receipt_reference (receipt_base receipt);
          rb_supersedes_receipt_reference (receipt_base receipt)].

Definition foreign (proposal_reference : pystr) (references : list pystr) (receipt : Receipt) : bool :=
  negb (bool_decide (rb_correlation_reference (receipt_base receipt) = proposal_reference))
  || negb (bool_decide (rb_causation_reference (receipt_base receipt) = proposal_reference))
     && negb (bool_decide (rb_causation_reference (receipt_base receipt) ∈ references)).

(** [tuple(dict.fromkeys(l))]. *)
Definition dict_fromkeys (l : list EvidenceValidationReason) : list EvidenceValidationReason :=
  foldl (λ acc x, if bool_decide (x ∈ acc) then acc else acc ++ [x]) [] l.

Definition when (b : bool) (r : EvidenceValidationReason) : list EvidenceValidationReason :=
  if b then [r] else [].

Definition inconsistencies (bundle : ActionEvidenceBundle) (digest_matches : bool)
  : list EvidenceValidationReason :=
  let references := rb_receipt_reference ∘ receipt_base <$> eb_receipts bundle in
  let versions := schema_versions (eb_receipts bundle) in
  when (negb digest_matches) DIGEST_MISMATCH
  ++ when (negb (size (list_to_set references : gset pystr) =? length references)%nat)
       DUPLICATE_RECEIPT
  ++ when (existsb (dangling references) (eb_receipts bundle)) DANGLING_RECEIPT_LINK
  ++ when (existsb (foreign (eb_proposal_reference bundle) references) (eb_receipts bundle))
       RECEIPT_IDENTITY_MISMATCH
  ++ when (negb (bool_decide (versions = eb_embedded_receipt_schema_versions bundle))
           || existsb (λ v, negb (bool_decide (v = "internal/v0"%py))) versions)
       RECEIPT_VERSION_MISMATCH
  ++ when (negb (_lifecycle_is_supported bundle)) LIFECYCLE_EVIDENCE_MISMATCH.

Definition insufficiencies (bundle : ActionEvidenceBundle) : list EvidenceValidationReason :=
  when (eb_erased bundle || bool_decide (ERASED_SOURCE_EVIDENCE ∈ eb_omitted bundle)) ERASED_SOURCE
  ++ when (bool_decide (LEGACY_RUNTIME_ATTRIBUTION ∈ eb_omitted bundle)
           || existsb runtime_revision_missing (eb_receipts bundle)) LEGACY_ATTRIBUTION_MISSING
  ++ when (bool_decide (HISTORICAL_AUTHORITY_UNAVAILABLE ∈ eb_omitted bundle)
           || negb (eb_erased bundle)
              && negb (bool_decide (eb_lifecycle_status bundle = AWAITING_AUTHORITY))
              && bool_decide (length (eb_authority_summaries bundle) = 0))
       AUTHORITY_HISTORY_MISSING.

Definition validate_evidence_bundle (bundle : ActionEvidenceBundle) : res EvidenceValidationReport :=
  digest ← evidence_digest bundle;
  let digest_matches := bool_decide (digest = eb_content_digest bundle) in
  let inconsistent := inconsistencies bundle digest_matches in
  let insufficient := insufficiencies bundle in
  Ok (if negb (bool_decide (inconsistent = [])) then
        mkEvidenceValidationReport INCONSISTENT (dict_fromkeys inconsistent) digest_matches false
      else if negb (bool_decide (insufficient = [])) then
        mkEvidenceValidationReport INSUFFICIENT (dict_fromkeys insufficient) digest_matches false
      else mkEvidenceValidationReport CONSISTENT [] digest_matches false).

End Evidence.

(** * Facts *)

Lemma continuation_low b : (0 <= b < 64)%Z → continuation (0x80 + b) = true ∧ low6 (0x80 + b) = b.
Proof. unfold continuation, low6. intros. split; [apply andb_true_iff; rewrite !Z.leb_le|]; lia. Qed.

Lemma range_test lo hi a : (lo <= a < hi)%Z → (lo <=? a)%Z && (a <? hi)%Z = true.
Proof. rewrite andb_true_iff, Z.leb_le, Z.ltb_lt. done. Qed.

Lemma range_test_out lo hi a : ¬ (lo <= a < hi)%Z → (lo <=? a)%Z && (a <? hi)%Z = false.
Proof. rewrite andb_false_iff, Z.leb_gt, Z.ltb_ge. lia. Qed.

Lemma scalar_intro lo hi c :
  (lo <= Z.of_N c < hi)%Z → is_surrogate c = false → scalar lo hi (Z.of_N c) = true.
Proof. intros H Hs. unfold scalar. by rewrite (range_test _ _ _ H), N2Z.id, Hs. Qed.

(** The base-64 digits of a number give it back. *)
Lemma digits_3 z : (z / 4096 * 4096 + (z / 64) mod 64 * 64 + z mod 64 = z)%Z.
Proof.
  assert (H := Z.div_div z 64 64 ltac:(lia) ltac:(lia)).
  change (64 * 64)%Z with 4096%Z in H.
  assert (H1 := Z.div_mod z 64 ltac:(lia)). assert (H2 := Z.div_mod (z / 64) 64 ltac:(lia)). lia.
Qed.

Lemma digits_4 z :
  (z / 262144 * 262144 + (z / 4096) mod 64 * 4096 + (z / 64) mod 64 * 64 + z mod 64 = z)%Z.
Proof.
  assert (H := Z.div_div z 4096 64 ltac:(lia) ltac:(lia)).
  change (4096 * 64)%Z with 262144%Z in H.
  assert (H1 := digits_3 z). assert (H2 := Z.div_mod (z / 4096) 64 ltac:(lia)). lia.
Qed.

Lemma utf8_decode_char c b r :
  utf8_char c = Ok b → utf8_decode (b ++ r) = cons c <$> utf8_decode r.
Proof.
  unfold utf8_char. remember (Z.of_N c) as z eqn:Ez. assert (0 <= z)%Z by lia.
  assert (Z.to_N z = c) as Hc by lia.
  destruct (N.ltb_spec c 0x80); [intros [= <-]; simpl|destruct (N.ltb_spec c 0x800)];
    [|intros [= <-]; simpl|].
  - rewrite range_test by lia. by rewrite Hc.
  - assert (0 <= z / 64 < 32)%Z by (Z.to_euclidean_division_equations; lia).
    assert (0 <= z mod 64 < 64)%Z by (Z.to_euclidean_division_equations; lia).
    destruct (continuation_low (z mod 64)) as [-> ->]; [done|].
    rewrite range_test_out by lia. rewrite range_test by lia. simpl.
    replace ((0xC0 + z / 64 - 0xC0) * 64 + z mod 64)%Z with z
      by (Z.to_euclidean_division_equations; lia).
    rewrite Ez, scalar_intro; [by rewrite N2Z.id|lia|].
    unfold is_surrogate. destruct (N.leb_spec 0xD800 c); [lia|done].
  - destruct (is_surrogate c) eqn:Es; [done|].
    assert (0 <= z mod 64 < 64)%Z by (Z.to_euclidean_division_equations; lia).
    assert (0 <= (z / 64) mod 64 < 64)%Z by (Z.to_euclidean_division_equations; lia).
    destruct (N.ltb_spec c 0x10000); [intros [= <-]; simpl|destruct (N.ltb_spec c 0x110000)];
      [|intros [= <-]; simpl|done].
    + assert (0 <= z / 4096 < 16)%Z by (Z.to_euclidean_division_equations; lia).
      destruct (continuation_low (z mod 64)) as [-> ->]; [done|].
      destruct (continuation_low ((z / 64) mod 64)) as [-> ->]; [done|].
      rewrite (range_test_out 0 0x80), (range_test_out 0xC0) by lia. simpl.
      rewrite range_test by lia. simpl.
      replace (0xE0 + z / 4096 - 0xE0)%Z with (z / 4096)%Z by lia. rewrite digits_3.
      rewrite Ez, scalar_intro; [by rewrite N2Z.id|lia|done].
    + assert (0 <= z / 262144 < 8)%Z by (Z.to_euclidean_division_equations; lia).
      assert (0 <= (z / 4096) mod 64 < 64)%Z by (Z.to_euclidean_division_equations; lia).
      destruct (continuation_low (z mod 64)) as [-> ->]; [done|].
      destruct (continuation_low ((z / 64) mod 64)) as [-> ->]; [done|].
      destruct (continuation_low ((z / 4096) mod 64)) as [-> ->]; [done|].
      rewrite (range_test_out 0 0x80), (range_test_out 0xC0),
        (range_test_out 0xE0 0xF0 (0xF0 + z / 262144)) by lia. simpl.
      rewrite (range_test 0xF0 0xF8) by lia. simpl.
      replace (0xF0 + z / 262144 - 0xF0)%Z with (z / 262144)%Z by lia. rewrite digits_4.
      rewrite Ez, scalar_intro; [by rewrite N2Z.id|lia|done].
Qed.

Lemma utf8_decode_utf8 l b : utf8 l = Ok b → utf8_decode b = Some l.
Proof.
  revert b. induction l as [|c l IH]; simpl; intros b H; [by injection H as <-|].
  apply res_bind_Ok in H as (x & Hx & H). apply res_bind_Ok in H as (y & Hy & [= <-]).
  by rewrite (utf8_decode_char c x y Hx), (IH y Hy).
Qed.

(** What makes the receipts of a stored record self-contained. *)
Record attributable (p : StoredProposal) : Prop := {
  att_prepared : ∃ first rest, sp_receipts p = first :: rest ∧ is_prepared first = true;
  att_links : ∀ r, r ∈ sp_receipts p →
    rb_corrects_receipt_reference (receipt_base r) = None ∧
    rb_supersedes_receipt_reference (receipt_base r) = None;
  att_identity : ∀ r, r ∈ sp_receipts p →
    rb_correlation_reference (receipt_base r) = sp_proposal_reference p ∧
    (rb_causation_reference (receipt_base r) = sp_proposal_reference p ∨
     rb_causation_reference (receipt_base r) ∈ rb_receipt_reference ∘ receipt_base <$> sp_receipts p);
  att_versions : ∀ r, r ∈ sp_receipts p →
    rb_schema_version (receipt_base r) = "internal/v0"%py ∧
    is_Some (rb_runtime_revision (receipt_base r));
  att_verified : sp_lifecycle_status p = VERIFIED →
    ∃ r, r ∈ sp_receipts p ∧ verification_status r = Some VR_VERIFIED_COMPLETION
}.

(** Two of its receipts have the same reference. *)
Definition repeats_reference (p : StoredProposal) : bool :=
  negb (bool_decide (NoDup (rb_receipt_reference ∘ receipt_base <$> sp_receipts p))).

(** It failed, and no receipt records a failed execution or a verified terminal
    failure. *)
Definition unrecorded_failure (p : StoredProposal) : bool :=
  bool_decide (sp_lifecycle_status p = FAILED_KNOWN)
  && negb (existsb (λ r, bool_decide (execution_status r = Some ER_FAILED_KNOWN)
       || bool_decide (verification_status r = Some VR_VERIFIED_TERMINAL_FAILURE)) (sp_receipts p)).

(** It left [AWAITING_AUTHORITY], and nobody decided upon it. *)
Definition undecided (p : StoredProposal) : bool :=
  negb (bool_decide (sp_lifecycle_status p = AWAITING_AUTHORITY))
  && bool_decide (length (sp_authority_evidence p) = 0).

(** The report on the bundle of an erased record, or of an attributable one. *)
Definition audit_report (p : StoredProposal) : EvidenceValidationReport :=
  let inconsistent :=
    (if repeats_reference p then [DUPLICATE_RECEIPT] else []) ++
    (if unrecorded_failure p then [LIFECYCLE_EVIDENCE_MISMATCH] else []) in
  if record_erased p then mkEvidenceValidationReport INSUFFICIENT [ERASED_SOURCE] true false
  else if negb (bool_decide (inconsistent = [])) then
    mkEvidenceValidationReport INCONSISTENT inconsistent true false
  else if undecided p then
    mkEvidenceValidationReport INSUFFICIENT [AUTHORITY_HISTORY_MISSING] true false
  else mkEvidenceValidationReport CONSISTENT [] true false.

Lemma when_false r : when false r = [].
Proof. done. Qed.

Lemma elem_of_schema_versions rs v :
  v ∈ schema_versions rs ↔ ∃ r, r ∈ rs ∧ rb_schema_version (receipt_base r) = v.
Proof.
  unfold schema_versions. setoid_rewrite list_elem_of_fmap. split.
  - intros (x & -> & Hx). rewrite (sort_items_perm _) in Hx.
    apply list_elem_of_fmap in Hx as (w & -> & Hw). simpl.
    rewrite elem_of_elements, elem_of_list_to_set in Hw.
    apply list_elem_of_fmap in Hw as (r & -> & Hr). eauto.
  - intros (r & Hr & <-). exists (rb_schema_version (receipt_base r), ()). split; [done|].
    rewrite (sort_items_perm _). apply list_elem_of_fmap. eexists. split; [done|].
    rewrite elem_of_elements, elem_of_list_to_set. apply list_elem_of_fmap. eauto.
Qed.

Section Built.
Context `{U : Unicode}.
Variable dump : ActionEvidenceBundle → JsonObject.
Variable sha256 : bytes → pystr.

(** The shape of a bundle that was built. *)
Lemma build_evidence_bundle_inv p at_ rev b :
  build_evidence_bundle dump sha256 p at_ rev = Ok b →
  (∀ b d, dump (set_content_digest d b) = dump b) →
  evidence_digest dump sha256 b = Ok (eb_content_digest b) ∧
  eb_erased b = record_erased p ∧
  eb_lifecycle_status b = sp_lifecycle_status p ∧
  eb_proposal_reference b = sp_proposal_reference p ∧
  eb_receipts b = (if record_erased p then [] else sp_receipts p) ∧
  eb_authority_summaries b =
    (if record_erased p then [] else authority_summary <$> sp_authority_evidence p) ∧
  eb_embedded_receipt_schema_versions b = schema_versions (eb_receipts b) ∧
  eb_omitted b = omissions p (eb_receipts b) (eb_authority_summaries b) ∧
  (record_erased p = true → eb_display_preview b = mkFrozenJsonObject [] ∧ eb_safe_result b = None).
Proof.
  unfold build_evidence_bundle. intros H Hdump.
  apply res_bind_Ok in H as (preview & Hpreview & H).
  apply res_bind_Ok in H as (result & Hresult & H).
  apply res_bind_Ok in H as (_ & _ & H).
  apply res_bind_Ok in H as (digest & Hdigest & [= <-]).
  split_and!; try done.
  - unfold evidence_digest, _digest_payload in *. rewrite Hdump. done.
  - intros He. rewrite He in *. cbn in Hpreview, Hresult. simpl. split; congruence.
Qed.

(** A list holds no value twice when its set is as large as the list. *)
Lemma size_list_to_set_eqb (l : list pystr) :
  (size (list_to_set l : gset pystr) =? length l)%nat = bool_decide (NoDup l).
Proof.
  apply eq_true_iff_eq. rewrite Nat.eqb_eq, bool_decide_eq_true. split; [|by apply size_list_to_set].
  induction l as [|x l IH]; simpl; intros H; [constructor|].
  assert (Hle : (size (list_to_set l : gset pystr) ≤ length l)%nat).
  { clear. induction l as [|y l IH]; simpl; [done|].
    rewrite size_union_alt, size_singleton.
    assert (Hs := subseteq_size (list_to_set l ∖ {[y]} : gset pystr) (list_to_set l) ltac:(set_solver)). lia. }
  destruct (decide (x ∈ l)) as [Hin|Hout].
  - replace ({[x]} ∪ list_to_set l : gset pystr) with (list_to_set l : gset pystr) in H
      by (apply leibniz_equiv; set_solver). lia.
  - rewrite size_union, size_singleton in H by set_solver. constructor; [done|]. apply IH. lia.
Qed.

Lemma existsb_none {A} (f : A → bool) (l : list A) :
  (∀ x, x ∈ l → f x = false) → existsb f l = false.
Proof. apply existsb_false_elem. Qed.

Lemma lifecycle_supported p b :
  attributable p → eb_erased b = false → eb_lifecycle_status b = sp_lifecycle_status p →
  eb_receipts b = sp_receipts p → _lifecycle_is_supported b = negb (unrecorded_failure p).
Proof.
  intros [(f & rest & Hrs & Hf) _ _ _ Hver] Heb Hst Hrec.
  unfold _lifecycle_is_supported, unrecorded_failure. rewrite Heb, Hrec, Hst.
  assert (∀ c : bool, match sp_receipts p with
    | [] => false | first :: _ => if negb (is_prepared first) then false else c end = c) as ->.
  { intros c. by rewrite Hrs, Hf. }
  destruct (sp_lifecycle_status p) eqn:Es; try done.
  - by rewrite bool_decide_eq_true_2, andb_true_l, negb_involutive.
  - destruct Hver as (r & Hr & Hx); [done|]. rewrite bool_decide_eq_false_2 by done.
    apply existsb_elem. exists r. by rewrite bool_decide_eq_true.
Qed.

Lemma built_inconsistencies p b :
  attributable p →
  eb_erased b = false → eb_lifecycle_status b = sp_lifecycle_status p →
  eb_proposal_reference b = sp_proposal_reference p → eb_receipts b = sp_receipts p →
  eb_embedded_receipt_schema_versions b = schema_versions (eb_receipts b) →
  inconsistencies b true =
    when (repeats_reference p) DUPLICATE_RECEIPT ++
    when (unrecorded_failure p) LIFECYCLE_EVIDENCE_MISMATCH.
Proof.
  intros Hatt Heb Hst Href Hrec Hemb.
  assert (Hsup := lifecycle_supported p b Hatt Heb Hst Hrec).
  destruct Hatt as [_ Hl Hi Hv _].
  unfold inconsistencies. rewrite Hsup, Hemb, Hrec, Href, negb_involutive.
  rewrite (bool_decide_eq_true_2 (schema_versions _ = _)) by done.
  rewrite size_list_to_set_eqb.
  rewrite (existsb_none (dangling _)), (existsb_none (foreign _ _)), (existsb_none (λ v, _)); [done|..].
  - intros v (r & Hr & <-)%elem_of_schema_versions.
    by rewrite (proj1 (Hv r Hr)), bool_decide_eq_true_2.
  - intros r Hr. destruct (Hi r Hr) as [Hc Hca]. unfold foreign.
    rewrite Hc, bool_decide_eq_true_2 by done. simpl.
    destruct Hca as [Hca|Hca]; rewrite (bool_decide_eq_true_2 _ Hca); [done|by rewrite andb_false_r].
  - intros r Hr. destruct (Hl r Hr) as [Ha Hb]. unfold dangling. by rewrite Ha, Hb.
Qed.

Lemma built_insufficiencies p b :
  attributable p → record_erased p = false →
  eb_erased b = false → eb_lifecycle_status b = sp_lifecycle_status p →
  eb_receipts b = sp_receipts p →
  eb_authority_summaries b = authority_summary <$> sp_authority_evidence p →
  eb_omitted b = omissions p (eb_receipts b) (eb_authority_summaries b) →
  insufficiencies b = when (undecided p) AUTHORITY_HISTORY_MISSING.
Proof.
  intros [_ _ _ Hv _] He Heb Hst Hrec Hsum Hom.
  unfold insufficiencies. rewrite Hom, Heb, Hsum, Hrec, Hst. unfold omissions. rewrite He.
  assert (existsb runtime_revision_missing (sp_receipts p) = false) as ->.
  { apply existsb_none. intros r Hr. unfold runtime_revision_missing.
    apply bool_decide_eq_false_2. destruct (Hv r Hr) as [_ [x ->]]. done. }
  rewrite length_fmap. unfold undecided. simpl.
  by destruct (negb _ && _).
Qed.

Section Report.
Variables (p : StoredProposal) (exported_at : datetime) (revision : pystr) (b : ActionEvidenceBundle).
Hypothesis Hdump : ∀ b d, dump (set_content_digest d b) = dump b.
Hypothesis Hbuild : build_evidence_bundle dump sha256 p exported_at revision = Ok b.

Lemma erased_report :
  record_erased p = true →
  validate_evidence_bundle dump sha256 b =
    Ok (mkEvidenceValidationReport INSUFFICIENT [ERASED_SOURCE] true false).
Proof.
  intros He. destruct (build_evidence_bundle_inv _ _ _ _ Hbuild Hdump)
    as (Hdig & Her & Hst & Href & Hrec & Hsum & Hemb & Hom & Hempty).
  unfold validate_evidence_bundle. rewrite Hdig. simpl.
  rewrite (bool_decide_eq_true_2 (eb_content_digest b = _)) by done.
  rewrite He in *. destruct (Hempty eq_refl) as [Hprev Hres].
  unfold inconsistencies, insufficiencies, _lifecycle_is_supported.
  rewrite Hemb, Her, Hom, Hsum, Hrec, Hprev, Hres. unfold omissions. rewrite He. done.
Qed.

Lemma attributable_report :
  (record_erased p = false → attributable p) →
  validate_evidence_bundle dump sha256 b = Ok (audit_report p).
Proof.
  intros Hatt. unfold audit_report. destruct (record_erased p) eqn:He; [by apply erased_report|].
  specialize (Hatt eq_refl).
  destruct (build_evidence_bundle_inv _ _ _ _ Hbuild Hdump)
    as (Hdig & Her & Hst & Href & Hrec & Hsum & Hemb & Hom & _).
  unfold validate_evidence_bundle. rewrite Hdig. simpl.
  rewrite (bool_decide_eq_true_2 (eb_content_digest b = _)) by done.
  rewrite He in *. rewrite (built_inconsistencies p b), (built_insufficiencies p b) by done.
  by destruct (repeats_reference p), (unrecorded_failure p), (undecided p).
Qed.
End Report.

(** The part of a record an export may depend on. *)
Definition disclosed (p : StoredProposal) :=
  (sp_proposal_reference p, sp_action_type p, sp_semantic_effect_reference p, sp_effect_kind p,
   sp_revision p, sp_lifecycle_status p, sp_created_at p, sp_expires_at p, record_erased p,
   if record_erased p then None
   else Some (sp_display_preview p, sp_safe_result p,
              authority_summary <$> sp_authority_evidence p, sp_receipts p)).

(** Exports are minimized: a bundle is a function of the disclosed part of
    the record, so it reveals nothing of the protected snapshot, of the
    commitment, of the replayable content of authority evidence or of the
    execution precondition; and of an erased record nothing but its identity
    and lifecycle. *)
Theorem build_evidence_noninterference (p q : StoredProposal) (exported_at : datetime)
  (revision : pystr) (Hsame : disclosed p = disclosed q) :
  build_evidence_bundle dump sha256 p exported_at revision =
  build_evidence_bundle dump sha256 q exported_at revision.
Proof.
  unfold disclosed in Hsame. injection Hsame as Href Hat Heff Hek Hrev Hst Hcr Hexp Her Hbody.
  unfold build_evidence_bundle, omissions. rewrite Href, Hat, Heff, Hek, Hrev, Hst, Hcr, Hexp, Her.
  rewrite Her in Hbody. destruct (record_erased q); [done|].
  injection Hbody as -> -> -> ->. done.
Qed.

(** Freezing a JSON object keeps each member under its name, in key order,
    as its canonical text. *)
Theorem from_mapping_canonical (value : JsonObject) (f : FrozenJsonObject)
  (Hfreeze : from_mapping value = Ok f) :
  fe_name <$> fj_entries f = fst <$> sort_items value ∧
  ∀ i entry name item, fj_entries f !! i = Some entry → sort_items value !! i = Some (name, item) →
    utf8 (code_points (fe_canonical_value entry)) = canonicalize_v1 item.
Proof.
  unfold from_mapping in Hfreeze. destruct (freeze_entries (sort_items value)) as [es|e] eqn:E;
    [|by destruct (is_KeyError_or_ValueError e)].
  injection Hfreeze as <-. simpl. clear -E.
  generalize dependent es. induction (sort_items value) as [|[n x] l IH]; intros es E.
  { injection E as <-. split; [done|]. intros i ? ? ? He. by rewrite lookup_nil in He. }
  apply res_bind_Ok in E as (entry & Hentry & E).
  apply res_bind_Ok in E as (entries & Hentries & [= <-]).
  destruct (IH _ Hentries) as [Hnames Hvals]. unfold freeze_entry in Hentry. simpl in Hentry.
  apply res_bind_Ok in Hentry as (c & Hc & Hentry).
  apply res_bind_Ok in Hentry as (text & Htext & Hentry).
  split_if; [injection Hentry as <-|done]. split; [by apply (f_equal (cons n)) in Hnames|].
  intros [|i] e' name item He Hi; simpl in *; [|by eapply Hvals].
  injection He as <-. injection Hi as <- <-. simpl. rewrite Hc.
  unfold canonicalize_v1 in Hc. apply res_bind_Ok in Hc as (v & Hv & Hc). split_if; [|done].
  unfold decode in Htext. rewrite (utf8_decode_utf8 _ _ Hc) in Htext. by injection Htext as <-.
Qed.

End Built.

Section Witness.
#[local] Definition a_receipt : Receipt :=
  ProposalReceipt (mkReceiptBase "internal/v0" "r1" "p" "p" 0 (Some "rev:1"%py) None None None None)
    PR_PREPARED (mkRequestingPrincipal "u") None.

#[local] Definition a_record (private : option ProtectedPayload) : StoredProposal :=
  mkStoredProposal "t" "p" (mkActionType "a.b" "c" 1) "e" single AWAITING_AUTHORITY 0 private None
    [("b"%py, JInt 2); ("a"%py, JStr "x")] (Some (mkRequestingPrincipal "u")) None 0 10 [] [a_receipt]
    0 3 None None None None None None.

(** Stand-ins: a dump that shows two fields, and a hash that prints its
    argument. *)
#[local] Definition a_dump (b : ActionEvidenceBundle) : JsonObject :=
  [("proposal_reference"%py, JStr (eb_proposal_reference b));
   ("source_revision"%py, JInt (eb_source_revision b))].
#[local] Definition a_hash (b : bytes) : pystr := PyStr (Z.to_N <$> b).

#[local] Instance a_unicode : Unicode := ascii_unicode.

Lemma build_evidence_noninterference_witness :
  build_evidence_bundle a_dump a_hash (a_record None) 5 "rev:1" =
  build_evidence_bundle a_dump a_hash
    (a_record (Some (mkProtectedPayload "scheme" "key" "nonce" "ciphertext"))) 5 "rev:1".
Proof. apply (build_evidence_noninterference a_dump a_hash). reflexivity. Defined.

Lemma from_mapping_canonical_witness :
  fe_name <$> [mkFrozenJsonEntry "a" (PyStr [34; 120; 34]%N); mkFrozenJsonEntry "b" "2"] =
  ["a"%py; "b"%py].
Proof.
  refine (proj1 (from_mapping_canonical [("b"%py, JInt 2); ("a"%py, JStr "x")]
    (mkFrozenJsonObject [mkFrozenJsonEntry "a" (PyStr [34; 120; 34]%N); mkFrozenJsonEntry "b" "2"]) _)).
  vm_compute. reflexivity.
Defined.
End Witness.
