(* ===== verification/Program.v ===== *)
(** Effectful code of the package as programs.

    Every [await] and every call of a host object is an operation; a program
    is a tree of operations, each answered by a value or by an exception.
    [runs] gives the partial executions under any answers, [wp] the proof
    rules for what a program guarantees about the operations it performs, and
    [run] executes a program against a handler. *)

From S2P Require Import Prelude Models Canonical Authority Receipts Registry StripeModels CustodyModels AgentModels.
From S2P Require Import StoreBase StoreContract Recovery.

(** * Operations *)

Inductive op :=
  (* the persistence contract *)
  | Store (o : store_op)
  (* the runtime's own services *)
  | ClockNow
  | NewIdentifier (prefix : pystr)
  | Emit (event : RuntimeEvent)
  (* the host ports of an action definition *)
  | CanPrepare (p : port) (command : PyModel) (context : PreparationContext)
  | Prepare (p : port) (command : PyModel) (context : PreparationContext)
  | CanDecide (p : port) (evidence : AuthorityEvidence) (context : DecisionContext)
  | CanExecute (p : port) (snapshot : PyModel) (context : ExecutionContext)
  | CanRead (p : port) (proposal_reference : pystr) (context : ReadContext)
  | CanRecover (p : port) (proposal_reference : pystr) (context : RecoveryContext)
  | Evaluate (p : port) (binding : AuthorityBinding) (evidence : list AuthorityEvidence)
  | Resolve (p : port) (snapshot : PyModel) (context : ExecutionContext)
  | Execute (p : port) (snapshot : PyModel) (context : ExecutionContext)
      (execution_precondition : pystr)
  | Verify (p : port) (context : ExecutionContext)
  | AuthorizeErasure (p : port) (proposal_reference : pystr) (context : ReadContext)
  (* commitment providers and protection codecs, in their two forms *)
  | CreateCommitment (p : port) (proposal_reference : pystr) (canonical_payload : bytes)
  | CreateCommitmentFor (p : port) (identity : ProposalIdentity) (canonical_payload : bytes)
  | VerifyCommitment (p : port) (proposal_reference : pystr) (canonical_payload : bytes)
      (commitment : KeyedCommitment)
  | VerifyCommitmentFor (p : port) (identity : ProposalIdentity) (canonical_payload : bytes)
      (commitment : KeyedCommitment)
  | DestroyCommitment (p : port) (commitment : KeyedCommitment)
  | DestroyCommitmentFor (p : port) (identity : ProposalIdentity) (commitment : KeyedCommitment)
  | Protect (p : port) (proposal_reference : pystr) (canonical_payload : bytes)
  | ProtectFor (p : port) (identity : ProposalIdentity) (canonical_payload : bytes)
  | Unprotect (p : port) (payload : ProtectedPayload)
  | UnprotectFor (p : port) (identity : ProposalIdentity) (payload : ProtectedPayload)
  | DestroyPayload (p : port) (payload : ProtectedPayload)
  | DestroyPayloadFor (p : port) (identity : ProposalIdentity) (payload : ProtectedPayload)
  (* [model.model_validate_json(document)] of a host class *)
  | ValidateJson (model : pystr) (document : bytes)
  (* due work and its leases *)
  | DiscoverDue (tenant_reference : pystr) (cutoff : datetime) (limit : Z)
      (cursor : option ActionWorkCursor)
  | ClaimLease (item : ActionWorkItem) (now lease_until : datetime)
  | CompleteLease (proposal_reference token : pystr) (next_attempt_at : option datetime)
      (attention_reason : option pystr)
  (* the hosts and gateways of the Stripe integration *)
  | Stripe (o : stripe_op)
  (* the ports, the buffers and the randomness of the key custody integrations *)
  | Custody (o : custody_op)
  (* the host objects of the agent integration *)
  | Agent (o : agent_op).

Definition resp (o : op) : Type :=
  match o with
  | Store so => store_resp so
  | ClockNow => datetime
  | NewIdentifier _ => pystr
  | Emit _ => unit
  | CanPrepare _ _ _ | CanDecide _ _ _ | CanExecute _ _ _ | CanRecover _ _ _ => AuthorizationResult
  | Prepare _ _ _ => PreparedAction
  | CanRead _ _ _ | AuthorizeErasure _ _ _ => bool
  | Evaluate _ _ _ => AuthorityEvaluation
  | Resolve _ _ _ => ResolvedState
  | Execute _ _ _ _ => ExecutionResult
  | Verify _ _ => VerificationResult
  | CreateCommitment _ _ _ | CreateCommitmentFor _ _ _ => KeyedCommitment
  | VerifyCommitment _ _ _ _ | VerifyCommitmentFor _ _ _ _ => bool
  | DestroyCommitment _ _ | DestroyCommitmentFor _ _ _ => unit
  | Protect _ _ _ | ProtectFor _ _ _ => ProtectedPayload
  | Unprotect _ _ | UnprotectFor _ _ _ => bytes
  | DestroyPayload _ _ | DestroyPayloadFor _ _ _ => unit
  | ValidateJson _ _ => PyModel
  | DiscoverDue _ _ _ _ => ActionWorkPage
  | ClaimLease _ _ _ => option pystr
  | CompleteLease _ _ _ _ => bool
  | Stripe o => stripe_resp o
  | Custody o => custody_resp o
  | Agent o => agent_resp o
  end.

(** * Programs *)

Inductive prog (A : Type) :=
  | Ret (a : A)
  | Raise (e : exn)
  | Vis (o : op) (k : res (resp o) → prog A).
Arguments Ret {A} a.
Arguments Raise {A} e.
Arguments Vis {A} o k.

Fixpoint prog_bind_ {A B} (f : A → prog B) (p : prog A) : prog B :=
  match p with
  | Ret a => f a
  | Raise e => Raise e
  | Vis o k => Vis o (λ r, prog_bind_ f (k r))
  end.

#[export] Instance prog_ret : MRet prog := λ A a, Ret a.
#[export] Instance prog_bind : MBind prog := λ A B f p, prog_bind_ f p.

(** Perform one operation; its exception propagates. *)
Definition call (o : op) : prog (resp o) :=
  Vis o (λ r, match r with Ok a => Ret a | Err e => Raise e end).

Definition raise {A} (k : exn_kind) : prog A := Raise (raised k).

Definition lift {A} (r : res A) : prog A :=
  match r with Ok a => Ret a | Err e => Raise e end.

(** Run [p] and catch whatever it raises: [try: ... except BaseException]. *)
Fixpoint attempt {A} (p : prog A) : prog (res A) :=
  match p with
  | Ret a => Ret (Ok a)
  | Raise e => Ret (Err e)
  | Vis o k => Vis o (λ r, attempt (k r))
  end.

(** * Executions *)

(** One operation and its answer. *)
Record event := Event { ev_op : op; ev_resp : res (resp ev_op) }.

Abbreviation history := (list event).

(** [runs p es q]: [p] performs exactly the operations [es], getting those
    answers, and has [q] left to do. *)
Inductive runs {A} : prog A → history → prog A → Prop :=
  | runs_nil p : runs p [] p
  | runs_cons o k r es q : runs (k r) es q → runs (Vis o k) (Event o r :: es) q.

(** Execute against a handler of operations, keeping what was performed. *)
Fixpoint run {S A} (handle : ∀ o, S → res (resp o) * S) (p : prog A) (s : S)
  : history * res A * S :=
  match p with
  | Ret a => ([], Ok a, s)
  | Raise e => ([], Err e, s)
  | Vis o k =>
      let '(r, s1) := handle o s in
      let '(es, a, s2) := run handle (k r) s1 in
      (Event o r :: es, a, s2)
  end.

(** * Guarantees *)

(** [wp G R p Q h]: started with history [h] behind it, [p] performs only
    operations that [G] allows given the history so far, as long as the
    answers are as [R] says, and ends in an outcome that satisfies [Q]. *)
Section Wp.
Variable G : history → op → Prop.
Variable R : history → event → Prop.

Fixpoint wp {A} (p : prog A) (Q : history → res A → Prop) (h : history) : Prop :=
  match p with
  | Ret a => Q h (Ok a)
  | Raise e => Q h (Err e)
  | Vis o k => G h o ∧ ∀ r, R h (Event o r) → wp (k r) Q (h ++ [Event o r])
  end.

Lemma wp_mono {A} (p : prog A) (Q Q' : history → res A → Prop) h :
  wp p Q h → (∀ h' r, h `prefix_of` h' → Q h' r → Q' h' r) → wp p Q' h.
Proof.
  revert h. induction p as [a|e|o k IH]; simpl; intros h Hp HQ.
  - by apply HQ.
  - by apply HQ.
  - destruct Hp as [HG Hk]. split; [done|]. intros r Hr. apply (IH r); [by apply Hk|].
    intros h' r' Hpre. apply HQ. etrans; [|exact Hpre]. by apply prefix_app_r.
Qed.

Lemma wp_bind {A B} (p : prog A) (f : A → prog B) (Q : history → res B → Prop) h :
  wp p (λ h' r, match r with Ok a => wp (f a) Q h' | Err e => Q h' (Err e) end) h →
  wp (p ≫= f) Q h.
Proof.
  revert h. unfold mbind, prog_bind.
  induction p as [a|e|o k IH]; simpl; intros h Hp; [done..|].
  destruct Hp as [HG Hk]. split; [done|]. intros r Hr. by apply IH, Hk.
Qed.

Lemma wp_attempt {A} (p : prog A) (Q : history → res (res A) → Prop) h :
  wp p (λ h' r, Q h' (Ok r)) h → wp (attempt p) Q h.
Proof.
  revert h. induction p as [a|e|o k IH]; simpl; intros h Hp; [done..|].
  destruct Hp as [HG Hk]. split; [done|]. intros r Hr. by apply IH, Hk.
Qed.

Lemma wp_call o (Q : history → res (resp o) → Prop) h :
  G h o → (∀ r, R h (Event o r) → Q (h ++ [Event o r]) r) → wp (call o) Q h.
Proof. intros HG HQ. split; [done|]. intros [a|e] Hr; by apply HQ. Qed.

Lemma wp_lift {A} (r : res A) (Q : history → res A → Prop) h : Q h r → wp (lift r) Q h.
Proof. by destruct r. Qed.

(** What [wp] says of executions. *)
Lemma wp_runs {A} (p q : prog A) (es h : history) (Q : history → res A → Prop) :
  wp p Q h → runs p es q →
  (∀ es1 e es2, es = es1 ++ e :: es2 → R (h ++ es1) e) →
  wp q Q (h ++ es) ∧ ∀ es1 e es2, es = es1 ++ e :: es2 → G (h ++ es1) (ev_op e).
Proof.
  intros Hp Hr. revert h Hp. induction Hr as [p|o k r es q Hr IH]; intros h Hp Hrely.
  - rewrite app_nil_r. split; [done|]. intros [|] ? ? ?; done.
  - destruct Hp as [HG Hk].
    assert (R h (Event o r)) as Hr0.
    { specialize (Hrely [] _ _ eq_refl). by rewrite app_nil_r in Hrely. }
    destruct (IH (h ++ [Event o r])) as [Hq Hes]; [by apply Hk| |].
    + intros es1 e es2 ->. rewrite <-app_assoc. by apply (Hrely (Event o r :: es1) e es2).
    + rewrite <-app_assoc in Hq. split; [done|]. intros [|e1 es1] e es2 Heq.
      * injection Heq as <- <-. by rewrite app_nil_r.
      * injection Heq as <- ->. specialize (Hes es1 e es2 eq_refl). by rewrite <-app_assoc in Hes.
Qed.

End Wp.

(** Weaker guarantees, and stronger assumptions, are free. *)
Lemma wp_weaken {A} (G G' : history → op → Prop) (R R' : history → event → Prop)
  (p : prog A) (Q : history → res A → Prop) h :
  wp G R p Q h → (∀ h' o, G h' o → G' h' o) → (∀ h' e, R' h' e → R h' e) → wp G' R' p Q h.
Proof.
  intros Hp HG HR. revert h Hp. induction p as [a|e|o k IH]; simpl; intros h; [done..|].
  intros [Ho Hk]. split; [by apply HG|]. intros r Hr. by apply IH, Hk, HR.
Qed.

Lemma wp_conj {A} (G G' : history → op → Prop) (R : history → event → Prop)
  (p : prog A) (Q Q' : history → res A → Prop) h :
  wp G R p Q h → wp G' R p Q' h →
  wp (λ h o, G h o ∧ G' h o) R p (λ h r, Q h r ∧ Q' h r) h.
Proof.
  revert h. induction p as [a|e|o k IH]; simpl; intros h; [done..|].
  intros [Ho Hk] [Ho' Hk']. split; [done|]. intros r Hr. by apply IH; [apply Hk|apply Hk'].
Qed.

(** [run] is one of the executions. *)
Lemma run_runs {S A} (handle : ∀ o, S → res (resp o) * S) (p : prog A) (s : S) :
  runs p (run handle p s).1.1 (lift (run handle p s).1.2).
Proof.
  revert s. induction p as [a|e|o k IH]; intros s; simpl; [constructor..|].
  destruct (handle o s) as [r s']. specialize (IH r s').
  destruct (run handle (k r) s') as [[es a] s2]. by constructor.
Qed.

(** * Inverting executions *)

(** [runs] by recursion on the history. *)
Fixpoint follows {A} (p : prog A) (es : history) (q : prog A) {struct es} : Prop :=
  match es with
  | [] => q = p
  | e :: es =>
      match p with
      | Vis o k => ∃ r, e = Event o r ∧ follows (k r) es q
      | _ => False
      end
  end.

Lemma runs_follows {A} (p q : prog A) es : runs p es q ↔ follows p es q.
Proof.
  split.
  - induction 1 as [p|o k r es q H IH]; simpl; [done|]. by exists r.
  - revert p. induction es as [|e es IH]; intros p; simpl; [intros ->; constructor|].
    destruct p as [a|x|o k]; [done..|]. intros (r & -> & H). constructor. by apply IH.
Qed.

Lemma runs_call_inv o es a :
  runs (call o) es (Ret a) → es = [Event o (Ok a)].
Proof.
  intros H%runs_follows. destruct es as [|e es]; [done|]. destruct H as (r & -> & H).
  destruct r as [x|x]; destruct es; simpl in H; try done. by injection H as ->.
Qed.

Lemma runs_ret_inv {A} (a b : A) es : runs (Ret a) es (Ret b) → es = [] ∧ b = a.
Proof. intros H%runs_follows. destruct es; [|done]. by injection H as ->. Qed.

Lemma runs_raise_inv {A} (a : A) e es : ¬ runs (Raise e) es (Ret a).
Proof. intros H%runs_follows. by destruct es. Qed.

Lemma runs_bind_inv {A B} (p : prog A) (f : A → prog B) es b :
  runs (p ≫= f) es (Ret b) →
  ∃ es1 es2 a, es = es1 ++ es2 ∧ runs p es1 (Ret a) ∧ runs (f a) es2 (Ret b).
Proof.
  revert es. induction p as [a|e|o k IH]; intros es H.
  - exists [], es, a. split_and!; [done|constructor|done].
  - by apply runs_raise_inv in H.
  - apply runs_follows in H. destruct es as [|e es]; [done|]. destruct H as (r & -> & H).
    apply runs_follows, IH in H as (es1 & es2 & a & -> & Hp & Hf).
    exists (Event o r :: es1), es2, a. split_and!; [done|by constructor|done].
Qed.

Lemma runs_attempt_inv {A} (p : prog A) es x :
  runs (attempt p) es (Ret x) →
  match x with Ok a => runs p es (Ret a) | Err e => runs p es (Raise e) end.
Proof.
  revert es. induction p as [a|e|o k IH]; intros es H.
  - apply runs_ret_inv in H as [-> ->]. constructor.
  - apply runs_ret_inv in H as [-> ->]. constructor.
  - apply runs_follows in H. destruct es as [|e es]; [done|]. destruct H as (r & -> & H).
    apply runs_follows, IH in H. destruct x; by constructor.
Qed.

Lemma run_bind {S A B} (handle : ∀ o, S → res (resp o) * S) (p : prog A) (f : A → prog B) (s : S) :
  run handle (p ≫= f) s =
  match (run handle p s).1.2 with
  | Ok a =>
      let '(es, r, s') := run handle (f a) (run handle p s).2 in ((run handle p s).1.1 ++ es, r, s')
  | Err e => ((run handle p s).1.1, Err e, (run handle p s).2)
  end.
Proof.
  revert s. induction p as [a|e|o k IH]; intros s.
  - simpl. change (Ret a ≫= f) with (f a). by destruct (run handle (f a) s) as [[es r] s'].
  - done.
  - change (Vis o k ≫= f) with (Vis o (λ r, k r ≫= f)). simpl.
    destruct (handle o s) as [r s1]. specialize (IH r s1). rewrite IH.
    destruct (run handle (k r) s1) as [[es [a|e]] s2]; simpl; [|done].
    by destruct (run handle (f a) s2) as [[es' r'] s3].
Qed.
