(* ===== verification/Custody.v ===== *)
(** What the two key custody adapters share: [try]/[finally], the wiping of key
    buffers, the reconciliation of unacknowledged writes, and the validation of
    the models they build. *)

From S2P Require Import Prelude Models Canonical Authority Receipts Registry StripeModels CustodyModels.
From S2P Require Import StoreBase StoredValidity StoreContract Recovery Program.

Definition custody (o : custody_op) : prog (custody_resp o) := call (Custody o).

(** [try: p finally: cleanup]. *)
Definition finally {A} (p : prog A) (cleanup : prog unit) : prog A :=
  r ← attempt p; _ ← cleanup; lift r.

(** [try: p except BaseException: cleanup; raise]. *)
Definition on_error {A} (p : prog A) (cleanup : prog unit) : prog A :=
  r ← attempt p;
  match r with Ok a => mret a | Err e => _ ← cleanup; Raise e end.

Definition _KEY_BYTES : nat := 32.
Definition _NONCE_BYTES : nat := 12.

(** [_zero]. *)
Definition _zero (key : bytearray) : prog unit := custody (ZeroBytearray key).

Definition value_error {A} (message : pystr) : prog A := raise (ValueErrorLike message).

(** ** The reconciliation of a write whose outcome is not acknowledged

    [put] failed with [failure]: what [get] shows decides. *)
Definition reconcile_put {E} `{EqDecision E} (envelope : E) (get : prog (option E)) (failure : exn)
  (interrupted unknown failed persisted_note already_bound : pystr) : prog unit :=
  r ← attempt get;
  match r with
  | Err reconciliation_failure =>
      if is_CancelledError failure then Raise (add_note interrupted failure)
      else Raise (add_note (failed +:+ type_name reconciliation_failure)%py
             (raised (OtherException unknown)))
  | Ok persisted =>
      if bool_decide (persisted = Some envelope) then
        if is_CancelledError failure then Raise (add_note persisted_note failure) else mret ()
      else if bool_decide (is_Some persisted) then value_error already_bound
      else Raise failure
  end.

(** What a deletion answered. *)
Definition deletion_outcome (outcome : DeleteOutcome) (mismatch invalid : pystr) : prog unit :=
  match outcome with
  | DO_DELETED | DO_ALREADY_ABSENT => mret ()
  | DO_MISMATCH => value_error mismatch
  | DO_INVALID => value_error invalid
  end.

(** ** The models the adapters build *)

Section Models.
Context `{U : Unicode}.

Definition keyed_commitment (algorithm key_handle key_version digest : pystr) : res KeyedCommitment :=
  let c := mkKeyedCommitment algorithm key_handle key_version digest in
  if commitment_valid c then Ok c else fail ValidationError.

Definition protected_payload (codec key_handle key_version ciphertext : pystr) : res ProtectedPayload :=
  let p := mkProtectedPayload codec key_handle key_version ciphertext in
  if payload_valid p then Ok p else fail ValidationError.

(** [LocalWrappedDataKey(...)]. *)
Definition local_wrapped_data_key (e : LocalWrappedDataKey) : res LocalWrappedDataKey :=
  if safe_reference (lw_tenant_reference e) && safe_reference (lw_proposal_reference e)
     && safe_reference (lw_kek_version e) && (_NONCE_BYTES + 16 <=? length (lw_ciphertext e))%nat
  then Ok e else fail ValidationError.

(** [KmsKeyIdentifier]. *)
Definition kms_key_identifier (value : pystr) : res pystr :=
  if unicode_text value && (1 <=? pystr_len value)%nat && (pystr_len value <=? 2048)%nat
     && bool_decide (value = strip value)
     && negb (existsb (λ c, is_space c || category_other c) (code_points value))
  then Ok value else fail ValidationError.

(** [WrappedDataKey(...)]. *)
Definition wrapped_data_key (e : WrappedDataKey) : res WrappedDataKey :=
  if safe_reference (wd_tenant_reference e) && safe_reference (wd_proposal_reference e)
     && match kms_key_identifier (wd_key_id e) with Ok _ => true | Err _ => false end
     && safe_reference (wd_key_version e) && (1 <=? length (wd_ciphertext e))%nat
  then Ok e else fail ValidationError.

End Models.
