(* ===== verification/LocalKek.v ===== *)
(** Envelope protection with a local key-encryption key
    ([integrations/local_kek.py]): [LocalKekEnvelopeProtection]. *)

From S2P Require Import Prelude Models Canonical Authority Receipts Registry StripeModels CustodyModels.
From S2P Require Import StoreBase StoredValidity StoreContract Recovery Program Custody.

Module LocalKek.

Definition _CODEC : pystr := "local-kek-envelope-aes256-gcm-v1".
Definition _ALGORITHM : pystr := "hmac-sha256".

Record LocalKekEnvelopeProtection := mkLocalKekEnvelopeProtection {
  _keks : port;
  _envelopes : port
}.

Section LocalKek.
Context `{U : Unicode, C : Cryptography}.

Definition _metadata (key_handle : pystr) (proposal_identity : ProposalIdentity)
  (purpose : EnvelopePurpose) (kek_version : pystr) : res bytes :=
  metadata_of "threvo-actions:local-kek-envelope:v1"
    [key_handle; pi_tenant_reference proposal_identity; pi_proposal_reference proposal_identity;
     purpose_value purpose; kek_version].

Definition _validate_kek (kek : LocalKekMaterial) (expected_version : option pystr) : prog unit :=
  _ ← lift (SafeReference (km_version kek));
  if match expected_version with Some v => negb (bool_decide (km_version kek = v)) | None => false end
  then value_error "KEK provider returned a different version" else
  key ← custody (ReadBytearray (km_key kek));
  if negb (length key =? _KEY_BYTES)%nat then value_error "local KEK must contain exactly 32 bytes"
  else mret ().

Variable self : LocalKekEnvelopeProtection.

Definition _new_key (proposal_identity : ProposalIdentity) (purpose : EnvelopePurpose)
  : prog (pystr * bytearray * LocalWrappedDataKey) :=
  hex ← custody (TokenHex 16);
  let handle := ("local-envelope:" +:+ hex)%py in
  content ← custody (TokenBytes _KEY_BYTES);
  data_key ← custody (NewBytearray content);
  kek ← custody (KekCurrent (_keks self));
  wrapped ← finally (on_error (
    _ ← _validate_kek kek None;
    nonce ← custody (TokenBytes _NONCE_BYTES);
    key ← custody (ReadBytearray (km_key kek));
    metadata ← lift (_metadata handle proposal_identity purpose (km_version kek));
    plaintext ← custody (ReadBytearray data_key);
    mret (nonce ++ aes_encrypt key nonce plaintext metadata))
    (_zero data_key)) (_zero (km_key kek));
  envelope ← lift (local_wrapped_data_key (mkLocalWrappedDataKey (pi_tenant_reference proposal_identity)
    (pi_proposal_reference proposal_identity) purpose (km_version kek) wrapped));
  mret (handle, data_key, envelope).

Definition _unwrap (key_handle : pystr) (envelope : LocalWrappedDataKey) : prog bytearray :=
  kek ← custody (KekResolve (_keks self) (lw_kek_version envelope));
  match kek with
  | None => raise (KeyErrorLike "KeyError")
  | Some kek =>
      plaintext ← finally (
        _ ← _validate_kek kek (Some (lw_kek_version envelope));
        let nonce := take _NONCE_BYTES (lw_ciphertext envelope) in
        key ← custody (ReadBytearray (km_key kek));
        metadata ← lift (_metadata key_handle
          (mkProposalIdentity (lw_tenant_reference envelope) (lw_proposal_reference envelope))
          (lw_purpose envelope) (lw_kek_version envelope));
        match aes_decrypt key nonce (drop _NONCE_BYTES (lw_ciphertext envelope)) metadata with
        | Some plaintext => mret plaintext
        | None => value_error "wrapped data key authentication failed"
        end) (_zero (km_key kek));
      data_key ← custody (NewBytearray plaintext);
      if negb (length plaintext =? _KEY_BYTES)%nat then
        _ ← _zero data_key; value_error "unwrapped data key must contain exactly 32 bytes"
      else mret data_key
  end.

Definition _store_key (handle : pystr) (envelope : LocalWrappedDataKey) : prog unit :=
  r ← attempt (custody (PutLocalKey (_envelopes self) handle envelope));
  match r with
  | Ok _ => mret ()
  | Err failure =>
      if bool_decide (exn_class failure = OtherException "LocalWrappedKeyWriteRejectedError")
      then Raise failure
      else reconcile_put envelope (custody (GetLocalKey (_envelopes self) handle)) failure
        "wrapped-key persistence reconciliation was interrupted; do not compensate the protected value"
        "LocalWrappedKeyPersistenceOutcomeUnknownError"
        "wrapped-key persistence reconciliation failed: "
        "wrapped key persisted before cancellation; do not compensate the protected value"
        "wrapped-key handle is already bound"
  end.

Definition _destroy (key_handle : pystr) (proposal_identity : ProposalIdentity)
  (purpose : EnvelopePurpose) (kek_version : pystr) : prog unit :=
  outcome ← custody (DeleteLocalKey (_envelopes self) key_handle proposal_identity purpose kek_version);
  deletion_outcome outcome "key envelope metadata does not match the protected value"
    "wrapped-key store returned an invalid deletion outcome".

Definition _matches (envelope : LocalWrappedDataKey) (proposal_identity : ProposalIdentity)
  (purpose : EnvelopePurpose) (kek_version : pystr) : bool :=
  bool_decide (lw_tenant_reference envelope = pi_tenant_reference proposal_identity)
  && bool_decide (lw_proposal_reference envelope = pi_proposal_reference proposal_identity)
  && bool_decide (lw_purpose envelope = purpose)
  && bool_decide (lw_kek_version envelope = kek_version).

(** The digest of a commitment under a data key. *)
Definition hmac_digest (data_key : bytearray) (handle : pystr) (proposal_identity : ProposalIdentity)
  (kek_version : pystr) (canonical_payload : bytes) : prog pystr :=
  metadata ← lift (_metadata handle proposal_identity FOR_COMMITMENT kek_version);
  key ← custody (ReadBytearray data_key);
  mret (hmac_sha256_hexdigest key (metadata ++ canonical_payload)).

Definition create_for (proposal_identity : ProposalIdentity) (canonical_payload : bytes)
  : prog KeyedCommitment :=
  '(handle, data_key, envelope) ← _new_key proposal_identity FOR_COMMITMENT;
  digest ← finally (hmac_digest data_key handle proposal_identity (lw_kek_version envelope)
                      canonical_payload) (_zero data_key);
  _ ← _store_key handle envelope;
  lift (keyed_commitment _ALGORITHM handle (lw_kek_version envelope) digest).

Definition verify_for (proposal_identity : ProposalIdentity) (canonical_payload : bytes)
  (commitment : KeyedCommitment) : prog bool :=
  if negb (bool_decide (kc_algorithm commitment = _ALGORITHM)) then mret false else
  envelope ← custody (GetLocalKey (_envelopes self) (kc_key_handle commitment));
  match envelope with
  | None => mret false
  | Some envelope =>
      if negb (_matches envelope proposal_identity FOR_COMMITMENT (kc_key_version commitment)) then mret false
      else
        r ← attempt (_unwrap (kc_key_handle commitment) envelope);
        match r with
        | Err e => if is_KeyError_or_ValueError e then mret false else Raise e
        | Ok data_key =>
            finally (
              expected ← hmac_digest data_key (kc_key_handle commitment) proposal_identity
                           (lw_kek_version envelope) canonical_payload;
              lift (compare_digest expected (kc_digest commitment))) (_zero data_key)
        end
  end.

Definition destroy_commitment_for (proposal_identity : ProposalIdentity) (commitment : KeyedCommitment)
  : prog unit :=
  if negb (bool_decide (kc_algorithm commitment = _ALGORITHM)) then
    value_error "commitment algorithm is not supported"
  else _destroy (kc_key_handle commitment) proposal_identity FOR_COMMITMENT (kc_key_version commitment).

Definition protect_for (proposal_identity : ProposalIdentity) (canonical_payload : bytes)
  : prog ProtectedPayload :=
  '(handle, data_key, envelope) ← _new_key proposal_identity FOR_PAYLOAD;
  nonce ← custody (TokenBytes _NONCE_BYTES);
  ciphertext ← finally (
    key ← custody (ReadBytearray data_key);
    metadata ← lift (_metadata handle proposal_identity FOR_PAYLOAD (lw_kek_version envelope));
    mret (nonce ++ aes_encrypt key nonce canonical_payload metadata)) (_zero data_key);
  _ ← _store_key handle envelope;
  lift (protected_payload _CODEC handle (lw_kek_version envelope) (PyStr (b64encode ciphertext))).

(** The envelope of a protected value, and its bytes. *)
Definition protected_envelope (envelope : option LocalWrappedDataKey)
  (proposal_identity : ProposalIdentity) (p : ProtectedPayload) : res (LocalWrappedDataKey * bytes) :=
  match envelope with
  | None => fail (ValueErrorLike "protected payload metadata does not match its key envelope")
  | Some envelope =>
      if negb (_matches envelope proposal_identity FOR_PAYLOAD (pp_key_version p)) then
        fail (ValueErrorLike "protected payload metadata does not match its key envelope")
      else
        match b64decode (code_points (pp_ciphertext p)) with
        | None => fail (ValueErrorLike "protected payload ciphertext is invalid")
        | Some encoded =>
            if (length encoded <? _NONCE_BYTES + 16)%nat then
              fail (ValueErrorLike "protected payload ciphertext is invalid")
            else Ok (envelope, encoded)
        end
  end.

Definition unprotect_for (proposal_identity : ProposalIdentity) (p : ProtectedPayload) : prog bytes :=
  if negb (bool_decide (pp_codec p = _CODEC)) then
    value_error "protected payload codec is not supported" else
  envelope ← custody (GetLocalKey (_envelopes self) (pp_key_handle p));
  '(envelope, encoded) ← lift (protected_envelope envelope proposal_identity p);
  data_key ← _unwrap (pp_key_handle p) envelope;
  finally (
    key ← custody (ReadBytearray data_key);
    metadata ← lift (_metadata (pp_key_handle p) proposal_identity FOR_PAYLOAD (lw_kek_version envelope));
    match aes_decrypt key (take _NONCE_BYTES encoded) (drop _NONCE_BYTES encoded) metadata with
    | Some plaintext => mret plaintext
    | None => value_error "protected payload authentication failed"
    end) (_zero data_key).

Definition destroy_payload_for (proposal_identity : ProposalIdentity) (p : ProtectedPayload) : prog unit :=
  if negb (bool_decide (pp_codec p = _CODEC)) then
    value_error "protected payload codec is not supported"
  else _destroy (pp_key_handle p) proposal_identity FOR_PAYLOAD (pp_key_version p).

End LocalKek.

End LocalKek.
