(* ===== verification/AwsKms.v ===== *)
(** Envelope protection with AWS KMS ([integrations/aws_kms.py]):
    [AwsKmsEnvelopeProtection]. *)

From S2P Require Import Prelude Models Canonical Authority Receipts Registry StripeModels CustodyModels.
From S2P Require Import StoreBase StoredValidity StoreContract Recovery Program Custody.

Module AwsKms.

Definition _CODEC : pystr := "aws-kms-envelope-aes256-gcm-v1".
Definition _ALGORITHM : pystr := "hmac-sha256".
Definition _DATA_KEY_BYTES : nat := 32.

Record AwsKmsEnvelopeProtection := mkAwsKmsEnvelopeProtection {
  _key_id : pystr;
  _kms : port;
  _envelopes : port
}.

Section AwsKms.
Context `{U : Unicode, C : Cryptography}.

(** [__init__]. *)
Definition aws_kms_init (key_id : pystr) (kms envelopes : port) : res AwsKmsEnvelopeProtection :=
  key_id ← kms_key_identifier key_id; Ok (mkAwsKmsEnvelopeProtection key_id kms envelopes).

Definition _encryption_context (key_handle : pystr) (proposal_identity : ProposalIdentity)
  (purpose : EnvelopePurpose) : encryption_context :=
  [("threvo-actions:key-handle", key_handle);
   ("threvo-actions:tenant", pi_tenant_reference proposal_identity);
   ("threvo-actions:proposal", pi_proposal_reference proposal_identity);
   ("threvo-actions:purpose", purpose_value purpose)]%py.

Definition _authenticated_metadata (key_handle : pystr) (proposal_identity : ProposalIdentity)
  (purpose : EnvelopePurpose) (key_id key_version : pystr) : res bytes :=
  metadata_of "threvo-actions:aws-kms-envelope:v1"
    [key_handle; pi_tenant_reference proposal_identity; pi_proposal_reference proposal_identity;
     purpose_value purpose; key_id; key_version].

Definition _key_version (resolved_key_id : pystr) : res pystr :=
  b ← utf8 (code_points resolved_key_id); Ok ("aws-kms:" +:+ sha256_hex b)%py.

Variable self : AwsKmsEnvelopeProtection.

Definition _generate_key (proposal_identity : ProposalIdentity) (purpose : EnvelopePurpose)
  : prog (pystr * GeneratedDataKey) :=
  hex ← custody (TokenHex 16);
  let handle := ("kms-envelope:" +:+ hex)%py in
  generated ← custody (GenerateDataKey (_kms self) (_key_id self)
                (_encryption_context handle proposal_identity purpose) (Z.of_nat _DATA_KEY_BYTES));
  plaintext ← custody (ReadBytearray (gd_plaintext generated));
  if negb (length plaintext =? _DATA_KEY_BYTES)%nat then
    _ ← _zero (gd_plaintext generated);
    value_error "KMS data key must contain exactly 32 plaintext bytes"
  else
    match kms_key_identifier (gd_resolved_key_id generated) with
    | Ok _ => mret (handle, generated)
    | Err e => _ ← _zero (gd_plaintext generated); Raise e
    end.

Definition _store_key (handle : pystr) (generated : GeneratedDataKey)
  (proposal_identity : ProposalIdentity) (purpose : EnvelopePurpose) : prog unit :=
  key_version ← lift (_key_version (gd_resolved_key_id generated));
  envelope ← lift (wrapped_data_key (mkWrappedDataKey (pi_tenant_reference proposal_identity)
               (pi_proposal_reference proposal_identity) purpose (gd_resolved_key_id generated)
               key_version (gd_ciphertext generated)));
  r ← attempt (custody (PutDataKey (_envelopes self) handle envelope));
  match r with
  | Ok _ => mret ()
  | Err failure => reconcile_put envelope (custody (GetDataKey (_envelopes self) handle)) failure
      "wrapped data-key persistence reconciliation was interrupted; do not compensate the protected value"
      "WrappedDataKeyPersistenceOutcomeUnknownError"
      "wrapped data-key persistence reconciliation failed: "
      "wrapped data key persisted before cancellation; do not compensate the protected value"
      "wrapped data-key handle is already bound"
  end.

Definition _decrypt_key (key_handle : pystr) (envelope : WrappedDataKey) : prog bytearray :=
  decrypted ← custody (DecryptDataKey (_kms self) (wd_key_id envelope) (wd_ciphertext envelope)
                (_encryption_context key_handle
                   (mkProposalIdentity (wd_tenant_reference envelope) (wd_proposal_reference envelope))
                   (wd_purpose envelope)));
  key ← match decrypted with
    | inr key => mret key
    | inl content => custody (NewBytearray content)
    end;
  content ← custody (ReadBytearray key);
  if negb (length content =? _DATA_KEY_BYTES)%nat then
    _ ← _zero key; value_error "KMS data key must contain exactly 32 plaintext bytes"
  else mret key.

Definition _destroy (key_handle key_version : pystr) (purpose : EnvelopePurpose)
  (proposal_identity : ProposalIdentity) : prog unit :=
  outcome ← custody (DeleteDataKey (_envelopes self) key_handle proposal_identity purpose key_version);
  deletion_outcome outcome "key envelope metadata does not match the protected value"
    "wrapped data-key store returned an invalid deletion outcome".

Definition _matches (envelope : WrappedDataKey) (proposal_identity : ProposalIdentity)
  (purpose : EnvelopePurpose) (key_version : pystr) : bool :=
  bool_decide (wd_tenant_reference envelope = pi_tenant_reference proposal_identity)
  && bool_decide (wd_proposal_reference envelope = pi_proposal_reference proposal_identity)
  && bool_decide (wd_purpose envelope = purpose)
  && bool_decide (wd_key_version envelope = key_version).

Definition hmac_digest (key : bytearray) (handle : pystr) (proposal_identity : ProposalIdentity)
  (key_id key_version : pystr) (canonical_payload : bytes) : prog pystr :=
  metadata ← lift (_authenticated_metadata handle proposal_identity FOR_COMMITMENT key_id key_version);
  content ← custody (ReadBytearray key);
  mret (hmac_sha256_hexdigest content (metadata ++ canonical_payload)).

Definition create_for (proposal_identity : ProposalIdentity) (canonical_payload : bytes)
  : prog KeyedCommitment :=
  '(handle, generated) ← _generate_key proposal_identity FOR_COMMITMENT;
  key_version ← lift (_key_version (gd_resolved_key_id generated));
  digest ← finally (hmac_digest (gd_plaintext generated) handle proposal_identity
             (gd_resolved_key_id generated) key_version canonical_payload) (_zero (gd_plaintext generated));
  commitment ← lift (keyed_commitment _ALGORITHM handle key_version digest);
  _ ← _store_key handle generated proposal_identity FOR_COMMITMENT;
  mret commitment.

Definition verify_for (proposal_identity : ProposalIdentity) (canonical_payload : bytes)
  (commitment : KeyedCommitment) : prog bool :=
  if negb (bool_decide (kc_algorithm commitment = _ALGORITHM)) then mret false else
  envelope ← custody (GetDataKey (_envelopes self) (kc_key_handle commitment));
  match envelope with
  | None => mret false
  | Some envelope =>
      if negb (_matches envelope proposal_identity FOR_COMMITMENT (kc_key_version commitment)) then mret false
      else
        key ← _decrypt_key (kc_key_handle commitment) envelope;
        finally (
          expected ← hmac_digest key (kc_key_handle commitment) proposal_identity (wd_key_id envelope)
                       (wd_key_version envelope) canonical_payload;
          lift (compare_digest expected (kc_digest commitment))) (_zero key)
  end.

Definition destroy_commitment_for (proposal_identity : ProposalIdentity) (commitment : KeyedCommitment)
  : prog unit :=
  if negb (bool_decide (kc_algorithm commitment = _ALGORITHM)) then
    value_error "commitment algorithm is not supported"
  else _destroy (kc_key_handle commitment) (kc_key_version commitment) FOR_COMMITMENT proposal_identity.

Definition protect_for (proposal_identity : ProposalIdentity) (canonical_payload : bytes)
  : prog ProtectedPayload :=
  '(handle, generated) ← _generate_key proposal_identity FOR_PAYLOAD;
  key_version ← lift (_key_version (gd_resolved_key_id generated));
  nonce ← custody (TokenBytes _NONCE_BYTES);
  ciphertext ← finally (
    key ← custody (ReadBytearray (gd_plaintext generated));
    metadata ← lift (_authenticated_metadata handle proposal_identity FOR_PAYLOAD
                       (gd_resolved_key_id generated) key_version);
    mret (nonce ++ aes_encrypt key nonce canonical_payload metadata)) (_zero (gd_plaintext generated));
  protected ← lift (protected_payload _CODEC handle key_version (PyStr (b64encode ciphertext)));
  _ ← _store_key handle generated proposal_identity FOR_PAYLOAD;
  mret protected.

(** The envelope of a protected value, and its bytes. *)
Definition protected_envelope (envelope : option WrappedDataKey)
  (proposal_identity : ProposalIdentity) (p : ProtectedPayload) : res (WrappedDataKey * bytes) :=
  match envelope with
  | None => fail (KeyErrorLike "KeyError")
  | Some envelope =>
      if negb (_matches envelope proposal_identity FOR_PAYLOAD (pp_key_version p)) then
        fail (ValueErrorLike "protected payload metadata does not match its key envelope")
      else
        match b64decode (code_points (pp_ciphertext p)) with
        | None => fail (ValueErrorLike "protected payload ciphertext is invalid")
        | Some encoded =>
            if (length encoded <? _NONCE_BYTES + 16)%nat then
              fail (ValueErrorLike "protected payload ciphertext is invalid")
            else Ok (envelope, encoded)
        end
  end.

Definition unprotect_for (proposal_identity : ProposalIdentity) (p : ProtectedPayload) : prog bytes :=
  if negb (bool_decide (pp_codec p = _CODEC)) then
    value_error "protected payload codec is not supported" else
  envelope ← custody (GetDataKey (_envelopes self) (pp_key_handle p));
  '(envelope, encoded) ← lift (protected_envelope envelope proposal_identity p);
  key ← _decrypt_key (pp_key_handle p) envelope;
  finally (
    content ← custody (ReadBytearray key);
    metadata ← lift (_authenticated_metadata (pp_key_handle p) proposal_identity FOR_PAYLOAD
                       (wd_key_id envelope) (wd_key_version envelope));
    match aes_decrypt content (take _NONCE_BYTES encoded) (drop _NONCE_BYTES encoded) metadata with
    | Some plaintext => mret plaintext
    | None => value_error "protected payload authentication failed"
    end) (_zero key).

Definition destroy_payload_for (proposal_identity : ProposalIdentity) (p : ProtectedPayload) : prog unit :=
  if negb (bool_decide (pp_codec p = _CODEC)) then
    value_error "protected payload codec is not supported"
  else _destroy (pp_key_handle p) (pp_key_version p) FOR_PAYLOAD proposal_identity.

End AwsKms.

End AwsKms.
