(* ===== verification/CustodySafety.v ===== *)
(** What the key custody adapters do with keys: every buffer that held one is
    overwritten when a call ends, and a protected value is given out only with
    its wrapped key stored. *)

From S2P Require Import Prelude Models Canonical Authority Receipts Registry StripeModels CustodyModels.
From S2P Require Import StoreBase StoredValidity StoreContract Recovery Program Custody LocalKek AwsKms.

(** * The calls of both adapters *)

Inductive custodian :=
  | Local (self : LocalKek.LocalKekEnvelopeProtection)
  | Aws (self : AwsKms.AwsKmsEnvelopeProtection).

Inductive custody_call :=
  | CreateFor (canonical_payload : bytes)
  | VerifyFor (canonical_payload : bytes) (commitment : KeyedCommitment)
  | DestroyCommitmentOf (commitment : KeyedCommitment)
  | ProtectPayload (canonical_payload : bytes)
  | UnprotectPayload (payload : ProtectedPayload)
  | DestroyPayloadOf (payload : ProtectedPayload).

Definition custody_result (c : custody_call) : Type :=
  match c with
  | CreateFor _ => KeyedCommitment
  | VerifyFor _ _ => bool
  | DestroyCommitmentOf _ | DestroyPayloadOf _ => unit
  | ProtectPayload _ => ProtectedPayload
  | UnprotectPayload _ => bytes
  end.

Definition custody_prog `{U : Unicode, C : Cryptography} (k : custodian) (i : ProposalIdentity)
  (c : custody_call) : prog (custody_result c) :=
  match k, c with
  | Local s, CreateFor m => LocalKek.create_for s i m
  | Local s, VerifyFor m x => LocalKek.verify_for s i m x
  | Local s, DestroyCommitmentOf x => LocalKek.destroy_commitment_for s i x
  | Local s, ProtectPayload m => LocalKek.protect_for s i m
  | Local s, UnprotectPayload p => LocalKek.unprotect_for s i p
  | Local s, DestroyPayloadOf p => LocalKek.destroy_payload_for s i p
  | Aws s, CreateFor m => AwsKms.create_for s i m
  | Aws s, VerifyFor m x => AwsKms.verify_for s i m x
  | Aws s, DestroyCommitmentOf x => AwsKms.destroy_commitment_for s i x
  | Aws s, ProtectPayload m => AwsKms.protect_for s i m
  | Aws s, UnprotectPayload p => AwsKms.unprotect_for s i p
  | Aws s, DestroyPayloadOf p => AwsKms.destroy_payload_for s i p
  end.

(** * Buffers that hold a key *)

(** The buffer an answer hands to the adapter. *)
Definition obtained (e : event) : option bytearray :=
  match e with
  | Event (Custody (NewBytearray _)) (Ok b) => Some b
  | Event (Custody (KekCurrent _)) (Ok m) => Some (km_key m)
  | Event (Custody (KekResolve _ _)) (Ok (Some m)) => Some (km_key m)
  | Event (Custody (GenerateDataKey _ _ _ _)) (Ok g) => Some (gd_plaintext g)
  | Event (Custody (DecryptDataKey _ _ _ _)) (Ok (inr b)) => Some b
  | _ => None
  end.

Definition buffer_step (live : gset bytearray) (e : event) : gset bytearray :=
  match ev_op e with
  | Custody (ZeroBytearray b) => live ∖ {[b]}
  | _ => match obtained e with Some b => live ∪ {[b]} | None => live end
  end.

(** The buffers that were obtained and not overwritten since. *)
Definition unwiped (h : history) : gset bytearray := foldl buffer_step ∅ h.

Lemma unwiped_snoc h e : unwiped (h ++ [e]) = buffer_step (unwiped h) e.
Proof. apply foldl_snoc. Qed.

Lemma unwiped_other h o r :
  obtained (Event (Custody o) r) = None → match o with ZeroBytearray _ => False | _ => True end →
  unwiped (h ++ [Event (Custody o) r]) = unwiped h.
Proof. intros Ho Hz. rewrite unwiped_snoc. unfold buffer_step. rewrite Ho. by destruct o. Qed.

Lemma unwiped_obtained h o r b :
  obtained (Event (Custody o) r) = Some b → unwiped (h ++ [Event (Custody o) r]) = unwiped h ∪ {[b]}.
Proof. intros Ho. rewrite unwiped_snoc. unfold buffer_step. rewrite Ho. by destruct o. Qed.

(** The characters of a [str] are code points. *)
Definition is_text (s : pystr) : Prop := Forall (λ c, c < 0x110000)%N (code_points s).

(** What Python itself answers: its allocations, its buffers and [secrets] do
    not fail, [token_bytes(n)] has [n] bytes, and strings are of code points. *)
Definition machine (h : history) (e : event) : Prop :=
  match e with
  | Event (Custody (TokenBytes n)) r => ∃ b, r = Ok b ∧ length b = n
  | Event (Custody (TokenHex _)) r => ∃ s, r = Ok s
  | Event (Custody (NewBytearray _)) r => ∃ b, r = Ok b
  | Event (Custody (ReadBytearray _)) r => ∃ b, r = Ok b
  | Event (Custody (ZeroBytearray _)) r => r = Ok ()
  | Event (Custody (GenerateDataKey _ _ _ _)) (Ok g) => is_text (gd_resolved_key_id g)
  | _ => True
  end.

(** [T L p S P E]: with at most [L] unwiped, [p] ends in a result [a] with
    [P a] and at most [S a] unwiped, or raises with at most [E] unwiped. *)
Definition T {A} (L : gset bytearray) (p : prog A) (S : A → gset bytearray) (P : A → Prop)
  (E : gset bytearray) : Prop :=
  ∀ h, unwiped h ⊆ L → wp (λ _ _, True) machine p (λ h' r,
    match r with Ok a => unwiped h' ⊆ S a ∧ P a | Err _ => unwiped h' ⊆ E end) h.

Abbreviation always := (λ _, True).

Section Rules.
Context {A : Type}.
Implicit Types (L E : gset bytearray) (S : A → gset bytearray) (P : A → Prop).

Lemma T_mono L L' (p : prog A) S S' P P' E E' :
  T L p S P E → L' ⊆ L → (∀ a, P a → S a ⊆ S' a ∧ P' a) → E ⊆ E' → T L' p S' P' E'.
Proof.
  intros Hp HL HS HE h Hh. eapply wp_mono; [apply Hp; set_solver|].
  intros h' [a|e] _; [intros [Ha HP]; destruct (HS a HP); set_solver|set_solver].
Qed.

Lemma T_ret L (a : A) S P E : L ⊆ S a → P a → T L (Ret a) S P E.
Proof. intros HL HP h Hh. simpl. set_solver. Qed.

Lemma T_raise L e S P E : L ⊆ E → T L (Raise e) S P E.
Proof. intros H h Hh. simpl. set_solver. Qed.

Lemma T_lift L (r : res A) E : L ⊆ E → T L (lift r) (λ _, L) (λ a, r = Ok a) E.
Proof. intros HE. destruct r; [by apply T_ret|by apply T_raise]. Qed.

Lemma T_bind {B} L (p : prog A) (f : A → prog B) S P (S' : B → gset bytearray) (P' : B → Prop) E :
  T L p S P E → (∀ a, P a → T (S a) (f a) S' P' E) → T L (p ≫= f) S' P' E.
Proof.
  intros Hp Hf h Hh. apply wp_bind. eapply wp_mono; [by apply Hp|].
  intros h' [a|e] _ Ha; [|done]. destruct Ha as [Ha HP]. by apply (Hf a HP).
Qed.

Lemma T_attempt L (p : prog A) S P E E' :
  T L p S P E →
  T L (attempt p) (λ r, match r with Ok a => S a | Err _ => E end)
    (λ r, match r with Ok a => P a | Err _ => True end) E'.
Proof.
  intros Hp h Hh. apply wp_attempt. eapply wp_mono; [by apply Hp|]. by intros h' [a|e] _.
Qed.

End Rules.

(** An operation whose answer hands over no buffer. *)
Lemma T_call L o E :
  (∀ r, obtained (Event (Custody o) r) = None) →
  match o with ZeroBytearray _ => False | _ => True end → L ⊆ E →
  T L (custody o) (λ _, L) always E.
Proof.
  intros Ho Hz HE h Hh. apply wp_call; [done|]. intros r _. rewrite unwiped_snoc. unfold buffer_step.
  cbn [ev_op]. rewrite Ho. destruct o; try done; destruct r; set_solver.
Qed.

Lemma T_read L b E : T L (custody (ReadBytearray b)) (λ _, L) always E.
Proof. intros h Hh. apply wp_call; [done|]. intros r [x ->]. by rewrite unwiped_snoc. Qed.

Lemma T_random L n E : T L (custody (TokenBytes n)) (λ _, L) (λ x, length x = n) E.
Proof. intros h Hh. apply wp_call; [done|]. intros r (x & -> & Hx). by rewrite unwiped_snoc. Qed.

Lemma T_token L n E : T L (custody (TokenHex n)) (λ _, L) always E.
Proof. intros h Hh. apply wp_call; [done|]. intros r (x & ->). by rewrite unwiped_snoc. Qed.

Lemma T_new L content E : T L (custody (NewBytearray content)) (λ b, L ∪ {[b]}) always E.
Proof.
  intros h Hh. apply wp_call; [done|]. intros r (x & ->). rewrite unwiped_snoc. unfold buffer_step.
  simpl. set_solver.
Qed.

Lemma T_zero L b E : T L (_zero b) (λ _, L ∖ {[b]}) always E.
Proof.
  intros h Hh. apply wp_call; [done|]. intros r ->. rewrite unwiped_snoc. unfold buffer_step. simpl.
  set_solver.
Qed.

Lemma T_resolve L p version :
  T L (custody (KekResolve p version))
    (λ m, L ∪ match m with Some m => {[km_key m]} | None => ∅ end) always L.
Proof.
  intros h Hh. apply wp_call; [done|]. intros [[m|]|e] _; rewrite unwiped_snoc; unfold buffer_step; simpl; set_solver.
Qed.

Lemma T_generate L p key_id context n :
  T L (custody (GenerateDataKey p key_id context n)) (λ g, L ∪ {[gd_plaintext g]})
    (λ g, is_text (gd_resolved_key_id g)) L.
Proof.
  intros h Hh. apply wp_call; [done|]. intros [g|e] Hg; rewrite unwiped_snoc; unfold buffer_step; simpl;
    [split; [set_solver|done]|done].
Qed.

Lemma T_decrypt L p key_id ciphertext context :
  T L (custody (DecryptDataKey p key_id ciphertext context))
    (λ d, L ∪ match d with inr b => {[b]} | inl _ => ∅ end) always L.
Proof.
  intros h Hh. apply wp_call; [done|]. intros [[m|]|e] _; rewrite unwiped_snoc; unfold buffer_step; simpl; set_solver.
Qed.

(** Wipe [b], then raise. *)
Lemma T_zero_raise {A} L b e (S : A → gset bytearray) P E :
  L ∖ {[b]} ⊆ E → T L (_ ← _zero b; Raise e) S P E.
Proof. intros HE. eapply T_bind; [apply T_zero|]. intros [] _. by apply T_raise. Qed.

(** [finally: _zero(b)] leaves [b] wiped, however the body ends. *)
Lemma T_finally {A} L (p : prog A) S P b E' E :
  T L p S P E' → E' ∖ {[b]} ⊆ E → T L (finally p (_zero b)) (λ a, S a ∖ {[b]}) P E.
Proof.
  intros Hp HE. unfold finally. eapply T_bind; [by apply (T_attempt L p S P E' E)|].
  intros [a|e] HP; (eapply T_bind; [apply T_zero|]); intros [] _; [by apply T_ret|by apply T_raise].
Qed.

(** [except BaseException: _zero(b); raise]. *)
Lemma T_on_error {A} L (p : prog A) S P b E' E :
  T L p S P E' → E' ∖ {[b]} ⊆ E → T L (on_error p (_zero b)) S P E.
Proof.
  intros Hp HE. unfold on_error. eapply T_bind; [by apply (T_attempt L p S P E' E)|].
  intros [a|e] HP; [by apply T_ret|by apply T_zero_raise].
Qed.

Lemma diff_left (b k : bytearray) : ({[b; k]} ∖ {[b]} : gset bytearray) ⊆ {[k]}.
Proof. set_solver. Qed.
Lemma diff_right (b k : bytearray) : ({[b; k]} ∖ {[k]} : gset bytearray) ⊆ {[b]}.
Proof. set_solver. Qed.
Lemma diff_one (k : bytearray) : ({[k]} ∖ {[k]} : gset bytearray) ⊆ ∅.
Proof. set_solver. Qed.
Lemma one_more (X : gset bytearray) (b k : bytearray) : X ⊆ {[b]} → X ∪ {[k]} ⊆ {[b; k]}.
Proof. set_solver. Qed.
Lemma empty_one (b : bytearray) : (∅ ∪ {[b]} : gset bytearray) ⊆ {[b]}.
Proof. set_solver. Qed.
Lemma diff_new (b : bytearray) : ((∅ ∪ {[b]}) ∖ {[b]} : gset bytearray) ⊆ ∅.
Proof. set_solver. Qed.

(** The inclusions between sets of unwiped buffers that come up. *)
Ltac sub :=
  cbn beta iota;
  first [ reflexivity | assumption | apply empty_one | apply diff_left | apply diff_right | apply diff_one
        | apply diff_new | apply one_more; assumption ].

(** ** Straight-line code

    One step of a program whose parts hand over no buffer. *)
Ltac T_part :=
  first [ apply T_read | apply T_random | apply T_token | apply T_zero
        | apply T_lift; sub
        | match goal with |- T ?L (custody ?o) _ _ _ =>
            apply (T_call L o); [by intros []|exact I|sub] end ].
Ltac T_steps :=
  repeat match goal with
  | |- T _ (value_error _) _ _ _ => apply T_raise; sub
  | |- T _ (Raise _) _ _ _ => apply T_raise; sub
  | |- T _ (raise _) _ _ _ => apply T_raise; sub
  | |- T _ (mret _) _ _ _ => apply T_ret; [sub|]
  | |- T _ (if ?b then _ else _) _ _ _ => destruct b eqn:?
  | |- T _ (_ ≫= _) _ _ _ => eapply T_bind; [T_part|intros ? ?]
  end.

Section Programs.
Context `{U : Unicode, C : Cryptography, CL : !CryptographyLaws C}.

(** ** The local adapter *)

Lemma T_validate_kek L kek expected E :
  L ⊆ E →
  T L (LocalKek._validate_kek kek expected) (λ _, L) (λ _, safe_reference (km_version kek) = true) E.
Proof.
  intros HE. unfold LocalKek._validate_kek. eapply T_bind; [by apply T_lift|]. intros v Hv.
  T_steps. unfold safe_reference. by rewrite Hv.
Qed.

(** From the key-encryption key on, [_new_key] leaves at most the data key. *)
Lemma T_wrap (i : ProposalIdentity) purpose handle (b : bytearray) (kek : LocalKekMaterial) :
  safe_reference (pi_tenant_reference i) = true → safe_reference (pi_proposal_reference i) = true →
  T {[b; km_key kek]} (
    wrapped ← finally (on_error (
      _ ← LocalKek._validate_kek kek None;
      nonce ← custody (TokenBytes _NONCE_BYTES);
      key ← custody (ReadBytearray (km_key kek));
      metadata ← lift (LocalKek._metadata handle i purpose (km_version kek));
      plaintext ← custody (ReadBytearray b);
      mret (nonce ++ aes_encrypt key nonce plaintext metadata))
      (_zero b)) (_zero (km_key kek));
    envelope ← lift (local_wrapped_data_key (mkLocalWrappedDataKey (pi_tenant_reference i)
      (pi_proposal_reference i) purpose (km_version kek) wrapped));
    mret (handle, b, envelope)) (λ x, {[x.1.2]}) always ∅.
Proof.
  intros Ht Hp. set (kept (w : bytes) := safe_reference (km_version kek) = true ∧
    _NONCE_BYTES + 16 <= length w).
  apply T_bind with (S := λ _, {[b; km_key kek]} ∖ {[km_key kek]}) (P := kept).
  - apply T_finally with (E' := {[km_key kek]}); [|sub].
    apply T_on_error with (E' := {[b; km_key kek]}); [|sub].
    eapply T_bind; [apply T_validate_kek; sub|]. intros [] Hv.
    eapply T_bind; [apply T_random|]. intros nonce Hn. cbv beta in Hn, Hv. T_steps.
    split; [done|]. rewrite length_app, aes_length. lia.
  - intros w [Hv Hw]. unfold local_wrapped_data_key. cbn [lw_tenant_reference lw_proposal_reference
      lw_kek_version lw_ciphertext]. rewrite Ht, Hp, Hv, (proj2 (Nat.leb_le _ _) Hw).
    apply T_bind with (S := λ _, {[b]}) (P := always); [apply T_ret; [sub|done]|].
    intros e _. by apply T_ret; [sub|].
Qed.

(** [_new_key] leaves the data key to wipe; when it raises, everything is
    wiped, unless the provider of the key-encryption key raised. *)
Definition provider_failed (h : history) : Prop :=
  ∃ p e b content, Event (Custody (KekCurrent p)) (Err e) ∈ h ∧
    Event (Custody (NewBytearray content)) (Ok b) ∈ h ∧ unwiped h ⊆ {[b]}.

Lemma wipes_new_key self (i : ProposalIdentity) purpose h :
  safe_reference (pi_tenant_reference i) = true → safe_reference (pi_proposal_reference i) = true →
  unwiped h = ∅ →
  wp (λ _ _, True) machine (LocalKek._new_key self i purpose) (λ h' r,
    match r with
    | Ok x => unwiped h' ⊆ {[x.1.2]}
    | Err _ => unwiped h' ⊆ ∅ ∨ provider_failed h'
    end) h.
Proof.
  intros Ht Hp Hh. unfold LocalKek._new_key.
  apply wp_bind, wp_call; [done|]. intros r [hex ->].
  apply wp_bind, wp_call; [done|]. intros r (content & -> & _).
  apply wp_bind, wp_call; [done|]. intros r [b ->]. cbn [resp custody_resp] in b.
  match goal with |- wp _ _ _ _ ?h' => set (h3 := h') end.
  assert (H3 : unwiped h3 ⊆ {[b]}).
  { unfold h3. rewrite (unwiped_obtained _ (NewBytearray content) (Ok b) b eq_refl), !unwiped_other by done. rewrite Hh. sub. }
  assert (Hb : Event (Custody (NewBytearray content)) (Ok b) ∈ h3)
    by (unfold h3; apply elem_of_app; right; by left).
  clearbody h3.
  apply wp_bind, wp_call; [done|]. intros [kek|e] _; [cbn [resp custody_resp] in kek|].
  2:{ right. exists (LocalKek._keks self), e, b, content. rewrite unwiped_other by done.
      split_and!; [apply elem_of_app; right; by left|apply elem_of_app; by left|done]. }
  eapply wp_mono; [apply (T_wrap i purpose _ b kek Ht Hp)|].
  - rewrite (unwiped_obtained _ (KekCurrent (LocalKek._keks self)) (Ok kek) (km_key kek) eq_refl).
    sub.
  - intros h' [x|e] _; simpl; [by intros [??]|by left].
Qed.

Lemma T_reconcile {E} `{EqDecision E} L (envelope : E) get failure a b c d x :
  T L get (λ _, L) always L → T L (reconcile_put envelope get failure a b c d x) (λ _, L) always L.
Proof.
  intros Hg. unfold reconcile_put. eapply T_bind; [by apply T_attempt|].
  intros [found|e] _; T_steps; done.
Qed.

Lemma T_store_local L self handle envelope :
  T L (LocalKek._store_key self handle envelope) (λ _, L) always L.
Proof.
  unfold LocalKek._store_key. eapply T_bind; [apply T_attempt; T_part|].
  intros [[]|e] _; [by apply T_ret|]. case_bool_decide; [by apply T_raise|].
  apply T_reconcile. T_part.
Qed.

Lemma T_unwrap self handle envelope :
  T ∅ (LocalKek._unwrap self handle envelope) (λ b, {[b]}) always ∅.
Proof.
  unfold LocalKek._unwrap. eapply T_bind; [apply T_resolve|]. intros [kek|] _; [|by apply T_raise].
  apply T_bind with (S := λ _, ∅) (P := always).
  - apply T_mono with (L := {[km_key kek]}) (S := λ _, {[km_key kek]} ∖ {[km_key kek]}) (P := always) (E := ∅);
      [|sub|intros; split; [sub|done]|done].
    apply T_finally with (E' := {[km_key kek]}); [|sub].
    eapply T_bind; [apply T_validate_kek; sub|]. intros [] _. T_steps.
    destruct (aes_decrypt _ _ _ _); [by apply T_ret|by apply T_raise].
  - intros plaintext _. eapply T_bind; [apply T_new|]. intros b _.
    destruct (negb _); [|by apply T_ret; [sub|]].
    apply T_zero_raise. sub.
Qed.

Lemma T_hmac_local L b handle i version m :
  T L (LocalKek.hmac_digest b handle i version m) (λ _, L) always L.
Proof. unfold LocalKek.hmac_digest. T_steps. done. Qed.

(** What is given a data key wipes it. *)
Lemma T_with_key {A} (b : bytearray) (p : prog A) :
  T {[b]} p (λ _, {[b]}) always {[b]} → T {[b]} (finally p (_zero b)) (λ _, ∅) always ∅.
Proof.
  intros Hp. eapply T_mono; [apply T_finally with (E' := {[b]}); [exact Hp|sub]|done|intros; split; [sub|done]|sub].
Qed.

Lemma T_local_verify self i m x : T ∅ (LocalKek.verify_for self i m x) (λ _, ∅) always ∅.
Proof.
  unfold LocalKek.verify_for. destruct (negb _); [by apply T_ret|].
  eapply T_bind; [T_part|]. intros [envelope|] _; [|by apply T_ret].
  destruct (negb _); [by apply T_ret|].
  eapply T_bind; [apply T_attempt, T_unwrap|]. intros [b|e] _; [|T_steps; done].
  apply T_with_key. eapply T_bind; [apply T_hmac_local|]. intros digest _.
  eapply T_mono; [by apply T_lift|done|by intros|done].
Qed.

Lemma T_local_unprotect self i p : T ∅ (LocalKek.unprotect_for self i p) (λ _, ∅) always ∅.
Proof.
  unfold LocalKek.unprotect_for. destruct (negb _); [by apply T_raise|].
  eapply T_bind; [T_part|]. intros envelope _. eapply T_bind; [by apply T_lift|].
  intros [found encoded] _. eapply T_bind; [apply T_unwrap|]. intros b _. apply T_with_key.
  T_steps. destruct (aes_decrypt _ _ _ _); [by apply T_ret|by apply T_raise].
Qed.

(** With the data key in hand. *)
Lemma T_local_created self i m handle (b : bytearray) envelope :
  T {[b]} (digest ← finally (LocalKek.hmac_digest b handle i (lw_kek_version envelope) m) (_zero b);
    _ ← LocalKek._store_key self handle envelope;
    lift (keyed_commitment LocalKek._ALGORITHM handle (lw_kek_version envelope) digest)) (λ _, ∅) always ∅.
Proof.
  eapply T_bind; [apply T_with_key, T_hmac_local|]. intros digest _.
  eapply T_bind; [apply T_store_local|]. intros [] _.
  eapply T_mono; [by apply T_lift|done|by intros|done].
Qed.

Lemma T_local_protected self i m handle (b : bytearray) envelope :
  T {[b]} (nonce ← custody (TokenBytes _NONCE_BYTES);
    ciphertext ← finally (
      key ← custody (ReadBytearray b);
      metadata ← lift (LocalKek._metadata handle i FOR_PAYLOAD (lw_kek_version envelope));
      mret (nonce ++ aes_encrypt key nonce m metadata)) (_zero b);
    _ ← LocalKek._store_key self handle envelope;
    lift (protected_payload LocalKek._CODEC handle (lw_kek_version envelope) (PyStr (b64encode ciphertext))))
    (λ _, ∅) always ∅.
Proof.
  eapply T_bind; [apply T_random|]. intros nonce _. eapply T_bind; [apply T_with_key; T_steps; done|].
  intros ciphertext _. eapply T_bind; [apply T_store_local|]. intros [] _.
  eapply T_mono; [by apply T_lift|done|by intros|done].
Qed.

Lemma T_destroy_local L self handle i purpose version :
  T L (LocalKek._destroy self handle i purpose version) (λ _, L) always L.
Proof. unfold LocalKek._destroy. T_steps. destruct a; by (apply T_ret || apply T_raise). Qed.

(** ** The KMS adapter *)

Lemma utf8_of_text s : unicode_text s = true → is_text s → ∃ b, utf8 (code_points s) = Ok b.
Proof.
  unfold unicode_text, is_text. induction (code_points s) as [|c l IH]; intros Hs Ht; [by eexists|].
  simpl in Hs. to_prop. assert (Hc := Forall_inv Ht). apply Forall_inv_tail in Ht. cbv beta in Hc. destruct (IH ltac:(done) Ht) as [bs Hbs].
  cbn [utf8]. rewrite Hbs. assert (∃ b, utf8_char c = Ok b) as [b ->]; [|by eexists].
  unfold utf8_char. destruct (c <? 0x80)%N; [by eexists|]. destruct (c <? 0x800)%N; [by eexists|].
  destruct (is_surrogate c); [done|]. destruct (c <? 0x10000)%N; [by eexists|].
  rewrite (proj2 (N.ltb_lt _ _) Hc). by eexists.
Qed.

Lemma key_version_encodes s v :
  kms_key_identifier s = Ok v → is_text s → ∃ version, AwsKms._key_version s = Ok version.
Proof.
  intros Hs Ht. unfold kms_key_identifier in Hs. destruct (_ && _) eqn:E in Hs; [|done]. to_prop.
  destruct (utf8_of_text s) as [b Hb]; [done..|]. unfold AwsKms._key_version. rewrite Hb. by eexists.
Qed.

Lemma T_generate_key self i purpose :
  T ∅ (AwsKms._generate_key self i purpose) (λ x, {[gd_plaintext x.2]})
    (λ x, ∃ version, AwsKms._key_version (gd_resolved_key_id x.2) = Ok version) ∅.
Proof.
  unfold AwsKms._generate_key. eapply T_bind; [T_part|]. intros hex _.
  eapply T_bind; [apply T_generate|]. intros g Hg. cbv beta in Hg.
  eapply T_bind; [T_part|]. intros plaintext _.
  destruct (negb _); [apply T_zero_raise; sub|].
  destruct (kms_key_identifier _) as [v|e] eqn:Hv; [|apply T_zero_raise; sub].
  apply T_ret; [sub|]. by eapply key_version_encodes.
Qed.

Lemma T_store_aws self handle g i purpose :
  T ∅ (AwsKms._store_key self handle g i purpose) (λ _, ∅) always ∅.
Proof.
  unfold AwsKms._store_key. eapply T_bind; [by apply T_lift|]. intros version _.
  eapply T_bind; [by apply T_lift|]. intros envelope _.
  eapply T_bind; [apply T_attempt; T_part|]. intros [[]|e] _; [by apply T_ret|].
  apply T_reconcile. T_part.
Qed.

Lemma T_decrypt_key self handle envelope :
  T ∅ (AwsKms._decrypt_key self handle envelope) (λ b, {[b]}) always ∅.
Proof.
  unfold AwsKms._decrypt_key. eapply T_bind; [apply T_decrypt|]. intros decrypted _.
  apply T_bind with (S := λ b, {[b]}) (P := always).
  - destruct decrypted as [content|b]; [|apply T_ret; [sub|done]].
    eapply T_mono; [apply (T_new ∅)|sub|intros; split; [sub|done]|reflexivity].
  - intros b _. eapply T_bind; [T_part|]. intros content _.
    destruct (negb _); [apply T_zero_raise; sub|by apply T_ret].
Qed.

Lemma T_hmac_aws L b handle i key_id version m :
  T L (AwsKms.hmac_digest b handle i key_id version m) (λ _, L) always L.
Proof. unfold AwsKms.hmac_digest. T_steps. done. Qed.

Lemma T_aws_create self i m : T ∅ (AwsKms.create_for self i m) (λ _, ∅) always ∅.
Proof.
  unfold AwsKms.create_for. eapply T_bind; [apply T_generate_key|]. intros [handle g] [version Hv].
  cbn [fst snd] in Hv |- *. rewrite Hv. eapply T_bind; [apply T_ret with (S := λ _, {[gd_plaintext g]}) (P := always); done|].
  intros v _. eapply T_bind; [apply T_with_key, T_hmac_aws|]. intros digest _.
  eapply T_bind; [by apply T_lift|]. intros c _.
  eapply T_bind; [apply T_store_aws|]. intros [] _. by apply T_ret.
Qed.

Lemma T_aws_protect self i m : T ∅ (AwsKms.protect_for self i m) (λ _, ∅) always ∅.
Proof.
  unfold AwsKms.protect_for. eapply T_bind; [apply T_generate_key|]. intros [handle g] [version Hv].
  cbn [fst snd] in Hv |- *. rewrite Hv. eapply T_bind; [apply T_ret with (S := λ _, {[gd_plaintext g]}) (P := always); done|].
  intros v _. eapply T_bind; [apply T_random|]. intros nonce _.
  eapply T_bind; [apply T_with_key; T_steps; done|]. intros ciphertext _.
  eapply T_bind; [by apply T_lift|]. intros c _.
  eapply T_bind; [apply T_store_aws|]. intros [] _. by apply T_ret.
Qed.

Lemma T_aws_verify self i m x : T ∅ (AwsKms.verify_for self i m x) (λ _, ∅) always ∅.
Proof.
  unfold AwsKms.verify_for. destruct (negb _); [by apply T_ret|].
  eapply T_bind; [T_part|]. intros [envelope|] _; [|by apply T_ret].
  destruct (negb _); [by apply T_ret|].
  eapply T_bind; [apply T_decrypt_key|]. intros b _.
  apply T_with_key. eapply T_bind; [apply T_hmac_aws|]. intros digest _.
  eapply T_mono; [by apply T_lift|done|by intros|done].
Qed.

Lemma T_aws_unprotect self i p : T ∅ (AwsKms.unprotect_for self i p) (λ _, ∅) always ∅.
Proof.
  unfold AwsKms.unprotect_for. destruct (negb _); [by apply T_raise|].
  eapply T_bind; [T_part|]. intros envelope _. eapply T_bind; [by apply T_lift|].
  intros [found encoded] _. eapply T_bind; [apply T_decrypt_key|]. intros b _. apply T_with_key.
  T_steps. destruct (aes_decrypt _ _ _ _); [by apply T_ret|by apply T_raise].
Qed.

Lemma T_destroy_aws L self handle i purpose version :
  T L (AwsKms._destroy self handle i purpose version) (λ _, L) always L.
Proof. unfold AwsKms._destroy. T_steps. destruct a; by (apply T_ret || apply T_raise). Qed.

(** ** Every call *)

(** A call ends with nothing unwiped, or because the provider of the
    key-encryption key raised. *)
Definition wipes {A} (h : history) (r : res A) : Prop :=
  unwiped h = ∅ ∨ provider_failed h ∧ ∃ e, r = Err e.

Lemma wipes_T {A} (p : prog A) :
  T ∅ p (λ _, ∅) always ∅ → wp (λ _ _, True) machine p wipes [].
Proof.
  intros Hp. eapply wp_mono; [by apply Hp|]. intros h [a|e] _; [intros [H _]|intros H]; left; set_solver.
Qed.

(** After [_new_key]. *)
Lemma wipes_new_key_bind {B} self (i : ProposalIdentity) purpose
  (f : pystr * bytearray * LocalWrappedDataKey → prog B) :
  safe_reference (pi_tenant_reference i) = true → safe_reference (pi_proposal_reference i) = true →
  (∀ handle b envelope, T {[b]} (f (handle, b, envelope)) (λ _, ∅) always ∅) →
  wp (λ _ _, True) machine (LocalKek._new_key self i purpose ≫= f) wipes [].
Proof.
  intros Ht Hp Hf. apply wp_bind. eapply wp_mono; [by apply wipes_new_key|].
  intros h [[[handle b] envelope]|e] _ Hh; cbn [fst snd] in Hh.
  - eapply wp_mono; [by apply (Hf handle b envelope h)|].
    intros h' [a|e] _; [intros [H _]|intros H]; left; set_solver.
  - destruct Hh as [Hh|Hh]; [left; set_solver|right; eauto].
Qed.

Lemma custody_wipes k i c :
  safe_reference (pi_tenant_reference i) = true → safe_reference (pi_proposal_reference i) = true →
  wp (λ _ _, True) machine (custody_prog k i c) wipes [].
Proof.
  intros Ht Hp. destruct k as [s|s], c as [m|m x|x|m|p|p]; cbn [custody_prog];
    first [ unfold LocalKek.create_for, LocalKek.protect_for; apply wipes_new_key_bind; [done..|];
            intros; first [apply T_local_created|apply T_local_protected]
          | apply wipes_T ].
  - apply T_local_verify.
  - unfold LocalKek.destroy_commitment_for. destruct (negb _); [by apply T_raise|apply T_destroy_local].
  - apply T_local_unprotect.
  - unfold LocalKek.destroy_payload_for. destruct (negb _); [by apply T_raise|apply T_destroy_local].
  - apply T_aws_create.
  - apply T_aws_verify.
  - unfold AwsKms.destroy_commitment_for. destruct (negb _); [by apply T_raise|apply T_destroy_aws].
  - apply T_aws_protect.
  - apply T_aws_unprotect.
  - unfold AwsKms.destroy_payload_for. destruct (negb _); [by apply T_raise|apply T_destroy_aws].
Qed.

(** C33: whatever the key provider, KMS and the key store answer, when a call of a
    custody adapter is over, returned or raised, every buffer that held a key
    has been overwritten since it was obtained: the key-encryption keys and data
    keys it was given and those it made. The one exception is a data key made
    for a call whose key-encryption key provider raised: nothing was encrypted
    under it. *)
Theorem custody_keys_wiped (k : custodian) (i : ProposalIdentity) (c : custody_call) (es : history)
  (r : res (custody_result c))
  (Hidentity : safe_reference (pi_tenant_reference i) = true ∧ safe_reference (pi_proposal_reference i) = true)
  (Hmachine : Forall (machine []) es)
  (Hruns : runs (custody_prog k i c) es (lift r)) :
  unwiped es = ∅ ∨
  (∃ e, r = Err e) ∧ ∃ p e b content, Event (Custody (KekCurrent p)) (Err e) ∈ es ∧
    Event (Custody (NewBytearray content)) (Ok b) ∈ es ∧ unwiped es ⊆ {[b]}.
Proof.
  destruct Hidentity as [Ht Hp].
  destruct (wp_runs _ _ _ _ es [] _ (custody_wipes k i c Ht Hp) Hruns) as [Hq _].
  { intros es1 e es2 ->. apply (proj1 (List.Forall_forall _ _) Hmachine e), in_elt. }
  assert (wipes es r) as [H|[H He]] by (by destruct r); [by left|by right].
Qed.

End Programs.
