(* ===== verification/CustodyHost.v ===== *)
(** A host of the local custody adapter that keeps what the protocols of its
    ports document, and what a protected payload is worth there: it opens for
    its own proposal, for no other, and for nobody once destroyed. *)

From S2P Require Import Prelude Models Canonical Authority Receipts Registry StripeModels CustodyModels.
From S2P Require Import StoreBase StoredValidity StoreContract Recovery Program Custody LocalKek CustodySafety.

(** * The host *)

Record custody_world := mkCustodyWorld {
  (* the bytearrays of the process *)
  cw_heap : gmap bytearray bytes;
  (* the key-encryption keys, by version, and the active version *)
  cw_keks : gmap pystr bytes;
  cw_current : pystr;
  (* the wrapped keys, by handle *)
  cw_local : gmap pystr LocalWrappedDataKey;
  (* what the system's randomness yields, and how much of it was drawn *)
  cw_random : nat → Z;
  cw_drawn : nat
}.

Definition with_heap (h : gmap bytearray bytes) (w : custody_world) : custody_world :=
  mkCustodyWorld h (cw_keks w) (cw_current w) (cw_local w) (cw_random w) (cw_drawn w).
Definition with_local (l : gmap pystr LocalWrappedDataKey) (w : custody_world) : custody_world :=
  mkCustodyWorld (cw_heap w) (cw_keks w) (cw_current w) l (cw_random w) (cw_drawn w).

Definition draw (n : nat) (w : custody_world) : bytes := cw_random w <$> seq (cw_drawn w) n.
Definition drawn (n : nat) (w : custody_world) : custody_world :=
  mkCustodyWorld (cw_heap w) (cw_keks w) (cw_current w) (cw_local w) (cw_random w) (cw_drawn w + n).

Definition hex_digit (z : Z) : N := Z.to_N (if z <? 10 then 48 + z else 87 + z)%Z.
Definition hex (b : bytes) : pystr := PyStr (flat_map (λ z, [hex_digit (z / 16); hex_digit (z mod 16)]%Z) b).

Definition new_buffer (w : custody_world) : bytearray := fresh (dom (cw_heap w)).
Definition allocated (content : bytes) (w : custody_world) : custody_world :=
  with_heap (<[new_buffer w := content]> (cw_heap w)) w.

Definition custody_host (o : custody_op) (w : custody_world) : res (custody_resp o) * custody_world :=
  match o return res (custody_resp o) * custody_world with
  | TokenBytes n => (Ok (draw n w), drawn n w)
  | TokenHex n => (Ok (hex (draw n w)), drawn n w)
  | NewBytearray content => (Ok (new_buffer w), allocated content w)
  | ReadBytearray b =>
      (match cw_heap w !! b with Some c => Ok c | None => fail (OtherException "NameError") end, w)
  | ZeroBytearray b => (Ok (), with_heap (alter (λ c, replicate (length c) 0%Z) b (cw_heap w)) w)
  | KekCurrent _ =>
      match cw_keks w !! cw_current w with
      | Some key => (Ok (mkLocalKekMaterial (cw_current w) (new_buffer w)), allocated key w)
      | None => (fail (OtherException "RuntimeError"), w)
      end
  | KekResolve _ version =>
      match cw_keks w !! version with
      | Some key => (Ok (Some (mkLocalKekMaterial version (new_buffer w))), allocated key w)
      | None => (Ok None, w)
      end
  | PutLocalKey _ handle envelope =>
      match cw_local w !! handle with
      | None => (Ok (), with_local (<[handle := envelope]> (cw_local w)) w)
      | Some _ => (fail (OtherException "LocalWrappedKeyWriteRejectedError"), w)
      end
  | GetLocalKey _ handle => (Ok (cw_local w !! handle), w)
  | DeleteLocalKey _ handle identity purpose version =>
      match cw_local w !! handle with
      | None => (Ok DO_ALREADY_ABSENT, w)
      | Some envelope =>
          if LocalKek._matches envelope identity purpose version
          then (Ok DO_DELETED, with_local (delete handle (cw_local w)) w) else (Ok DO_MISMATCH, w)
      end
  | _ => (fail (OtherException "RuntimeError"), w)
  end.

Definition host (o : op) (w : custody_world) : res (resp o) * custody_world :=
  match o return res (resp o) * custody_world with
  | Custody o => custody_host o w
  | _ => (fail (OtherException "RuntimeError"), w)
  end.

(** The outcome of a program on this host, and the world after it. *)
Definition exec {A} (p : prog A) (w : custody_world) : res A * custody_world :=
  ((run host p w).1.2, (run host p w).2).

Lemma exec_ret {A} (a : A) w : exec (Ret a) w = (Ok a, w).
Proof. done. Qed.

Lemma exec_lift {A} (r : res A) w : exec (lift r) w = (r, w).
Proof. by destruct r. Qed.

Lemma exec_bind {A B} (p : prog A) (f : A → prog B) w :
  exec (p ≫= f) w = match exec p w with (Ok a, w') => exec (f a) w' | (Err e, w') => (Err e, w') end.
Proof.
  unfold exec. rewrite run_bind. destruct (run host p w) as [[es [a|e]] w']; simpl; [|done].
  by destruct (run host (f a) w') as [[es' r] w''].
Qed.

Lemma exec_custody o w : exec (custody o) w = custody_host o w.
Proof.
  unfold exec, custody, call. cbn [run host]. by destruct (custody_host o w) as [[a|e] w'].
Qed.

Lemma exec_attempt {A} (p : prog A) w : exec (attempt p) w = (Ok (exec p w).1, (exec p w).2).
Proof.
  unfold exec. revert w. induction p as [a|e|o k IH]; intros w; [done..|]. cbn [attempt run].
  destruct (host o w) as [r w']. specialize (IH r w').
  destruct (run host (attempt (k r)) w') as [[es x] w1], (run host (k r) w') as [[es' x'] w2].
  by simpl in *.
Qed.

Lemma exec_zero b w : exec (_zero b) w = (Ok (), (custody_host (ZeroBytearray b) w).2).
Proof. exact (exec_custody (ZeroBytearray b) w). Qed.

Lemma exec_finally {A} (p : prog A) b w :
  exec (finally p (_zero b)) w = ((exec p w).1, (custody_host (ZeroBytearray b) (exec p w).2).2).
Proof.
  unfold finally. rewrite exec_bind, exec_attempt. cbn beta iota.
  rewrite exec_bind, exec_zero. apply exec_lift.
Qed.

Lemma exec_on_error_ok {A} (p : prog A) cleanup w a w' :
  exec p w = (Ok a, w') → exec (on_error p cleanup) w = (Ok a, w').
Proof. intros H. unfold on_error. by rewrite exec_bind, exec_attempt, H. Qed.

(** What no program changes. *)
Lemma custody_stable o w :
  cw_keks (custody_host o w).2 = cw_keks w ∧ cw_current (custody_host o w).2 = cw_current w ∧
  cw_random (custody_host o w).2 = cw_random w.
Proof. destruct o; cbn; repeat case_match; done. Qed.

Lemma exec_stable {A} (p : prog A) w :
  cw_keks (exec p w).2 = cw_keks w ∧ cw_current (exec p w).2 = cw_current w ∧
  cw_random (exec p w).2 = cw_random w.
Proof.
  unfold exec. revert w. induction p as [a|e|o k IH]; intros w; [done..|]. cbn [run].
  destruct (host o w) as [r w'] eqn:E. specialize (IH r w'). destruct (run host (k r) w') as [[es x] w2].
  simpl in *. assert (H : cw_keks w' = cw_keks w ∧ cw_current w' = cw_current w ∧ cw_random w' = cw_random w).
  { replace w' with (host o w).2 by (by rewrite E). destruct o; try done.
    apply custody_stable. }
  destruct H as (<- & <- & <-). exact IH.
Qed.

Lemma exec_keks {A} (p : prog A) w : cw_keks (exec p w).2 = cw_keks w.
Proof. apply exec_stable. Qed.

(** ** Encodings *)

Lemma utf8_ascii l : Forall (λ c, c < 0x80)%N l → utf8 l = Ok (Z.of_N <$> l).
Proof.
  induction 1 as [|c l Hc _ IH]; [done|]. cbn [utf8]. unfold utf8_char.
  rewrite (proj2 (N.ltb_lt _ _) Hc), IH. done.
Qed.

(** A part of the metadata can be encoded. *)
Definition encodable (s : pystr) : Prop :=
  ∃ b, utf8 (code_points s) = Ok b ∧ (Z.of_nat (length b) < 256 ^ 4)%Z.

Lemma metadata_defined prefix parts : Forall encodable parts → ∃ b, metadata_of prefix parts = Ok b.
Proof.
  intros H. assert (∃ l, encode_parts parts = Ok l ∧ Forall (λ b, Z.of_nat (length b) < 256 ^ 4)%Z l)
    as (l & Hl & Hf).
  { induction H as [|s parts (b & Hb & Hn) _ (l & Hl & Hf)]; [by exists []|].
    exists (b :: l). cbn [encode_parts]. rewrite Hb, Hl. split; [done|by constructor]. }
  assert (∃ b, length_prefixed l = Ok b) as [b Hb].
  { clear Hl. induction Hf as [|b l Hn _ [bs Hbs]]; [by eexists|]. cbn [length_prefixed].
    unfold to_bytes_big. change (Z.of_nat 4) with 4%Z. rewrite (proj2 (Z.ltb_lt _ _) Hn), Hbs. by eexists. }
  unfold metadata_of. rewrite Hl. cbn. rewrite Hb. by eexists.
Qed.

(** ** Buffers of the host *)

Lemma new_buffer_fresh w : cw_heap w !! new_buffer w = None.
Proof. apply not_elem_of_dom. exact (is_fresh (dom (cw_heap w))). Qed.

Lemma lookup_new content w : cw_heap (allocated content w) !! new_buffer w = Some content.
Proof. apply lookup_insert_eq. Qed.

Lemma lookup_old content w b c : cw_heap w !! b = Some c → cw_heap (allocated content w) !! b = Some c.
Proof.
  intros Hb. simpl. rewrite lookup_insert_ne; [done|]. intros <-. by rewrite new_buffer_fresh in Hb.
Qed.

Definition zeroed (b : bytearray) (w : custody_world) : custody_world :=
  with_heap (alter (λ c, replicate (length c) 0%Z) b (cw_heap w)) w.

Lemma exec_read b w c : cw_heap w !! b = Some c → exec (custody (ReadBytearray b)) w = (Ok c, w).
Proof. intros Hb. etrans; [apply (exec_custody (ReadBytearray b) w)|]. cbn [custody_host]. by rewrite Hb. Qed.

Lemma exec_random n w : exec (custody (TokenBytes n)) w = (Ok (draw n w), drawn n w).
Proof. exact (exec_custody (TokenBytes n) w). Qed.

Lemma exec_token n w : exec (custody (TokenHex n)) w = (Ok (hex (draw n w)), drawn n w).
Proof. exact (exec_custody (TokenHex n) w). Qed.

Lemma exec_new content w : exec (custody (NewBytearray content)) w = (Ok (new_buffer w), allocated content w).
Proof. exact (exec_custody (NewBytearray content) w). Qed.

Lemma exec_current p w key :
  cw_keks w !! cw_current w = Some key →
  exec (custody (KekCurrent p)) w =
    (Ok (mkLocalKekMaterial (cw_current w) (new_buffer w)), allocated key w).
Proof. intros Hk. etrans; [apply (exec_custody (KekCurrent p) w)|]. cbn [custody_host]. by rewrite Hk. Qed.

Lemma exec_resolve p version w key :
  cw_keks w !! version = Some key →
  exec (custody (KekResolve p version)) w =
    (Ok (Some (mkLocalKekMaterial version (new_buffer w))), allocated key w).
Proof. intros Hk. etrans; [apply (exec_custody (KekResolve p version) w)|]. cbn [custody_host]. by rewrite Hk. Qed.

Lemma exec_get p handle w : exec (custody (GetLocalKey p handle)) w = (Ok (cw_local w !! handle), w).
Proof. exact (exec_custody (GetLocalKey p handle) w). Qed.

Lemma length_draw n w : length (draw n w) = n.
Proof. unfold draw. by rewrite length_fmap, length_seq. Qed.

Lemma exec_bind_ok {A B} (p : prog A) (f : A → prog B) w a w' :
  exec p w = (Ok a, w') → exec (p ≫= f) w = exec (f a) w'.
Proof. intros H. by rewrite exec_bind, H. Qed.

Lemma exec_bind_lift {A B} (r : res A) (f : A → prog B) w a :
  r = Ok a → exec (lift r ≫= f) w = exec (f a) w.
Proof. intros ->. apply exec_bind_ok, exec_lift. Qed.

(** One step of a program whose next outcome is known. *)
Ltac step H := etrans; [eapply exec_bind_ok; exact H|]; cbv beta.

Section Host.
Context `{U : Unicode, C : Cryptography, CL : !CryptographyLaws C}.

Lemma exec_validate_kek kek expected w key :
  safe_reference (km_version kek) = true →
  match expected with Some v => km_version kek = v | None => True end →
  cw_heap w !! km_key kek = Some key → length key = _KEY_BYTES →
  exec (LocalKek._validate_kek kek expected) w = (Ok (), w).
Proof.
  intros Hs He Hk Hl. unfold LocalKek._validate_kek. unfold safe_reference in Hs.
  destruct (SafeReference (km_version kek)) as [v|e]; [|done]. step (exec_lift (Ok v) w).
  replace (match expected with Some v => _ | None => false end) with false.
  2:{ destruct expected as [v'|]; [|done]. by rewrite bool_decide_eq_true_2. }
  step (exec_read _ _ _ Hk). by rewrite Hl.
Qed.

(** What [_new_key] makes on this host. *)
Definition handle_of (w : custody_world) : pystr := ("local-envelope:" +:+ hex (draw 16 w))%py.

Record new_key (i : ProposalIdentity) (purpose : EnvelopePurpose) (w : custody_world) (kek : bytes)
  (b : bytearray) (envelope : LocalWrappedDataKey) (w' : custody_world) : Prop := {
  nk_envelope : ∃ nonce key ad,
    envelope = mkLocalWrappedDataKey (pi_tenant_reference i) (pi_proposal_reference i) purpose
      (cw_current w) (nonce ++ aes_encrypt kek nonce key ad) ∧
    length nonce = _NONCE_BYTES ∧ key = draw _KEY_BYTES (drawn 16 w) ∧
    LocalKek._metadata (handle_of w) i purpose (cw_current w) = Ok ad ∧ cw_heap w' !! b = Some key;
  nk_local : cw_local w' = cw_local w;
  nk_keks : cw_keks w' = cw_keks w;
  nk_current : cw_current w' = cw_current w;
  nk_random : cw_random w' = cw_random w;
  (* a handle, a key and a nonce are drawn *)
  nk_drawn : cw_drawn w' = cw_drawn w + 60
}.

Lemma exec_new_key self i purpose w kek ad :
  cw_keks w !! cw_current w = Some kek → length kek = _KEY_BYTES →
  safe_reference (cw_current w) = true →
  safe_reference (pi_tenant_reference i) = true → safe_reference (pi_proposal_reference i) = true →
  LocalKek._metadata (handle_of w) i purpose (cw_current w) = Ok ad →
  ∃ b envelope w', exec (LocalKek._new_key self i purpose) w = (Ok (handle_of w, b, envelope), w') ∧
    new_key i purpose w kek b envelope w'.
Proof.
  intros Hkek Hlen Hv Ht Hp Had.
  set (w1 := drawn 16 w). set (key := draw _KEY_BYTES w1). set (w2 := drawn _KEY_BYTES w1).
  set (b := new_buffer w2). set (w3 := allocated key w2). set (kb := new_buffer w3).
  set (w4 := allocated kek w3). set (nonce := draw _NONCE_BYTES w4). set (w5 := drawn _NONCE_BYTES w4).
  set (wrapped := nonce ++ aes_encrypt kek nonce key ad).
  assert (Hb3 : cw_heap w3 !! b = Some key) by apply lookup_new.
  assert (Hb4 : cw_heap w4 !! b = Some key) by (by apply lookup_old).
  assert (Hk4 : cw_heap w4 !! kb = Some kek) by apply lookup_new.
  assert (Hne : b ≠ kb) by (intros E; unfold kb in E; rewrite E, new_buffer_fresh in Hb3; done).
  set (material := mkLocalKekMaterial (cw_current w) kb).
  set (envelope := mkLocalWrappedDataKey (pi_tenant_reference i) (pi_proposal_reference i) purpose
    (cw_current w) wrapped).
  assert (He : local_wrapped_data_key envelope = Ok envelope).
  { unfold local_wrapped_data_key. simpl lw_tenant_reference. simpl lw_proposal_reference.
    simpl lw_kek_version. rewrite Ht, Hp, Hv. rewrite (proj2 (Nat.leb_le _ _)); [done|].
    simpl lw_ciphertext. unfold wrapped. rewrite length_app, aes_length. unfold nonce. rewrite length_draw. lia. }
  exists b, envelope, (zeroed kb w5). split.
  - unfold LocalKek._new_key. step (exec_token 16 w). step (exec_random _KEY_BYTES w1).
    step (exec_new key w2). step (exec_current (LocalKek._keks self) w3 kek Hkek).
    etrans; [eapply exec_bind_ok; etrans; [apply exec_finally|]|].
    { erewrite exec_on_error_ok; [reflexivity|].
      step (exec_validate_kek material None w4 kek Hv I Hk4 Hlen). step (exec_random _NONCE_BYTES w4).
      step (exec_read kb w5 kek Hk4). etrans; [apply exec_bind_lift; exact Had|]. cbv beta.
      step (exec_read b w5 key Hb4). apply exec_ret. }
    etrans; [apply exec_bind_lift; exact He|]. reflexivity.
  - split; [|done..|cbn; unfold _KEY_BYTES, _NONCE_BYTES; lia]. exists nonce, key, ad.
    split_and!; [reflexivity|apply length_draw|reflexivity|done|].
    unfold zeroed. cbn [cw_heap with_heap]. by rewrite lookup_alter_ne.
Qed.

(** The wrapped key of an envelope of [_new_key], unwrapped. *)
Lemma exec_unwrap self (i : ProposalIdentity) purpose version handle nonce key ad kek w :
  cw_keks w !! version = Some kek → length kek = _KEY_BYTES → safe_reference version = true →
  length nonce = _NONCE_BYTES → length key = _KEY_BYTES →
  LocalKek._metadata handle i purpose version = Ok ad →
  ∃ b w', exec (LocalKek._unwrap self handle (mkLocalWrappedDataKey (pi_tenant_reference i)
      (pi_proposal_reference i) purpose version (nonce ++ aes_encrypt kek nonce key ad))) w = (Ok b, w') ∧
    cw_heap w' !! b = Some key.
Proof.
  intros Hkek Hlen Hv Hn Hkey Had. set (envelope := mkLocalWrappedDataKey _ _ _ _ _).
  set (kb := new_buffer w). set (w1 := allocated kek w). set (w2 := zeroed kb w1).
  set (material := mkLocalKekMaterial version kb).
  assert (Hk1 : cw_heap w1 !! kb = Some kek) by apply lookup_new.
  exists (new_buffer w2), (allocated key w2). split; [|apply lookup_new].
  unfold LocalKek._unwrap. step (exec_resolve (LocalKek._keks self) version w kek Hkek).
  etrans; [eapply exec_bind_ok; etrans; [apply exec_finally|]|].
  - assert (Hbody : ∀ T, T = (Ok key, w1) → ((T : res bytes * custody_world).1,
      (custody_host (ZeroBytearray kb) T.2).2) = (Ok key, w2)) by (intros T ->; done).
    apply Hbody. step (exec_validate_kek material (Some version) w1 kek Hv eq_refl Hk1 Hlen).
    step (exec_read kb w1 kek Hk1). etrans; [apply exec_bind_lift; destruct i; exact Had|]. cbv beta.
    simpl lw_ciphertext. rewrite take_app_length', drop_app_length' by done. by rewrite aes_round_trip.
  - cbv beta. step (exec_new key w2). rewrite Hkey. reflexivity.
Qed.

Lemma exec_put p handle envelope w :
  cw_local w !! handle = None →
  exec (custody (PutLocalKey p handle envelope)) w =
    (Ok (), with_local (<[handle := envelope]> (cw_local w)) w).
Proof.
  intros H. etrans; [apply (exec_custody (PutLocalKey p handle envelope) w)|]. cbn [custody_host].
  by rewrite H.
Qed.

Lemma exec_store self handle envelope w :
  cw_local w !! handle = None →
  exec (LocalKek._store_key self handle envelope) w =
    (Ok (), with_local (<[handle := envelope]> (cw_local w)) w).
Proof.
  intros H. unfold LocalKek._store_key. rewrite exec_bind, exec_attempt.
  by rewrite (exec_put _ _ envelope _ H).
Qed.

(** A protected payload [p] of [m] for [i], as [protect_for] leaves it. *)
Definition sealed (i : ProposalIdentity) (m : bytes) (p : ProtectedPayload) (kek : bytes)
  (envelope : LocalWrappedDataKey) : Prop :=
  ∃ nonce key ad nonce',
    pp_codec p = LocalKek._CODEC ∧
    envelope = mkLocalWrappedDataKey (pi_tenant_reference i) (pi_proposal_reference i) FOR_PAYLOAD
      (pp_key_version p) (nonce ++ aes_encrypt kek nonce key ad) ∧
    pp_ciphertext p = PyStr (b64encode (nonce' ++ aes_encrypt key nonce' m ad)) ∧
    Forall (λ b, 0 <= b < 256)%Z (nonce' ++ aes_encrypt key nonce' m ad) ∧
    length nonce = _NONCE_BYTES ∧ length nonce' = _NONCE_BYTES ∧ length key = _KEY_BYTES ∧
    length kek = _KEY_BYTES ∧ safe_reference (pp_key_version p) = true ∧
    LocalKek._metadata (pp_key_handle p) i FOR_PAYLOAD (pp_key_version p) = Ok ad.

Lemma sealed_matches i m p kek envelope j :
  sealed i m p kek envelope →
  LocalKek._matches envelope j FOR_PAYLOAD (pp_key_version p) = bool_decide (j = i).
Proof.
  intros (nonce & key & ad & nonce' & _ & -> & _). unfold LocalKek._matches.
  cbn [lw_tenant_reference lw_proposal_reference lw_purpose lw_kek_version].
  destruct i as [t q], j as [t' q']. simpl.
  repeat case_bool_decide; simplify_eq; try done; exfalso; congruence.
Qed.

Lemma sealed_opens self i m p kek envelope w :
  sealed i m p kek envelope → cw_local w !! pp_key_handle p = Some envelope →
  cw_keks w !! pp_key_version p = Some kek →
  (exec (LocalKek.unprotect_for self i p) w).1 = Ok m.
Proof.
  intros Hs Hl Hk. assert (Hm := sealed_matches i m p kek envelope i Hs).
  rewrite bool_decide_eq_true_2 in Hm by done.
  destruct Hs as (nonce & key & ad & nonce' & Hc & He & Hct & Hbytes & Hn & Hn' & Hkey & Hkek & Hv & Had).
  unfold LocalKek.unprotect_for. rewrite Hc, bool_decide_eq_true_2 by done. cbn [negb].
  rewrite (exec_bind_ok _ _ _ _ _ (exec_get _ _ w)). cbv beta.
  rewrite (exec_bind_lift _ _ _ (envelope, nonce' ++ aes_encrypt key nonce' m ad)).
  2:{ unfold LocalKek.protected_envelope. rewrite Hl, Hm. cbn [negb]. rewrite Hct. cbn [code_points].
      rewrite b64_round_trip by done. rewrite length_app, aes_length, Hn'.
      by rewrite (proj2 (Nat.ltb_ge _ _)) by (unfold _NONCE_BYTES; lia). }
  cbv beta iota.
  destruct (exec_unwrap self i FOR_PAYLOAD (pp_key_version p) (pp_key_handle p) nonce key ad kek w)
    as (b & w' & Hu & Hb); [done..|]. rewrite <-He in Hu. rewrite (exec_bind_ok _ _ _ _ _ Hu), exec_finally.
  cbn [fst]. rewrite (exec_bind_ok _ _ _ _ _ (exec_read b w' key Hb)). cbv beta.
  rewrite (exec_bind_lift _ _ _ ad) by (rewrite He; exact Had).
  by rewrite take_app_length', drop_app_length', aes_round_trip.
Qed.

Lemma hex_digit_ascii z : (0 <= z < 16)%Z → (hex_digit z < 0x80)%N.
Proof. unfold hex_digit. destruct (z <? 10)%Z eqn:?; to_prop; lia. Qed.

Lemma handle_encodable w : (∀ n, 0 <= cw_random w n < 256)%Z → encodable (handle_of w).
Proof.
  intros Hr. assert (Ha : Forall (λ c, c < 0x80)%N (code_points (handle_of w))).
  { unfold handle_of. cbn [code_points pystr_app hex]. apply Forall_app. split.
    - apply (bool_decide_unpack _). vm_compute. exact I.
    - unfold draw. generalize (seq (cw_drawn w) 16). intros l.
      induction l as [|n l IH]; cbn [fmap list_fmap flat_map]; [constructor|].
      specialize (Hr n). repeat constructor; [apply hex_digit_ascii; dlia..|exact IH]. }
  exists (Z.of_N <$> code_points (handle_of w)). split; [by apply utf8_ascii|].
  rewrite length_fmap. reflexivity.
Qed.

(** What the host must have for [i]: an active key of 32 bytes, and text. *)
Record custody_ready (w : custody_world) (i : ProposalIdentity) (kek : bytes) : Prop := {
  ready_kek : cw_keks w !! cw_current w = Some kek;
  ready_length : length kek = _KEY_BYTES;
  ready_version : safe_reference (cw_current w) = true ∧ encodable (cw_current w);
  ready_tenant : safe_reference (pi_tenant_reference i) = true ∧ encodable (pi_tenant_reference i);
  ready_proposal : safe_reference (pi_proposal_reference i) = true ∧ encodable (pi_proposal_reference i);
  ready_random : ∀ n, (0 <= cw_random w n < 256)%Z;
  ready_handle : cw_local w !! handle_of w = None
}.

Lemma ready_metadata w i kek purpose :
  custody_ready w i kek → ∃ ad, LocalKek._metadata (handle_of w) i purpose (cw_current w) = Ok ad.
Proof.
  intros [? ? [? ?] [? ?] [? ?] Hr ?]. apply metadata_defined.
  repeat (apply Forall_cons; [|try done]); try done; [by apply handle_encodable|].
  destruct purpose; (eexists; split; reflexivity).
Qed.

(** The draws of a world with the same randomness are bytes. *)
Lemma draw_bytes n w : (∀ k, 0 <= cw_random w k < 256)%Z → Forall (λ b, 0 <= b < 256)%Z (draw n w).
Proof. intros Hr. unfold draw. apply Forall_fmap, Forall_forall. intros k _. apply Hr. Qed.

Lemma exec_protect self i m w kek :
  custody_ready w i kek → Forall (λ b, 0 <= b < 256)%Z m →
  ∃ p envelope w', exec (LocalKek.protect_for self i m) w =
      (if payload_valid p then Ok p else fail ValidationError, w') ∧
    sealed i m p kek envelope ∧ cw_local w' = <[handle_of w := envelope]> (cw_local w) ∧
    pp_key_handle p = handle_of w ∧ pp_key_version p = cw_current w.
Proof.
  intros Hready Hm. destruct (ready_metadata w i kek FOR_PAYLOAD Hready) as [ad Had].
  destruct Hready as [Hkek Hlen [Hv _] [Ht _] [Hp _] Hr Hfree].
  destruct (exec_new_key self i FOR_PAYLOAD w kek ad) as (b & envelope & w1 & Hx & Hn); [done..|].
  destruct Hn as [(nonce & key & ad' & He & Hnonce & Hdraw & Had' & Hb) Hlocal Hkeks Hcurrent Hrandom _].
  assert (ad' = ad) as -> by congruence.
  assert (Hkey : length key = _KEY_BYTES) by (rewrite Hdraw; apply length_draw).
  set (nonce' := draw _NONCE_BYTES w1). set (w2 := drawn _NONCE_BYTES w1). set (w3 := zeroed b w2).
  set (ciphertext := nonce' ++ aes_encrypt key nonce' m ad).
  set (p := mkProtectedPayload LocalKek._CODEC (handle_of w) (cw_current w) (PyStr (b64encode ciphertext))).
  exists p, envelope, (with_local (<[handle_of w := envelope]> (cw_local w3)) w3). split; [|split_and!].
  - unfold LocalKek.protect_for. step Hx. step (exec_random _NONCE_BYTES w1).
    etrans; [eapply exec_bind_ok; etrans; [apply exec_finally|]|].
    { assert (Hbody : ∀ T, T = (Ok ciphertext, w2) → ((T : res bytes * custody_world).1,
        (custody_host (ZeroBytearray b) T.2).2) = (Ok ciphertext, w3)) by (intros T ->; done).
      apply Hbody. step (exec_read b w2 key Hb). etrans; [apply exec_bind_lift; rewrite He; exact Had|].
      reflexivity. }
    cbv beta. assert (Hfree3 : cw_local w3 !! handle_of w = None) by (simpl; by rewrite Hlocal).
    step (exec_store self (handle_of w) envelope w3 Hfree3). rewrite exec_lift. by rewrite He.
  - exists nonce, key, ad, nonce'. split_and!; try done.
    apply Forall_app. split; [apply draw_bytes; by rewrite Hrandom|by apply aes_bytes].
  - simpl. by rewrite Hlocal.
  - done.
  - done.
Qed.

Lemma exec_delete p handle i purpose version w envelope :
  cw_local w !! handle = Some envelope → LocalKek._matches envelope i purpose version = true →
  exec (custody (DeleteLocalKey p handle i purpose version)) w =
    (Ok DO_DELETED, with_local (delete handle (cw_local w)) w).
Proof.
  intros Hl Hm. etrans; [apply (exec_custody (DeleteLocalKey p handle i purpose version) w)|].
  cbn [custody_host]. by rewrite Hl, Hm.
Qed.

Lemma exec_delete_absent p handle i purpose version w :
  cw_local w !! handle = None →
  exec (custody (DeleteLocalKey p handle i purpose version)) w = (Ok DO_ALREADY_ABSENT, w).
Proof.
  intros Hl. etrans; [apply (exec_custody (DeleteLocalKey p handle i purpose version) w)|].
  cbn [custody_host]. by rewrite Hl.
Qed.

Lemma exec_delete_mismatch p handle i purpose version w envelope :
  cw_local w !! handle = Some envelope → LocalKek._matches envelope i purpose version = false →
  exec (custody (DeleteLocalKey p handle i purpose version)) w = (Ok DO_MISMATCH, w).
Proof.
  intros Hl Hm. etrans; [apply (exec_custody (DeleteLocalKey p handle i purpose version) w)|].
  cbn [custody_host]. by rewrite Hl, Hm.
Qed.

(** [_destroy] on this host: of a key of its proposal, of a key of another, and of one
    that is not there. *)
Lemma exec_destroy self handle i purpose version w envelope :
  cw_local w !! handle = Some envelope → LocalKek._matches envelope i purpose version = true →
  exec (LocalKek._destroy self handle i purpose version) w =
    (Ok (), with_local (delete handle (cw_local w)) w).
Proof. intros Hl Hm. unfold LocalKek._destroy. by rewrite (exec_bind_ok _ _ _ _ _ (exec_delete _ _ _ _ _ _ _ Hl Hm)). Qed.

Lemma exec_destroy_mismatch self handle i purpose version w envelope :
  cw_local w !! handle = Some envelope → LocalKek._matches envelope i purpose version = false →
  exec (LocalKek._destroy self handle i purpose version) w =
    (fail (ValueErrorLike "key envelope metadata does not match the protected value"), w).
Proof.
  intros Hl Hm. unfold LocalKek._destroy.
  by rewrite (exec_bind_ok _ _ _ _ _ (exec_delete_mismatch _ _ _ _ _ _ _ Hl Hm)).
Qed.

Lemma exec_destroy_absent self handle i purpose version w :
  cw_local w !! handle = None → exec (LocalKek._destroy self handle i purpose version) w = (Ok (), w).
Proof. intros Hl. unfold LocalKek._destroy. by rewrite (exec_bind_ok _ _ _ _ _ (exec_delete_absent _ _ _ _ _ _ Hl)). Qed.

Lemma destroy_payload_is_destroy self j p w :
  pp_codec p = LocalKek._CODEC →
  exec (LocalKek.destroy_payload_for self j p) w =
  exec (LocalKek._destroy self (pp_key_handle p) j FOR_PAYLOAD (pp_key_version p)) w.
Proof. intros Hc. unfold LocalKek.destroy_payload_for. by rewrite Hc, bool_decide_eq_true_2. Qed.

(** A payload whose key is not there, or is another's, is refused. *)
Lemma unprotect_refused self j p w :
  pp_codec p = LocalKek._CODEC →
  (∀ envelope, cw_local w !! pp_key_handle p = Some envelope →
     LocalKek._matches envelope j FOR_PAYLOAD (pp_key_version p) = false) →
  (exec (LocalKek.unprotect_for self j p) w).1 =
    fail (ValueErrorLike "protected payload metadata does not match its key envelope").
Proof.
  intros Hc Hm. unfold LocalKek.unprotect_for. rewrite Hc, bool_decide_eq_true_2 by done. cbn [negb].
  rewrite (exec_bind_ok _ _ _ _ _ (exec_get _ _ w)), exec_bind, exec_lift. unfold LocalKek.protected_envelope.
  destruct (cw_local w !! pp_key_handle p) as [envelope|]; [|done]. by rewrite (Hm _ eq_refl).
Qed.

Lemma sealed_codec i m p kek envelope : sealed i m p kek envelope → pp_codec p = LocalKek._CODEC.
Proof. by intros (? & ? & ? & ? & ? & _). Qed.

(** C34: the life of a payload protected by the local adapter, on a host that keeps
    what its ports document. [protect_for] gives the protected payload (or
    refuses one that is no valid [ProtectedPayload]); from then on, as long as
    the wrapped key is stored and its version of the key-encryption key is known
    (whatever was rotated, protected or destroyed since), it opens to the payload
    for its proposal and is refused to every other; destroying it succeeds,
    again and again, and afterwards nobody opens it. *)
Theorem protected_payload_life (self : LocalKek.LocalKekEnvelopeProtection) (w : custody_world)
  (i : ProposalIdentity) (m kek : bytes) (Hready : custody_ready w i kek)
  (Hm : Forall (λ b, 0 <= b < 256)%Z m) :
  ∃ p envelope w', exec (LocalKek.protect_for self i m) w =
      (if payload_valid p then Ok p else fail ValidationError, w') ∧
    cw_local w' !! pp_key_handle p = Some envelope ∧ cw_keks w' !! pp_key_version p = Some kek ∧
    (∀ w2, cw_local w2 !! pp_key_handle p = Some envelope → cw_keks w2 !! pp_key_version p = Some kek →
       (exec (LocalKek.unprotect_for self i p) w2).1 = Ok m) ∧
    (∀ w2 j, cw_local w2 !! pp_key_handle p = Some envelope → j ≠ i →
       ∃ message, (exec (LocalKek.unprotect_for self j p) w2).1 = fail (ValueErrorLike message)) ∧
    (∀ w2, cw_local w2 !! pp_key_handle p = Some envelope →
       ∃ w3, exec (LocalKek.destroy_payload_for self i p) w2 = (Ok (), w3) ∧
         cw_local w3 !! pp_key_handle p = None) ∧
    (∀ w2 j, cw_local w2 !! pp_key_handle p = None →
       exec (LocalKek.destroy_payload_for self j p) w2 = (Ok (), w2) ∧
       ∃ message, (exec (LocalKek.unprotect_for self j p) w2).1 = fail (ValueErrorLike message)).
Proof.
  destruct (exec_protect self i m w kek Hready Hm) as (p & envelope & w' & Hx & Hs & Hl & Hh & Hv).
  assert (Hc := sealed_codec _ _ _ _ _ Hs).
  assert (Hk : cw_keks w' !! pp_key_version p = Some kek).
  { assert (E := exec_keks (LocalKek.protect_for self i m) w). rewrite Hx in E. simpl in E. rewrite E, Hv. apply Hready. }
  exists p, envelope, w'. split_and!; [done|by rewrite Hl, Hh, lookup_insert_eq|done| | | |].
  - intros w2 Hl2 Hk2. by eapply sealed_opens.
  - intros w2 j Hl2 Hj. eexists. apply unprotect_refused; [done|]. intros e He. simplify_eq.
    rewrite (sealed_matches _ _ _ _ _ j Hs). by apply bool_decide_eq_false_2.
  - intros w2 Hl2. exists (with_local (delete (pp_key_handle p) (cw_local w2)) w2).
    rewrite (destroy_payload_is_destroy _ _ _ _ Hc). split; [|cbn [cw_local with_local]; apply lookup_delete_eq].
    apply (exec_destroy _ _ _ _ _ _ envelope Hl2).
    rewrite (sealed_matches _ _ _ _ _ i Hs). by apply bool_decide_eq_true_2.
  - intros w2 j Hl2. rewrite (destroy_payload_is_destroy _ _ _ _ Hc). split; [by apply exec_destroy_absent|].
    eexists. apply unprotect_refused; [done|]. intros e He. congruence.
Qed.

End Host.
