(* ===== verification/CustodyScenario.v ===== *)
(** A payload protected on a concrete host: the witnesses of the properties of
    key custody. *)

From S2P Require Import Prelude Models Canonical Authority Receipts Registry StripeModels CustodyModels.
From S2P Require Import StoreBase StoredValidity StoreContract Recovery Program Custody LocalKek CustodySafety.
From S2P Require Import CustodyHost.

#[local] Existing Instance ascii_unicode.

(** A stand-in that keeps the text behind a tag of zeros. *)
#[local] Instance plain_cryptography : Cryptography := {|
  aes_encrypt _ _ data _ := replicate 16 0%Z ++ data;
  aes_decrypt _ _ data _ := Some (drop 16 data);
  hmac_sha256_hexdigest _ _ := "digest"%py;
  sha256_hex _ := "digest"%py
|}.

#[local] Instance plain_laws : CryptographyLaws plain_cryptography.
Proof.
  constructor; [done|done|]. intros key nonce data aad Hd. apply Forall_app. split; [|exact Hd].
  repeat constructor; lia.
Qed.

#[local] Definition adapter : LocalKek.LocalKekEnvelopeProtection :=
  LocalKek.mkLocalKekEnvelopeProtection 1 2.
#[local] Definition identity : ProposalIdentity := mkProposalIdentity "tenant" "proposal:1".
#[local] Definition kek : bytes := replicate 32 7%Z.
#[local] Definition world : custody_world :=
  mkCustodyWorld ∅ {["v1"%py := kek]} "v1" ∅ (λ n, Z.of_nat n mod 256)%Z 0.

Lemma world_ready : custody_ready world identity kek.
Proof.
  split; try (split; [vm_compute; reflexivity|eexists; split; [reflexivity|reflexivity]]);
    try (vm_compute; reflexivity).
  intros n. apply Z.mod_pos_bound. done.
Qed.

Lemma protected_payload_life_witness : ∃ p w',
  exec (LocalKek.protect_for adapter identity [1; 2; 3]%Z) world = (Ok p, w') ∧
  (exec (LocalKek.unprotect_for adapter identity p) w').1 = Ok [1; 2; 3]%Z.
Proof.
  destruct (protected_payload_life adapter world identity [1; 2; 3]%Z kek world_ready)
    as (p & envelope & w' & Hx & Hl & Hk & Ho & _).
  { repeat constructor; lia. }
  exists p, w'. split; [|exact (Ho w' Hl Hk)].
  assert (E : match (exec (LocalKek.protect_for adapter identity [1; 2; 3]%Z) world).1 with
    | Ok _ => true | Err _ => false end = true) by (vm_compute; reflexivity).
  rewrite Hx in E |- *. destruct (payload_valid p); [reflexivity|discriminate E].
Defined.

#[local] Definition protection : history * res ProtectedPayload * custody_world :=
  run host (LocalKek.protect_for adapter identity [1; 2; 3]%Z) world.

Lemma custody_keys_wiped_witness :
  length protection.1.1 = 13 ∧ match protection.1.2 with Ok _ => unwiped protection.1.1 = ∅ | Err _ => False end.
Proof.
  split; [vm_compute; reflexivity|].
  assert (H := custody_keys_wiped (Local adapter) identity (ProtectPayload [1; 2; 3]%Z) protection.1.1
    protection.1.2).
  destruct protection.1.2 as [p|e] eqn:E; [|vm_compute in E; discriminate E].
  destruct H as [H|[[e He] _]]; [split; vm_compute; reflexivity| | |exact H|discriminate He].
  - unfold protection. set (es := _.1.1). vm_compute in es. subst es.
    repeat (constructor; [first [exact I|reflexivity|eexists; split; reflexivity|eexists; reflexivity]|]).
    constructor.
  - rewrite <-E. apply run_runs.
Defined.
