(* ===== verification/StripeOperation.v ===== *)
(** The admission mechanics the Stripe action groups share
    ([integrations/stripe/_operation.py]): [_Workflow], as an interface that a
    group implements and the methods written against it. *)

From S2P Require Import Prelude Models Canonical Authority Receipts Registry StripeModels StoreBase.
From S2P Require Import StoreContract Recovery Program.

(** A prepared action of a group: the snapshot, the dump of the preview, the
    effect. *)
Record StripePrepared (g : StripeHostActionGroup) := mkStripePrepared {
  sp_private_snapshot : snapshot_of g;
  sp_preview : PyModel;
  sp_effect : pystr
}.
Arguments mkStripePrepared {g} sp_private_snapshot sp_preview sp_effect.
Arguments sp_private_snapshot {g} s.
Arguments sp_preview {g} s.
Arguments sp_effect {g} s.

Definition is_boundary_error (e : exn) : bool :=
  bool_decide (exn_class e = OtherException "StripeBoundaryError").

Definition boundary_error : exn_kind := OtherException "StripeBoundaryError".

(** [try: await p ... except StripeBoundaryError: ...]. *)
Definition catch_boundary {A} (p : prog A) : prog (option A) :=
  r ← attempt p;
  match r with
  | Ok a => mret (Some a)
  | Err e => if is_boundary_error e then mret None else Raise e
  end.

Definition repository (g : StripeHostActionGroup) (o : repository_op (snapshot_of g))
  : prog (repository_resp o) := call (Stripe (Repository g o)).

Definition execution (status : ExecutionStatus) (reason_code : pystr) : prog ExecutionResult :=
  mret (mkExecutionResult status None [] None (Some reason_code)).

Definition accepted (result : option PyModel) (correlation : pystr) : prog ExecutionResult :=
  mret (mkExecutionResult EX_ACCEPTED result [] (Some (mkExternalReference "stripe" correlation)) None).

Definition verification (status : VerificationStatus) (reason_code : pystr) : prog VerificationResult :=
  mret (mkVerificationResult status None [] None (Some reason_code) false false).

Definition verified (status : VerificationStatus) (result : PyModel) (correlation : pystr)
  : prog VerificationResult :=
  mret (mkVerificationResult status (Some result) []
          (Some (mkExternalReference "stripe" correlation)) None false false).

(** The earliest of a record's deadlines. *)
Definition submission_deadline (record : StoredProposal) (next_verification_at : datetime) : datetime :=
  foldr Z.min (Z.min (sp_expires_at record) next_verification_at)
    (ae_expires_at <$> sp_authority_evidence record).

(** The admission a record carries: [None] when it cannot be used. *)
Definition admission (record : option StoredProposal) : option datetime :=
  match record with
  | Some r =>
      match sp_next_verification_at r with
      | Some at_ =>
          if bool_decide (sp_authority_evidence r = []) then None
          else Some (submission_deadline r at_)
      | None => None
      end
  | None => None
  end.

Definition reservation_status (r : StripeReservationStatus) : ExecutionStatus :=
  match r with
  | RS_ACQUIRED => EX_ACCEPTED (* not looked up *)
  | RS_ALREADY_SUBMITTED => EX_FAILED_UNKNOWN
  | RS_UNAVAILABLE => EX_FAILED_KNOWN
  | RS_STALE => EX_STALE_NO_EFFECT
  end.

Definition reservation_value (r : StripeReservationStatus) : pystr :=
  match r with
  | RS_ACQUIRED => "acquired"
  | RS_ALREADY_SUBMITTED => "already_submitted"
  | RS_UNAVAILABLE => "unavailable"
  | RS_STALE => "stale"
  end.

(** A status that says nothing was submitted. *)
Definition not_submitted (s : ExecutionStatus) : bool :=
  bool_decide (s ∈ [EX_FAILED_KNOWN; EX_STALE_NO_EFFECT]).

(** The abstract methods of [_Workflow]. *)
Class Workflow (g : StripeHostActionGroup) (CommandT : Type) := {
  _prepare : CommandT → PreparationContext → prog (StripePrepared g);
  _current : snapshot_of g → prog bool;
  _submit : snapshot_of g → datetime → prog ExecutionResult;
  _verify : snapshot_of g → prog VerificationResult
}.

Section Workflow.
Context `{U : Unicode, D : PyDump} (g : StripeHostActionGroup) {CommandT : Type}.
Context `{W : !Workflow g CommandT} (authorization : port).

Definition workflow_prepare (command : CommandT) (context : PreparationContext)
  : prog (StripePrepared g) :=
  prepared ← _prepare command context;
  _ ← repository g (Remember (sp_private_snapshot prepared)
                      (rp_reference (pc_requesting_principal context)));
  mret prepared.

(** The snapshot belongs to the tenant and the effect of the context. *)
Definition bound_to_context (snapshot : snapshot_of g) (context : ExecutionContext) : res bool :=
  if bool_decide (tenant_of g snapshot = xc_tenant_reference context) then
    effect ← effect_of g snapshot; Ok (bool_decide (effect = xc_semantic_effect_reference context))
  else Ok false.

(** [resolve]: the precondition, and whether the snapshot drifted. *)
Definition workflow_resolve (snapshot : snapshot_of g) (context : ExecutionContext)
  : prog (pystr * bool) :=
  bound ← lift (bound_to_context snapshot context);
  current ← (if (bound : bool) then _current snapshot else mret false);
  effect ← lift (effect_of g snapshot);
  mret (effect, negb current).

Definition allowed (snapshot : snapshot_of g) (context : ExecutionContext) : prog bool :=
  r ← call (CanExecute authorization (model_of g snapshot) context); mret (az_allowed r).

(** [execute] after the reservation: the host state and the authority again,
    then the deadline, then the submission. *)
Definition workflow_dispatch (snapshot : snapshot_of g) (context : ExecutionContext)
  (deadline : datetime) : prog ExecutionResult :=
  permitted ← allowed snapshot context;
  if negb permitted then execution EX_FAILED_KNOWN "stripe_authority_revoked" else
  current ← _current snapshot;
  if negb current then execution EX_STALE_NO_EFFECT "stripe_state_changed" else
  permitted ← allowed snapshot context;
  if negb permitted then execution EX_FAILED_KNOWN "stripe_authority_revoked" else
  now ← call ClockNow;
  if (deadline <=? now)%Z then execution EX_FAILED_KNOWN "stripe_submission_deadline_expired" else
  _submit snapshot deadline.

(** [execute] from the stored record on: its deadline, the reservation, the
    dispatch, and the note of a known no-submission. *)
Definition execute_stored (snapshot : snapshot_of g) (context : ExecutionContext)
  (effect unavailable refusal : pystr) (dispatch : datetime → prog ExecutionResult)
  : prog ExecutionResult :=
  record ← call (Store (Get (xc_tenant_reference context) (xc_proposal_reference context)));
  match admission record with
  | None => execution EX_FAILED_KNOWN unavailable
  | Some deadline =>
      reservation ← repository g (Reserve snapshot deadline);
      match (reservation : StripeReservationStatus) with
      | RS_ACQUIRED =>
          result ← dispatch deadline;
          if not_submitted (xr_status result) then
            _ ← repository g (RecordNoSubmission (xc_tenant_reference context) effect);
            mret result
          else mret result
      | refused => execution (reservation_status refused) (refusal +:+ reservation_value refused)%py
      end
  end.

Definition workflow_execute (snapshot : snapshot_of g) (context : ExecutionContext)
  (execution_precondition : pystr) : prog ExecutionResult :=
  effect ← lift (effect_of g snapshot);
  ready ← (if negb (bool_decide (execution_precondition = effect)) then mret false else
             resolved ← workflow_resolve snapshot context;
             if (resolved.2 : bool) then mret false else allowed snapshot context);
  if negb ready then execution EX_STALE_NO_EFFECT "stripe_precondition_changed" else
  execute_stored snapshot context effect "stripe_admission_unavailable" "stripe_reservation_"
    (workflow_dispatch snapshot context).

Definition workflow_observe (context : ExecutionContext) : prog VerificationResult :=
  snapshot ← repository g (Load (xc_tenant_reference context) (xc_semantic_effect_reference context));
  bound ← lift (bound_to_context snapshot context);
  if negb bound then
    verification VS_TARGET_UNAVAILABLE "stripe_intent_mismatch"
  else _verify snapshot.

Definition workflow_verify (context : ExecutionContext) : prog VerificationResult :=
  snapshot ← repository g (Load (xc_tenant_reference context) (xc_semantic_effect_reference context));
  bound ← lift (bound_to_context snapshot context);
  if negb bound then
    verification VS_TARGET_UNAVAILABLE "stripe_intent_mismatch"
  else
    result ← _verify snapshot;
    match vr_result result with
    | Some outcome =>
        effect ← lift (effect_of g snapshot);
        _ ← repository g (RecordOutcome (xc_tenant_reference context) effect outcome);
        mret result
    | None => mret result
    end.

Definition authorize_erasure (proposal_reference : pystr) (context : ReadContext) : prog bool :=
  mret false.

End Workflow.
