(* ===== verification/StripeRefunds.v ===== *)
(** Governed Stripe refunds: [StripeRefundConnector]
    ([integrations/stripe/gateway.py]) and [_RefundWorkflow]
    ([integrations/stripe/actions.py]). *)

From S2P Require Import Prelude Models Canonical Authority Receipts Registry StripeModels StoreBase.
From S2P Require Import StoreContract Recovery Program StripeOperation.

Definition gateway (o : refund_op) : prog (refund_resp o) := call (Stripe (Refunds o)).

Record StripeRefundConnector := mkStripeRefundConnector { max_lookup_pages : nat }.

(** [StripeRefundConnector.__init__]. *)
Definition connector_init (pages : Z) : res StripeRefundConnector :=
  if (pages <? 1)%Z then fail (ValueErrorLike "max_lookup_pages must be positive")
  else Ok (mkStripeRefundConnector (Z.to_nat pages)).

Section Refunds.
Context `{U : Unicode, D : PyDump}.

(** * The connector *)

Definition expired (not_after : option datetime) : prog bool :=
  match not_after with
  | None => mret false
  | Some deadline => now ← call ClockNow; mret (deadline <=? now)%Z
  end.

Definition submit (intent : RefundIntent) (not_after : option datetime) : prog ExecutionResult :=
  charge ← catch_boundary (gateway (Charge intent));
  match (charge : option ChargeObservation) with
  | None => execution EX_FAILED_KNOWN "stripe_preflight_unavailable"
  | Some charge =>
      if negb (charge_permits charge intent) then execution EX_STALE_NO_EFFECT "stripe_charge_changed"
      else
        late ← expired not_after;
        if (late : bool) then execution EX_FAILED_KNOWN "stripe_submission_deadline_expired" else
        observed ← catch_boundary (gateway (CreateRefund intent));
        match (observed : option RefundObservation) with
        | None => execution EX_FAILED_UNKNOWN "stripe_submission_unknown"
        | Some observed =>
            matches ← lift (refund_matches observed intent);
            if negb matches then execution EX_FAILED_UNKNOWN "stripe_binding_mismatch" else
            correlation ← lift (refund_correlation intent);
            accepted (Some (refund_outcome_model
                              (mkRefundOutcome (ri_amount intent) (ro_status observed)))) correlation
        end
  end.

(** The correlated refund among those of a page: a second one, or one that does
    not match, is inconsistent. *)
Fixpoint correlated (intent : RefundIntent) (candidates : list RefundObservation)
  (found : option RefundObservation) : res (option RefundObservation) :=
  match candidates with
  | [] => Ok found
  | candidate :: candidates' =>
      correlation ← refund_correlation intent;
      if negb (bool_decide (ro_correlation candidate = correlation)) then
        correlated intent candidates' found
      else
        matches ← (if bool_decide (is_Some found) then Ok false else refund_matches candidate intent);
        if negb matches then fail boundary_error else correlated intent candidates' (Some candidate)
  end.

(** The loop of [observe] over at most [pages] more pages. *)
Fixpoint observe_pages (pages : nat) (intent : RefundIntent) (after : option pystr)
  (found : option RefundObservation) : prog (option RefundObservation) :=
  match pages with
  | O => raise boundary_error
  | S pages' =>
      page ← gateway (ListRefunds intent after);
      found ← lift (correlated intent (rg_refunds page) found);
      if negb (rg_has_more page) then
        match found with
        | None => mret None
        | Some m =>
            observed ← gateway (RetrieveRefund intent (ro_refund_id m));
            matches ← lift (refund_matches observed intent);
            if negb matches || negb (bool_decide (ro_refund_id observed = ro_refund_id m)) then
              raise boundary_error
            else mret (Some observed)
        end
      else
        match list.last (rg_refunds page) with
        | None => raise boundary_error
        | Some l =>
            if bool_decide (Some (ro_refund_id l) = after) then raise boundary_error
            else observe_pages pages' intent (Some (ro_refund_id l)) found
        end
  end.

Definition observe (self : StripeRefundConnector) (intent : RefundIntent)
  : prog (option RefundObservation) := observe_pages (max_lookup_pages self) intent None None.

Definition charge_bound (charge : ChargeObservation) (intent : RefundIntent) : bool :=
  bool_decide (ch_charge_id charge = ri_charge_id intent)
  && bool_decide (ch_currency charge = lower_code (mo_currency (ri_amount intent)))
  && Bool.eqb (ch_livemode charge) (sa_livemode (ri_account intent)).

Definition verify (self : StripeRefundConnector) (intent : RefundIntent) : prog VerificationResult :=
  found ← catch_boundary (
    charge ← gateway (Charge intent);
    if negb (charge_bound charge intent) then raise boundary_error else observe self intent);
  match (found : option (option RefundObservation)) with
  | None => verification VS_TARGET_UNAVAILABLE "stripe_lookup_unavailable"
  | Some None => verification VS_PROVISIONAL_ABSENCE "stripe_refund_not_observed"
  | Some (Some observed) =>
      if bool_decide (ro_status observed ∈ [RF_pending; RF_requires_action]) then
        verification VS_PROVISIONAL_ABSENCE "stripe_refund_pending"
      else
        correlation ← lift (refund_correlation intent);
        verified (if bool_decide (ro_status observed = RF_succeeded) then VS_VERIFIED_COMPLETION
                  else VS_VERIFIED_TERMINAL_FAILURE)
          (refund_outcome_model (mkRefundOutcome (ri_amount intent) (ro_status observed))) correlation
  end.

(** * The workflow *)

Record _RefundWorkflow := mkRefundWorkflow {
  rw_connector : StripeRefundConnector;
  rw_authorization : port;
  rw_policy : RefundPolicy
}.

Definition preparation_refused {A} : prog A := raise (OtherException "RefundPreparationError").

Definition refund_prepare (self : _RefundWorkflow) (command : RefundRequest)
  (context : PreparationContext) : prog (StripePrepared REFUNDS) :=
  payment ← gateway (Payment (pc_tenant_reference context) (rq_payment_reference command));
  if negb (bool_decide (py_tenant_reference payment = pc_tenant_reference context))
     || negb (bool_decide (py_payment_reference payment = rq_payment_reference command))
     || negb (bool_decide (py_currency payment = mo_currency (rq_amount command)))
     || negb (refund_policy_permits (rw_policy self) (rq_amount command)
                (sa_livemode (py_account payment))) then preparation_refused
  else
    intent ← lift (model_validated (exact_minor_units (mkRefundIntent
      (pc_tenant_reference context) (rq_intent_reference command) (py_account payment)
      (py_charge_id payment) (rq_amount command) (py_currency_exponent payment))));
    charge ← gateway (Charge intent);
    if negb (charge_permits charge intent) then preparation_refused
    else
      fingerprint ← lift (refund_policy_fingerprint (rw_policy self));
      let snapshot := mkRefundSnapshot intent (py_payment_reference payment) (py_version payment)
                        (ch_refunded_minor charge) fingerprint in
      _ ← repository REFUNDS (Remember snapshot (rp_reference (pc_requesting_principal context)));
      effect ← lift (refund_effect_reference snapshot);
      mret (mkStripePrepared (g := REFUNDS) snapshot
              (refund_preview_model (mkRefundPreview (py_payment_reference payment)
                                       (rq_amount command))) effect).

Definition _matches_payment (snapshot : RefundSnapshot) (payment : RefundPayment) : bool :=
  bool_decide (py_tenant_reference payment = ri_tenant_reference (sn_intent snapshot))
  && bool_decide (py_payment_reference payment = sn_payment_reference snapshot)
  && (py_version payment =? sn_payment_version snapshot)%Z
  && bool_decide (py_charge_id payment = ri_charge_id (sn_intent snapshot))
  && bool_decide (py_account payment = ri_account (sn_intent snapshot))
  && bool_decide (py_currency payment = mo_currency (ri_amount (sn_intent snapshot)))
  && (py_currency_exponent payment =? ri_currency_exponent (sn_intent snapshot))%Z.

(** The part of [resolve] that asks nobody: has the binding or the policy
    moved? *)
Definition policy_drifted (self : _RefundWorkflow) (snapshot : RefundSnapshot)
  (context : ExecutionContext) : res bool :=
  bound ← bound_to_context REFUNDS snapshot context;
  if negb bound then Ok true else
  fingerprint ← refund_policy_fingerprint (rw_policy self);
  Ok (negb (bool_decide (sn_policy_fingerprint snapshot = fingerprint))
      || negb (refund_policy_permits (rw_policy self) (ri_amount (sn_intent snapshot))
                 (sa_livemode (ri_account (sn_intent snapshot))))).

(** [resolve]: the precondition, and whether the snapshot drifted. *)
Definition refund_resolve (self : _RefundWorkflow) (snapshot : RefundSnapshot)
  (context : ExecutionContext) : prog (pystr * bool) :=
  drifted ← lift (policy_drifted self snapshot context);
  drifted ← (if (drifted : bool) then mret true else
    payment ← gateway (Payment (xc_tenant_reference context) (sn_payment_reference snapshot));
    mret (negb (_matches_payment snapshot payment)));
  drifted ← (if (drifted : bool) then mret true else
    charge ← gateway (Charge (sn_intent snapshot));
    mret (negb (charge_permits charge (sn_intent snapshot))
          || negb (ch_refunded_minor charge =? sn_refunded_minor snapshot)%Z));
  effect ← lift (refund_effect_reference snapshot);
  mret (effect, drifted).

(** [execute] after the reservation. *)
Definition refund_dispatch (self : _RefundWorkflow) (snapshot : RefundSnapshot)
  (context : ExecutionContext) (deadline : datetime) : prog ExecutionResult :=
  permitted ← allowed REFUNDS (rw_authorization self) snapshot context;
  if negb permitted then execution EX_FAILED_KNOWN "refund_authority_revoked"
  else submit (sn_intent snapshot) (Some deadline).

Definition refund_execute (self : _RefundWorkflow) (snapshot : RefundSnapshot)
  (context : ExecutionContext) (execution_precondition : pystr) : prog ExecutionResult :=
  resolved ← refund_resolve self snapshot context;
  permitted ← allowed REFUNDS (rw_authorization self) snapshot context;
  effect ← lift (refund_effect_reference snapshot);
  if resolved.2 || negb (bool_decide (execution_precondition = effect)) || negb permitted then
    execution EX_STALE_NO_EFFECT "refund_precondition_changed" else
  execute_stored REFUNDS snapshot context effect "refund_admission_unavailable" "refund_reservation_"
    (refund_dispatch self snapshot context).

Definition refund_observe (self : _RefundWorkflow) (context : ExecutionContext)
  : prog VerificationResult :=
  snapshot ← repository REFUNDS
               (Load (xc_tenant_reference context) (xc_semantic_effect_reference context));
  bound ← lift (bound_to_context REFUNDS snapshot context);
  if negb bound then verification VS_TARGET_UNAVAILABLE "refund_intent_mismatch"
  else verify (rw_connector self) (sn_intent snapshot).

Definition refund_verify (self : _RefundWorkflow) (context : ExecutionContext)
  : prog VerificationResult :=
  result ← refund_observe self context;
  match vr_result result with
  | Some outcome =>
      _ ← repository REFUNDS (RecordOutcome (xc_tenant_reference context)
                                (xc_semantic_effect_reference context) outcome);
      mret result
  | None => mret result
  end.

End Refunds.
