(* ===== verification/StripeBilling.v ===== *)
(** Subscription cancellations and credit notes
    ([integrations/stripe/subscriptions.py], [credit_notes.py]) as
    implementations of the [Workflow] interface. *)

From S2P Require Import Prelude Models Canonical Authority Receipts Registry StripeModels StoreBase.
From S2P Require Import StoreContract Recovery Program StripeOperation.

Definition preparation_error {A} : prog A := raise (OtherException "StripePreparationError").

Section Subscriptions.
Context `{U : Unicode, D : PyDump}.

Definition subscription_gateway (o : subscription_op) : prog (subscription_resp o) :=
  call (Stripe (Subscriptions o)).

Definition subscription_prepare (policy : SubscriptionCancellationPolicy)
  (command : SubscriptionCancellationRequest) (context : PreparationContext)
  : prog (StripePrepared SUBSCRIPTIONS) :=
  binding ← subscription_gateway
              (Subscription (pc_tenant_reference context) (cr_subscription_reference command));
  if negb (bool_decide (sb_tenant_reference binding = pc_tenant_reference context))
     || negb (bool_decide (sb_subscription_reference binding = cr_subscription_reference command))
     || negb (cancellation_policy_permits policy (cr_operation command)
                (sa_livemode (sb_account binding))) then preparation_error
  else
    observed ← subscription_gateway (RetrieveSubscription binding);
    if negb (subscription_bound_to observed binding)
       || negb (subscription_permits observed (cr_operation command) (pc_prepared_at context))
    then preparation_error
    else
      fingerprint ← lift (cancellation_policy_fingerprint policy);
      snapshot ← lift (model_validated (cancellation_snapshot_validated
        (mkSubscriptionCancellationSnapshot (pc_tenant_reference context)
           (cr_intent_reference command) fingerprint binding (cr_operation command) observed)));
      effect ← lift (cancellation_effect_reference snapshot);
      mret (mkStripePrepared (g := SUBSCRIPTIONS) snapshot
        (cancellation_preview_model (mkSubscriptionCancellationPreview
           (cr_subscription_reference command) (cr_operation command) (so_period_end observed)
           (if bool_decide (cr_operation command = SCHEDULE) then Some (so_period_end observed)
            else None))) effect).

Definition subscription_current (policy : SubscriptionCancellationPolicy)
  (snapshot : SubscriptionCancellationSnapshot) : prog bool :=
  if negb (bool_decide (sb_tenant_reference (cs_binding snapshot) = cs_tenant_reference snapshot))
  then mret false else
  fingerprint ← lift (cancellation_policy_fingerprint policy);
  if negb (bool_decide (cs_policy_fingerprint snapshot = fingerprint))
     || negb (cancellation_policy_permits policy (cs_operation snapshot)
                (sa_livemode (sb_account (cs_binding snapshot)))) then mret false else
  binding ← subscription_gateway (Subscription (cs_tenant_reference snapshot)
              (sb_subscription_reference (cs_binding snapshot)));
  if negb (bool_decide (binding = cs_binding snapshot)) then mret false else
  observed ← subscription_gateway (RetrieveSubscription binding);
  if bool_decide (observed = cs_observed snapshot) && subscription_bound_to observed binding then
    now ← call ClockNow; mret (subscription_permits observed (cs_operation snapshot) now)
  else mret false.

Definition subscription_submit (snapshot : SubscriptionCancellationSnapshot) (not_after : datetime)
  : prog ExecutionResult :=
  now ← call ClockNow;
  if (Z.min not_after (so_period_end (cs_observed snapshot)) <=? now)%Z then
    execution EX_STALE_NO_EFFECT "stripe_cancellation_deadline_expired" else
  observed ← catch_boundary (subscription_gateway (UpdateSubscription snapshot));
  match (observed : option SubscriptionObservation) with
  | None => execution EX_FAILED_UNKNOWN "stripe_subscription_submission_unknown"
  | Some observed =>
      matches ← lift (matches_result snapshot observed);
      if negb matches then execution EX_FAILED_UNKNOWN "stripe_subscription_binding_mismatch" else
      correlation ← lift (cancellation_correlation snapshot);
      accepted None correlation
  end.

Definition subscription_outcome (snapshot : SubscriptionCancellationSnapshot)
  : SubscriptionCancellationOutcome :=
  let schedule := bool_decide (cs_operation snapshot = SCHEDULE) in
  mkSubscriptionCancellationOutcome (sb_subscription_reference (cs_binding snapshot))
    (if schedule then scheduled else withdrawn)
    (if schedule then Some (so_period_end (cs_observed snapshot)) else None).

Definition subscription_verify (snapshot : SubscriptionCancellationSnapshot) : prog VerificationResult :=
  observed ← catch_boundary (subscription_gateway (RetrieveSubscription (cs_binding snapshot)));
  match (observed : option SubscriptionObservation) with
  | None => verification VS_TARGET_UNAVAILABLE "stripe_subscription_lookup_unavailable"
  | Some observed =>
      matches ← lift (matches_result snapshot observed);
      if negb matches then verification VS_PROVISIONAL_ABSENCE "stripe_cancellation_not_proven" else
      correlation ← lift (cancellation_correlation snapshot);
      verified VS_VERIFIED_COMPLETION (cancellation_outcome_model (subscription_outcome snapshot))
        correlation
  end.

#[local] Instance subscription_workflow (policy : SubscriptionCancellationPolicy) :
  Workflow SUBSCRIPTIONS SubscriptionCancellationRequest := {|
  _prepare := subscription_prepare policy;
  _current := subscription_current policy;
  _submit := subscription_submit;
  _verify := subscription_verify
|}.

End Subscriptions.

Section CreditNotes.
Context `{U : Unicode, D : PyDump}.

Definition credit_gateway (o : credit_note_op) : prog (credit_note_resp o) :=
  call (Stripe (CreditNotes o)).

Definition _minor_units (amount : Money) (exponent : Z) : prog Z :=
  let units := scaleb (mo_amount amount) exponent in
  if negb (is_finite units) || negb (dec_ltb dec_zero units && dec_leb units (dec_int 99999999))
     || negb (is_integral units) then preparation_error
  else mret (int_of units).

(** The lines of a draft: each request's line with its provider identifier. *)
Fixpoint draft_lines (mapping : gmap pystr pystr) (exponent : Z) (lines : list CreditNoteLineRequest)
  : prog (list CreditNoteLine) :=
  match lines with
  | [] => mret []
  | line :: lines' =>
      match mapping !! lr_line_reference line with
      | None => raise (KeyErrorLike "KeyError")
      | Some identifier =>
          amount ← _minor_units (lr_amount line) exponent;
          rest ← draft_lines mapping exponent lines';
          mret (mkCreditNoteLine identifier amount :: rest)
      end
  end.

Definition by_identifier (a b : CreditNoteLine) : bool :=
  points_leb (code_points (nl_invoice_line_id a)) (code_points (nl_invoice_line_id b)).

(** [sorted], which is stable. *)
Fixpoint insert_line (x : CreditNoteLine) (l : list CreditNoteLine) : list CreditNoteLine :=
  match l with
  | [] => [x]
  | y :: l' => if by_identifier x y then x :: l else y :: insert_line x l'
  end.

Definition sorted_lines (l : list CreditNoteLine) : list CreditNoteLine := foldr insert_line [] l.

Definition line_mapping (binding : CreditNoteInvoice) : gmap pystr pystr :=
  list_to_map (reverse ((λ l, (lb_line_reference l, lb_invoice_line_id l)) <$> iv_lines binding)).

Definition credit_prepare (policy : CreditNotePolicy) (command : CreditNoteRequest)
  (context : PreparationContext) : prog (StripePrepared CREDIT_NOTES) :=
  binding ← credit_gateway (HostInvoice (pc_tenant_reference context) (nr_invoice_reference command));
  if negb (bool_decide (iv_tenant_reference binding = pc_tenant_reference context))
     || negb (bool_decide (iv_invoice_reference binding = nr_invoice_reference command))
     || negb (bool_decide (iv_currency binding = mo_currency (nr_expected_total command)))
     || negb (credit_policy_permits policy command (sa_livemode (iv_account binding)))
  then preparation_error
  else if existsb (λ l, negb (bool_decide (is_Some (line_mapping binding !! lr_line_reference l))))
            (nr_lines command) then preparation_error
  else
    lines ← draft_lines (line_mapping binding) (iv_currency_exponent binding) (nr_lines command);
    total ← _minor_units (nr_expected_total command) (iv_currency_exponent binding);
    let draft := mkCreditNoteDraft binding command (sorted_lines lines) total in
    observed ← credit_gateway (Invoice binding);
    if negb (invoice_bound_to observed binding)
       || negb (invoice_permits observed (nr_disposition command) total) then preparation_error
    else
      calculation ← credit_gateway (Preview draft);
      if negb (matches_calculation draft calculation) then preparation_error
      else
        fingerprint ← lift (credit_policy_fingerprint policy);
        snapshot ← lift (model_validated (credit_snapshot_validated
          (mkCreditNoteSnapshot (pc_tenant_reference context) (nr_intent_reference command)
             fingerprint draft observed calculation)));
        effect ← lift (credit_effect_reference snapshot);
        mret (mkStripePrepared (g := CREDIT_NOTES) snapshot
          (credit_preview_model (mkCreditNotePreview (nr_invoice_reference command) (nr_lines command)
             (nr_expected_total command) (nr_disposition command) (nr_reason command))) effect).

Definition credit_current (policy : CreditNotePolicy) (snapshot : CreditNoteSnapshot) : prog bool :=
  let draft := ns_draft snapshot in
  if negb (bool_decide (iv_tenant_reference (dr_invoice draft) = ns_tenant_reference snapshot))
     || negb (bool_decide (nr_intent_reference (dr_request draft) = ns_intent_reference snapshot))
  then mret false else
  fingerprint ← lift (credit_policy_fingerprint policy);
  if negb (bool_decide (ns_policy_fingerprint snapshot = fingerprint))
     || negb (credit_policy_permits policy (dr_request draft) (sa_livemode (iv_account (dr_invoice draft))))
  then mret false else
  binding ← credit_gateway (HostInvoice (ns_tenant_reference snapshot)
                              (iv_invoice_reference (dr_invoice draft)));
  if negb (bool_decide (binding = dr_invoice draft)) then mret false else
  observed ← credit_gateway (Invoice binding);
  if negb (bool_decide (observed = ns_observed_invoice snapshot))
     || negb (invoice_bound_to observed binding)
     || negb (invoice_permits observed (nr_disposition (dr_request draft)) (dr_total_minor draft))
  then mret false else
  calculation ← credit_gateway (Preview draft);
  mret (bool_decide ((calculation : CreditNoteCalculation) = ns_calculation snapshot)).

Definition credit_submit (snapshot : CreditNoteSnapshot) (not_after : datetime) : prog ExecutionResult :=
  now ← call ClockNow;
  if (not_after <=? now)%Z then execution EX_FAILED_KNOWN "stripe_submission_deadline_expired" else
  observed ← catch_boundary (credit_gateway (CreateNote snapshot));
  match (observed : option CreditNoteObservation) with
  | None => execution EX_FAILED_UNKNOWN "stripe_credit_submission_unknown"
  | Some observed =>
      matches ← lift (note_matches observed snapshot);
      if negb matches || negb (bool_decide (no_status observed = CN_issued)) then
        execution EX_FAILED_UNKNOWN "stripe_credit_binding_mismatch" else
      correlation ← lift (credit_correlation snapshot);
      accepted None correlation
  end.

(** The correlated note among those of a page: a second one is inconsistent. *)
Fixpoint correlated_note (snapshot : CreditNoteSnapshot) (notes : list CreditNoteLookup)
  (found : option CreditNoteLookup) : res (option CreditNoteLookup) :=
  match notes with
  | [] => Ok found
  | item :: notes' =>
      correlation ← credit_correlation snapshot;
      if bool_decide (lk_correlation item = correlation) then
        if bool_decide (is_Some found) then fail boundary_error
        else correlated_note snapshot notes' (Some item)
      else correlated_note snapshot notes' found
  end.

(** The loop of [_observe] over at most [pages] more pages. *)
Fixpoint observe_notes (pages : nat) (snapshot : CreditNoteSnapshot) (after : option pystr)
  (found : option CreditNoteLookup) : prog (option CreditNoteObservation) :=
  match pages with
  | O => raise boundary_error
  | S pages' =>
      page ← credit_gateway (ListNotes (dr_invoice (ns_draft snapshot)) after);
      found ← lift (correlated_note snapshot (ng_notes page) found);
      if negb (ng_has_more page) then
        match found with
        | None => mret None
        | Some m =>
            note ← credit_gateway (RetrieveNote (dr_invoice (ns_draft snapshot)) (lk_note_id m));
            if negb (bool_decide (no_note_id note = lk_note_id m)) then raise boundary_error else
            matches ← lift (note_matches note snapshot);
            if negb matches then raise boundary_error else mret (Some note)
        end
      else
        match list.last (ng_notes page) with
        | None => raise boundary_error
        | Some l =>
            if bool_decide (Some (lk_note_id l) = after) then raise boundary_error
            else observe_notes pages' snapshot (Some (lk_note_id l)) found
        end
  end.

Definition credit_consistent (credit : CustomerCreditObservation) (note : CreditNoteObservation)
  (transaction_id : pystr) (snapshot : CreditNoteSnapshot) : bool :=
  let binding := dr_invoice (ns_draft snapshot) in
  bool_decide (cc_transaction_id credit = transaction_id)
  && bool_decide (cc_customer_id credit = iv_customer_id binding)
  && bool_decide (cc_note_id credit = no_note_id note)
  && bool_decide (cc_kind credit = "credit_note"%py)
  && bool_decide (cc_currency credit = lower_code (iv_currency binding))
  && (cc_amount_minor credit =? - credit_minor (ns_draft snapshot))%Z.

(** The body of the [try] of [_verify]. *)
Definition established_note (snapshot : CreditNoteSnapshot) : prog (option CreditNoteObservation) :=
  let binding := dr_invoice (ns_draft snapshot) in
  invoice ← credit_gateway (Invoice binding);
  if negb (invoice_bound_to invoice binding) then raise boundary_error else
  found ← observe_notes 10 snapshot None None;
  match found with
  | None => mret None
  | Some note =>
      match no_status note, no_balance_transaction_id note with
      | CN_issued, Some transaction_id =>
          credit ← credit_gateway (CustomerCredit binding transaction_id);
          if negb (credit_consistent credit note transaction_id snapshot) then raise boundary_error
          else mret (Some note)
      | _, _ => mret (Some note)
      end
  end.

Definition credit_verify (snapshot : CreditNoteSnapshot) : prog VerificationResult :=
  let request := dr_request (ns_draft snapshot) in
  found ← catch_boundary (established_note snapshot);
  match (found : option (option CreditNoteObservation)) with
  | None => verification VS_TARGET_UNAVAILABLE "stripe_credit_lookup_unavailable"
  | Some None => verification VS_PROVISIONAL_ABSENCE "stripe_credit_not_observed"
  | Some (Some note) =>
      correlation ← lift (credit_correlation snapshot);
      verified (if bool_decide (no_status note = CN_issued) then VS_VERIFIED_COMPLETION
                else VS_VERIFIED_TERMINAL_FAILURE)
        (credit_outcome_model (mkCreditNoteOutcome
           (iv_invoice_reference (dr_invoice (ns_draft snapshot))) (nr_expected_total request)
           (nr_disposition request) (no_status note))) correlation
  end.

#[local] Instance credit_workflow (policy : CreditNotePolicy) :
  Workflow CREDIT_NOTES CreditNoteRequest := {|
  _prepare := credit_prepare policy;
  _current := credit_current policy;
  _submit := credit_submit;
  _verify := credit_verify
|}.

End CreditNotes.
