(* ===== verification/StripeActions.v ===== *)
(** The Stripe action groups together
    ([integrations/stripe/actions.py] and the facade of [_operation.py]). *)

From S2P Require Import Prelude Models Canonical Authority Receipts Registry StripeModels StoreBase.
From S2P Require Import StoreContract Recovery Program StripeOperation StripeRefunds StripeBilling.

(** The workflow behind a Stripe definition. *)
Inductive stripe_workflow :=
  | RefundWorkflow (w : _RefundWorkflow)
  | SubscriptionWorkflow (policy : SubscriptionCancellationPolicy) (authorization : port)
  | CreditNoteWorkflow (policy : CreditNotePolicy) (authorization : port).

Definition group_of (w : stripe_workflow) : StripeHostActionGroup :=
  match w with
  | RefundWorkflow _ => REFUNDS
  | SubscriptionWorkflow _ _ => SUBSCRIPTIONS
  | CreditNoteWorkflow _ _ => CREDIT_NOTES
  end.

Definition authorization_of (w : stripe_workflow) : port :=
  match w with
  | RefundWorkflow w => rw_authorization w
  | SubscriptionWorkflow _ a | CreditNoteWorkflow _ a => a
  end.

Definition request_of (w : stripe_workflow) : Type :=
  match w with
  | RefundWorkflow _ => RefundRequest
  | SubscriptionWorkflow _ _ => SubscriptionCancellationRequest
  | CreditNoteWorkflow _ _ => CreditNoteRequest
  end.

Section Actions.
Context `{U : Unicode, D : PyDump}.

Definition stripe_prepare (w : stripe_workflow)
  : request_of w → PreparationContext → prog (StripePrepared (group_of w)) :=
  match w with
  | RefundWorkflow w => refund_prepare w
  | SubscriptionWorkflow policy _ => workflow_prepare SUBSCRIPTIONS (W := subscription_workflow policy)
  | CreditNoteWorkflow policy _ => workflow_prepare CREDIT_NOTES (W := credit_workflow policy)
  end.

Definition stripe_resolve (w : stripe_workflow)
  : snapshot_of (group_of w) → ExecutionContext → prog (pystr * bool) :=
  match w with
  | RefundWorkflow w => refund_resolve w
  | SubscriptionWorkflow policy _ => workflow_resolve SUBSCRIPTIONS (W := subscription_workflow policy)
  | CreditNoteWorkflow policy _ => workflow_resolve CREDIT_NOTES (W := credit_workflow policy)
  end.

Definition stripe_execute (w : stripe_workflow)
  : snapshot_of (group_of w) → ExecutionContext → pystr → prog ExecutionResult :=
  match w with
  | RefundWorkflow w => refund_execute w
  | SubscriptionWorkflow policy a => workflow_execute SUBSCRIPTIONS (W := subscription_workflow policy) a
  | CreditNoteWorkflow policy a => workflow_execute CREDIT_NOTES (W := credit_workflow policy) a
  end.

Definition stripe_verify (w : stripe_workflow) : ExecutionContext → prog VerificationResult :=
  match w with
  | RefundWorkflow w => refund_verify w
  | SubscriptionWorkflow policy _ => workflow_verify SUBSCRIPTIONS (W := subscription_workflow policy)
  | CreditNoteWorkflow policy _ => workflow_verify CREDIT_NOTES (W := credit_workflow policy)
  end.

Definition stripe_observe (w : stripe_workflow) : ExecutionContext → prog VerificationResult :=
  match w with
  | RefundWorkflow w => refund_observe w
  | SubscriptionWorkflow policy _ => workflow_observe SUBSCRIPTIONS (W := subscription_workflow policy)
  | CreditNoteWorkflow policy _ => workflow_observe CREDIT_NOTES (W := credit_workflow policy)
  end.

End Actions.

(** * Definitions and composition *)

Record StripeActionSettings := mkStripeActionSettings {
  st_executor_identity : GovernedExecutor;
  st_authority_audience : pystr;
  st_authority_channel_assurance : pystr;
  st_proposal_ttl : timedelta;
  st_verification_delay : timedelta;
  st_verification_lease_duration : timedelta;
  st_max_verification_attempts : Z
}.

(** The class names of a group's command, snapshot, preview and result. *)
Definition model_names (w : stripe_workflow) : pystr * pystr * pystr * pystr :=
  match w with
  | RefundWorkflow _ => ("RefundRequest", "RefundSnapshot", "RefundPreview", "RefundOutcome")
  | SubscriptionWorkflow _ _ =>
      ("SubscriptionCancellationRequest", "SubscriptionCancellationSnapshot",
       "SubscriptionCancellationPreview", "SubscriptionCancellationOutcome")
  | CreditNoteWorkflow _ _ =>
      ("CreditNoteRequest", "CreditNoteSnapshot", "CreditNotePreview", "CreditNoteOutcome")
  end%py.

(** [_definition]: the workflow (at [self]) is the preparation, the resolver,
    the executor, the verifier and the retention; the rest of an
    [ActionDefinition] keeps its defaults. *)
Definition _definition (self : port) (w : stripe_workflow) (action_type : ActionType)
  (settings : StripeActionSettings)
  (authority_evaluator : port) (commitment_provider : CommitmentProviderPort)
  (protection_codec : ProtectionCodecPort) : ActionDefinition :=
  let '(command, snapshot, preview, result) := model_names w in
  {| ad_action_type := action_type;
     ad_command_model := command;
     ad_private_snapshot_model := snapshot;
     ad_display_preview_model := preview;
     ad_result_model := result;
     ad_preparation := self;
     ad_authorization := authorization_of w;
     ad_authority_evaluator := authority_evaluator;
     ad_state_resolver := self;
     ad_executor := self;
     ad_verifier := self;
     ad_commitment_provider := commitment_provider;
     ad_protection_codec := protection_codec;
     ad_retention := self;
     ad_proposal_ttl := st_proposal_ttl settings;
     ad_executor_identity := st_executor_identity settings;
     ad_target_identity := mkAuthoritativeTarget "provider:stripe";
     ad_authority_audience := st_authority_audience settings;
     ad_authority_channel_assurance := st_authority_channel_assurance settings;
     ad_recovery_authorization := None;
     ad_verification_delay := st_verification_delay settings;
     ad_max_verification_attempts := st_max_verification_attempts settings;
     ad_effect_kind := single;
     ad_allow_resend_after_final_absence := false;
     ad_verification_lease_duration := st_verification_lease_duration settings |}.

(** ** [StripeActions.__init__]: which configurations are accepted *)

Record stripe_arguments := mkStripeArguments {
  sa_host : option port;
  sa_policy : option RefundPolicy;
  sa_settings : option StripeActionSettings;
  sa_client : bool;
  sa_gateway : bool;
  (* each: the configuration carries its own gateway *)
  sa_subscriptions : option bool;
  sa_credit_notes : option bool
}.

Definition refund_configured (a : stripe_arguments) : bool :=
  bool_decide (is_Some (sa_host a)) || bool_decide (is_Some (sa_policy a))
  || bool_decide (is_Some (sa_settings a)) || sa_gateway a.

(** [(client is None) == (gateway is None)]. *)
Definition not_exactly_one (client gateway : bool) : bool := Bool.eqb client gateway.

(** The groups an instance offers. *)
Definition stripe_actions_init (a : stripe_arguments) : res (list StripeHostActionGroup) :=
  if negb (refund_configured a) && bool_decide (sa_subscriptions a = None)
     && bool_decide (sa_credit_notes a = None) then
    fail (ValueErrorLike "configure at least one Stripe action group")
  else
    refunds ← (if refund_configured a then
      if bool_decide (sa_host a = None) || bool_decide (sa_policy a = None)
         || bool_decide (sa_settings a = None) then
        fail (ValueErrorLike "refunds require host, policy and settings together")
      else if not_exactly_one (sa_client a) (sa_gateway a) then
        fail (ValueErrorLike "provide exactly one Stripe client or refund gateway")
      else Ok [REFUNDS]
    else Ok []);
    subscriptions ← match sa_subscriptions a with
      | Some gateway =>
          if not_exactly_one (sa_client a) gateway then
            fail (ValueErrorLike "provide exactly one Stripe client or subscription gateway")
          else Ok [SUBSCRIPTIONS]
      | None => Ok []
      end;
    credit_notes ← match sa_credit_notes a with
      | Some gateway =>
          if not_exactly_one (sa_client a) gateway then
            fail (ValueErrorLike "provide exactly one Stripe client or credit-note gateway")
          else Ok [CREDIT_NOTES]
      | None => Ok []
      end;
    Ok (refunds ++ subscriptions ++ credit_notes).
