(* ===== verification/StripeSafety.v ===== *)
(** What an execution of a Stripe action submits, under any answers of the
    host and of the provider: at most one dispatch, behind an acquired
    reservation and before the deadline, and no report of "nothing submitted"
    after one. *)

From S2P Require Import Prelude Models Canonical Authority Receipts Registry StripeModels StoreBase.
From S2P Require Import StoreContract Recovery Program StripeOperation StripeRefunds StripeBilling StripeActions.

(** * Operations that change the provider, and those that keep the books *)

Definition dispatches (o : op) : bool :=
  match o with
  | Stripe (Refunds (CreateRefund _)) | Stripe (Subscriptions (UpdateSubscription _))
  | Stripe (CreditNotes (CreateNote _)) => true
  | _ => false
  end.

Definition bookkeeping (o : op) : bool :=
  match o with Stripe (Repository _ _) => true | _ => false end.

Definition idle (o : op) : bool := negb (dispatches o || bookkeeping o).

Definition dispatched (h : history) : bool := existsb (λ e, dispatches (ev_op e)) h.

(** The dispatch of a snapshot. *)
Definition submission (g : StripeHostActionGroup) : snapshot_of g → op :=
  match g with
  | REFUNDS => λ s, Stripe (Refunds (CreateRefund (sn_intent s)))
  | SUBSCRIPTIONS => λ s, Stripe (Subscriptions (UpdateSubscription s))
  | CREDIT_NOTES => λ s, Stripe (CreditNotes (CreateNote s))
  end.

Lemma dispatched_app h h' : dispatched (h ++ h') = dispatched h || dispatched h'.
Proof. apply existsb_app. Qed.

Lemma dispatched_idle h o r : idle o = true → dispatched (h ++ [Event o r]) = dispatched h.
Proof.
  intros Ho. rewrite dispatched_app. simpl. unfold idle in Ho.
  by destruct (dispatches o), (dispatched h).
Qed.

Lemma idle_not_dispatch o : idle o = true → dispatches o = false.
Proof. unfold idle. by destruct (dispatches o). Qed.

(** ** Programs of idle operations *)

Fixpoint idles {A} (p : prog A) : Prop :=
  match p with
  | Ret _ | Raise _ => True
  | Vis o k => idle o = true ∧ ∀ r, idles (k r)
  end.

Lemma idles_bind {A B} (p : prog A) (f : A → prog B) :
  idles p → (∀ a, idles (f a)) → idles (p ≫= f).
Proof.
  intros Hp Hf. induction p as [a|e|o k IH]; [apply Hf|done|]. destruct Hp as [Ho Hk].
  split; [done|]. intros r. by apply IH.
Qed.

Lemma idles_call o : idle o = true → idles (call o).
Proof. intros Ho. split; [done|]. by intros [a|e]. Qed.

Lemma idles_lift {A} (r : res A) : idles (lift r).
Proof. by destruct r. Qed.

Lemma idles_attempt {A} (p : prog A) : idles p → idles (attempt p).
Proof. induction p as [a|e|o k IH]; [done..|]. intros [Ho Hk]. split; [done|]. intros r. by apply IH. Qed.

Lemma idles_catch {A} (p : prog A) : idles p → idles (catch_boundary p).
Proof.
  intros Hp. apply idles_bind; [by apply idles_attempt|].
  intros [a|e]; [done|]. by destruct (is_boundary_error e).
Qed.

Create HintDb idles.
#[export] Hint Resolve idles_bind idles_call idles_lift idles_attempt idles_catch : idles.

(** Programs built from idle operations by binds, tests and matches. *)
Ltac solve_idles :=
  repeat match goal with
  | |- idles (mbind _ _) => apply idles_bind; [|intros]
  | |- idles (call _) => by apply idles_call
  | |- idles (lift _) => apply idles_lift
  | |- idles (catch_boundary _) => apply idles_catch
  | |- idles (if ?b then _ else _) => destruct b
  | |- idles (match ?x with _ => _ end) => destruct x
  | |- idles (mret _) => exact I
  | |- idles (raise _) => exact I
  | |- idles (Raise _) => exact I
  | |- idles _ => solve [assumption | eauto 3 with idles]
  | |- idles (?f _ _ _ _) => unfold f
  | |- idles (?f _ _ _) => unfold f
  | |- idles (?f _ _) => unfold f
  | |- idles (?f _) => unfold f
  end.

(** [h'] continues [h] with idle operations. *)
Definition idled (h h' : history) : Prop :=
  ∃ es, h' = h ++ es ∧ Forall (λ e, idle (ev_op e) = true) es.

Lemma idled_refl h : idled h h.
Proof. exists []. by rewrite app_nil_r. Qed.

Lemma idled_dispatched h h' : idled h h' → dispatched h' = dispatched h.
Proof.
  intros (es & -> & Hes). rewrite dispatched_app. replace (dispatched es) with false; [by rewrite orb_false_r|].
  induction Hes as [|e es He _ IH]; [done|]. simpl. by rewrite (idle_not_dispatch _ He), <-IH.
Qed.

Lemma idled_elem h h' e : idled h h' → e ∈ h → e ∈ h'.
Proof. intros (es & -> & _) He. apply elem_of_app. by left. Qed.

Section Idle.
Variables (G : history → op → Prop) (R : history → event → Prop).
Hypothesis G_idle : ∀ h o, idle o = true → G h o.

Lemma wp_idles_runs {A} (p : prog A) (Q : history → res A → Prop) h :
  idles p →
  (∀ es r, Forall (λ e, idle (ev_op e) = true) es → runs p es (lift r) → Q (h ++ es) r) → wp G R p Q h.
Proof.
  revert h. induction p as [a|e|o k IH]; intros h Hp HQ.
  - specialize (HQ [] (Ok a)). rewrite app_nil_r in HQ. apply HQ; constructor.
  - specialize (HQ [] (Err e)). rewrite app_nil_r in HQ. apply HQ; constructor.
  - destruct Hp as [Ho Hk]. split; [by apply G_idle|]. intros r _. apply IH; [done|].
    intros es x Hes Hr. rewrite <-app_assoc. apply HQ; by constructor.
Qed.

Lemma wp_idles {A} (p : prog A) (Q : history → res A → Prop) h :
  idles p → (∀ h' r, idled h h' → Q h' r) → wp G R p Q h.
Proof. intros Hp HQ. apply wp_idles_runs; [done|]. intros es r Hes _. apply HQ. by exists es. Qed.

(** A bind whose first part is idle. *)
Lemma wp_idles_bind {A B} (p : prog A) (f : A → prog B) (Q : history → res B → Prop) h :
  idles p → (∀ h' a, idled h h' → wp G R (f a) Q h') →
  (∀ h' e, idled h h' → Q h' (Err e)) → wp G R (p ≫= f) Q h.
Proof.
  intros Hp Hf He. apply wp_bind. apply wp_idles; [done|]. intros h' [a|e] Hh; [by apply Hf|by apply He].
Qed.

End Idle.

(** ** Inverting binds *)

Lemma runs_lift_bind_inv {A B} (r : res A) (f : A → prog B) es b :
  runs (lift r ≫= f) es (Ret b) → ∃ a, r = Ok a ∧ runs (f a) es (Ret b).
Proof. destruct r as [a|e]; [by exists a|]. intros H. by apply runs_raise_inv in H. Qed.

Lemma runs_call_bind_inv {B} o (f : resp o → prog B) es b :
  runs (call o ≫= f) es (Ret b) → ∃ a es', es = Event o (Ok a) :: es' ∧ runs (f a) es' (Ret b).
Proof.
  intros (es1 & es2 & a & -> & H1 & H2)%runs_bind_inv. apply runs_call_inv in H1 as ->.
  by exists a, es2.
Qed.

(** * The gate of a dispatch *)

(** The answer that [s] is reserved until [deadline]. *)
Definition acquired (g : StripeHostActionGroup) (s : snapshot_of g) (deadline : datetime) : event :=
  Event (Stripe (Repository g (Reserve s deadline))) (Ok RS_ACQUIRED).

(** The provider still shows what the snapshot was prepared for. *)
Definition provider_checked (g : StripeHostActionGroup) : snapshot_of g → history → Prop :=
  match g with
  | REFUNDS => λ s h,
      ∃ charge, Event (Stripe (Refunds (Charge (sn_intent s)))) (Ok charge) ∈ h ∧
        charge_permits charge (sn_intent s) = true
  | SUBSCRIPTIONS => λ s h,
      Event (Stripe (Subscriptions (RetrieveSubscription (cs_binding s)))) (Ok (cs_observed s)) ∈ h ∧
      ∃ now, Event ClockNow (Ok now) ∈ h ∧ subscription_permits (cs_observed s) (cs_operation s) now = true
  | CREDIT_NOTES => λ s h,
      Event (Stripe (CreditNotes (Invoice (dr_invoice (ns_draft s))))) (Ok (ns_observed_invoice s)) ∈ h ∧
      invoice_permits (ns_observed_invoice s) (nr_disposition (dr_request (ns_draft s)))
        (dr_total_minor (ns_draft s)) = true ∧
      Event (Stripe (CreditNotes (Preview (ns_draft s)))) (Ok (ns_calculation s)) ∈ h
  end.

Lemma provider_checked_mono g s h h' :
  (∀ e, e ∈ h → e ∈ h') → provider_checked g s h → provider_checked g s h'.
Proof.
  intros Hsub. destruct g; simpl.
  - intros (c & Hc & Hp). exists c. split; [by apply Hsub|done].
  - intros [Ho (now & Hn & Hp)]. split; [by apply Hsub|]. exists now. split; [by apply Hsub|done].
  - intros (Ho & Hp & Hc). split_and!; [by apply Hsub|done|by apply Hsub].
Qed.

(** After the reservation of [s] until [deadline]: the authority was asked
    again, the provider was checked again, and the clock read before the
    deadline. *)
Definition rechecked (g : StripeHostActionGroup) `{U : Unicode, D : PyDump} (authorization : port)
  (s : snapshot_of g) (context : ExecutionContext) (deadline : datetime) (h : history) : Prop :=
  (∃ r, Event (CanExecute authorization (model_of g s) context) (Ok r) ∈ h ∧ az_allowed r = true) ∧
  provider_checked g s h ∧
  ∃ now, Event ClockNow (Ok now) ∈ h ∧ (now < deadline)%Z.

Section Gate.
Context `{U : Unicode, D : PyDump} (g : StripeHostActionGroup) (authorization : port).
Context (s : snapshot_of g) (context : ExecutionContext).

(** What lies behind a dispatch: the stored record and its deadline, the
    reservation until then, and the checks after it; and no dispatch yet. *)
Definition submission_gate (h : history) : Prop :=
  dispatched h = false ∧
  ∃ record deadline h1 h2,
    h = h1 ++ acquired g s deadline :: h2 ∧
    Event (Store (Get (xc_tenant_reference context) (xc_proposal_reference context))) (Ok record) ∈ h1 ∧
    admission record = Some deadline ∧ rechecked g authorization s context deadline h2.

(** What an execution guarantees of each operation it performs. *)
Definition execution_guarantee (h : history) (o : op) : Prop :=
  (dispatches o = true → o = submission g s ∧ submission_gate h) ∧
  (∀ g' t e, o = Stripe (Repository g' (RecordNoSubmission t e)) → dispatched h = false).

(** What it guarantees of its result. *)
Definition honest (h : history) (r : res ExecutionResult) : Prop :=
  ∀ x, r = Ok x → not_submitted (xr_status x) = true → dispatched h = false.

Lemma guarantee_idle h o : idle o = true → execution_guarantee h o.
Proof.
  intros Ho. split.
  - intros Hd. by rewrite (idle_not_dispatch _ Ho) in Hd.
  - intros g' t e ->. done.
Qed.

Lemma guarantee_reserve h deadline :
  execution_guarantee h (Stripe (Repository g (Reserve s deadline))).
Proof. by split. Qed.

End Gate.

Abbreviation anything := (λ (_ : history) (_ : event), True).

(** * The interface of a workflow *)

Class WorkflowLaws {g : StripeHostActionGroup} {CommandT : Type} (W : Workflow g CommandT) := {
  prepare_idles : ∀ c context, idles (_prepare c context);
  current_idles : ∀ s, idles (_current s);
  current_checked : ∀ s es, runs (_current s) es (Ret true) → provider_checked g s es;
  verify_idles : ∀ s, idles (_verify s);
  (** [_submit] dispatches its snapshot at most once, after idle operations,
      and reports "nothing submitted" only when it did not. *)
  submit_once : ∀ s deadline (G : history → op → Prop) h,
    (∀ h' o, idle o = true → G h' o) →
    (∀ h', idled h h' → G h' (submission g s)) →
    wp G anything (_submit s deadline)
      (λ h' r, ∀ x, r = Ok x → not_submitted (xr_status x) = true → dispatched h' = dispatched h) h
}.

Section Admission.
Context `{U : Unicode, D : PyDump} (g : StripeHostActionGroup) (authorization : port).
Context (s : snapshot_of g) (context : ExecutionContext).

Abbreviation G := (execution_guarantee g authorization s context).

Lemma honest_quiet h r : dispatched h = false → honest h r.
Proof. by intros H x _ _. Qed.

Lemma allowed_idles : idles (allowed g authorization s context).
Proof. apply idles_bind; [by apply idles_call|done]. Qed.

Lemma wp_allowed {B} (f : bool → prog B) (Q : history → res B → Prop) h :
  (∀ r, wp G anything (f (az_allowed r)) Q
          (h ++ [Event (CanExecute authorization (model_of g s) context) (Ok r)])) →
  (∀ e, Q (h ++ [Event (CanExecute authorization (model_of g s) context) (Err e)]) (Err e)) →
  wp G anything (allowed g authorization s context ≫= f) Q h.
Proof.
  intros Hf He. unfold allowed. do 2 apply wp_bind. apply wp_call; [by apply guarantee_idle|].
  intros [r|e] _; [apply Hf|apply He].
Qed.

Lemma wp_clock {B} (f : datetime → prog B) (Q : history → res B → Prop) h :
  (∀ now, wp G anything (f now) Q (h ++ [Event ClockNow (Ok now)])) →
  (∀ e, Q (h ++ [Event ClockNow (Err e)]) (Err e)) → wp G anything (call ClockNow ≫= f) Q h.
Proof.
  intros Hf He. apply wp_bind, wp_call; [by apply guarantee_idle|]. intros [r|e] _; [apply Hf|apply He].
Qed.

Lemma submission_guarantee h1 h2 record deadline :
  dispatched (h1 ++ acquired g s deadline :: h2) = false →
  Event (Store (Get (xc_tenant_reference context) (xc_proposal_reference context))) (Ok record) ∈ h1 →
  admission record = Some deadline → rechecked g authorization s context deadline h2 → 
  ∀ h', idled (h1 ++ acquired g s deadline :: h2) h' →
  G h' (submission g s).
Proof.
  intros Hd Hget Hadm ((r & Hr & Ha) & Hp & (now & Hnow & Hlt)) h' Hi. split.
  - intros _. split; [done|]. split; [by rewrite (idled_dispatched _ _ Hi)|].
    destruct Hi as (es & -> & _). exists record, deadline, h1, (h2 ++ es).
    rewrite <-app_assoc. split_and!; [done..|]. split; [|split].
    + exists r. split; [|done]. apply elem_of_app. by left.
    + eapply provider_checked_mono; [|exact Hp]. intros e He. apply elem_of_app. by left.
    + exists now. split; [|done]. apply elem_of_app. by left.
  - intros g' t e He. by destruct g.
Qed.

(** From the stored record on, whatever the group's dispatch. *)
Lemma stored_guarantee effect unavailable refusal dispatch h1 :
  dispatched h1 = false →
  (∀ h2 record deadline, dispatched h2 = false →
     Event (Store (Get (xc_tenant_reference context) (xc_proposal_reference context))) (Ok record) ∈ h2 →
     admission record = Some deadline →
     wp G anything (dispatch deadline) honest (h2 ++ [acquired g s deadline])) →
  wp G anything (execute_stored g s context effect unavailable refusal dispatch) honest h1.
Proof.
  intros Hd1 Hdispatch. unfold execute_stored.
  apply wp_bind, wp_call; [by apply guarantee_idle|]. intros [record|e] _.
  2:{ apply honest_quiet. by rewrite dispatched_idle. }
  destruct (admission record) as [deadline|] eqn:Hadm.
  2:{ apply honest_quiet. by rewrite dispatched_idle. }
  set (h2 := h1 ++ _). assert (Hd2 : dispatched h2 = false) by (unfold h2; by rewrite dispatched_idle).
  apply wp_bind, wp_call; [by split|]. intros [reservation|e] _.
  2:{ apply honest_quiet. rewrite dispatched_app, Hd2. done. }
  destruct (reservation : StripeReservationStatus);
    [|apply honest_quiet; rewrite dispatched_app, Hd2; done..].
  apply wp_bind. eapply wp_mono; [apply Hdispatch with (record := record)|]; [done| |done|].
  { unfold h2. apply elem_of_app. right. left. }
  intros h' [x|e] _ Hx; [|by intros y Hy].
  destruct (not_submitted (xr_status x)) eqn:Hn; [|intros y [= <-] Hy; congruence].
  assert (Hd' := Hx x eq_refl Hn). apply wp_bind, wp_call; [by split|].
  intros [|] _; apply honest_quiet; rewrite dispatched_app, Hd'; done.
Qed.

End Admission.

Section Execution.
Context `{U : Unicode, D : PyDump} (g : StripeHostActionGroup) {CommandT : Type}.
Context {W : Workflow g CommandT} {L : WorkflowLaws W} (authorization : port).
Context (s : snapshot_of g) (context : ExecutionContext).

Abbreviation G := (execution_guarantee g authorization s context).

Lemma resolve_idles : idles (workflow_resolve g s context).
Proof.
  unfold workflow_resolve. apply idles_bind; [apply idles_lift|]. intros [].
  - apply idles_bind; [apply current_idles|]. intros c. apply idles_bind; [apply idles_lift|done].
  - apply idles_bind; [done|]. intros c. apply idles_bind; [apply idles_lift|done].
Qed.

Lemma dispatch_guarantee h1 record deadline :
  dispatched h1 = false →
  Event (Store (Get (xc_tenant_reference context) (xc_proposal_reference context))) (Ok record) ∈ h1 →
  admission record = Some deadline →
  wp G anything (workflow_dispatch g authorization s context deadline) honest
    (h1 ++ [acquired g s deadline]).
Proof.
  intros Hd Hget Hadm. unfold workflow_dispatch.
  assert (Hd0 : dispatched (h1 ++ [acquired g s deadline])
    = false) by (rewrite dispatched_app, Hd; done).
  apply wp_allowed; [|intros e; by apply honest_quiet; rewrite dispatched_idle].
  intros r1. rewrite <-(dispatched_idle _ (CanExecute authorization (model_of g s) context) (Ok r1)) in Hd0
    by done.
  destruct (az_allowed r1); [|by apply honest_quiet].
  apply wp_bind, wp_idles_runs; [apply guarantee_idle|apply current_idles|]. intros es c Hes Hruns.
  match goal with |- context [?h ++ es] => assert (Hi : idled h (h ++ es)) by (by exists es) end.
  assert (Hd1 := idled_dispatched _ _ Hi). rewrite Hd0 in Hd1.
  destruct c as [[]|e]; [|by apply honest_quiet..]. apply current_checked in Hruns.
  apply wp_allowed; [|intros e; by apply honest_quiet; rewrite dispatched_idle].
  intros r2. rewrite <-(dispatched_idle _ (CanExecute authorization (model_of g s) context) (Ok r2)) in Hd1
    by done.
  destruct (az_allowed r2) eqn:Ha2; [|by apply honest_quiet].
  apply wp_clock; [|intros e; by apply honest_quiet; rewrite dispatched_idle].
  intros now. rewrite <-(dispatched_idle _ ClockNow (Ok now)) in Hd1 by done.
  destruct (deadline <=? now)%Z eqn:Hnow; [by apply honest_quiet|].
  rewrite <-!app_assoc in Hd1 |- *. cbn [app] in Hd1 |- *.
  eapply wp_mono; [apply submit_once|].
  - apply guarantee_idle.
  - eapply submission_guarantee; [exact Hd1|done|done|]. split; [|split].
    + exists r2. split; [|done]. right. apply elem_of_app. right. left.
    + eapply provider_checked_mono; [|exact Hruns]. intros e He. right. apply elem_of_app. by left.
    + exists now. split; [|lia]. right. apply elem_of_app. right. right. left.
  - intros h' x _ Hx y Hy Hn. by rewrite (Hx y Hy Hn).
Qed.

Lemma execute_guarantee execution_precondition :
  wp G anything (workflow_execute g authorization s context execution_precondition) honest [].
Proof.
  unfold workflow_execute.
  apply wp_idles_bind; [apply guarantee_idle|apply idles_lift| |].
  2:{ intros h' e Hi. apply honest_quiet. by rewrite (idled_dispatched _ _ Hi). }
  intros h0 effect Hi0. assert (Hd0 : dispatched h0 = false) by (by rewrite (idled_dispatched _ _ Hi0)).
  apply wp_idles_bind; [apply guarantee_idle| | |].
  { destruct (negb _); [done|]. apply idles_bind; [apply resolve_idles|].
    intros [? []]; [done|apply allowed_idles]. }
  2:{ intros h' e Hi. apply honest_quiet. by rewrite (idled_dispatched _ _ Hi). }
  intros h1 ready Hi1. assert (Hd1 : dispatched h1 = false) by (by rewrite (idled_dispatched _ _ Hi1)).
  destruct ready; [|by apply honest_quiet]. cbn [negb].
  apply stored_guarantee; [done|]. intros; by eapply dispatch_guarantee.
Qed.

End Execution.

(** * The groups *)

(** Idle programs whose results satisfy [P]. *)
Fixpoint idles_to {A} (P : A → Prop) (p : prog A) : Prop :=
  match p with
  | Ret a => P a
  | Raise _ => True
  | Vis o k => idle o = true ∧ ∀ r, idles_to P (k r)
  end.

Lemma idles_to_lift_bind {A B} (P : B → Prop) (r : res A) (f : A → prog B) :
  (∀ a, idles_to P (f a)) → idles_to P (lift r ≫= f).
Proof. intros Hf. destruct r as [a|e]; [apply Hf|exact I]. Qed.

Section Tail.
Variables (G : history → op → Prop).
Hypothesis G_idle : ∀ h o, idle o = true → G h o.

Lemma wp_idles_to {A} (P : A → Prop) (p : prog A) h :
  idles_to P p → wp G anything p (λ _ r, ∀ x, r = Ok x → P x) h.
Proof.
  revert h. induction p as [a|e|o k IH]; intros h Hp; [by intros x [= <-]|done|].
  destruct Hp as [Ho Hk]. split; [by apply G_idle|]. intros r _. by apply IH.
Qed.

Lemma wp_catch_call {B} o (f : option (resp o) → prog B) (Q : history → res B → Prop) h :
  G h o → (∀ a, wp G anything (f (Some a)) Q (h ++ [Event o (Ok a)])) →
  (∀ e, wp G anything (f None) Q (h ++ [Event o (Err e)])) →
  (∀ e, Q (h ++ [Event o (Err e)]) (Err e)) → wp G anything (catch_boundary (call o) ≫= f) Q h.
Proof.
  intros HG Hs Hn He. apply wp_bind. unfold catch_boundary. apply wp_bind, wp_attempt, wp_call; [done|].
  intros [a|e] _; simpl; [apply Hs|]. destruct (is_boundary_error e); [apply Hn|apply He].
Qed.

(** A submission: the dispatch, then a result that does not deny it. *)
Lemma wp_submission {g} (s : snapshot_of g) o
  (f : option (resp o) → prog ExecutionResult) h :
  o = submission g s → G h (submission g s) →
  (∀ x, idles_to (λ r, not_submitted (xr_status r) = false) (f x)) →
  wp G anything (catch_boundary (call o) ≫= f)
    (λ h' r, ∀ x, r = Ok x → not_submitted (xr_status x) = true → dispatched h' = dispatched h) h.
Proof.
  intros -> HG Hf. apply wp_catch_call; [done| | |done]; intros;
    (eapply wp_mono; [by apply wp_idles_to|]); intros h' y _ Hy z Hz Hn; specialize (Hy z Hz); congruence.
Qed.

End Tail.

Section Groups.
Context `{U : Unicode, D : PyDump}.

Lemma not_false_run (es : history) : ¬ runs (mret false) es (Ret true).
Proof. by intros [_ [=]]%runs_ret_inv. Qed.

Lemma subscription_current_checked policy s es :
  runs (subscription_current policy s) es (Ret true) → provider_checked SUBSCRIPTIONS s es.
Proof.
  unfold subscription_current. destruct (negb _); [by intros []%not_false_run|].
  intros (fingerprint & _ & H)%runs_lift_bind_inv.
  destruct (_ || _); [by apply not_false_run in H|].
  apply runs_call_bind_inv in H as (binding & es1 & -> & H). case_bool_decide as Hb; [|by apply not_false_run in H].
  cbn [negb] in H. subst binding. apply runs_call_bind_inv in H as (o & es2 & -> & H).
  destruct (bool_decide _) eqn:Ho; [|by apply not_false_run in H]. apply bool_decide_eq_true in Ho as ->.
  destruct (subscription_bound_to _ _); [|by apply not_false_run in H]. cbn [andb] in H.
  apply runs_call_bind_inv in H as (now & es3 & -> & H). apply runs_ret_inv in H as [-> H].
  split; [right; left|]. exists now. split; [right; right; left|done].
Qed.

#[export] Instance subscription_laws policy : WorkflowLaws (subscription_workflow policy).
Proof.
  constructor; intros; cbn [_prepare _current _verify _submit subscription_workflow].
  - unfold subscription_prepare, subscription_gateway, preparation_error. solve_idles.
  - unfold subscription_current, subscription_gateway. solve_idles.
  - match goal with H : runs _ _ _ |- _ => exact (subscription_current_checked _ _ _ H) end.
  - unfold subscription_verify, subscription_gateway, verification, verified. solve_idles.
  - unfold subscription_submit.
    apply wp_idles_bind; [done|by apply idles_call| |by intros h' e Hi x].
    intros h' now Hi. destruct (_ <=? now)%Z.
    { intros x [= <-] _. apply (idled_dispatched _ _ Hi). }
    rewrite <-(idled_dispatched _ _ Hi).
    apply (wp_submission (g := SUBSCRIPTIONS) _ ltac:(done) s); [done|auto|].
    intros [o|]; [|done]. apply idles_to_lift_bind. intros []; [|done]. by apply idles_to_lift_bind.
Qed.

Lemma draft_lines_idles mapping exponent lines : idles (draft_lines mapping exponent lines).
Proof.
  induction lines as [|l lines IH]; cbn [draft_lines]; [exact I|].
  destruct (mapping !! _); [|exact I]. apply idles_bind; [by unfold _minor_units; destruct (_ || _)|].
  intros amount. apply idles_bind; [done|]. by intros.
Qed.

Lemma observe_notes_idles pages snapshot after found : idles (observe_notes pages snapshot after found).
Proof.
  revert after found. induction pages as [|pages IH]; intros after found; cbn [observe_notes]; [done|].
  apply idles_bind; [by apply idles_call|]. intros page. apply idles_bind; [apply idles_lift|].
  intros found'. destruct (negb _).
  - destruct found' as [m|]; [|done]. apply idles_bind; [by apply idles_call|]. intros note.
    destruct (negb _); [done|]. apply idles_bind; [apply idles_lift|]. by intros [].
  - destruct (list.last _); [|done]. destruct (bool_decide _); [done|apply IH].
Qed.

Hint Resolve draft_lines_idles observe_notes_idles : idles.

Lemma credit_current_checked policy s es :
  runs (credit_current policy s) es (Ret true) → provider_checked CREDIT_NOTES s es.
Proof.
  unfold credit_current. destruct (_ || _); [by intros []%not_false_run|].
  intros (fingerprint & _ & H)%runs_lift_bind_inv.
  destruct (_ || _); [by apply not_false_run in H|].
  apply runs_call_bind_inv in H as (binding & es1 & -> & H). case_bool_decide as Hb; [|by apply not_false_run in H].
  cbn [negb] in H. subst binding. apply runs_call_bind_inv in H as (o & es2 & -> & H).
  destruct (bool_decide _) eqn:Ho; [|by apply not_false_run in H]. apply bool_decide_eq_true in Ho as ->.
  destruct (invoice_bound_to _ _); [|by apply not_false_run in H].
  destruct (invoice_permits _ _ _) eqn:Hp; [|by apply not_false_run in H]. cbn [andb negb orb] in H.
  apply runs_call_bind_inv in H as (c & es3 & -> & H). apply runs_ret_inv in H as [-> H].
  symmetry in H. apply bool_decide_eq_true in H as ->.
  split; [right; left|]. split; [done|right; right; left].
Qed.

#[export] Instance credit_laws policy : WorkflowLaws (credit_workflow policy).
Proof.
  constructor; intros; cbn [_prepare _current _verify _submit credit_workflow].
  - unfold credit_prepare, credit_gateway, preparation_error, _minor_units. solve_idles.
  - unfold credit_current, credit_gateway. solve_idles.
  - match goal with H : runs _ _ _ |- _ => exact (credit_current_checked _ _ _ H) end.
  - unfold credit_verify, established_note, credit_gateway, verification, verified. solve_idles.
  - unfold credit_submit.
    apply wp_idles_bind; [done|by apply idles_call| |by intros h' e Hi x].
    intros h' now Hi. destruct (deadline <=? now)%Z.
    { intros x [= <-] _. apply (idled_dispatched _ _ Hi). }
    rewrite <-(idled_dispatched _ _ Hi).
    apply (wp_submission (g := CREDIT_NOTES) _ ltac:(done) s); [done|auto|].
    intros [o|]; [|done]. apply idles_to_lift_bind. intros b. destruct (negb b || _); [done|].
    by apply idles_to_lift_bind.
Qed.

(** ** Refunds *)

Lemma observe_pages_idles pages intent after found : idles (observe_pages pages intent after found).
Proof.
  revert after found. induction pages as [|pages IH]; intros after found; cbn [observe_pages]; [done|].
  apply idles_bind; [by apply idles_call|]. intros page. apply idles_bind; [apply idles_lift|].
  intros found'. destruct (negb _).
  - destruct found' as [m|]; [|done]. apply idles_bind; [by apply idles_call|]. intros observed.
    apply idles_bind; [apply idles_lift|]. intros b. by destruct (negb b || _).
  - destruct (list.last _); [|done]. destruct (bool_decide _); [done|apply IH].
Qed.

Hint Resolve observe_pages_idles : idles.

Lemma refund_resolve_idles self s context : idles (refund_resolve self s context).
Proof. unfold refund_resolve, gateway. solve_idles. Qed.

Lemma submit_guarantee (G : history → op → Prop) (s : RefundSnapshot) deadline h :
  (∀ h' o, idle o = true → G h' o) →
  (∀ charge now, charge_permits charge (sn_intent s) = true → (now < deadline)%Z →
     G (h ++ [Event (Stripe (Refunds (Charge (sn_intent s)))) (Ok charge); Event ClockNow (Ok now)])
       (submission REFUNDS s)) →
  wp G anything (submit (sn_intent s) (Some deadline))
    (λ h' r, ∀ x, r = Ok x → not_submitted (xr_status x) = true → dispatched h' = dispatched h) h.
Proof.
  intros HG Hgate. unfold submit. apply wp_catch_call; [by apply HG| | |done].
  2:{ intros e x [= <-] _. by rewrite dispatched_idle. }
  intros charge. destruct (charge_permits charge (sn_intent s)) eqn:Hc.
  2:{ intros x [= <-] _. by rewrite dispatched_idle. }
  cbn [negb expired]. do 2 apply wp_bind. apply wp_call; [by apply HG|]. intros [now|e] _; [|done].
  rewrite <-app_assoc. cbn [app]. destruct (deadline <=? now)%Z eqn:Hnow; cbn [wp mret prog_ret].
  { intros x [= <-] _. rewrite dispatched_app. apply orb_false_r. }
  assert (dispatched h = dispatched (h ++ [Event (Stripe (Refunds (Charge (sn_intent s)))) (Ok charge);
    Event ClockNow (Ok now)])) as -> by (rewrite dispatched_app; simpl; by rewrite orb_false_r).
  apply (wp_submission (g := REFUNDS) _ HG s); [done|apply Hgate; [done|lia]|].
  intros [o|]; [|done]. apply idles_to_lift_bind. intros []; [|done]. by apply idles_to_lift_bind.
Qed.

Abbreviation refund_G self s context := (execution_guarantee REFUNDS (rw_authorization self) s context).

(** From the reservation of a refund on. *)
Lemma refund_dispatch_guarantee self (s : RefundSnapshot) context h1 record deadline :
  dispatched h1 = false →
  Event (Store (Get (xc_tenant_reference context) (xc_proposal_reference context))) (Ok record) ∈ h1 →
  admission record = Some deadline →
  wp (refund_G self s context) anything (refund_dispatch self s context deadline) honest
    (h1 ++ [acquired REFUNDS s deadline]).
Proof.
  intros Hd Hget Hadm. unfold refund_dispatch.
  assert (Hd0 : dispatched (h1 ++ [acquired REFUNDS s deadline]) = false) by (rewrite dispatched_app, Hd; done).
  apply wp_allowed; [|intros e; by apply honest_quiet; rewrite dispatched_idle].
  intros r. rewrite <-(dispatched_idle _ (CanExecute (rw_authorization self) (model_of REFUNDS s) context) (Ok r))
    in Hd0 by done.
  destruct (az_allowed r) eqn:Ha; [|by apply honest_quiet]. cbn [negb].
  eapply wp_mono; [apply submit_guarantee; [apply guarantee_idle|]|].
  - intros charge now Hc Hnow. rewrite <-!app_assoc. cbn [app].
    eapply submission_guarantee; [|exact Hget|exact Hadm| |apply idled_refl].
    + by rewrite dispatched_app, Hd.
    + split; [|split]; [exists r; split; [left|done]| |].
      * exists charge. split; [right; left|done].
      * exists now. split; [right; right; left|done].
  - intros h' x _ Hx y Hy Hn. by rewrite (Hx y Hy Hn).
Qed.

Lemma refund_execute_guarantee self s context execution_precondition :
  wp (refund_G self s context) anything (refund_execute self s context execution_precondition) honest [].
Proof.
  unfold refund_execute.
  apply wp_idles_bind; [apply guarantee_idle|apply refund_resolve_idles| |].
  2:{ intros h' e Hi. apply honest_quiet. by rewrite (idled_dispatched _ _ Hi). }
  intros h0 resolved Hi0. assert (Hd0 : dispatched h0 = false) by (by rewrite (idled_dispatched _ _ Hi0)).
  apply wp_idles_bind; [apply guarantee_idle|apply allowed_idles| |].
  2:{ intros h' e Hi. apply honest_quiet. by rewrite (idled_dispatched _ _ Hi). }
  intros h1 permitted Hi1. assert (Hd1 : dispatched h1 = false) by (by rewrite (idled_dispatched _ _ Hi1)).
  apply wp_idles_bind; [apply guarantee_idle|apply idles_lift| |].
  2:{ intros h' e Hi. apply honest_quiet. by rewrite (idled_dispatched _ _ Hi). }
  intros h2 effect Hi2. assert (Hd2 : dispatched h2 = false) by (by rewrite (idled_dispatched _ _ Hi2)).
  destruct (_ || negb permitted); [by apply honest_quiet|].
  apply stored_guarantee; [done|]. intros; by eapply refund_dispatch_guarantee.
Qed.

Lemma stripe_execute_guarantee w s context execution_precondition :
  wp (execution_guarantee (group_of w) (authorization_of w) s context) anything
    (stripe_execute w s context execution_precondition) honest [].
Proof.
  destruct w as [w|policy a|policy a]; [apply refund_execute_guarantee| |].
  - apply (execute_guarantee SUBSCRIPTIONS (L := subscription_laws policy)).
  - apply (execute_guarantee CREDIT_NOTES (L := credit_laws policy)).
Qed.

(** C12: whatever the host, the store and Stripe answer, one execution of a
    refund, a cancellation or a credit note calls Stripe's mutation at most
    once, for the snapshot it was given, after reading the stored record, after
    acquiring the reservation up to that record's earliest deadline, and after
    asking the authority and the provider again and reading the clock before
    the deadline; it notes "no submission" and reports a known failure or a
    stale state only when it did not call it. *)
Theorem stripe_submits_once (w : stripe_workflow) (s : snapshot_of (group_of w))
  (context : ExecutionContext) (execution_precondition : pystr) (es : history)
  (q : prog ExecutionResult) (Hruns : runs (stripe_execute w s context execution_precondition) es q) :
  (∀ es1 e es2, es = es1 ++ e :: es2 → dispatches (ev_op e) = true →
     ev_op e = submission (group_of w) s ∧
     submission_gate (group_of w) (authorization_of w) s context es1) ∧
  (∀ es1 e es2 g t effect, es = es1 ++ e :: es2 →
     ev_op e = Stripe (Repository g (RecordNoSubmission t effect)) → dispatched es1 = false) ∧
  (∀ x, q = Ret x → not_submitted (xr_status x) = true → dispatched es = false).
Proof.
  destruct (wp_runs _ _ _ _ es [] _ (stripe_execute_guarantee w s context execution_precondition) Hruns)
    as [Hq Hes]; [done|]. split_and!.
  - intros es1 e es2 He Hd. by apply (proj1 (Hes es1 e es2 He)).
  - intros es1 e es2 g t effect He Ho. by eapply (proj2 (Hes es1 e es2 He)).
  - intros x -> Hn. by apply (Hq x).
Qed.

End Groups.
