(* ===== verification/StripeVerdicts.v ===== *)
(** What a verification of a Stripe action rests on: a completion is what the
    provider showed of the one object that carries the correlation of the
    intent; absence is never called final. *)

From S2P Require Import Prelude Models Canonical Authority Receipts Registry StripeModels StoreBase.
From S2P Require Import StoreContract Recovery Program StripeOperation StripeRefunds StripeBilling StripeActions.
From S2P Require Import StripeSafety.

Section Verdicts.
Context `{U : Unicode, D : PyDump}.

(** * What the provider was seen to show *)

(** The refunds of the pages read, and those with a correlation. *)
Definition listed_in (intent : RefundIntent) (e : event) : list RefundObservation :=
  match e with
  | Event (Stripe (Refunds (ListRefunds i after))) (Ok page) =>
      if bool_decide (ri_charge_id i = ri_charge_id intent) then rg_refunds page else []
  | _ => []
  end.

Definition listed_refunds (intent : RefundIntent) (es : history) : list RefundObservation :=
  flat_map (listed_in intent) es.

Definition carrying (c : pystr) (l : list RefundObservation) : list RefundObservation :=
  List.filter (λ o, bool_decide (ro_correlation o = c)) l.

(** The effect of a snapshot, as an answer of the provider in [es] shows it. *)
Definition shown (g : StripeHostActionGroup) : snapshot_of g → history → Prop :=
  match g with
  | REFUNDS => λ s es,
      ∃ o m c, refund_correlation (sn_intent s) = Ok c ∧
        carrying c (listed_refunds (sn_intent s) es) = [m] ∧
        Event (Stripe (Refunds (RetrieveRefund (sn_intent s) (ro_refund_id m)))) (Ok o) ∈ es ∧
        ro_refund_id o = ro_refund_id m ∧ refund_matches o (sn_intent s) = Ok true ∧
        ro_status o = RF_succeeded
  | SUBSCRIPTIONS => λ s es,
      ∃ o, Event (Stripe (Subscriptions (RetrieveSubscription (cs_binding s)))) (Ok o) ∈ es ∧
        matches_result s o = Ok true
  | CREDIT_NOTES => λ s es,
      ∃ o id, Event (Stripe (CreditNotes (RetrieveNote (dr_invoice (ns_draft s)) id))) (Ok o) ∈ es ∧
        no_note_id o = id ∧ note_matches o s = Ok true ∧ no_status o = CN_issued ∧
        (∀ t, no_balance_transaction_id o = Some t →
           ∃ credit, Event (Stripe (CreditNotes (CustomerCredit (dr_invoice (ns_draft s)) t))) (Ok credit) ∈ es ∧
             credit_consistent credit o t s = true)
  end.

(** * Inversion *)

Lemma runs_catch_inv {A B} (p : prog A) (f : option A → prog B) es b :
  runs (catch_boundary p ≫= f) es (Ret b) →
  ∃ es1 es2, es = es1 ++ es2 ∧
    ((∃ a, runs p es1 (Ret a) ∧ runs (f (Some a)) es2 (Ret b)) ∨ runs (f None) es2 (Ret b)).
Proof.
  intros (es1 & es2 & r & -> & H1 & H2)%runs_bind_inv. exists es1, es2. split; [done|].
  unfold catch_boundary in H1. apply runs_bind_inv in H1 as (es3 & es4 & x & -> & H3 & H4).
  apply runs_attempt_inv in H3. destruct x as [a|e].
  - apply runs_ret_inv in H4 as [-> ->]. left. exists a. by rewrite app_nil_r.
  - right. destruct (is_boundary_error e); [by apply runs_ret_inv in H4 as [_ ->]|].
    by apply runs_raise_inv in H4.
Qed.

Lemma elem_of_cons_r {A} (x y : A) l : x ∈ l → x ∈ y :: l.
Proof. by right. Qed.

Lemma elem_of_app_r {A} (x : A) l k : x ∈ k → x ∈ l ++ k.
Proof. intros. apply elem_of_app. by right. Qed.

Lemma elem_of_app_l {A} (x : A) l k : x ∈ l → x ∈ l ++ k.
Proof. intros. apply elem_of_app. by left. Qed.

(** ** Refunds *)

Lemma correlated_carrying intent c l found r :
  refund_correlation intent = Ok c → correlated intent l found = Ok r →
  option_list r = option_list found ++ carrying c l.
Proof.
  intros Hc. revert found. induction l as [|o l IH]; intros found; cbn [correlated carrying List.filter].
  { intros [= ->]. by rewrite app_nil_r. }
  rewrite Hc. cbn [mbind]. simpl. destruct (bool_decide _); cbn [negb]; [|apply IH].
  destruct found as [m|]; [done|]. simpl. destruct (refund_matches o intent) as [[]|]; [|done..].
  simpl. by intros ->%IH.
Qed.

Lemma refund_matches_inv o intent :
  refund_matches o intent = Ok true → ∃ c, refund_correlation intent = Ok c ∧ ro_correlation o = c.
Proof.
  unfold refund_matches. destruct (_ && _); [|done].
  destruct (refund_correlation intent) as [c|]; [|done]. intros H%Ok_inj.
  exists c. split; [done|]. by apply bool_decide_eq_true in H.
Qed.

Lemma listed_cons intent after page es :
  listed_refunds intent (Event (Stripe (Refunds (ListRefunds intent after))) (Ok page) :: es) =
  rg_refunds page ++ listed_refunds intent es.
Proof. unfold listed_refunds. simpl. by rewrite bool_decide_eq_true_2. Qed.

Lemma carrying_app c l k : carrying c (l ++ k) = carrying c l ++ carrying c k.
Proof. apply List.filter_app. Qed.

Lemma observe_pages_inv c pages intent after found es o :
  refund_correlation intent = Ok c → runs (observe_pages pages intent after found) es (Ret (Some o)) →
  ∃ m, option_list found ++ carrying c (listed_refunds intent es) = [m] ∧
    Event (Stripe (Refunds (RetrieveRefund intent (ro_refund_id m)))) (Ok o) ∈ es ∧
    ro_refund_id o = ro_refund_id m ∧ refund_matches o intent = Ok true.
Proof.
  intros Hc. revert after found es. induction pages as [|pages IH]; intros after found es;
    cbn [observe_pages]; [by intros ?%runs_raise_inv|].
  intros (page & es1 & -> & H)%runs_call_bind_inv.
  apply runs_lift_bind_inv in H as (found' & Hf & H). apply (correlated_carrying _ _ _ _ _ Hc) in Hf.
  rewrite listed_cons, carrying_app, app_assoc, <-Hf.
  destruct (rg_has_more page); cbn [negb] in H.
  - destruct (list.last _) as [l|]; [|by apply runs_raise_inv in H].
    destruct (bool_decide _); [by apply runs_raise_inv in H|].
    apply IH in H as (m & Hm & Ho & Hrest). exists m. split; [done|]. split; [by apply elem_of_cons_r|done].
  - destruct found' as [m|]; [|by apply runs_ret_inv in H as [_ [=]]].
    apply runs_call_bind_inv in H as (o' & es2 & -> & H).
    apply runs_lift_bind_inv in H as (b & Hb & H).
    destruct b; cbn [negb orb] in H; [|by apply runs_raise_inv in H].
    case_bool_decide as Hid; cbn [negb] in H; [|by apply runs_raise_inv in H].
    apply runs_ret_inv in H as [-> [= ->]]. exists m. split; [done|].
    split; [by apply elem_of_cons_r; left|done].
Qed.

(** ** Credit notes *)

Lemma observe_notes_inv pages s after found es o :
  runs (observe_notes pages s after found) es (Ret (Some o)) →
  ∃ id, Event (Stripe (CreditNotes (RetrieveNote (dr_invoice (ns_draft s)) id))) (Ok o) ∈ es ∧
    no_note_id o = id ∧ note_matches o s = Ok true.
Proof.
  revert after found es. induction pages as [|pages IH]; intros after found es;
    cbn [observe_notes]; [by intros ?%runs_raise_inv|].
  intros (page & es1 & -> & H)%runs_call_bind_inv.
  apply runs_lift_bind_inv in H as (found' & _ & H). destruct (ng_has_more page); cbn [negb] in H.
  - destruct (list.last _) as [l|]; [|by apply runs_raise_inv in H].
    destruct (bool_decide _); [by apply runs_raise_inv in H|].
    apply IH in H as (id & Ho & Hrest). exists id. split; [by apply elem_of_cons_r|done].
  - destruct found' as [m|]; [|by apply runs_ret_inv in H as [_ [=]]].
    apply runs_call_bind_inv in H as (o' & es2 & -> & H).
    case_bool_decide as Hid; cbn [negb] in H; [|by apply runs_raise_inv in H].
    apply runs_lift_bind_inv in H as (b & Hb & H). destruct b; cbn [negb] in H; [|by apply runs_raise_inv in H].
    apply runs_ret_inv in H as [-> [= ->]]. exists (lk_note_id m).
    split; [by apply elem_of_cons_r; left|done].
Qed.

(** ** Around a verification *)

Definition unlisting (o : op) : bool :=
  match o with Stripe (Refunds (ListRefunds _ _)) => false | _ => true end.

Lemma listed_in_unlisting intent e : unlisting (ev_op e) = true → listed_in intent e = [].
Proof.
  intros H. destruct e as [[] r]; try reflexivity.
  all: match goal with o : stripe_op |- _ => by destruct o as [| [] | |] end.
Qed.

Lemma listed_unlisting intent es :
  Forall (λ e, unlisting (ev_op e) = true) es → listed_refunds intent es = [].
Proof.
  induction 1 as [|e es He _ IH]; [done|]. unfold listed_refunds in *. cbn [flat_map].
  by rewrite IH, listed_in_unlisting.
Qed.

Lemma listed_app intent es es' :
  listed_refunds intent (es ++ es') = listed_refunds intent es ++ listed_refunds intent es'.
Proof. apply flat_map_app. Qed.

Lemma shown_extend g s es1 es es2 :
  Forall (λ e, unlisting (ev_op e) = true) (es1 ++ es2) → shown g s es → shown g s (es1 ++ es ++ es2).
Proof.
  intros [H1 H2]%Forall_app.
  assert (Hin : ∀ e, e ∈ es → e ∈ es1 ++ es ++ es2).
  { intros e He. by apply elem_of_app_r, elem_of_app_l. }
  destruct g; simpl.
  - intros (o & m & c & Hc & Hm & Ho & Hrest). exists o, m, c. split; [done|]. split; [|by split; [apply Hin|]].
    by rewrite !listed_app, (listed_unlisting _ es1), (listed_unlisting _ es2), app_nil_r.
  - intros (o & Ho & Hm). exists o. split; [by apply Hin|done].
  - intros (o & id & Ho & Hid & Hm & Hs & Hb). exists o, id. split_and!; [by apply Hin|done..|].
    intros t Ht. destruct (Hb t Ht) as (credit & Hc & Hcons). exists credit. split; [by apply Hin|done].
Qed.

(** A verdict on a snapshot, given what was seen. *)
Definition grounded_verdict (g : StripeHostActionGroup) (s : snapshot_of g) (x : VerificationResult)
  (es : history) : Prop :=
  vr_status x ≠ VS_AUTHORITATIVE_FINAL_ABSENCE ∧
  (vr_status x = VS_VERIFIED_COMPLETION → shown g s es).

Lemma refund_verdict self (s : RefundSnapshot) es x :
  runs (verify self (sn_intent s)) es (Ret x) → grounded_verdict REFUNDS s x es.
Proof.
  unfold verify, grounded_verdict. intros (es1 & es2 & -> & [(r & H1 & H2)|H2])%runs_catch_inv;
    [|by apply runs_ret_inv in H2 as [_ ->]].
  destruct r as [o|]; [|by apply runs_ret_inv in H2 as [_ ->]].
  case_bool_decide as Hp; [by apply runs_ret_inv in H2 as [_ ->]|].
  apply runs_lift_bind_inv in H2 as (c & Hc & H2). apply runs_ret_inv in H2 as [-> ->].
  cbn [vr_status verified]. case_bool_decide as Hs; split; try done. intros _.
  apply runs_call_bind_inv in H1 as (charge & es3 & -> & H1).
  destruct (charge_bound _ _); cbn [negb] in H1; [|by apply runs_raise_inv in H1].
  destruct (observe_pages_inv _ _ _ _ _ _ _ Hc H1) as (m & Hm & Ho & Hid & Hmatch).
  rewrite app_nil_r. rewrite <-(app_nil_r es3). apply (shown_extend REFUNDS s [_] es3 []); [by repeat constructor|].
  by exists o, m, c.
Qed.

Lemma subscription_verdict (s : SubscriptionCancellationSnapshot) es x :
  runs (subscription_verify s) es (Ret x) → grounded_verdict SUBSCRIPTIONS s x es.
Proof.
  unfold subscription_verify, grounded_verdict. intros (es1 & es2 & -> & [(o & H1 & H2)|H2])%runs_catch_inv;
    [|by apply runs_ret_inv in H2 as [_ ->]].
  apply runs_lift_bind_inv in H2 as (b & Hb & H2). destruct b; cbn [negb] in H2;
    [|by apply runs_ret_inv in H2 as [_ ->]].
  apply runs_lift_bind_inv in H2 as (c & Hc & H2). apply runs_ret_inv in H2 as [-> ->].
  split; [done|]. intros _. apply (runs_call_inv (Stripe (Subscriptions (RetrieveSubscription (cs_binding s))))) in H1 as ->. exists o. split; [left|done].
Qed.

Lemma credit_verdict (s : CreditNoteSnapshot) es x :
  runs (credit_verify s) es (Ret x) → grounded_verdict CREDIT_NOTES s x es.
Proof.
  unfold credit_verify, grounded_verdict. intros (es1 & es2 & -> & [(r & H1 & H2)|H2])%runs_catch_inv;
    [|by apply runs_ret_inv in H2 as [_ ->]].
  destruct r as [o|]; [|by apply runs_ret_inv in H2 as [_ ->]].
  apply runs_lift_bind_inv in H2 as (c & Hc & H2). apply runs_ret_inv in H2 as [-> ->].
  cbn [vr_status verified]. case_bool_decide as Hs; split; try done. intros _. rewrite app_nil_r.
  unfold established_note in H1. apply runs_call_bind_inv in H1 as (invoice & es3 & -> & H1).
  destruct (invoice_bound_to _ _); cbn [negb] in H1; [|by apply runs_raise_inv in H1].
  apply runs_bind_inv in H1 as (es4 & es5 & found & -> & H3 & H4).
  destruct found as [note|]; [|by apply runs_ret_inv in H4 as [_ [=]]].
  apply observe_notes_inv in H3 as (id & Ho & Hid & Hm).
  assert (note = o ∧ ∀ t, no_balance_transaction_id o = Some t →
    ∃ credit, Event (Stripe (CreditNotes (CustomerCredit (dr_invoice (ns_draft s)) t))) (Ok credit) ∈ es5 ∧
      credit_consistent credit o t s = true) as [-> Hcredit].
  { destruct (no_status note) eqn:Hn; destruct (no_balance_transaction_id note) as [t|] eqn:Ht.
    - apply runs_call_bind_inv in H4 as (credit & es6 & -> & H4).
      destruct (credit_consistent credit note t s) eqn:Hcc; cbn [negb] in H4; [|by apply runs_raise_inv in H4].
      apply runs_ret_inv in H4 as [-> [= ->]]. split; [done|]. rewrite Ht. intros t' [= <-].
      exists credit. split; [left|done].
    - apply runs_ret_inv in H4 as [-> [= ->]]. split; [done|]. by rewrite Ht.
    - apply runs_ret_inv in H4 as [-> [= ->]]. congruence.
    - apply runs_ret_inv in H4 as [-> [= ->]]. split; [done|]. by rewrite Ht. }
  exists o, id. split_and!; [by apply elem_of_cons_r, elem_of_app_l|done..|].
  intros t Ht. destruct (Hcredit t Ht) as (credit & Hcc & Hcons). exists credit.
  split; [by apply elem_of_cons_r, elem_of_app_r|done].
Qed.

(** ** The verdict of a workflow *)

Lemma bound_to_context_true g s context :
  bound_to_context g s context = Ok true →
  tenant_of g s = xc_tenant_reference context ∧ effect_of g s = Ok (xc_semantic_effect_reference context).
Proof.
  unfold bound_to_context. case_bool_decide as Ht; [|done].
  destruct (effect_of g s) as [e|]; [|done]. intros H%Ok_inj. apply bool_decide_eq_true in H as ->. done.
Qed.

(** The intent the repository holds for the context. *)
Definition loaded (g : StripeHostActionGroup) (context : ExecutionContext) (s : snapshot_of g) : event :=
  Event (Stripe (Repository g (Load (xc_tenant_reference context) (xc_semantic_effect_reference context))))
    (Ok s).

(** The shape of a verification: the intent, what looking it up did, and the
    record of an outcome; or an intent of another context. *)
Definition verification_shape (g : StripeHostActionGroup) (context : ExecutionContext) (es : history)
  (x : VerificationResult) : Prop :=
  vr_status x = VS_TARGET_UNAVAILABLE ∧ vr_result x = None ∨
  ∃ s es1 es2, es = loaded g context s :: es1 ++ es2 ∧
    tenant_of g s = xc_tenant_reference context ∧
    effect_of g s = Ok (xc_semantic_effect_reference context) ∧ grounded_verdict g s x es1 ∧
    (vr_result x = None ∧ es2 = [] ∨
     ∃ outcome, vr_result x = Some outcome ∧
       es2 = [Event (Stripe (Repository g (RecordOutcome (xc_tenant_reference context)
                (xc_semantic_effect_reference context) outcome))) (Ok ())]).

Lemma workflow_verify_shape g {C} {W : Workflow g C} context es x :
  (∀ s es x, runs (_verify s) es (Ret x) → grounded_verdict g s x es) →
  runs (workflow_verify g (W := W) context) es (Ret x) → verification_shape g context es x.
Proof.
  intros Hv (s & es1 & -> & H)%runs_call_bind_inv.
  apply runs_lift_bind_inv in H as ([] & Hb & H); cbn [negb] in H;
    [|left; by apply runs_ret_inv in H as [_ ->]].
  right. apply bound_to_context_true in Hb as [Ht He].
  apply runs_bind_inv in H as (es2 & es3 & y & -> & H1 & H2).
  destruct (vr_result y) as [outcome|] eqn:Hr.
  - apply runs_lift_bind_inv in H2 as (e & He' & H2). rewrite He in He'. apply Ok_inj in He' as <-.
    apply runs_call_bind_inv in H2 as ([] & es4 & -> & H2). apply runs_ret_inv in H2 as [-> ->].
    eexists s, es2, [_]. split_and!; [done|done|done|by apply Hv|]. right. by exists outcome.
  - apply runs_ret_inv in H2 as [-> ->]. exists s, es2, [].
    split_and!; [done|done|done|by apply Hv|by left].
Qed.

Lemma refund_verify_shape self context es x :
  runs (refund_verify self context) es (Ret x) → verification_shape REFUNDS context es x.
Proof.
  intros (es0 & es3 & y & -> & (s & es1 & -> & H)%runs_call_bind_inv & H2)%runs_bind_inv.
  apply runs_lift_bind_inv in H as ([] & Hb & H); cbn [negb] in H.
  2:{ left. apply runs_ret_inv in H as [_ ->]. by apply runs_ret_inv in H2 as [_ ->]. }
  right. apply bound_to_context_true in Hb as [Ht He]. apply refund_verdict in H.
  destruct (vr_result y) as [outcome|] eqn:Hr.
  - apply runs_call_bind_inv in H2 as ([] & es4 & -> & H2). apply runs_ret_inv in H2 as [-> ->].
    eexists s, es1, [_]. split_and!; [done|done|done|done|]. right. by exists outcome.
  - apply runs_ret_inv in H2 as [-> ->]. exists s, es1, []. split_and!; [done|done|done|done|by left].
Qed.

Lemma stripe_verify_shape w context es x :
  runs (stripe_verify w context) es (Ret x) → verification_shape (group_of w) context es x.
Proof.
  destruct w as [w|policy a|policy a]; [apply refund_verify_shape| |];
    apply workflow_verify_shape; intros; [by apply subscription_verdict|by apply credit_verdict].
Qed.

(** C15: a verification of a Stripe action reports completion only for the intent
    the repository holds for the context, and only when the provider showed it
    in this verification: the only listed refund that carries the intent's
    correlation, succeeded and matching it in charge, currency and amount; the
    subscription exactly as the change leaves it; the issued credit note with
    its lines, total and customer credit.  It never calls an absence final, so
    no Stripe action is ever sent again, and an outcome it reports is the one it
    recorded. *)
Theorem stripe_verdicts_grounded (w : stripe_workflow) (context : ExecutionContext) (es : history)
  (x : VerificationResult) (Hruns : runs (stripe_verify w context) es (Ret x)) :
  vr_status x ≠ VS_AUTHORITATIVE_FINAL_ABSENCE ∧
  (vr_status x = VS_VERIFIED_COMPLETION →
     ∃ s, loaded (group_of w) context s ∈ es ∧ tenant_of (group_of w) s = xc_tenant_reference context ∧
       effect_of (group_of w) s = Ok (xc_semantic_effect_reference context) ∧ shown (group_of w) s es) ∧
  (∀ outcome, vr_result x = Some outcome →
     Event (Stripe (Repository (group_of w) (RecordOutcome (xc_tenant_reference context)
       (xc_semantic_effect_reference context) outcome))) (Ok ()) ∈ es).
Proof.
  apply stripe_verify_shape in Hruns as [[Hs Hr]|(s & es1 & es2 & -> & Ht & He & [Hf Hc] & Hrec)].
  { rewrite Hs, Hr. done. }
  assert (Forall (λ e, unlisting (ev_op e) = true) es2) as Hu.
  { destruct Hrec as [[_ ->]|(o & _ & ->)]; by repeat constructor. }
  split_and!; [done| |].
  - intros Hv. exists s. split_and!; [left|done|done|].
    apply (shown_extend _ s [_] es1 es2); [|by apply Hc]. constructor; [done|exact Hu].
  - intros o Ho. destruct Hrec as [[Hn _]|(o' & Ho' & ->)]; [congruence|].
    rewrite Ho in Ho'. injection Ho' as <-. apply elem_of_cons_r, elem_of_app_r. left.
Qed.

End Verdicts.
