(* ===== verification/StripeLedger.v ===== *)
(** The durable intent ledger a host keeps for its Stripe actions
    ([integrations/stripe/postgres.py] and its schema): one table of intents,
    each ready, reserved or closed.

    Parameters ([LedgerServer]): what [jsonb] keeps of a document, Python's
    [==] on decoded documents, and the digest of a document's JSON text. *)

From S2P Require Import Prelude Models Canonical Authority Receipts Registry StripeModels.

Inductive StripeLedgerPhase := LP_READY | LP_RESERVED | LP_CLOSED.
Inductive CloseKind := no_submission | outcome.

#[export] Instance StripeLedgerPhase_eq_dec : EqDecision StripeLedgerPhase.
Proof. solve_decision. Defined.
#[export] Instance CloseKind_eq_dec : EqDecision CloseKind.
Proof. solve_decision. Defined.
#[export] Instance StripeHostActionGroup_countable : Countable StripeHostActionGroup.
Proof.
  refine (inj_countable' (λ g, match g with REFUNDS => 0 | SUBSCRIPTIONS => 1 | CREDIT_NOTES => 2 end)
    (λ n, match n with 0 => REFUNDS | 1 => SUBSCRIPTIONS | _ => CREDIT_NOTES end) _). by intros [].
Defined.

(** The primary key, and a row without it. *)
Abbreviation IntentKey := (pystr * StripeHostActionGroup * pystr)%type.

Record StripeLedgerEntry := mkStripeLedgerEntry {
  le_resource_reference : pystr;
  le_requester_reference : pystr;
  le_snapshot_digest : pystr;
  le_snapshot_data : JsonObject;
  le_phase : StripeLedgerPhase;
  le_reserved_at : option datetime;
  le_closed_at : option datetime;
  le_close_kind : option CloseKind;
  le_outcome_data : option JsonObject
}.

(** The table and the readings of the server's clock. *)
Record StripeLedger := mkStripeLedger {
  intents : gmap IntentKey StripeLedgerEntry;
  ledger_clock : nat → datetime;
  ledger_readings : nat
}.

Class LedgerServer := {
  jsonb : JsonObject → option JsonObject;
  document_eqb : JsonObject → JsonObject → bool;
  snapshot_digest : JsonObject → pystr
}.

Inductive StripeHostRememberStatus := RM_CREATED | RM_MATCHED | RM_CONFLICT.
Inductive StripeHostReserveStatus :=
  | RV_ACQUIRED | RV_ALREADY_SUBMITTED | RV_UNAVAILABLE | RV_STALE.
Inductive StripeHostCloseStatus := CS_RECORDED | CS_MATCHED | CS_CONFLICT.

#[export] Instance StripeHostReserveStatus_eq_dec : EqDecision StripeHostReserveStatus.
Proof. solve_decision. Defined.

(** * Rows *)

(** The CHECK constraints of the table, but for the format of a digest. *)
Definition intent_checks (e : StripeLedgerEntry) : bool :=
  let reserved := bool_decide (is_Some (le_reserved_at e)) in
  let closed := bool_decide (is_Some (le_closed_at e)) in
  Bool.eqb (bool_decide (le_phase e = LP_READY)) (negb reserved && negb closed)
  && Bool.eqb (bool_decide (le_phase e = LP_RESERVED)) (reserved && negb closed)
  && Bool.eqb (bool_decide (le_phase e = LP_CLOSED)) closed
  && Bool.eqb (bool_decide (le_phase e = LP_CLOSED)) (bool_decide (is_Some (le_close_kind e)))
  && Bool.eqb (bool_decide (le_close_kind e = Some outcome)) (bool_decide (is_Some (le_outcome_data e))).

(** The trigger [enforce_intent_update]: the binding stays, a closed intent
    stays, and phases only advance. *)
Definition enforce_intent_update (old new : StripeLedgerEntry) : bool :=
  bool_decide (le_resource_reference new = le_resource_reference old)
  && bool_decide (le_requester_reference new = le_requester_reference old)
  && bool_decide (le_snapshot_digest new = le_snapshot_digest old)
  && bool_decide (le_snapshot_data new = le_snapshot_data old)
  && negb (bool_decide (le_phase old = LP_CLOSED))
  && (bool_decide (le_phase old = le_phase new)
      || (bool_decide (le_phase old = LP_READY) && bool_decide (le_phase new ∈ [LP_RESERVED; LP_CLOSED]))
      || (bool_decide (le_phase old = LP_RESERVED) && bool_decide (le_phase new = LP_CLOSED))).

Definition ledger_txn (A : Type) : Type := StripeLedger → res A * StripeLedger.

Definition host_error (message : pystr) : exn_kind := OtherException message.

Definition ledger_now (db : StripeLedger) : datetime := ledger_clock db (ledger_readings db).
Definition tick_ledger (db : StripeLedger) : StripeLedger :=
  mkStripeLedger (intents db) (ledger_clock db) (S (ledger_readings db)).
Definition put_intent (k : IntentKey) (e : StripeLedgerEntry) (db : StripeLedger) : StripeLedger :=
  mkStripeLedger (<[k := e]> (intents db)) (ledger_clock db) (ledger_readings db).

(** An UPDATE of the row at [k]: the trigger and the constraints refuse it, or
    it is written. *)
Definition update_intent {A} (k : IntentKey) (old new : StripeLedgerEntry) (answer : A) : ledger_txn A := λ db,
  if enforce_intent_update old new && intent_checks new then (Ok answer, put_intent k new db)
  else (fail (host_error "CheckViolation"), db).

Section Ledger.
Context `{V : LedgerServer}.

(** * The methods *)

Definition ready_entry (resource_reference requester_reference : pystr) (digest : pystr)
  (data : JsonObject) : StripeLedgerEntry :=
  mkStripeLedgerEntry resource_reference requester_reference digest data LP_READY None None None None.

(** Does a stored entry carry this snapshot? *)
Definition carries (entry : StripeLedgerEntry) (resource_reference : pystr) (snapshot_data : JsonObject)
  : bool :=
  bool_decide (le_resource_reference entry = resource_reference)
  && bool_decide (le_snapshot_digest entry = snapshot_digest snapshot_data)
  && document_eqb (le_snapshot_data entry) snapshot_data.

Definition ledger_remember (k : IntentKey) (resource_reference requester_reference : pystr)
  (snapshot_data : JsonObject) : ledger_txn StripeHostRememberStatus := λ db,
  match jsonb snapshot_data with
  | None => (fail (host_error "DataError"), db)
  | Some stored =>
      let created := bool_decide (intents db !! k = None) in
      let entry := default (ready_entry resource_reference requester_reference
                              (snapshot_digest snapshot_data) stored) (intents db !! k) in
      let db' := if created then put_intent k entry db else db in
      if carries entry resource_reference snapshot_data
         && bool_decide (le_requester_reference entry = requester_reference)
      then (Ok (if created then RM_CREATED else RM_MATCHED), db') else (Ok RM_CONFLICT, db')
  end.

Definition ledger_load (k : IntentKey) : ledger_txn (option StripeLedgerEntry) := λ db,
  (Ok (intents db !! k), db).

(** Another intent of the tenant has the resource reserved. *)
Definition resource_reserved (k : IntentKey) (resource_reference : pystr) (db : StripeLedger) : bool :=
  existsb (λ '(k', e),
    bool_decide (k'.1.1 = k.1.1) && bool_decide (le_resource_reference e = resource_reference)
    && bool_decide (le_phase e = LP_RESERVED) && negb (bool_decide (k'.1.2 = k.1.2 ∧ k'.2 = k.2)))
    (map_to_list (intents db)).

Definition reserved_entry (e : StripeLedgerEntry) (now : datetime) : StripeLedgerEntry :=
  mkStripeLedgerEntry (le_resource_reference e) (le_requester_reference e) (le_snapshot_digest e)
    (le_snapshot_data e) LP_RESERVED (Some now) (le_closed_at e) (le_close_kind e) (le_outcome_data e).

Definition reserve_in (k : IntentKey) (resource_reference : pystr) (snapshot_data : JsonObject)
  (not_after : datetime) : ledger_txn StripeHostReserveStatus := λ db,
  match intents db !! k with
  | None => (Ok RV_STALE, db)
  | Some entry =>
      if negb (carries entry resource_reference snapshot_data) then (Ok RV_STALE, db)
      else if negb (bool_decide (le_phase entry = LP_READY)) then (Ok RV_ALREADY_SUBMITTED, db)
      else
        let db1 := tick_ledger db in
        if negb (ledger_now db <? not_after)%Z then (Ok RV_STALE, db1)
        else if resource_reserved k resource_reference db1 then (Ok RV_UNAVAILABLE, db1)
        else update_intent k entry (reserved_entry entry (ledger_now db1)) RV_ACQUIRED (tick_ledger db1)
  end.

Definition closed_entry (e : StripeLedgerEntry) (now : datetime) (outcome_data : option JsonObject)
  : StripeLedgerEntry :=
  mkStripeLedgerEntry (le_resource_reference e) (le_requester_reference e) (le_snapshot_digest e)
    (le_snapshot_data e) LP_CLOSED (le_reserved_at e) (Some now)
    (Some (if outcome_data then outcome else no_submission)) outcome_data.

Definition same_outcome (a b : option JsonObject) : bool :=
  match a, b with
  | None, None => true
  | Some x, Some y => document_eqb x y
  | _, _ => false
  end.

Definition _close_in (k : IntentKey) (outcome_data : option JsonObject)
  : ledger_txn StripeHostCloseStatus := λ db,
  match intents db !! k with
  | None => (fail (host_error "Stripe intent is unavailable"), db)
  | Some entry =>
      let close_kind := if outcome_data then outcome else no_submission in
      match le_phase entry with
      | LP_CLOSED =>
          if bool_decide (le_close_kind entry = Some close_kind)
             && same_outcome (le_outcome_data entry) outcome_data
          then (Ok CS_MATCHED, db) else (Ok CS_CONFLICT, db)
      | phase =>
          if bool_decide (phase = LP_READY) && bool_decide (is_Some outcome_data) then
            (fail (host_error "Stripe outcome requires a prior reservation"), db)
          else
            match (match outcome_data with None => Some None | Some d => Some <$> jsonb d end) with
            | None => (fail (host_error "DataError"), db)
            | Some stored =>
                update_intent k entry (closed_entry entry (ledger_now db) stored) CS_RECORDED
                  (tick_ledger db)
            end
      end
  end.

(** * Histories *)

Inductive ledger_op :=
  | LedgerRemember (k : IntentKey) (resource_reference requester_reference : pystr) (data : JsonObject)
  | LedgerReserve (k : IntentKey) (resource_reference : pystr) (data : JsonObject) (not_after : datetime)
  | LedgerClose (k : IntentKey) (outcome_data : option JsonObject).

Inductive ledger_answer :=
  | Remembered (r : res StripeHostRememberStatus)
  | Reserved (r : res StripeHostReserveStatus)
  | Closed (r : res StripeHostCloseStatus).

Definition ledger_run (o : ledger_op) (db : StripeLedger) : ledger_answer * StripeLedger :=
  match o with
  | LedgerRemember k rs rq d => let '(r, db') := ledger_remember k rs rq d db in (Remembered r, db')
  | LedgerReserve k rs d t => let '(r, db') := reserve_in k rs d t db in (Reserved r, db')
  | LedgerClose k d => let '(r, db') := _close_in k d db in (Closed r, db')
  end.

Fixpoint ledger_run_all (os : list ledger_op) (db : StripeLedger)
  : list (ledger_op * ledger_answer) * StripeLedger :=
  match os with
  | [] => ([], db)
  | o :: os' =>
      let '(a, db1) := ledger_run o db in
      let '(l, db2) := ledger_run_all os' db1 in ((o, a) :: l, db2)
  end.

Definition fresh_ledger (clock : nat → datetime) : StripeLedger := mkStripeLedger ∅ clock 0.

(** * What every step keeps *)

(** How a row may change: not at all, by a reservation, or by being closed. *)
Inductive intent_step : StripeLedgerEntry → StripeLedgerEntry → Prop :=
  | intent_same e : intent_step e e
  | intent_reserved e now : le_phase e = LP_READY → intent_step e (reserved_entry e now)
  | intent_closed e now d : le_phase e ≠ LP_CLOSED → intent_step e (closed_entry e now d).

(** One operation changes at most the row of its key. *)
Definition table_step (k : IntentKey) (t t' : gmap IntentKey StripeLedgerEntry) : Prop :=
  (∀ k', k' ≠ k → t' !! k' = t !! k') ∧
  ∀ e, t !! k = Some e → ∃ e', t' !! k = Some e' ∧ intent_step e e'.

Lemma table_step_same k t : table_step k t t.
Proof. split; [done|]. intros e He. exists e. split; [done|constructor]. Qed.

Lemma table_step_put k t e e' : t !! k = Some e → intent_step e e' → table_step k t (<[k := e']> t).
Proof.
  intros He Hs. split; [intros k' Hk; by rewrite lookup_insert_ne by congruence|].
  intros x Hx. exists e'. rewrite lookup_insert_eq. split; [done|]. congruence.
Qed.

Definition op_key (o : ledger_op) : IntentKey :=
  match o with LedgerRemember k _ _ _ | LedgerReserve k _ _ _ | LedgerClose k _ => k end.

Lemma update_intent_step {A} k old new (a : A) db :
  intents db !! k = Some old → intent_step old new →
  table_step k (intents db) (intents (update_intent k old new a db).2).
Proof.
  intros Ho Hs. unfold update_intent. destruct (_ && _); [|apply table_step_same].
  by eapply table_step_put.
Qed.

Lemma reserve_in_step k rs d t db : table_step k (intents db) (intents (reserve_in k rs d t db).2).
Proof.
  unfold reserve_in. destruct (intents db !! k) as [e|] eqn:He; [|apply table_step_same].
  destruct (negb (carries _ _ _)); [apply table_step_same|].
  case_bool_decide as Hp; cbn [negb]; [|apply table_step_same].
  destruct (negb _); [apply table_step_same|]. destruct (resource_reserved _ _ _); [apply table_step_same|].
  change (intents db) with (intents (tick_ledger (tick_ledger db))).
  apply update_intent_step; [done|by constructor].
Qed.

Lemma close_in_step k d db : table_step k (intents db) (intents (_close_in k d db).2).
Proof.
  unfold _close_in. destruct (intents db !! k) as [e|] eqn:He; [|apply table_step_same].
  destruct (le_phase e) eqn:Hp.
  3:{ destruct (_ && _); apply table_step_same. }
  all: destruct (_ && _); [apply table_step_same|].
  all: destruct (match d with Some _ => _ | None => _ end) as [stored|]; [|apply table_step_same].
  all: change (intents db) with (intents (tick_ledger db)).
  all: apply update_intent_step; [done|constructor; by rewrite Hp].
Qed.

Lemma ledger_run_step o db : table_step (op_key o) (intents db) (intents (ledger_run o db).2).
Proof.
  destruct o as [k rs rq d|k rs d t|k d]; cbn [ledger_run op_key].
  - unfold ledger_remember. destruct (jsonb d) as [stored|]; [|apply table_step_same].
    destruct (intents db !! k) as [e|] eqn:Hk.
    + simpl. destruct (_ && _); apply table_step_same.
    + assert (table_step k (intents db) (<[k := ready_entry rs rq (snapshot_digest d) stored]> (intents db)))
        as H.
      { split; [intros k' Hne; by rewrite lookup_insert_ne by congruence|]. intros e He. congruence. }
      simpl. by destruct (_ && _).
  - assert (H := reserve_in_step k rs d t db). by destruct (reserve_in k rs d t db).
  - assert (H := close_in_step k d db). by destruct (_close_in k d db).
Qed.

(** ** Bindings are final *)

(** The binding of a row, and what is settled once it is closed. *)
Definition binding_of (e : StripeLedgerEntry) :=
  (le_resource_reference e, le_requester_reference e, le_snapshot_digest e, le_snapshot_data e).

Definition advances (e e' : StripeLedgerEntry) : Prop :=
  binding_of e' = binding_of e ∧ (le_phase e' = LP_READY → le_phase e = LP_READY) ∧
  (le_phase e = LP_CLOSED → e' = e).

Lemma advances_trans e1 e2 e3 : advances e1 e2 → advances e2 e3 → advances e1 e3.
Proof.
  intros (B1 & P1 & C1) (B2 & P2 & C2). split_and!; [congruence|auto|].
  intros H. specialize (C1 H) as ->. by apply C2.
Qed.

Lemma intent_step_advances e e' : intent_step e e' → advances e e'.
Proof. intros [|? ? H|? ? ? H]; split_and!; try done. intros Hc. congruence. Qed.

Lemma ledger_history_advances os db k e :
  intents db !! k = Some e →
  ∃ e', intents (ledger_run_all os db).2 !! k = Some e' ∧ advances e e'.
Proof.
  revert db e. induction os as [|o os IH]; intros db e He.
  { exists e. by split_and!. }
  cbn [ledger_run_all]. destruct (ledger_run_step o db) as [Hother Hkey].
  destruct (ledger_run o db) as [a db1]. simpl in Hother, Hkey.
  assert (∃ e1, intents db1 !! k = Some e1 ∧ advances e e1) as (e1 & He1 & Ha).
  { destruct (decide (k = op_key o)) as [->|Hk].
    - destruct (Hkey e He) as (e1 & He1 & Hs%intent_step_advances). by exists e1.
    - exists e. rewrite Hother by done. by split_and!. }
  destruct (IH db1 e1 He1) as (e2 & He2 & Ha2).
  destruct (ledger_run_all os db1) as [l db2]. exists e2. split; [done|by eapply advances_trans].
Qed.

(** ** Reservations *)

Definition acquires (k : IntentKey) (x : ledger_op * ledger_answer) : bool :=
  match x with
  | (LedgerReserve k' _ _ _, Reserved (Ok RV_ACQUIRED)) => bool_decide (k' = k)
  | _ => false
  end.

Definition acquisitions (k : IntentKey) (l : list (ledger_op * ledger_answer)) : nat :=
  length (List.filter (acquires k) l).

Definition spent (k : IntentKey) (db : StripeLedger) : Prop :=
  ∃ e, intents db !! k = Some e ∧ le_phase e ≠ LP_READY.

Lemma entry_spent_step o k db : spent k db → spent k (ledger_run o db).2.
Proof.
  intros (e & He & Hp). destruct (ledger_history_advances [o] db k e He) as (e' & He' & _ & Hr & _).
  exists e'. split; [|auto]. revert He'. cbn [ledger_run_all]. by destruct (ledger_run o db).
Qed.

Lemma acquires_spends o k db :
  acquires k (o, (ledger_run o db).1) = true → ¬ spent k db ∧ spent k (ledger_run o db).2.
Proof.
  destruct o as [k' rs rq d|k' rs d t|k' d]; cbn [ledger_run].
  - by destruct (ledger_remember _ _ _ _ _).
  - unfold reserve_in. destruct (intents db !! k') as [e|] eqn:He; [|done].
    destruct (negb (carries _ _ _)); [done|]. case_bool_decide as Hp; cbn [negb]; [|done].
    destruct (negb _); [done|]. destruct (resource_reserved _ _ _); [done|].
    unfold update_intent. destruct (_ && _); [|done]. simpl. intros Hk. apply bool_decide_eq_true in Hk as ->.
    split; [intros (x & Hx & Hn); congruence|].
    eexists. simpl. rewrite lookup_insert_eq. by split.
  - by destruct (_close_in _ _ _).
Qed.

Lemma acquisitions_cons k x l :
  acquisitions k (x :: l) = (if acquires k x then 1 else 0) + acquisitions k l.
Proof. unfold acquisitions. cbn [List.filter]. by destruct (acquires k x). Qed.

Lemma acquisitions_bound os k db :
  (spent k db → acquisitions k (ledger_run_all os db).1 = 0) ∧ acquisitions k (ledger_run_all os db).1 ≤ 1.
Proof.
  revert db. induction os as [|o os IH]; intros db; [split; [done|apply Nat.le_0_l]|].
  cbn [ledger_run_all]. assert (Ha := acquires_spends o k db). assert (Hs := entry_spent_step o k db).
  destruct (ledger_run o db) as [a db1]. cbn [fst snd] in Ha, Hs. destruct (IH db1) as [Hz Hb].
  destruct (ledger_run_all os db1) as [l db2]. cbn [fst snd] in Hz, Hb |- *. rewrite acquisitions_cons.
  destruct (acquires k (o, a)).
  - destruct (Ha eq_refl) as [Hn Hy]. rewrite (Hz Hy). split; [done|lia].
  - split; [intros H; by apply Hz, Hs|done].
Qed.

(** ** One reservation a resource *)

Definition exclusive (db : StripeLedger) : Prop :=
  ∀ k1 k2 e1 e2, intents db !! k1 = Some e1 → intents db !! k2 = Some e2 →
    le_phase e1 = LP_RESERVED → le_phase e2 = LP_RESERVED →
    k1.1.1 = k2.1.1 → le_resource_reference e1 = le_resource_reference e2 → k1 = k2.

(** Changing one row keeps exclusion, unless that row becomes reserved. *)
Lemma exclusive_put k e db :
  exclusive db →
  (le_phase e = LP_RESERVED → ∀ k' e', intents db !! k' = Some e' → le_phase e' = LP_RESERVED →
     k'.1.1 = k.1.1 → le_resource_reference e' = le_resource_reference e → k' = k) →
  exclusive (put_intent k e db).
Proof.
  intros Hex He k1 k2 e1 e2. simpl. destruct (decide (k1 = k)) as [->|H1], (decide (k2 = k)) as [->|H2];
    rewrite ?lookup_insert_eq, ?lookup_insert_ne by congruence; [done| | |apply Hex].
  - intros [= <-] Hk2 Hp1 Hp2 Ht Hr. symmetry. by eapply He.
  - intros Hk1 [= <-] Hp1 Hp2 Ht Hr. by eapply He.
Qed.

Lemma resource_free k rs db k' e' :
  resource_reserved k rs db = false → intents db !! k' = Some e' → le_phase e' = LP_RESERVED →
  k'.1.1 = k.1.1 → le_resource_reference e' = rs → k' = k.
Proof.
  intros Hr Hk' Hp Ht Hrs. unfold resource_reserved in Hr.
  apply (proj1 (existsb_false_elem _ _)) with (x := (k', e')) in Hr; [|by apply elem_of_map_to_list].
  cbn beta iota in Hr. rewrite !bool_decide_eq_true_2 in Hr by done. cbn [andb] in Hr.
  apply negb_false_iff, bool_decide_eq_true in Hr as [Hg He].
  destruct k' as [[t1 g1] f1], k as [[t2 g2] f2]. simpl in *. congruence.
Qed.

Lemma exclusive_update {A} k old new (a : A) db :
  exclusive db →
  (le_phase new = LP_RESERVED → ∀ k' e', intents db !! k' = Some e' → le_phase e' = LP_RESERVED →
     k'.1.1 = k.1.1 → le_resource_reference e' = le_resource_reference new → k' = k) →
  exclusive (update_intent k old new a db).2.
Proof. intros Hex Hn. unfold update_intent. destruct (_ && _); [by apply exclusive_put|done]. Qed.

Lemma exclusive_step o db : exclusive db → exclusive (ledger_run o db).2.
Proof.
  intros Hex. destruct o as [k rs rq d|k rs d t|k d]; cbn [ledger_run].
  - unfold ledger_remember. destruct (jsonb d) as [stored|]; [|done].
    destruct (intents db !! k) as [e|] eqn:He; simpl; [by destruct (_ && _)|].
    enough (exclusive (put_intent k (ready_entry rs rq (snapshot_digest d) stored) db)) by (by destruct (_ && _)).
    by apply exclusive_put.
  - unfold reserve_in. destruct (intents db !! k) as [e|] eqn:He; [|done].
    destruct (carries e rs d) eqn:Hc; cbn [negb]; [|done]. case_bool_decide as Hp; cbn [negb]; [|done].
    destruct (negb _); [done|]. destruct (resource_reserved _ _ _) eqn:Hr; [done|].
    match goal with |- context [update_intent k e ?n ?a ?b] =>
      enough (exclusive (update_intent k e n a b).2) by (by destruct (update_intent k e n a b)) end.
    apply exclusive_update; [done|]. intros _ k' e' Hk' Hp' Ht Hrs. eapply (resource_free k rs); try done.
    rewrite Hrs. unfold carries in Hc. rewrite !andb_true_iff in Hc. destruct Hc as [[Hc _] _].
    by apply bool_decide_eq_true in Hc.
  - unfold _close_in. destruct (intents db !! k) as [e|] eqn:He; [|done].
    destruct (le_phase e) eqn:Hp; try (by destruct (_ && _)).
    all: destruct (_ && _); [done|].
    all: destruct (match d with Some _ => _ | None => _ end) as [stored|]; [|done].
    all: match goal with |- context [update_intent ?k ?e ?n ?a ?b] =>
      enough (exclusive (update_intent k e n a b).2) by (by destruct (update_intent k e n a b)) end.
    all: by apply exclusive_update.
Qed.

Lemma exclusive_history os db : exclusive db → exclusive (ledger_run_all os db).2.
Proof.
  revert db. induction os as [|o os IH]; intros db Hex; [done|]. cbn [ledger_run_all].
  assert (H := exclusive_step o db Hex). destruct (ledger_run o db) as [a db1]. specialize (IH db1 H).
  by destruct (ledger_run_all os db1).
Qed.

(** * Properties *)

(** C19: whatever is asked of the ledger, an intent is acquired at most once,
    ever, and at any time at most one intent of a tenant holds a resource. *)
Theorem ledger_reserves_once (os : list ledger_op) (clock : nat → datetime) :
  (∀ k, acquisitions k (ledger_run_all os (fresh_ledger clock)).1 ≤ 1) ∧
  exclusive (ledger_run_all os (fresh_ledger clock)).2.
Proof.
  split; [intros k; apply acquisitions_bound|]. apply exclusive_history. intros k1 k2 e1 e2 H. simpl in H.
  by rewrite lookup_empty in H.
Qed.

(** An intent once remembered keeps its resource, requester and snapshot
    through every later operation, never becomes ready again, and is final once
    closed. *)
Theorem ledger_bindings_final (os os' : list ledger_op) (clock : nat → datetime) (k : IntentKey)
  (e : StripeLedgerEntry) (He : intents (ledger_run_all os (fresh_ledger clock)).2 !! k = Some e) :
  ∃ e', intents (ledger_run_all os' (ledger_run_all os (fresh_ledger clock)).2).2 !! k = Some e' ∧
    binding_of e' = binding_of e ∧ (le_phase e' = LP_READY → le_phase e = LP_READY) ∧
    (le_phase e = LP_CLOSED → e' = e).
Proof. exact (ledger_history_advances os' _ k e He). Qed.

End Ledger.
