(* ===== verification/StripeEffects.v ===== *)
(** The Stripe actions over a host that reserves with the ledger: any number of
    executions, of any groups, interleaved in any way.  And the amounts of a
    refund. *)

From S2P Require Import Prelude Models Canonical Authority Receipts Registry StripeModels StoreBase.
From S2P Require Import StoreContract Recovery Program StripeOperation StripeRefunds StripeBilling StripeActions.
From S2P Require Import StripeSafety StripeLedger.

Section Effects.
Context `{U : Unicode, D : PyDump, V : LedgerServer}.

(** * Executions *)

(** One execution, as far as it has got. *)
Record stripe_thread := mkStripeThread {
  th_workflow : stripe_workflow;
  th_snapshot : snapshot_of (group_of th_workflow);
  th_context : ExecutionContext;
  th_precondition : pystr;
  th_history : history;
  th_rest : prog ExecutionResult;
  th_runs : runs (stripe_execute th_workflow th_snapshot th_context th_precondition) th_history th_rest
}.

(** The ledger's key of what an execution submits. *)
Definition thread_key (t : stripe_thread) : res IntentKey :=
  effect ← effect_of (group_of (th_workflow t)) (th_snapshot t);
  Ok (tenant_of (group_of (th_workflow t)) (th_snapshot t), group_of (th_workflow t), effect).

Definition submits (k : IntentKey) (t : stripe_thread) : bool :=
  match thread_key t with Ok k' => bool_decide (k' = k) | Err _ => false end.

Definition reserves (e : event) : bool :=
  match e with
  | Event (Stripe (Repository g (Reserve _ _))) (Ok RS_ACQUIRED) => true
  | _ => false
  end.

Definition total (f : event → bool) (h : history) : nat := length (List.filter f h).

(** How often the executions of an intent do something. *)
Definition over (k : IntentKey) (f : event → bool) (ts : list stripe_thread) : nat :=
  sum_list ((λ t, if submits k t then total f (th_history t) else 0) <$> ts).

Lemma total_app f h h' : total f (h ++ h') = total f h + total f h'.
Proof. unfold total. by rewrite List.filter_app, length_app. Qed.

Lemma total_dispatched h : dispatched h = false → total (λ e, dispatches (ev_op e)) h = 0.
Proof.
  unfold dispatched, total. induction h as [|e h IH]; [done|]. cbn [existsb List.filter].
  destruct (dispatches (ev_op e)); [done|]. apply IH.
Qed.

Lemma total_reserves h e : e ∈ h → reserves e = true → 1 ≤ total reserves h.
Proof.
  intros He Hr. assert (In e (List.filter reserves h)) as Hi by (apply filter_In; split; [by apply list_elem_of_In|done]).
  unfold total. destruct (List.filter reserves h); [done|simpl; lia].
Qed.

Lemma acquired_reserves g s deadline : reserves (acquired g s deadline) = true.
Proof. done. Qed.

(** An execution dispatches once at most, and only what it reserved. *)
Lemma thread_dispatches t :
  total (λ e, dispatches (ev_op e)) (th_history t) ≤ total reserves (th_history t) ∧
  total (λ e, dispatches (ev_op e)) (th_history t) ≤ 1.
Proof.
  destruct t as [w s context pre h q Hruns]. cbn [th_history].
  destruct (wp_runs _ _ _ _ h [] _ (stripe_execute_guarantee w s context pre) Hruns) as [_ Hes]; [done|].
  assert (∀ h1 h2, h = h1 ++ h2 → total (λ e, dispatches (ev_op e)) h1 ≤ total reserves h1 ∧
    total (λ e, dispatches (ev_op e)) h1 ≤ 1) as H.
  { intros h1. induction h1 as [|e h1 IH] using rev_ind; intros h2 Hh; [split; apply Nat.le_0_l|].
    rewrite <-app_assoc in Hh. destruct (IH _ Hh) as [H1 H2]. rewrite !total_app.
    destruct (dispatches (ev_op e)) eqn:Hd.
    - destruct (proj1 (Hes _ _ _ Hh) Hd) as [_ (Hnone & record & deadline & h3 & h4 & Hsplit & _)].
      cbn [app] in Hnone, Hsplit. rewrite (total_dispatched _ Hnone).
      assert (1 ≤ total reserves h1) as Hr.
      { apply (total_reserves _ (acquired (group_of w) s deadline)); [|done].
        rewrite Hsplit. apply elem_of_app. right. left. }
      replace (total (λ e, dispatches (ev_op e)) [e]) with 1; [lia|].
      unfold total. cbn [List.filter]. by rewrite Hd.
    - replace (total (λ e, dispatches (ev_op e)) [e]) with 0; [lia|].
      unfold total. cbn [List.filter]. by rewrite Hd. }
  apply (H h []). by rewrite app_nil_r.
Qed.

Lemma over_le k f f' ts :
  (∀ t, total f (th_history t) ≤ total f' (th_history t)) → over k f ts ≤ over k f' ts.
Proof.
  intros H. unfold over. induction ts as [|t ts IH]; [done|].
  change (sum_list (?g <$> t :: ts)) with (g t + sum_list (g <$> ts)). cbn beta. specialize (H t).
  destruct (submits k t); lia.
Qed.

(** C16: if the host answers "acquired" only when its ledger does, then for every
    intent of a tenant Stripe's mutation is called at most once, over all
    executions of all groups, interleaved and abandoned in any way. *)
Theorem effect_submitted_once (ts : list stripe_thread) (os : list ledger_op) (clock : nat → datetime)
  (Hhost : ∀ k, over k reserves ts ≤ acquisitions k (ledger_run_all os (fresh_ledger clock)).1)
  (k : IntentKey) : over k (λ e, dispatches (ev_op e)) ts ≤ 1.
Proof.
  etrans; [apply over_le; intros t; apply thread_dispatches|]. etrans; [apply Hhost|].
  apply acquisitions_bound.
Qed.

(** * Amounts *)

(** The integer an integral number stands for. *)
Lemma int_of_integral negative digits shift :
  is_integral (Finite negative digits shift) = true →
  (int_of (Finite negative digits shift) * 10 ^ Z.max 0 (- shift) =
   (if negative then - Z.of_N digits else Z.of_N digits) * 10 ^ Z.max 0 shift)%Z.
Proof.
  unfold is_integral, int_of. destruct (0 <=? shift)%Z eqn:E; cbn [orb].
  - intros _. rewrite Z.max_l, Z.max_r by lia. destruct negative; lia.
  - rewrite Z.eqb_eq. intros Hm. rewrite Z.max_r, Z.max_l by lia.
    assert (Z.of_N digits = 10 ^ (- shift) * (Z.of_N digits / 10 ^ (- shift)))%Z as Hd.
    { rewrite (Z_div_mod_eq_full (Z.of_N digits) (10 ^ (- shift))) at 1. lia. }
    destruct negative; lia.
Qed.

(** Comparing an integral number with an integer. *)
Lemma dec_leb_integral negative digits shift z :
  is_integral (Finite negative digits shift) = true →
  dec_leb (Finite negative digits shift) (dec_int z) = (int_of (Finite negative digits shift) <=? z)%Z.
Proof.
  intros Hi. assert (H := int_of_integral _ _ _ Hi). set (n := int_of _) in *.
  set (d := (if negative then - Z.of_N digits else Z.of_N digits)%Z) in *.
  assert (units_at (Z.min shift 0) (dec_int z) = z * 10 ^ Z.max 0 (- shift))%Z as Hz.
  { unfold units_at, dec_int. replace (0 - Z.min shift 0)%Z with (Z.max 0 (- shift)) by lia.
    destruct (z <? 0)%Z eqn:E; rewrite Z2N.id by lia; f_equal; lia. }
  unfold dec_leb. cbn [is_finite exponent_of andb dec_int]. fold (dec_int z). rewrite Hz.
  replace (units_at (Z.min shift 0) (Finite negative digits shift)) with (n * 10 ^ Z.max 0 (- shift))%Z.
  - assert (0 < 10 ^ Z.max 0 (- shift))%Z by (apply Z.pow_pos_nonneg; lia).
    apply eq_true_iff_eq. rewrite !Z.leb_le. split; [apply Z.mul_le_mono_pos_r|apply Z.mul_le_mono_nonneg_r]; lia.
  - rewrite H. unfold units_at, d. by replace (shift - Z.min shift 0)%Z with (Z.max 0 shift) by lia.
Qed.

(** C20: a refund intent that validation accepts stands for an exact positive
    number of minor units of at most eight digits: the amount times the power of
    ten of the currency, with nothing rounded away. *)
Theorem refund_amount_exact (i i' : RefundIntent) (Hvalid : exact_minor_units i = Ok i') :
  i' = i ∧ (0 < amount_minor i <= 99999999)%Z ∧
  ∃ digits e, mo_amount (ri_amount i) = Finite false digits e ∧
    let shift := (e + ri_currency_exponent i)%Z in
    (amount_minor i * 10 ^ Z.max 0 (- shift) = Z.of_N digits * 10 ^ Z.max 0 shift)%Z.
Proof.
  unfold exact_minor_units in Hvalid. unfold amount_minor.
  destruct (mo_amount (ri_amount i)) as [negative digits e|] eqn:Ha; [|done]. simpl scaleb in *.
  set (shift := (e + ri_currency_exponent i)%Z) in *. cbn [is_finite negb orb] in Hvalid.
  destruct (dec_leb _ dec_zero) eqn:Hpos; [done|]. destruct (is_integral _) eqn:Hint; [|done].
  destruct (dec_leb _ (dec_int _)) eqn:Hmax; [|done]. apply Ok_inj in Hvalid as <-. split; [done|].
  change dec_zero with (dec_int 0) in Hpos. rewrite dec_leb_integral in Hpos, Hmax by done.
  assert (H := int_of_integral _ _ _ Hint). split; [lia|]. exists digits, e.
  enough (negative = false) as -> by done. destruct negative; [|done].
  assert (0 < 10 ^ Z.max 0 (- shift))%Z by (apply Z.pow_pos_nonneg; lia).
  assert (0 < 10 ^ Z.max 0 shift)%Z by (apply Z.pow_pos_nonneg; lia). nia.
Qed.

End Effects.
