(* ===== verification/StripeScenario.v ===== *)
(** A concrete Stripe refund against a concrete host and provider: the
    witnesses of the properties of the Stripe actions. *)

From S2P Require Import Prelude Models Canonical Authority Receipts Registry StripeModels StoreBase.
From S2P Require Import StoreContract Recovery Program StripeOperation StripeRefunds StripeBilling StripeActions.
From S2P Require Import StripeSafety StripeVerdicts StripeLedger StripeEffects.

#[local] Existing Instance ascii_unicode.

#[local] Definition no_model (name : pystr) : PyModel := mkPyModel name [].

(** A digest that keeps the text. *)
#[local] Instance plain_dump : PyDump := {|
  sha256_hexdigest b := PyStr (Z.to_N <$> b);
  refund_intent_json i := JList [JStr (ri_tenant_reference i); JStr (ri_intent_reference i)];
  refund_policy_json p := JBool (rl_allow_live p);
  cancellation_policy_json p := JBool (cl_allow_live p);
  cancellation_snapshot_json s := JStr (cs_intent_reference s);
  credit_policy_json p := JBool (np_allow_live p);
  credit_snapshot_json s := JStr (ns_intent_reference s);
  refund_snapshot_model _ := no_model "RefundSnapshot";
  cancellation_snapshot_model _ := no_model "SubscriptionCancellationSnapshot";
  credit_snapshot_model _ := no_model "CreditNoteSnapshot";
  refund_preview_model _ := no_model "RefundPreview";
  cancellation_preview_model _ := no_model "SubscriptionCancellationPreview";
  credit_preview_model _ := no_model "CreditNotePreview";
  refund_outcome_model _ := no_model "RefundOutcome";
  cancellation_outcome_model _ := no_model "SubscriptionCancellationOutcome";
  credit_outcome_model _ := no_model "CreditNoteOutcome"
|}.

#[local] Definition euros (cents : N) : Money := mkMoney (Finite false cents (-2)) "EUR".
#[local] Definition account : StripeAccount := mkStripeAccount "platform" None false.
#[local] Definition intent : RefundIntent :=
  mkRefundIntent "t" "intent:1" account "ch_1" (euros 1250) 2.
#[local] Definition policy : RefundPolicy := mkRefundPolicy [euros 10000] false.
#[local] Definition snapshot : RefundSnapshot :=
  mkRefundSnapshot intent "payment:1" 1 0
    (match refund_policy_fingerprint policy with Ok f => f | Err _ => PyStr [] end).
#[local] Definition effect : pystr :=
  match refund_effect_reference snapshot with Ok e => e | Err _ => PyStr [] end.
#[local] Definition correlation : pystr :=
  match refund_correlation intent with Ok c => c | Err _ => PyStr [] end.
#[local] Definition workflow : stripe_workflow :=
  RefundWorkflow (mkRefundWorkflow (mkStripeRefundConnector 100) 1 policy).
#[local] Definition approver : ConfirmingAuthority := mkConfirmingAuthority "approver".
#[local] Definition context : ExecutionContext :=
  mkExecutionContext "t" "proposal:1" effect (mkRequestingPrincipal "requester") [approver] 5.

#[local] Definition evidence : AuthorityEvidence :=
  mkAuthorityEvidence "t" (mkActionType "stripe.refunds" "create" 1) "proposal:1" effect approver
    ["audience"%py] APPROVE "digest" "session" 0 90 None.

#[local] Definition record : StoredProposal :=
  mkStoredProposal "t" "proposal:1" (mkActionType "stripe.refunds" "create" 1) effect single EXECUTING 2
    None None [] None None 0 100 [evidence] [] 0 3 (Some 80%Z) None None None None None.

#[local] Definition payment : RefundPayment :=
  mkRefundPayment "t" "payment:1" 1 account "ch_1" "EUR" 2.
#[local] Definition charge : ChargeObservation :=
  mkChargeObservation "ch_1" "eur" 5000 0 true true false false false.
#[local] Definition refund : RefundObservation :=
  mkRefundObservation "re_1" "ch_1" "eur" 1250 RF_succeeded correlation.

(** What the host and the provider answer. *)
#[local] Definition answer (o : op) : res (resp o) :=
  match o return res (resp o) with
  | Store (Get _ _) => Ok (Some record)
  | ClockNow => Ok 10%Z
  | CanExecute _ _ _ => Ok (mkAuthorizationResult true None)
  | Stripe (Repository REFUNDS (Load _ _)) => Ok snapshot
  | Stripe (Repository _ (Reserve _ _)) => Ok RS_ACQUIRED
  | Stripe (Repository _ (RecordOutcome _ _ _)) => Ok ()
  | Stripe (Refunds (Payment _ _)) => Ok payment
  | Stripe (Refunds (Charge _)) => Ok charge
  | Stripe (Refunds (CreateRefund _)) => Ok refund
  | Stripe (Refunds (RetrieveRefund _ _)) => Ok refund
  | Stripe (Refunds (ListRefunds _ _)) => Ok (mkRefundPage [refund] false)
  | _ => fail (OtherException "RuntimeError")
  end.

#[local] Definition handle (o : op) (s : unit) : res (resp o) * unit := (answer o, s).

#[local] Definition execution_run : history * res ExecutionResult * unit :=
  run handle (stripe_execute workflow snapshot context effect) ().

#[local] Definition verification_run : history * res VerificationResult * unit :=
  run handle (stripe_verify workflow context) ().

Lemma stripe_submits_once_witness :
  List.map (λ e, dispatches (ev_op e)) execution_run.1.1 = replicate 8 false ++ [true] ∧
  submission_gate REFUNDS 1 (snapshot : snapshot_of REFUNDS) context (take 8 execution_run.1.1).
Proof.
  split; [vm_compute; reflexivity|].
  refine (proj2 (proj1 (stripe_submits_once workflow snapshot context effect execution_run.1.1 _
    (run_runs handle _ ())) (take 8 execution_run.1.1)
    (Event (Stripe (Refunds (CreateRefund intent))) (Ok refund)) [] _ _)); vm_compute; reflexivity.
Defined.

Lemma stripe_verdicts_grounded_witness :
  verification_run.1.2 = Ok (mkVerificationResult VS_VERIFIED_COMPLETION (Some (no_model "RefundOutcome")) []
    (Some (mkExternalReference "stripe" correlation)) None false false) ∧
  ∃ s : snapshot_of REFUNDS, tenant_of REFUNDS s = "t"%py ∧ shown REFUNDS s verification_run.1.1.
Proof.
  assert (H : verification_run.1.2 = Ok (mkVerificationResult VS_VERIFIED_COMPLETION
    (Some (no_model "RefundOutcome")) [] (Some (mkExternalReference "stripe" correlation)) None false false))
    by (vm_compute; reflexivity).
  split; [exact H|].
  assert (Hr := run_runs handle (stripe_verify workflow context) ()). fold verification_run in Hr.
  rewrite H in Hr.
  destruct (proj1 (proj2 (stripe_verdicts_grounded workflow context _ _ Hr)) eq_refl) as (s & _ & Ht & _ & Hs).
  exists s. split; [exact Ht|exact Hs].
Defined.

Lemma refund_amount_exact_witness : amount_minor intent = 1250%Z ∧ (0 < amount_minor intent <= 99999999)%Z.
Proof.
  split; [vm_compute; reflexivity|].
  refine (proj1 (proj2 (refund_amount_exact intent intent _))). vm_compute. reflexivity.
Defined.

(** ** The ledger behind the host *)

#[local] Instance plain_ledger : LedgerServer := {|
  jsonb d := Some d;
  document_eqb _ _ := true;
  snapshot_digest _ := "digest"%py
|}.

#[local] Definition key : IntentKey := ("t"%py, REFUNDS, effect).

(** The intent is remembered, reserved for the first attempt and refused to the
    second. *)
#[local] Definition ledger_history : list ledger_op :=
  [LedgerRemember key "payment:1" "requester" []; LedgerReserve key "payment:1" [] 80;
   LedgerReserve key "payment:1" [] 80].

#[local] Definition ticking (n : nat) : datetime := Z.of_nat n.

#[local] Definition thread : stripe_thread :=
  mkStripeThread workflow snapshot context effect execution_run.1.1 _ (run_runs handle _ ()).

Lemma effect_submitted_once_witness :
  List.map snd (ledger_run_all ledger_history (fresh_ledger ticking)).1 =
    [Remembered (Ok RM_CREATED); Reserved (Ok RV_ACQUIRED); Reserved (Ok RV_ALREADY_SUBMITTED)] ∧
  over key (λ e, dispatches (ev_op e)) [thread] = 1 ∧ over key (λ e, dispatches (ev_op e)) [thread] ≤ 1.
Proof.
  split; [vm_compute; reflexivity|]. split; [vm_compute; reflexivity|].
  refine (effect_submitted_once [thread] ledger_history ticking _ key). intros k.
  assert (Hk : thread_key thread = Ok key) by (vm_compute; reflexivity).
  unfold over. cbn [fmap list_fmap]. unfold submits. rewrite Hk.
  destruct (bool_decide (key = k)) eqn:E; [|apply Nat.le_0_l].
  apply bool_decide_eq_true in E as <-. apply Nat.leb_le. vm_compute. reflexivity.
Defined.

Lemma ledger_bindings_final_witness :
  ∃ e', intents (ledger_run_all [LedgerClose key None] (ledger_run_all ledger_history (fresh_ledger ticking)).2).2
    !! key = Some e' ∧ le_phase e' = LP_CLOSED ∧ le_requester_reference e' = "requester"%py.
Proof.
  destruct (ledger_bindings_final ledger_history [LedgerClose key None] ticking key
    (mkStripeLedgerEntry "payment:1" "requester" "digest" [] LP_RESERVED (Some 1%Z) None None None))
    as (e' & He & Hb & _ & _); [vm_compute; reflexivity|].
  exists e'. split; [exact He|].
  assert (H : le_phase <$> intents (ledger_run_all [LedgerClose key None]
    (ledger_run_all ledger_history (fresh_ledger ticking)).2).2 !! key = Some LP_CLOSED)
    by (vm_compute; reflexivity).
  rewrite He in H. injection H as H. split; [exact H|]. by injection Hb.
Defined.
