(* ===== verification/SdkGateway.v ===== *)
(** The Stripe SDK transports ([integrations/stripe/sdk_gateway.py],
    [billing_gateway.py]): what each method of the three gateways sends, and what it
    makes of the objects the SDK answers.

    An SDK object is a dictionary whose entries are also attributes.  The gateways
    build their models in strict mode.  A method is a [talk]: it sends requests to
    the client and goes on with the answer, a value or an exception.

    Parameters: which exceptions are [stripe.StripeError]s, and what Pydantic dumps
    of the models whose digests are sent ([PyDump]). *)

From S2P Require Import Prelude Models Canonical Authority Receipts Registry StripeModels StoredValidity.
From S2P Require Import StoreBase StoreContract Recovery Program StripeOperation.

(** * Objects of the SDK *)

Inductive sdk_value :=
  | SNone
  | SBool (b : bool)
  | SInt (z : Z)
  (* a finite float, as a fraction *)
  | SFloat (n : Z) (d : positive)
  | SStr (s : pystr)
  | SList (l : list sdk_value)
  | SObject (fields : list (pystr * sdk_value)).

Fixpoint entry (fields : list (pystr * sdk_value)) (name : pystr) : option sdk_value :=
  match fields with
  | [] => None
  | (k, v) :: fields' => if bool_decide (k = name) then Some v else entry fields' name
  end.

Definition AttributeError : exn_kind := OtherException "AttributeError".
Definition TypeError : exn_kind := OtherException "TypeError".
Definition OverflowError : exn_kind := OtherException "OverflowError".

(** [v.name], [v.get(name, default)] and [v[name]]. *)
Definition attr (v : sdk_value) (name : pystr) : res sdk_value :=
  match v with
  | SObject fields => match entry fields name with Some x => Ok x | None => fail AttributeError end
  | _ => fail AttributeError
  end.

Definition get_or (v : sdk_value) (name : pystr) (default : sdk_value) : res sdk_value :=
  match v with
  | SObject fields => Ok (match entry fields name with Some x => x | None => default end)
  | _ => fail AttributeError
  end.

Definition subscript (v : sdk_value) (name : pystr) : res sdk_value :=
  match v with
  | SObject fields => match entry fields name with Some x => Ok x | None => fail (KeyErrorLike name) end
  | _ => fail TypeError
  end.

(** The truth of a value, and [a or b]. *)
Definition truthy (v : sdk_value) : bool :=
  match v with
  | SNone => false
  | SBool b => b
  | SInt z => negb (z =? 0)%Z
  | SFloat n _ => negb (n =? 0)%Z
  | SStr s => negb (bool_decide (s = PyStr []))
  | SList l => negb (length l =? 0)%nat
  | SObject fields => negb (length fields =? 0)%nat
  end.

Definition or_else (a b : sdk_value) : sdk_value := if truthy a then a else b.

Definition is_none (v : sdk_value) : bool := match v with SNone => true | _ => false end.

(** [list(v)], [len(v)] and [v[0]]. *)
Definition elements (v : sdk_value) : res (list sdk_value) :=
  match v with
  | SList l => Ok l
  | SObject fields => Ok ((λ '(k, _), SStr k) <$> fields)
  | SStr s => Ok ((λ c, SStr (PyStr [c])) <$> code_points s)
  | _ => fail TypeError
  end.

Definition len (v : sdk_value) : res nat := l ← elements v; Ok (length l).

Definition first (v : sdk_value) : res sdk_value :=
  match v with
  | SObject _ => fail (KeyErrorLike "0")
  | _ => l ← elements v; match l with x :: _ => Ok x | [] => fail (OtherException "IndexError") end
  end.

(** [a == b]. *)
Definition number (v : sdk_value) : option (Z * positive) :=
  match v with
  | SBool b => Some (Z.b2z b, 1%positive)
  | SInt z => Some (z, 1%positive)
  | SFloat n d => Some (n, d)
  | _ => None
  end.

Fixpoint py_eq (a b : sdk_value) {struct a} : bool :=
  match a, b with
  | SNone, SNone => true
  | SStr s, SStr t => bool_decide (s = t)
  | SList l, SList l' =>
      (fix go l l' := match l, l' with
        | [], [] => true
        | x :: l, y :: l' => py_eq x y && go l l'
        | _, _ => false
        end) l l'
  | SObject f, SObject g =>
      (length f =? length g)%nat &&
      (fix go f := match f with
        | [] => true
        | (k, x) :: f => match entry g k with Some y => py_eq x y | None => false end && go f
        end) f
  | _, _ =>
      match number a, number b with
      | Some (n, d), Some (n', d') => (n * Z.pos d' =? n' * Z.pos d)%Z
      | _, _ => false
      end
  end.

(** [_reference]: a reference to an object, or the object itself. *)
Definition _reference (value : sdk_value) : option pystr :=
  match value with
  | SStr s => Some s
  | SObject fields => match entry fields "id" with Some (SStr s) => Some s | _ => None end
  | _ => None
  end.

Definition optional_text (s : option pystr) : sdk_value := match s with Some s => SStr s | None => SNone end.

(** * Fields of the models, in strict mode *)

Definition strict_str (v : sdk_value) : res pystr :=
  match v with SStr s => if unicode_text s then Ok s else fail ValidationError | _ => fail ValidationError end.

Definition strict_int (v : sdk_value) : res Z :=
  match v with SInt z => Ok z | _ => fail ValidationError end.

Definition strict_bool (v : sdk_value) : res bool :=
  match v with SBool b => Ok b | _ => fail ValidationError end.

Definition checked {A} (ok : A → bool) (r : res A) : res A :=
  a ← r; if ok a then Ok a else fail ValidationError.

Definition at_least (n : Z) (v : sdk_value) : res Z := checked (λ z, n <=? z)%Z (strict_int v).

(** [X | None]. *)
Definition or_none {A} (f : sdk_value → res A) (v : sdk_value) : res (option A) :=
  if is_none v then Ok None else a ← f v; Ok (Some a).

(** The patterns [^prefix[A-Za-z0-9]+$] and [^[a-z]{3}$]. *)
Definition alphanumeric (c : N) : bool := lower c || upper c || digit c.

Definition is_stripe_id (prefix s : pystr) : bool :=
  let rest := drop (pystr_len prefix) (code_points s) in
  bool_decide (take (pystr_len prefix) (code_points s) = code_points prefix)
  && negb (bool_decide (rest = [])) && forallb alphanumeric rest.

Definition stripe_id (prefix : pystr) (v : sdk_value) : res pystr := checked (is_stripe_id prefix) (strict_str v).

Definition is_currency (s : pystr) : bool := (pystr_len s =? 3)%nat && forallb lower (code_points s).

Definition currency (v : sdk_value) : res pystr := checked is_currency (strict_str v).

(** [Literal[...]]. *)
Fixpoint named {A} (table : list (pystr * A)) (s : pystr) : res A :=
  match table with
  | [] => fail ValidationError
  | (name, a) :: table' => if bool_decide (s = name) then Ok a else named table' s
  end.

Definition literal {A} (table : list (pystr * A)) (v : sdk_value) : res A := s ← strict_str v; named table s.

Section Fields.
Context `{U : Unicode}.

Definition reference_field (v : sdk_value) : res pystr := s ← strict_str v; SafeReference s.

(** [_time]: the seconds of the epoch that [datetime.fromtimestamp] has an instant for. *)
Definition _time (value : sdk_value) : res datetime :=
  z ← strict_int value;
  if (-62135596800 <=? z)%Z && (z <=? 253402300799)%Z then Ok (z * 1000000)%Z else fail OverflowError.

(** * Observations *)

Definition CORRELATION_KEY : pystr := "threvo_refund_intent".
Definition SUBSCRIPTION_CORRELATION_KEY : pystr := "threvo_subscription_intent".
Definition CREDIT_NOTE_CORRELATION_KEY : pystr := "threvo_credit_note_intent".

(** [(value.metadata or {}).get(key, "")]. *)
Definition correlation_of (key : pystr) (value : sdk_value) : res sdk_value :=
  metadata ← attr value "metadata"; get_or (or_else metadata (SObject [])) key (SStr (PyStr [])).

Definition refund_statuses : list (pystr * RefundStatus) :=
  [("pending", RF_pending); ("requires_action", RF_requires_action); ("succeeded", RF_succeeded);
   ("failed", RF_failed); ("canceled", RF_canceled)]%py.

Definition _observation (refund : sdk_value) : res RefundObservation :=
  charge ← attr refund "charge";
  id ← attr refund "id";
  charge_id ← match charge with
    | SStr s => Ok charge
    | _ => if truthy charge then attr charge "id" else Ok SNone
    end;
  cur ← attr refund "currency";
  amount ← attr refund "amount";
  status ← attr refund "status";
  correlation ← correlation_of CORRELATION_KEY refund;
  id ← stripe_id "re_" id;
  charge_id ← stripe_id "ch_" charge_id;
  cur ← currency cur;
  amount ← at_least 1 amount;
  status ← literal refund_statuses status;
  correlation ← strict_str correlation;
  Ok (mkRefundObservation id charge_id cur amount status correlation).

Definition charge_observation (value : sdk_value) : res ChargeObservation :=
  id ← attr value "id";
  cur ← attr value "currency";
  amount ← attr value "amount";
  refunded ← attr value "amount_refunded";
  captured ← attr value "captured";
  paid ← attr value "paid";
  disputed ← attr value "disputed";
  livemode ← attr value "livemode";
  transfer_data ← get_or value "transfer_data" SNone;
  indirect ← (if negb (is_none transfer_data) then Ok true
              else transfer ← get_or value "transfer" SNone; Ok (negb (is_none transfer)));
  id ← stripe_id "ch_" id;
  cur ← currency cur;
  amount ← at_least 0 amount;
  refunded ← at_least 0 refunded;
  captured ← strict_bool captured;
  paid ← strict_bool paid;
  disputed ← strict_bool disputed;
  livemode ← strict_bool livemode;
  Ok (mkChargeObservation id cur amount refunded captured paid disputed livemode indirect).

Definition refund_page (page : sdk_value) : res RefundPage :=
  data ← attr page "data";
  data ← elements data;
  refunds ← mapM _observation data;
  has_more ← attr page "has_more";
  has_more ← strict_bool has_more;
  Ok (mkRefundPage refunds has_more).

(** ** Subscriptions *)

Definition subscription_statuses : list (pystr * SubscriptionStatus) :=
  [("active", SU_active); ("canceled", SU_canceled); ("incomplete", SU_incomplete);
   ("incomplete_expired", SU_incomplete_expired); ("past_due", SU_past_due); ("paused", SU_paused);
   ("trialing", SU_trialing); ("unpaid", SU_unpaid)]%py.

(** [a and b and ...] of tests that are made one after the other. *)
Fixpoint all_of (tests : list (res bool)) : res bool :=
  match tests with
  | [] => Ok true
  | t :: tests' => b ← t; if (b : bool) then all_of tests' else Ok false
  end.

Definition none_attr (value : sdk_value) (name : pystr) : res bool := v ← attr value name; Ok (is_none v).
Definition none_got (value : sdk_value) (name : pystr) : res bool := v ← get_or value name SNone; Ok (is_none v).

Definition supported_subscription (value recurring : sdk_value) : res bool :=
  all_of [Ok (negb (is_none recurring));
          (usage ← attr recurring "usage_type"; Ok (py_eq usage (SStr "licensed")));
          none_attr value "schedule"; none_attr value "pending_update"; none_attr value "pause_collection";
          none_got value "transfer_data"; none_got value "on_behalf_of"].

(** What a test that is not reached would raise is not raised: the tests of a list are
    values, of which [all_of] looks at those before the first [false]. *)
Definition _subscription (value : sdk_value) : res SubscriptionObservation :=
  items ← subscript value "items";
  more ← attr items "has_more";
  several ← (if truthy more then Ok true
             else data ← attr items "data"; n ← len data; Ok (negb (n =? 1)%nat));
  if (several : bool) then fail boundary_error else
  data ← attr items "data";
  item ← first data;
  price ← attr item "price";
  recurring ← attr price "recurring";
  id ← attr value "id";
  customer ← attr value "customer";
  status ← attr value "status";
  livemode ← attr value "livemode";
  item_id ← attr item "id";
  price_id ← attr price "id";
  quantity ← attr item "quantity";
  period_start ← attr item "current_period_start";
  period_start ← _time period_start;
  period_end ← attr item "current_period_end";
  period_end ← _time period_end;
  at_period_end ← attr value "cancel_at_period_end";
  cancel_at ← attr value "cancel_at";
  cancel_at ← or_none _time cancel_at;
  supported ← supported_subscription value recurring;
  correlation ← correlation_of SUBSCRIPTION_CORRELATION_KEY value;
  id ← stripe_id "sub_" id;
  customer ← stripe_id "cus_" (optional_text (_reference customer));
  status ← literal subscription_statuses status;
  livemode ← strict_bool livemode;
  item_id ← reference_field item_id;
  price_id ← reference_field price_id;
  quantity ← at_least 1 quantity;
  at_period_end ← strict_bool at_period_end;
  correlation ← strict_str correlation;
  Ok (mkSubscriptionObservation id customer status livemode item_id price_id quantity period_start period_end
        at_period_end cancel_at supported correlation).

(** ** Credit notes *)

Definition tax_behaviors : list (pystr * TaxBehavior) := [("exclusive", exclusive); ("inclusive", inclusive)]%py.
Definition credit_reasons : list (pystr * CreditNoteReason) :=
  [("duplicate", CR_duplicate); ("fraudulent", CR_fraudulent); ("order_change", CR_order_change);
   ("product_unsatisfactory", CR_product_unsatisfactory)]%py.
Definition note_statuses : list (pystr * CreditNoteStatus) := [("issued", CN_issued); ("void", CN_void)]%py.
Definition invoice_statuses : list (pystr * InvoiceStatus) :=
  [("draft", IN_draft); ("open", IN_open); ("paid", IN_paid); ("uncollectible", IN_uncollectible);
   ("void", IN_void)]%py.

Definition credit_tax (tax : sdk_value) : res CreditNoteTax :=
  amount ← attr tax "amount";
  taxable ← attr tax "taxable_amount";
  behavior ← attr tax "tax_behavior";
  details ← attr tax "tax_rate_details";
  rate ← (if truthy details then attr details "tax_rate" else Ok SNone);
  reason ← attr tax "taxability_reason";
  amount ← strict_int amount;
  taxable ← or_none strict_int taxable;
  behavior ← literal tax_behaviors behavior;
  rate ← or_none strict_str rate;
  reason ← strict_str reason;
  Ok (mkCreditNoteTax amount taxable behavior rate reason).

(** [any(credit.type != "discount" for credit in credits)]. *)
Fixpoint other_credit (credits : list sdk_value) : res bool :=
  match credits with
  | [] => Ok false
  | credit :: credits' =>
      kind ← attr credit "type";
      if negb (py_eq kind (SStr "discount")) then Ok true else other_credit credits'
  end.

Definition calculated_line (line : sdk_value) : res CreditNoteCalculatedLine :=
  kind ← attr line "type";
  unsupported ←
    (if negb (py_eq kind (SStr "invoice_line_item")) then Ok true
     else credits ← get_or line "pretax_credit_amounts" SNone;
          credits ← elements (or_else credits (SList []));
          other_credit credits);
  if (unsupported : bool) then fail boundary_error else
  id ← attr line "invoice_line_item";
  amount ← attr line "amount";
  discount ← attr line "discount_amount";
  taxes ← attr line "taxes";
  taxes ← elements (or_else taxes (SList []));
  taxes ← mapM credit_tax taxes;
  id ← stripe_id "il_" id;
  amount ← at_least 0 amount;
  discount ← at_least 0 discount;
  Ok (mkCreditNoteCalculatedLine id amount discount taxes).

(** [sorted(lines, key=lambda line: line.invoice_line_id)]. *)
Fixpoint insert_line (x : CreditNoteCalculatedLine) (l : list CreditNoteCalculatedLine) : list CreditNoteCalculatedLine :=
  match l with
  | [] => [x]
  | y :: l' => if points_leb (code_points (kl_invoice_line_id x)) (code_points (kl_invoice_line_id y))
               then x :: l else y :: insert_line x l'
  end.

Definition sort_lines (l : list CreditNoteCalculatedLine) : list CreditNoteCalculatedLine := foldr insert_line [] l.

Definition _calculation (value : sdk_value) : res CreditNoteCalculation :=
  lines ← attr value "lines";
  more ← attr lines "has_more";
  unsupported ← (if truthy more then Ok true
                 else shipping ← attr value "amount_shipping"; Ok (negb (py_eq shipping (SInt 0))));
  if (unsupported : bool) then fail boundary_error else
  data ← attr lines "data";
  data ← elements data;
  lines ← mapM calculated_line data;
  amount ← attr value "amount";
  total ← attr value "total";
  if negb (py_eq amount total) then fail boundary_error else
  cur ← attr value "currency";
  pre ← attr value "pre_payment_amount";
  post ← attr value "post_payment_amount";
  cur ← currency cur;
  amount ← at_least 1 amount;
  pre ← at_least 0 pre;
  post ← at_least 0 post;
  if (1 <=? length lines)%nat && (length lines <=? 10)%nat
  then Ok (mkCreditNoteCalculation cur amount pre post (sort_lines lines)) else fail ValidationError.

Definition _note (value : sdk_value) : res CreditNoteObservation :=
  id ← attr value "id";
  invoice ← attr value "invoice";
  customer ← attr value "customer";
  livemode ← attr value "livemode";
  status ← attr value "status";
  reason ← attr value "reason";
  calculation ← _calculation value;
  correlation ← correlation_of CREDIT_NOTE_CORRELATION_KEY value;
  transaction ← attr value "customer_balance_transaction";
  refunds ← attr value "refunds";
  out_of_band ← attr value "out_of_band_amount";
  id ← stripe_id "cn_" id;
  invoice ← stripe_id "in_" (optional_text (_reference invoice));
  customer ← stripe_id "cus_" (optional_text (_reference customer));
  livemode ← strict_bool livemode;
  status ← literal note_statuses status;
  reason ← or_none (literal credit_reasons) reason;
  correlation ← strict_str correlation;
  transaction ← or_none (stripe_id "cbtxn_") (optional_text (_reference transaction));
  out_of_band ← at_least 0 (or_else out_of_band (SInt 0));
  Ok (mkCreditNoteObservation id invoice customer livemode status reason calculation correlation transaction
        (truthy refunds) out_of_band).

Definition invoice_observation (value : sdk_value) : res InvoiceObservation :=
  id ← attr value "id";
  customer ← attr value "customer";
  cur ← attr value "currency";
  livemode ← attr value "livemode";
  status ← attr value "status";
  total ← attr value "total";
  due ← attr value "amount_due";
  paid ← attr value "amount_paid";
  remaining ← attr value "amount_remaining";
  pre ← attr value "pre_payment_credit_notes_amount";
  post ← attr value "post_payment_credit_notes_amount";
  supported ← all_of [none_got value "transfer_data"; none_got value "on_behalf_of"];
  id ← stripe_id "in_" id;
  customer ← stripe_id "cus_" (optional_text (_reference customer));
  cur ← currency cur;
  livemode ← strict_bool livemode;
  status ← literal invoice_statuses status;
  total ← strict_int total;
  due ← strict_int due;
  paid ← at_least 0 paid;
  remaining ← at_least 0 remaining;
  pre ← at_least 0 pre;
  post ← at_least 0 post;
  Ok (mkInvoiceObservation id customer cur livemode status total due paid remaining pre post supported).

(** What [preview] requires before it reads the calculation. *)
Definition previewed (draft : CreditNoteDraft) (value : sdk_value) : res CreditNoteCalculation :=
  invoice ← attr value "invoice";
  inconsistent ←
    (if negb (bool_decide (_reference invoice = Some (iv_invoice_id (dr_invoice draft)))) then Ok true
     else customer ← attr value "customer";
     if negb (bool_decide (_reference customer = Some (iv_customer_id (dr_invoice draft)))) then Ok true
     else livemode ← attr value "livemode";
     if negb (py_eq livemode (SBool (sa_livemode (iv_account (dr_invoice draft))))) then Ok true
     else refunds ← attr value "refunds";
     if truthy refunds then Ok true
     else out_of_band ← attr value "out_of_band_amount";
     Ok (negb (py_eq (or_else out_of_band (SInt 0)) (SInt 0))));
  if (inconsistent : bool) then fail boundary_error else _calculation value.

Definition note_lookup (value : sdk_value) : res CreditNoteLookup :=
  id ← attr value "id";
  correlation ← correlation_of CREDIT_NOTE_CORRELATION_KEY value;
  id ← stripe_id "cn_" id;
  correlation ← strict_str correlation;
  Ok (mkCreditNoteLookup id correlation).

Definition note_page (values : sdk_value) : res CreditNotePage :=
  data ← attr values "data";
  data ← elements data;
  notes ← mapM note_lookup data;
  has_more ← attr values "has_more";
  has_more ← strict_bool has_more;
  Ok (mkCreditNotePage notes has_more).

Definition customer_credit_observation (value : sdk_value) : res CustomerCreditObservation :=
  id ← attr value "id";
  customer ← attr value "customer";
  note ← attr value "credit_note";
  cur ← attr value "currency";
  amount ← attr value "amount";
  kind ← attr value "type";
  id ← strict_str id;
  customer ← stripe_id "cus_" (optional_text (_reference customer));
  note ← stripe_id "cn_" (optional_text (_reference note));
  cur ← strict_str cur;
  amount ← strict_int amount;
  kind ← strict_str kind;
  Ok (mkCustomerCreditObservation id customer note cur amount kind).
End Fields.

(** * Requests *)

Record RequestOptions := mkRequestOptions {
  max_network_retries : Z;
  stripe_account : option pystr;
  idempotency_key : option pystr
}.

(** A method of the client: a resource and an operation, the identifiers in its path, and
    its parameters. *)
Record sdk_request := mkRequest {
  rq_method : pystr;
  rq_path : list pystr;
  rq_params : list (pystr * sdk_value);
  rq_options : RequestOptions
}.

Inductive talk (A : Type) :=
  | Reply (r : res A)
  | Send (q : sdk_request) (k : res sdk_value → talk A).
Arguments Reply {A} r.
Arguments Send {A} q k.

(** [client.v1.method(...)], read by [f]. *)
Definition ask {A} (q : sdk_request) (f : sdk_value → res A) : talk A := Send q (λ r, Reply (r ≫= f)).

(** [try: t except errors: raise StripeBoundaryError(...)]. *)
Definition boundary {A} (errors : exn → bool) (r : res A) : res A :=
  match r with Ok a => Ok a | Err e => if errors e then fail boundary_error else Err e end.

Fixpoint within {A} (errors : exn → bool) (t : talk A) : talk A :=
  match t with
  | Reply r => Reply (boundary errors r)
  | Send q k => Send q (λ r, within errors (k r))
  end.

(** An argument of a request that is computed before it is sent. *)
Definition given {A B} (r : res A) (f : A → talk B) : talk B :=
  match r with Ok a => f a | Err e => Reply (Err e) end.

Class SdkErrors := { is_StripeError : exn → bool }.

Section Gateways.
Context `{U : Unicode, D : PyDump, E : SdkErrors}.

Definition sdk_errors (e : exn) : bool :=
  is_StripeError e
  || bool_decide (exn_class e ∈ [ValidationError; AttributeError; TypeError]).

Definition _BOUNDARY_ERRORS (e : exn) : bool :=
  is_StripeError e || is_KeyError_or_ValueError e
  || bool_decide (exn_class e ∈ [ValidationError; AttributeError; TypeError; OverflowError; OtherException "OSError"%py]).

Definition _options (account : StripeAccount) (key : option pystr) : RequestOptions :=
  mkRequestOptions 0 (sa_connected_account account) key.

(** ** Refunds *)

Definition refund_idempotency_key (intent : RefundIntent) : res pystr :=
  c ← refund_correlation intent; Ok ("threvo-refund-" +:+ c)%py.

Definition charge (intent : RefundIntent) : talk ChargeObservation :=
  within sdk_errors
    (ask (mkRequest "charges.retrieve" [ri_charge_id intent] [] (_options (ri_account intent) None)) charge_observation).

Definition create_refund (intent : RefundIntent) : talk RefundObservation :=
  given (refund_idempotency_key intent) (λ key,
  within sdk_errors (
    given (refund_correlation intent) (λ correlation,
    ask (mkRequest "refunds.create" []
      [("charge", SStr (ri_charge_id intent)); ("amount", SInt (amount_minor intent));
       ("metadata", SObject [(CORRELATION_KEY, SStr correlation)])]%py
      (_options (ri_account intent) (Some key))) _observation))).

Definition retrieve_refund (intent : RefundIntent) (refund_id : pystr) : talk RefundObservation :=
  within sdk_errors
    (ask (mkRequest "refunds.retrieve" [refund_id] [] (_options (ri_account intent) None)) _observation).

(** The parameters of a page. *)
Definition page_params (field : pystr) (id : pystr) (after : option pystr) : list (pystr * sdk_value) :=
  [(field, SStr id); ("limit"%py, SInt 100)]
    ++ match after with Some after => [("starting_after"%py, SStr after)] | None => [] end.

Definition refunds (intent : RefundIntent) (after : option pystr) : talk RefundPage :=
  within sdk_errors
    (ask (mkRequest "refunds.list" [] (page_params "charge" (ri_charge_id intent) after)
       (_options (ri_account intent) None)) refund_page).

(** ** Subscriptions *)

Definition effect_idempotency_key (namespace : pystr) (correlation : res pystr) : res pystr :=
  c ← correlation; Ok ("threvo-" +:+ namespace +:+ "-" +:+ c)%py.

Definition retrieve_subscription (binding : SubscriptionBinding) : talk SubscriptionObservation :=
  within _BOUNDARY_ERRORS
    (ask (mkRequest "subscriptions.retrieve" [sb_subscription_id binding] [] (_options (sb_account binding) None))
       _subscription).

Definition update_subscription (snapshot : SubscriptionCancellationSnapshot) : talk SubscriptionObservation :=
  within _BOUNDARY_ERRORS (
    given (cancellation_correlation snapshot) (λ correlation,
    given (effect_idempotency_key "subscription-cancellation" (cancellation_correlation snapshot)) (λ key,
    ask (mkRequest "subscriptions.update" [sb_subscription_id (cs_binding snapshot)]
      [("cancel_at_period_end", SBool (bool_decide (cs_operation snapshot = SCHEDULE)));
       ("metadata", SObject [(SUBSCRIPTION_CORRELATION_KEY, SStr correlation)]);
       ("proration_behavior", SStr "none")]%py
      (_options (sb_account (cs_binding snapshot)) (Some key))) _subscription))).

(** ** Credit notes *)

Definition invoice (binding : CreditNoteInvoice) : talk InvoiceObservation :=
  within _BOUNDARY_ERRORS
    (ask (mkRequest "invoices.retrieve" [iv_invoice_id binding] [] (_options (iv_account binding) None))
       invoice_observation).

Definition reason_value (r : CreditNoteReason) : pystr :=
  match r with
  | CR_duplicate => "duplicate" | CR_fraudulent => "fraudulent" | CR_order_change => "order_change"
  | CR_product_unsatisfactory => "product_unsatisfactory"
  end.

Definition line_params (line : CreditNoteLine) : sdk_value :=
  SObject [("type", SStr "invoice_line_item"); ("invoice_line_item", SStr (nl_invoice_line_id line));
           ("amount", SInt (nl_amount_minor line))]%py.

Definition _preview_params (draft : CreditNoteDraft) : list (pystr * sdk_value) :=
  [("invoice", SStr (iv_invoice_id (dr_invoice draft))); ("lines", SList (line_params <$> dr_lines draft));
   ("credit_amount", SInt (credit_minor draft)); ("refund_amount", SInt 0); ("out_of_band_amount", SInt 0);
   ("reason", SStr (reason_value (nr_reason (dr_request draft)))); ("email_type", SStr "none")]%py.

Definition preview (draft : CreditNoteDraft) : talk CreditNoteCalculation :=
  within _BOUNDARY_ERRORS
    (ask (mkRequest "credit_notes.preview" [] (_preview_params draft) (_options (iv_account (dr_invoice draft)) None))
       (previewed draft)).

Definition create_note (snapshot : CreditNoteSnapshot) : talk CreditNoteObservation :=
  let draft := ns_draft snapshot in
  given (credit_correlation snapshot) (λ correlation,
  within _BOUNDARY_ERRORS (
    given (effect_idempotency_key "credit-note" (credit_correlation snapshot)) (λ key,
    ask (mkRequest "credit_notes.create" []
      (_preview_params draft ++ [("metadata", SObject [(CREDIT_NOTE_CORRELATION_KEY, SStr correlation)])]%py)
      (_options (iv_account (dr_invoice draft)) (Some key))) _note))).

Definition notes (binding : CreditNoteInvoice) (after : option pystr) : talk CreditNotePage :=
  within _BOUNDARY_ERRORS
    (ask (mkRequest "credit_notes.list" [] (page_params "invoice" (iv_invoice_id binding) after)
       (_options (iv_account binding) None)) note_page).

Definition retrieve_note (binding : CreditNoteInvoice) (note_id : pystr) : talk CreditNoteObservation :=
  within _BOUNDARY_ERRORS
    (ask (mkRequest "credit_notes.retrieve" [note_id] [] (_options (iv_account binding) None)) _note).

Definition customer_credit (binding : CreditNoteInvoice) (transaction_id : pystr) : talk CustomerCreditObservation :=
  within _BOUNDARY_ERRORS
    (ask (mkRequest "customers.balance_transactions.retrieve" [iv_customer_id binding; transaction_id] []
       (_options (iv_account binding) None)) customer_credit_observation).
End Gateways.
