(* ===== verification/SdkSafety.v ===== *)
(** What the Stripe SDK transports do with whatever the client answers: what is
    sent, which failures reach the workflows, and that what Stripe shows is what they
    observe. *)

From Stdlib Require Import Sorted.
From S2P Require Import Prelude Models Canonical Authority Receipts Registry StripeModels StoredValidity.
From S2P Require Import StoreBase StoreContract Recovery Program StripeOperation StripeRefunds StripeBilling.
From S2P Require Import StripeActions StripeSafety StripeEffects StripeScenario SdkGateway.

(** * Failures *)

(** [r] is a value or an exception that [P] names. *)
Definition fails_within {A} (P : exn → bool) (r : res A) : Prop :=
  match r with Ok _ => True | Err e => P e = true end.

Create HintDb fails.

(** The exceptions of reading an object: of the SDK, and of the models. *)
Definition reading_errors (e : exn) : bool :=
  bool_decide (exn_class e ∈ [ValidationError; AttributeError; TypeError]).

Definition billing_errors (e : exn) : bool :=
  reading_errors e || is_KeyError_or_ValueError e || bool_decide (exn_class e = OverflowError) || is_boundary_error e.

Section Failures.
Variable P : exn → bool.

Lemma fails_bind {A B} (r : res A) (f : A → res B) :
  fails_within P r → (∀ a, r = Ok a → fails_within P (f a)) → fails_within P (r ≫= f).
Proof. destruct r as [a|e]; cbn; [|done]. intros _ H. by apply H. Qed.

Lemma fails_mapM {A B} (f : A → res B) l : (∀ a, fails_within P (f a)) → fails_within P (mapM f l).
Proof.
  intros Hf. induction l as [|x l IH]; [done|]. apply (fails_bind (f x)); [apply Hf|]. intros y _.
  by apply fails_bind.
Qed.

Hypothesis reading : ∀ e, reading_errors e = true → P e = true.

Lemma fails_attr v name : fails_within P (attr v name).
Proof. destruct v as [| | | | | |f]; cbn; try (by apply reading). destruct (entry f name); [done|]. by apply reading. Qed.

Lemma fails_get v name d : fails_within P (get_or v name d).
Proof. destruct v; cbn; try done; by apply reading. Qed.

Lemma fails_elements v : fails_within P (elements v).
Proof. destruct v; cbn; try done; by apply reading. Qed.

Lemma fails_str v : fails_within P (strict_str v).
Proof. destruct v; cbn; try (by apply reading). destruct (unicode_text s); [done|]. by apply reading. Qed.

Lemma fails_int v : fails_within P (strict_int v).
Proof. destruct v; cbn; try done; by apply reading. Qed.

Lemma fails_bool v : fails_within P (strict_bool v).
Proof. destruct v; cbn; try done; by apply reading. Qed.

Lemma fails_checked {A} (ok : A → bool) r : fails_within P r → fails_within P (checked ok r).
Proof. intros Hr. apply fails_bind; [done|]. intros a _. destruct (ok a); [done|]. by apply reading. Qed.

Lemma fails_named {A} (table : list (pystr * A)) s : fails_within P (named table s).
Proof. induction table as [|[n a] t IH]; cbn; [by apply reading|]. by case_bool_decide. Qed.

Lemma fails_literal {A} (table : list (pystr * A)) v : fails_within P (literal table v).
Proof. apply fails_bind; [apply fails_str|]. intros. apply fails_named. Qed.

Lemma fails_or_none {A} (f : sdk_value → res A) v : fails_within P (f v) → fails_within P (or_none f v).
Proof. intros Hf. unfold or_none. destruct (is_none v); [done|]. by apply fails_bind. Qed.

Lemma fails_correlation key v : fails_within P (correlation_of key v).
Proof. apply fails_bind; [apply fails_attr|]. intros. apply fails_get. Qed.

Lemma fails_all_of tests : Forall (fails_within P) tests → fails_within P (all_of tests).
Proof.
  induction 1 as [|t tests Ht _ IH]; [done|]. cbn. apply fails_bind; [done|]. by intros [].
Qed.
End Failures.

#[export] Hint Resolve fails_attr fails_get fails_elements fails_str fails_int fails_bool fails_checked fails_literal
  fails_or_none fails_correlation fails_mapM : fails.

(** Reads one part after the other. *)
Ltac reads_on := repeat first
  [ progress cbv beta iota
  | exact I
  | reflexivity
  | solve [auto with fails]
  | apply fails_bind; [|intros ? ?]
  | case_match ].

Lemma refund_fails v : fails_within reading_errors (_observation v).
Proof. unfold _observation, stripe_id, currency, at_least. reads_on. Qed.

Lemma charge_fails v : fails_within reading_errors (charge_observation v).
Proof. unfold charge_observation, stripe_id, currency, at_least. reads_on. Qed.

Lemma refund_page_fails v : fails_within reading_errors (refund_page v).
Proof. pose proof refund_fails. unfold refund_page. reads_on. Qed.

Lemma billing_reading e : reading_errors e = true → billing_errors e = true.
Proof. unfold billing_errors. by intros ->. Qed.
#[export] Hint Resolve billing_reading : fails.

Section Billing_fails.
Context `{U : Unicode}.

Lemma reference_fails v : fails_within billing_errors (reference_field v).
Proof.
  apply fails_bind; [auto with fails|]. intros s _. unfold SafeReference. repeat case_match; done.
Qed.

Lemma time_fails v : fails_within billing_errors (_time v).
Proof. unfold _time. apply fails_bind; [auto with fails|]. intros z _. by case_match. Qed.

#[local] Hint Resolve reference_fails time_fails : fails.

Lemma supported_fails v r : fails_within billing_errors (supported_subscription v r).
Proof.
  unfold supported_subscription, none_attr, none_got. apply fails_all_of.
  repeat (apply List.Forall_cons; [reads_on|]). by apply List.Forall_nil.
Qed.
#[local] Hint Resolve supported_fails : fails.

(** Its list of items is read for the first one only when there is one. *)
Lemma first_fails data : len data = Ok 1 → fails_within billing_errors (first data).
Proof.
  destruct data; unfold len; cbn; intros E; simplify_eq; try done.
  - by destruct (code_points s).
  - by destruct l.
Qed.

Lemma subscription_fails v : fails_within billing_errors (_subscription v).
Proof.
  unfold _subscription, stripe_id, at_least.
  apply fails_bind; [destruct v as [| | | | | |f]; cbn; try done; by destruct (entry f _)|]. intros items _.
  apply fails_bind; [auto with fails|]. intros more _.
  apply fails_bind.
  { case_match; [done|]. apply fails_bind; [auto with fails|]. intros data _. unfold len. reads_on. }
  intros several Hs. destruct several; [done|].
  apply fails_bind; [auto with fails|]. intros data Hd.
  apply fails_bind.
  { apply first_fails. destruct (truthy more); [done|]. rewrite Hd in Hs. cbn in Hs.
    destruct (len data) as [n|]; [|done]. cbn in Hs. simplify_eq. apply negb_false_iff, Nat.eqb_eq in Hs. by subst. }
  intros item _. reads_on.
Qed.

Lemma tax_fails v : fails_within billing_errors (credit_tax v).
Proof. unfold credit_tax. reads_on. Qed.

Lemma other_credit_fails l : fails_within billing_errors (other_credit l).
Proof. induction l as [|c l IH]; [done|]. cbn [other_credit]. reads_on. Qed.
#[local] Hint Resolve tax_fails other_credit_fails : fails.

Lemma line_fails v : fails_within billing_errors (calculated_line v).
Proof. unfold calculated_line, stripe_id, at_least. reads_on. Qed.
#[local] Hint Resolve line_fails : fails.

Lemma calculation_fails v : fails_within billing_errors (_calculation v).
Proof. unfold _calculation, currency, at_least. reads_on. Qed.
#[local] Hint Resolve calculation_fails : fails.

Lemma note_fails v : fails_within billing_errors (_note v).
Proof. unfold _note, stripe_id, at_least. reads_on. Qed.

Lemma invoice_fails v : fails_within billing_errors (invoice_observation v).
Proof.
  unfold invoice_observation, stripe_id, at_least, currency. reads_on.
Qed.

Lemma preview_fails d v : fails_within billing_errors (previewed d v).
Proof. unfold previewed. reads_on. Qed.

Lemma lookup_fails v : fails_within billing_errors (note_lookup v).
Proof. unfold note_lookup, stripe_id. reads_on. Qed.
#[local] Hint Resolve lookup_fails : fails.

Lemma note_page_fails v : fails_within billing_errors (note_page v).
Proof. unfold note_page. reads_on. Qed.

Lemma customer_credit_fails v : fails_within billing_errors (customer_credit_observation v).
Proof. unfold customer_credit_observation, stripe_id. reads_on. Qed.
End Billing_fails.

(** * Requests *)

(** What is sent to a client, and what comes of it. *)
Fixpoint converse {A} (client : sdk_request → res sdk_value) (t : talk A) : list sdk_request * res A :=
  match t with
  | Reply r => ([], r)
  | Send q k => let '(qs, r) := converse client (k (client q)) in (q :: qs, r)
  end.

Lemma converse_ask {A} errors q (f : sdk_value → res A) client :
  converse client (within errors (ask q f)) = ([q], boundary errors (client q ≫= f)).
Proof. done. Qed.

Section Sdk.
Context `{U : Unicode, D : PyDump, E : SdkErrors}.

(** The operations of the gateways; the others are the host's. *)
Definition sdk (o : stripe_op) : option (talk (stripe_resp o)) :=
  match o return option (talk (stripe_resp o)) with
  | Refunds (Charge intent) => Some (charge intent)
  | Refunds (CreateRefund intent) => Some (create_refund intent)
  | Refunds (RetrieveRefund intent id) => Some (retrieve_refund intent id)
  | Refunds (ListRefunds intent after) => Some (refunds intent after)
  | Subscriptions (RetrieveSubscription binding) => Some (retrieve_subscription binding)
  | Subscriptions (UpdateSubscription snapshot) => Some (update_subscription snapshot)
  | CreditNotes (Invoice binding) => Some (invoice binding)
  | CreditNotes (Preview draft) => Some (preview draft)
  | CreditNotes (CreateNote snapshot) => Some (create_note snapshot)
  | CreditNotes (ListNotes binding after) => Some (notes binding after)
  | CreditNotes (RetrieveNote binding id) => Some (retrieve_note binding id)
  | CreditNotes (CustomerCredit binding id) => Some (customer_credit binding id)
  | _ => None
  end.

Definition account_of (o : stripe_op) : option StripeAccount :=
  match o with
  | Refunds (Charge intent) | Refunds (CreateRefund intent) | Refunds (RetrieveRefund intent _)
  | Refunds (ListRefunds intent _) => Some (ri_account intent)
  | Subscriptions (RetrieveSubscription binding) => Some (sb_account binding)
  | Subscriptions (UpdateSubscription snapshot) => Some (sb_account (cs_binding snapshot))
  | CreditNotes (Invoice binding) | CreditNotes (ListNotes binding _) | CreditNotes (RetrieveNote binding _)
  | CreditNotes (CustomerCredit binding _) => Some (iv_account binding)
  | CreditNotes (Preview draft) => Some (iv_account (dr_invoice draft))
  | CreditNotes (CreateNote snapshot) => Some (iv_account (dr_invoice (ns_draft snapshot)))
  | _ => None
  end.

(** The key under which Stripe takes a mutation once. *)
Definition key_of (o : stripe_op) : option (res pystr) :=
  match o with
  | Refunds (CreateRefund intent) => Some (refund_idempotency_key intent)
  | Subscriptions (UpdateSubscription s) =>
      Some (effect_idempotency_key "subscription-cancellation" (cancellation_correlation s))
  | CreditNotes (CreateNote s) => Some (effect_idempotency_key "credit-note" (credit_correlation s))
  | _ => None
  end.

Definition mutating_methods : list pystr := ["refunds.create"; "subscriptions.update"; "credit_notes.create"]%py.
Definition mutates (q : sdk_request) : bool := bool_decide (rq_method q ∈ mutating_methods).

(** A request of [o]: it is not sent again by the client, goes to the account of
    [o], and has a key just when it mutates. *)
Record proper_request (o : stripe_op) (q : sdk_request) : Prop := {
  pr_retries : max_network_retries (rq_options q) = 0%Z;
  pr_account : ∃ a, account_of o = Some a ∧ stripe_account (rq_options q) = sa_connected_account a;
  pr_key : match key_of o with
           | Some k => ∃ key, k = Ok key ∧ idempotency_key (rq_options q) = Some key
           | None => idempotency_key (rq_options q) = None
           end;
  pr_mutates : mutates q = dispatches (Stripe o)
}.

(** The client raises nothing but what the SDK raises. *)
Definition sdk_client (client : sdk_request → res sdk_value) : Prop :=
  ∀ q e, client q = Err e → is_StripeError e = true.

Lemma boundary_fails {A} errors P (r : res A) :
  (∀ e, P e = true → errors e = true ∨ is_boundary_error e = true) →
  fails_within P r → fails_within is_boundary_error (boundary errors r).
Proof.
  intros H. destruct r as [a|e]; [done|]. cbn. intros He. destruct (errors e) eqn:Ee; [done|].
  by destruct (H e He) as [?|?]; [congruence|].
Qed.

Lemma sdk_names e : is_StripeError e || reading_errors e = true → sdk_errors e = true ∨ is_boundary_error e = true.
Proof. unfold sdk_errors, reading_errors. by left. Qed.

Lemma billing_names e :
  is_StripeError e || billing_errors e = true → _BOUNDARY_ERRORS e = true ∨ is_boundary_error e = true.
Proof.
  unfold _BOUNDARY_ERRORS, billing_errors, reading_errors. destruct (is_boundary_error e); [by right|].
  rewrite orb_false_r. intros H. left. destruct (is_StripeError e); [done|]. cbn in *.
  destruct (is_KeyError_or_ValueError e); [done|]. cbn in *. rewrite orb_false_r in H.
  apply bool_decide_eq_true_2. apply orb_prop in H as [H|H]; apply bool_decide_eq_true_1 in H.
  - rewrite !elem_of_cons in *. tauto.
  - rewrite H. set_solver.
Qed.

Lemma asks_properly {A} errors P o q (f : sdk_value → res A) client :
  (∀ e, is_StripeError e || P e = true → errors e = true ∨ is_boundary_error e = true) →
  (∀ v, fails_within P (f v)) → proper_request o q → sdk_client client →
  match converse client (within errors (ask q f)) with
  | ([q], r) => proper_request o q ∧ fails_within is_boundary_error r
  | _ => False
  end.
Proof.
  intros He Hf Hq Hc. rewrite converse_ask. split; [done|]. apply (boundary_fails _ (λ e, is_StripeError e || P e)); [done|].
  destruct (client q) as [v|e] eqn:Ev; cbn; [|by rewrite (Hc q e Ev)].
  specialize (Hf v). destruct (f v); [done|]. cbn in *. rewrite Hf. apply orb_true_r.
Qed.

(** What a talk of a gateway amounts to: one proper request, or, for a mutation
    whose digest cannot be computed, none. *)
Definition talks_properly (o : stripe_op) (said : list sdk_request * res (stripe_resp o)) : Prop :=
  match said with
  | ([q], r) => proper_request o q ∧ fails_within is_boundary_error r
  | ([], Err _) => dispatches (Stripe o) = true
  | _ => False
  end.

Ltac proper := split; [done|eexists; split; [reflexivity|reflexivity]|first [by eexists|done]|by vm_compute].

Lemma refund_talks o t client :
  sdk (Refunds o) = Some t → sdk_client client → talks_properly (Refunds o) (converse client t).
Proof.
  intros Ht Hc. destruct o as [|intent|intent|intent id|intent after]; cbn in Ht; simplify_eq.
  - apply (asks_properly sdk_errors reading_errors (Refunds (Charge intent))); try done; [apply sdk_names|apply charge_fails|proper].
  - unfold create_refund, given. destruct (refund_idempotency_key intent) as [key|] eqn:Hk; [|done].
    destruct (refund_correlation intent) as [c|] eqn:Hcor; [|unfold refund_idempotency_key in Hk; by rewrite Hcor in Hk].
    apply (asks_properly sdk_errors reading_errors (Refunds (CreateRefund intent))); try done; [apply sdk_names|apply refund_fails|].
    split; [done|by eexists|cbn [key_of]; rewrite Hk; by eexists|by vm_compute].
  - apply (asks_properly sdk_errors reading_errors (Refunds (RetrieveRefund intent id))); try done; [apply sdk_names|apply refund_fails|proper].
  - apply (asks_properly sdk_errors reading_errors (Refunds (ListRefunds intent after))); try done; [apply sdk_names|apply refund_page_fails|proper].
Qed.

Lemma subscription_talks o t client :
  sdk (Subscriptions o) = Some t → sdk_client client → talks_properly (Subscriptions o) (converse client t).
Proof.
  intros Ht Hc. destruct o as [|binding|snapshot]; cbn in Ht; simplify_eq.
  - apply (asks_properly _BOUNDARY_ERRORS billing_errors (Subscriptions (RetrieveSubscription binding))); try done;
      [apply billing_names|apply subscription_fails|proper].
  - unfold update_subscription, given, effect_idempotency_key.
    destruct (cancellation_correlation snapshot) as [c|] eqn:Hcor; [|cbn; by destruct (_BOUNDARY_ERRORS e)].
    apply (asks_properly _BOUNDARY_ERRORS billing_errors (Subscriptions (UpdateSubscription snapshot))); try done;
      [apply billing_names|apply subscription_fails|].
    split; [done|by eexists|cbn [key_of]; unfold effect_idempotency_key; rewrite Hcor; by eexists|by vm_compute].
Qed.

Lemma credit_note_talks o t client :
  sdk (CreditNotes o) = Some t → sdk_client client → talks_properly (CreditNotes o) (converse client t).
Proof.
  intros Ht Hc. destruct o as [|binding|draft|snapshot|binding after|binding id|binding id]; cbn in Ht; simplify_eq.
  - apply (asks_properly _BOUNDARY_ERRORS billing_errors (CreditNotes (Invoice binding))); try done;
      [apply billing_names|apply invoice_fails|proper].
  - apply (asks_properly _BOUNDARY_ERRORS billing_errors (CreditNotes (Preview draft))); try done;
      [apply billing_names|apply preview_fails|proper].
  - unfold create_note, given, effect_idempotency_key.
    destruct (credit_correlation snapshot) as [c|] eqn:Hcor; [|done].
    apply (asks_properly _BOUNDARY_ERRORS billing_errors (CreditNotes (CreateNote snapshot))); try done;
      [apply billing_names|apply note_fails|].
    split; [done|by eexists|cbn [key_of]; unfold effect_idempotency_key; rewrite Hcor; by eexists|by vm_compute].
  - apply (asks_properly _BOUNDARY_ERRORS billing_errors (CreditNotes (ListNotes binding after))); try done;
      [apply billing_names|apply note_page_fails|proper].
  - apply (asks_properly _BOUNDARY_ERRORS billing_errors (CreditNotes (RetrieveNote binding id))); try done;
      [apply billing_names|apply note_fails|proper].
  - apply (asks_properly _BOUNDARY_ERRORS billing_errors (CreditNotes (CustomerCredit binding id))); try done;
      [apply billing_names|apply customer_credit_fails|proper].
Qed.

Lemma gateway_talks o t client :
  sdk o = Some t → sdk_client client → talks_properly o (converse client t).
Proof.
  destruct o as [g o|o|o|o]; [done| | |].
  - apply refund_talks.
  - apply subscription_talks.
  - apply credit_note_talks.
Qed.

(** ** The requests of an execution *)

(** What an operation sends does not depend on the answer. *)
Definition sent (o : op) : list sdk_request :=
  match o with
  | Stripe o => match sdk o with Some t => (converse (λ _, Ok SNone) t).1 | None => [] end
  | _ => []
  end.

Definition requests (es : history) : list sdk_request := flat_map (λ e, sent (ev_op e)) es.

Lemma sent_proper o rq : rq ∈ sent o → ∃ so, o = Stripe so ∧ proper_request so rq ∧ sent o = [rq].
Proof.
  unfold sent. destruct o; try by intros ?%not_elem_of_nil.
  rename o into so. destruct (sdk so) as [t|] eqn:Ht; [|by intros ?%not_elem_of_nil].
  assert (H := gateway_talks so t (λ _, Ok SNone) Ht ltac:(by intros ? ?)). unfold talks_properly in H.
  destruct (converse _ t) as [[|q [|? ?]] r]; cbn [fst]; [by intros ?%not_elem_of_nil| |done].
  intros ->%list_elem_of_singleton. exists so. by destruct H.
Qed.

Lemma sent_quietly o : dispatches o = false → List.filter mutates (sent o) = [].
Proof.
  intros Ho. destruct (List.filter mutates (sent o)) as [|rq l] eqn:E0; [done|].
  assert (Hin : In rq (List.filter mutates (sent o))) by (rewrite E0; by left).
  apply List.filter_In in Hin as [Hin Hm]. apply list_elem_of_In in Hin.
  apply sent_proper in Hin as (so & -> & Hp & _). rewrite (pr_mutates _ _ Hp) in Hm. congruence.
Qed.

Lemma quiet_requests es : dispatched es = false → List.filter mutates (requests es) = [].
Proof.
  induction es as [|e es IH]; [done|]. cbn [dispatched existsb]. intros [He Hes]%orb_false_elim.
  unfold requests. cbn [flat_map]. rewrite List.filter_app, (sent_quietly _ He). exact (IH Hes).
Qed.

(** If every dispatch is [o] and has none before it, the mutating requests are those
    of [o], once. *)
Lemma one_dispatch o es :
  (∀ es1 e es2, es = es1 ++ e :: es2 → dispatches (ev_op e) = true → ev_op e = o ∧ dispatched es1 = false) →
  List.filter mutates (requests es) = [] ∨ List.filter mutates (requests es) = List.filter mutates (sent o).
Proof.
  induction es as [|e es IH] using rev_ind; intros H; [by left|].
  unfold requests. rewrite flat_map_app, List.filter_app. cbn [flat_map]. rewrite app_nil_r.
  destruct (dispatches (ev_op e)) eqn:He.
  - destruct (H es e [] eq_refl He) as [-> Hq]. right. pose proof (quiet_requests es Hq) as E0.
    unfold requests in E0. by rewrite E0.
  - rewrite (sent_quietly _ He), app_nil_r. apply IH. intros es1 e' es2 -> He'.
    apply (H es1 e' (es2 ++ [e])); [by rewrite <-app_assoc|done].
Qed.


(** The key of the submission of a snapshot. *)
Definition submission_key (g : StripeHostActionGroup) : snapshot_of g → res pystr :=
  match g with
  | REFUNDS => λ s, refund_idempotency_key (sn_intent s)
  | SUBSCRIPTIONS => λ s, effect_idempotency_key "subscription-cancellation" (cancellation_correlation s)
  | CREDIT_NOTES => λ s, effect_idempotency_key "credit-note" (credit_correlation s)
  end.

Lemma submission_key_of g (s : snapshot_of g) so :
  submission g s = Stripe so → key_of so = Some (submission_key g s).
Proof. destruct g; intros [= <-]; done. Qed.

Lemma submission_dispatches g (s : snapshot_of g) : dispatches (submission g s) = true.
Proof. by destruct g. Qed.

(** C17: The SDK transports under a workflow: whatever Stripe, the host and the store
    answer, one execution of a refund, a cancellation or a credit note sends Stripe at
    most one request that mutates, the one of the snapshot it was given, under the
    idempotency key that the digest of the snapshot determines; the client does not send
    any request again by itself; what only reads has no key.  And for a client
    that raises nothing but the SDK's own [StripeError]s ([sdk_client]), whatever it answers
    or raises, a workflow gets an observation or a [StripeBoundaryError], never another
    exception: only for a snapshot whose digest cannot be computed nothing is sent. *)
Theorem sdk_mutates_once (w : stripe_workflow) (s : snapshot_of (group_of w)) (context : ExecutionContext)
  (execution_precondition : pystr) (es : history) (q : prog ExecutionResult)
  (Hruns : runs (stripe_execute w s context execution_precondition) es q) :
  (List.filter mutates (requests es) = [] ∨
   ∃ rq key, List.filter mutates (requests es) = [rq] ∧ sent (submission (group_of w) s) = [rq] ∧
     submission_key (group_of w) s = Ok key ∧ idempotency_key (rq_options rq) = Some key) ∧
  (∀ rq, rq ∈ requests es →
     max_network_retries (rq_options rq) = 0%Z ∧ (mutates rq = false → idempotency_key (rq_options rq) = None)) ∧
  (∀ e o t client, e ∈ es → ev_op e = Stripe o → sdk o = Some t → sdk_client client →
     talks_properly o (converse client t)).
Proof.
  destruct (wp_runs _ _ _ _ es [] _ (stripe_execute_guarantee w s context execution_precondition) Hruns) as [_ Hes]; [done|].
  assert (Hrq : ∀ rq, rq ∈ requests es → ∃ so, proper_request so rq).
  { intros rq Hin%list_elem_of_In. apply in_flat_map in Hin as (e & _ & (so & _ & Hp & _)%list_elem_of_In%sent_proper). by exists so. }
  split_and!.
  - destruct (one_dispatch (submission (group_of w) s) es) as [H|H]; [|by left|].
    { intros es1 e es2 He Hd. destruct (proj1 (Hes es1 e es2 He) Hd) as [? Hg]. split; [done|exact (proj1 Hg)]. }
    destruct (sent (submission (group_of w) s)) as [|rq l] eqn:Hs; [by left|right].
    destruct (sent_proper (submission (group_of w) s) rq) as (so & Hso & Hp & Hone); [rewrite Hs; left|].
    assert (Hd : dispatches (Stripe so) = true) by (rewrite <-Hso; apply submission_dispatches).
    pose proof (pr_key _ _ Hp) as Hk. rewrite (submission_key_of _ _ _ Hso) in Hk. destruct Hk as (key & Hkey & Hk).
    exists rq, key. rewrite H, <-Hone, Hs. cbn [List.filter]. rewrite (pr_mutates _ _ Hp), Hd.
    rewrite Hs in Hone. injection Hone as ->. done.
  - intros rq (so & Hp)%Hrq. split; [apply Hp|]. intros Hm. pose proof (pr_key _ _ Hp) as Hk.
    rewrite (pr_mutates _ _ Hp) in Hm. destruct so as [|[]|[]|[]]; cbn in Hm, Hk; done.
  - intros e o t client _ _. apply gateway_talks.
Qed.
End Sdk.

(** * What Stripe shows *)

(** The object of an observation, as Stripe shows it, with referenced objects as
    references or in full. *)

Section Shown.
Context `{U : Unicode}.
Variable expanded : bool.

Definition referenced (id : pystr) : sdk_value := if expanded then SObject [("id"%py, SStr id)] else SStr id.

Definition shown_metadata (key correlation : pystr) : sdk_value := SObject [(key, SStr correlation)].

Definition id_valid (prefix s : pystr) : bool := unicode_text s && is_stripe_id prefix s.
Definition currency_valid (s : pystr) : bool := unicode_text s && is_currency s.

(** The text of a literal. *)
Definition text_in {A} `{EqDecision A} (table : list (pystr * A)) (a : A) : pystr :=
  match list_find (λ '(_, b), b = a) table with Some (_, (s, _)) => s | None => PyStr [] end.

Definition refund_object (o : RefundObservation) : sdk_value :=
  SObject [("id", SStr (ro_refund_id o)); ("charge", referenced (ro_charge_id o)); ("currency", SStr (ro_currency o));
           ("amount", SInt (ro_amount_minor o)); ("status", SStr (text_in refund_statuses (ro_status o)));
           ("metadata", shown_metadata CORRELATION_KEY (ro_correlation o))]%py.

Record refund_shown (o : RefundObservation) : Prop := {
  rf_id : id_valid "re_" (ro_refund_id o) = true;
  rf_charge : id_valid "ch_" (ro_charge_id o) = true;
  rf_currency : currency_valid (ro_currency o) = true;
  rf_amount : (1 <= ro_amount_minor o)%Z;
  rf_correlation : unicode_text (ro_correlation o) = true
}.

Definition charge_object (o : ChargeObservation) : sdk_value :=
  SObject ([("id", SStr (ch_charge_id o)); ("currency", SStr (ch_currency o)); ("amount", SInt (ch_amount_minor o));
            ("amount_refunded", SInt (ch_refunded_minor o)); ("captured", SBool (ch_captured o));
            ("paid", SBool (ch_paid o)); ("disputed", SBool (ch_disputed o)); ("livemode", SBool (ch_livemode o))]
           ++ if ch_indirect_charge o then [("transfer", SStr "tr_1")] else [])%py.

Record charge_shown (o : ChargeObservation) : Prop := {
  cg_id : id_valid "ch_" (ch_charge_id o) = true;
  cg_currency : currency_valid (ch_currency o) = true;
  cg_amount : (0 <= ch_amount_minor o)%Z;
  cg_refunded : (0 <= ch_refunded_minor o)%Z
}.

(** A page of a list. *)
Definition page_object (data : list sdk_value) (has_more : bool) : sdk_value :=
  SObject [("data", SList data); ("has_more", SBool has_more)]%py.

(** *** Reading step by step *)

Lemma read_bind {A B} (r : res A) (f : A → res B) a y : r = Ok a → f a = y → r ≫= f = y.
Proof. by intros -> <-. Qed.

Lemma read_str s : unicode_text s = true → strict_str (SStr s) = Ok s.
Proof. cbn. by intros ->. Qed.

Lemma read_id prefix s : id_valid prefix s = true → stripe_id prefix (SStr s) = Ok s.
Proof.
  unfold id_valid, stripe_id, checked. intros [Hu Hi]%andb_prop. rewrite (read_str s Hu).
  cbn [mbind res_bind]. by rewrite Hi.
Qed.

Lemma read_currency s : currency_valid s = true → currency (SStr s) = Ok s.
Proof.
  unfold currency_valid, currency, checked. intros [Hu Hi]%andb_prop. rewrite (read_str s Hu).
  cbn [mbind res_bind]. by rewrite Hi.
Qed.

Lemma read_at_least n z : (n <= z)%Z → at_least n (SInt z) = Ok z.
Proof. intros H. unfold at_least, checked. cbn. by rewrite (proj2 (Z.leb_le _ _) H). Qed.

Lemma reference_referenced id : _reference (referenced id) = Some id.
Proof. unfold referenced. by destruct expanded. Qed.

Lemma read_referenced prefix id :
  id_valid prefix id = true → stripe_id prefix (optional_text (_reference (referenced id))) = Ok id.
Proof. rewrite reference_referenced. apply read_id. Qed.

Lemma read_all {A} (f : sdk_value → res A) (g : A → sdk_value) (P : A → Prop) l :
  (∀ a, P a → f (g a) = Ok a) → Forall P l → mapM f (g <$> l) = Ok l.
Proof.
  intros Hf. induction 1 as [|a l Ha _ IH]; [done|]. cbn [fmap list_fmap]. cbn [mapM].
  rewrite (Hf a Ha). cbn [mbind res_bind]. change (list_fmap A sdk_value g l) with (g <$> l). by rewrite IH.
Qed.

Lemma read_correlation key v c : attr v "metadata" = Ok (shown_metadata key c) → correlation_of key v = Ok (SStr c).
Proof.
  intros H. unfold correlation_of. rewrite H. cbn [mbind res_bind]. unfold shown_metadata, or_else.
  cbn [truthy length Nat.eqb negb get_or entry]. by rewrite bool_decide_eq_true_2.
Qed.

(** Every text of a table is read as what it stands for. *)
Lemma read_refund_status x : literal refund_statuses (SStr (text_in refund_statuses x)) = Ok x.
Proof. by destruct x; vm_compute. Qed.
Lemma read_subscription_status x : literal subscription_statuses (SStr (text_in subscription_statuses x)) = Ok x.
Proof. by destruct x; vm_compute. Qed.
Lemma read_tax_behavior x : literal tax_behaviors (SStr (text_in tax_behaviors x)) = Ok x.
Proof. by destruct x; vm_compute. Qed.
Lemma read_reason x : literal credit_reasons (SStr (text_in credit_reasons x)) = Ok x.
Proof. by destruct x; vm_compute. Qed.
Lemma read_note_status x : literal note_statuses (SStr (text_in note_statuses x)) = Ok x.
Proof. by destruct x; vm_compute. Qed.
Lemma read_invoice_status x : literal invoice_statuses (SStr (text_in invoice_statuses x)) = Ok x.
Proof. by destruct x; vm_compute. Qed.

Ltac read_field := first
  [ apply read_correlation; reflexivity
  | reflexivity
  | solve [auto using read_str, read_id, read_currency, read_at_least, read_referenced, read_refund_status,
      read_subscription_status, read_tax_behavior, read_reason, read_note_status, read_invoice_status] ].
Ltac read_on := repeat (eapply read_bind; [read_field|cbv beta]).

Lemma refund_reads o : refund_shown o → _observation (refund_object o) = Ok o.
Proof.
  intros [? ? ? ? ?]. unfold _observation, refund_object.
  do 2 (eapply read_bind; [reflexivity|cbv beta]).
  apply (read_bind _ _ (SStr (ro_charge_id o))); [unfold referenced; by destruct expanded|]. read_on. by destruct o.
Qed.

Lemma charge_reads o : charge_shown o → charge_observation (charge_object o) = Ok o.
Proof.
  intros [? ? ? ?]. unfold charge_observation, charge_object.
  do 9 (eapply read_bind; [reflexivity|cbv beta]).
  apply (read_bind _ _ (ch_indirect_charge o)); [by destruct (ch_indirect_charge o)|]. read_on. by destruct o.
Qed.

Lemma refund_page_reads p :
  Forall refund_shown (rg_refunds p) →
  refund_page (page_object (refund_object <$> rg_refunds p) (rg_has_more p)) = Ok p.
Proof.
  intros H. unfold refund_page, page_object. do 2 (eapply read_bind; [reflexivity|cbv beta]).
  eapply read_bind; [exact (read_all _ _ _ _ refund_reads H)|cbv beta]. read_on. by destruct p.
Qed.

(** *** Subscriptions *)

Definition seconds (t : datetime) : sdk_value := SInt (t / 1000000).

Definition whole_seconds (t : datetime) : Prop :=
  (t mod 1000000 = 0 ∧ -62135596800 <= t / 1000000 <= 253402300799)%Z.

Definition subscription_object (o : SubscriptionObservation) : sdk_value :=
  let recurring := SObject [("usage_type"%py, SStr (if so_supported o then "licensed" else "metered")%py)] in
  let price := SObject [("id", SStr (so_price_id o)); ("recurring", recurring)]%py in
  let item := SObject [("id", SStr (so_item_id o)); ("price", price); ("quantity", SInt (so_quantity o));
    ("current_period_start", seconds (so_period_start o)); ("current_period_end", seconds (so_period_end o))]%py in
  SObject [("items", page_object [item] false); ("id", SStr (so_subscription_id o));
           ("customer", referenced (so_customer_id o)); ("status", SStr (text_in subscription_statuses (so_status o)));
           ("livemode", SBool (so_livemode o)); ("cancel_at_period_end", SBool (so_cancel_at_period_end o));
           ("cancel_at", match so_cancel_at o with Some t => seconds t | None => SNone end);
           ("schedule", SNone); ("pending_update", SNone); ("pause_collection", SNone);
           ("metadata", shown_metadata SUBSCRIPTION_CORRELATION_KEY (so_correlation o))]%py.

Record subscription_shown (o : SubscriptionObservation) : Prop := {
  sh_id : id_valid "sub_" (so_subscription_id o) = true;
  sh_customer : id_valid "cus_" (so_customer_id o) = true;
  sh_item : unicode_text (so_item_id o) = true ∧ safe_reference (so_item_id o) = true;
  sh_price : unicode_text (so_price_id o) = true ∧ safe_reference (so_price_id o) = true;
  sh_quantity : (1 <= so_quantity o)%Z;
  sh_times : whole_seconds (so_period_start o) ∧ whole_seconds (so_period_end o) ∧
    match so_cancel_at o with Some t => whole_seconds t | None => True end;
  sh_correlation : unicode_text (so_correlation o) = true
}.

Lemma read_time t : whole_seconds t → _time (seconds t) = Ok t.
Proof.
  unfold whole_seconds, _time, seconds. intros [Hm [Hl Hu]]. cbn [strict_int mbind res_bind].
  rewrite (proj2 (Z.leb_le _ _) Hl), (proj2 (Z.leb_le _ _) Hu). cbn [andb]. f_equal.
  rewrite (Z.div_mod t 1000000) at 2; lia.
Qed.

Lemma read_reference s : unicode_text s = true → safe_reference s = true → reference_field (SStr s) = Ok s.
Proof.
  intros Hu Hs. unfold reference_field. rewrite (read_str s Hu). cbn [mbind res_bind].
  by destruct (safe_reference_inv s Hs) as [-> _].
Qed.

Lemma subscription_reads o : subscription_shown o → _subscription (subscription_object o) = Ok o.
Proof.
  intros [? ? [? ?] [? ?] ? (? & ? & Hc) ?]. unfold _subscription, subscription_object.
  do 2 (eapply read_bind; [reflexivity|cbv beta]). apply (read_bind _ _ false); [reflexivity|]. cbv beta iota.
  do 11 (eapply read_bind; [reflexivity|cbv beta]).
  eapply read_bind; [reflexivity|cbv beta]. eapply read_bind; [by apply read_time|cbv beta].
  eapply read_bind; [reflexivity|cbv beta]. eapply read_bind; [by apply read_time|cbv beta].
  do 2 (eapply read_bind; [reflexivity|cbv beta]).
  apply (read_bind _ _ (so_cancel_at o)).
  { destruct (so_cancel_at o) as [t|]; [|done]. unfold or_none. cbn [is_none seconds].
    change (SInt (t / 1000000)) with (seconds t). by rewrite (read_time t Hc). }
  apply (read_bind _ _ (so_supported o)); [by destruct (so_supported o)|].
  eapply read_bind; [read_field|cbv beta].
  do 4 (eapply read_bind; [read_field|cbv beta]).
  do 2 (eapply read_bind; [by apply read_reference|cbv beta]). read_on. by destruct o.
Qed.

(** *** Invoices and credit notes *)

Definition invoice_object (o : InvoiceObservation) : sdk_value :=
  SObject ([("id", SStr (io_invoice_id o)); ("customer", referenced (io_customer_id o)); ("currency", SStr (io_currency o));
            ("livemode", SBool (io_livemode o)); ("status", SStr (text_in invoice_statuses (io_invoice_status o)));
            ("total", SInt (io_total_minor o)); ("amount_due", SInt (io_amount_due_minor o));
            ("amount_paid", SInt (io_amount_paid_minor o)); ("amount_remaining", SInt (io_remaining_minor o));
            ("pre_payment_credit_notes_amount", SInt (io_pre_payment_credits_minor o));
            ("post_payment_credit_notes_amount", SInt (io_post_payment_credits_minor o))]
           ++ if io_supported o then [] else [("on_behalf_of", SStr "acct_1")])%py.

Record invoice_shown (o : InvoiceObservation) : Prop := {
  is_id : id_valid "in_" (io_invoice_id o) = true;
  is_customer : id_valid "cus_" (io_customer_id o) = true;
  is_cur : currency_valid (io_currency o) = true;
  is_paid : (0 <= io_amount_paid_minor o)%Z;
  is_remaining : (0 <= io_remaining_minor o)%Z;
  is_pre : (0 <= io_pre_payment_credits_minor o)%Z;
  is_post : (0 <= io_post_payment_credits_minor o)%Z
}.

Lemma invoice_reads o : invoice_shown o → invoice_observation (invoice_object o) = Ok o.
Proof.
  intros [? ? ? ? ? ? ?]. unfold invoice_observation, invoice_object.
  do 11 (eapply read_bind; [reflexivity|cbv beta]).
  apply (read_bind _ _ (io_supported o)); [by destruct (io_supported o)|]. read_on. by destruct o.
Qed.

Definition optional_int (z : option Z) : sdk_value := match z with Some z => SInt z | None => SNone end.

Definition tax_object (t : CreditNoteTax) : sdk_value :=
  SObject [("amount", SInt (tx_amount_minor t)); ("taxable_amount", optional_int (tx_taxable_minor t));
           ("tax_behavior", SStr (text_in tax_behaviors (tx_behavior t)));
           ("tax_rate_details", match tx_rate_reference t with
                                | Some r => SObject [("tax_rate", SStr r)] | None => SNone end);
           ("taxability_reason", SStr (tx_reason t))]%py.

Definition tax_shown (t : CreditNoteTax) : Prop :=
  match tx_rate_reference t with Some r => unicode_text r = true | None => True end ∧ unicode_text (tx_reason t) = true.

Lemma tax_reads t : tax_shown t → credit_tax (tax_object t) = Ok t.
Proof.
  intros [Hr ?]. unfold credit_tax, tax_object. do 4 (eapply read_bind; [reflexivity|cbv beta]).
  apply (read_bind _ _ (optional_text (tx_rate_reference t))); [by destruct (tx_rate_reference t)|]. cbv beta.
  eapply read_bind; [reflexivity|cbv beta]. eapply read_bind; [reflexivity|cbv beta].
  apply (read_bind _ _ (tx_taxable_minor t)); [by destruct (tx_taxable_minor t)|]. cbv beta.
  eapply read_bind; [read_field|cbv beta].
  apply (read_bind _ _ (tx_rate_reference t)).
  { destruct (tx_rate_reference t) as [r|]; [|done]. unfold or_none. cbn [is_none optional_text]. by rewrite (read_str r Hr). }
  read_on. by destruct t.
Qed.

Definition line_object (l : CreditNoteCalculatedLine) : sdk_value :=
  SObject [("type", SStr "invoice_line_item"); ("invoice_line_item", SStr (kl_invoice_line_id l));
           ("amount", SInt (kl_amount_minor l)); ("discount_amount", SInt (kl_discount_minor l));
           ("pretax_credit_amounts", SList [SObject [("type", SStr "discount")]]);
           ("taxes", SList (tax_object <$> kl_taxes l))]%py.

Record line_shown (l : CreditNoteCalculatedLine) : Prop := {
  ln_id : id_valid "il_" (kl_invoice_line_id l) = true;
  ln_amount : (0 <= kl_amount_minor l)%Z;
  ln_discount : (0 <= kl_discount_minor l)%Z;
  ln_taxes : Forall tax_shown (kl_taxes l)
}.

Lemma elements_list {A} (g : A → sdk_value) l : elements (or_else (SList (g <$> l)) (SList [])) = Ok (g <$> l).
Proof. unfold or_else. by destruct l. Qed.

Lemma line_reads l : line_shown l → calculated_line (line_object l) = Ok l.
Proof.
  intros [? ? ? Ht]. unfold calculated_line, line_object. eapply read_bind; [reflexivity|cbv beta].
  apply (read_bind _ _ false); [reflexivity|]. cbv beta iota. do 4 (eapply read_bind; [reflexivity|cbv beta]).
  eapply read_bind; [apply elements_list|cbv beta].
  eapply read_bind; [exact (read_all _ _ _ _ tax_reads Ht)|cbv beta]. read_on. by destruct l.
Qed.

Definition line_before (a b : CreditNoteCalculatedLine) : Prop :=
  points_leb (code_points (kl_invoice_line_id a)) (code_points (kl_invoice_line_id b)) = true.

Lemma sort_lines_sorted l : Sorted line_before l → sort_lines l = l.
Proof.
  induction 1 as [|x l Hl IH Hx]; [done|]. cbn. fold (sort_lines l). rewrite IH.
  destruct Hx as [|y l Hxy]; [done|]. cbn. by rewrite Hxy.
Qed.

(** The fields of a credit note that make its calculation. *)
Definition calculation_fields (c : CreditNoteCalculation) : list (pystr * sdk_value) :=
  [("lines", page_object (line_object <$> ka_lines c) false); ("amount_shipping", SInt 0);
   ("amount", SInt (ka_total_minor c)); ("total", SInt (ka_total_minor c)); ("currency", SStr (ka_currency c));
   ("pre_payment_amount", SInt (ka_pre_payment_minor c));
   ("post_payment_amount", SInt (ka_post_payment_minor c))]%py.

Record calculation_shown (c : CreditNoteCalculation) : Prop := {
  cl_currency : currency_valid (ka_currency c) = true;
  cl_total : (1 <= ka_total_minor c)%Z;
  cl_pre : (0 <= ka_pre_payment_minor c)%Z;
  cl_post : (0 <= ka_post_payment_minor c)%Z;
  cl_lines : Forall line_shown (ka_lines c) ∧ 1 ≤ length (ka_lines c) ≤ 10 ∧ Sorted line_before (ka_lines c)
}.

Lemma calculation_reads c rest :
  calculation_shown c → _calculation (SObject (calculation_fields c ++ rest)) = Ok c.
Proof.
  intros [? ? ? ? (Hl & [Hlo Hhi] & Hs)]. unfold _calculation, calculation_fields. cbn [app].
  do 2 (eapply read_bind; [reflexivity|cbv beta]). apply (read_bind _ _ false); [reflexivity|]. cbv beta iota.
  do 2 (eapply read_bind; [reflexivity|cbv beta]).
  eapply read_bind; [exact (read_all _ _ _ _ line_reads Hl)|cbv beta].
  do 2 (eapply read_bind; [reflexivity|cbv beta]).
  assert (He : py_eq (SInt (ka_total_minor c)) (SInt (ka_total_minor c)) = true) by (cbn; apply Z.eqb_refl).
  rewrite He. cbn [negb]. read_on.
  rewrite (proj2 (Nat.leb_le _ _) Hlo), (proj2 (Nat.leb_le _ _) Hhi), (sort_lines_sorted _ Hs). by destruct c.
Qed.

Definition note_object (o : CreditNoteObservation) : sdk_value :=
  SObject (calculation_fields (no_calculation o) ++
    [("id", SStr (no_note_id o)); ("invoice", referenced (no_invoice_id o)); ("customer", referenced (no_customer_id o));
     ("livemode", SBool (no_livemode o)); ("status", SStr (text_in note_statuses (no_status o)));
     ("reason", match no_reason o with Some r => SStr (text_in credit_reasons r) | None => SNone end);
     ("customer_balance_transaction", match no_balance_transaction_id o with Some t => referenced t | None => SNone end);
     ("refunds", SList (if no_has_refunds o then [SStr "cnr_1"] else []));
     ("out_of_band_amount", if (no_out_of_band_minor o =? 0)%Z then SNone else SInt (no_out_of_band_minor o));
     ("metadata", shown_metadata CREDIT_NOTE_CORRELATION_KEY (no_correlation o))])%py.

Record note_shown (o : CreditNoteObservation) : Prop := {
  cn_id : id_valid "cn_" (no_note_id o) = true;
  cn_invoice : id_valid "in_" (no_invoice_id o) = true;
  cn_customer : id_valid "cus_" (no_customer_id o) = true;
  cn_calculation : calculation_shown (no_calculation o);
  cn_correlation : unicode_text (no_correlation o) = true;
  cn_transaction : match no_balance_transaction_id o with Some t => id_valid "cbtxn_" t = true | None => True end;
  cn_out_of_band : (0 <= no_out_of_band_minor o)%Z
}.

Lemma note_reads o : note_shown o → _note (note_object o) = Ok o.
Proof.
  intros [? ? ? Hc ? Ht Ho]. unfold _note, note_object. do 6 (eapply read_bind; [reflexivity|cbv beta]).
  eapply read_bind; [by apply calculation_reads|cbv beta].
  eapply read_bind; [read_field|cbv beta]. do 3 (eapply read_bind; [reflexivity|cbv beta]).
  do 5 (eapply read_bind; [read_field|cbv beta]).
  apply (read_bind _ _ (no_reason o)).
  { destruct (no_reason o) as [r|]; [|done]. unfold or_none. cbn [is_none]. by rewrite read_reason. }
  eapply read_bind; [read_field|cbv beta].
  apply (read_bind _ _ (no_balance_transaction_id o)).
  { destruct (no_balance_transaction_id o) as [t|]; [|done]. unfold or_none. rewrite reference_referenced.
    cbn [is_none optional_text]. by rewrite (read_id _ _ Ht). }
  apply (read_bind _ _ (no_out_of_band_minor o)).
  { destruct (no_out_of_band_minor o =? 0)%Z eqn:E.
    - apply Z.eqb_eq in E as ->. reflexivity.
    - unfold or_else. cbn [truthy]. rewrite E. by apply read_at_least. }
  assert (Hr : truthy (SList (if no_has_refunds o then [SStr "cnr_1"%py] else [])) = no_has_refunds o)
    by (by destruct (no_has_refunds o)).
  rewrite Hr. by destruct o.
Qed.

Definition binding_fields (binding : CreditNoteInvoice) : list (pystr * sdk_value) :=
  [("invoice", referenced (iv_invoice_id binding)); ("customer", referenced (iv_customer_id binding));
   ("livemode", SBool (sa_livemode (iv_account binding))); ("refunds", SNone); ("out_of_band_amount", SInt 0)]%py.

(** A preview is read only for the invoice, the customer and the mode of its draft. *)
Lemma preview_reads draft c rest :
  let binding := dr_invoice draft in
  calculation_shown c →
  previewed draft (SObject (calculation_fields c ++ binding_fields binding ++ rest)) = Ok c.
Proof.
  intros binding Hc. unfold previewed. eapply read_bind; [reflexivity|cbv beta].
  apply (read_bind _ _ false); [|by apply calculation_reads].
  rewrite reference_referenced, bool_decide_eq_true_2 by done. cbn [negb].
  eapply read_bind; [reflexivity|cbv beta]. rewrite reference_referenced, bool_decide_eq_true_2 by done. cbn [negb].
  eapply read_bind; [reflexivity|cbv beta]. fold binding. by destruct (sa_livemode (iv_account binding)).
Qed.

Definition lookup_object (o : CreditNoteLookup) : sdk_value :=
  SObject [("id", SStr (lk_note_id o)); ("metadata", shown_metadata CREDIT_NOTE_CORRELATION_KEY (lk_correlation o))]%py.

Definition lookup_shown (o : CreditNoteLookup) : Prop :=
  id_valid "cn_" (lk_note_id o) = true ∧ unicode_text (lk_correlation o) = true.

Lemma lookup_reads o : lookup_shown o → note_lookup (lookup_object o) = Ok o.
Proof. intros [? ?]. unfold note_lookup, lookup_object. read_on. by destruct o. Qed.

Lemma note_page_reads p :
  Forall lookup_shown (ng_notes p) → note_page (page_object (lookup_object <$> ng_notes p) (ng_has_more p)) = Ok p.
Proof.
  intros H. unfold note_page, page_object. do 2 (eapply read_bind; [reflexivity|cbv beta]).
  eapply read_bind; [exact (read_all _ _ _ _ lookup_reads H)|cbv beta]. read_on. by destruct p.
Qed.

Definition credit_object (o : CustomerCreditObservation) : sdk_value :=
  SObject [("id", SStr (cc_transaction_id o)); ("customer", referenced (cc_customer_id o));
           ("credit_note", referenced (cc_note_id o)); ("currency", SStr (cc_currency o));
           ("amount", SInt (cc_amount_minor o)); ("type", SStr (cc_kind o))]%py.

Record credit_shown (o : CustomerCreditObservation) : Prop := {
  cd_id : unicode_text (cc_transaction_id o) = true;
  cd_customer : id_valid "cus_" (cc_customer_id o) = true;
  cd_note : id_valid "cn_" (cc_note_id o) = true;
  cd_currency : unicode_text (cc_currency o) = true;
  cd_kind : unicode_text (cc_kind o) = true
}.

Lemma credit_reads o : credit_shown o → customer_credit_observation (credit_object o) = Ok o.
Proof. intros [? ? ? ? ?]. unfold customer_credit_observation, credit_object. read_on. by destruct o. Qed.
End Shown.

(** ** The observations of the gateways *)

Section Observed.
Context `{U : Unicode, D : PyDump, E : SdkErrors}.

(** [shows expanded o a v]: [v] is the object by which Stripe shows [a] to [o]. *)
Definition shows (expanded : bool) (o : stripe_op) : stripe_resp o → sdk_value → Prop :=
  match o return stripe_resp o → sdk_value → Prop with
  | Refunds (Charge _) => λ a v, charge_shown a ∧ v = charge_object a
  | Refunds (CreateRefund _) | Refunds (RetrieveRefund _ _) =>
      λ a v, refund_shown a ∧ v = refund_object expanded a
  | Refunds (ListRefunds _ _) => λ a v,
      Forall refund_shown (rg_refunds a) ∧ v = page_object (refund_object expanded <$> rg_refunds a) (rg_has_more a)
  | Subscriptions (RetrieveSubscription _) | Subscriptions (UpdateSubscription _) =>
      λ a v, subscription_shown a ∧ v = subscription_object expanded a
  | CreditNotes (Invoice _) => λ a v, invoice_shown a ∧ v = invoice_object expanded a
  | CreditNotes (Preview draft) => λ a v, calculation_shown a ∧
      ∃ rest, v = SObject (calculation_fields a ++ binding_fields expanded (dr_invoice draft) ++ rest)
  | CreditNotes (CreateNote _) | CreditNotes (RetrieveNote _ _) => λ a v, note_shown a ∧ v = note_object expanded a
  | CreditNotes (ListNotes _ _) => λ a v,
      Forall lookup_shown (ng_notes a) ∧ v = page_object (lookup_object <$> ng_notes a) (ng_has_more a)
  | CreditNotes (CustomerCredit _ _) => λ a v, credit_shown a ∧ v = credit_object expanded a
  | _ => λ _ _, False
  end.

Lemma asked_reads {A} errors q0 (f : sdk_value → res A) client q r v a :
  converse client (within errors (ask q0 f)) = ([q], r) → client q = Ok v → f v = Ok a → r = Ok a.
Proof. rewrite converse_ask. intros [= <- <-] Hv Hf. by rewrite Hv; cbn; rewrite Hf. Qed.

(** C18: What Stripe shows is what the workflows observe: if the client answers the request
    of an operation with the object of an observation (a charge, a refund, a page of them, a
    subscription, an invoice, a preview, a credit note, a page of them, a customer's
    credit), referenced objects given by their identifiers or in full, the transport
    answers that observation, field by field, with the times in seconds, the literals by
    their names, the correlation from the metadata and the lines in order.  The object of
    an observation is the one [shows] writes out here, the fields that the transports read
    followed, for an object, by any others the transports do not look at; it says nothing
    of how Stripe comes to show it. *)
Theorem sdk_observes (expanded : bool) (o : stripe_op) (t : talk (stripe_resp o))
  (client : sdk_request → res sdk_value) (q : sdk_request) (r : res (stripe_resp o)) (v : sdk_value) (a : stripe_resp o)
  (Ht : sdk o = Some t) (Hq : converse client t = ([q], r)) (Hv : client q = Ok v) (Ha : shows expanded o a v) :
  r = Ok a.
Proof.
  destruct o as [g o|o|o|o]; [done|destruct o|destruct o|destruct o]; cbn [sdk] in Ht; simplify_eq; cbn [shows] in Ha;
    destruct Ha as [Ha Hshown].
  - subst. eapply asked_reads; [exact Hq|exact Hv|by apply charge_reads].
  - subst. unfold create_refund, given in Hq. destruct (refund_idempotency_key intent), (refund_correlation intent);
      try discriminate Hq. eapply asked_reads; [exact Hq|exact Hv|by apply refund_reads].
  - subst. eapply asked_reads; [exact Hq|exact Hv|by apply refund_reads].
  - subst. eapply asked_reads; [exact Hq|exact Hv|by apply refund_page_reads].
  - subst. eapply asked_reads; [exact Hq|exact Hv|by apply subscription_reads].
  - subst. unfold update_subscription, given in Hq.
    destruct (cancellation_correlation snapshot); [|discriminate Hq].
    destruct (effect_idempotency_key _ _); [|discriminate Hq].
    eapply asked_reads; [exact Hq|exact Hv|by apply subscription_reads].
  - subst. eapply asked_reads; [exact Hq|exact Hv|by apply invoice_reads].
  - destruct Hshown as [rest ->]. eapply asked_reads; [exact Hq|exact Hv|by apply preview_reads].
  - subst. unfold create_note, given in Hq. destruct (credit_correlation snapshot); [|discriminate Hq].
    destruct (effect_idempotency_key _ _); [|discriminate Hq]. eapply asked_reads; [exact Hq|exact Hv|by apply note_reads].
  - subst. eapply asked_reads; [exact Hq|exact Hv|by apply note_page_reads].
  - subst. eapply asked_reads; [exact Hq|exact Hv|by apply note_reads].
  - subst. eapply asked_reads; [exact Hq|exact Hv|by apply credit_reads].
Qed.
End Observed.

(** * Concrete requests *)

Section Example_sdk.
#[local] Existing Instance ascii_unicode.
#[local] Existing Instance StripeScenario.plain_dump.
#[local] Instance named_errors : SdkErrors :=
  {| is_StripeError e := bool_decide (exn_class e = OtherException "StripeError"%py) |}.

Lemma sdk_mutates_once_witness :
  ∃ rq, List.filter mutates (requests StripeScenario.execution_run.1.1) = [rq] ∧ rq_method rq = "refunds.create"%py ∧
    rq_params rq = [("charge", SStr "ch_1"); ("amount", SInt 1250);
      ("metadata", SObject [(CORRELATION_KEY, SStr StripeScenario.correlation)])]%py.
Proof.
  destruct (sdk_mutates_once StripeScenario.workflow StripeScenario.snapshot StripeScenario.context
    StripeScenario.effect StripeScenario.execution_run.1.1 _ (run_runs StripeScenario.handle _ ()))
    as [[H|(rq & key & H & _)] _].
  - assert (E : length (List.filter mutates (requests StripeScenario.execution_run.1.1)) = 1) by (vm_compute; reflexivity).
    rewrite H in E. discriminate E.
  - exists rq. split; [exact H|].
    assert (E : match List.filter mutates (requests StripeScenario.execution_run.1.1) with
      | [rq] => rq_method rq = "refunds.create"%py ∧ rq_params rq = [("charge", SStr "ch_1"); ("amount", SInt 1250);
          ("metadata", SObject [(CORRELATION_KEY, SStr StripeScenario.correlation)])]%py
      | _ => False end) by (vm_compute; split; reflexivity).
    rewrite H in E. exact E.
Defined.

#[local] Definition some_refund : RefundObservation := mkRefundObservation "re_1" "ch_1" "eur" 1250 RF_pending "corr".
#[local] Definition showing (_ : sdk_request) : res sdk_value := Ok (refund_object true some_refund).

Lemma sdk_observes_witness :
  (converse showing (create_refund StripeScenario.intent)).2 = Ok some_refund ∧
  length (converse showing (create_refund StripeScenario.intent)).1 = 1.
Proof.
  split; [|vm_compute; reflexivity].
  assert (E : ∃ q r, converse showing (create_refund StripeScenario.intent) = ([q], r)) by (do 2 eexists; vm_compute; reflexivity).
  destruct E as (q & r & E). rewrite E. cbn [snd].
  apply (sdk_observes true (Refunds (CreateRefund StripeScenario.intent)) _ showing q r (refund_object true some_refund)
    some_refund eq_refl E eq_refl).
  split; [|reflexivity]. split; [vm_compute; reflexivity..|cbn; lia|vm_compute; reflexivity].
Defined.

(** A true amount, a charge without an identifier and a refused connection are
    all the same to a workflow. *)
Example sdk_refusals :
  let answers (v : res sdk_value) := (converse (λ _, v) (retrieve_refund StripeScenario.intent "re_1")).2 in
  answers (Ok SNone) = fail boundary_error ∧
  answers (Ok (SObject [("id", SStr "re_1"); ("charge", SNone); ("currency", SStr "eur"); ("amount", SBool true);
                        ("status", SStr "pending"); ("metadata", SNone)]%py)) = fail boundary_error ∧
  answers (fail (OtherException "StripeError")) = fail boundary_error ∧
  answers (fail (OtherException "KeyboardInterrupt")) = fail (OtherException "KeyboardInterrupt").
Proof. vm_compute. repeat split. Qed.
End Example_sdk.
