(* ===== verification/Runtime.v ===== *)
(** The confirm-first orchestration ([runtime.py]): every public operation of
    [ActionRuntime] and every private method it uses, as programs.

    [ActionRuntime] keeps no state of its own between calls: what it holds is
    the configuration [ActionRuntime] below; the store, the clock, the
    identifier provider, the event sink and the host ports are operations of
    [Program].  Values of a model type are values the model accepted, so
    references are checked where a plain string enters a model: the arguments
    of the callers and the identifiers of the provider. *)

From S2P Require Import Prelude Models Canonical Authority Receipts Registry StoreBase StoreContract.
From S2P Require Import Recovery Evidence Program.

(** * Outcomes and dispositions *)

Inductive OperationOutcome :=
  | OO_PREPARED
  | OO_AUTHORITY_PENDING
  | OO_AUTHORIZED
  | OO_DENIED
  | OO_BLOCKED
  | OO_STALE
  | OO_IN_PROGRESS
  | OO_EXPIRED
  | OO_REPLAYED
  | OO_CONFLICT
  | OO_VERIFICATION_PENDING
  | OO_VERIFIED
  | OO_PARTIALLY_SUCCEEDED
  | OO_FAILED_KNOWN
  | OO_FAILED_UNKNOWN
  | OO_VERIFICATION_UNRESOLVED
  | OO_RESEND_ALLOWED
  | OO_ERASED.

#[export] Instance OperationOutcome_eq_dec : EqDecision OperationOutcome.
Proof. solve_decision. Defined.

(** [RuntimeReasonCode.value]. *)
Module RuntimeReasonCode.
Definition PREPARE_DENIED : pystr := "prepare_denied".
Definition AUTHORITY_REJECTED : pystr := "authority_rejected".
Definition PROPOSAL_EXPIRED : pystr := "proposal_expired".
Definition PRIVATE_SNAPSHOT_UNAVAILABLE : pystr := "private_snapshot_unavailable".
Definition PROPOSAL_COMMITMENT_UNAVAILABLE : pystr := "proposal_commitment_unavailable".
Definition AUTHORITY_EXPIRED : pystr := "authority_expired".
Definition EXECUTION_LEASE_EXPIRED : pystr := "execution_lease_expired".
Definition AUTHORITY_NO_LONGER_SATISFIED : pystr := "authority_no_longer_satisfied".
Definition REAUTHORIZATION_FAILED : pystr := "reauthorization_failed".
Definition VERIFICATION_RETRIES_EXHAUSTED : pystr := "verification_retries_exhausted".
Definition MATERIAL_DRIFT : pystr := "material_drift".
Definition PARTIAL_NOT_DECLARED : pystr := "partial_not_declared".
Definition VERIFIED_TERMINAL_FAILURE : pystr := "verified_terminal_failure".
Definition AUTHORITATIVE_FINAL_ABSENCE : pystr := "authoritative_final_absence".
Definition OPERATOR_VERIFICATION_RESUMED : pystr := "operator_verification_resumed".
Definition RECOVERY_NOT_AUTHORIZED : pystr := "recovery_not_authorized".
End RuntimeReasonCode.

Inductive LifecycleCategory :=
  | LC_AWAITING_AUTHORITY
  | LC_PENDING
  | LC_SETTLED
  | LC_STALE
  | LC_REFUSED
  | LC_NEEDS_ATTENTION.

Record LifecycleDisposition := mkLifecycleDisposition {
  category : LifecycleCategory;
  automatic_processing_closed : bool;
  reconciliation_available : bool;
  operator_recovery_available : bool
}.

Definition classify_lifecycle (status : LifecycleStatus) : LifecycleDisposition :=
  match status with
  | AWAITING_AUTHORITY => mkLifecycleDisposition LC_AWAITING_AUTHORITY false false false
  | DENIED => mkLifecycleDisposition LC_REFUSED true false false
  | EXPIRED => mkLifecycleDisposition LC_STALE true false false
  | AUTHORIZED => mkLifecycleDisposition LC_PENDING false false false
  | BLOCKED => mkLifecycleDisposition LC_REFUSED true false false
  | STALE => mkLifecycleDisposition LC_STALE true false false
  | SUPERSEDED => mkLifecycleDisposition LC_STALE true false false
  | EXECUTING => mkLifecycleDisposition LC_PENDING false true false
  | FAILED_KNOWN => mkLifecycleDisposition LC_REFUSED true false false
  | FAILED_UNKNOWN => mkLifecycleDisposition LC_PENDING false true false
  | VERIFICATION_PENDING => mkLifecycleDisposition LC_PENDING false true true
  | VERIFICATION_UNRESOLVED => mkLifecycleDisposition LC_NEEDS_ATTENTION true false true
  | PARTIALLY_SUCCEEDED => mkLifecycleDisposition LC_NEEDS_ATTENTION true false false
  | VERIFIED => mkLifecycleDisposition LC_SETTLED true false false
  end.

Record ActionOperationResult := mkActionOperationResult {
  ar_proposal_reference : pystr;
  ar_lifecycle_status : LifecycleStatus;
  ar_outcome : OperationOutcome;
  ar_revision : Z;
  ar_display_preview : JsonObject;
  ar_safe_result : option JsonObject;
  ar_fresh_proposal_reference : option pystr;
  ar_reason_code : option pystr
}.

Definition is_terminal (r : ActionOperationResult) : bool :=
  let disposition := classify_lifecycle (ar_lifecycle_status r) in
  automatic_processing_closed disposition && negb (operator_recovery_available disposition).

Definition needs_reconciliation (r : ActionOperationResult) : bool :=
  reconciliation_available (classify_lifecycle (ar_lifecycle_status r)).

Record ProposalView := mkProposalView {
  pv_proposal_reference : pystr;
  pv_lifecycle_status : LifecycleStatus;
  pv_revision : Z;
  pv_display_preview : JsonObject;
  pv_receipts : list Receipt;
  pv_safe_result : option JsonObject;
  pv_erased : bool
}.

(** What the constructor keeps: whether a retention store is configured, and
    the attribution of receipts. *)
Record ActionRuntime := mkActionRuntime {
  _retention_store : bool;
  _runtime_revision : pystr
}.

Section Runtime.
Context `{U : Unicode}.

(** * The two forms of the protection ports *)

Definition _destroy_payload (codec : ProtectionCodecPort) (proposal_identity : ProposalIdentity)
  (payload : ProtectedPayload) : prog unit :=
  match codec with
  | ProposalBoundProtectionCodec p => call (DestroyPayloadFor p proposal_identity payload)
  | ProtectionCodec p => call (DestroyPayload p payload)
  end.

Definition _destroy_commitment (provider : CommitmentProviderPort)
  (proposal_identity : ProposalIdentity) (commitment : KeyedCommitment) : prog unit :=
  match provider with
  | ProposalBoundCommitmentProvider p => call (DestroyCommitmentFor p proposal_identity commitment)
  | CommitmentProvider p => call (DestroyCommitment p commitment)
  end.

Definition _create_commitment (provider : CommitmentProviderPort)
  (proposal_identity : ProposalIdentity) (canonical_payload : bytes) : prog KeyedCommitment :=
  match provider with
  | ProposalBoundCommitmentProvider p =>
      call (CreateCommitmentFor p proposal_identity canonical_payload)
  | CommitmentProvider p =>
      call (CreateCommitment p (pi_proposal_reference proposal_identity) canonical_payload)
  end.

Definition _verify_commitment (provider : CommitmentProviderPort)
  (proposal_identity : ProposalIdentity) (canonical_payload : bytes)
  (commitment : KeyedCommitment) : prog bool :=
  match provider with
  | ProposalBoundCommitmentProvider p =>
      call (VerifyCommitmentFor p proposal_identity canonical_payload commitment)
  | CommitmentProvider p =>
      call (VerifyCommitment p (pi_proposal_reference proposal_identity) canonical_payload commitment)
  end.

Definition _protect_payload (codec : ProtectionCodecPort) (proposal_identity : ProposalIdentity)
  (canonical_payload : bytes) : prog ProtectedPayload :=
  match codec with
  | ProposalBoundProtectionCodec p => call (ProtectFor p proposal_identity canonical_payload)
  | ProtectionCodec p =>
      call (Protect p (pi_proposal_reference proposal_identity) canonical_payload)
  end.

Definition _unprotect_payload (codec : ProtectionCodecPort) (proposal_identity : ProposalIdentity)
  (payload : ProtectedPayload) : prog bytes :=
  match codec with
  | ProposalBoundProtectionCodec p => call (UnprotectFor p proposal_identity payload)
  | ProtectionCodec p => call (Unprotect p payload)
  end.

(** * Helpers *)

Definition _required (tenant_reference proposal_reference : pystr) : prog StoredProposal :=
  found ← call (Store (Get tenant_reference proposal_reference));
  match (found : option StoredProposal) with
  | None => raise ProposalNotFoundError
  | Some record =>
      if negb (bool_decide (sp_tenant_reference record = tenant_reference))
         || negb (bool_decide (sp_proposal_reference record = proposal_reference))
      then raise ProposalNotFoundError else Ret record
  end.

Definition _cas (current updated : StoredProposal) : prog bool :=
  call (Store (CompareAndSet (sp_tenant_reference current) (sp_proposal_reference current)
                 (sp_revision current) [sp_lifecycle_status current] updated)).

Definition _execution_context (record : StoredProposal) (observed_at : datetime)
  (authority_evidence : option (list AuthorityEvidence)) : res ExecutionContext :=
  match sp_requesting_principal record with
  | None => fail (InvalidActionResultError "proposal has no requesting principal")
  | Some principal =>
      let evidence_records :=
        match authority_evidence with None => sp_authority_evidence record | Some l => l end in
      let authorities := ae_authority <$>
        List.filter (λ e, bool_decide (ae_decision e = APPROVE)) evidence_records in
      Ok (mkExecutionContext (sp_tenant_reference record) (sp_proposal_reference record)
            (sp_semantic_effect_reference record) principal authorities observed_at)
  end.

Definition _valid_authority_evidence (evidence_records : list AuthorityEvidence)
  (binding : AuthorityBinding) (at_ : datetime) : list AuthorityEvidence :=
  List.filter (λ e, av_valid (validate_authority_evidence e binding at_)) evidence_records.

Definition _evaluate_authority (definition : ActionDefinition) (record : StoredProposal)
  (binding : AuthorityBinding) (at_ : datetime)
  : prog (list AuthorityEvidence * AuthorityEvaluation) :=
  let valid_evidence := _valid_authority_evidence (sp_authority_evidence record) binding at_ in
  evaluation ← call (Evaluate (ad_authority_evaluator definition) binding valid_evidence);
  Ret (valid_evidence, evaluation).

Definition _last_authority (record : StoredProposal) : res ConfirmingAuthority :=
  match find_last (λ e, bool_decide (ae_decision e = APPROVE)) (sp_authority_evidence record) with
  | Some e => Ok (ae_authority e)
  | None => fail (InvalidActionResultError "authorized proposal has no approving authority")
  end.

Definition _validate_prepared (definition : ActionDefinition) (prepared : PreparedAction) : res unit :=
  if negb (bool_decide (model_class (pd_private_snapshot prepared)
                        = ad_private_snapshot_model definition)) then
    fail (InvalidActionResultError "preparation returned the wrong private snapshot model")
  else if negb (bool_decide (model_class (pd_display_preview prepared)
                             = ad_display_preview_model definition)) then
    fail (InvalidActionResultError "preparation returned the wrong display preview model")
  else Ok ().

Definition _validate_result_type (definition : ActionDefinition) (result : option PyModel) : res unit :=
  match result with
  | None => Ok ()
  | Some r =>
      if negb (bool_decide (model_class r = ad_result_model definition)) then
        fail (InvalidActionResultError "host returned the wrong action result model")
      else Ok ()
  end.

Definition _result (record : StoredProposal) (outcome : OperationOutcome)
  (fresh_proposal_reference reason_code : option pystr) (include_display_preview : bool)
  : ActionOperationResult :=
  mkActionOperationResult (sp_proposal_reference record) (sp_lifecycle_status record) outcome
    (sp_revision record) (if include_display_preview then sp_display_preview record else [])
    (sp_safe_result record) fresh_proposal_reference reason_code.

(** [self._result(record, outcome)] with the defaults, and with a reason. *)
Definition plain_result (record : StoredProposal) (outcome : OperationOutcome)
  : ActionOperationResult := _result record outcome None None false.
Definition reasoned_result (record : StoredProposal) (outcome : OperationOutcome)
  (reason_code : option pystr) : ActionOperationResult := _result record outcome None reason_code false.

Definition _outcome_for (status : LifecycleStatus) : OperationOutcome :=
  match status with
  | AWAITING_AUTHORITY => OO_AUTHORITY_PENDING
  | AUTHORIZED => OO_AUTHORIZED
  | DENIED => OO_DENIED
  | EXPIRED => OO_EXPIRED
  | BLOCKED => OO_BLOCKED
  | STALE => OO_STALE
  | SUPERSEDED => OO_STALE
  | EXECUTING => OO_IN_PROGRESS
  | FAILED_KNOWN => OO_FAILED_KNOWN
  | FAILED_UNKNOWN => OO_IN_PROGRESS
  | VERIFICATION_PENDING => OO_IN_PROGRESS
  | VERIFICATION_UNRESOLVED => OO_VERIFICATION_UNRESOLVED
  | PARTIALLY_SUCCEEDED => OO_PARTIALLY_SUCCEEDED
  | VERIFIED => OO_VERIFIED
  end.

Definition _emit (record : StoredProposal) (event_type : RuntimeEventType) (observed_at : datetime)
  (reason_code : option pystr) : prog unit :=
  let event := mkRuntimeEvent event_type (sp_tenant_reference record) (sp_proposal_reference record)
    (sp_action_type record) (sp_lifecycle_status record) (sp_proposal_reference record)
    observed_at reason_code in
  emitted ← attempt (call (Emit event));
  match emitted with
  | Ok _ => Ret ()
  | Err e => if is_Exception e then Ret () else Raise e
  end.

(** The fields a receipt of the runtime shares with all others: a fresh
    reference, the proposal as correlation, and the attribution. *)
Definition new_receipt_base (self : ActionRuntime) (record_reference causation_reference : pystr)
  (observed_at : datetime) (external_reference : option ExternalReference)
  (reason_code : option pystr) : prog ReceiptBase :=
  new ← call (NewIdentifier "receipt");
  receipt_reference ← lift (SafeReference new);
  runtime_revision ← lift (SafeReference (_runtime_revision self));
  Ret (mkReceiptBase "internal/v0" receipt_reference record_reference causation_reference
         observed_at (Some runtime_revision) external_reference None None reason_code).

(** The binding [record_authority] and [execute] validate evidence against. *)
Definition authority_binding (definition : ActionDefinition) (record : StoredProposal)
  (commitment : KeyedCommitment) : AuthorityBinding :=
  mkAuthorityBinding (sp_tenant_reference record) (sp_action_type record)
    (sp_proposal_reference record) (sp_semantic_effect_reference record) (kc_digest commitment)
    (ad_authority_audience definition) (ad_authority_channel_assurance definition).

(** [record.erasure_pending_at is not None or record.erased_at is not None]
    is [record_erased].  The guard of every operation on a live proposal. *)
Definition require_live (definition : ActionDefinition) (record : StoredProposal) : res unit :=
  if negb (bool_decide (sp_action_type record = ad_action_type definition)) then
    fail ProposalNotFoundError
  else if record_erased record then fail ProposalNotFoundError
  else Ok ().

Definition next_revision (record : StoredProposal) : StoredProposal → StoredProposal :=
  set_revision (sp_revision record + 1).

Definition expired_record (record : StoredProposal) : StoredProposal :=
  next_revision record $ set_lifecycle_status EXPIRED record.

(** * Persisting a prepared proposal *)

(** Compensation: destroy what was created, and raise the failure again with
    what could not be destroyed as a note. *)
Definition _preparation_cleanup (definition : ActionDefinition) (proposal_identity : ProposalIdentity)
  (commitment : KeyedCommitment) (protected : option ProtectedPayload) (failure : exn)
  : prog StoredProposal :=
  payload_failures ←
    match protected with
    | None => Ret []
    | Some payload =>
        r ← attempt (_destroy_payload (ad_protection_codec definition) proposal_identity payload);
        Ret (match r with Ok _ => [] | Err e => [("payload"%py, type_name e)] end)
    end;
  r ← attempt (_destroy_commitment (ad_commitment_provider definition) proposal_identity commitment);
  let failures := payload_failures ++
    match r with Ok _ => [] | Err e => [("commitment"%py, type_name e)] end in
  match failures with
  | [] => Raise failure
  | (resource, exception_type) :: rest =>
      let summary := foldl (λ s '(resource, exception_type),
          s +:+ ", " +:+ resource +:+ "=" +:+ exception_type)%py
        (resource +:+ "=" +:+ exception_type)%py rest in
      Raise (add_note ("preparation cleanup failures: " +:+ summary)%py failure)
  end.

(** The [except BaseException] clause: [record] is set once the create was
    attempted, [protected] once the payload was protected. *)
Definition _preparation_failed (definition : ActionDefinition) (proposal_identity : ProposalIdentity)
  (commitment : KeyedCommitment) (protected : option ProtectedPayload)
  (record : option StoredProposal) (failure : exn) : prog StoredProposal :=
  let cleanup := _preparation_cleanup definition proposal_identity commitment protected failure in
  match record with
  | None => cleanup
  | Some r =>
      persisted ← attempt (call (Store (Get (pi_tenant_reference proposal_identity)
                                          (pi_proposal_reference proposal_identity))));
      match persisted with
      | Err reconciliation_failure =>
          if is_CancelledError failure then
            Raise (add_note ("proposal persistence reconciliation was interrupted; "
                             +:+ "do not compensate protected state")%py failure)
          else
            Raise (add_note ("proposal persistence reconciliation failed: "
                             +:+ type_name reconciliation_failure)%py
                     (raised (ProposalPersistenceOutcomeUnknownError
                        (pi_tenant_reference proposal_identity)
                        (pi_proposal_reference proposal_identity))))
      | Ok found =>
          if bool_decide ((found : option StoredProposal) = Some r) then
            if is_CancelledError failure then
              Raise (add_note ("proposal persisted before cancellation; "
                               +:+ "do not compensate protected state")%py failure)
            else Ret r
          else cleanup
      end
  end.

(** The record a preparation stores. *)
Definition prepared_record (definition : ActionDefinition) (identity : ProposalIdentity)
  (prepared : PreparedAction) (requesting_principal : RequestingPrincipal)
  (proposing_agent : option ProposingAgent) (now : datetime) (protected : ProtectedPayload)
  (commitment : KeyedCommitment) (base : ReceiptBase) : StoredProposal :=
  mkStoredProposal (pi_tenant_reference identity) (pi_proposal_reference identity)
    (ad_action_type definition) (pd_semantic_effect_reference prepared)
    (ad_effect_kind definition) AWAITING_AUTHORITY 0 (Some protected) (Some commitment)
    (model_dump_json (pd_display_preview prepared)) (Some requesting_principal) proposing_agent
    now (now + ad_proposal_ttl definition)%Z []
    [ProposalReceipt base PR_PREPARED requesting_principal proposing_agent]
    0 (ad_max_verification_attempts definition) None None None None None None.

Definition _persist_prepared (self : ActionRuntime) (definition : ActionDefinition)
  (tenant_reference : pystr) (prepared : PreparedAction) (requesting_principal : RequestingPrincipal)
  (proposing_agent : option ProposingAgent) (now : datetime) (proposal_reference : option pystr)
  : prog StoredProposal :=
  resolved_proposal_reference ←
    match proposal_reference with
    | None => call (NewIdentifier "proposal")
    | Some r => Ret r
    end;
  tenant ← lift (SafeReference tenant_reference);
  reference ← lift (SafeReference resolved_proposal_reference);
  let proposal_identity := mkProposalIdentity tenant reference in
  let private_json := model_dump_json (pd_private_snapshot prepared) in
  private_canonical ← lift (canonicalize_v1 (JObj private_json));
  commitment_input ← lift (commitment_payload_v1 reference private_canonical);
  commitment ← _create_commitment (ad_commitment_provider definition) proposal_identity
                 commitment_input;
  protection ← attempt (_protect_payload (ad_protection_codec definition) proposal_identity
                 private_canonical);
  match protection with
  | Err failure => _preparation_failed definition proposal_identity commitment None None failure
  | Ok protected =>
      receipt_base ← attempt (new_receipt_base self reference reference now None None);
      match receipt_base with
      | Err failure =>
          _preparation_failed definition proposal_identity commitment (Some protected) None failure
      | Ok base =>
          let record := prepared_record definition proposal_identity prepared requesting_principal
            proposing_agent now protected commitment base in
          created ← attempt (call (Store (Create record)));
          match created with
          | Ok _ => Ret record
          | Err failure =>
              _preparation_failed definition proposal_identity commitment (Some protected)
                (Some record) failure
          end
      end
  end.

Definition prepare (self : ActionRuntime) (definition : ActionDefinition) (tenant_reference : pystr)
  (command : PyModel) (requesting_principal : RequestingPrincipal)
  (proposing_agent : option ProposingAgent) (proposal_reference : option pystr)
  : prog ActionOperationResult :=
  now ← call ClockNow;
  tenant ← lift (SafeReference tenant_reference);
  let context := mkPreparationContext tenant requesting_principal proposing_agent now in
  authorization ← call (CanPrepare (ad_authorization definition) command context);
  if negb (az_allowed authorization) then
    raise (AuthorizationDeniedError
             (pystr_or (az_reason_code authorization) RuntimeReasonCode.PREPARE_DENIED))
  else
    prepared ← call (Prepare (ad_preparation definition) command context);
    _ ← lift (_validate_prepared definition prepared);
    record ← _persist_prepared self definition tenant_reference prepared requesting_principal
               proposing_agent now proposal_reference;
    _ ← _emit record PROPOSAL_PREPARED now None;
    Ret (_result record OO_PREPARED None None true).

(** * Authority *)

(** What a valid decision leads to: target status, outcome, receipt status
    and reason. *)
Definition authority_decision (definition : ActionDefinition) (binding : AuthorityBinding)
  (accumulated : list AuthorityEvidence) (evidence : AuthorityEvidence) (now : datetime)
  : prog (LifecycleStatus * OperationOutcome * AuthorityReceiptStatus * option pystr) :=
  if bool_decide (ae_decision evidence = DENY) then
    Ret (DENIED, OO_DENIED, AR_REJECTED, Some RuntimeReasonCode.AUTHORITY_REJECTED)
  else
    evaluation ← call (Evaluate (ad_authority_evaluator definition) binding
                         (_valid_authority_evidence accumulated binding now));
    Ret (if au_satisfied evaluation then AUTHORIZED else AWAITING_AUTHORITY,
         if au_satisfied evaluation then OO_AUTHORIZED else OO_AUTHORITY_PENDING,
         AR_RECORDED, au_reason_code evaluation).

(** [record_authority], from the receipt on. *)
Definition record_decision (self : ActionRuntime) (definition : ActionDefinition)
  (record : StoredProposal) (evidence : AuthorityEvidence) (accumulated : list AuthorityEvidence)
  (decided : LifecycleStatus * OperationOutcome * AuthorityReceiptStatus * option pystr)
  (now : datetime) : prog ActionOperationResult :=
  let '(target_status, outcome, receipt_status, reason_code) := decided in
  base ← new_receipt_base self (sp_proposal_reference record) (sp_proposal_reference record) now
           None reason_code;
  let receipt := AuthorityReceipt base receipt_status (ae_authority evidence) in
  let updated := next_revision record $ set_lifecycle_status target_status $
    set_receipts (sp_receipts record ++ [receipt]) $ set_authority_evidence accumulated record in
  won ← _cas record updated;
  if negb (won : bool) then
    current ← _required (sp_tenant_reference record) (sp_proposal_reference record);
    Ret (plain_result current
           (if bool_decide (evidence ∈ sp_authority_evidence current) then OO_REPLAYED
            else OO_CONFLICT))
  else
    _ ← _emit updated AUTHORITY_RECORDED now reason_code;
    Ret (reasoned_result updated outcome reason_code).

Definition record_authority (self : ActionRuntime) (definition : ActionDefinition)
  (evidence : AuthorityEvidence) (authenticated_authority : ConfirmingAuthority)
  (proposal_reference : option pystr) : prog ActionOperationResult :=
  let reference := pystr_or proposal_reference (ae_proposal_instance_reference evidence) in
  record ← _required (ae_tenant_reference evidence) reference;
  now ← call ClockNow;
  _ ← lift (require_live definition record);
  if negb (bool_decide (ae_authority evidence = authenticated_authority)) then
    raise (InvalidAuthorityEvidenceError "authenticated authority does not match evidence")
  else
    let decision_context := mkDecisionContext (sp_tenant_reference record) authenticated_authority now in
    decision_auth ← call (CanDecide (ad_authorization definition) evidence decision_context);
    if negb (az_allowed decision_auth) then raise ProposalNotFoundError
    else if bool_decide (evidence ∈ sp_authority_evidence record) then
      Ret (plain_result record OO_REPLAYED)
    else if negb (bool_decide (sp_lifecycle_status record = AWAITING_AUTHORITY)) then
      Ret (plain_result record (_outcome_for (sp_lifecycle_status record)))
    else if (sp_expires_at record <=? now)%Z then
      let expired := expired_record record in
      won ← _cas record expired;
      if (won : bool) then Ret (plain_result expired OO_EXPIRED)
      else
        current ← _required (ae_tenant_reference evidence) reference;
        Ret (plain_result current OO_CONFLICT)
    else
      match sp_commitment record with
      | None => raise (InvalidAuthorityEvidenceError "proposal commitment is unavailable")
      | Some commitment =>
          let binding := authority_binding definition record commitment in
          let validation := validate_authority_evidence evidence binding now in
          if negb (av_valid validation) then
            raise (InvalidAuthorityEvidenceError
                     match av_failure validation with
                     | Some f => validation_failure_value f
                     | None => "invalid_evidence"
                     end)
          else
            let accumulated := sp_authority_evidence record ++ [evidence] in
            decided ← authority_decision definition binding accumulated evidence now;
            record_decision self definition record evidence accumulated decided now
      end.

Definition expire_due (self : ActionRuntime) (definition : ActionDefinition)
  (tenant_reference proposal_reference : pystr) : prog ActionOperationResult :=
  record ← _required tenant_reference proposal_reference;
  _ ← lift (require_live definition record);
  if negb (bool_decide (sp_lifecycle_status record ∈ [AWAITING_AUTHORITY; AUTHORIZED])) then
    Ret (plain_result record (_outcome_for (sp_lifecycle_status record)))
  else
    now ← call ClockNow;
    if (now <? sp_expires_at record)%Z then
      Ret (plain_result record (_outcome_for (sp_lifecycle_status record)))
    else
      let expired := expired_record record in
      won ← _cas record expired;
      if negb (won : bool) then
        current ← _required tenant_reference proposal_reference;
        Ret (plain_result current OO_CONFLICT)
      else
        _ ← _emit expired LIFECYCLE_CHANGED now (Some RuntimeReasonCode.PROPOSAL_EXPIRED);
        Ret (reasoned_result expired OO_EXPIRED (Some RuntimeReasonCode.PROPOSAL_EXPIRED)).

(** * Execution *)

Definition _load_private (definition : ActionDefinition) (record : StoredProposal)
  : prog (option PyModel) :=
  match sp_protected_private_snapshot record, sp_commitment record with
  | Some protected, Some commitment =>
      let proposal_identity := mkProposalIdentity (sp_tenant_reference record)
                                 (sp_proposal_reference record) in
      unprotected ← attempt (_unprotect_payload (ad_protection_codec definition) proposal_identity
                               protected);
      match unprotected with
      | Err e => if is_KeyError_or_ValueError e then Ret None else Raise e
      | Ok canonical =>
          commitment_input ← lift (commitment_payload_v1 (sp_proposal_reference record) canonical);
          verified ← _verify_commitment (ad_commitment_provider definition) proposal_identity
                       commitment_input commitment;
          if negb (verified : bool) then Ret None
          else
            snapshot ← call (ValidateJson (ad_private_snapshot_model definition) canonical);
            Ret (Some (snapshot : PyModel))
      end
  | _, _ => Ret None
  end.

Definition _block (self : ActionRuntime) (definition : ActionDefinition) (record : StoredProposal)
  (now : datetime) (reason_code : pystr) : prog ActionOperationResult :=
  authority ← lift (_last_authority record);
  base ← new_receipt_base self (sp_proposal_reference record) (sp_proposal_reference record) now
           None (Some reason_code);
  let receipt := AuthorityReceipt base AR_FAILED authority in
  let blocked := next_revision record $ set_receipts (sp_receipts record ++ [receipt]) $
    set_lifecycle_status BLOCKED record in
  won ← _cas record blocked;
  if negb (won : bool) then
    current ← _required (sp_tenant_reference record) (sp_proposal_reference record);
    Ret (plain_result current OO_CONFLICT)
  else
    _ ← _emit blocked LIFECYCLE_CHANGED now (Some reason_code);
    Ret (reasoned_result blocked OO_BLOCKED (Some reason_code)).

Definition _supersede_stale (self : ActionRuntime) (definition : ActionDefinition)
  (record : StoredProposal) (replacement : option PreparedAction) (now : datetime)
  : prog ActionOperationResult :=
  base ← new_receipt_base self (sp_proposal_reference record) (sp_proposal_reference record) now
           None (Some RuntimeReasonCode.MATERIAL_DRIFT);
  let stale_receipt := ExecutionReceipt base ER_FAILED_KNOWN (ad_executor_identity definition) [] in
  let stale := next_revision record $ set_receipts (sp_receipts record ++ [stale_receipt]) $
    set_lifecycle_status STALE record in
  won ← _cas record stale;
  if negb (won : bool) then
    current ← _required (sp_tenant_reference record) (sp_proposal_reference record);
    Ret (plain_result current OO_CONFLICT)
  else
    '(final, fresh_reference) ←
      match replacement with
      | None => Ret (stale, None)
      | Some prepared =>
          match sp_requesting_principal record with
          | None => raise (InvalidActionResultError "stale replacement lost requesting principal")
          | Some principal =>
              _ ← lift (_validate_prepared definition prepared);
              fresh ← _persist_prepared self definition (sp_tenant_reference record) prepared
                        principal (sp_proposing_agent record) now None;
              let fresh_reference := sp_proposal_reference fresh in
              let superseded := next_revision stale $ set_superseded_by (Some fresh_reference) $
                set_lifecycle_status SUPERSEDED stale in
              won ← _cas stale superseded;
              Ret (if (won : bool) then superseded else stale, Some fresh_reference)
          end
      end;
    _ ← _emit final LIFECYCLE_CHANGED now (Some RuntimeReasonCode.MATERIAL_DRIFT);
    Ret (_result final OO_STALE fresh_reference (Some RuntimeReasonCode.MATERIAL_DRIFT) false).

(** The result model's own validation. *)
Definition ExecutionResult_validated (r : ExecutionResult) : res ExecutionResult :=
  match partial_requires_items r with
  | Ok r' => Ok r'
  | Err _ => fail ValidationError
  end.

Definition execution_receipt_status (s : ExecutionStatus) : ExecutionReceiptStatus :=
  match s with
  | EX_ACCEPTED => ER_ACCEPTED
  | EX_STALE_NO_EFFECT => ER_STALE_NO_EFFECT
  | EX_FAILED_KNOWN => ER_FAILED_KNOWN
  | EX_FAILED_UNKNOWN => ER_FAILED_UNKNOWN
  | EX_PARTIALLY_SUCCEEDED => ER_PARTIALLY_SUCCEEDED
  end.

(** Target status, outcome and next verification of a settled execution. *)
Definition execution_target (definition : ActionDefinition) (s : ExecutionStatus) (now : datetime)
  : LifecycleStatus * OperationOutcome * option datetime :=
  match s with
  | EX_STALE_NO_EFFECT => (STALE, OO_STALE, None)
  | EX_FAILED_KNOWN => (FAILED_KNOWN, OO_FAILED_KNOWN, None)
  | EX_FAILED_UNKNOWN => (FAILED_UNKNOWN, OO_FAILED_UNKNOWN, Some now)
  | EX_ACCEPTED | EX_PARTIALLY_SUCCEEDED =>
      (VERIFICATION_PENDING, OO_VERIFICATION_PENDING,
       Some (now + ad_verification_delay definition)%Z)
  end.

Definition itemized_effect (definition : ActionDefinition) (record : StoredProposal) : bool :=
  bool_decide (ad_effect_kind definition = itemized) && bool_decide (sp_effect_kind record = itemized).

(** A partial success of an action that does not declare items is unknown. *)
Definition declared_execution (definition : ActionDefinition) (record : StoredProposal)
  (execution : ExecutionResult) : res ExecutionResult :=
  if bool_decide (xr_status execution = EX_PARTIALLY_SUCCEEDED)
     && negb (itemized_effect definition record) then
    ExecutionResult_validated (mkExecutionResult EX_FAILED_UNKNOWN None (xr_item_outcomes execution)
      None (Some RuntimeReasonCode.PARTIAL_NOT_DECLARED))
  else Ok execution.

Definition execution_reason (execution : ExecutionResult) : option pystr :=
  if negb (bool_decide (xr_status execution = EX_STALE_NO_EFFECT)) then xr_reason_code execution
  else Some (pystr_or (xr_reason_code execution) RuntimeReasonCode.MATERIAL_DRIFT).

Definition _settle_execution (self : ActionRuntime) (definition : ActionDefinition)
  (record : StoredProposal) (host_execution : ExecutionResult) (now : datetime)
  : prog ActionOperationResult :=
  _ ← lift (_validate_result_type definition (xr_result host_execution));
  execution ← lift (declared_execution definition record host_execution);
  let reason_code := execution_reason execution in
  base ← new_receipt_base self (sp_proposal_reference record) (sp_proposal_reference record) now
           (xr_external_reference execution) reason_code;
  let receipt := ExecutionReceipt base (execution_receipt_status (xr_status execution))
    (ad_executor_identity definition) (xr_item_outcomes execution) in
  let safe_result := model_dump_json <$> xr_result execution in
  let '(target, outcome, next_verification_at) :=
    execution_target definition (xr_status execution) now in
  let settled := next_revision record $ set_next_verification_at next_verification_at $
    set_safe_result safe_result $ set_receipts (sp_receipts record ++ [receipt]) $
    set_lifecycle_status target record in
  won ← _cas record settled;
  if negb (won : bool) then
    current ← _required (sp_tenant_reference record) (sp_proposal_reference record);
    Ret (plain_result current OO_IN_PROGRESS)
  else
    _ ← _emit settled LIFECYCLE_CHANGED now reason_code;
    Ret (reasoned_result settled outcome reason_code).

(** The answer of [execute] when it finds the proposal expired. *)
Definition expire_unexecuted (record : StoredProposal) : prog ActionOperationResult :=
  let expired := expired_record record in
  won ← _cas record expired;
  Ret (if (won : bool) then plain_result expired OO_EXPIRED else plain_result record OO_CONFLICT).

(** The reason [execute] blocks a proposal whose authority no longer holds. *)
Definition authority_refusal (record : StoredProposal) (valid_evidence : list AuthorityEvidence)
  (authority : AuthorityEvaluation) : pystr :=
  if negb (bool_decide (length valid_evidence = length (sp_authority_evidence record)))
  then RuntimeReasonCode.AUTHORITY_EXPIRED
  else pystr_or (au_reason_code authority) RuntimeReasonCode.AUTHORITY_NO_LONGER_SATISFIED.

(** [execute], from the acknowledged admission on. *)
Definition execute_admitted (self : ActionRuntime) (definition : ActionDefinition)
  (record executing : StoredProposal) (binding : AuthorityBinding)
  (valid_evidence : list AuthorityEvidence) (resolved : ResolvedState) (admitted_at : datetime)
  : prog ActionOperationResult :=
  execution_at ← call ClockNow;
  let refusal :=
    if (sp_expires_at record <=? execution_at)%Z then Some RuntimeReasonCode.PROPOSAL_EXPIRED
    else if negb (bool_decide
              (_valid_authority_evidence valid_evidence binding execution_at = valid_evidence)) then
      Some RuntimeReasonCode.AUTHORITY_EXPIRED
    else if (admitted_at + ad_verification_lease_duration definition <=? execution_at)%Z then
      Some RuntimeReasonCode.EXECUTION_LEASE_EXPIRED
    else None in
  match refusal with
  | Some reason =>
      execution ← lift (ExecutionResult_validated
                          (mkExecutionResult EX_FAILED_KNOWN None [] None (Some reason)));
      _settle_execution self definition executing execution execution_at
  | None =>
      context ← lift (_execution_context record execution_at (Some valid_evidence));
      execution ← call (Execute (ad_executor definition) (rs_current_snapshot resolved) context
                          (rs_execution_precondition resolved));
      settled_at ← call ClockNow;
      _settle_execution self definition executing execution settled_at
  end.

(** The record [execute] asks the store to admit. *)
Definition executing_record (definition : ActionDefinition) (record : StoredProposal)
  (resolved : ResolvedState) (admitted_at : datetime) (started_receipt : Receipt) : StoredProposal :=
  next_revision record $ set_receipts (sp_receipts record ++ [started_receipt]) $
  set_next_verification_at (Some (admitted_at + ad_verification_lease_duration definition)%Z) $
  set_lifecycle_status EXECUTING $
  set_execution_precondition (Some (rs_execution_precondition resolved)) record.

(** [execute], from the state resolution on. *)
Definition execute_resolved (self : ActionRuntime) (definition : ActionDefinition)
  (record : StoredProposal) (binding : AuthorityBinding) (resolved : ResolvedState)
  : prog ActionOperationResult :=
  admitted_at ← call ClockNow;
  if (sp_expires_at record <=? admitted_at)%Z then expire_unexecuted record
  else
    '(valid_evidence, authority) ← _evaluate_authority definition record binding admitted_at;
    if negb (au_satisfied authority) then
      _block self definition record admitted_at (authority_refusal record valid_evidence authority)
    else
      context ← lift (_execution_context record admitted_at (Some valid_evidence));
      live_authorization ← call (CanExecute (ad_authorization definition)
                                   (rs_current_snapshot resolved) context);
      if negb (az_allowed live_authorization) then
        _block self definition record admitted_at
          (pystr_or (az_reason_code live_authorization) RuntimeReasonCode.REAUTHORIZATION_FAILED)
      else
        admitted_at ← call ClockNow;
        if (sp_expires_at record <=? admitted_at)%Z then expire_unexecuted record
        else if negb (bool_decide
                  (_valid_authority_evidence valid_evidence binding admitted_at = valid_evidence)) then
          _block self definition record admitted_at RuntimeReasonCode.AUTHORITY_EXPIRED
        else
          base ← new_receipt_base self (sp_proposal_reference record)
                   (sp_proposal_reference record) admitted_at None None;
          let started_receipt := ExecutionReceipt base ER_STARTED (ad_executor_identity definition) [] in
          let executing := executing_record definition record resolved admitted_at started_receipt in
          claim ← call (Store (AdmitExecution (sp_tenant_reference record)
                     (sp_proposal_reference record) (sp_revision record) admitted_at executing));
          match (claim : EffectClaimResult) with
          | CONFLICT =>
              current ← _required (sp_tenant_reference record) (sp_proposal_reference record);
              Ret (plain_result current
                     (if bool_decide (sp_lifecycle_status current = EXECUTING)
                      then OO_IN_PROGRESS else OO_REPLAYED))
          | PROPOSAL_NOT_FOUND => raise ProposalNotFoundError
          | PROPOSAL_NOT_AUTHORIZED =>
              current ← _required (sp_tenant_reference record) (sp_proposal_reference record);
              Ret (plain_result current (_outcome_for (sp_lifecycle_status current)))
          | ACQUIRED | OWNED_BY_PROPOSAL =>
              execute_admitted self definition record executing binding valid_evidence resolved
                admitted_at
          end.

Definition execute (self : ActionRuntime) (definition : ActionDefinition)
  (tenant_reference proposal_reference : pystr) : prog ActionOperationResult :=
  record ← _required tenant_reference proposal_reference;
  _ ← lift (require_live definition record);
  if bool_decide (sp_lifecycle_status record = AWAITING_AUTHORITY) then
    Ret (plain_result record OO_AUTHORITY_PENDING)
  else if negb (bool_decide (sp_lifecycle_status record = AUTHORIZED)) then
    Ret (plain_result record (_outcome_for (sp_lifecycle_status record)))
  else
    now ← call ClockNow;
    if (sp_expires_at record <=? now)%Z then expire_unexecuted record
    else
      loaded ← _load_private definition record;
      match (loaded : option PyModel) with
      | None => _block self definition record now RuntimeReasonCode.PRIVATE_SNAPSHOT_UNAVAILABLE
      | Some snapshot =>
          match sp_commitment record with
          | None =>
              _block self definition record now RuntimeReasonCode.PROPOSAL_COMMITMENT_UNAVAILABLE
          | Some commitment =>
              let binding := authority_binding definition record commitment in
              '(valid_evidence, authority) ← _evaluate_authority definition record binding now;
              if negb (au_satisfied authority) then
                _block self definition record now (authority_refusal record valid_evidence authority)
              else
                context ← lift (_execution_context record now (Some valid_evidence));
                resolved ← call (Resolve (ad_state_resolver definition) snapshot context);
                if negb (bool_decide (model_class (rs_current_snapshot resolved)
                                      = ad_private_snapshot_model definition)) then
                  raise (InvalidActionResultError "state resolver returned the wrong snapshot model")
                else if rs_materially_drifted resolved then
                  _supersede_stale self definition record (rs_replacement resolved) now
                else execute_resolved self definition record binding resolved
          end
      end.

(** * Verification *)

Definition verification_receipt_status (s : VerificationStatus) : VerificationReceiptStatus :=
  match s with
  | VS_VERIFIED_COMPLETION => VR_VERIFIED_COMPLETION
  | VS_VERIFIED_TERMINAL_FAILURE => VR_VERIFIED_TERMINAL_FAILURE
  | VS_PROVISIONAL_ABSENCE => VR_PROVISIONAL_ABSENCE
  | VS_AUTHORITATIVE_FINAL_ABSENCE => VR_AUTHORITATIVE_FINAL_ABSENCE
  | VS_TARGET_UNAVAILABLE => VR_TARGET_UNAVAILABLE
  end.

Definition resend_allowed (definition : ActionDefinition) (verification : VerificationResult) : bool :=
  ad_allow_resend_after_final_absence definition && vr_settling_boundary_passed verification
  && vr_target_idempotency_guaranteed verification.

Definition _verification_transition (definition : ActionDefinition) (record : StoredProposal)
  (verification : VerificationResult) (attempts : Z)
  : LifecycleStatus * OperationOutcome * option pystr :=
  let exhausted_or_pending :=
    if (sp_max_verification_attempts record <=? attempts)%Z then
      (VERIFICATION_UNRESOLVED, OO_VERIFICATION_UNRESOLVED,
       Some (pystr_or (vr_reason_code verification) RuntimeReasonCode.VERIFICATION_RETRIES_EXHAUSTED))
    else (VERIFICATION_PENDING, OO_VERIFICATION_PENDING, vr_reason_code verification) in
  match vr_status verification with
  | VS_VERIFIED_COMPLETION =>
      let has_partial_items := existsb (λ i, negb (item_succeeded i)) (vr_item_outcomes verification) in
      if negb (bool_decide (vr_item_outcomes verification = []))
         && negb (itemized_effect definition record) then
        (VERIFICATION_UNRESOLVED, OO_VERIFICATION_UNRESOLVED,
         Some RuntimeReasonCode.PARTIAL_NOT_DECLARED)
      else if has_partial_items then
        (PARTIALLY_SUCCEEDED, OO_PARTIALLY_SUCCEEDED, vr_reason_code verification)
      else (VERIFIED, OO_VERIFIED, vr_reason_code verification)
  | VS_VERIFIED_TERMINAL_FAILURE =>
      (FAILED_KNOWN, OO_FAILED_KNOWN,
       Some (pystr_or (vr_reason_code verification) RuntimeReasonCode.VERIFIED_TERMINAL_FAILURE))
  | VS_AUTHORITATIVE_FINAL_ABSENCE =>
      if resend_allowed definition verification then
        (AUTHORIZED, OO_RESEND_ALLOWED, Some RuntimeReasonCode.AUTHORITATIVE_FINAL_ABSENCE)
      else (FAILED_KNOWN, OO_FAILED_KNOWN, Some RuntimeReasonCode.AUTHORITATIVE_FINAL_ABSENCE)
  | VS_PROVISIONAL_ABSENCE | VS_TARGET_UNAVAILABLE => exhausted_or_pending
  end.

(** The record a verification settles to. *)
Definition verified_record (definition : ActionDefinition) (record : StoredProposal)
  (verification : VerificationResult) (now : datetime) (receipt : Receipt) : StoredProposal :=
  let attempts := sp_verification_attempts record in
  let '(target, outcome, _) := _verification_transition definition record verification attempts in
  let safe_result :=
    match vr_result verification with
    | Some result => Some (model_dump_json result)
    | None => sp_safe_result record
    end in
  next_revision record $
  set_next_verification_at
    (if bool_decide (target = VERIFICATION_PENDING)
     then Some (now + ad_verification_delay definition)%Z else None) $
  set_verification_attempts (if bool_decide (outcome = OO_RESEND_ALLOWED) then 0 else attempts)%Z $
  set_safe_result safe_result $ set_receipts (sp_receipts record ++ [receipt]) $
  set_lifecycle_status target record.

Definition _settle_verification (self : ActionRuntime) (definition : ActionDefinition)
  (record : StoredProposal) (verification : VerificationResult) (now : datetime)
  : prog ActionOperationResult :=
  _ ← lift (_validate_result_type definition (vr_result verification));
  base ← new_receipt_base self (sp_proposal_reference record) (sp_proposal_reference record) now
           (vr_external_reference verification) (vr_reason_code verification);
  let receipt := VerificationReceipt base (verification_receipt_status (vr_status verification))
    (ad_target_identity definition) (vr_item_outcomes verification) in
  let '(_, outcome, reason_code) := _verification_transition definition record verification
    (sp_verification_attempts record) in
  let settled := verified_record definition record verification now receipt in
  won ← _cas record settled;
  if negb (won : bool) then
    current ← _required (sp_tenant_reference record) (sp_proposal_reference record);
    Ret (plain_result current OO_IN_PROGRESS)
  else
    _ ← _emit settled VERIFICATION_OBSERVED now reason_code;
    Ret (reasoned_result settled outcome reason_code).

(** [reconcile], once the record is pending: the schedule and the attempt
    limit, then one authoritative observation. *)
Definition reconcile_pending (self : ActionRuntime) (definition : ActionDefinition)
  (tenant_reference proposal_reference : pystr) (record : StoredProposal) (now : datetime)
  : prog ActionOperationResult :=
  if lies_after (sp_next_verification_at record) now then
    Ret (plain_result record OO_VERIFICATION_PENDING)
  else if (sp_max_verification_attempts record <=? sp_verification_attempts record)%Z then
    let unresolved := next_revision record $ set_next_verification_at None $
      set_lifecycle_status VERIFICATION_UNRESOLVED record in
    won ← _cas record unresolved;
    if negb (won : bool) then
      current ← _required tenant_reference proposal_reference;
      Ret (plain_result current OO_IN_PROGRESS)
    else
      _ ← _emit unresolved LIFECYCLE_CHANGED now
            (Some RuntimeReasonCode.VERIFICATION_RETRIES_EXHAUSTED);
      Ret (reasoned_result unresolved OO_VERIFICATION_UNRESOLVED
             (Some RuntimeReasonCode.VERIFICATION_RETRIES_EXHAUSTED))
  else
    let admitted := next_revision record $
      set_verification_attempts (sp_verification_attempts record + 1)%Z $
      set_next_verification_at (Some (now + ad_verification_lease_duration definition)%Z) record in
    won ← _cas record admitted;
    if negb (won : bool) then
      current ← _required tenant_reference proposal_reference;
      Ret (plain_result current OO_IN_PROGRESS)
    else
      context ← lift (_execution_context admitted now None);
      verification ← call (Verify (ad_verifier definition) context);
      _settle_verification self definition admitted verification now.

Definition reconcile (self : ActionRuntime) (definition : ActionDefinition)
  (tenant_reference proposal_reference : pystr) : prog ActionOperationResult :=
  record ← _required tenant_reference proposal_reference;
  _ ← lift (require_live definition record);
  now ← call ClockNow;
  if bool_decide (sp_lifecycle_status record = EXECUTING)
     && lies_after (sp_next_verification_at record) now then
    Ret (plain_result record OO_IN_PROGRESS)
  else if bool_decide (sp_lifecycle_status record ∈ [EXECUTING; FAILED_UNKNOWN]) then
    let pending := next_revision record $ set_lifecycle_status VERIFICATION_PENDING record in
    won ← _cas record pending;
    if negb (won : bool) then
      current ← _required tenant_reference proposal_reference;
      Ret (plain_result current OO_IN_PROGRESS)
    else reconcile_pending self definition tenant_reference proposal_reference pending now
  else if negb (bool_decide (sp_lifecycle_status record = VERIFICATION_PENDING)) then
    Ret (plain_result record (_outcome_for (sp_lifecycle_status record)))
  else reconcile_pending self definition tenant_reference proposal_reference record now.

(** The receipt a resumption is caused by. *)
Definition causal_receipt (receipts : list Receipt) : option Receipt :=
  match last_verification receipts with
  | Some r => Some r
  | None => list.last receipts
  end.

Definition resumed_record (record : StoredProposal) (now : datetime) (receipt : Receipt)
  : StoredProposal :=
  next_revision record $ set_receipts (sp_receipts record ++ [receipt]) $
  set_next_verification_at (Some now) $ set_verification_attempts 0 $
  set_lifecycle_status VERIFICATION_PENDING record.

Definition resume_verification (self : ActionRuntime) (definition : ActionDefinition)
  (tenant_reference proposal_reference : pystr) (expected_revision : Z) (operator : RecoveryOperator)
  (intervention_reference : pystr) : prog ActionOperationResult :=
  record ← _required tenant_reference proposal_reference;
  _ ← lift (require_live definition record);
  now ← call ClockNow;
  tenant ← lift (SafeReference tenant_reference);
  intervention ← lift (SafeReference intervention_reference);
  let recovery_context := mkRecoveryContext tenant operator intervention now in
  match ad_recovery_authorization definition with
  | None => raise (AuthorizationDeniedError RuntimeReasonCode.RECOVERY_NOT_AUTHORIZED)
  | Some authorization =>
      recovery_authorization ← call (CanRecover authorization proposal_reference recovery_context);
      if negb (az_allowed recovery_authorization) then
        raise (AuthorizationDeniedError
                 (pystr_or (az_reason_code recovery_authorization)
                    RuntimeReasonCode.RECOVERY_NOT_AUTHORIZED))
      else if negb (bool_decide (sp_lifecycle_status record ∈
                                  [VERIFICATION_PENDING; VERIFICATION_UNRESOLVED])) then
        Ret (plain_result record (_outcome_for (sp_lifecycle_status record)))
      else if negb (sp_revision record =? expected_revision)%Z then
        Ret (plain_result record OO_CONFLICT)
      else
        match causal_receipt (sp_receipts record) with
        | None => raise (StoreInvariantError "verification recovery requires a prior receipt")
        | Some cause =>
            base ← new_receipt_base self (sp_proposal_reference record)
                     (rb_receipt_reference (receipt_base cause)) now
                     (Some (mkExternalReference "host_operator_intervention" intervention))
                     (Some RuntimeReasonCode.OPERATOR_VERIFICATION_RESUMED);
            let receipt := RecoveryReceipt base RR_VERIFICATION_RESUMED operator in
            let resumed := resumed_record record now receipt in
            won ← _cas record resumed;
            if negb (won : bool) then
              current ← _required tenant_reference proposal_reference;
              Ret (plain_result current OO_CONFLICT)
            else
              _ ← _emit resumed VERIFICATION_RESUMED now
                    (Some RuntimeReasonCode.OPERATOR_VERIFICATION_RESUMED);
              reconcile self definition tenant_reference proposal_reference
        end
  end.

(** * Reads *)

(** The guard of the reads: the stored type, then the host's permission. *)
Definition authorize_read (definition : ActionDefinition) (record : StoredProposal)
  (proposal_reference : pystr) (context : ReadContext) : prog unit :=
  if negb (bool_decide (sp_action_type record = ad_action_type definition)) then
    raise ProposalNotFoundError
  else
    allowed ← call (CanRead (ad_authorization definition) proposal_reference context);
    if negb (allowed : bool) then raise ProposalNotFoundError else Ret ().

Definition read (definition : ActionDefinition) (proposal_reference : pystr) (context : ReadContext)
  : prog ProposalView :=
  record ← _required (rd_tenant_reference context) proposal_reference;
  _ ← authorize_read definition record proposal_reference context;
  let erased := record_erased record in
  Ret (mkProposalView (sp_proposal_reference record) (sp_lifecycle_status record)
         (sp_revision record) (if erased then [] else sp_display_preview record)
         (if erased then [] else sp_receipts record)
         (if erased then None else sp_safe_result record) erased).

Definition observed_condition (record : StoredProposal) (observed_at : datetime)
  : ActionRecoveryCondition :=
  recovery_condition (sp_lifecycle_status record) observed_at (sp_expires_at record)
    (sp_next_verification_at record) (last_verification_status (sp_receipts record)).

Definition _read_effect_owner (definition : ActionDefinition) (record : StoredProposal)
  (context : ReadContext) (observed_at : datetime)
  : prog (ActionEffectOwnership * option ActionRecoveryOwnerView) :=
  let lookup := attempt (call (Store (GetEffectClaimOwner (sp_tenant_reference record)
                  (sp_action_type record) (sp_semantic_effect_reference record)))) in
  owner ← lookup;
  match (owner : res (option pystr)) with
  | Err e => if is_Exception e then Ret (OBSERVATION_UNCERTAIN, None) else Raise e
  | Ok None => Ret (UNCLAIMED, None)
  | Ok (Some owner_reference) =>
      if bool_decide (owner_reference = sp_proposal_reference record) then
        Ret (OWNED_BY_THIS_PROPOSAL, None)
      else
        owner_record ← call (Store (Get (sp_tenant_reference record) owner_reference));
        shown ←
          match (owner_record : option StoredProposal) with
          | None => Ret None
          | Some o =>
              if bool_decide (sp_action_type o = sp_action_type record)
                 && bool_decide (sp_semantic_effect_reference o = sp_semantic_effect_reference record)
                 && negb (record_erased o) then
                allowed ← call (CanRead (ad_authorization definition) owner_reference context);
                Ret (if (allowed : bool) then Some o else None)
              else Ret None
          end;
        confirmed ← lookup;
        match (confirmed : res (option pystr)) with
        | Err e => if is_Exception e then Ret (OBSERVATION_UNCERTAIN, None) else Raise e
        | Ok confirmed_reference =>
            if negb (bool_decide (confirmed_reference = Some owner_reference)) then
              Ret (OBSERVATION_UNCERTAIN, None)
            else
              match (shown : option StoredProposal) with
              | None => Ret (OWNED_ELSEWHERE, None)
              | Some o =>
                  Ret (OWNED_ELSEWHERE,
                       Some (mkActionRecoveryOwnerView (sp_proposal_reference o) (sp_revision o)
                               (sp_lifecycle_status o) (observed_condition o observed_at)
                               (sp_next_verification_at o)))
              end
        end
  end.

Definition read_recovery (definition : ActionDefinition) (proposal_reference : pystr)
  (context : ReadContext) : prog ActionRecoveryView :=
  record ← _required (rd_tenant_reference context) proposal_reference;
  _ ← authorize_read definition record proposal_reference context;
  observed_at ← call ClockNow;
  if record_erased record then
    Ret (mkActionRecoveryView (sp_proposal_reference record) (sp_lifecycle_status record)
           (sp_revision record) true observed_at None None None None None None RECOVERY_ERASED
           OBSERVATION_UNCERTAIN None (recovery_steps RECOVERY_ERASED None None))
  else
    let condition := observed_condition record observed_at in
    let reason_code :=
      match last_reason_code (sp_receipts record) with
      | Some reason => Some reason
      | None => if bool_decide (condition = EXPIRY_DUE)
                then Some RuntimeReasonCode.PROPOSAL_EXPIRED else None
      end in
    '(ownership, owner) ← _read_effect_owner definition record context observed_at;
    let condition :=
      if bool_decide (sp_lifecycle_status record = AUTHORIZED)
         && bool_decide (ownership ∈ [OWNED_ELSEWHERE; OBSERVATION_UNCERTAIN])
      then EFFECT_OWNED_ELSEWHERE else condition in
    Ret (mkActionRecoveryView (sp_proposal_reference record) (sp_lifecycle_status record)
           (sp_revision record) false observed_at (Some (sp_expires_at record))
           (sp_next_verification_at record) (Some (sp_verification_attempts record))
           (Some (sp_max_verification_attempts record))
           (last_verification_status (sp_receipts record)) reason_code condition ownership owner
           (recovery_steps condition (sp_next_verification_at record) reason_code)).

Definition export_evidence (dump : ActionEvidenceBundle → JsonObject) (sha256 : bytes → pystr)
  (self : ActionRuntime) (definition : ActionDefinition) (proposal_reference : pystr)
  (context : ReadContext) : prog ActionEvidenceBundle :=
  record ← _required (rd_tenant_reference context) proposal_reference;
  _ ← authorize_read definition record proposal_reference context;
  exported_at ← call ClockNow;
  lift (build_evidence_bundle dump sha256 record exported_at (_runtime_revision self)).

Definition observation_context (definition : ActionDefinition) (proposal_reference : pystr)
  (context : ReadContext) : prog ExecutionContext :=
  record ← _required (rd_tenant_reference context) proposal_reference;
  _ ← authorize_read definition record proposal_reference context;
  if record_erased record then raise ProposalNotFoundError
  else
    observed_at ← call ClockNow;
    lift (_execution_context record observed_at None).

(** * Erasure *)

(** [erase], once the record is marked. *)
Definition erase_pending (definition : ActionDefinition) (proposal_reference : pystr)
  (context : ReadContext) (record : StoredProposal) (now : datetime) : prog ActionOperationResult :=
  let proposal_identity := mkProposalIdentity (sp_tenant_reference record)
                             (sp_proposal_reference record) in
  _ ← match sp_protected_private_snapshot record with
      | None => Ret ()
      | Some payload => _destroy_payload (ad_protection_codec definition) proposal_identity payload
      end;
  _ ← match sp_commitment record with
      | None => Ret ()
      | Some commitment =>
          _destroy_commitment (ad_commitment_provider definition) proposal_identity commitment
      end;
  completed ← call (Store (CompleteErasure (sp_tenant_reference record)
                 (sp_proposal_reference record) (sp_revision record) now));
  if negb (completed : bool) then
    current ← _required (rd_tenant_reference context) proposal_reference;
    Ret (plain_result current
           (if bool_decide (is_Some (sp_erased_at current)) then OO_ERASED else OO_CONFLICT))
  else
    erased ← _required (rd_tenant_reference context) proposal_reference;
    _ ← _emit erased PROPOSAL_ERASED now None;
    Ret (plain_result erased OO_ERASED).

Definition erase (self : ActionRuntime) (definition : ActionDefinition) (proposal_reference : pystr)
  (context : ReadContext) : prog ActionOperationResult :=
  if negb (_retention_store self) then
    raise (RetentionStoreUnavailableError
             "erasure requires a separately configured privileged retention store")
  else
    allowed ← call (AuthorizeErasure (ad_retention definition) proposal_reference context);
    if negb (allowed : bool) then raise ProposalNotFoundError
    else
      record ← _required (rd_tenant_reference context) proposal_reference;
      if negb (bool_decide (sp_action_type record = ad_action_type definition)) then
        raise ProposalNotFoundError
      else if bool_decide (is_Some (sp_erased_at record)) then Ret (plain_result record OO_ERASED)
      else
        now ← call ClockNow;
        if bool_decide (is_Some (sp_erasure_pending_at record)) then
          erase_pending definition proposal_reference context record now
        else
          marked ← call (Store (MarkErasurePending (sp_tenant_reference record)
                      (sp_proposal_reference record) (sp_revision record) now));
          record ← _required (rd_tenant_reference context) proposal_reference;
          if (marked : bool) then erase_pending definition proposal_reference context record now
          else if bool_decide (is_Some (sp_erased_at record)) then Ret (plain_result record OO_ERASED)
          else if bool_decide (sp_erasure_pending_at record = None) then
            Ret (plain_result record OO_CONFLICT)
          else erase_pending definition proposal_reference context record now.

End Runtime.
