(* ===== verification/Scenario.v ===== *)
(** A concrete deployment, on which the properties of the runtime are
    exercised: the in-memory store, a clock that advances by one second at each
    reading, counted identifiers, a reversible stand-in for cryptography, and a
    host whose answers are fixed by [behaviour]. *)

From S2P Require Import Prelude Models Canonical Authority Receipts Registry StoreBase StoreContract.
From S2P Require Import MemoryStore Recovery Evidence Program Runtime.

#[export] Instance scenario_unicode : Unicode := ascii_unicode.

Definition sample_action : ActionType := mkActionType "shop.orders" "refund" 1.
Definition customer : RequestingPrincipal := mkRequestingPrincipal "user:1".
Definition approver : ConfirmingAuthority := mkConfirmingAuthority "manager:1".

Definition snapshot_model : PyModel := mkPyModel "Snapshot" [("order"%py, JInt 7)].
Definition preview_model : PyModel := mkPyModel "Preview" [("amount"%py, JStr "10.00")].

Definition sample_definition (resend : bool) : ActionDefinition :=
  mkActionDefinition sample_action "Command" "Snapshot" "Preview" "Result"
    1 2 3 4 5 6 (CommitmentProvider 7) (ProposalBoundProtectionCodec 8) 9
    (minutes 10) (mkGovernedExecutor "executor") (mkAuthoritativeTarget "target")
    "audience" "session" (Some 10%positive) (seconds 0) 3 single resend (minutes 1).

Record behaviour := mkBehaviour {
  drifted : bool;
  replacement : option PreparedAction;
  execution_answer : res ExecutionResult;
  verification_answer : res VerificationResult
}.

Definition prepared_model : PreparedAction := mkPreparedAction snapshot_model preview_model "refund:7".

Definition accepting : ExecutionResult := mkExecutionResult EX_ACCEPTED None [] None None.
Definition completed : VerificationResult :=
  mkVerificationResult VS_VERIFIED_COMPLETION None [] None None false false.
Definition finally_absent : VerificationResult :=
  mkVerificationResult VS_AUTHORITATIVE_FINAL_ABSENCE None [] None None true true.

Definition usual : behaviour := mkBehaviour false None (Ok accepting) (Ok completed).

Record deployment := mkDeployment {
  dp_store : MemoryActionStore;
  dp_now : datetime;
  dp_identifiers : N
}.

Definition start : deployment := mkDeployment memory_init 0 0.

Definition with_store (s : MemoryActionStore) (w : deployment) : deployment :=
  mkDeployment s (dp_now w) (dp_identifiers w).

(** The answers of the host and of the services. *)
Definition handle (b : behaviour) (o : op) (w : deployment) : res (resp o) * deployment :=
  match o return res (resp o) * deployment with
  | Store so => let '(r, s) := memory_run so (dp_store w) in (r, with_store s w)
  | ClockNow => (Ok (dp_now w + seconds 1)%Z,
      mkDeployment (dp_store w) (dp_now w + seconds 1)%Z (dp_identifiers w))
  | NewIdentifier prefix =>
      (Ok (prefix +:+ PyStr [58; 97 + dp_identifiers w]%N)%py,
       mkDeployment (dp_store w) (dp_now w) (dp_identifiers w + 1)%N)
  | Emit _ => (Ok (), w)
  | CanPrepare _ _ _ | CanDecide _ _ _ | CanExecute _ _ _ | CanRecover _ _ _ =>
      (Ok (mkAuthorizationResult true None), w)
  | Prepare _ _ _ => (Ok prepared_model, w)
  | CanRead _ _ _ | AuthorizeErasure _ _ _ => (Ok true, w)
  | Evaluate _ _ es => (Ok (mkAuthorityEvaluation (negb (length es =? 0)%nat) None), w)
  | Resolve _ s _ => (Ok (mkResolvedState s "version:1" (drifted b) (replacement b)), w)
  | Execute _ _ _ _ => (execution_answer b, w)
  | Verify _ _ => (verification_answer b, w)
  | CreateCommitment _ _ payload | CreateCommitmentFor _ _ payload =>
      (Ok (mkKeyedCommitment "alg" "key" "1" (PyStr (Z.to_N <$> payload))), w)
  | VerifyCommitment _ _ payload k | VerifyCommitmentFor _ _ payload k =>
      (Ok (bool_decide (kc_digest k = PyStr (Z.to_N <$> payload))), w)
  | DestroyCommitment _ _ | DestroyCommitmentFor _ _ _ | DestroyPayload _ _
  | DestroyPayloadFor _ _ _ => (Ok (), w)
  | Protect _ _ payload | ProtectFor _ _ payload =>
      (Ok (mkProtectedPayload "codec" "key" "1" (PyStr (Z.to_N <$> payload))), w)
  | Unprotect _ p | UnprotectFor _ _ p => (Ok (Z.of_N <$> code_points (pp_ciphertext p)), w)
  | ValidateJson model _ => (Ok (mkPyModel model (model_dump_json snapshot_model)), w)
  | DiscoverDue t cutoff _ _ => (Ok (mkActionWorkPage t cutoff [] None), w)
  | ClaimLease _ _ _ => (Ok None, w)
  | CompleteLease _ _ _ _ => (Ok false, w)
  | Stripe _ => (fail (OtherException "StripeBoundaryError"), w)
  | Custody _ | Agent _ => (fail (OtherException "RuntimeError"), w)
  end.

Definition self : ActionRuntime := mkActionRuntime true "threvo-actions/1.0.0".

(** The approval a customer of this deployment collects for its proposal. *)
Definition approval (w : deployment) (reference : pystr) : AuthorityEvidence :=
  let digest :=
    match get "tenant" reference (dp_store w) with
    | Some p => match sp_commitment p with Some k => kc_digest k | None => PyStr [] end
    | None => PyStr []
    end in
  mkAuthorityEvidence "tenant" sample_action reference "refund:7" approver ["audience"%py] APPROVE
    digest "session" 0 (minutes 5) None.

Definition prepare_call : prog ActionOperationResult :=
  prepare self (sample_definition false) "tenant" (mkPyModel "Command" []) customer None
    (Some "order:7"%py).

Definition final {A} (x : history * res A * deployment) : deployment := x.2.

(** After a preparation, and after its approval. *)
Definition prepared_world : deployment := final (run (handle usual) prepare_call start).
Definition authorize_call (d : ActionDefinition) : prog ActionOperationResult :=
  record_authority self d (approval prepared_world "order:7") approver None.
Definition authorized_world : deployment :=
  final (run (handle usual) (authorize_call (sample_definition false)) prepared_world).

Definition execute_call : prog ActionOperationResult :=
  execute self (sample_definition false) "tenant" "order:7".
Definition reconcile_call : prog ActionOperationResult :=
  reconcile self (sample_definition false) "tenant" "order:7".

Definition outcome (x : history * res ActionOperationResult * deployment)
  : option (LifecycleStatus * OperationOutcome) :=
  match x.1.2 with
  | Ok r => Some (ar_lifecycle_status r, ar_outcome r)
  | Err _ => None
  end.

(** The flow the package exists for: prepare, approve, execute, verify. *)
Example full_flow :
  let prepared := run (handle usual) prepare_call start in
  let authorized := run (handle usual) (authorize_call (sample_definition false)) (final prepared) in
  let executed := run (handle usual) execute_call (final authorized) in
  let verified := run (handle usual) reconcile_call (final executed) in
  outcome prepared = Some (AWAITING_AUTHORITY, OO_PREPARED) ∧
  outcome authorized = Some (AUTHORIZED, OO_AUTHORIZED) ∧
  outcome executed = Some (VERIFICATION_PENDING, OO_VERIFICATION_PENDING) ∧
  outcome verified = Some (VERIFIED, OO_VERIFIED).
Proof. vm_compute. repeat split. Qed.

(** Register the sample definition, and look it up. *)
Lemma register_get_typed_witness : ∃ r,
  register (sample_definition false) empty_registry = Ok r ∧
  get_typed sample_action "Command"%py "Snapshot"%py "Preview"%py "Result"%py r = Ok (sample_definition false).
Proof.
  eexists. split; [reflexivity|].
  rewrite (proj1 (register_get_typed (sample_definition false) empty_registry _ eq_refl)
    sample_action "Command"%py "Snapshot"%py "Preview"%py "Result"%py).
  reflexivity.
Defined.
