(* ===== verification/RecoveryWorker.v ===== *)
(** The recovery worker ([RecoveryWorker] of [recovery.py]): one scan of the due
    work of a tenant, under the leases of a host schedule, through the public
    operations of the configured actions. *)

From S2P Require Import Prelude Models Canonical Authority Receipts Registry StoreBase StoreContract.
From S2P Require Import MemoryStore Recovery Evidence Program Runtime Scenario.

(** * Action groups *)

(** The protocol [RecoveryActionGroup]. *)
Record RecoveryActionGroup := mkRecoveryActionGroup {
  gr_read_recovery : pystr → ReadContext → prog ActionRecoveryView;
  gr_execute : pystr → pystr → prog ActionOperationResult;
  gr_reconcile : pystr → pystr → prog ActionOperationResult;
  gr_expire_due : pystr → pystr → prog ActionOperationResult
}.

(** A group that is one action definition of a runtime. *)
Definition runtime_group `{Unicode} (self : ActionRuntime) (d : ActionDefinition)
  : RecoveryActionGroup :=
  mkRecoveryActionGroup (read_recovery d) (execute self d) (reconcile self d) (expire_due self d).

Record RecoveryWorker := mkRecoveryWorker {
  rk_actions : gmap ActionKey RecoveryActionGroup;
  rk_read_context : ReadContext;
  rk_lease_duration : timedelta;
  rk_retry_delay : timedelta
}.

(** * The worker *)

Definition _lease_lost (item : ActionWorkItem) : RecoveryWorkerResult :=
  mkRecoveryWorkerResult (wi_proposal_reference item) LEASE_LOST (wi_operation item)
    (Some "recovery_lease_lost"%py).

(** Acknowledge the lease, and report [disposition] when that succeeds. *)
Definition acknowledge (item : ActionWorkItem) (token : pystr) (next_attempt_at : option datetime)
  (reason : option pystr) (disposition : RecoveryWorkerDisposition) : prog RecoveryWorkerResult :=
  acknowledged ← call (CompleteLease (wi_proposal_reference item) token next_attempt_at reason);
  Ret (if (acknowledged : bool)
       then mkRecoveryWorkerResult (wi_proposal_reference item) disposition (wi_operation item) reason
       else _lease_lost item).

(** The body of the [try] statement: [Some] is an early return. *)
Definition run_operation (worker : RecoveryWorker) (group : RecoveryActionGroup)
  (item : ActionWorkItem) (token : pystr) (now : datetime) : prog (option RecoveryWorkerResult) :=
  let tenant := rd_tenant_reference (rk_read_context worker) in
  let reference := wi_proposal_reference item in
  match wi_operation item with
  | WO_EXECUTE =>
      view ← gr_read_recovery group reference (rk_read_context worker);
      if negb (existsb (λ step, bool_decide (st_operation step = RO_EXECUTE))
                 (rw_recommended_steps view)) then
        result ← acknowledge item token (Some (now + rk_retry_delay worker)%Z)
                   (Some "recovery_execution_deferred"%py) DEFERRED;
        Ret (Some result)
      else
        _ ← gr_execute group tenant reference; Ret None
  | WO_EXPIRE => _ ← gr_expire_due group tenant reference; Ret None
  | WO_RECONCILE | WO_ATTENTION => _ ← gr_reconcile group tenant reference; Ret None
  end.

Definition is_AuthorizationDenied (e : exn) : bool :=
  match exn_class e with AuthorizationDeniedError _ => true | _ => false end.

Definition _run (worker : RecoveryWorker) (item : ActionWorkItem) (now : datetime)
  : prog RecoveryWorkerResult :=
  token ← call (ClaimLease item now (now + rk_lease_duration worker)%Z);
  match (token : option pystr) with
  | None =>
      Ret (mkRecoveryWorkerResult (wi_proposal_reference item) ALREADY_LEASED (wi_operation item) None)
  | Some token =>
      let unattended :=
        acknowledge item token None
          (Some (pystr_or (wi_reason_code item) "recovery_action_unconfigured")) ATTENTION in
      match rk_actions worker !! _action_key (wi_action_type item) with
      | None => unattended
      | Some group =>
          if bool_decide (wi_operation item = WO_ATTENTION) then unattended
          else
            outcome ← attempt (run_operation worker group item token now);
            match outcome with
            | Err e =>
                if is_AuthorizationDenied e then
                  acknowledge item token None (Some "recovery_authorization_denied"%py) ATTENTION
                else if is_Exception e then
                  acknowledge item token (Some (now + rk_retry_delay worker)%Z)
                    (Some "recovery_operation_failed"%py) DEFERRED
                else Raise e
            | Ok (Some result) => Ret result
            | Ok None => acknowledge item token None None COMPLETED
            end
      end
  end.

Fixpoint run_items (worker : RecoveryWorker) (items : list ActionWorkItem) (cutoff : datetime)
  : prog (list RecoveryWorkerResult) :=
  match items with
  | [] => Ret []
  | item :: items =>
      result ← _run worker item cutoff;
      results ← run_items worker items cutoff;
      Ret (result :: results)
  end.

(** The loop of [scan]; [None] when [fuel] pages did not reach the last one. *)
Fixpoint scan_from (fuel : nat) (worker : RecoveryWorker) (cutoff : datetime) (page_size : Z)
  (cursor : option ActionWorkCursor) (results : list RecoveryWorkerResult)
  : prog (option (list RecoveryWorkerResult)) :=
  match fuel with
  | O => Ret None
  | S fuel =>
      page ← call (DiscoverDue (rd_tenant_reference (rk_read_context worker)) cutoff page_size cursor);
      ran ← run_items worker (wp_items page) cutoff;
      match wp_next_cursor page with
      | None => Ret (Some (results ++ ran))
      | Some next_cursor =>
          scan_from fuel worker cutoff page_size (Some next_cursor) (results ++ ran)
      end
  end.

Definition scan (fuel : nat) (worker : RecoveryWorker) (cutoff : datetime) (page_size : Z)
  : prog (option (list RecoveryWorkerResult)) :=
  scan_from fuel worker cutoff page_size None [].

(** * What a run reports *)

(** What the worker tells the schedule for each disposition, beyond the result
    itself: whether and when the work comes back, and why. *)
Definition disposition_schedule (worker : RecoveryWorker) (now : datetime)
  (r : RecoveryWorkerResult) : option (option datetime * option pystr) :=
  match wr_disposition r with
  | COMPLETED => Some (None, None)
  | DEFERRED => Some (Some (now + rk_retry_delay worker)%Z, wr_reason_code r)
  | ATTENTION => Some (None, wr_reason_code r)
  | ALREADY_LEASED | LEASE_LOST => None
  end.

(** The last operation acknowledged the lease, and the result says so. *)
Definition acknowledged_run (worker : RecoveryWorker) (item : ActionWorkItem) (token : pystr)
  (now : datetime) (es : history) (r : RecoveryWorkerResult) : Prop :=
  ∃ ops next reason answer,
    es = ops ++ [Event (CompleteLease (wi_proposal_reference item) token next reason) (Ok answer)] ∧
    if (answer : bool) then disposition_schedule worker now r = Some (next, reason)
    else r = _lease_lost item.

(** The operation of the item was performed in full. *)
Definition operation_performed (worker : RecoveryWorker) (group : RecoveryActionGroup)
  (item : ActionWorkItem) (es : history) : Prop :=
  let tenant := rd_tenant_reference (rk_read_context worker) in
  let reference := wi_proposal_reference item in
  match wi_operation item with
  | WO_EXECUTE =>
      ∃ view es1 es2 x, es = es1 ++ es2 ∧
        runs (gr_read_recovery group reference (rk_read_context worker)) es1 (Ret view) ∧
        (∃ step, step ∈ rw_recommended_steps view ∧ st_operation step = RO_EXECUTE) ∧
        runs (gr_execute group tenant reference) es2 (Ret x)
  | WO_EXPIRE => ∃ x, runs (gr_expire_due group tenant reference) es (Ret x)
  | WO_RECONCILE => ∃ x, runs (gr_reconcile group tenant reference) es (Ret x)
  | WO_ATTENTION => False
  end.

(** ** Lemmas *)

Lemma acknowledge_runs worker item token now next reason disposition es r :
  runs (acknowledge item token next reason disposition) es (Ret r) →
  disposition_schedule worker now
    (mkRecoveryWorkerResult (wi_proposal_reference item) disposition (wi_operation item) reason)
    = Some (next, reason) →
  acknowledged_run worker item token now es r ∧
  (wr_disposition r = disposition ∨ wr_disposition r = LEASE_LOST).
Proof.
  intros (es1 & es2 & answer & -> & H1 & H2)%runs_bind_inv Hs.
  apply (runs_call_inv (CompleteLease _ _ _ _)) in H1.
  apply runs_ret_inv in H2 as [-> ->]. subst es1. rewrite app_nil_r. split.
  - exists [], next, reason, answer. split; [done|]. by destruct answer.
  - destruct answer; simpl; auto.
Qed.

(** A prefix of operations before the acknowledgement. *)
Lemma acknowledged_run_app worker item token now es es' r :
  acknowledged_run worker item token now es' r →
  acknowledged_run worker item token now (es ++ es') r.
Proof.
  intros (ops & next & reason & answer & -> & H). exists (es ++ ops), next, reason, answer.
  by rewrite <-app_assoc.
Qed.

Lemma run_operation_runs worker group item token now es o :
  wi_operation item ≠ WO_ATTENTION →
  runs (run_operation worker group item token now) es (Ret o) →
  match o with
  | None => operation_performed worker group item es
  | Some r => acknowledged_run worker item token now es r ∧
      (wr_disposition r = DEFERRED ∨ wr_disposition r = LEASE_LOST)
  end.
Proof.
  unfold run_operation, operation_performed. cbv zeta.
  destruct (wi_operation item) eqn:Eo; intros Hn; [| | |done].
  - intros (es1 & es2 & view & -> & H1 & H2)%runs_bind_inv. split_if; to_prop.
    + apply runs_bind_inv in H2 as (es3 & es4 & r & -> & H3 & H4).
      apply runs_ret_inv in H4 as [-> ->]. rewrite app_nil_r.
      apply (acknowledge_runs worker _ _ now) in H3 as [Ha Hd]; [|done].
      split; [by apply acknowledged_run_app|done].
    + apply runs_bind_inv in H2 as (es3 & es4 & x & -> & H3 & H4).
      apply runs_ret_inv in H4 as [-> ->]. rewrite app_nil_r.
      apply existsb_elem in Hif as (step & Hin & Hs). to_prop.
      exists view, es1, es3, x. split_and!; eauto.
  - intros (es1 & es2 & x & -> & H1 & H2)%runs_bind_inv.
    apply runs_ret_inv in H2 as [-> ->]. rewrite app_nil_r. eauto.
  - intros (es1 & es2 & x & -> & H1 & H2)%runs_bind_inv.
    apply runs_ret_inv in H2 as [-> ->]. rewrite app_nil_r. eauto.
Qed.

Lemma acknowledge_last item token next reason disposition es r :
  runs (acknowledge item token next reason disposition) es (Ret r) → ∃ answer, es = [answer].
Proof.
  intros (e1 & e2 & a & -> & Ha & Hb)%runs_bind_inv.
  apply (runs_call_inv (CompleteLease _ _ _ _)) in Ha as ->. apply runs_ret_inv in Hb as [-> _].
  by eexists.
Qed.

Lemma acknowledge_after worker item token now next reason disposition ops es r :
  runs (acknowledge item token next reason disposition) es (Ret r) →
  disposition_schedule worker now
    (mkRecoveryWorkerResult (wi_proposal_reference item) disposition (wi_operation item) reason)
    = Some (next, reason) →
  acknowledged_run worker item token now (ops ++ es) r ∧
  (wr_disposition r = COMPLETED → disposition = COMPLETED).
Proof.
  intros Hr Hs. destruct (acknowledge_runs worker _ _ now _ _ _ _ _ Hr Hs) as [Ha Hd].
  split; [by apply acknowledged_run_app|]. destruct Hd as [->| ->]; done.
Qed.

(** What remains of a run once the action was tried. *)
Lemma attended_runs worker group item token now ops es r outcome :
  wi_operation item ≠ WO_ATTENTION →
  runs (attempt (run_operation worker group item token now)) ops (Ret outcome) →
  runs match outcome with
       | Err e =>
           if is_AuthorizationDenied e then
             acknowledge item token None (Some "recovery_authorization_denied"%py) ATTENTION
           else if is_Exception e then
             acknowledge item token (Some (now + rk_retry_delay worker)%Z)
               (Some "recovery_operation_failed"%py) DEFERRED
           else Raise e
       | Ok (Some result) => Ret result
       | Ok None => acknowledge item token None None COMPLETED
       end es (Ret r) →
  acknowledged_run worker item token now (ops ++ es) r ∧
  (wr_disposition r = COMPLETED →
     ∃ before answer, ops ++ es = before ++ [answer] ∧ operation_performed worker group item before).
Proof.
  intros Hn Hops%runs_attempt_inv Hes. destruct outcome as [[result|]|e].
  - apply runs_ret_inv in Hes as [-> ->]. rewrite app_nil_r.
    apply run_operation_runs in Hops as [Ha Hd]; [|done].
    split; [done|]. intros Hc. rewrite Hc in Hd. by destruct Hd.
  - apply run_operation_runs in Hops; [|done].
    destruct (acknowledge_after worker _ _ now _ _ _ ops _ _ Hes eq_refl) as [Ha _].
    split; [done|]. intros _. apply acknowledge_last in Hes as [answer ->]. eauto.
  - destruct (is_AuthorizationDenied e); [|destruct (is_Exception e);
      [|by apply runs_raise_inv in Hes]];
      destruct (acknowledge_after worker _ _ now _ _ _ ops _ _ Hes eq_refl) as [Ha Hd];
      (split; [done|]; intros Hc; by apply Hd in Hc).
Qed.

(** ** The properties *)

(** A worker that returns from an item claimed its lease first and does
    nothing without one; with a lease, its last operation releases exactly that
    lease, with the schedule the reported disposition stands for, and what it
    reports is acknowledged (or it reports the lease as lost); it reports
    completion only when the operation of the item was performed in full, where
    an execution needs a recovery view that recommends it; and it calls no
    action for items that need attention or whose action is not configured. *)
Theorem worker_run_reports (worker : RecoveryWorker) (item : ActionWorkItem) (now : datetime)
  (es : history) (r : RecoveryWorkerResult) (Hruns : runs (_run worker item now) es (Ret r)) :
  ∃ answer rest,
    es = Event (ClaimLease item now (now + rk_lease_duration worker)%Z) (Ok answer) :: rest ∧
    match answer with
    | None => rest = [] ∧ wr_disposition r = ALREADY_LEASED
    | Some token =>
        acknowledged_run worker item token now rest r ∧
        (wr_disposition r = COMPLETED → ∃ group ops answer,
           rk_actions worker !! _action_key (wi_action_type item) = Some group ∧
           rest = ops ++ [answer] ∧ operation_performed worker group item ops) ∧
        (wi_operation item = WO_ATTENTION ∨
           rk_actions worker !! _action_key (wi_action_type item) = None → length rest = 1)
    end.
Proof.
  unfold _run in Hruns. apply runs_bind_inv in Hruns as (es1 & rest & answer & -> & H1 & H2).
  apply (runs_call_inv (ClaimLease _ _ _)) in H1 as ->. exists answer, rest. split; [done|].
  destruct answer as [token|]; [|by apply runs_ret_inv in H2 as [-> ->]]. cbv zeta in H2.
  assert (Hunattended : ∀ reason, runs (acknowledge item token None (Some reason) ATTENTION) rest (Ret r) →
    acknowledged_run worker item token now rest r ∧ wr_disposition r ≠ COMPLETED ∧ length rest = 1).
  { intros reason Hr. destruct (acknowledge_after worker _ _ now _ _ _ [] _ _ Hr eq_refl) as [Ha Hd].
    apply acknowledge_last in Hr as [answer ->]. split_and!; [done|by intros Hc%Hd|done]. }
  destruct (rk_actions worker !! _action_key (wi_action_type item)) as [group|] eqn:Eg.
  2:{ destruct (Hunattended _ H2) as (Ha & Hd & Hlen). by split_and!. }
  split_if; to_prop.
  { destruct (Hunattended _ H2) as (Ha & Hd & Hlen). by split_and!. }
  apply runs_bind_inv in H2 as (ops & es2 & outcome & -> & H3 & H4).
  destruct (attended_runs worker group item token now ops es2 r outcome Hif H3 H4) as [Ha Hc].
  split_and!; [done| |by intros [|]]. intros Hd. destruct (Hc Hd) as (before & last & ? & ?). eauto 10.
Qed.

(** ** Scans *)

(** Every result is of its item. *)
Definition results_of (rs : list RecoveryWorkerResult) : list (pystr * ActionWorkOperation) :=
  (λ r, (wr_proposal_reference r, wr_operation r)) <$> rs.
Definition items_of (items : list ActionWorkItem) : list (pystr * ActionWorkOperation) :=
  (λ i, (wi_proposal_reference i, wi_operation i)) <$> items.

(** The pages [pages] were discovered one after the other, each at the cursor
    the one before gave, starting at [cursor]. *)
Fixpoint discovered (worker : RecoveryWorker) (cutoff : datetime) (page_size : Z)
  (cursor : option ActionWorkCursor) (pages : list ActionWorkPage) (es : history) : Prop :=
  match pages with
  | [] => False
  | page :: rest =>
      Event (DiscoverDue (rd_tenant_reference (rk_read_context worker)) cutoff page_size cursor)
        (Ok page) ∈ es ∧
      match wp_next_cursor page with
      | None => rest = []
      | Some c => discovered worker cutoff page_size (Some c) rest es
      end
  end.

Lemma discovered_mono worker cutoff n cursor pages es es' :
  (∀ e, e ∈ es → e ∈ es') → discovered worker cutoff n cursor pages es →
  discovered worker cutoff n cursor pages es'.
Proof.
  intros Hsub. revert cursor. induction pages as [|page pages IH]; intros cursor; [done|].
  simpl. intros [Hin Hrest]. split; [auto|]. destruct (wp_next_cursor page); auto.
Qed.

Lemma acknowledge_result item token next reason disposition es r :
  runs (acknowledge item token next reason disposition) es (Ret r) →
  wr_proposal_reference r = wi_proposal_reference item ∧ wr_operation r = wi_operation item.
Proof.
  intros (e1 & e2 & answer & -> & H1 & H2)%runs_bind_inv. apply runs_ret_inv in H2 as [_ ->].
  by destruct answer.
Qed.

Lemma run_result worker item now es r :
  runs (_run worker item now) es (Ret r) →
  wr_proposal_reference r = wi_proposal_reference item ∧ wr_operation r = wi_operation item.
Proof.
  unfold _run. intros (es1 & es2 & answer & -> & H1 & H2)%runs_bind_inv.
  destruct answer as [token|]; [|by apply runs_ret_inv in H2 as [_ ->]]. cbv zeta in H2.
  destruct (rk_actions worker !! _) as [group|]; [|by apply acknowledge_result in H2].
  split_if; to_prop; [by apply acknowledge_result in H2|].
  apply runs_bind_inv in H2 as (e1 & e2 & outcome & -> & H3%runs_attempt_inv & H4).
  destruct outcome as [[result|]|e].
  - apply runs_ret_inv in H4 as [-> ->]. revert H3. unfold run_operation. cbv zeta.
    destruct (wi_operation item) eqn:Eo; [| |..];
      intros (e3 & e4 & view & -> & Ha & Hb)%runs_bind_inv; [split_if|..];
      try by (apply runs_ret_inv in Hb as [_ ?]).
    + apply runs_bind_inv in Hb as (e5 & e6 & x & -> & Hx & Hy).
      apply runs_ret_inv in Hy as [_ [= ->]]. rewrite <-Eo. by apply acknowledge_result in Hx.
    + apply runs_bind_inv in Hb as (e5 & e6 & x & -> & Hx & Hy). by apply runs_ret_inv in Hy as [_ ?].
  - by apply acknowledge_result in H4.
  - destruct (is_AuthorizationDenied e); [|destruct (is_Exception e)];
      [by apply acknowledge_result in H4..|by apply runs_raise_inv in H4].
Qed.

Lemma run_items_results worker items cutoff es rs :
  runs (run_items worker items cutoff) es (Ret rs) → results_of rs = items_of items.
Proof.
  revert es rs. induction items as [|item items IH]; intros es rs; cbn [run_items].
  - by intros [_ ->]%runs_ret_inv.
  - intros (e1 & e2 & r & -> & H1 & H2)%runs_bind_inv.
    apply runs_bind_inv in H2 as (e3 & e4 & rs' & -> & H3 & H4).
    apply runs_ret_inv in H4 as [_ ->]. apply run_result in H1 as [Hr Ho].
    specialize (IH _ _ H3). unfold results_of, items_of in *. rewrite !fmap_cons. congruence.
Qed.

Lemma scan_from_results fuel worker cutoff n cursor acc es rs :
  runs (scan_from fuel worker cutoff n cursor acc) es (Ret (Some rs)) →
  ∃ pages, discovered worker cutoff n cursor pages es ∧
    results_of rs = results_of acc ++ items_of (mjoin (wp_items <$> pages)).
Proof.
  revert cursor acc es. induction fuel as [|fuel IH]; intros cursor acc es; cbn [scan_from].
  { by intros [_ ?]%runs_ret_inv. }
  intros (e1 & e2 & page & -> & H1 & H2)%runs_bind_inv.
  apply (runs_call_inv (DiscoverDue _ _ _ _)) in H1 as ->.
  apply runs_bind_inv in H2 as (e3 & e4 & ran & -> & H3%run_items_results & H4).
  assert (Hacc : results_of (acc ++ ran) = results_of acc ++ items_of (wp_items page))
    by (unfold results_of at 1; rewrite fmap_app; by f_equal).
  destruct (wp_next_cursor page) as [c|] eqn:Ec.
  - apply IH in H4 as (pages & Hd & Hrs). exists (page :: pages). simpl. rewrite Ec. split.
    + split; [apply elem_of_cons; by left|]. eapply discovered_mono; [|exact Hd].
      intros e He. apply elem_of_cons. right. apply elem_of_app. by right.
    + rewrite Hrs, Hacc, <-app_assoc. unfold items_of. by rewrite fmap_app.
  - apply runs_ret_inv in H4 as [_ [= ->]]. exists [page]. simpl. rewrite Ec. split.
    + split; [|done]. apply elem_of_cons. by left.
    + by rewrite app_nil_r, Hacc.
Qed.

(** A scan covers the due work it discovers: when it returns, it followed the
    cursors from the first page to the last, and reports one result for every
    item of every page, in order. *)
Theorem scan_covers_pages (fuel : nat) (worker : RecoveryWorker) (cutoff : datetime)
  (page_size : Z) (es : history) (rs : list RecoveryWorkerResult)
  (Hruns : runs (scan fuel worker cutoff page_size) es (Ret (Some rs))) :
  ∃ pages, discovered worker cutoff page_size None pages es ∧
    results_of rs = items_of (mjoin (wp_items <$> pages)).
Proof. exact (scan_from_results fuel worker cutoff page_size None [] es rs Hruns). Qed.

(** ** Termination *)

Section Termination.
Context {S : Type} (handle : ∀ o, S → res (resp o) * S).
Variables (worker : RecoveryWorker) (cutoff : datetime) (page_size : Z).
(** The position of a cursor in the due work of the pinned cutoff: the protocol
    promises a stable keyset, so every cursor lies beyond the one before. *)
Variable remaining : option ActionWorkCursor → nat.
Hypothesis cursors_advance : ∀ s cursor page next_cursor,
  (handle (DiscoverDue (rd_tenant_reference (rk_read_context worker)) cutoff page_size cursor) s).1
    = Ok page →
  wp_next_cursor page = Some next_cursor → remaining (Some next_cursor) < remaining cursor.

Lemma scan_from_terminates fuel cursor acc s :
  remaining cursor < fuel →
  (run handle (scan_from fuel worker cutoff page_size cursor acc) s).1.2 ≠ Ok None.
Proof.
  revert cursor acc s. induction fuel as [|fuel IH]; intros cursor acc s Hf; [lia|].
  cbn [scan_from]. rewrite run_bind. simpl.
  assert (Hadv := cursors_advance s cursor).
  destruct (handle _ s) as [[page|e] s1]; [|done]. simpl in *. rewrite run_bind.
  destruct (run handle (run_items worker (wp_items page) cutoff) s1) as [[es [ran|e]] s2]; [|done].
  simpl. destruct (wp_next_cursor page) as [c|] eqn:Ec; [|done].
  specialize (Hadv page c eq_refl Ec). specialize (IH (Some c) (acc ++ ran) s2 ltac:(lia)).
  destruct (run handle (scan_from fuel worker cutoff page_size (Some c) (acc ++ ran)) s2)
    as [[es' r'] s3]. exact IH.
Qed.

(** A scan terminates: against any source whose cursors advance within
    finitely many positions, it returns its results or raises within as many
    pages as there are positions; the bound on the pages is never what stops
    it. *)
Theorem scan_terminates (fuel : nat) (s : S) (Hfuel : remaining None < fuel) :
  (∃ rs, (run handle (scan fuel worker cutoff page_size) s).1.2 = Ok (Some rs)) ∨
  ∃ e, (run handle (scan fuel worker cutoff page_size) s).1.2 = Err e.
Proof.
  assert (H := scan_from_terminates fuel None [] s Hfuel). unfold scan.
  destruct (run handle _ s).1.2 as [[rs|]|e]; [by left; eauto|done|by right; eauto].
Qed.

End Termination.

(** * The scenario *)

Section Witness.

Definition due_item (operation : ActionWorkOperation) : ActionWorkItem :=
  mkActionWorkItem sample_action "order:7" operation 0 None.
Definition second_page : ActionWorkCursor := mkActionWorkCursor 0 "order:7".

(** Two pages of due work, and a schedule that grants every lease. *)
Definition worker_handle (o : op) (w : deployment) : res (resp o) * deployment :=
  match o return res (resp o) * deployment with
  | DiscoverDue t cutoff _ None =>
      (Ok (mkActionWorkPage t cutoff [due_item WO_RECONCILE; due_item WO_EXECUTE] (Some second_page)), w)
  | DiscoverDue t cutoff _ (Some _) => (Ok (mkActionWorkPage t cutoff [due_item WO_ATTENTION] None), w)
  | ClaimLease _ _ _ => (Ok (Some "token"%py), w)
  | CompleteLease _ _ _ _ => (Ok true, w)
  | o => handle usual o w
  end.

Definition sample_worker : RecoveryWorker :=
  mkRecoveryWorker {[_action_key sample_action := runtime_group self (sample_definition false)]}
    (mkReadContext "tenant" (mkEvidenceConsumer "worker")) (minutes 1) (seconds 30).

Definition executed_world : deployment := final (run (handle usual) execute_call authorized_world).

(** The pending effect is verified; the execution that is no longer recommended
    is deferred; the item for an operator is left to the operator. *)
Definition sample_scan := run worker_handle (scan 3 sample_worker 0 100) executed_world.

Example sample_scan_results :
  (λ r, match r with Ok (Some rs) => wr_disposition <$> rs | _ => [] end) sample_scan.1.2
    = [COMPLETED; DEFERRED; ATTENTION] ∧
  sp_lifecycle_status <$> get "tenant" "order:7" (dp_store (final sample_scan)) = Some VERIFIED.
Proof. vm_compute. done. Qed.

Lemma scan_covers_pages_witness : ∃ pages rs,
  discovered sample_worker 0 100 None pages sample_scan.1.1 ∧
  results_of rs = items_of (mjoin (wp_items <$> pages)).
Proof.
  assert (∃ rs, sample_scan.1.2 = Ok (Some rs)) as [rs Hrs] by (vm_compute; eexists; reflexivity).
  destruct (scan_covers_pages 3 sample_worker 0 100 sample_scan.1.1 rs) as (pages & Hp & Hr).
  - change (Ret (Some rs)) with (lift (Ok (Some rs))). rewrite <-Hrs.
    exact (run_runs worker_handle (scan 3 sample_worker 0 100) executed_world).
  - exists pages, rs. split; [exact Hp|exact Hr].
Defined.

Lemma scan_terminates_witness :
  (∃ rs, (run worker_handle (scan 2 sample_worker 0 100) executed_world).1.2 = Ok (Some rs)) ∨
  ∃ e, (run worker_handle (scan 2 sample_worker 0 100) executed_world).1.2 = Err e.
Proof.
  apply (scan_terminates worker_handle sample_worker 0 100
    (λ cursor, match cursor with None => 1 | Some _ => 0 end)).
  - intros s [c|] page next; simpl; [by intros <-%Ok_inj|]. intros <-%Ok_inj _. lia.
  - lia.
Defined.

Definition sample_run := run worker_handle (_run sample_worker (due_item WO_RECONCILE) 0) executed_world.

Lemma worker_run_reports_witness : ∃ r group ops answer,
  sample_run.1.2 = Ok r ∧ rk_actions sample_worker !! _action_key sample_action = Some group ∧
  tail sample_run.1.1 = ops ++ [answer] ∧
  operation_performed sample_worker group (due_item WO_RECONCILE) ops.
Proof.
  assert (∃ r, sample_run.1.2 = Ok r ∧ wr_disposition r = COMPLETED) as (r & Hr & Hd)
    by (vm_compute; eexists; split; reflexivity).
  assert (Hh : ∃ t, head sample_run.1.1 = Some (Event (ClaimLease (due_item WO_RECONCILE) 0 (minutes 1))
    (Ok (Some t)))) by (vm_compute; eexists; reflexivity).
  destruct (worker_run_reports sample_worker (due_item WO_RECONCILE) 0 sample_run.1.1 r)
    as (answer & rest & He & Hrest).
  - change (Ret r) with (lift (Ok r)). rewrite <-Hr.
    exact (run_runs worker_handle (_run sample_worker (due_item WO_RECONCILE) 0) executed_world).
  - destruct answer as [token|].
    + destruct Hrest as (_ & Hc & _). destruct (Hc Hd) as (group & ops & last & Hg & Hl & Hp).
      exists r, group, ops, last. rewrite He. split; [exact Hr|]. split; [exact Hg|]. split; [exact Hl|exact Hp].
    + exfalso. destruct Hrest as [_ Hx]. rewrite Hd in Hx. discriminate.
Defined.

End Witness.
