(* ===== verification/Lifecycle.v ===== *)
(** The lifecycle of one proposal as an abstract machine, and the invariant
    its records keep.

    [lifecycle_step] is the specification the runtime is verified against:
    every write [runtime.py] asks the store for is one of its steps
    ([RuntimeGuarantee]).  [live_record] is what a record that was only written
    by such steps satisfies. *)

From S2P Require Import Prelude Models Canonical Authority Receipts Registry StoreBase StoreContract.
From S2P Require Import Recovery Evidence Program Runtime.

(** * Receipts of the runtime *)

Abbreviation receipt_references c := (rb_receipt_reference ∘ receipt_base <$> sp_receipts c).

(** The shared fields of a receipt the runtime writes on the record [c]. *)
Record runtime_base (c : StoredProposal) (b : ReceiptBase) : Prop := {
  base_correlation : rb_correlation_reference b = sp_proposal_reference c;
  base_causation : rb_causation_reference b = sp_proposal_reference c ∨
    rb_causation_reference b ∈ receipt_references c;
  base_version : rb_schema_version b = "internal/v0"%py;
  base_revision : is_Some (rb_runtime_revision b);
  base_corrects : rb_corrects_receipt_reference b = None;
  base_supersedes : rb_supersedes_receipt_reference b = None
}.

(** * The machine *)

Definition decision_target (e : AuthorityEvidence) (target : LifecycleStatus) : Prop :=
  match ae_decision e with
  | REJECT => target = DENIED
  | APPROVE => target ∈ [AUTHORIZED; AWAITING_AUTHORITY]
  end.

(** One write on a record that is neither erased nor being erased. *)
Inductive lifecycle_step (d : ActionDefinition) (c : StoredProposal) : StoredProposal → Prop :=
  | step_expire :
      sp_lifecycle_status c ∈ [AWAITING_AUTHORITY; AUTHORIZED] →
      lifecycle_step d c (expired_record c)
  | step_decide e commitment target b s :
      sp_lifecycle_status c = AWAITING_AUTHORITY → sp_commitment c = Some commitment →
      evidence_bound e (authority_binding d c commitment) → e ∉ sp_authority_evidence c →
      decision_target e target → runtime_base c b →
      lifecycle_step d c
        (next_revision c $ set_lifecycle_status target $
         set_receipts (sp_receipts c ++ [AuthorityReceipt b s (ae_authority e)]) $
         set_authority_evidence (sp_authority_evidence c ++ [e]) c)
  | step_block b a :
      sp_lifecycle_status c = AUTHORIZED → runtime_base c b →
      lifecycle_step d c
        (next_revision c $ set_receipts (sp_receipts c ++ [AuthorityReceipt b AR_FAILED a]) $
         set_lifecycle_status BLOCKED c)
  | step_stale b g :
      sp_lifecycle_status c = AUTHORIZED → runtime_base c b →
      lifecycle_step d c
        (next_revision c $ set_receipts (sp_receipts c ++ [ExecutionReceipt b ER_FAILED_KNOWN g []]) $
         set_lifecycle_status STALE c)
  | step_supersede fresh :
      sp_lifecycle_status c = STALE →
      lifecycle_step d c
        (next_revision c $ set_superseded_by (Some fresh) $ set_lifecycle_status SUPERSEDED c)
  | step_execute resolved at_ b g :
      sp_lifecycle_status c = AUTHORIZED → runtime_base c b →
      lifecycle_step d c (executing_record d c resolved at_ (ExecutionReceipt b ER_STARTED g []))
  | step_settle_execution s now result b g items :
      sp_lifecycle_status c = EXECUTING → runtime_base c b →
      lifecycle_step d c
        (next_revision c $ set_next_verification_at (execution_target d s now).2 $
         set_safe_result result $
         set_receipts (sp_receipts c ++ [ExecutionReceipt b (execution_receipt_status s) g items]) $
         set_lifecycle_status (execution_target d s now).1.1 c)
  | step_pending :
      sp_lifecycle_status c ∈ [EXECUTING; FAILED_UNKNOWN] →
      lifecycle_step d c (next_revision c $ set_lifecycle_status VERIFICATION_PENDING c)
  | step_unresolved :
      sp_lifecycle_status c = VERIFICATION_PENDING →
      (sp_max_verification_attempts c <= sp_verification_attempts c)%Z →
      lifecycle_step d c
        (next_revision c $ set_next_verification_at None $
         set_lifecycle_status VERIFICATION_UNRESOLVED c)
  | step_observe lease :
      sp_lifecycle_status c = VERIFICATION_PENDING →
      (sp_verification_attempts c < sp_max_verification_attempts c)%Z →
      lifecycle_step d c
        (next_revision c $ set_verification_attempts (sp_verification_attempts c + 1)%Z $
         set_next_verification_at (Some lease) c)
  | step_settle_verification v now b g :
      sp_lifecycle_status c = VERIFICATION_PENDING → runtime_base c b →
      lifecycle_step d c
        (verified_record d c v now
           (VerificationReceipt b (verification_receipt_status (vr_status v)) g (vr_item_outcomes v)))
  | step_resume now b o :
      sp_lifecycle_status c ∈ [VERIFICATION_PENDING; VERIFICATION_UNRESOLVED] → runtime_base c b →
      lifecycle_step d c (resumed_record c now (RecoveryReceipt b RR_VERIFICATION_RESUMED o)).

(** A record a preparation may create. *)
Record initial_record (d : ActionDefinition) (p : StoredProposal) : Prop := {
  init_create : create_ok p;
  init_evidence : sp_authority_evidence p = [];
  init_receipts : ∃ b pr pa, sp_receipts p = [ProposalReceipt b PR_PREPARED pr pa] ∧
    runtime_base p b;
  init_principal : is_Some (sp_requesting_principal p);
  init_private : is_Some (sp_protected_private_snapshot p) ∧ is_Some (sp_commitment p);
  init_attempts : sp_verification_attempts p = 0%Z ∧
    sp_max_verification_attempts p = ad_max_verification_attempts d;
  init_expiry : sp_expires_at p = (sp_created_at p + ad_proposal_ttl d)%Z;
  init_action : sp_action_type p = ad_action_type d;
  init_rest : sp_execution_precondition p = None ∧ sp_superseded_by p = None ∧
    sp_safe_result p = None
}.

(** What [ActionDefinition.__post_init__] makes sure of. *)
Record definition_ok (d : ActionDefinition) : Prop := {
  def_ttl : (0 < ad_proposal_ttl d)%Z;
  def_delay : (0 <= ad_verification_delay d)%Z;
  def_attempts : (0 < ad_max_verification_attempts d)%Z;
  def_lease : (0 < ad_verification_lease_duration d)%Z
}.

(** * The invariant of a record *)

(** The statuses only an approval leads to. *)
Definition post_authority (s : LifecycleStatus) : bool :=
  negb (bool_decide (s ∈ [AWAITING_AUTHORITY; DENIED; EXPIRED])).

Record live_record (p : StoredProposal) : Prop := {
  live_prepared : ∃ b pr pa rest, sp_receipts p = ProposalReceipt b PR_PREPARED pr pa :: rest;
  live_receipts : ∀ r, r ∈ sp_receipts p → runtime_base p (receipt_base r);
  live_principal : is_Some (sp_requesting_principal p);
  live_private : is_Some (sp_protected_private_snapshot p) ∧ is_Some (sp_commitment p);
  live_evidence : ∀ e, e ∈ sp_authority_evidence p → evidence_matches_proposal e p = true;
  live_evidence_distinct : NoDup (sp_authority_evidence p);
  live_approved : post_authority (sp_lifecycle_status p) = true →
    ∃ e, e ∈ sp_authority_evidence p ∧ ae_decision e = APPROVE;
  live_denied : sp_lifecycle_status p = DENIED →
    ∃ e, e ∈ sp_authority_evidence p ∧ ae_decision e = REJECT;
  live_undenied : sp_lifecycle_status p ≠ DENIED →
    ∀ e, e ∈ sp_authority_evidence p → ae_decision e = APPROVE;
  live_verified : sp_lifecycle_status p ∈ [VERIFIED; PARTIALLY_SUCCEEDED] →
    ∃ r, r ∈ sp_receipts p ∧ verification_status r = Some VR_VERIFIED_COMPLETION;
  live_failed : sp_lifecycle_status p = FAILED_KNOWN →
    ∃ r, r ∈ sp_receipts p ∧ (execution_status r = Some ER_FAILED_KNOWN ∨
      verification_status r ∈ [Some VR_VERIFIED_TERMINAL_FAILURE;
                               Some VR_AUTHORITATIVE_FINAL_ABSENCE]);
  live_started : effect_live (sp_lifecycle_status p) = true ∨ sp_lifecycle_status p = FAILED_KNOWN →
    ∃ r, r ∈ sp_receipts p ∧ execution_status r = Some ER_STARTED;
  live_attempts : (0 <= sp_verification_attempts p <= sp_max_verification_attempts p)%Z ∧
    (1 <= sp_max_verification_attempts p)%Z;
  live_lease : sp_lifecycle_status p = EXECUTING →
    is_Some (sp_next_verification_at p) ∧ is_Some (sp_execution_precondition p);
  live_superseded : is_Some (sp_superseded_by p) ↔ sp_lifecycle_status p = SUPERSEDED;
  live_expiry : (sp_created_at p < sp_expires_at p)%Z
}.

(** A stored record is live, or a content-free tombstone. *)
Definition well_formed (p : StoredProposal) : Prop :=
  match sp_erased_at p with
  | None => live_record p
  | Some _ => holds_content p = false
  end.

(** * What every step keeps *)

Definition fixed_part (p : StoredProposal) :=
  (proposal_identity p, sp_protected_private_snapshot p, sp_commitment p, sp_display_preview p,
   sp_requesting_principal p, sp_proposing_agent p, sp_expires_at p, sp_max_verification_attempts p,
   sp_erasure_pending_at p, sp_erased_at p).

(** [u] is [c] with the receipts [rs] and the evidence [es] added, one
    revision later. *)
Record extends (c u : StoredProposal) (rs : list Receipt) (es : list AuthorityEvidence) : Prop := {
  ext_fixed : fixed_part u = fixed_part c;
  ext_revision : sp_revision u = (sp_revision c + 1)%Z;
  ext_receipts : sp_receipts u = sp_receipts c ++ rs;
  ext_evidence : sp_authority_evidence u = sp_authority_evidence c ++ es;
  ext_base : ∀ r, r ∈ rs → runtime_base c (receipt_base r);
  ext_status : sp_lifecycle_status u = sp_lifecycle_status c ∨
    sp_lifecycle_status u ∈ ALLOWED_LIFECYCLE_TRANSITIONS (sp_lifecycle_status c)
}.

(** The evidence a step adds: none, or one matching decision. *)
Definition added_evidence (d : ActionDefinition) (c u : StoredProposal) (es : list AuthorityEvidence)
  : Prop :=
  es = [] ∨
  (∃ e commitment, es = [e] ∧ sp_lifecycle_status c = AWAITING_AUTHORITY ∧
    sp_commitment c = Some commitment ∧ evidence_bound e (authority_binding d c commitment) ∧
    e ∉ sp_authority_evidence c ∧ decision_target e (sp_lifecycle_status u)).

Lemma execution_target_allowed d s now :
  (execution_target d s now).1.1 ∈ ALLOWED_LIFECYCLE_TRANSITIONS EXECUTING.
Proof. apply list_elem_of_In. destruct s; simpl; tauto. Qed.

Lemma verification_transition_allowed d c v n :
  let t := (_verification_transition d c v n).1.1 in
  t = VERIFICATION_PENDING ∨ t ∈ ALLOWED_LIFECYCLE_TRANSITIONS VERIFICATION_PENDING.
Proof.
  unfold _verification_transition. rewrite list_elem_of_In. simpl.
  destruct (vr_status v); simpl; repeat case_match; simpl; tauto.
Qed.

(** [verified_record] without the match on the transition. *)
Lemma verified_record_eq d c v now r :
  let t := _verification_transition d c v (sp_verification_attempts c) in
  verified_record d c v now r =
  (next_revision c $
   set_next_verification_at (if bool_decide (t.1.1 = VERIFICATION_PENDING)
     then Some (now + ad_verification_delay d)%Z else None) $
   set_verification_attempts (if bool_decide (t.1.2 = OO_RESEND_ALLOWED) then 0%Z
     else sp_verification_attempts c) $
   set_safe_result (match vr_result v with
     | Some result => Some (model_dump_json result) | None => sp_safe_result c end) $
   set_receipts (sp_receipts c ++ [r]) $ set_lifecycle_status t.1.1 c).
Proof. unfold verified_record. by destruct (_verification_transition _ _ _ _) as [[? ?] ?]. Qed.

(** Close the side conditions of [extends]. *)
Ltac status_allowed :=
  match goal with
  | H : sp_lifecycle_status ?c = _ |- _ = sp_lifecycle_status ?c ∨ _ => rewrite H
  | H : sp_lifecycle_status ?c ∈ _ |- _ = sp_lifecycle_status ?c ∨ _ =>
      elem_cases H; match goal with H : _ = sp_lifecycle_status c |- _ => rewrite <-H end
  end; rewrite list_elem_of_In; simpl; tauto.

Ltac build_extends rs es :=
  exists rs, es; split;
  [constructor; simpl; rewrite ?app_nil_r; try done;
   [..|try status_allowed]; try (by intros ? ?%elem_of_nil);
   try (by intros ? ->%list_elem_of_singleton)|].

Lemma step_extends d c u :
  lifecycle_step d c u → ∃ rs es, extends c u rs es ∧ added_evidence d c u es.
Proof.
  intros H.
  destruct H as [|e commitment target b s Hs Hc He Hn Ht Hb| | | | |s now result b g items Hs Hb| | | |
    v now b g Hs Hb|]; try rewrite verified_record_eq.
  - build_extends (@nil Receipt) (@nil AuthorityEvidence). by left.
  - build_extends [AuthorityReceipt b s (ae_authority e)] [e].
    + rewrite Hs. unfold decision_target in Ht. destruct (ae_decision e); [elem_cases Ht|subst];
        rewrite list_elem_of_In; simpl; tauto.
    + right. eauto 10.
  - build_extends [AuthorityReceipt b AR_FAILED a] (@nil AuthorityEvidence). by left.
  - build_extends [ExecutionReceipt b ER_FAILED_KNOWN g []] (@nil AuthorityEvidence). by left.
  - build_extends (@nil Receipt) (@nil AuthorityEvidence). by left.
  - build_extends [ExecutionReceipt b ER_STARTED g []] (@nil AuthorityEvidence). by left.
  - build_extends [ExecutionReceipt b (execution_receipt_status s) g items] (@nil AuthorityEvidence);
      [|by left]. rewrite Hs. right. apply execution_target_allowed.
  - build_extends (@nil Receipt) (@nil AuthorityEvidence). by left.
  - build_extends (@nil Receipt) (@nil AuthorityEvidence). by left.
  - build_extends (@nil Receipt) (@nil AuthorityEvidence). by left.
  - build_extends [VerificationReceipt b (verification_receipt_status (vr_status v)) g
      (vr_item_outcomes v)] (@nil AuthorityEvidence); [|by left].
    rewrite Hs. apply verification_transition_allowed.
  - build_extends [RecoveryReceipt b RR_VERIFICATION_RESUMED o] (@nil AuthorityEvidence). by left.
Qed.

Lemma base_extends c u rs es b : extends c u rs es → runtime_base c b → runtime_base u b.
Proof.
  intros [Hf _ Hr _ _ _] [Hc Hca Hv Hrv Hco Hsu].
  assert (sp_proposal_reference u = sp_proposal_reference c) as Href
    by (unfold fixed_part, proposal_identity in Hf; congruence).
  constructor; rewrite ?Href; try done. rewrite Hr, fmap_app, elem_of_app. tauto.
Qed.

Lemma matches_bound d c e commitment :
  sp_commitment c = Some commitment → evidence_bound e (authority_binding d c commitment) →
  evidence_matches_proposal e c = true.
Proof.
  intros Hc [Ht Ha Hp He Hco _ _]. unfold evidence_matches_proposal. rewrite Hc. simpl in *.
  by rewrite !bool_decide_eq_true_2.
Qed.

Lemma matches_extends c u rs es e :
  extends c u rs es → evidence_matches_proposal e c = true → evidence_matches_proposal e u = true.
Proof.
  intros [Hf _ _ _ _ _]. unfold fixed_part, proposal_identity in Hf.
  unfold evidence_matches_proposal.
  by replace (sp_commitment u) with (sp_commitment c) by congruence;
    replace (sp_tenant_reference u) with (sp_tenant_reference c) by congruence;
    replace (sp_action_type u) with (sp_action_type c) by congruence;
    replace (sp_proposal_reference u) with (sp_proposal_reference c) by congruence;
    replace (sp_semantic_effect_reference u) with (sp_semantic_effect_reference c) by congruence.
Qed.

(** Case analysis on a step, with the statuses of both records computed. *)
Ltac step_cases H :=
  destruct H as [Hs|e commitment target b s Hs Hc He Hn Ht Hb|b a Hs Hb|b g Hs Hb|fresh Hs
    |resolved at_ b g Hs Hb|s now result b g items Hs Hb|Hs|Hs Hmax|lease Hs Hmax
    |v now b g Hs Hb|now b o Hs Hb];
  try rewrite verified_record_eq in *; simpl in *;
  try (elem_cases Hs; match goal with H : _ = sp_lifecycle_status _ |- _ => symmetry in H; rename H into Hs end).

Lemma elem_here {A} (x : A) l : x ∈ l ++ [x].
Proof. apply elem_of_app. right. by apply list_elem_of_singleton. Qed.

#[local] Hint Resolve elem_here : actions.

Lemma decision_target_cases e target :
  decision_target e target → target ∈ [DENIED; AUTHORIZED; AWAITING_AUTHORITY].
Proof.
  unfold decision_target. destruct (ae_decision e); intros H; [elem_cases H|subst];
    rewrite list_elem_of_In; simpl; tauto.
Qed.

(** The transitions of a verification, by what was observed. *)
Lemma verification_transition_cases d c v n :
  let t := _verification_transition d c v n in
  match vr_status v with
  | VS_VERIFIED_COMPLETION => t.1.1 ∈ [VERIFICATION_UNRESOLVED; PARTIALLY_SUCCEEDED; VERIFIED]
  | VS_VERIFIED_TERMINAL_FAILURE => t.1.1 = FAILED_KNOWN
  | VS_AUTHORITATIVE_FINAL_ABSENCE =>
      t.1.1 = FAILED_KNOWN ∨ t.1.1 = AUTHORIZED ∧ resend_allowed d v = true
  | VS_PROVISIONAL_ABSENCE | VS_TARGET_UNAVAILABLE =>
      t.1.1 ∈ [VERIFICATION_UNRESOLVED; VERIFICATION_PENDING]
  end ∧ (t.1.2 = OO_RESEND_ALLOWED ↔ t.1.1 = AUTHORIZED).
Proof.
  unfold _verification_transition.
  destruct (vr_status v); simpl; repeat case_match; simpl; (split; [|done]);
    rewrite ?list_elem_of_In; simpl; tauto.
Qed.

(** Dismiss the targets a step cannot have, given [Hu] about the new status. *)
Ltac no_target Hu :=
  repeat match goal with
  | Ht : decision_target _ ?t |- _ => is_var t; pose proof Ht as Ht';
      apply decision_target_cases in Ht'; elem_cases Ht'
  | s : ExecutionStatus |- _ => destruct s; simpl in *
  | Hs : sp_lifecycle_status ?c = _ |- _ =>
      assert_fails (constr_eq Hs Hu);
      match type of Hu with context [sp_lifecycle_status c] => rewrite Hs in Hu end
  end;
  try (exfalso; first [discriminate Hu | done | (elem_cases Hu; fail)]; done).

(** A step to [VERIFIED] or [PARTIALLY_SUCCEEDED] adds the receipt. *)
Lemma step_verified d c u :
  lifecycle_step d c u → sp_lifecycle_status u ∈ [VERIFIED; PARTIALLY_SUCCEEDED] →
  ∃ r, r ∈ sp_receipts u ∧ verification_status r = Some VR_VERIFIED_COMPLETION.
Proof.
  intros H Hu. step_cases H; no_target Hu.
  eexists. split; [apply elem_here|]. simpl.
  destruct (verification_transition_cases d c v (sp_verification_attempts c)) as [Hv _].
  destruct (vr_status v); simpl in *; [done|rewrite Hv in Hu; elem_cases Hu|..].
  - elem_cases Hv; match goal with H : _ = _.1.1 |- _ => rewrite <-H in Hu end; elem_cases Hu.
  - destruct Hv as [Hv|[Hv _]]; rewrite Hv in Hu; elem_cases Hu.
  - elem_cases Hv; match goal with H : _ = _.1.1 |- _ => rewrite <-H in Hu end; elem_cases Hu.
Qed.

(** A step to [FAILED_KNOWN] adds its ground. *)
Lemma step_failed d c u :
  lifecycle_step d c u → sp_lifecycle_status u = FAILED_KNOWN →
  ∃ r, r ∈ sp_receipts u ∧ (execution_status r = Some ER_FAILED_KNOWN ∨
    verification_status r ∈ [Some VR_VERIFIED_TERMINAL_FAILURE; Some VR_AUTHORITATIVE_FINAL_ABSENCE]).
Proof.
  intros H Hu. step_cases H; no_target Hu.
  - eexists. split; [apply elem_here|]. by left.
  - eexists. split; [apply elem_here|]. right. simpl. rewrite list_elem_of_In.
    destruct (verification_transition_cases d c v (sp_verification_attempts c)) as [Hv _].
    destruct (vr_status v); simpl in *; try tauto; rewrite Hu in Hv; elem_cases Hv.
Qed.

(** The effect goes live only by a step that adds the start receipt. *)
Lemma step_started d c u :
  lifecycle_step d c u → effect_live (sp_lifecycle_status u) = true ∨ sp_lifecycle_status u = FAILED_KNOWN →
  effect_live (sp_lifecycle_status c) = true ∨
  ∃ r, r ∈ sp_receipts u ∧ execution_status r = Some ER_STARTED.
Proof.
  intros H Hu. step_cases H; try rewrite Hs; try (by left).
  - by destruct Hu.
  - by destruct Hu.
  - apply decision_target_cases in Ht. elem_cases Ht; by destruct Hu.
  - by destruct Hu.
  - by destruct Hu.
  - by destruct Hu.
  - right. eexists. split; [apply elem_here|done].
Qed.

Lemma step_attempts d c u :
  lifecycle_step d c u → (0 <= sp_verification_attempts c <= sp_max_verification_attempts c)%Z →
  (0 <= sp_verification_attempts u <= sp_max_verification_attempts c)%Z.
Proof. intros H Hatt. step_cases H; repeat case_match; lia. Qed.

Lemma step_lease d c u :
  lifecycle_step d c u → sp_lifecycle_status u = EXECUTING →
  is_Some (sp_next_verification_at u) ∧ is_Some (sp_execution_precondition u).
Proof.
  intros H Hu. step_cases H; no_target Hu; eauto.
  destruct (verification_transition_allowed d c v (sp_verification_attempts c)) as [Hv|Hv];
    rewrite Hu in Hv; [done|].
  destruct (verification_transition_cases d c v (sp_verification_attempts c)) as [Hw _].
  destruct (vr_status v); rewrite Hu in Hw; try done; try (elem_cases Hw; fail).
  by destruct Hw as [|[? _]].
Qed.

Lemma step_superseded d c u :
  lifecycle_step d c u → (is_Some (sp_superseded_by c) ↔ sp_lifecycle_status c = SUPERSEDED) →
  (is_Some (sp_superseded_by u) ↔ sp_lifecycle_status u = SUPERSEDED).
Proof.
  intros H Hsup. assert (sp_lifecycle_status c ≠ SUPERSEDED ∧ (sp_lifecycle_status u ≠ SUPERSEDED ∧
    sp_superseded_by u = sp_superseded_by c ∨ sp_lifecycle_status u = SUPERSEDED ∧
    is_Some (sp_superseded_by u))) as [Hcs [[Hu ->]|[Hu Hus]]]; [|tauto|tauto].
  step_cases H; rewrite Hs; (split; [done|]); eauto; left; (split; [|done]); intros Hu; no_target Hu.
  destruct (verification_transition_allowed d c v (sp_verification_attempts c)) as [Hv|Hv];
    rewrite Hu in Hv; [done|]. elem_cases Hv.
Qed.

(** ** Decisions *)

Lemma step_undecided d c u :
  lifecycle_step d c u → sp_authority_evidence u = sp_authority_evidence c →
  sp_lifecycle_status u ≠ DENIED ∧
  (post_authority (sp_lifecycle_status u) = true → post_authority (sp_lifecycle_status c) = true).
Proof.
  intros H Hu. step_cases H; try rewrite Hs; try (by split).
  - rewrite <-(app_nil_r (sp_authority_evidence c)) in Hu at 2. by apply app_inv_head in Hu.
  - by destruct s.
  - split; [|done]. intros Hd. no_target Hd.
    destruct (verification_transition_allowed d c v (sp_verification_attempts c)) as [Hv|Hv];
      rewrite Hd in Hv; [done|]. elem_cases Hv.
Qed.

Lemma step_decisions d c u rs es :
  lifecycle_step d c u → extends c u rs es → added_evidence d c u es →
  (sp_lifecycle_status u = DENIED → ∃ e, es = [e] ∧ ae_decision e = REJECT) ∧
  (sp_lifecycle_status u ≠ DENIED → ∀ e, e ∈ es → ae_decision e = APPROVE) ∧
  (post_authority (sp_lifecycle_status u) = true →
     post_authority (sp_lifecycle_status c) = true ∨ ∃ e, es = [e] ∧ ae_decision e = APPROVE).
Proof.
  intros H Hext [->|(e & com & -> & Hs & Hc & Hb & Hn & Ht)].
  - destruct (step_undecided d c u H) as [Hd Hp].
    { rewrite (ext_evidence _ _ _ _ Hext). apply app_nil_r. }
    split_and!; [done|by intros _ e He%elem_of_nil|auto].
  - unfold decision_target in Ht. destruct (ae_decision e) eqn:Ed.
    + split_and!; eauto; [by intros Hd; rewrite Hd in Ht; elem_cases Ht|].
      by intros _ e' ->%list_elem_of_singleton.
    + rewrite Ht. split_and!; eauto; done.
Qed.

(** * The invariant *)

Lemma step_live d c u : live_record c → lifecycle_step d c u → live_record u.
Proof.
  intros Hl H. destruct (step_extends d c u H) as (rs & es & Hext & Hadd).
  destruct (step_decisions d c u rs es H Hext Hadd) as (Hden & Hund & Hpost).
  assert (Hf := ext_fixed _ _ _ _ Hext). unfold fixed_part, proposal_identity in Hf.
  destruct Hl. constructor.
  - rewrite (ext_receipts _ _ _ _ Hext). destruct live_prepared0 as (b & pr & pa & rest & ->).
    by exists b, pr, pa, (rest ++ rs).
  - intros r. rewrite (ext_receipts _ _ _ _ Hext), elem_of_app. intros Hr.
    eapply base_extends; [done|]. destruct Hr; [auto|by eapply ext_base].
  - by replace (sp_requesting_principal u) with (sp_requesting_principal c) by congruence.
  - replace (sp_commitment u) with (sp_commitment c) by congruence.
    by replace (sp_protected_private_snapshot u) with (sp_protected_private_snapshot c) by congruence.
  - intros e. rewrite (ext_evidence _ _ _ _ Hext), elem_of_app. intros He.
    eapply matches_extends; [done|]. destruct He as [He|He]; [auto|].
    destruct Hadd as [->|(e' & com & -> & _ & Hc & Hb & _)]; [by apply elem_of_nil in He|].
    apply list_elem_of_singleton in He as ->. by eapply matches_bound.
  - rewrite (ext_evidence _ _ _ _ Hext).
    destruct Hadd as [->|(e' & com & -> & _ & _ & _ & Hn & _)]; [by rewrite app_nil_r|].
    apply list.NoDup_app. split_and!; [done| |apply NoDup_singleton].
    by intros x Hx ->%list_elem_of_singleton.
  - intros [Hc|(e & -> & He)]%Hpost; rewrite (ext_evidence _ _ _ _ Hext).
    + destruct (live_approved0 Hc) as (e & Hin & He). exists e. rewrite elem_of_app. auto.
    + exists e. split; [apply elem_here|done].
  - intros (e & -> & He)%Hden. rewrite (ext_evidence _ _ _ _ Hext).
    exists e. split; [apply elem_here|done].
  - intros Hu e. rewrite (ext_evidence _ _ _ _ Hext), elem_of_app. intros [He|He]; [|auto].
    apply live_undenied0; [|done]. intros Hc. destruct (ext_status _ _ _ _ Hext) as [?|Ha];
      [congruence|]. rewrite Hc in Ha. inversion Ha.
  - apply (step_verified d c u H).
  - apply (step_failed d c u H).
  - intros Hu. destruct (step_started d c u H Hu) as [Hc|]; [|done].
    destruct live_started0 as (r & Hr & Hx); [auto|]. exists r.
    rewrite (ext_receipts _ _ _ _ Hext), elem_of_app. auto.
  - replace (sp_max_verification_attempts u) with (sp_max_verification_attempts c) by congruence.
    destruct live_attempts0 as [Ha Hm]. split; [|exact Hm]. exact (step_attempts d c u H Ha).
  - apply (step_lease d c u H).
  - by apply (step_superseded d c u H).
  - replace (sp_created_at u) with (sp_created_at c) by congruence.
    by replace (sp_expires_at u) with (sp_expires_at c) by congruence.
Qed.

Lemma record_erased_false p :
  record_erased p = false ↔ sp_erasure_pending_at p = None ∧ sp_erased_at p = None.
Proof.
  unfold record_erased. rewrite orb_false_iff, !bool_decide_eq_false.
  by rewrite !eq_None_not_Some.
Qed.

(** The store accepts every step. *)
Lemma step_update_ok d c u :
  live_record c → record_erased c = false → lifecycle_step d c u → update_ok c u.
Proof.
  intros Hl [Hp He]%record_erased_false H. assert (Hu := step_live d c u Hl H).
  destruct (step_extends d c u H) as (rs & es & [Hf Hrev Hrs Hes _ Hst] & _).
  unfold fixed_part in Hf. constructor; try done.
  - congruence.
  - rewrite Hp. by intros [].
  - intros [x Hx]. congruence.
  - intros _. rewrite Hes. by exists es.
  - intros _. rewrite Hrs. by exists rs.
  - constructor; [apply Hu|]. intros r Hr. by apply (live_receipts u Hu r Hr).
Qed.

Lemma step_not_erased d c u :
  lifecycle_step d c u → record_erased c = false → record_erased u = false.
Proof.
  intros H [Hp He]%record_erased_false. apply record_erased_false.
  destruct (step_extends d c u H) as (rs & es & [Hf _ _ _ _ _] & _).
  unfold fixed_part in Hf. split; congruence.
Qed.

Lemma step_keys d c u :
  lifecycle_step d c u → proposal_key u = proposal_key c ∧ claim_key u = claim_key c ∧
  sp_revision u = (sp_revision c + 1)%Z.
Proof.
  intros H. destruct (step_extends d c u H) as (rs & es & [Hf Hrev _ _ _ _] & _).
  unfold fixed_part, proposal_identity in Hf. unfold proposal_key, claim_key.
  split_and!; [congruence|congruence|done].
Qed.

Lemma initial_live d p : definition_ok d → initial_record d p → live_record p.
Proof.
  intros [Httl _ Hmax _] [[_ Hs _ _ _] Hev (b & pr & pa & Hrs & Hb) Hpr Hpriv [Ha Hm] Hexp _ (Hpre & Hsup & _)].
  constructor; rewrite ?Hs, ?Hev; try done.
  - rewrite Hrs. by exists b, pr, pa, [].
  - intros r. rewrite Hrs. by intros ->%list_elem_of_singleton.
  - by intros e He%elem_of_nil.
  - constructor.
  - by intros _ e He%elem_of_nil.
  - intros H. elem_cases H.
  - intros [|]; done.
  - lia.
  - rewrite Hsup. split; [by intros []|done].
  - lia.
Qed.

(** The other writes of the store keep records well-formed. *)
Lemma live_pending p t : live_record p → live_record (proposal_with_erasure_pending p t).
Proof.
  intros []. constructor; simpl; try done.
  intros r Hr. destruct (live_receipts0 r Hr). by constructor.
Qed.

Lemma well_formed_pending p t :
  sp_erased_at p = None → well_formed p → well_formed (proposal_with_erasure_pending p t).
Proof. unfold well_formed. simpl. intros ->. apply live_pending. Qed.

Lemma well_formed_erased p t : well_formed (erased_proposal p t).
Proof. reflexivity. Qed.

Lemma well_formed_live p : record_erased p = false → well_formed p → live_record p.
Proof. intros [_ He]%record_erased_false. unfold well_formed. by rewrite He. Qed.

Lemma live_well_formed p : record_erased p = false → live_record p → well_formed p.
Proof. intros [_ He]%record_erased_false. unfold well_formed. by rewrite He. Qed.

#[export] Hint Resolve step_live step_update_ok step_not_erased initial_live well_formed_live
  live_well_formed well_formed_pending well_formed_erased : actions.

(** ** Consequences *)

Lemma last_authority_live p :
  live_record p → post_authority (sp_lifecycle_status p) = true →
  ∃ a, _last_authority p = Ok a.
Proof.
  intros Hl Hp. destruct (live_approved p Hl Hp) as (e & He & Ha). unfold _last_authority.
  destruct (find_last _ _) as [x|] eqn:E; [eauto|].
  assert (H := find_last_None _ _ E e He). simpl in H. by rewrite bool_decide_eq_true_2 in H.
Qed.

Lemma execution_context_live p t o :
  live_record p → ∃ x, _execution_context p t o = Ok x.
Proof. intros Hl. destruct (live_principal p Hl) as [pr Hpr]. unfold _execution_context. rewrite Hpr. eauto. Qed.

Lemma live_causal_receipt p :
  live_record p → ∃ r, causal_receipt (sp_receipts p) = Some r ∧ r ∈ sp_receipts p.
Proof.
  intros Hl. unfold causal_receipt. destruct (last_verification _) as [r|] eqn:E.
  - exists r. split; [done|]. by apply find_last_Some in E as [? _].
  - destruct (live_prepared p Hl) as (b & pr & pa & rest & ->).
    destruct (list.last (ProposalReceipt b PR_PREPARED pr pa :: rest)) as [r|] eqn:El;
      [|by apply last_None in El].
    exists r. split; [done|]. by apply last_Some_elem_of.
Qed.
