(* ===== verification/RuntimeGuarantee.v ===== *)
(** What one call of a runtime operation guarantees, whatever the store, the
    host and the other services answer.

    [guarantee d h o] says when a call working for the definition [d], having
    performed [h], may perform [o].  The only assumption is [rely]: a record
    the store returns is well-formed.  [RuntimeWorld] discharges it. *)

From S2P Require Import Prelude Models Canonical Authority Receipts Registry StoreBase StoreContract.
From S2P Require Import Recovery Evidence Program Runtime Lifecycle.

(** * Reading a history *)

Definition is_execute (o : op) : bool := match o with Execute _ _ _ _ => true | _ => false end.
Definition is_create (o : op) : bool := match o with Store (Create _) => true | _ => false end.

(** The operation raised. *)
Definition failed (e : event) : bool := match ev_resp e with Ok _ => false | Err _ => true end.

(** Neither the executor was called nor a proposal created. *)
Definition quiet (h : history) : Prop :=
  ∀ e, e ∈ h → is_execute (ev_op e) = false ∧ is_create (ev_op e) = false.

(** The record was returned by the store, or written to it. *)
Definition wrote (h : history) (c : StoredProposal) : Prop :=
  Event (Store (Create c)) (Ok ()) ∈ h ∨
  (∃ t p n ss, Event (Store (CompareAndSet t p n ss c)) (Ok true) ∈ h) ∨
  (∃ t p n at_ x, Event (Store (AdmitExecution t p n at_ c)) (Ok x) ∈ h ∧
     x ∈ [ACQUIRED; OWNED_BY_PROPOSAL]).

Definition seen (h : history) (c : StoredProposal) : Prop :=
  (∃ t p, Event (Store (Get t p)) (Ok (Some c)) ∈ h) ∨ wrote h c.

Definition rely (_ : history) (e : event) : Prop :=
  ∀ t p c, e = Event (Store (Get t p)) (Ok (Some c)) → well_formed c.

(** * The guarantee *)

Section Guarantee.
Context `{U : Unicode}.
Variable d : ActionDefinition.

(** A write replaces a record that was seen, live, by a step of it. *)
Record writes (h : history) (t p : pystr) (revision : Z) (c u : StoredProposal) : Prop := {
  writes_seen : seen h c;
  writes_live : live_record c;
  writes_not_erased : record_erased c = false;
  writes_key : proposal_key c = (t, p);
  writes_revision : sp_revision c = revision;
  writes_action : sp_action_type c = ad_action_type d;
  writes_step : lifecycle_step d c u
}.

(** The execution context is the one of the proposal. *)
Definition context_for (ctx : ExecutionContext) (c : StoredProposal) : Prop :=
  xc_tenant_reference ctx = sp_tenant_reference c ∧
  xc_proposal_reference ctx = sp_proposal_reference c ∧
  xc_semantic_effect_reference ctx = sp_semantic_effect_reference c.

(** A verdict on the effect is the one a port of this call gave for the
    proposal. *)
Record grounded (h : history) (c u : StoredProposal) : Prop := {
  grounded_verification : sp_lifecycle_status c = VERIFICATION_PENDING →
    sp_lifecycle_status u ∈ [AUTHORIZED; VERIFIED; PARTIALLY_SUCCEEDED; FAILED_KNOWN] →
    ∃ ctx v, Event (Verify (ad_verifier d) ctx) (Ok v) ∈ h ∧ context_for ctx c ∧
      (_verification_transition d c v (sp_verification_attempts c)).1.1 = sp_lifecycle_status u;
  grounded_execution : sp_lifecycle_status c = EXECUTING →
    sp_lifecycle_status u ≠ VERIFICATION_PENDING →
    (∃ snapshot ctx pre x y, Event (Execute (ad_executor d) snapshot ctx pre) (Ok x) ∈ h ∧
       context_for ctx c ∧ declared_execution d c x = Ok y ∧
       (execution_target d (xr_status y) 0).1.1 = sp_lifecycle_status u) ∨
    (quiet h ∧ sp_lifecycle_status u = FAILED_KNOWN)
}.

(** Everything that stands before a call of the executor. *)
Record execution_gate (h : history) (snapshot : PyModel) (ctx : ExecutionContext) (pre : pystr)
  (c u : StoredProposal) (commitment : KeyedCommitment) (evidence : list AuthorityEvidence)
  (resolved : ResolvedState) (admitted_at now : datetime) : Prop := {
  (* the proposal that was read, and its decisions *)
  gate_seen : seen h c;
  gate_authorized : sp_lifecycle_status c = AUTHORIZED;
  gate_action : sp_action_type c = ad_action_type d;
  gate_not_erased : record_erased c = false;
  gate_evidence : evidence `sublist_of` sp_authority_evidence c;
  gate_evidence_valid : ∀ e, e ∈ evidence →
    evidence_bound e (authority_binding d c commitment) ∧ (ae_issued_at e <= now < ae_expires_at e)%Z;
  gate_evaluated : ∃ r, Event (Evaluate (ad_authority_evaluator d) (authority_binding d c commitment)
    evidence) (Ok r) ∈ h ∧ au_satisfied r = true;
  (* the private snapshot is the committed one *)
  gate_commitment : sp_commitment c = Some commitment;
  gate_committed : ∃ canonical payload,
    commitment_payload_v1 (sp_proposal_reference c) canonical = Ok payload ∧
    ((∃ port i, Event (VerifyCommitmentFor port i payload commitment) (Ok true) ∈ h) ∨
     (∃ port, Event (VerifyCommitment port (sp_proposal_reference c) payload commitment) (Ok true) ∈ h));
  (* the live state has not drifted, and the host still allows the effect *)
  gate_resolved : ∃ s x, Event (Resolve (ad_state_resolver d) s x) (Ok resolved) ∈ h;
  gate_undrifted : rs_materially_drifted resolved = false;
  gate_snapshot : rs_current_snapshot resolved = snapshot ∧
    model_class snapshot = ad_private_snapshot_model d;
  gate_precondition : rs_execution_precondition resolved = pre;
  gate_reauthorized : ∃ x az, Event (CanExecute (ad_authorization d) snapshot x) (Ok az) ∈ h ∧
    az_allowed az = true;
  (* the store admitted it: the record is executing and holds the effect *)
  gate_admitted : ∃ x, Event (Store (AdmitExecution (sp_tenant_reference c) (sp_proposal_reference c)
    (sp_revision c) admitted_at u)) (Ok x) ∈ h ∧ x ∈ [ACQUIRED; OWNED_BY_PROPOSAL];
  gate_step : lifecycle_step d c u ∧ sp_lifecycle_status u = EXECUTING;
  (* it is neither expired nor past its lease at the last reading of the clock *)
  gate_clock : ∃ h', h = h' ++ [Event ClockNow (Ok now)];
  gate_unexpired : (now < sp_expires_at c)%Z;
  gate_lease : (now < admitted_at + ad_verification_lease_duration d)%Z;
  gate_context : _execution_context c now (Some evidence) = Ok ctx;
  (* and the executor was not called before *)
  gate_quiet : quiet h
}.

Definition erasure_authorized (h : history) : Prop :=
  ∃ r x, Event (AuthorizeErasure (ad_retention d) r x) (Ok true) ∈ h.

(** The record is marked for erasure, or this call had it marked. *)
Definition erasure_marked (h : history) (c : StoredProposal) : Prop :=
  is_Some (sp_erasure_pending_at c) ∨
  ∃ n at_, Event (Store (MarkErasurePending (sp_tenant_reference c) (sp_proposal_reference c) n at_))
    (Ok true) ∈ h.

(** The proposal this call tried to create is not, as created, in the store. *)
Definition not_persisted (h : history) : Prop :=
  ∀ c r, Event (Store (Create c)) r ∈ h → (∃ e, r = Err e) ∧
    ∃ x, Event (Store (Get (sp_tenant_reference c) (sp_proposal_reference c))) (Ok x) ∈ h ∧ x ≠ Some c.

Definition may_destroy_payload (h : history) (payload : ProtectedPayload) : Prop :=
  (erasure_authorized h ∧ ∃ c, seen h c ∧ erasure_marked h c ∧
     sp_protected_private_snapshot c = Some payload) ∨
  (not_persisted h ∧
     ((∃ p i b, Event (ProtectFor p i b) (Ok payload) ∈ h) ∨
      (∃ p r b, Event (Protect p r b) (Ok payload) ∈ h))).

Definition may_destroy_commitment (h : history) (commitment : KeyedCommitment) : Prop :=
  (erasure_authorized h ∧ ∃ c, seen h c ∧ erasure_marked h c ∧
     sp_commitment c = Some commitment) ∨
  (not_persisted h ∧
     ((∃ p i b, Event (CreateCommitmentFor p i b) (Ok commitment) ∈ h) ∨
      (∃ p r b, Event (CreateCommitment p r b) (Ok commitment) ∈ h))).

Definition guarantee (h : history) (o : op) : Prop :=
  match o with
  | Store (Create p) => initial_record d p ∧ quiet h
  | Store (CompareAndSet t p revision statuses u) =>
      ∃ c, writes h t p revision c u ∧ statuses = [sp_lifecycle_status c] ∧ grounded h c u
  | Store (AdmitExecution t p revision at_ u) =>
      ∃ c, writes h t p revision c u ∧ sp_lifecycle_status c = AUTHORIZED ∧
        sp_lifecycle_status u = EXECUTING ∧ (at_ < sp_expires_at c)%Z
  | Store (MarkErasurePending t p revision _) =>
      erasure_authorized h ∧ ∃ c, seen h c ∧ proposal_key c = (t, p) ∧ sp_revision c = revision ∧
        sp_action_type c = ad_action_type d
  | Store (CompleteErasure t p revision _) =>
      erasure_authorized h ∧
      (∃ c, seen h c ∧ proposal_key c = (t, p) ∧ sp_action_type c = ad_action_type d) ∧
      ∃ c, seen h c ∧ proposal_key c = (t, p) ∧ sp_revision c = revision ∧ erasure_marked h c
  | Execute port snapshot ctx pre => port = ad_executor d ∧
      ∃ c u commitment evidence resolved admitted_at now,
        execution_gate h snapshot ctx pre c u commitment evidence resolved admitted_at now
  | Verify port ctx => port = ad_verifier d ∧ quiet h ∧
      ∃ c, wrote h c ∧ sp_lifecycle_status c = VERIFICATION_PENDING ∧
        (1 <= sp_verification_attempts c <= sp_max_verification_attempts c)%Z ∧
        ∃ now, _execution_context c now None = Ok ctx
  | Evaluate port b es => port = ad_authority_evaluator d ∧ ∀ e, e ∈ es → evidence_bound e b
  | Emit ev => ∃ c, seen h c ∧ ev_tenant_reference ev = sp_tenant_reference c ∧
      ev_proposal_reference ev = sp_proposal_reference c ∧
      ev_lifecycle_status ev = sp_lifecycle_status c
  | DestroyPayload _ payload | DestroyPayloadFor _ _ payload => may_destroy_payload h payload
  | DestroyCommitment _ commitment | DestroyCommitmentFor _ _ commitment =>
      may_destroy_commitment h commitment
  | Stripe _ | Custody _ | Agent _ => False
  | _ => True
  end.

(** * Growing histories *)

Definition grows (h h' : history) : Prop := ∃ es, h' = h ++ es ∧ quiet es.

Lemma quiet_nil : quiet [].
Proof. by intros e He%elem_of_nil. Qed.

Lemma quiet_app h h' : quiet (h ++ h') ↔ quiet h ∧ quiet h'.
Proof.
  unfold quiet. split.
  - intros H. split; intros e He; apply H, elem_of_app; auto.
  - intros [H H'] e [He|He]%elem_of_app; auto.
Qed.

Lemma quiet_one e : is_execute (ev_op e) = false → is_create (ev_op e) = false → quiet [e].
Proof. intros ? ? x ->%list_elem_of_singleton. auto. Qed.

Lemma grows_refl h : grows h h.
Proof. exists []. split; [by rewrite app_nil_r|apply quiet_nil]. Qed.

Lemma grows_trans h1 h2 h3 : grows h1 h2 → grows h2 h3 → grows h1 h3.
Proof.
  intros (es & -> & He) (fs & -> & Hf). exists (es ++ fs). split; [by rewrite app_assoc|].
  by apply quiet_app.
Qed.

Lemma grows_one h e :
  is_execute (ev_op e) = false → is_create (ev_op e) = false → grows h (h ++ [e]).
Proof. intros. exists [e]. split; [done|]. by apply quiet_one. Qed.

Lemma grows_elem h h' e : grows h h' → e ∈ h → e ∈ h'.
Proof. intros (es & -> & _) He. apply elem_of_app. auto. Qed.

Lemma grows_quiet h h' : grows h h' → quiet h → quiet h'.
Proof. intros (es & -> & Hq) H. by apply quiet_app. Qed.

Lemma wrote_mono h h' c : (∀ e, e ∈ h → e ∈ h') → wrote h c → wrote h' c.
Proof.
  intros Hsub [H|[(t & p & n & ss & H)|(t & p & n & a & x & H & Hx)]].
  - left. auto.
  - right; left. eauto 10.
  - right; right. eauto 10.
Qed.

Lemma seen_mono h h' c : (∀ e, e ∈ h → e ∈ h') → seen h c → seen h' c.
Proof.
  intros Hsub [(t & p & H)|H]; [left; eauto 10|right; by eapply wrote_mono].
Qed.

Lemma elem_last {A} (l : list A) x : x ∈ l ++ [x].
Proof. apply elem_of_app. right. by apply list_elem_of_singleton. Qed.

Lemma elem_before {A} (l : list A) x y : x ∈ l → x ∈ l ++ [y].
Proof. intros. apply elem_of_app. by left. Qed.

Lemma seen_grows h h' c : grows h h' → seen h c → seen h' c.
Proof. intros Hg. apply seen_mono. intros e. by apply grows_elem. Qed.

Lemma wrote_grows h h' c : grows h h' → wrote h c → wrote h' c.
Proof. intros Hg. apply wrote_mono. intros e. by apply grows_elem. Qed.

Lemma seen_get h t p c : Event (Store (Get t p)) (Ok (Some c)) ∈ h → seen h c.
Proof. left. eauto. Qed.

Lemma seen_wrote h c : wrote h c → seen h c.
Proof. by right. Qed.

Lemma wrote_cas h t p n ss c : Event (Store (CompareAndSet t p n ss c)) (Ok true) ∈ h → wrote h c.
Proof. right; left. eauto. Qed.

Hint Resolve grows_refl seen_get seen_wrote wrote_cas elem_last elem_before quiet_nil : actions.

(** Follow the chain of histories. *)
Ltac grow :=
  match goal with
  | |- grows ?h ?h => apply grows_refl
  | H : grows ?h _ |- grows ?h _ => exact H
  | H : grows ?h _ |- grows ?h _ => apply (grows_trans _ _ _ H); grow
  end.

(** Carry a fact about an earlier history to a later one. *)
Ltac track :=
  match goal with
  | H : seen ?h ?c |- seen ?h' ?c => apply (seen_grows h h'); [grow|exact H]
  | H : wrote ?h ?c |- seen ?h' ?c => apply seen_wrote, (wrote_grows h h'); [grow|exact H]
  | H : Event (Store (Get _ _)) (Ok (Some ?c)) ∈ ?h |- seen ?h' ?c =>
      apply (seen_grows h h'); [grow|by eapply seen_get]
  | H : wrote ?h ?c |- wrote ?h' ?c => apply (wrote_grows h h'); [grow|exact H]
  | H : quiet ?h |- quiet ?h' => apply (grows_quiet h h'); [grow|exact H]
  | H : ?e ∈ ?h |- ?e ∈ ?h' => apply (grows_elem h h'); [grow|exact H]
  end.

(** * The building blocks *)

Abbreviation wpg := (wp guarantee rely).

(** A call of an operation that is neither the executor nor a creation. *)
Lemma wp_quiet_call o (Q : history → res (resp o) → Prop) h :
  is_execute o = false → is_create o = false → guarantee h o →
  (∀ r, rely h (Event o r) → grows h (h ++ [Event o r]) → Event o r ∈ h ++ [Event o r] →
     Q (h ++ [Event o r]) r) →
  wpg (call o) Q h.
Proof.
  intros He Hc HG HQ. apply wp_call; [done|]. intros r Hr.
  apply HQ; [done|by apply grows_one|apply elem_last].
Qed.

Lemma wp_required t p (Q : history → res StoredProposal → Prop) h :
  (∀ c h', grows h h' → Event (Store (Get t p)) (Ok (Some c)) ∈ h' → well_formed c →
     proposal_key c = (t, p) → Q h' (Ok c)) →
  (∀ e h', grows h h' → Q h' (Err e)) →
  wpg (_required t p) Q h.
Proof.
  intros HQ HE. unfold _required. apply wp_bind, wp_quiet_call; [done..|].
  intros [[c|]|e] Hr Hg Hin; simpl; [|by apply HE..].
  split_if; [by apply HE|]. to_prop. simpl. apply HQ; [done|done|by eapply Hr|].
  unfold proposal_key. congruence.
Qed.

Lemma wp_lift_ok {A} (r : res A) (Q : history → res A → Prop) h :
  (∀ a, r = Ok a → Q h (Ok a)) → (∀ e, r = Err e → Q h (Err e)) → wpg (lift r) Q h.
Proof. intros HO HE. destruct r; simpl; auto. Qed.

(** The fields of a new receipt. *)
Record new_base (reference cause : pystr) (b : ReceiptBase) : Prop := {
  new_correlation : rb_correlation_reference b = reference;
  new_causation : rb_causation_reference b = cause;
  new_version : rb_schema_version b = "internal/v0"%py;
  new_revision : is_Some (rb_runtime_revision b);
  new_corrects : rb_corrects_receipt_reference b = None;
  new_supersedes : rb_supersedes_receipt_reference b = None
}.

Lemma wp_new_base self reference cause at_ ext reason (Q : history → res ReceiptBase → Prop) h :
  (∀ b h', grows h h' → new_base reference cause b → Q h' (Ok b)) →
  (∀ e h', grows h h' → Q h' (Err e)) →
  wpg (new_receipt_base self reference cause at_ ext reason) Q h.
Proof.
  intros HQ HE. unfold new_receipt_base. apply wp_bind, wp_quiet_call; [done..|].
  intros [new|e] _ Hg _; [|by apply HE].
  apply wp_bind, wp_lift_ok; intros x _; [|by apply HE].
  apply wp_bind, wp_lift_ok; intros y _; [|by apply HE].
  simpl. apply HQ; [done|]. constructor; simpl; eauto.
Qed.

Lemma wp_new_receipt_base self c cause at_ ext reason (Q : history → res ReceiptBase → Prop) h :
  (cause = sp_proposal_reference c ∨ cause ∈ receipt_references c) →
  (∀ b h', grows h h' → runtime_base c b → Q h' (Ok b)) →
  (∀ e h', grows h h' → Q h' (Err e)) →
  wpg (new_receipt_base self (sp_proposal_reference c) cause at_ ext reason) Q h.
Proof.
  intros Hcause HQ HE. apply wp_new_base; [|done]. intros b h' Hg []. apply HQ; [done|].
  constructor; [done| |done..]. by subst cause.
Qed.

Lemma wp_emit c ty at_ reason (Q : history → res unit → Prop) h :
  seen h c → (∀ r h', grows h h' → Q h' r) → wpg (_emit c ty at_ reason) Q h.
Proof.
  intros Hseen HQ. unfold _emit. apply wp_bind, wp_attempt, wp_quiet_call; [done..|by exists c|].
  intros [[]|e] _ Hg _; simpl; [by apply HQ|]. destruct (is_Exception e); simpl; by apply HQ.
Qed.

Lemma wp_ret {A} (a : A) (Q : history → res A → Prop) h : Q h (Ok a) → wpg (Ret a) Q h.
Proof. done. Qed.

(** A program with nothing to establish at its end. *)
Abbreviation safe p h := (wp guarantee rely p (λ _ _, True) h).

Lemma wp_cas c u (Q : history → res bool → Prop) h :
  seen h c → live_record c → record_erased c = false → sp_action_type c = ad_action_type d →
  lifecycle_step d c u → grounded h c u →
  (∀ h', grows h h' → wrote h' u → Q h' (Ok true)) →
  (∀ h', grows h h' → Q h' (Ok false)) →
  (∀ e h', grows h h' → Q h' (Err e)) →
  wpg (_cas c u) Q h.
Proof.
  intros Hs Hl He Ha Hst Hg HT HF HE. unfold _cas. apply wp_quiet_call; [done..| |].
  - exists c. by split_and!.
  - intros [[]|e] _ Hgr Hin; eauto with actions.
Qed.

Lemma grounded_other h c u :
  sp_lifecycle_status c ∉ [VERIFICATION_PENDING; EXECUTING] → grounded h c u.
Proof.
  intros Hn. constructor; intros Hs; exfalso; apply Hn; rewrite Hs, list_elem_of_In; simpl; tauto.
Qed.

Lemma grounded_pending h c u : sp_lifecycle_status u ∈ [VERIFICATION_PENDING; VERIFICATION_UNRESOLVED] →
  sp_lifecycle_status c ≠ EXECUTING ∨ sp_lifecycle_status u = VERIFICATION_PENDING → grounded h c u.
Proof.
  intros Hu Hc. constructor.
  - intros _ Hx. elem_cases Hu; match goal with H : _ = sp_lifecycle_status u |- _ =>
      rewrite <-H in Hx end; elem_cases Hx.
  - intros He Hv. by destruct Hc.
Qed.

Lemma safe_required_then {A} t p (f : StoredProposal → prog A) h :
  (∀ c h', safe (f c) h') → safe (c ← _required t p; f c) h.
Proof. intros Hf. apply wp_bind, wp_required; auto. Qed.

Lemma safe_emit_then {A} c ty at_ reason (p : prog A) h :
  seen h c → (∀ h', safe p h') → safe (_ ← _emit c ty at_ reason; p) h.
Proof. intros Hs Hp. apply wp_bind, wp_emit; [done|]. intros [[]|e] h' _; simpl; auto. Qed.

(** The guard on live proposals. *)
Lemma safe_require_live {A} c (p : prog A) h :
  well_formed c →
  (live_record c → record_erased c = false → sp_action_type c = ad_action_type d → safe p h) →
  safe (_ ← lift (require_live d c); p) h.
Proof.
  intros Hwf Hp. apply wp_bind, wp_lift_ok; [|done]. intros x Hx. unfold require_live in Hx.
  repeat (split_if; try discriminate). to_prop. apply Hp; auto with actions.
Qed.

(** The common end of the operations: write a step, then either look again
    and answer, or project the event and answer. *)
Lemma safe_cas_then {A} c u (lost won : prog A) h :
  seen h c → live_record c → record_erased c = false → sp_action_type c = ad_action_type d →
  lifecycle_step d c u → grounded h c u →
  (∀ h', safe lost h') → (∀ h', grows h h' → wrote h' u → safe won h') →
  safe (b ← _cas c u; if negb b then lost else won) h.
Proof. intros. apply wp_bind, wp_cas; simpl; auto. Qed.

(** Apply [safe_cas_then]; the step, the ground and the continuation remain. *)
Ltac cas_then :=
  apply safe_cas_then;
  [track|by eauto with actions|by eauto with actions|done| | |intros ?; by apply safe_required_then|].

Ltac emit_then := apply safe_emit_then; [track|done].

Lemma safe_expire_unexecuted c h :
  seen h c → live_record c → record_erased c = false → sp_action_type c = ad_action_type d →
  sp_lifecycle_status c = AUTHORIZED → safe (expire_unexecuted c) h.
Proof.
  intros Hs Hl He Ha Hst. unfold expire_unexecuted. apply wp_bind, wp_cas; simpl; auto.
  - constructor. rewrite Hst, list_elem_of_In. simpl. tauto.
  - apply grounded_other. rewrite Hst. by apply (bool_decide_unpack _).
Qed.

Lemma safe_block self c now reason h :
  seen h c → live_record c → record_erased c = false → sp_action_type c = ad_action_type d →
  sp_lifecycle_status c = AUTHORIZED → safe (_block self d c now reason) h.
Proof.
  intros Hs Hl He Ha Hst. unfold _block. apply wp_bind, wp_lift_ok; [|done]. intros a _.
  apply wp_bind, wp_new_receipt_base; [by left| |done]. intros b h' Hg Hb.
  cas_then.
  - by constructor.
  - apply grounded_other. rewrite Hst. by apply (bool_decide_unpack _).
  - intros h2 Hg2 Hw. emit_then.
Qed.

(** * Settling *)

Lemma execution_context_for c now o ctx :
  _execution_context c now o = Ok ctx → context_for ctx c.
Proof.
  unfold _execution_context. destruct (sp_requesting_principal c); [|done].
  by intros <-%Ok_inj.
Qed.

Lemma context_for_step ctx c u : lifecycle_step d c u → context_for ctx c → context_for ctx u.
Proof.
  intros H (Ht & Hp & Hs). destruct (step_extends d c u H) as (rs & es & [Hf _ _ _ _ _] & _).
  unfold fixed_part, proposal_identity in Hf. unfold context_for. rewrite Ht, Hp, Hs.
  split_and!; congruence.
Qed.

Lemma safe_settle_execution self c x now h :
  seen h c → live_record c → record_erased c = false → sp_action_type c = ad_action_type d →
  sp_lifecycle_status c = EXECUTING →
  ((∃ snapshot ctx pre, Event (Execute (ad_executor d) snapshot ctx pre) (Ok x) ∈ h ∧
      context_for ctx c) ∨
   quiet h ∧ xr_status x = EX_FAILED_KNOWN) →
  safe (_settle_execution self d c x now) h.
Proof.
  intros Hs Hl He Ha Hst Hground. unfold _settle_execution.
  apply wp_bind, wp_lift_ok; [|done]. intros _ _.
  apply wp_bind, wp_lift_ok; [|done]. intros y Hy.
  apply wp_bind, wp_new_receipt_base; [by left| |done]. intros b h' Hg Hb.
  destruct (execution_target d (xr_status y) now) as [[target outcome] next] eqn:Et.
  assert (Htarget : (execution_target d (xr_status y) now).1.1 = target) by by rewrite Et.
  assert (Hnext : (execution_target d (xr_status y) now).2 = next) by by rewrite Et.
  cas_then.
  - rewrite <-Htarget, <-Hnext. by constructor.
  - constructor; [congruence|]. intros _ _. simpl. rewrite <-Htarget.
    destruct Hground as [(snapshot & ctx & pre & Hx & Hctx)|[Hq Hk]].
    + left. exists snapshot, ctx, pre, x, y. split_and!; [by eapply grows_elem|done|done|].
      by destruct (xr_status y).
    + right. split; [by eapply grows_quiet|]. unfold declared_execution in Hy.
      rewrite Hk in Hy. injection Hy as <-. by rewrite Hk.
  - intros h2 Hg2 Hw. emit_then.
Qed.

Lemma safe_settle_verification self c v now h :
  seen h c → live_record c → record_erased c = false → sp_action_type c = ad_action_type d →
  sp_lifecycle_status c = VERIFICATION_PENDING →
  (∃ ctx, Event (Verify (ad_verifier d) ctx) (Ok v) ∈ h ∧ context_for ctx c) →
  safe (_settle_verification self d c v now) h.
Proof.
  intros Hs Hl He Ha Hst (ctx & Hv & Hctx). unfold _settle_verification.
  apply wp_bind, wp_lift_ok; [|done]. intros _ _.
  apply wp_bind, wp_new_receipt_base; [by left| |done]. intros b h' Hg Hb.
  destruct (_verification_transition d c v (sp_verification_attempts c)) as [[target outcome] reason]
    eqn:Et.
  cas_then.
  - by constructor.
  - constructor; [|congruence]. intros _ _. exists ctx, v. split; [by eapply grows_elem|].
    split; [done|]. by rewrite verified_record_eq.
  - intros h2 Hg2 Hw. emit_then.
Qed.

(** * Reconciliation *)

Lemma safe_reconcile_pending self t p c now h :
  quiet h → seen h c → live_record c → record_erased c = false →
  sp_action_type c = ad_action_type d → sp_lifecycle_status c = VERIFICATION_PENDING →
  safe (reconcile_pending self d t p c now) h.
Proof.
  intros Hq Hs Hl He Ha Hst. unfold reconcile_pending. split_if; [done|]. split_if; to_prop.
  - cas_then.
    + by constructor.
    + apply grounded_pending; [rewrite list_elem_of_In; simpl; tauto|left; congruence].
    + intros h2 Hg2 Hw. emit_then.
  - assert (lifecycle_step d c (next_revision c $
      set_verification_attempts (sp_verification_attempts c + 1)%Z $
      set_next_verification_at (Some (now + ad_verification_lease_duration d)%Z) c)) as Hstep
      by by constructor.
    cas_then; [exact Hstep| |].
    + apply grounded_pending; simpl; [rewrite Hst, list_elem_of_In; simpl; tauto|left; congruence].
    + intros h2 Hg2 Hw. apply wp_bind, wp_lift_ok; [|done]. intros ctx Hctx.
      apply wp_bind, wp_quiet_call; [done..| |].
      * split; [done|]. split; [track|]. eexists. split; [done|].
        split; [done|]. split; [|by eexists]. destruct (live_attempts c Hl). simpl. lia.
      * intros [v|e] _ Hg3 Hv; [|done].
        apply safe_settle_verification; [track|by eauto with actions..|done|done|].
        exists ctx. split; [done|]. by eapply execution_context_for.
Qed.

Lemma safe_reconcile self t p h : quiet h → safe (reconcile self d t p) h.
Proof.
  intros Hq. unfold reconcile. apply wp_bind, wp_required; [|done].
  intros c h1 Hg1 Hin Hwf Hkey. apply safe_require_live; [done|]. intros Hl He Ha.
  apply wp_bind, wp_quiet_call; [done..|]. intros [now|e] _ Hg2 _; [|done].
  split_if; [done|]. split_if; to_prop.
  - assert (lifecycle_step d c (next_revision c $ set_lifecycle_status VERIFICATION_PENDING c))
      as Hstep by by constructor.
    cas_then; [exact Hstep| |].
    + apply grounded_pending; [rewrite list_elem_of_In; simpl; tauto|by right].
    + intros h3 Hg3 Hw. apply safe_reconcile_pending; [track|track|by eauto with actions..|done|done].
  - split_if; [done|]. to_prop. apply safe_reconcile_pending; [track|track|done..].
Qed.

Lemma safe_resume self t p n o intervention h :
  quiet h → safe (resume_verification self d t p n o intervention) h.
Proof.
  intros Hq. unfold resume_verification. apply wp_bind, wp_required; [|done].
  intros c h1 Hg1 Hin Hwf Hkey. apply safe_require_live; [done|]. intros Hl He Ha.
  apply wp_bind, wp_quiet_call; [done..|]. intros [now|e] _ Hg2 _; [|done].
  apply wp_bind, wp_lift_ok; [|done]. intros tenant _.
  apply wp_bind, wp_lift_ok; [|done]. intros inter _.
  destruct (ad_recovery_authorization d) as [port|]; [|done].
  apply wp_bind, wp_quiet_call; [done..|]. intros [az|e] _ Hg3 _; [|done].
  split_if; [done|]. split_if; [done|]. split_if; [done|]. to_prop.
  destruct (live_causal_receipt c Hl) as (cause & Hcause & Hmem). rewrite Hcause.
  apply wp_bind, wp_new_receipt_base;
    [right; apply list_elem_of_fmap; by exists cause| |done]. intros b h4 Hg4 Hb.
  cas_then.
  - by constructor.
  - apply grounded_pending; [rewrite list_elem_of_In; simpl; tauto|by right].
  - intros h5 Hg5 Hw. apply wp_bind, wp_emit; [by apply seen_wrote|].
    intros [[]|e] h6 Hg6; [|done]. apply safe_reconcile. track.
Qed.

(** * Authority *)

Lemma valid_evidence_bound es b at_ e :
  e ∈ _valid_authority_evidence es b at_ →
  e ∈ es ∧ evidence_bound e b ∧ (ae_issued_at e <= at_ < ae_expires_at e)%Z.
Proof.
  unfold _valid_authority_evidence. intros (He & Hv)%list_elem_of_In%filter_In.
  rewrite list_elem_of_In. by apply validate_authority_evidence_valid in Hv.
Qed.

Lemma wp_authority_decision b es e now (Q : history → res _ → Prop) h :
  (∀ t o s r h', grows h h' → decision_target e t → Q h' (Ok (t, o, s, r))) →
  (∀ x h', Q h' (Err x)) →
  wpg (authority_decision d b es e now) Q h.
Proof.
  intros HQ HE. unfold authority_decision, decision_target in *.
  destruct (decide (ae_decision e = DENY)) as [Hd|Hd].
  - rewrite bool_decide_eq_true_2 by done. simpl. apply HQ; [apply grows_refl|by rewrite Hd].
  - rewrite bool_decide_eq_false_2 by done. apply wp_bind, wp_quiet_call; [done..| |].
    + split; [done|]. intros x Hx. by apply valid_evidence_bound in Hx as (_ & ? & _).
    + intros [r|x] _ Hg _; simpl; [|done]. apply HQ; [done|].
      destruct (ae_decision e); [|done]. rewrite list_elem_of_In.
      destruct (au_satisfied r); [by left|by right; left].
Qed.

Lemma safe_record_authority self e a p h : safe (record_authority self d e a p) h.
Proof.
  unfold record_authority. apply wp_bind, wp_required; [|done].
  intros c h1 Hg1 Hin Hwf Hkey. apply wp_bind, wp_quiet_call; [done..|].
  intros [now|x] _ Hg2 _; [|done]. apply safe_require_live; [done|]. intros Hl He Ha.
  split_if; [done|]. apply wp_bind, wp_quiet_call; [done..|]. intros [az|x] _ Hg3 _; [|done].
  split_if; [done|]. split_if; [done|]. split_if; [done|]. to_prop.
  assert (grounded_any : ∀ h u, grounded h c u).
  { intros h' u. apply grounded_other.
    match goal with H : sp_lifecycle_status c = _ |- _ => rewrite H end.
    by apply (bool_decide_unpack _). }
  split_if; to_prop.
  { apply wp_bind, wp_cas; [track|done..| | | | |]; simpl; auto.
    - constructor. apply elem_of_cons. by left.
    - intros h4 _. by apply safe_required_then. }
  destruct (sp_commitment c) as [com|] eqn:Ecom; [|done]. split_if; [done|]. to_prop.
  match goal with H : av_valid _ = true |- _ =>
    apply validate_authority_evidence_valid in H as [Hbound _] end.
  apply wp_bind, wp_authority_decision; [|done]. intros target outcome st reason h4 Hg4 Ht.
  unfold record_decision. apply wp_bind, wp_new_receipt_base; [by left| |done]. intros b h5 Hg5 Hb.
  cas_then.
  - by eapply step_decide.
  - apply grounded_any.
  - intros h6 Hg6 Hw. emit_then.
Qed.

Lemma safe_expire_due self t p h : safe (expire_due self d t p) h.
Proof.
  unfold expire_due. apply wp_bind, wp_required; [|done].
  intros c h1 Hg1 Hin Hwf Hkey. apply safe_require_live; [done|]. intros Hl He Ha.
  split_if; [done|]. to_prop. apply wp_bind, wp_quiet_call; [done..|].
  intros [now|x] _ Hg2 _; [|done]. split_if; [done|].
  cas_then.
  - by constructor.
  - apply grounded_other. elem_cases Hif; match goal with H : _ = sp_lifecycle_status c |- _ =>
      rewrite <-H end; by apply (bool_decide_unpack _).
  - intros h3 Hg3 Hw. emit_then.
Qed.

(** * Preparation *)

Lemma not_persisted_grows h h' : grows h h' → not_persisted h → not_persisted h'.
Proof.
  intros Hg H c r Hin. assert (Hg' := Hg). destruct Hg as (es & -> & Hq).
  apply elem_of_app in Hin as [Hin|Hin]; [|by apply Hq in Hin as [_ ?]].
  destruct (H c r Hin) as (He & x & Hx & Hne). split; [done|]. exists x. split; [|done]. track.
Qed.

Lemma quiet_not_persisted h : quiet h → not_persisted h.
Proof. intros Hq c r Hin. by apply Hq in Hin as [_ ?]. Qed.

Lemma wp_destroy_payload codec i payload (Q : history → res unit → Prop) h :
  may_destroy_payload h payload → (∀ r h', grows h h' → Q h' r) →
  wpg (_destroy_payload codec i payload) Q h.
Proof. intros Hm HQ. destruct codec; apply wp_quiet_call; auto. Qed.

Lemma wp_destroy_commitment provider i commitment (Q : history → res unit → Prop) h :
  may_destroy_commitment h commitment → (∀ r h', grows h h' → Q h' r) →
  wpg (_destroy_commitment provider i commitment) Q h.
Proof. intros Hm HQ. destruct provider; apply wp_quiet_call; auto. Qed.

(** The commitment, and the payload, that this call had created. *)
Definition created_commitment (h : history) (commitment : KeyedCommitment) : Prop :=
  (∃ p i b, Event (CreateCommitmentFor p i b) (Ok commitment) ∈ h) ∨
  (∃ p r b, Event (CreateCommitment p r b) (Ok commitment) ∈ h).
Definition created_payload (h : history) (payload : ProtectedPayload) : Prop :=
  (∃ p i b, Event (ProtectFor p i b) (Ok payload) ∈ h) ∨
  (∃ p r b, Event (Protect p r b) (Ok payload) ∈ h).

Lemma created_commitment_grows h h' c : grows h h' → created_commitment h c → created_commitment h' c.
Proof. intros Hg [(p & i & b & H)|(p & i & b & H)]; [left|right]; exists p, i, b; track. Qed.
Lemma created_payload_grows h h' c : grows h h' → created_payload h c → created_payload h' c.
Proof. intros Hg [(p & i & b & H)|(p & i & b & H)]; [left|right]; exists p, i, b; track. Qed.

Lemma wp_preparation_cleanup i commitment protected failure (Q : history → res StoredProposal → Prop) h :
  not_persisted h → created_commitment h commitment →
  (∀ p, protected = Some p → created_payload h p) → (∀ e h', Q h' (Err e)) →
  wpg (_preparation_cleanup d i commitment protected failure) Q h.
Proof.
  intros Hn Hc Hp HE. unfold _preparation_cleanup. apply wp_bind.
  assert (∀ h' l, grows h h' → wpg
    (r ← attempt (_destroy_commitment (ad_commitment_provider d) i commitment);
     let failures := l ++ match r with Ok _ => [] | Err e => [("commitment"%py, type_name e)] end in
     match failures with
     | [] => Raise failure
     | (resource, exception_type) :: rest =>
         let summary := foldl (λ s '(resource, exception_type),
             s +:+ ", " +:+ resource +:+ "=" +:+ exception_type)%py
           (resource +:+ "=" +:+ exception_type)%py rest in
         Raise (add_note ("preparation cleanup failures: " +:+ summary)%py failure)
     end) Q h') as Hrest.
  { intros h' l Hg. apply wp_bind, wp_attempt, wp_destroy_commitment.
    - right. split; [by eapply not_persisted_grows|by eapply created_commitment_grows].
    - intros r h2 Hg2. simpl. by destruct (l ++ _) as [|[? ?] ?]; simpl. }
  destruct protected as [payload|]; [|by apply Hrest, grows_refl].
  apply wp_bind, wp_attempt, wp_destroy_payload.
  - right. split; [done|by apply Hp].
  - intros r h' Hg. by apply Hrest.
Qed.

Lemma wp_preparation_failed i commitment protected record failure
  (Q : history → res StoredProposal → Prop) h :
  created_commitment h commitment → (∀ p, protected = Some p → created_payload h p) →
  match record with
  | None => quiet h
  | Some r => i = mkProposalIdentity (sp_tenant_reference r) (sp_proposal_reference r) ∧
      ∃ h0 e, h = h0 ++ [Event (Store (Create r)) (Err e)] ∧ quiet h0
  end →
  (∀ c h', seen h' c → Q h' (Ok c)) → (∀ e h', Q h' (Err e)) →
  wpg (_preparation_failed d i commitment protected record failure) Q h.
Proof.
  intros Hc Hp Hr HQ HE. unfold _preparation_failed. destruct record as [r|].
  - destruct Hr as [-> (h0 & e & -> & Hq)]. apply wp_bind, wp_attempt, wp_quiet_call; [done..|].
    intros [found|x] _ Hg Hin; simpl in *.
    2:{ destruct (is_CancelledError failure); simpl; apply HE. }
    case_bool_decide as Hf.
    + destruct (is_CancelledError failure); simpl; [apply HE|]. apply HQ. subst.
      by eapply seen_get.
    + apply wp_preparation_cleanup; [|by eapply created_commitment_grows| |done].
      * intros c rr [[Hh|Hh]%elem_of_app|Hh]%elem_of_app.
        -- by apply Hq in Hh as [_ ?].
        -- apply list_elem_of_singleton in Hh. assert (Hop := f_equal ev_op Hh). simpl in Hop.
           injection Hop as ->. assert (Herr := f_equal failed Hh). destruct rr as [|x]; [done|].
           split; [by exists x|]. exists found. by split.
        -- apply list_elem_of_singleton in Hh. by apply (f_equal ev_op) in Hh.
      * intros q Hq'. eapply created_payload_grows; [exact Hg|by apply Hp].
  - apply wp_preparation_cleanup; auto using quiet_not_persisted.
Qed.

Lemma prepared_record_initial i prepared pr pa now protected commitment b :
  runtime_base (prepared_record d i prepared pr pa now protected commitment b) b →
  initial_record d (prepared_record d i prepared pr pa now protected commitment b).
Proof.
  intros Hb. constructor; simpl; eauto 10. constructor; simpl; try done.
  constructor; [by intros ? ?%elem_of_nil|]. intros r ->%list_elem_of_singleton. apply Hb.
Qed.

Lemma wp_create_commitment provider i payload (Q : history → res KeyedCommitment → Prop) h :
  (∀ c h', grows h h' → created_commitment h' c → Q h' (Ok c)) →
  (∀ e h', grows h h' → Q h' (Err e)) →
  wpg (_create_commitment provider i payload) Q h.
Proof.
  intros HQ HE. destruct provider; (apply wp_quiet_call; [done..|]);
    (intros [c|e] _ Hg Hin; [|by apply HE]); apply HQ; [done| |done|]; [right|left]; eauto.
Qed.

Lemma wp_protect_payload codec i payload (Q : history → res ProtectedPayload → Prop) h :
  (∀ c h', grows h h' → created_payload h' c → Q h' (Ok c)) →
  (∀ e h', grows h h' → Q h' (Err e)) →
  wpg (_protect_payload codec i payload) Q h.
Proof.
  intros HQ HE. destruct codec; (apply wp_quiet_call; [done..|]);
    (intros [c|e] _ Hg Hin; [|by apply HE]); apply HQ; [done| |done|]; [right|left]; eauto.
Qed.

(** What a program that gives a record back has to show of it. *)
Definition returns_seen (h : history) (r : res StoredProposal) : Prop :=
  match r with Ok c => seen h c | Err _ => True end.

Lemma persist_prepared_seen self t prepared pr pa now p h :
  quiet h → wpg (_persist_prepared self d t prepared pr pa now p) returns_seen h.
Proof.
  intros Hq. unfold _persist_prepared. apply wp_bind.
  assert (wpg match p with None => call (NewIdentifier "proposal") | Some r => Ret r end
    (λ h' r, grows h h') h) as Href.
  { destruct p; [apply grows_refl|]. by apply wp_quiet_call. }
  eapply wp_mono; [exact Href|]. intros h1 [resolved|e] _ Hg1; [|done]. clear Href.
  apply wp_bind, wp_lift_ok; [|done]. intros tenant _.
  apply wp_bind, wp_lift_ok; [|done]. intros reference _.
  apply wp_bind, wp_lift_ok; [|done]. intros canonical _.
  apply wp_bind, wp_lift_ok; [|done]. intros input _.
  apply wp_bind, wp_create_commitment; [|done]. intros commitment h2 Hg2 Hc.
  apply wp_bind, wp_attempt, wp_protect_payload.
  2:{ intros failure h3 Hg3. apply wp_preparation_failed; try done; [|track].
      by eapply created_commitment_grows. }
  intros payload h3 Hg3 Hp. apply wp_bind, wp_attempt, wp_new_base.
  2:{ intros failure h4 Hg4. apply wp_preparation_failed; try done; [| |track].
      - eapply created_commitment_grows; [|exact Hc]. grow.
      - intros q [= <-]. by eapply created_payload_grows. }
  intros b h4 Hg4 [Hb1 Hb2 Hb3 Hb4 Hb5 Hb6].
  set (record := prepared_record _ _ _ _ _ _ _ _ _).
  apply wp_bind, wp_attempt, wp_call.
  { split; [|track]. apply prepared_record_initial. constructor; try done. by left. }
  intros [[]|failure] _.
  - simpl. right. left. apply elem_last.
  - assert (∀ e, e ∈ h4 → e ∈ h4 ++ [Event (Store (Create record)) (Err failure)]) as Hsub
      by (intros; by apply elem_before).
    apply wp_preparation_failed; try done.
    + destruct (created_commitment_grows h2 h4 commitment ltac:(grow) Hc) as [(x & y & z & H)|(x & y & z & H)];
        [left|right]; exists x, y, z; by apply Hsub.
    + intros q [= <-].
      destruct (created_payload_grows h3 h4 payload Hg4 Hp) as [(x & y & z & H)|(x & y & z & H)];
        [left|right]; exists x, y, z; by apply Hsub.
    + split; [done|]. eexists _, _. split; [done|]. track.
Qed.

Lemma wp_persist_prepared self t prepared pr pa now p (Q : history → res StoredProposal → Prop) h :
  quiet h → (∀ c h', (∀ e, e ∈ h → e ∈ h') → seen h' c → Q h' (Ok c)) → (∀ e h', Q h' (Err e)) →
  wpg (_persist_prepared self d t prepared pr pa now p) Q h.
Proof.
  intros Hq HQ HE. eapply wp_mono; [by apply persist_prepared_seen|].
  intros h' [c|e] [es ->] Hs; [|apply HE]. apply HQ; [|done]. intros x Hx. apply elem_of_app. by left.
Qed.

Lemma safe_prepare self t command pr pa p h :
  quiet h → safe (prepare self d t command pr pa p) h.
Proof.
  intros Hq. unfold prepare. apply wp_bind, wp_quiet_call; [done..|]. intros [now|e] _ Hg1 _; [|done].
  apply wp_bind, wp_lift_ok; [|done]. intros tenant _.
  apply wp_bind, wp_quiet_call; [done..|]. intros [az|e] _ Hg2 _; [|done].
  split_if; [done|]. apply wp_bind, wp_quiet_call; [done..|]. intros [prepared|e] _ Hg3 _; [|done].
  apply wp_bind, wp_lift_ok; [|done]. intros _ _.
  apply wp_bind, wp_persist_prepared; [track| |done]. intros c h4 _ Hs. by emit_then.
Qed.

(** * Execution *)

Lemma safe_supersede_stale self c replacement now h :
  quiet h → seen h c → live_record c → record_erased c = false →
  sp_action_type c = ad_action_type d → sp_lifecycle_status c = AUTHORIZED →
  safe (_supersede_stale self d c replacement now) h.
Proof.
  intros Hq Hs Hl He Ha Hst. unfold _supersede_stale.
  apply wp_bind, wp_new_receipt_base; [by left| |done]. intros b h1 Hg1 Hb.
  set (stale := next_revision c _).
  assert (Hstep : lifecycle_step d c stale) by by constructor.
  assert (Hl' := step_live d c _ Hl Hstep). assert (He' := step_not_erased d c _ Hstep He).
  cas_then; [exact Hstep|apply grounded_other; rewrite Hst; by apply (bool_decide_unpack _)|].
  intros h2 Hg2 Hw. destruct replacement as [prepared|].
  2:{ apply wp_bind, wp_ret. cbv beta iota. emit_then. }
  apply wp_bind. destruct (sp_requesting_principal c) as [principal|]; [|done].
  apply wp_bind, wp_lift_ok; [|done]. intros _ _.
  apply wp_bind, wp_persist_prepared; [track| |done]. intros fresh h3 Hsub Hfresh.
  assert (Hseen : seen h3 stale) by (eapply seen_mono; [exact Hsub|by apply seen_wrote]).
  apply wp_bind, wp_cas; [done..| | | | |].
  - by constructor.
  - apply grounded_other. by apply (bool_decide_unpack _).
  - intros h4 Hg4 Hw4. apply wp_ret. cbv beta iota. emit_then.
  - intros h4 Hg4. apply wp_ret. cbv beta iota. emit_then.
  - done.
Qed.


Definition committed (h : history) (c : StoredProposal) (commitment : KeyedCommitment) : Prop :=
  ∃ canonical payload,
    commitment_payload_v1 (sp_proposal_reference c) canonical = Ok payload ∧
    ((∃ port i, Event (VerifyCommitmentFor port i payload commitment) (Ok true) ∈ h) ∨
     (∃ port, Event (VerifyCommitment port (sp_proposal_reference c) payload commitment) (Ok true) ∈ h)).

Lemma committed_grows h h' c k : grows h h' → committed h c k → committed h' c k.
Proof.
  intros Hg (canonical & payload & Hp & Hv). exists canonical, payload. split; [done|].
  destruct Hv as [(port & i & H)|(port & H)]; [left|right]; [exists port, i|exists port]; track.
Qed.

Lemma wp_load_private c (Q : history → res (option PyModel) → Prop) h :
  (∀ s k h', grows h h' → sp_commitment c = Some k → committed h' c k → Q h' (Ok (Some s))) →
  (∀ h', grows h h' → Q h' (Ok None)) →
  (∀ e h', Q h' (Err e)) →
  wpg (_load_private d c) Q h.
Proof.
  intros HS HN HE. unfold _load_private.
  destruct (sp_protected_private_snapshot c) as [payload|]; [|apply HN, grows_refl].
  destruct (sp_commitment c) as [k|]; [|apply HN, grows_refl].
  apply wp_bind, wp_attempt.
  assert (wpg (_unprotect_payload (ad_protection_codec d)
    (mkProposalIdentity (sp_tenant_reference c) (sp_proposal_reference c)) payload)
    (λ h' _, grows h h') h) as Hun by (destruct (ad_protection_codec d); by apply wp_quiet_call).
  eapply wp_mono; [exact Hun|]. clear Hun. intros h1 [canonical|e] _ Hg1.
  2:{ destruct (is_KeyError_or_ValueError e); simpl; auto. }
  apply wp_bind, wp_lift_ok; [|by intros; apply HE]. intros payload1 Hp.
  apply wp_bind.
  assert (wpg (_verify_commitment (ad_commitment_provider d)
    (mkProposalIdentity (sp_tenant_reference c) (sp_proposal_reference c)) payload1 k)
    (λ h' r, grows h1 h' ∧ (r = Ok true → committed h' c k)) h1) as Hver.
  { destruct (ad_commitment_provider d); (apply wp_quiet_call; [done..|]);
      intros r _ Hg Hin; (split; [done|]); intros ->; exists canonical, payload1; (split; [done|]);
      [right|left]; eauto. }
  eapply wp_mono; [exact Hver|]. clear Hver. intros h2 [v|e] _ [Hg2 Hv]; [|apply HE].
  destruct v; [|apply wp_ret, HN; grow].
  apply wp_bind, wp_quiet_call; [done..|]. intros [s|e] _ Hg3 _; [|apply HE].
  apply wp_ret. apply (HS s k); [grow|done|]. by eapply committed_grows, Hv.
Qed.

Lemma wp_evaluate_authority c b at_ (Q : history → res _ → Prop) h :
  (∀ r h', grows h h' →
     Event (Evaluate (ad_authority_evaluator d) b
       (_valid_authority_evidence (sp_authority_evidence c) b at_)) (Ok r) ∈ h' →
     Q h' (Ok (_valid_authority_evidence (sp_authority_evidence c) b at_, r))) →
  (∀ e h', Q h' (Err e)) →
  wpg (_evaluate_authority d c b at_) Q h.
Proof.
  intros HQ HE. unfold _evaluate_authority. apply wp_bind, wp_quiet_call; [done..| |].
  - split; [done|]. intros e He. by apply valid_evidence_bound in He as (_ & ? & _).
  - intros [r|e] _ Hg Hin; [|apply HE]. apply wp_ret. by apply HQ.
Qed.

(** What is known of a proposal once the host allowed its execution. *)
Record cleared (h : history) (c : StoredProposal) (commitment : KeyedCommitment)
  (evidence : list AuthorityEvidence) (resolved : ResolvedState) : Prop := {
  cleared_seen : seen h c;
  cleared_live : live_record c;
  cleared_not_erased : record_erased c = false;
  cleared_action : sp_action_type c = ad_action_type d;
  cleared_status : sp_lifecycle_status c = AUTHORIZED;
  cleared_commitment : sp_commitment c = Some commitment;
  cleared_evidence : evidence `sublist_of` sp_authority_evidence c;
  cleared_evaluated : ∃ r, Event (Evaluate (ad_authority_evaluator d)
    (authority_binding d c commitment) evidence) (Ok r) ∈ h ∧ au_satisfied r = true;
  cleared_committed : committed h c commitment;
  cleared_resolved : ∃ s x, Event (Resolve (ad_state_resolver d) s x) (Ok resolved) ∈ h;
  cleared_undrifted : rs_materially_drifted resolved = false;
  cleared_class : model_class (rs_current_snapshot resolved) = ad_private_snapshot_model d;
  cleared_reauthorized : ∃ x az, Event (CanExecute (ad_authorization d)
    (rs_current_snapshot resolved) x) (Ok az) ∈ h ∧ az_allowed az = true
}.

Lemma filter_sublist {A} (f : A → bool) (l : list A) : List.filter f l `sublist_of` l.
Proof. induction l as [|x l IH]; simpl; [constructor|]. destruct (f x); by constructor. Qed.

Lemma valid_evidence_fixed es b at_ e :
  _valid_authority_evidence es b at_ = es → e ∈ es →
  evidence_bound e b ∧ (ae_issued_at e <= at_ < ae_expires_at e)%Z.
Proof. intros Hf He. rewrite <-Hf in He. by apply valid_evidence_bound in He as [_ ?]. Qed.

Lemma safe_execute_admitted self c u k evidence resolved admitted_at h :
  quiet h → cleared h c k evidence resolved → lifecycle_step d c u →
  sp_lifecycle_status u = EXECUTING →
  (∃ x, Event (Store (AdmitExecution (sp_tenant_reference c) (sp_proposal_reference c)
     (sp_revision c) admitted_at u)) (Ok x) ∈ h ∧ x ∈ [ACQUIRED; OWNED_BY_PROPOSAL]) →
  safe (execute_admitted self d c u (authority_binding d c k) evidence resolved admitted_at) h.
Proof.
  intros Hq Hcl Hstep Hex (claim & Hadm & Hclaim). destruct Hcl.
  assert (Hwrote : wrote h u) by (right; right; eauto 10).
  assert (Hlu := step_live d c u cleared_live0 Hstep).
  assert (Heu := step_not_erased d c u Hstep cleared_not_erased0).
  assert (Hau : sp_action_type u = ad_action_type d).
  { destruct (step_extends d c u Hstep) as (rs & es & Hext & _).
    assert (Hf := ext_fixed _ _ _ _ Hext). unfold fixed_part, proposal_identity in Hf. congruence. }
  unfold execute_admitted. apply wp_bind, wp_quiet_call; [done..|]. intros [now|e] _ Hg1 _; [|done].
  set (h1 := h ++ [_]) in *. cbv beta iota.
  destruct (Z.leb_spec (sp_expires_at c) now) as [|Hexp]; cbv beta iota;
    [|case_bool_decide as Hval; simpl negb; cbv beta iota;
      [destruct (Z.leb_spec (admitted_at + ad_verification_lease_duration d) now) as [|Hlease];
       cbv beta iota|]].
  1,2,4: apply wp_bind, wp_lift_ok; [|done]; intros x [= <-];
    (apply safe_settle_execution; [track|done..|]); right; (split; [track|done]).
  apply wp_bind, wp_lift_ok; [|done]. intros ctx Hctx.
  apply wp_bind, wp_call.
  - split; [done|]. exists c, u, k, evidence, resolved, admitted_at, now. constructor; try done.
    + track.
    + intros e He. by eapply valid_evidence_fixed.
    + destruct cleared_evaluated0 as (r & Hr & Hs). exists r. split; [track|done].
    + by eapply committed_grows.
    + destruct cleared_resolved0 as (s & x & Hr). exists s, x. track.
    + destruct cleared_reauthorized0 as (x & az & Hr & Hs). exists x, az. split; [track|done].
    + exists claim. split; [track|done].
    + by exists h.
    + track.
  - intros [x|e] _; [|done]. set (h2 := h1 ++ [_]).
    apply wp_bind, wp_quiet_call; [done..|]. intros [settled|e] _ Hg3 _; [|done].
    apply safe_settle_execution; try done.
    + eapply (seen_grows h2); [done|]. apply seen_wrote. eapply wrote_mono; [|exact Hwrote].
      intros e He. unfold h2. apply elem_before. unfold h1. by apply elem_before.
    + left. do 3 eexists. split; [eapply grows_elem; [exact Hg3|]; apply elem_last|].
      by eapply context_for_step, execution_context_for.
Qed.

Lemma safe_execute_resolved self c k resolved h :
  quiet h → seen h c → live_record c → record_erased c = false →
  sp_action_type c = ad_action_type d → sp_lifecycle_status c = AUTHORIZED →
  sp_commitment c = Some k → committed h c k →
  (∃ s x, Event (Resolve (ad_state_resolver d) s x) (Ok resolved) ∈ h) →
  rs_materially_drifted resolved = false →
  model_class (rs_current_snapshot resolved) = ad_private_snapshot_model d →
  safe (execute_resolved self d c (authority_binding d c k) resolved) h.
Proof.
  intros Hq Hs Hl He Ha Hst Hk Hcom (s0 & x0 & Hres) Hdrift Hclass. unfold execute_resolved.
  apply wp_bind, wp_quiet_call; [done..|]. intros [at1|e] _ Hg1 _; [|done].
  split_if; [apply safe_expire_unexecuted; [track|done..]|].
  apply wp_bind, wp_evaluate_authority; [|done]. intros r h2 Hg2 Heval. cbv beta iota.
  set (evidence := _valid_authority_evidence _ _ _) in *.
  split_if; [apply safe_block; [track|done..]|]. to_prop.
  apply wp_bind, wp_lift_ok; [|done]. intros ctx Hctx.
  apply wp_bind, wp_quiet_call; [done..|]. intros [az|e] _ Hg3 Haz; [|done].
  split_if; [apply safe_block; [track|done..]|]. to_prop.
  apply wp_bind, wp_quiet_call; [done..|]. intros [at2|e] _ Hg4 _; [|done].
  split_if; [apply safe_expire_unexecuted; [track|done..]|].
  split_if; [apply safe_block; [track|done..]|]. to_prop.
  apply wp_bind, wp_new_receipt_base; [by left| |done]. intros b h5 Hg5 Hb.
  set (executing := executing_record _ _ _ _ _).
  assert (Hstep : lifecycle_step d c executing) by by constructor.
  apply wp_bind, wp_quiet_call; [done..| |].
  { exists c. split_and!; try done. constructor; try done. track. }
  intros [claim|e] _ Hg6 Hclaim; [|done].
  assert (∀ x, claim = x → x ∈ [ACQUIRED; OWNED_BY_PROPOSAL] → safe
    (execute_admitted self d c executing (authority_binding d c k) evidence resolved at2)
    (h5 ++ [Event (Store (AdmitExecution (sp_tenant_reference c) (sp_proposal_reference c)
              (sp_revision c) at2 executing)) (Ok claim)])) as Hadmitted.
  { intros x -> Hx. apply safe_execute_admitted; try done; [track| |by exists x].
    constructor; try done.
    - track.
    - apply filter_sublist.
    - exists r. split; [track|done].
    - eapply committed_grows; [|exact Hcom]. grow.
    - exists s0, x0. track.
    - exists ctx, az. split; [track|done]. }
  destruct claim.
  - apply (Hadmitted ACQUIRED); [done|by left].
  - apply (Hadmitted OWNED_BY_PROPOSAL); [done|by right; left].
  - by apply safe_required_then.
  - done.
  - by apply safe_required_then.
Qed.

Lemma safe_execute self t p h : quiet h → safe (execute self d t p) h.
Proof.
  intros Hq. unfold execute. apply wp_bind, wp_required; [|done].
  intros c h1 Hg1 Hin Hwf Hkey. apply safe_require_live; [done|]. intros Hl He Ha.
  split_if; [done|]. split_if; [done|]. to_prop.
  apply wp_bind, wp_quiet_call; [done..|]. intros [now|e] _ Hg2 _; [|done].
  split_if; [apply safe_expire_unexecuted; [track|done..]|].
  apply wp_bind, wp_load_private; [|intros h3 Hg3; apply safe_block; [track|done..]|done].
  intros snapshot k h3 Hg3 Hk Hcom. cbv beta iota. rewrite Hk.
  apply wp_bind, wp_evaluate_authority; [|done]. intros r h4 Hg4 _. cbv beta iota.
  split_if; [apply safe_block; [track|done..]|]. to_prop.
  apply wp_bind, wp_lift_ok; [|done]. intros ctx _.
  apply wp_bind, wp_quiet_call; [done..|]. intros [resolved|e] _ Hg5 Hres; [|done].
  split_if; [done|]. to_prop. split_if; [apply safe_supersede_stale; [track|track|done..]|].
  apply safe_execute_resolved; try done; [track|track| |eauto].
  eapply committed_grows; [|exact Hcom]. grow.
Qed.

(** * Reads and erasure *)

Lemma safe_authorize_read {A} c p x (f : prog A) h :
  (∀ h', grows h h' → safe f h') → safe (_ ← authorize_read d c p x; f) h.
Proof.
  intros Hf. apply wp_bind. unfold authorize_read. split_if; [done|].
  apply wp_bind, wp_quiet_call; [done..|]. intros [ok|e] _ Hg _; [|done].
  destruct ok; [|done]. apply wp_ret. by apply Hf.
Qed.

Lemma safe_read p x h : safe (read d p x) h.
Proof.
  unfold read. apply wp_bind, wp_required; [|done]. intros c h1 Hg1 _ _ _.
  by apply safe_authorize_read.
Qed.

Lemma safe_read_recovery p x h : safe (read_recovery d p x) h.
Proof.
  unfold read_recovery. apply wp_bind, wp_required; [|done]. intros c h1 Hg1 _ _ _.
  apply safe_authorize_read. intros h2 _. apply wp_bind, wp_quiet_call; [done..|].
  intros [now|e] _ _ _; [|done]. split_if; [done|].
  apply wp_bind. apply (wp_mono _ _ _ (λ _ _, True)); [|by intros h' [[]|] _ _].
  unfold _read_effect_owner. apply wp_bind, wp_attempt, wp_quiet_call; [done..|].
  intros [[owner|]|e] _ _ _; [|done|by cbv beta iota; destruct (is_Exception e)]. cbv beta iota.
  split_if; [done|]. apply wp_bind, wp_quiet_call; [done..|]. intros [o|e] _ _ _; [|done].
  apply wp_bind. set (Q := λ (h' : history) (r : res (option StoredProposal)), _).
  assert (HQ : ∀ h' r, Q h' r).
  { intros h' [s|e']; [|done]. unfold Q. apply wp_bind, wp_attempt, wp_quiet_call; [done..|].
    intros [confirmed|e'] _ _ _; [|by cbv beta iota; destruct (is_Exception e')]. cbv beta iota.
    split_if; [done|]. by destruct s. }
  destruct o as [o|]; [|apply (HQ _ (Ok None))]. split_if; [|apply (HQ _ (Ok None))].
  apply wp_bind, wp_quiet_call; [done..|]. intros [ok|e] _ _ _; [|done].
  apply (HQ _ (Ok (if ok : bool then Some o else None))).
Qed.

Lemma safe_export_evidence dump sha256 self p x h : safe (export_evidence dump sha256 self d p x) h.
Proof.
  unfold export_evidence. apply wp_bind, wp_required; [|done]. intros c h1 Hg1 _ _ _.
  apply safe_authorize_read. intros h2 _. apply wp_bind, wp_quiet_call; [done..|].
  intros [now|e] _ _ _; [|done]. by apply wp_lift.
Qed.

Lemma safe_observation_context p x h : safe (observation_context d p x) h.
Proof.
  unfold observation_context. apply wp_bind, wp_required; [|done]. intros c h1 Hg1 _ _ _.
  apply safe_authorize_read. intros h2 _. split_if; [done|].
  apply wp_bind, wp_quiet_call; [done..|]. intros [now|e] _ _ _; [|done]. by apply wp_lift.
Qed.

Lemma safe_erase_pending p x c c0 now h :
  erasure_authorized h → seen h c0 → proposal_key c0 = proposal_key c →
  sp_action_type c0 = ad_action_type d → seen h c → erasure_marked h c →
  safe (erase_pending d p x c now) h.
Proof.
  intros Hau Hs0 Hk Ha Hs Hm. unfold erase_pending.
  assert (Hau' : ∀ h', grows h h' → erasure_authorized h')
    by (intros h' Hg; destruct Hau as (r & y & H); exists r, y; track).
  assert (Hm' : ∀ h', grows h h' → erasure_marked h' c)
    by (intros h' Hg; destruct Hm as [H|(n & y & H)]; [by left|right; exists n, y; track]).
  assert (Hrest : ∀ h', grows h h' → safe
    (_ ← match sp_commitment c with
         | None => Ret ()
         | Some commitment => _destroy_commitment (ad_commitment_provider d)
             (mkProposalIdentity (sp_tenant_reference c) (sp_proposal_reference c)) commitment
         end;
     completed ← call (Store (CompleteErasure (sp_tenant_reference c) (sp_proposal_reference c)
                   (sp_revision c) now));
     if negb completed then
       current ← _required (rd_tenant_reference x) p;
       Ret (plain_result current
              (if bool_decide (is_Some (sp_erased_at current)) then OO_ERASED else OO_CONFLICT))
     else
       erased ← _required (rd_tenant_reference x) p;
       _ ← _emit erased PROPOSAL_ERASED now None; Ret (plain_result erased OO_ERASED)) h').
  { intros h1 Hg1. apply wp_bind.
    assert (Hend : ∀ h', grows h1 h' → safe
      (completed ← call (Store (CompleteErasure (sp_tenant_reference c) (sp_proposal_reference c)
                    (sp_revision c) now));
       if negb completed then
         current ← _required (rd_tenant_reference x) p;
         Ret (plain_result current
                (if bool_decide (is_Some (sp_erased_at current)) then OO_ERASED else OO_CONFLICT))
       else
         erased ← _required (rd_tenant_reference x) p;
         _ ← _emit erased PROPOSAL_ERASED now None; Ret (plain_result erased OO_ERASED)) h').
    { intros h2 Hg2. apply wp_bind, wp_quiet_call; [done..| |].
      - split; [apply Hau'; grow|]. split; [exists c0|exists c]; split_and!; try done; try track.
        apply Hm'. grow.
      - intros [[]|e] _ Hg3 _; [|by apply safe_required_then|done].
        apply wp_bind, wp_required; [|done]. intros c2 h3 Hg4 Hin _ _. emit_then. }
    destruct (sp_commitment c) as [k|] eqn:Ek; [|by apply Hend, grows_refl].
    apply wp_destroy_commitment.
    - left. split; [by apply Hau'|]. exists c. split_and!; [track|by apply Hm'|done].
    - intros [[]|e] h2 Hg2; [by apply Hend|done]. }
  apply wp_bind. destruct (sp_protected_private_snapshot c) as [payload|] eqn:Ep;
    [|by apply Hrest, grows_refl].
  apply wp_destroy_payload.
  - left. split; [done|]. exists c. by split_and!.
  - intros [[]|e] h1 Hg1; [by apply Hrest|done].
Qed.

Lemma safe_erase self p x h : safe (erase self d p x) h.
Proof.
  unfold erase. split_if; [done|].
  apply wp_bind, wp_quiet_call; [done..|]. intros [ok|e] _ Hg1 Hok; [|done].
  destruct ok; [|done]. assert (Hau : erasure_authorized (h ++ [Event (AuthorizeErasure
    (ad_retention d) p x) (Ok true)])) by (do 2 eexists; exact Hok).
  simpl negb. cbv beta iota. set (h1 := h ++ [_]) in *.
  assert (Hau' : ∀ h', grows h1 h' → erasure_authorized h')
    by (intros h' Hg; destruct Hau as (r & y & H); exists r, y; track).
  apply wp_bind, wp_required; [|done]. intros c h2 Hg2 Hin Hwf Hkey.
  split_if; [done|]. split_if; [done|]. to_prop.
  apply wp_bind, wp_quiet_call; [done..|]. intros [now|e] _ Hg3 _; [|done].
  split_if; to_prop.
  { apply (safe_erase_pending _ _ _ c); [apply Hau'; grow|track|done|done|track|by left]. }
  apply wp_bind, wp_quiet_call; [done..| |].
  { split; [apply Hau'; grow|]. exists c. split_and!; [track|done..]. }
  intros [marked|e] _ Hg4 Hmark; [|done].
  apply wp_bind, wp_required; [|done]. intros c2 h5 Hg5 Hin2 Hwf2 Hkey2.
  assert (Hkeys : proposal_key c = proposal_key c2) by congruence.
  assert (Hpend : ∀ hh, grows h5 hh → erasure_marked hh c2 →
    safe (erase_pending d p x c2 now) hh).
  { intros hh Hgg Hm. apply (safe_erase_pending _ _ _ c); [apply Hau'; grow|track|done|done|track|done]. }
  destruct marked.
  - apply Hpend; [apply grows_refl|]. right. exists (sp_revision c), now.
    unfold proposal_key in Hkeys. injection Hkeys as <- <-. track.
  - split_if; [done|]. split_if; [done|]. to_prop. apply Hpend; [apply grows_refl|]. left.
    by destruct (None_or_Some (sp_erasure_pending_at c2)).
Qed.

End Guarantee.
