(* ===== verification/RuntimeCalls.v ===== *)
(** The public operations of the runtime as one type of calls, and what every
    call guarantees ([RuntimeGuarantee] for each operation, in one place). *)

From S2P Require Import Prelude Models Canonical Authority Receipts Registry StoreBase StoreContract.
From S2P Require Import MemoryStore Recovery Evidence Program Runtime Scenario Lifecycle RuntimeGuarantee.

(** One call of a public method of [ActionRuntime]. *)
Inductive runtime_call :=
  | CallPrepare (tenant_reference : pystr) (command : PyModel)
      (requesting_principal : RequestingPrincipal) (proposing_agent : option ProposingAgent)
      (proposal_reference : option pystr)
  | CallRecordAuthority (evidence : AuthorityEvidence) (authenticated_authority : ConfirmingAuthority)
      (proposal_reference : option pystr)
  | CallExpireDue (tenant_reference proposal_reference : pystr)
  | CallExecute (tenant_reference proposal_reference : pystr)
  | CallReconcile (tenant_reference proposal_reference : pystr)
  | CallResumeVerification (tenant_reference proposal_reference : pystr) (expected_revision : Z)
      (operator : RecoveryOperator) (intervention_reference : pystr)
  | CallRead (proposal_reference : pystr) (context : ReadContext)
  | CallReadRecovery (proposal_reference : pystr) (context : ReadContext)
  | CallExportEvidence (dump : ActionEvidenceBundle → JsonObject) (sha256 : bytes → pystr)
      (proposal_reference : pystr) (context : ReadContext)
  | CallObservationContext (proposal_reference : pystr) (context : ReadContext)
  | CallErase (proposal_reference : pystr) (context : ReadContext).

Section Calls.
Context `{U : Unicode}.

Definition forget {A} (p : prog A) : prog unit := _ ← p; Ret ().

Definition call_prog (self : ActionRuntime) (d : ActionDefinition) (c : runtime_call) : prog unit :=
  match c with
  | CallPrepare t command pr pa p => forget (prepare self d t command pr pa p)
  | CallRecordAuthority e a p => forget (record_authority self d e a p)
  | CallExpireDue t p => forget (expire_due self d t p)
  | CallExecute t p => forget (execute self d t p)
  | CallReconcile t p => forget (reconcile self d t p)
  | CallResumeVerification t p n o i => forget (resume_verification self d t p n o i)
  | CallRead p x => forget (read d p x)
  | CallReadRecovery p x => forget (read_recovery d p x)
  | CallExportEvidence dump sha256 p x => forget (export_evidence dump sha256 self d p x)
  | CallObservationContext p x => forget (observation_context d p x)
  | CallErase p x => forget (erase self d p x)
  end.

Abbreviation safe d p h := (wp (guarantee d) rely p (λ _ _, True) h).

Lemma safe_forget {A} d (p : prog A) h : safe d p h → safe d (forget p) h.
Proof. intros Hp. apply wp_bind. eapply wp_mono; [exact Hp|]. by intros h' [|] _ _. Qed.

Lemma call_safe self d c : safe d (call_prog self d c) [].
Proof.
  destruct c; apply safe_forget; auto using safe_prepare, safe_record_authority, safe_expire_due,
    safe_execute, safe_reconcile, safe_resume, safe_read, safe_read_recovery,
    safe_export_evidence, safe_observation_context, safe_erase, quiet_nil.
Qed.

(** The records the store gave a call are well-formed. *)
Definition reads_well_formed (es : history) : Prop :=
  ∀ t p c, Event (Store (Get t p)) (Ok (Some c)) ∈ es → well_formed c.

Lemma call_guarantee self d c es q n e :
  runs (call_prog self d c) es q → reads_well_formed es → es !! n = Some e →
  guarantee d (take n es) (ev_op e).
Proof.
  intros Hr Hwf Hn. destruct (wp_runs _ _ _ q es [] _ (call_safe self d c) Hr) as [_ HG].
  - unfold rely. intros es1 e' es2 -> t p x ->. apply (Hwf t p). apply elem_of_app. right. apply elem_of_cons. by left.
  - apply (HG (take n es) e (drop (S n) es)). by rewrite take_drop_middle.
Qed.

(** * Bounded calls *)

(** [p] performs at most [n] operations, whatever they answer. *)
Fixpoint at_most (n : nat) {A} (p : prog A) : Prop :=
  match p with
  | Ret _ | Raise _ => True
  | Vis o k => match n with O => False | S m => ∀ r, at_most m (k r) end
  end.

Lemma at_most_mono n m {A} (p : prog A) : n ≤ m → at_most n p → at_most m p.
Proof.
  revert m p. induction n as [|n IH]; intros m [a|e|o k] Hm Hp; try done; try (by destruct m).
  destruct m as [|m]; [lia|]. simpl in *. intros r. apply IH; [lia|done].
Qed.

Lemma at_most_bind n m {A B} (p : prog A) (f : A → prog B) :
  at_most n p → (∀ a, at_most m (f a)) → at_most (n + m) (p ≫= f).
Proof.
  revert p. induction n as [|n IH]; intros [a|e|o k] Hp Hf; try done.
  - apply Hf.
  - by destruct m.
  - apply (at_most_mono m); [lia|apply Hf].
  - intros r. apply (IH (k r)); [apply Hp|done].
Qed.

Lemma at_most_attempt n {A} (p : prog A) : at_most n p → at_most n (attempt p).
Proof.
  revert p. induction n as [|n IH]; intros [a|e|o k] Hp; try done; simpl in *.
  intros r. by apply IH.
Qed.

Lemma at_most_call o : at_most 1 (call o).
Proof. intros [|]; done. Qed.

Lemma at_most_lift n {A} (r : res A) : at_most n (lift r).
Proof. by destruct r, n. Qed.

Lemma at_most_runs n {A} (p q : prog A) es : at_most n p → runs p es q → length es ≤ n.
Proof.
  intros Hp Hr. revert n Hp. induction Hr as [p|o k r es q Hr IH]; intros n Hp; simpl; [lia|].
  destruct n as [|n]; [done|]. simpl in Hp. specialize (IH n (Hp r)). lia.
Qed.


Lemma at_most_done n {A} (a : A) : at_most n (Ret a).
Proof. by destruct n. Qed.
Lemma at_most_raise n {A} (e : exn) : at_most n (@Raise A e).
Proof. by destruct n. Qed.

Lemma at_most_then k n m {A B} (p : prog A) (f : A → prog B) :
  at_most k p → k + m ≤ n → (∀ a, at_most m (f a)) → at_most n (p ≫= f).
Proof. intros Hp Hn Hf. eapply at_most_mono; [exact Hn|]. by apply at_most_bind. Qed.

Lemma at_most_required t p : at_most 1 (_required t p).
Proof. intros [[c|]|e]; simpl; try done. by destruct (negb _ || _). Qed.
Lemma at_most_cas c u : at_most 1 (_cas c u).
Proof. apply at_most_call. Qed.
Lemma at_most_emit c ty at_ reason : at_most 1 (_emit c ty at_ reason).
Proof. intros [[]|e]; simpl; [done|]. by destruct (is_Exception e). Qed.
Lemma at_most_base self r c at_ x reason : at_most 1 (new_receipt_base self r c at_ x reason).
Proof. intros [new|e]; simpl; [|done]. by repeat (destruct (SafeReference _); simpl). Qed.
Lemma at_most_destroy_payload codec i p : at_most 1 (_destroy_payload codec i p).
Proof. destruct codec; apply at_most_call. Qed.
Lemma at_most_destroy_commitment x i k : at_most 1 (_destroy_commitment x i k).
Proof. destruct x; apply at_most_call. Qed.
Lemma at_most_create_commitment x i b : at_most 1 (_create_commitment x i b).
Proof. destruct x; apply at_most_call. Qed.
Lemma at_most_verify_commitment x i b k : at_most 1 (_verify_commitment x i b k).
Proof. destruct x; apply at_most_call. Qed.
Lemma at_most_protect codec i b : at_most 1 (_protect_payload codec i b).
Proof. destruct codec; apply at_most_call. Qed.
Lemma at_most_unprotect codec i p : at_most 1 (_unprotect_payload codec i p).
Proof. destruct codec; apply at_most_call. Qed.

(** The first part of a bind: free, or one operation. *)
Ltac one :=
  first [apply at_most_lift | apply at_most_call | apply at_most_required | apply at_most_cas
    | apply at_most_emit | apply at_most_base | apply at_most_destroy_payload
    | apply at_most_destroy_commitment | apply at_most_create_commitment
    | apply at_most_verify_commitment | apply at_most_protect | apply at_most_unprotect
    | apply at_most_attempt; one].

(** Walk through a program whose parts have bounds. *)
Ltac bounded :=
  cbv beta iota zeta;
  match goal with
  | |- at_most _ (Ret _) => apply at_most_done
  | |- at_most _ (Raise _) => apply at_most_raise
  | |- at_most _ (raise _) => apply at_most_raise
  | |- at_most _ (lift _) => apply at_most_lift
  | |- at_most ?n (mbind _ (lift _)) =>
      eapply (at_most_then 0 n n); [apply at_most_lift|lia|intros ?; bounded]
  | |- at_most (S ?n) (_ ≫= _) => eapply (at_most_then 1 (S n) n); [one|lia|intros ?; bounded]
  | |- at_most _ (if ?b then _ else _) => destruct b; bounded
  | |- at_most _ (match ?x with _ => _ end) => destruct x; bounded
  | _ => idtac
  end.

Lemma at_most_expire_unexecuted c : at_most 1 (expire_unexecuted c).
Proof. unfold expire_unexecuted. bounded. Qed.
Lemma at_most_block self d c now reason : at_most 3 (_block self d c now reason).
Proof. unfold _block. bounded. Qed.
Lemma at_most_settle_execution self d c x now : at_most 3 (_settle_execution self d c x now).
Proof. unfold _settle_execution. bounded. Qed.
Lemma at_most_settle_verification self d c v now : at_most 3 (_settle_verification self d c v now).
Proof. unfold _settle_verification. bounded. Qed.
Lemma at_most_expire_due self d t p : at_most 4 (expire_due self d t p).
Proof. unfold expire_due. bounded. Qed.


(** A part with a bound of its own, first or last. *)
Ltac bounded_by k H :=
  match goal with |- at_most ?n _ =>
    let m := eval cbv in (n - k) in
    eapply (at_most_then k n m); [apply H|lia|intros ?; bounded] end.
Ltac bounded_end H := eapply at_most_mono; [|apply H]; lia.

Lemma at_most_load_private d c : at_most 3 (_load_private d c).
Proof. unfold _load_private. bounded. Qed.
Lemma at_most_evaluate d c b at_ : at_most 1 (_evaluate_authority d c b at_).
Proof. unfold _evaluate_authority. bounded. Qed.

Lemma at_most_cleanup d i k p e : at_most 2 (_preparation_cleanup d i k p e).
Proof.
  unfold _preparation_cleanup. eapply (at_most_then 1 _ 1); [|lia|].
  - destruct p; bounded.
  - intros l. eapply (at_most_then 1 _ 0); [one|lia|]. intros r. cbv zeta.
    by destruct (_ ++ _) as [|[? ?] ?].
Qed.

Lemma at_most_failed d i k p c e : at_most 3 (_preparation_failed d i k p c e).
Proof.
  unfold _preparation_failed. destruct c as [c|]; [|bounded_end at_most_cleanup].
  eapply (at_most_then 1 _ 2); [one|lia|]. intros [found|x]; [|bounded].
  case_match; [bounded|apply at_most_cleanup].
Qed.

Lemma at_most_persist self d t x pr pa now p : at_most 8 (_persist_prepared self d t x pr pa now p).
Proof.
  unfold _persist_prepared. eapply (at_most_then 1 _ 7); [destruct p; [by bounded|one]|lia|].
  intros r. bounded; bounded_end at_most_failed.
Qed.

Lemma at_most_supersede self d c x now : at_most 12 (_supersede_stale self d c x now).
Proof.
  unfold _supersede_stale. bounded. eapply (at_most_then 9 _ 1); [|lia|intros ?; bounded].
  destruct x; [|bounded]. destruct (sp_requesting_principal c); [|bounded].
  eapply (at_most_then 0 _ 9); [apply at_most_lift|lia|]. intros _.
  eapply (at_most_then 8 _ 1); [apply at_most_persist|lia|intros ?; bounded].
Qed.

Lemma at_most_admitted self d c u b es r at_ : at_most 6 (execute_admitted self d c u b es r at_).
Proof. unfold execute_admitted. bounded; bounded_end at_most_settle_execution. Qed.

Lemma at_most_resolved self d c b r : at_most 12 (execute_resolved self d c b r).
Proof.
  unfold execute_resolved. eapply (at_most_then 1 _ 11); [one|lia|]. intros at1.
  destruct (_ <=? _)%Z; [bounded_end at_most_expire_unexecuted|].
  eapply (at_most_then 1 _ 10); [apply at_most_evaluate|lia|]. intros [es a].
  bounded; first [bounded_end at_most_block|bounded_end at_most_expire_unexecuted
    |bounded_end at_most_admitted].
Qed.

Lemma at_most_execute self d t p : at_most 19 (execute self d t p).
Proof.
  unfold execute. bounded; try bounded_end at_most_expire_unexecuted.
  eapply (at_most_then 3 _ 14); [apply at_most_load_private|lia|]. intros [s|];
    [|bounded_end at_most_block]. case_match; [|bounded_end at_most_block].
  eapply (at_most_then 1 _ 13); [apply at_most_evaluate|lia|]. intros [valid evaluation].
  bounded; first [bounded_end at_most_block|bounded_end at_most_supersede
    |bounded_end at_most_resolved].
Qed.

Lemma at_most_prepare self d t x pr pa p : at_most 12 (prepare self d t x pr pa p).
Proof. unfold prepare. bounded. bounded_by 8 at_most_persist. Qed.

Lemma at_most_decide d b es e now : at_most 1 (authority_decision d b es e now).
Proof. unfold authority_decision. bounded. Qed.

Lemma at_most_record_decision self d c e es x now : at_most 3 (record_decision self d c e es x now).
Proof. unfold record_decision. destruct x as [[[t o] s] r]. bounded. Qed.

Lemma at_most_record_authority self d e a p : at_most 7 (record_authority self d e a p).
Proof.
  unfold record_authority. bounded. eapply (at_most_then 1 _ 3); [apply at_most_decide|lia|].
  intros x. apply at_most_record_decision.
Qed.

Lemma at_most_reconcile_pending self d t p c now : at_most 5 (reconcile_pending self d t p c now).
Proof. unfold reconcile_pending. bounded; bounded_end at_most_settle_verification. Qed.

Lemma at_most_reconcile self d t p : at_most 8 (reconcile self d t p).
Proof. unfold reconcile. bounded; bounded_end at_most_reconcile_pending. Qed.

Lemma at_most_resume self d t p n o i : at_most 14 (resume_verification self d t p n o i).
Proof. unfold resume_verification. bounded. bounded_end at_most_reconcile. Qed.

Lemma at_most_authorize_read d c p x : at_most 1 (authorize_read d c p x).
Proof. unfold authorize_read. bounded. Qed.

Lemma at_most_read d p x : at_most 2 (read d p x).
Proof. unfold read. bounded. bounded_by 1 at_most_authorize_read. Qed.

Lemma at_most_read_effect_owner d c x now : at_most 4 (_read_effect_owner d c x now).
Proof.
  unfold _read_effect_owner. bounded. eapply (at_most_then 1 _ 1); [|lia|intros ?; bounded].
  bounded.
Qed.

Lemma at_most_read_recovery d p x : at_most 7 (read_recovery d p x).
Proof.
  unfold read_recovery. bounded. eapply (at_most_then 1 _ 5); [apply at_most_authorize_read|lia|].
  intros _. bounded. bounded_by 4 at_most_read_effect_owner.
Qed.

Lemma at_most_export dump sha256 self d p x : at_most 3 (export_evidence dump sha256 self d p x).
Proof. unfold export_evidence. bounded. bounded_by 1 at_most_authorize_read. Qed.

Lemma at_most_observation d p x : at_most 3 (observation_context d p x).
Proof. unfold observation_context. bounded. bounded_by 1 at_most_authorize_read. Qed.

Lemma at_most_erase_pending d p x c now : at_most 5 (erase_pending d p x c now).
Proof.
  unfold erase_pending. eapply (at_most_then 1 _ 4); [destruct (sp_protected_private_snapshot c);
    [one|by bounded]|lia|]. intros _.
  eapply (at_most_then 1 _ 3); [destruct (sp_commitment c); [one|by bounded]|lia|].
  intros _. bounded.
Qed.

Lemma at_most_erase self d p x : at_most 10 (erase self d p x).
Proof. unfold erase. bounded; bounded_end at_most_erase_pending. Qed.

Lemma at_most_forget n {A} (p : prog A) : at_most n p → at_most n (forget p).
Proof. intros Hp. eapply (at_most_then n n 0); [exact Hp|lia|done]. Qed.

(** C23: every public operation of the runtime is bounded: whatever the store,
    the host and the other services answer, a call performs at most nineteen
    operations (nineteen for an execution, eight for a reconciliation), so it
    returns or raises as soon as they do; there is no retry loop. *)
Theorem runtime_call_bounded (self : ActionRuntime) (d : ActionDefinition) (c : runtime_call)
  (es : history) (q : prog unit) (Hruns : runs (call_prog self d c) es q) :
  length es ≤ match c with
    | CallPrepare _ _ _ _ _ => 12
    | CallRecordAuthority _ _ _ => 7
    | CallExpireDue _ _ => 4
    | CallExecute _ _ => 19
    | CallReconcile _ _ => 8
    | CallResumeVerification _ _ _ _ _ => 14
    | CallRead _ _ => 2
    | CallReadRecovery _ _ => 7
    | CallExportEvidence _ _ _ _ | CallObservationContext _ _ => 3
    | CallErase _ _ => 10
    end.
Proof.
  eapply at_most_runs; [|exact Hruns].
  destruct c; apply at_most_forget;
    [ apply at_most_prepare | apply at_most_record_authority | apply at_most_expire_due
    | apply at_most_execute | apply at_most_reconcile | apply at_most_resume | apply at_most_read
    | apply at_most_read_recovery | apply at_most_export | apply at_most_observation
    | apply at_most_erase ].
Qed.

End Calls.

(** The longest path of an execution that succeeds. *)
Lemma runtime_call_bounded_witness :
  length (run (handle usual) (call_prog Scenario.self (sample_definition false)
    (CallExecute "tenant" "order:7")) authorized_world).1.1 ≤ 19.
Proof.
  exact (runtime_call_bounded Scenario.self (sample_definition false) (CallExecute "tenant" "order:7") _ _
    (run_runs (handle usual) (call_prog Scenario.self (sample_definition false)
      (CallExecute "tenant" "order:7")) authorized_world)).
Defined.
