(* ===== verification/RuntimeReads.v ===== *)
(** The read operations of the runtime: they observe and write nothing, they
    disclose nothing before the host permits it, and what a recovery view says
    of the owner of an effect was permitted too. *)

From S2P Require Import Prelude Models Canonical Authority Receipts Registry StoreBase StoreContract.
From S2P Require Import MemoryStore Recovery Evidence Program Runtime Scenario RuntimeCalls.

(** The proposal and the context of a read. *)
Definition read_call (c : runtime_call) : option (pystr * ReadContext) :=
  match c with
  | CallRead p x | CallReadRecovery p x | CallExportEvidence _ _ p x | CallObservationContext p x =>
      Some (p, x)
  | _ => None
  end.

Section Reads.
Context `{U : Unicode}.
Variable d : ActionDefinition.

(** The host permitted the consumer of [x] to read the proposal [p]. *)
Definition permitted (p : pystr) (x : ReadContext) (h : history) : Prop :=
  Event (CanRead (ad_authorization d) p x) (Ok true) ∈ h.

(** What a read of the proposal [p] may do: look it up in the tenant of the
    context, ask for permission, and, with the permission, look up the owner of
    its effect and ask for permission to show it. *)
Definition observes (p : pystr) (x : ReadContext) (h : history) (o : op) : Prop :=
  match o with
  | Store (Get t p') => t = rd_tenant_reference x ∧ (p' = p ∨ permitted p x h)
  | Store (GetEffectClaimOwner t _ _) => t = rd_tenant_reference x ∧ permitted p x h
  | CanRead port p' x' => port = ad_authorization d ∧ x' = x ∧ (p' = p ∨ permitted p x h)
  | ClockNow => permitted p x h
  | _ => False
  end.

Abbreviation wpr p x := (wp (observes p x) (λ _ _, True)).

Lemma permitted_app p x h e : permitted p x h → permitted p x (h ++ [e]).
Proof. intros H. apply elem_of_app. by left. Qed.

Lemma wp_required_read p x (Q : history → res StoredProposal → Prop) h :
  (∀ c, sp_tenant_reference c = rd_tenant_reference x → sp_proposal_reference c = p →
     Q (h ++ [Event (Store (Get (rd_tenant_reference x) p)) (Ok (Some c))]) (Ok c)) →
  (∀ h' e, Q h' (Err e)) →
  wpr p x (_required (rd_tenant_reference x) p) Q h.
Proof.
  intros HQ HE. unfold _required. apply wp_bind, wp_call; [simpl; auto|].
  intros [[c|]|e] _; simpl; [|apply HE..]. split_if; [apply HE|]. to_prop. simpl. by apply HQ.
Qed.

Lemma wp_authorize_read c p x (Q : history → res unit → Prop) h :
  (∀ h', (∀ e, e ∈ h → e ∈ h') → permitted p x h' → sp_action_type c = ad_action_type d → Q h' (Ok ())) →
  (∀ h' e, Q h' (Err e)) →
  wpr p x (authorize_read d c p x) Q h.
Proof.
  intros HQ HE. unfold authorize_read. split_if; [apply HE|]. to_prop.
  apply wp_bind, wp_call; [simpl; auto|]. intros [[]|e] _; simpl; [|apply HE..].
  apply HQ; [|apply elem_of_app; right; by apply list_elem_of_singleton|done].
  intros e He. apply elem_of_app. by left.
Qed.

(** The common part of the reads. *)
Lemma wp_read_guard {A} p x (f : StoredProposal → prog A) (Q : history → res A → Prop) h :
  (∀ c h', Event (Store (Get (rd_tenant_reference x) p)) (Ok (Some c)) ∈ h' → permitted p x h' →
     sp_tenant_reference c = rd_tenant_reference x → sp_proposal_reference c = p →
     sp_action_type c = ad_action_type d → wpr p x (f c) Q h') →
  (∀ h' e, Q h' (Err e)) →
  wpr p x (c ← _required (rd_tenant_reference x) p; _ ← authorize_read d c p x; f c) Q h.
Proof.
  intros Hf HE. apply wp_bind, wp_required_read; [|done]. intros c Ht Hp.
  apply wp_bind, wp_authorize_read; [|done]. intros h' Hsub Hperm Ha. apply Hf; try done.
  apply Hsub, elem_of_app. right. by apply list_elem_of_singleton.
Qed.

(** The owner shown was read in the tenant, is not erased, has the same effect,
    and may be read. *)
Definition owner_disclosed (x : ReadContext) (c : StoredProposal) (h : history)
  (o : ActionRecoveryOwnerView) (observed_at : datetime) : Prop :=
  ∃ owner reference,
    Event (Store (Get (rd_tenant_reference x) reference)) (Ok (Some owner)) ∈ h ∧
    permitted reference x h ∧ reference ≠ sp_proposal_reference c ∧ record_erased owner = false ∧
    sp_action_type owner = sp_action_type c ∧
    sp_semantic_effect_reference owner = sp_semantic_effect_reference c ∧
    o = mkActionRecoveryOwnerView (sp_proposal_reference owner) (sp_revision owner)
          (sp_lifecycle_status owner) (observed_condition owner observed_at)
          (sp_next_verification_at owner).

Lemma wp_read_effect_owner p x c now (Q : history → res _ → Prop) h :
  permitted p x h → sp_tenant_reference c = rd_tenant_reference x →
  (∀ h' ownership owner, (∀ e, e ∈ h → e ∈ h') →
     match owner with Some o => ownership = OWNED_ELSEWHERE ∧ owner_disclosed x c h' o now | None => True end →
     Q h' (Ok (ownership, owner))) →
  (∀ h' e, Q h' (Err e)) →
  wpr p x (_read_effect_owner d c x now) Q h.
Proof.
  intros Hp Ht HQ HE. unfold _read_effect_owner. cbv zeta.
  assert (Hsub1 : ∀ e e1, e ∈ h → e ∈ h ++ [e1]) by (intros e e1 He; apply elem_of_app; by left).
  apply wp_bind, wp_attempt, wp_call; [by split|].
  intros [[reference|]|e] _; cbv beta iota; [|apply HQ; auto|destruct (is_Exception e);
    [apply HQ; auto|apply HE]].
  split_if; to_prop; [apply HQ; auto|].
  apply wp_bind, wp_call; [split; [done|right; by apply permitted_app]|].
  intros [o|e] _; cbv beta iota; [|apply HE].
  set (h2 := (h ++ [_]) ++ [_]).
  assert (Hh2 : ∀ e, e ∈ h → e ∈ h2) by (intros e He; unfold h2; rewrite !elem_of_app; auto).
  assert (Hget : Event (Store (Get (sp_tenant_reference c) reference)) (Ok o) ∈ h2)
    by (unfold h2; rewrite !elem_of_app; right; by apply list_elem_of_singleton).
  clearbody h2. apply wp_bind.
  set (K := λ (h' : history) (r : res (option StoredProposal)), _).
  assert (HK : ∀ h' s, (∀ e, e ∈ h2 → e ∈ h') →
    (∀ w, s = Some w → o = Some w ∧ permitted reference x h' ∧ record_erased w = false ∧
       sp_action_type w = sp_action_type c ∧
       sp_semantic_effect_reference w = sp_semantic_effect_reference c) → K h' (Ok s)).
  { intros h' s Hsub Hs. unfold K. apply wp_bind, wp_attempt, wp_call.
    { split; [done|]. apply Hsub, Hh2. exact Hp. }
    assert (Hin : ∀ e e1, e ∈ h' → e ∈ h' ++ [e1]) by (intros e e1 He; apply elem_of_app; by left).
    intros [confirmed|e] _; cbv beta iota; [|destruct (is_Exception e); [apply HQ; auto|apply HE]].
    split_if; [apply HQ; auto|]. destruct s as [w|]; [|apply HQ; auto].
    apply HQ; [auto|]. split; [done|]. destruct (Hs w eq_refl) as (-> & Hpw & He & Ha & Hx).
    exists w, reference. rewrite <-Ht. split_and!; auto. by apply permitted_app. }
  assert (HKE : ∀ h' e, K h' (Err e)) by (intros h' e; apply HE).
  clearbody K. destruct o as [o|]; [|by apply HK].
  split_if; [|by apply HK]. to_prop.
  apply wp_bind, wp_call; [split_and!; [done..|right; by apply Hh2]|].
  intros [ok|e] _; cbv beta iota.
  - apply HK; [intros e He; apply elem_of_app; by left|]. intros w Hw. destruct ok; [|done].
    injection Hw as <-. split_and!; auto. apply elem_of_app. right. by apply list_elem_of_singleton.
  - apply HKE.
Qed.

(** What a recovery view says of the record [c] that was read. *)
Definition recovery_view_of (x : ReadContext) (c : StoredProposal) (h : history)
  (v : ActionRecoveryView) : Prop :=
  rw_proposal_reference v = sp_proposal_reference c ∧
  rw_lifecycle_status v = sp_lifecycle_status c ∧ rw_revision v = sp_revision c ∧
  rw_erased v = record_erased c ∧
  (if record_erased c then
     rw_condition v = RECOVERY_ERASED ∧ rw_owner v = None ∧ rw_reason_code v = None ∧
     rw_last_verification_status v = None
   else
     (rw_condition v = observed_condition c (rw_observed_at v) ∨
      sp_lifecycle_status c = AUTHORIZED ∧ rw_condition v = EFFECT_OWNED_ELSEWHERE ∧
      rw_effect_ownership v ∈ [OWNED_ELSEWHERE; OBSERVATION_UNCERTAIN]) ∧
     st_operation <$> rw_recommended_steps v = [condition_operation (rw_condition v)] ∧
     ∀ o, rw_owner v = Some o → rw_effect_ownership v = OWNED_ELSEWHERE ∧
       owner_disclosed x c h o (rw_observed_at v)).

Definition read_of (p : pystr) (x : ReadContext) (h : history) (c : StoredProposal) : Prop :=
  Event (Store (Get (rd_tenant_reference x) p)) (Ok (Some c)) ∈ h ∧ permitted p x h ∧
  sp_tenant_reference c = rd_tenant_reference x ∧ sp_proposal_reference c = p ∧
  sp_action_type c = ad_action_type d.

Lemma wp_read_recovery p x h :
  wpr p x (read_recovery d p x)
    (λ h' r, ∀ v, r = Ok v → ∃ c, read_of p x h' c ∧ recovery_view_of x c h' v) h.
Proof.
  unfold read_recovery. apply wp_read_guard; [|done]. intros c h1 Hget Hperm Ht Hp Ha.
  apply wp_bind, wp_call; [done|]. intros [now|e] _; cbv beta iota; [|done].
  assert (Hr : ∀ h', (∀ e, e ∈ h1 ++ [Event ClockNow (Ok now)] → e ∈ h') → read_of p x h' c).
  { intros h' Hsub. split_and!; try done; apply Hsub, elem_of_app; by left. }
  split_if.
  { intros v [= <-]. exists c. split; [by apply Hr|]. unfold recovery_view_of.
    rewrite Hif. by split_and!. }
  cbv zeta. apply wp_bind, wp_read_effect_owner; [by apply permitted_app|done| |done].
  intros h2 ownership owner Hsub Howner. cbv beta iota. intros v [= <-].
  exists c. split; [by apply Hr|]. unfold recovery_view_of. simpl. rewrite Hif. split_and!; try done.
  - split_if; to_prop; [right|by left]. done.
  - by destruct owner as [o|]; intros o' [= <-].
Qed.

Lemma wp_read p x h :
  wpr p x (read d p x)
    (λ h' r, ∀ v, r = Ok v → ∃ c, read_of p x h' c ∧
       pv_proposal_reference v = p ∧ pv_erased v = record_erased c ∧
       if record_erased c
       then pv_display_preview v = [] ∧ pv_receipts v = [] ∧ pv_safe_result v = None
       else pv_display_preview v = sp_display_preview c ∧ pv_receipts v = sp_receipts c ∧
            pv_safe_result v = sp_safe_result c) h.
Proof.
  unfold read. apply wp_read_guard; [|done]. intros c h1 Hget Hperm Ht Hp Ha. cbv zeta.
  intros v [= <-]. exists c. split; [by split_and!|]. simpl. split_and!; try done.
  by destruct (record_erased c).
Qed.

Lemma wp_export dump sha256 self p x h :
  wpr p x (export_evidence dump sha256 self d p x) (λ _ _, True) h.
Proof.
  unfold export_evidence. apply wp_read_guard; [|done]. intros c h1 _ Hperm _ _ _.
  apply wp_bind, wp_call; [done|]. intros [now|e] _; [|done]. by apply wp_lift.
Qed.

Lemma wp_observation p x h : wpr p x (observation_context d p x) (λ _ _, True) h.
Proof.
  unfold observation_context. apply wp_read_guard; [|done]. intros c h1 _ Hperm _ _ _.
  split_if; [done|]. apply wp_bind, wp_call; [done|]. intros [now|e] _; [|done]. by apply wp_lift.
Qed.

Lemma wp_forget {A} p x (q : prog A) Q h :
  wpr p x q Q h → wpr p x (forget q) (λ _ _, True) h.
Proof. intros Hq. apply wp_bind. eapply wp_mono; [exact Hq|]. by intros h' [|] _ _. Qed.

Lemma wp_read_call self c p x :
  read_call c = Some (p, x) → wpr p x (call_prog self d c) (λ _ _, True) [].
Proof.
  destruct c; cbn [read_call call_prog]; try done; intros [= -> ->]; eapply wp_forget;
    [apply wp_read|apply wp_read_recovery|apply wp_export|apply wp_observation].
Qed.

(** What [wp] says of a program run to its result. *)
Lemma wpr_result {A} p x (q : prog A) Q es v :
  wpr p x q Q [] → runs q es (Ret v) → Q es (Ok v).
Proof. intros Hq Hr. by destruct (wp_runs _ _ q _ es [] Q Hq Hr) as [? _]. Qed.

(** Reads observe and do not disclose: the calls that read a proposal, its
    recovery view, its evidence or its observation context perform nothing but
    look-ups in the tenant of their context, readings of the clock and requests
    for permission; nothing but the look-up of the proposal itself happens
    before the host permits this consumer to read this proposal. *)
Theorem reads_only_observe (self : ActionRuntime) (c : runtime_call) (p : pystr) (x : ReadContext)
  (es : history) (q : prog unit) (n : nat) (e : event)
  (Hread : read_call c = Some (p, x)) (Hruns : runs (call_prog self d c) es q)
  (He : es !! n = Some e) :
  observes p x (take n es) (ev_op e).
Proof.
  destruct (wp_runs _ _ _ q es [] _ (wp_read_call self c p x Hread) Hruns) as [_ HG]; [done|].
  apply (HG (take n es) e (drop (S n) es)). by rewrite take_drop_middle.
Qed.

(** A read is minimized: it returns only of a proposal of the tenant and of
    the action, with the permission of the host, and shows the preview, the
    receipts and the result of the record it read, and none of them when the
    record is erased or being erased. *)
Theorem read_view_minimized (p : pystr) (x : ReadContext) (es : history) (v : ProposalView)
  (Hruns : runs (read d p x) es (Ret v)) :
  ∃ c, read_of p x es c ∧ pv_proposal_reference v = p ∧ pv_erased v = record_erased c ∧
    if record_erased c
    then pv_display_preview v = [] ∧ pv_receipts v = [] ∧ pv_safe_result v = None
    else pv_display_preview v = sp_display_preview c ∧ pv_receipts v = sp_receipts c ∧
         pv_safe_result v = sp_safe_result c.
Proof. by apply (wpr_result _ _ _ _ _ _ (wp_read p x []) Hruns). Qed.

(** A recovery view is the projection of one permitted record: its status,
    revision and condition are the record's at the time of the observation, its
    one recommended step is the step of that condition, an authorized proposal
    whose effect is or may be owned elsewhere is never shown as ready, and the
    owner of the effect is shown only when the host permits reading that
    proposal as well. *)
Theorem recovery_view_projects (p : pystr) (x : ReadContext) (es : history)
  (v : ActionRecoveryView) (Hruns : runs (read_recovery d p x) es (Ret v)) :
  ∃ c, read_of p x es c ∧ recovery_view_of x c es v.
Proof. by apply (wpr_result _ _ _ _ _ _ (wp_read_recovery p x []) Hruns). Qed.

End Reads.

(** * The scenario *)

Section Witness.

Definition auditor : ReadContext := mkReadContext "tenant" (mkEvidenceConsumer "auditor").
Definition read_run := run (handle usual) (read (sample_definition false) "order:7" auditor) authorized_world.
Definition recovery_run :=
  run (handle usual) (read_recovery (sample_definition false) "order:7" auditor) authorized_world.
Definition observing_run :=
  run (handle usual) (call_prog self (sample_definition false) (CallReadRecovery "order:7" auditor))
    authorized_world.

Lemma reads_only_observe_witness : ∃ e,
  observing_run.1.1 !! 3 = Some e ∧
  observes (sample_definition false) "order:7" auditor (take 3 observing_run.1.1) (ev_op e).
Proof.
  eexists. split; [vm_compute; reflexivity|].
  refine (reads_only_observe (sample_definition false) self (CallReadRecovery "order:7" auditor)
    "order:7" auditor observing_run.1.1 _ 3 _ eq_refl
    (run_runs (handle usual)
       (call_prog self (sample_definition false) (CallReadRecovery "order:7" auditor)) authorized_world) _).
  vm_compute. reflexivity.
Defined.

Lemma read_view_minimized_witness : ∃ v c,
  read_run.1.2 = Ok v ∧ read_of (sample_definition false) "order:7" auditor read_run.1.1 c ∧
  pv_receipts v = sp_receipts c.
Proof.
  assert (Hv : ∃ v, read_run.1.2 = Ok v ∧ pv_erased v = false) by (vm_compute; eexists; split; reflexivity).
  destruct Hv as (v & Hv & He).
  destruct (read_view_minimized (sample_definition false) "order:7" auditor read_run.1.1 v)
    as (c & Hc & _ & Her & Hbody).
  - change (Ret v) with (lift (Ok v)). rewrite <-Hv.
    exact (run_runs (handle usual) (read (sample_definition false) "order:7" auditor) authorized_world).
  - exists v, c. rewrite <-Her, He in Hbody. destruct Hbody as (_ & Hr & _).
    split; [exact Hv|]. split; [exact Hc|exact Hr].
Defined.

Lemma recovery_view_projects_witness : ∃ v c,
  recovery_run.1.2 = Ok v ∧ rw_condition v = READY_FOR_EXECUTION ∧
  read_of (sample_definition false) "order:7" auditor recovery_run.1.1 c ∧
  recovery_view_of (sample_definition false) auditor c recovery_run.1.1 v.
Proof.
  assert (Hv : ∃ v, recovery_run.1.2 = Ok v ∧ rw_condition v = READY_FOR_EXECUTION)
    by (vm_compute; eexists; split; reflexivity).
  destruct Hv as (v & Hv & Hc).
  destruct (recovery_view_projects (sample_definition false) "order:7" auditor recovery_run.1.1 v)
    as (c & Hr & Hp).
  - change (Ret v) with (lift (Ok v)). rewrite <-Hv.
    exact (run_runs (handle usual) (read_recovery (sample_definition false) "order:7" auditor) authorized_world).
  - exists v, c. split; [exact Hv|]. split; [exact Hc|]. split; [exact Hr|exact Hp].
Defined.

End Witness.
