(* ===== verification/RuntimeSafety.v ===== *)
(** The safety properties of a single call of the runtime, in any environment:
    the store, the host and the services may answer anything, and may fail at
    any operation; only the records they return are assumed to be well-formed,
    which [RuntimeWorld] shows of every record the runtime stores. *)

From S2P Require Import Prelude Models Canonical Authority Receipts Registry StoreBase StoreContract.
From S2P Require Import MemoryStore Recovery Evidence Program Runtime Scenario Lifecycle.
From S2P Require Import RuntimeGuarantee RuntimeCalls.

(** * Well-formed reads of a concrete execution *)

Definition read_record (e : event) : option StoredProposal :=
  match e with
  | Event (Store (Get _ _)) (Ok (Some c)) => Some c
  | _ => None
  end.

Lemma reads_well_formed_intro es :
  Forall well_formed (omap read_record es) → reads_well_formed es.
Proof.
  intros Hf t p c Hin. rewrite Forall_forall in Hf. apply Hf.
  apply list_elem_of_In, list_elem_of_omap. by exists (Event (Store (Get t p)) (Ok (Some c))).
Qed.

Section Safety.
Context `{U : Unicode}.
Variables (self : ActionRuntime) (d : ActionDefinition) (call : runtime_call).
Variables (es : history) (q : prog unit).
Hypothesis Hruns : runs (call_prog self d call) es q.
Hypothesis Hreads : reads_well_formed es.

(** C2: the executor is only ever called behind the whole gate: the call read
    the proposal as authorized and not erased; the protected snapshot matched
    its commitment; the evaluator was satisfied by decisions that are bound to
    exactly this proposal, commitment, audience and assurance and valid at the
    last reading of the clock; the resolver reported no material drift and the
    host re-authorized the resolved state; the store admitted the proposal
    into [EXECUTING], with the effect claimed; the proposal and the admission
    lease have not expired at the last reading; and the executor was not
    called before in this call. *)
Theorem executor_gate (n : nat) (p : port) (snapshot : PyModel) (ctx : ExecutionContext)
  (pre : pystr) (r : res ExecutionResult)
  (Hcall : es !! n = Some (Event (Execute p snapshot ctx pre) r)) :
  p = ad_executor d ∧ ∃ c u commitment evidence resolved admitted_at now,
    execution_gate d (take n es) snapshot ctx pre c u commitment evidence resolved admitted_at now.
Proof. exact (call_guarantee self d call es q n _ Hruns Hreads Hcall). Qed.

(** C9: refinement of the lifecycle machine: every compare-and-set and every
    admission a call asks for replaces a live record the call has seen, at its
    revision, by a step of the abstract lifecycle machine, and by an update
    that the store's validation accepts. *)
Theorem writes_are_lifecycle_steps (n : nat) (t p : pystr) (revision : Z) (u : StoredProposal)
  (e : event) (He : es !! n = Some e)
  (Hwrite : (∃ ss, ev_op e = Store (CompareAndSet t p revision ss u)) ∨
            (∃ at_, ev_op e = Store (AdmitExecution t p revision at_ u))) :
  ∃ c, writes d (take n es) t p revision c u ∧ validate_proposal_update c u = Ok ().
Proof.
  assert (HG := call_guarantee self d call es q n e Hruns Hreads He).
  destruct Hwrite as [[ss Ho]|[at_ Ho]]; rewrite Ho in HG; destruct HG as (c & Hw & _);
    exists c; (split; [done|]); apply validate_update_ok; destruct Hw;
    by eapply step_update_ok.
Qed.

(** C8: verdicts are not invented: a write that settles a pending verification
    follows an answer of the target's verifier in this call whose transition it
    is, and a write that settles an execution follows the executor's answer in
    this call, or declares a known failure without the executor having been
    called. *)
Theorem verdicts_are_grounded (n : nat) (t p : pystr) (revision : Z) (ss : list LifecycleStatus)
  (u : StoredProposal) (r : res bool)
  (He : es !! n = Some (Event (Store (CompareAndSet t p revision ss u)) r)) :
  ∃ c, seen (take n es) c ∧ proposal_key c = (t, p) ∧ sp_revision c = revision ∧
    ss = [sp_lifecycle_status c] ∧ grounded d (take n es) c u.
Proof.
  destruct (call_guarantee self d call es q n _ Hruns Hreads He) as (c & [] & Hss & Hg). eauto 10.
Qed.

(** Verification is bounded and read-only with respect to the executor: the
    verifier is called only after an acknowledged write that counts the
    attempt against the limit of the proposal, and never in a call that
    executes. *)
Theorem verification_is_counted (n : nat) (p : port) (ctx : ExecutionContext)
  (r : res VerificationResult) (He : es !! n = Some (Event (Verify p ctx) r)) :
  p = ad_verifier d ∧ quiet (take n es) ∧
  ∃ c, wrote (take n es) c ∧ sp_lifecycle_status c = VERIFICATION_PENDING ∧
    (1 <= sp_verification_attempts c <= sp_max_verification_attempts c)%Z ∧
    ∃ now, _execution_context c now None = Ok ctx.
Proof. exact (call_guarantee self d call es q n _ Hruns Hreads He). Qed.

(** Events project stored revisions: what is emitted describes, by tenant,
    reference and status, a record this call has read or written. *)
Theorem events_project_records (n : nat) (ev : RuntimeEvent) (r : res unit)
  (He : es !! n = Some (Event (Emit ev) r)) :
  ∃ c, seen (take n es) c ∧ ev_tenant_reference ev = sp_tenant_reference c ∧
    ev_proposal_reference ev = sp_proposal_reference c ∧
    ev_lifecycle_status ev = sp_lifecycle_status c.
Proof. exact (call_guarantee self d call es q n _ Hruns Hreads He). Qed.

(** C10: protected state is destroyed in two situations only: by an erasure that
    the host authorized, of a record that is marked for erasure; or as
    compensation of a preparation of this very call, of what the call itself
    had created, when no creation was attempted, or one failed and the store
    does not hold the record as created. *)
Theorem destruction_is_justified (n : nat) (e : event) (He : es !! n = Some e) :
  (∀ payload, ((∃ p, ev_op e = DestroyPayload p payload) ∨
               (∃ p i, ev_op e = DestroyPayloadFor p i payload)) →
     may_destroy_payload d (take n es) payload) ∧
  (∀ commitment, ((∃ p, ev_op e = DestroyCommitment p commitment) ∨
                  (∃ p i, ev_op e = DestroyCommitmentFor p i commitment)) →
     may_destroy_commitment d (take n es) commitment).
Proof.
  assert (HG := call_guarantee self d call es q n e Hruns Hreads He).
  split; intros x [[p Ho]|(p & i & Ho)]; by rewrite Ho in HG.
Qed.

End Safety.

(** * The scenario *)

(** Prove [live_record] of a record given field by field. *)
Ltac some_member := (apply elem_of_cons; left; reflexivity) + (apply elem_of_cons; right; some_member).
Ltac has_member :=
  eexists; split; [some_member|]; vm_compute; first [reflexivity|left; reflexivity|right; reflexivity].
Ltac live_concrete :=
  constructor; simpl;
  [ by eauto
  | let r := fresh "r" in let H := fresh "H" in
    intros r H; elem_cases H; constructor; simpl; eauto
  | by eauto
  | by eauto
  | let e := fresh "e" in let H := fresh "H" in
    intros e H; elem_cases H; vm_compute; reflexivity
  | by apply (bool_decide_unpack _); vm_compute
  | first [discriminate | intros _; has_member]
  | first [discriminate | intros _; has_member]
  | let e := fresh "e" in let H := fresh "H" in intros _ e H; elem_cases H; reflexivity
  | first [intros _; has_member | let H := fresh "H" in intros H; elem_cases H]
  | first [discriminate | intros _; has_member]
  | first [intros _; has_member | by intros [|]]
  | lia
  | first [discriminate | by eauto]
  | first [split; [by intros []|discriminate] | split; [done|by eauto]]
  | lia ].

Section Witness.

Definition executed_call : runtime_call := CallExecute "tenant" "order:7".
Definition executed_run :=
  run (handle usual) (call_prog self (sample_definition false) executed_call) authorized_world.

Lemma executed_reads : reads_well_formed executed_run.1.1.
Proof.
  apply reads_well_formed_intro. set (l := omap _ _). vm_compute in l. subst l.
  constructor; [|constructor]. unfold well_formed. simpl. live_concrete.
Qed.

(** The thirteenth operation is the admission, the fifteenth the call of the
    executor. *)
Lemma executor_gate_witness : ∃ p snapshot ctx pre r,
  executed_run.1.1 !! 14 = Some (Event (Execute p snapshot ctx pre) r) ∧
  p = ad_executor (sample_definition false).
Proof.
  do 5 eexists. split; [vm_compute; reflexivity|].
  refine (proj1 (executor_gate self (sample_definition false) executed_call executed_run.1.1 _
    (run_runs _ _ _) executed_reads 14 _ _ _ _ _ _)).
  vm_compute. reflexivity.
Defined.

Lemma writes_are_lifecycle_steps_witness : ∃ t p n u c,
  writes (sample_definition false) (take 12 executed_run.1.1) t p n c u ∧
  validate_proposal_update c u = Ok ().
Proof.
  do 4 eexists. refine (writes_are_lifecycle_steps self (sample_definition false) executed_call
    executed_run.1.1 _ (run_runs _ _ _) executed_reads 12 _ _ _ _ _ _ _).
  - vm_compute. reflexivity.
  - right. eexists. simpl. reflexivity.
Defined.

Lemma verdicts_are_grounded_witness : ∃ t p n u c,
  seen (take 17 executed_run.1.1) c ∧ proposal_key c = (t, p) ∧ sp_revision c = n ∧
  [EXECUTING] = [sp_lifecycle_status c] ∧
  grounded (sample_definition false) (take 17 executed_run.1.1) c u.
Proof.
  do 4 eexists. refine (verdicts_are_grounded self (sample_definition false) executed_call
    executed_run.1.1 _ (run_runs _ _ _) executed_reads 17 _ _ _ [EXECUTING] _ _ _).
  vm_compute. reflexivity.
Defined.

Lemma events_project_records_witness : ∃ ev r c,
  executed_run.1.1 !! 18 = Some (Event (Emit ev) r) ∧ seen (take 18 executed_run.1.1) c.
Proof.
  do 2 eexists.
  destruct (events_project_records self (sample_definition false) executed_call executed_run.1.1 _
    (run_runs _ _ _) executed_reads 18 _ _ ltac:(vm_compute; reflexivity)) as (c & Hc & _).
  exists c. split; [vm_compute; reflexivity|exact Hc].
Defined.

Definition reconciled_call : runtime_call := CallReconcile "tenant" "order:7".
Definition reconciled_run :=
  run (handle usual) (call_prog self (sample_definition false) reconciled_call) (final executed_run).

Lemma reconciled_reads : reads_well_formed reconciled_run.1.1.
Proof.
  apply reads_well_formed_intro. set (l := omap _ _). vm_compute in l. subst l.
  constructor; [|constructor]. unfold well_formed. simpl. live_concrete.
Qed.

Lemma verification_is_counted_witness : ∃ p ctx r c,
  reconciled_run.1.1 !! 3 = Some (Event (Verify p ctx) r) ∧ wrote (take 3 reconciled_run.1.1) c.
Proof.
  do 3 eexists.
  destruct (verification_is_counted self (sample_definition false) reconciled_call
    reconciled_run.1.1 _ (run_runs _ _ _) reconciled_reads 3 _ _ _ ltac:(vm_compute; reflexivity))
    as (_ & _ & c & Hc & _).
  exists c. split; [vm_compute; reflexivity|exact Hc].
Defined.

Definition erased_call : runtime_call :=
  CallErase "order:7" (mkReadContext "tenant" (mkEvidenceConsumer "auditor")).
Definition erased_run :=
  run (handle usual) (call_prog self (sample_definition false) erased_call) prepared_world.

Lemma erased_reads : reads_well_formed erased_run.1.1.
Proof.
  apply reads_well_formed_intro. set (l := omap _ _). vm_compute in l. subst l.
  constructor; [|constructor; [|constructor; [|constructor]]]; unfold well_formed; simpl;
    [live_concrete|live_concrete|vm_compute; reflexivity].
Qed.

Lemma destruction_is_justified_witness : ∃ e payload,
  erased_run.1.1 !! 5 = Some e ∧ may_destroy_payload (sample_definition false)
    (take 5 erased_run.1.1) payload.
Proof.
  do 2 eexists. split; [vm_compute; reflexivity|].
  refine (proj1 (destruction_is_justified self (sample_definition false) erased_call
    erased_run.1.1 _ (run_runs _ _ _) erased_reads 5 _ _) _ _).
  - vm_compute. reflexivity.
  - right. do 2 eexists. reflexivity.
Defined.
End Witness.
