(* ===== verification/RuntimeWorld.v ===== *)
(** The runtime in a concurrent deployment: any number of calls, interleaved
    operation by operation over one store, with hosts that answer anything and
    a store whose answers may be lost.

    A world is the store, the calls started so far, and every version of a
    record that was ever stored (a history variable: nothing reads it).  The
    results hold for every store that implements [ActionStore], and for every
    set of deployed action definitions. *)

From S2P Require Import Prelude Models Canonical Authority Receipts Registry StoreBase StoreContract.
From S2P Require Import Recovery Evidence Program Runtime Lifecycle RuntimeGuarantee RuntimeCalls.

(** * Worlds *)

(** A call in progress: the definition it works for, what it performed, and
    what it has left to do. *)
Record thread := mkThread {
  th_definition : ActionDefinition;
  th_history : history;
  th_program : prog unit
}.

Record world (S : Type) := mkWorld {
  w_store : S;
  w_threads : list thread;
  w_versions : list StoredProposal
}.
Arguments mkWorld {S} _ _ _.
Arguments w_store {S} _.
Arguments w_threads {S} _.
Arguments w_versions {S} _.

Section World.
Context `{U : Unicode} {S : Type} `{Hstore : ActionStore S}.
Variable self : ActionRuntime.
(** The definitions in use; [__post_init__] accepted each of them. *)
Variable deployed : ActionDefinition → Prop.
Hypothesis deployed_ok : ∀ d, deployed d → definition_ok d.

(** The key a store operation may write. *)
Definition written_key (o : store_op) : option ProposalKey :=
  match o with
  | Create p => Some (proposal_key p)
  | Get _ _ | GetEffectClaimOwner _ _ _ => None
  | CompareAndSet t p _ _ _ | AdmitExecution t p _ _ _ | MarkErasurePending t p _ _
  | CompleteErasure t p _ _ => Some (t, p)
  end.

(** The record an operation left at its key, if it changed. *)
Definition new_version (o : store_op) (v v' : StoreView) : list StoredProposal :=
  match written_key o with
  | None => []
  | Some k =>
      if decide (proposals v' !! k = proposals v !! k) then []
      else match proposals v' !! k with Some p => [p] | None => [] end
  end.

(** How an operation of a call may be answered: the store performs it and
    answers; the store performs it and the answer is lost; it fails before it
    reaches the store.  Every other operation may be answered by anything. *)
Inductive answers (s : S) : ∀ o : op, res (resp o) → S → list StoredProposal → Prop :=
  | answer_store so :
      answers s (Store so) (store_run so s).1 (store_run so s).2
        (new_version so (store_view s) (store_view (store_run so s).2))
  | answer_lost so e :
      answers s (Store so) (Err e) (store_run so s).2
        (new_version so (store_view s) (store_view (store_run so s).2))
  | answer_unreached so e : answers s (Store so) (Err e) s []
  | answer_other o r : (∀ so, o ≠ Store so) → answers s o r s [].

Inductive world_step : world S → world S → Prop :=
  | step_start d c w : deployed d →
      world_step w (mkWorld (w_store w) (w_threads w ++ [mkThread d [] (call_prog self d c)])
                      (w_versions w))
  | step_thread w i d h o k r s' new :
      w_threads w !! i = Some (mkThread d h (Vis o k)) →
      answers (w_store w) o r s' new →
      world_step w (mkWorld s' (<[i := mkThread d (h ++ [Event o r]) (k r)]> (w_threads w))
                      (w_versions w ++ new)).

Definition initial_world : world S := mkWorld store_empty [] [].

Inductive reachable : world S → Prop :=
  | reachable_initial : reachable initial_world
  | reachable_step w w' : reachable w → world_step w w' → reachable w'.

(** * The invariant *)

Abbreviation view w := (store_view (w_store w)).

Record versions_ok (v : StoreView) (l : list StoredProposal) : Prop := {
  versions_current : ∀ k p, proposals v !! k = Some p → p ∈ l;
  versions_behind : ∀ p, p ∈ l → ∃ q, proposals v !! proposal_key p = Some q ∧
    (sp_revision p <= sp_revision q)%Z;
  versions_unique : ∀ p q, p ∈ l → q ∈ l → proposal_key p = proposal_key q →
    sp_revision p = sp_revision q → p = q;
  versions_well_formed : ∀ p, p ∈ l → well_formed p
}.

Record thread_ok (l : list StoredProposal) (t : thread) : Prop := {
  thread_deployed : deployed (th_definition t);
  thread_safe : wp (guarantee (th_definition t)) rely (th_program t) (λ _ _, True) (th_history t);
  thread_seen : ∀ c, seen (th_history t) c → c ∈ l;
  thread_past : ∀ h1 e h2, th_history t = h1 ++ e :: h2 →
    guarantee (th_definition t) h1 (ev_op e)
}.

Record world_ok (w : world S) : Prop := {
  world_view : view_ok (view w);
  world_versions : versions_ok (view w) (w_versions w);
  world_threads : ∀ i t, w_threads w !! i = Some t → thread_ok (w_versions w) t
}.


(** * Steps of stored records *)

(** What may happen to the record at one key when a call that works for [d] and
    has performed [h] performs an operation. *)
Inductive stored_step (d : ActionDefinition) (h : history)
  : option StoredProposal → option StoredProposal → Prop :=
  | stored_keep o : stored_step d h o o
  | stored_create p : initial_record d p → stored_step d h None (Some p)
  | stored_lifecycle c u :
      sp_action_type c = ad_action_type d → live_record c → record_erased c = false →
      lifecycle_step d c u → grounded d h c u → stored_step d h (Some c) (Some u)
  | stored_pending c t :
      sp_erased_at c = None → sp_lifecycle_status c ∈ ERASABLE_LIFECYCLE_STATUSES →
      erasure_authorized d h → stored_step d h (Some c) (Some (proposal_with_erasure_pending c t))
  | stored_erase c t :
      sp_erased_at c = None → is_Some (sp_erasure_pending_at c) →
      erasure_authorized d h → stored_step d h (Some c) (Some (erased_proposal c t)).

Lemma put_stored_step d h k k' p v :
  stored_step d h (proposals v !! k') (Some p) →
  stored_step d h (proposals v !! k) (proposals (put_proposal k' p v) !! k).
Proof.
  intros H. simpl. destruct (decide (k = k')) as [->|Hne].
  - by rewrite lookup_insert_eq.
  - rewrite lookup_insert_ne by done. constructor.
Qed.

(** A version a call has seen, at the revision the store still has, is the
    stored record. *)
Lemma seen_current v l k c current :
  view_ok v → versions_ok v l → c ∈ l → proposal_key c = k → proposals v !! k = Some current →
  sp_revision current = sp_revision c → current = c.
Proof.
  intros Hv Hl Hc Hk Hcur Hrev. destruct (Hv k current Hcur) as [Hkey _ _].
  eapply (versions_unique v l); eauto; [by eapply versions_current|congruence].
Qed.

Lemma store_stored_step v l d h o r v' k :
  view_ok v → versions_ok v l → (∀ c, seen h c → c ∈ l) →
  guarantee d h (Store o) → contract v o r v' →
  stored_step d h (proposals v !! k) (proposals v' !! k).
Proof.
  intros Hv Hl Hseen HG Hc.
  destruct o as [p|t p|t p rev sts u|t p rev at_ u|t a e|t p rev at_|t p rev at_]; simpl in Hc, HG.
  - destruct r as [[]|]; [|subst; constructor]. destruct Hc as (Hn & _ & ->).
    apply put_stored_step. rewrite Hn. constructor. apply HG.
  - destruct Hc as [-> _]. constructor.
  - destruct r as [[]|]; [|subst; constructor..]. destruct Hc as (cur & Hcur & Hrev & _ & _ & _ & ->).
    destruct HG as (c & [Hs Hlive He Hk Hr Ha Hst] & _ & Hg).
    assert (cur = c) as -> by (eapply (seen_current v l); eauto; congruence).
    apply put_stored_step. rewrite Hcur. by constructor.
  - assert (∀ x, admit_effect v (t, p) rev at_ u v' → x = r →
      stored_step d h (proposals v !! k) (proposals v' !! k)) as Hadm.
    { intros _ (cur & Hcur & Hrev & _ & _ & _ & _ & _ & _ & _ & ->) _.
      destruct HG as (c & [Hs Hlive He Hk Hr Ha Hst] & Hau & _).
      assert (cur = c) as -> by (eapply (seen_current v l); eauto; congruence).
      apply (put_stored_step d h k (t, p) u (put_claim (claim_key c) p v)). simpl. rewrite Hcur.
      constructor; try done. apply grounded_other. rewrite Hau. by apply (bool_decide_unpack _). }
    destruct r as [[]|]; try (subst; constructor); by eapply Hadm.
  - destruct Hc as [-> _]. constructor.
  - destruct r as [[]|]; [|subst; constructor..].
    destruct Hc as (c & Hc & _ & ? & ? & [[_ ->]| ->]); [constructor|].
    apply put_stored_step. rewrite Hc. constructor; [done..|]. apply HG.
  - destruct r as [[]|]; [|subst; constructor..]. destruct Hc as (c & Hc & _ & ? & ? & ->).
    apply put_stored_step. rewrite Hc. constructor; [done..|]. apply HG.
Qed.

Lemma contract_frame v o r v' k :
  contract v o r v' → written_key o ≠ Some k → proposals v' !! k = proposals v !! k.
Proof.
  destruct o as [p|t p|t p rev sts u|t p rev at_ u|t a e|t p rev at_|t p rev at_]; simpl; intros Hc Hk.
  - destruct r as [[]|]; [|by subst]. destruct Hc as (_ & _ & ->). simpl.
    apply lookup_insert_ne. congruence.
  - by destruct Hc as [-> _].
  - destruct r as [[]|]; [|by subst..]. destruct Hc as (c & _ & _ & _ & _ & _ & ->). simpl.
    apply lookup_insert_ne. congruence.
  - assert (admit_effect v (t, p) rev at_ u v' → proposals v' !! k = proposals v !! k) as Hadm.
    { intros (c & _ & _ & _ & _ & _ & _ & _ & _ & _ & ->). simpl. apply lookup_insert_ne. congruence. }
    destruct r as [[]|]; try (by subst); by apply Hadm.
  - by destruct Hc as [-> _].
  - destruct r as [[]|]; [|by subst..].
    destruct Hc as (c & _ & _ & _ & _ & [[_ ->]| ->]); [done|]. simpl. apply lookup_insert_ne. congruence.
  - destruct r as [[]|]; [|by subst..]. destruct Hc as (c & _ & _ & _ & _ & ->). simpl.
    apply lookup_insert_ne. congruence.
Qed.

(** What a step of a record does to its revision and to the invariant. *)
Lemma stored_step_some d h c u :
  stored_step d h (Some c) (Some u) → well_formed c →
  u = c ∨ (proposal_key u = proposal_key c ∧ sp_revision u = (sp_revision c + 1)%Z ∧ well_formed u).
Proof.
  inversion 1 as [o|p|c' u' Ha Hl He Hst|c' t He Hs|c' t He Hp]; subst; intros Hwf.
  - by left.
  - right. destruct (step_keys d c u Hst) as (Hk & _ & Hr). split_and!; [done..|].
    eauto with actions.
  - right. split_and!; [done..|]. by apply well_formed_pending.
  - right. split_and!; [done..|]. apply well_formed_erased.
Qed.

Lemma versions_ok_step v l d h o r v' :
  definition_ok d → view_ok v → view_ok v' → versions_ok v l → contract v o r v' →
  (∀ k, stored_step d h (proposals v !! k) (proposals v' !! k)) →
  versions_ok v' (l ++ new_version o v v').
Proof.
  intros Hd Hv Hv' Hl Hc Hst. unfold new_version.
  destruct (written_key o) as [k|] eqn:Ek.
  2:{ assert (Hsame : ∀ k, proposals v' !! k = proposals v !! k)
        by (intros k; apply (contract_frame v o r v' k Hc); congruence).
      rewrite app_nil_r. destruct Hl as [H1 H2 H3 H4]. constructor; try done.
      - intros k p. rewrite Hsame. apply H1.
      - intros p Hp. rewrite Hsame. by apply H2. }
  assert (Hframe : ∀ k', k' ≠ k → proposals v' !! k' = proposals v !! k')
    by (intros k' Hne; apply (contract_frame v o r v' k' Hc); congruence).
  case_decide as Hsame.
  { assert (Hall : ∀ k', proposals v' !! k' = proposals v !! k')
      by (intros k'; destruct (decide (k' = k)) as [->|]; auto).
    rewrite app_nil_r. destruct Hl as [H1 H2 H3 H4]. constructor; try done.
    - intros k' p. rewrite Hall. apply H1.
    - intros p Hp. rewrite Hall. by apply H2. }
  destruct (proposals v' !! k) as [u|] eqn:Eu.
  2:{ exfalso. specialize (Hst k). rewrite Eu in Hst. inversion Hst; congruence. }
  assert (Hku : proposal_key u = k) by by apply (record_key k u v' (Hv' k u Eu)).
  assert (Hnew : well_formed u ∧ ∀ p, p ∈ l → proposal_key p = k → (sp_revision p < sp_revision u)%Z).
  { specialize (Hst k). rewrite Eu in Hst. destruct (proposals v !! k) as [c|] eqn:Ec.
    - destruct (stored_step_some d h c u Hst) as [->|(_ & Hr & Hwf)]; [|done|].
      { by apply (versions_well_formed v l Hl), (versions_current v l Hl k). }
      split; [done|]. intros p Hp Hpk. destruct (versions_behind v l Hl p Hp) as (q & Hq & Hle).
      rewrite Hpk, Ec in Hq. injection Hq as <-. lia.
    - split.
      + inversion Hst as [|p Hi| | |]; subst.
        apply live_well_formed; [|by eapply initial_live; eauto].
        apply record_erased_false. split; apply (init_create d u Hi).
      + intros p Hp Hpk. destruct (versions_behind v l Hl p Hp) as (q & Hq & _). congruence. }
  destruct Hnew as [Hwf Hless]. destruct Hl as [H1 H2 H3 H4]. constructor.
  - intros k' p Hp. apply elem_of_app. destruct (decide (k' = k)) as [->|Hne].
    + right. apply list_elem_of_singleton. congruence.
    + left. rewrite Hframe in Hp by done. by eapply H1.
  - intros p [Hp| ->%list_elem_of_singleton]%elem_of_app.
    + destruct (decide (proposal_key p = k)) as [Hpk|Hne].
      * exists u. rewrite Hpk. split; [done|]. specialize (Hless p Hp Hpk). lia.
      * rewrite Hframe by done. by apply H2.
    + exists u. rewrite Hku. split; [done|lia].
  - intros p q [Hp| ->%list_elem_of_singleton]%elem_of_app [Hq| ->%list_elem_of_singleton]%elem_of_app
      Hkeys Hrevs; try done.
    + by apply H3.
    + specialize (Hless p Hp ltac:(congruence)). lia.
    + specialize (Hless q Hq ltac:(congruence)). lia.
  - intros p [Hp| ->%list_elem_of_singleton]%elem_of_app; [by apply H4|done].
Qed.


(** * Preservation *)

(** The record an event gives its call: returned by the store, or written. *)
Definition event_seen (e : event) : option StoredProposal :=
  match e with
  | Event (Store (Get _ _)) (Ok o) => o
  | Event (Store (Create c)) (Ok _) => Some c
  | Event (Store (CompareAndSet _ _ _ _ c)) (Ok true) => Some c
  | Event (Store (AdmitExecution _ _ _ _ c)) (Ok ACQUIRED)
  | Event (Store (AdmitExecution _ _ _ _ c)) (Ok OWNED_BY_PROPOSAL) => Some c
  | _ => None
  end.

Lemma store_or_other o : (∃ so, o = Store so) ∨ ∀ so, o ≠ Store so.
Proof. destruct o; [by left; eauto|by right..]. Qed.

Lemma event_seen_other o r : (∀ so, o ≠ Store so) → event_seen (Event o r) = None.
Proof. intros H. destruct o; try done. by destruct (H o). Qed.

Lemma seen_event h c : seen h c → ∃ e, e ∈ h ∧ event_seen e = Some c.
Proof.
  intros [(t & p & H)|[H|[(t & p & n & ss & H)|(t & p & n & at_ & x & H & Hx)]]];
    (eexists; split; [exact H|]); try done. by elem_cases Hx.
Qed.

Lemma event_seen_seen h e c : e ∈ h → event_seen e = Some c → seen h c.
Proof.
  intros Hin He. destruct e as [o r]. destruct (store_or_other o) as [[so ->]|Ho];
    [|by rewrite event_seen_other in He].
  destruct so; simpl in He; try done.
  - destruct r; [|done]. injection He as ->. right; left. by destruct a.
  - destruct r; [|done]. subst. left. eauto.
  - destruct r as [[]|]; try done. injection He as ->. right; right; left. eauto 10.
  - destruct r as [[]|]; try done; injection He as ->; right; right; right; do 5 eexists;
      (split; [exact Hin|]); rewrite list_elem_of_In; simpl; tauto.
Qed.

(** What an event shows is in the store after it. *)
Lemma event_seen_stored v so r v' c :
  contract v so r v' → event_seen (Event (Store so) r) = Some c →
  ∃ k, proposals v' !! k = Some c.
Proof.
  destruct so as [p|t p|t p rev sts u|t p rev at_ u|t a e|t p rev at_|t p rev at_]; simpl; intros Hc He;
    try done.
  - destruct r; [|done]. destruct Hc as (_ & _ & ->). injection He as ->. eexists. apply lookup_insert_eq.
  - destruct r as [x|]; [|done]. destruct Hc as [-> Hx]. exists (t, p). rewrite <-(Hx _ eq_refl). done.
  - destruct r as [[]|]; try done. destruct Hc as (? & _ & _ & _ & _ & _ & ->). injection He as ->.
    eexists. apply lookup_insert_eq.
  - destruct r as [[]|]; try done; destruct Hc as (? & _ & _ & _ & _ & _ & _ & _ & _ & _ & ->);
      injection He as ->; eexists; apply lookup_insert_eq.
Qed.

Lemma answers_ok s l d h o r s' new :
  view_ok (store_view s) → versions_ok (store_view s) l → deployed d →
  (∀ c, seen h c → c ∈ l) → guarantee d h o → answers s o r s' new →
  view_ok (store_view s') ∧ versions_ok (store_view s') (l ++ new) ∧
  (∀ c, event_seen (Event o r) = Some c → c ∈ l ++ new) ∧
  (∀ k, stored_step d h (proposals (store_view s) !! k) (proposals (store_view s') !! k)).
Proof.
  intros Hv Hl Hd Hseen HG Ha.
  assert (Hrun : ∀ so, guarantee d h (Store so) →
    let s1 := (store_run so s).2 in let new1 := new_version so (store_view s) (store_view s1) in
    view_ok (store_view s1) ∧ versions_ok (store_view s1) (l ++ new1) ∧
    ∀ k, stored_step d h (proposals (store_view s) !! k) (proposals (store_view s1) !! k)).
  { intros so HGso. assert (Hc := store_contract so s).
    assert (Hst : ∀ k, stored_step d h (proposals (store_view s) !! k)
      (proposals (store_view (store_run so s).2) !! k))
      by (intros k; by eapply store_stored_step).
    assert (Hv' : view_ok (store_view (store_run so s).2)) by eauto with actions.
    split_and!; [done| |done]. by eapply versions_ok_step; eauto. }
  destruct Ha as [so|so e|so e|o r Hother].
  - destruct (Hrun so HG) as (Hv' & Hl' & Hst). split_and!; [done..| |done].
    intros c Hc. destruct (event_seen_stored _ _ _ _ _ (store_contract so s) Hc) as (k & Hk).
    by eapply versions_current.
  - destruct (Hrun so HG) as (Hv' & Hl' & Hst). split_and!; [done..| |done].
    by destruct so.
  - rewrite app_nil_r. split_and!; [done..| |constructor]. by destruct so.
  - rewrite app_nil_r. split_and!; [done..| |constructor].
    intros c Hc. by rewrite (event_seen_other o r Hother) in Hc.
Qed.

Lemma thread_ok_mono l l' t : (∀ c, c ∈ l → c ∈ l') → thread_ok l t → thread_ok l' t.
Proof. intros Hsub [H1 H2 H3 H4]. by constructor; auto. Qed.

Lemma thread_ok_start l d c : deployed d → thread_ok l (mkThread d [] (call_prog self d c)).
Proof.
  intros Hd. constructor; simpl; [done|apply call_safe| |].
  - intros x Hx. apply seen_event in Hx as (e & He & _). by apply elem_of_nil in He.
  - by intros [|].
Qed.

Lemma thread_ok_step l d h o k r :
  thread_ok l (mkThread d h (Vis o k)) → (∀ c, c ∈ l → well_formed c) →
  (∀ c, event_seen (Event o r) = Some c → c ∈ l) →
  thread_ok l (mkThread d (h ++ [Event o r]) (k r)).
Proof.
  intros [Hd [HG Hk] Hseen Hpast] Hwf Hev.
  simpl in HG, Hk, Hseen, Hpast. constructor; [done| | |]; unfold th_history, th_program, th_definition.
  - apply Hk. intros t p c He. apply Hwf, Hev. by rewrite He.
  - intros c (e & He & Hc)%seen_event. apply elem_of_app in He as [He| ->%list_elem_of_singleton]; [|auto].
    apply Hseen. by eapply event_seen_seen.
  - intros h1 e h2 Heq. destruct h2 as [|e2 h2 _] using rev_ind.
    + apply app_inj_tail in Heq as [-> <-]. done.
    + rewrite app_comm_cons, app_assoc in Heq. apply app_inj_tail in Heq as [-> _]. by eapply Hpast.
Qed.

Lemma world_ok_initial : world_ok initial_world.
Proof.
  constructor; simpl; rewrite ?store_empty_view.
  - apply view_ok_empty.
  - constructor; try (by intros ? ?%elem_of_nil).
    + intros k p H. simpl in H. by rewrite lookup_empty in H.
    + by intros p q ?%elem_of_nil.
  - by intros i t H.
Qed.

(** Every step keeps the invariant, and does to every record what its acting
    thread may do. *)
Lemma world_step_ok w w' :
  world_ok w → world_step w w' →
  world_ok w' ∧ ∃ d h, deployed d ∧
    (h = [] ∨ ∃ i t, w_threads w !! i = Some t ∧ th_definition t = d ∧ th_history t = h) ∧
    ∀ k, stored_step d h (proposals (view w) !! k) (proposals (view w') !! k).
Proof.
  intros [Hv Hl Ht] Hstep. destruct Hstep as [d c w Hd|w i d h o k r s' new Hi Ha].
  - split; [|exists d, []; split_and!; [done|by left|constructor]].
    constructor; simpl; [done..|]. intros j t Hj.
    apply lookup_app_Some in Hj as [Hj|[_ Hj]]; [by eapply Ht|].
    apply list_lookup_singleton_Some in Hj as [_ <-]. by apply thread_ok_start.
  - assert (Hti := Ht i _ Hi). assert (Hd := thread_deployed _ _ Hti).
    destruct (answers_ok (w_store w) (w_versions w) d h o r s' new) as (Hv' & Hl' & Hev & Hst);
      [done..|apply Hti|apply Hti|done|].
    split; [|exists d, h; split_and!; [done| |done]; right; by eexists _, _].
    assert (Hmono : ∀ c, c ∈ w_versions w → c ∈ w_versions w ++ new)
      by (intros c Hc; apply elem_of_app; by left).
    constructor; simpl; [done..|]. intros j t Hj.
    destruct (decide (i = j)) as [<-|Hne].
    + rewrite list_lookup_insert_eq in Hj by by eapply lookup_lt_Some.
      injection Hj as <-. apply thread_ok_step; [by eapply thread_ok_mono|apply Hl'|done].
    + rewrite list_lookup_insert_ne in Hj by done. eapply thread_ok_mono; [done|by eapply Ht].
Qed.

Lemma reachable_ok w : reachable w → world_ok w.
Proof.
  induction 1 as [|w w' Hr IH Hs]; [apply world_ok_initial|]. by apply (world_step_ok w w').
Qed.

End World.
