(* ===== verification/RuntimeEffects.v ===== *)
(** What the runtime promises of a concurrent deployment: stored records follow
    the lifecycle machine, the executor is called at most once per admission,
    and a second call for a proposal needs an authoritative verdict that the
    effect of the first one is finally absent. *)

From S2P Require Import Prelude Models Canonical Authority Receipts Registry StoreBase StoreContract.
From S2P Require Import MemoryStore Recovery Evidence Program Runtime Scenario.
From S2P Require Import Lifecycle RuntimeGuarantee RuntimeCalls RuntimeWorld.

(** * Vocabulary *)

(** The approval of a record in one of these statuses is used up: the lifecycle
    leads from it to no execution, except through a granted resend. *)
Definition spent (s : LifecycleStatus) : bool :=
  negb (bool_decide (s ∈ [AWAITING_AUTHORITY; AUTHORIZED])).

Definition acknowledged (h : history) (u : StoredProposal) : Prop :=
  ∃ t p n at_ x, Event (Store (AdmitExecution t p n at_ u)) (Ok x) ∈ h ∧
    x ∈ [ACQUIRED; OWNED_BY_PROPOSAL].

(** A thread's verifier answered that the effect of the proposal is finally
    absent, past the settling boundary, with the target's idempotency
    guaranteed, and the definition allows the effect to be sent again. *)
Definition resend_granted (ts : list thread) (k : ProposalKey) : Prop :=
  ∃ i t ctx v, ts !! i = Some t ∧
    Event (Verify (ad_verifier (th_definition t)) ctx) (Ok v) ∈ th_history t ∧
    (xc_tenant_reference ctx, xc_proposal_reference ctx) = k ∧
    vr_status v = VS_AUTHORITATIVE_FINAL_ABSENCE ∧ resend_allowed (th_definition t) v = true.

Section Effects.
Context `{U : Unicode} {S : Type} `{Hstore : ActionStore S}.
Variable self : ActionRuntime.
Variable deployed : ActionDefinition → Prop.
Hypothesis deployed_ok : ∀ d, deployed d → definition_ok d.

Abbreviation reachable := (reachable self deployed).
Abbreviation world_step := (world_step self deployed).
Abbreviation world_ok := (world_ok deployed).
Abbreviation thread_ok := (thread_ok deployed).

(** * Leaving the spent statuses *)

Lemma transition_authorized d c v n :
  (_verification_transition d c v n).1.1 = AUTHORIZED →
  vr_status v = VS_AUTHORITATIVE_FINAL_ABSENCE ∧ resend_allowed d v = true.
Proof.
  unfold _verification_transition.
  destruct (vr_status v); simpl; repeat case_match; try done.
Qed.

Lemma spent_step d c u :
  lifecycle_step d c u → spent (sp_lifecycle_status c) = true →
  spent (sp_lifecycle_status u) = true ∨
  (sp_lifecycle_status c = VERIFICATION_PENDING ∧ sp_lifecycle_status u = AUTHORIZED).
Proof.
  intros H Hsub. step_cases H; rewrite Hs in *; try done; try (by left).
  - left. by destruct s.
  - destruct (verification_transition_allowed d c v (sp_verification_attempts c)) as [->|Hv];
      [by left|]. revert Hv. generalize ((_verification_transition d c v (sp_verification_attempts c)).1.1).
    intros t Hv. elem_cases Hv; first [by left|by right].
Qed.

(** * New versions *)

Lemma new_version_elem so v v' k q :
  written_key so = Some k → proposals v' !! k = Some q → proposals v !! k ≠ Some q →
  q ∈ new_version so v v'.
Proof.
  intros Hk Hq Hn. unfold new_version. rewrite Hk, Hq, decide_False by congruence.
  by apply list_elem_of_singleton.
Qed.

Lemma answers_new s o r s' new q :
  answers s o r s' new → q ∈ new →
  ∃ k, proposals (store_view s') !! k = Some q ∧ proposals (store_view s) !! k ≠ Some q.
Proof.
  assert (Hnew : ∀ so v v', q ∈ new_version so v v' →
    ∃ k, proposals v' !! k = Some q ∧ proposals v !! k ≠ Some q).
  { intros so v v'. unfold new_version. destruct (written_key so) as [k|]; [|by intros ?%elem_of_nil].
    case_decide as Hd; [by intros ?%elem_of_nil|].
    destruct (proposals v' !! k) as [u|] eqn:Eu; [|by intros ?%elem_of_nil].
    intros ->%list_elem_of_singleton. exists k. split; [done|]. congruence. }
  intros [so|so e|so e|o' r' _] Hq; try (by apply elem_of_nil in Hq); by eapply Hnew.
Qed.

(** A new version is later than every version of its proposal. *)
Lemma new_version_above s d h l o r s' new q :
  view_ok (store_view s) → versions_ok (store_view s) l → view_ok (store_view s') →
  (∀ k, stored_step d h (proposals (store_view s) !! k) (proposals (store_view s') !! k)) →
  answers s o r s' new → q ∈ new →
  proposals (store_view s') !! proposal_key q = Some q ∧
  ∀ p, p ∈ l → proposal_key p = proposal_key q → (sp_revision p < sp_revision q)%Z ∧
    ∃ c, c ∈ l ∧ proposal_key c = proposal_key q ∧ (sp_revision p <= sp_revision c)%Z ∧
      stored_step d h (Some c) (Some q).
Proof.
  intros Hv Hl Hv' Hst Ha Hq. destruct (answers_new _ _ _ _ _ _ Ha Hq) as (k & Hk & Hnk).
  assert (proposal_key q = k) as Hkey by apply (Hv' k q Hk). rewrite Hkey. split; [done|].
  intros p Hp Hpk. destruct (versions_behind _ _ Hl p Hp) as (c & Hc & Hle). rewrite Hpk in Hc.
  specialize (Hst k). rewrite Hk, Hc in Hst.
  assert (c ∈ l) as Hcl by by eapply versions_current.
  destruct (stored_step_some d h c q Hst) as [->|(Hkc & Hr & _)]; [by eapply versions_well_formed|done|].
  split; [lia|]. exists c. split_and!; try done. congruence.
Qed.

(** * The invariant *)

Record effects_ok (w : world S) : Prop := {
  effects_admissions : ∀ i j ti tj u u',
    w_threads w !! i = Some ti → w_threads w !! j = Some tj → i ≠ j →
    acknowledged (th_history ti) u → acknowledged (th_history tj) u' →
    proposal_key u = proposal_key u' → sp_revision u ≠ sp_revision u';
  effects_spent : ∀ p q, p ∈ w_versions w → q ∈ w_versions w →
    proposal_key p = proposal_key q → (sp_revision p <= sp_revision q)%Z →
    spent (sp_lifecycle_status p) = true →
    spent (sp_lifecycle_status q) = true ∨ resend_granted (w_threads w) (proposal_key p)
}.

Lemma resend_granted_mono ts ts' k :
  (∀ i t, ts !! i = Some t → ∃ t', ts' !! i = Some t' ∧ th_definition t' = th_definition t ∧
     ∀ e, e ∈ th_history t → e ∈ th_history t') →
  resend_granted ts k → resend_granted ts' k.
Proof.
  intros Hmono (i & t & ctx & v & Hi & Hv & Hk & Hs & Hr).
  destruct (Hmono i t Hi) as (t' & Hi' & Hd & Hh). exists i, t', ctx, v. rewrite Hd. auto 10.
Qed.

Lemma acknowledged_seen h u : acknowledged h u → seen h u.
Proof. intros (t & p & n & at_ & x & H & Hx). right; right; right. eauto 10. Qed.

Lemma acknowledged_app h o r u :
  acknowledged (h ++ [Event o r]) u → acknowledged h u ∨ acknowledged [Event o r] u.
Proof.
  intros (t & p & n & at_ & x & H & Hx).
  apply elem_of_app in H as [H|H]; [left|right]; exists t, p, n, at_, x; auto.
Qed.

(** An admission is acknowledged when it has just been stored. *)
Lemma acknowledged_new s o r s' new u :
  view_ok (store_view s) → answers s o r s' new → acknowledged [Event o r] u → u ∈ new.
Proof.
  intros Hv Ha (t & p & n & at_ & x & Hin%list_elem_of_singleton & Hx).
  destruct Ha as [so|so e|so e|o r Hother].
  - assert (Hc := store_contract so s).
    assert (so = AdmitExecution t p n at_ u) as -> by (injection Hin; auto).
    assert ((store_run (AdmitExecution t p n at_ u) s).1 = Ok x) as Hr.
    { apply (f_equal (λ e, match e with
        | Event (Store (AdmitExecution _ _ _ _ _)) r => Some (r : res EffectClaimResult)
        | _ => None end)) in Hin.
      injection Hin as Hin. exact (eq_sym Hin). }
    set (out := store_run (AdmitExecution t p n at_ u) s) in *.
    assert (Hc' : contract (store_view s) (AdmitExecution t p n at_ u) (Ok x) (store_view out.2))
      by by rewrite <-Hr.
    assert (admit_effect (store_view s) (t, p) n at_ u
      (store_view out.2)) as Hadm
      by by (rewrite list_elem_of_In in Hx; simpl in Hx; destruct_or?; subst).
    destruct Hadm as (c & Hcur & Hrev & _ & _ & _ & _ & Hu & _ & _ & Hview).
    apply update_revision in Hu. eapply new_version_elem; [done| |].
    + exact (eq_trans (f_equal (λ v, proposals v !! (t, p)) Hview) (lookup_insert_eq _ _ _)).
    + rewrite Hcur. intros [= ->]. lia.
  - apply (f_equal (λ e, failed e)) in Hin. done.
  - apply (f_equal (λ e, failed e)) in Hin. done.
  - apply (f_equal ev_op) in Hin. simpl in Hin. by destruct (Hother _ (eq_sym Hin)).
Qed.

Lemma effects_ok_start w d c :
  effects_ok w →
  effects_ok (mkWorld (w_store w) (w_threads w ++ [mkThread d [] (call_prog self d c)]) (w_versions w)).
Proof.
  intros [Ha Hs]. constructor; simpl.
  - assert (Hold : ∀ i t u, (w_threads w ++ [mkThread d [] (call_prog self d c)]) !! i = Some t →
      acknowledged (th_history t) u → w_threads w !! i = Some t).
    { intros i t u Hi Hu. apply lookup_app_Some in Hi as [Hi|[_ Hi]]; [done|].
      apply list_lookup_singleton_Some in Hi as [_ <-].
      destruct Hu as (? & ? & ? & ? & ? & Hin & _). by apply elem_of_nil in Hin. }
    intros i j ti tj u u' Hi Hj Hne Hu Hu'.
    apply (Ha i j ti tj); [by eapply Hold|by eapply Hold|done..].
  - intros p q Hp Hq Hk Hr Hst. destruct (Hs p q Hp Hq Hk Hr Hst) as [|Hg]; [by left|right].
    eapply resend_granted_mono; [|exact Hg]. intros i t Hi. exists t. split_and!; try done.
    by apply lookup_app_l_Some.
Qed.

(** A step that leaves the spent statuses was granted. *)
Lemma unspent_granted ts i d h o r k p c q :
  ts !! i = Some (mkThread d (h ++ [Event o r]) p) →
  stored_step d h (Some c) (Some q) → spent (sp_lifecycle_status c) = true → proposal_key c = k →
  spent (sp_lifecycle_status q) = true ∨ resend_granted ts k.
Proof.
  intros Hi Hst Hc <-.
  inversion Hst as [o'|p'|c' u' Ha Hl He Hs Hg|c' t He Hs Hau|c' t He Hp Hau]; subst; auto.
  destruct (spent_step d c q Hs Hc) as [|[Hvp Hau]]; [by left|right].
  destruct (grounded_verification _ _ _ _ Hg Hvp) as (ctx & v & Hv & (Ht & Hp & _) & Htr).
  { rewrite Hau, list_elem_of_In. simpl. tauto. }
  rewrite Hau in Htr. apply transition_authorized in Htr as [Hvs Hr].
  eexists i, _, ctx, v. split_and!; [exact Hi|by apply elem_before| |done..].
  unfold proposal_key. congruence.
Qed.

Lemma effects_ok_thread w i d h o k r s' new :
  world_ok w → effects_ok w → w_threads w !! i = Some (mkThread d h (Vis o k)) →
  answers (w_store w) o r s' new →
  effects_ok (mkWorld s' (<[i := mkThread d (h ++ [Event o r]) (k r)]> (w_threads w))
                (w_versions w ++ new)).
Proof.
  intros [Hv Hl Ht] [Ha Hs] Hi Hans. assert (Hti := Ht i _ Hi).
  destruct (answers_ok deployed deployed_ok (w_store w) (w_versions w) d h o r s' new)
    as (Hv' & _ & _ & Hst); [done|done|apply Hti|apply Hti|apply Hti|done|].
  assert (Habove := λ q, new_version_above (w_store w) d h (w_versions w) o r s' new q Hv Hl Hv' Hst Hans).
  assert (Hset : <[i := mkThread d (h ++ [Event o r]) (k r)]> (w_threads w) !! i
    = Some (mkThread d (h ++ [Event o r]) (k r)))
    by by apply list_lookup_insert_eq; eapply lookup_lt_Some.
  constructor; simpl.
  - assert (Hfresh : ∀ j tj u u', w_threads w !! j = Some tj → i ≠ j →
      acknowledged (h ++ [Event o r]) u → acknowledged (th_history tj) u' →
      proposal_key u = proposal_key u' → sp_revision u ≠ sp_revision u').
    { intros j tj u u' Hj Hne Hu Hu' Hk.
      apply acknowledged_app in Hu as [Hu|Hu]; [by apply (Ha i j (mkThread d h (Vis o k)) tj)|].
      destruct (Habove u) as [_ Hless]; [exact (acknowledged_new _ o r s' new u Hv Hans Hu)|].
      destruct (Hless u') as [Hlt _]; [|done|lia].
      by eapply thread_seen; [by eapply Ht|apply acknowledged_seen]. }
    intros j j' tj tj' u u' Hj Hj' Hne Hu Hu' Hk.
    destruct (decide (i = j)) as [<-|Hij]; [|destruct (decide (i = j')) as [<-|Hij']].
    + rewrite Hset in Hj. injection Hj as <-. rewrite list_lookup_insert_ne in Hj' by done.
      by eapply Hfresh.
    + rewrite Hset in Hj'. injection Hj' as <-. rewrite list_lookup_insert_ne in Hj by done.
      intros Heq. by eapply (Hfresh j tj u' u).
    + rewrite list_lookup_insert_ne in Hj, Hj' by done. by eapply (Ha j j').
  - assert (Hmono : ∀ key, resend_granted (w_threads w) key →
      resend_granted (<[i := mkThread d (h ++ [Event o r]) (k r)]> (w_threads w)) key).
    { intros key. apply resend_granted_mono. intros j t Hj.
      destruct (decide (i = j)) as [<-|Hne].
      - rewrite Hi in Hj. injection Hj as <-. eexists. split; [exact Hset|]. split; [done|].
        intros e He. by apply elem_before.
      - exists t. by rewrite list_lookup_insert_ne. }
    intros p q Hp Hq Hk Hle Hsp. apply elem_of_app in Hp as [Hp|Hp]; apply elem_of_app in Hq as [Hq|Hq].
    + destruct (Hs p q Hp Hq Hk Hle Hsp); auto.
    + destruct (Habove q Hq) as [_ Hless]. destruct (Hless p Hp Hk) as (_ & c & Hc & Hck & Hpc & Hstep).
      rewrite Hk, <-Hck. destruct (Hs p c Hp Hc ltac:(congruence) Hpc Hsp) as [Hcs|Hg].
      * by eapply unspent_granted.
      * right. apply Hmono. congruence.
    + destruct (Habove p Hp) as [_ Hless]. destruct (Hless q Hq (eq_sym Hk)). lia.
    + left. destruct (Habove p Hp) as [Hpp _], (Habove q Hq) as [Hqq _].
      rewrite Hk in Hpp. congruence.
Qed.

Lemma reachable_effects w : reachable w → effects_ok w.
Proof.
  induction 1 as [|w w' Hr IH Hs].
  - constructor; simpl; [done|]. by intros p q ?%elem_of_nil.
  - destruct Hs as [d c w Hd|w i d h o k r s' new Hi Ha]; [by apply effects_ok_start|].
    apply effects_ok_thread; try done. by eapply reachable_ok.
Qed.

(** * Calls of the executor *)

(** The [n]-th operation of the [i]-th call of a world is the executor's, for
    the proposal [k]. *)
Definition executor_call (w : world S) (i n : nat) (k : ProposalKey) : Prop :=
  ∃ t p snapshot ctx pre r, w_threads w !! i = Some t ∧
    th_history t !! n = Some (Event (Execute p snapshot ctx pre) r) ∧
    (xc_tenant_reference ctx, xc_proposal_reference ctx) = k.

Lemma thread_gate l t n p snapshot ctx pre r :
  thread_ok l t → th_history t !! n = Some (Event (Execute p snapshot ctx pre) r) →
  quiet (take n (th_history t)) ∧
  ∃ c u, context_for ctx c ∧ c ∈ l ∧ u ∈ l ∧ sp_lifecycle_status c = AUTHORIZED ∧
    sp_lifecycle_status u = EXECUTING ∧ acknowledged (th_history t) u ∧
    lifecycle_step (th_definition t) c u.
Proof.
  intros Ht Hn.
  destruct (thread_past deployed l t Ht (take n (th_history t))
    (Event (Execute p snapshot ctx pre) r) (drop (Datatypes.S n) (th_history t)))
    as [_ (c & u & k & es & resolved & at_ & now & Hg)]; [by rewrite take_drop_middle|].
  assert (Hsub : ∀ e, e ∈ take n (th_history t) → e ∈ th_history t)
    by (intros e He; rewrite <-(take_drop n (th_history t)); apply elem_of_app; by left).
  destruct (gate_admitted _ _ _ _ _ _ _ _ _ _ _ _ Hg) as (x & Hadm & Hx).
  destruct (gate_step _ _ _ _ _ _ _ _ _ _ _ _ Hg) as [Hstep Hex].
  assert (Hack : acknowledged (th_history t) u) by (do 5 eexists; split; [by apply Hsub|done]).
  split; [apply Hg|]. exists c, u. split_and!; try done.
  - eapply execution_context_for. apply Hg.
  - eapply thread_seen; [done|]. eapply seen_mono; [exact Hsub|apply Hg].
  - eapply thread_seen; [done|]. by apply acknowledged_seen.
  - apply Hg.
Qed.

(** Two calls of one thread are the same call; calls of different threads come
    from admissions of different revisions. *)
Lemma executor_calls_apart w i j n m k :
  world_ok w → effects_ok w → executor_call w i n k → executor_call w j m k →
  (i = j ∧ n = m) ∨ resend_granted (w_threads w) k.
Proof.
  intros [Hv Hl Ht] [Ha Hs] (t & p & s & x & pre & r & Hi & Hn & Hk)
    (t' & p' & s' & x' & pre' & r' & Hj & Hm & Hk').
  destruct (thread_gate _ t n p s x pre r (Ht i t Hi) Hn) as (Hq & c & u & Hx & Hc & Hu & Hau & Hex & Hack & Hst).
  destruct (thread_gate _ t' m p' s' x' pre' r' (Ht j t' Hj) Hm)
    as (Hq' & c' & u' & Hx' & Hc' & Hu' & Hau' & Hex' & Hack' & Hst').
  destruct (decide (i = j)) as [->|Hne].
  - left. split; [done|]. assert (t' = t) as -> by congruence.
    destruct (Nat.lt_trichotomy n m) as [Hlt|[->|Hlt]]; [|done|]; exfalso.
    + assert (Hin : Event (Execute p s x pre) r ∈ take m (th_history t))
        by (eapply list_elem_of_lookup_2; rewrite lookup_take_lt; done).
      by destruct (Hq' _ Hin).
    + assert (Hin : Event (Execute p' s' x' pre') r' ∈ take n (th_history t))
        by (eapply list_elem_of_lookup_2; rewrite lookup_take_lt; done).
      by destruct (Hq _ Hin).
  - right. destruct (step_keys _ _ _ Hst) as (Huk & _ & Hur).
    destruct (step_keys _ _ _ Hst') as (Huk' & _ & Hur').
    assert (Hck : proposal_key c = k) by (destruct Hx as (? & ? & _); unfold proposal_key; congruence).
    assert (Hck' : proposal_key c' = k) by (destruct Hx' as (? & ? & _); unfold proposal_key; congruence).
    assert (Hrev : sp_revision u ≠ sp_revision u')
      by (eapply (Ha i j); eauto; congruence).
    destruct (Z.lt_total (sp_revision u) (sp_revision u')) as [Hlt|[|Hlt]]; [|done|].
    + destruct (Hs u c' Hu Hc') as [Hsp|Hg]; [congruence|lia|by rewrite Hex| |].
      * by rewrite Hau' in Hsp.
      * by rewrite Huk, Hck in Hg.
    + destruct (Hs u' c Hu' Hc) as [Hsp|Hg]; [congruence|lia|by rewrite Hex'| |].
      * by rewrite Hau in Hsp.
      * by rewrite Huk', Hck' in Hg.
Qed.
End Effects.

(** * Worlds of the scenario *)

Definition sample_deployed (d : ActionDefinition) : Prop := ∃ resend, d = sample_definition resend.

Lemma sample_deployed_ok d : sample_deployed d → definition_ok d.
Proof. intros [resend ->]. constructor; simpl; unfold minutes, seconds; lia. Qed.

Lemma handle_answers b o s :
  ∃ new, answers (dp_store s) o (handle b o s).1 (dp_store (handle b o s).2) new.
Proof.
  destruct (store_or_other o) as [[so ->]|Ho].
  - assert (H := answer_store (dp_store s) so). simpl in H. simpl.
    destruct (memory_run so (dp_store s)). eexists. exact H.
  - exists []. assert (dp_store (handle b o s).2 = dp_store s) as ->
      by (destruct o; [by edestruct Ho|done..]).
    by constructor.
Qed.

(** Calls one after another, each with the host behaving as given. *)
Fixpoint flow (cs : list (behaviour * bool * runtime_call)) (s : deployment) : list thread * deployment :=
  match cs with
  | [] => ([], s)
  | (b, resend, c) :: cs =>
      let d := sample_definition resend in
      let out := run (handle b) (call_prog self d c) s in
      let '(ts, s') := flow cs (final out) in
      (mkThread d out.1.1 (lift out.1.2) :: ts, s')
  end.

Section Flow.
Variable deployed : ActionDefinition → Prop.
Abbreviation sample_reachable := (reachable (S := MemoryActionStore) self deployed).

Lemma run_reachable b (p : prog unit) w i d h s :
  sample_reachable w → w_threads w !! i = Some (mkThread d h p) → w_store w = dp_store s →
  ∃ w', sample_reachable w' ∧ w_store w' = dp_store (run (handle b) p s).2 ∧
    w_threads w' = <[i := mkThread d (h ++ (run (handle b) p s).1.1) (lift (run (handle b) p s).1.2)]>
                     (w_threads w).
Proof.
  revert w h s. induction p as [a|e|o k IH]; intros w h s Hr Hi Hs; simpl.
  - exists w. rewrite app_nil_r. split_and!; try done. by rewrite list_insert_id.
  - exists w. rewrite app_nil_r. split_and!; try done. by rewrite list_insert_id.
  - destruct (handle_answers b o s) as [new Ha]. rewrite <-Hs in Ha.
    destruct (handle b o s) as [r s1] eqn:E. simpl in Ha.
    destruct (IH r (mkWorld (dp_store s1) (<[i := mkThread d (h ++ [Event o r]) (k r)]> (w_threads w))
      (w_versions w ++ new)) (h ++ [Event o r]) s1) as (w' & Hr' & Hs' & Ht').
    + eapply reachable_step; [exact Hr|]. by econstructor.
    + simpl. apply list_lookup_insert_eq. by eapply lookup_lt_Some.
    + done.
    + destruct (run (handle b) (k r) s1) as [[es a] s2]. simpl in *. exists w'. split_and!; try done.
      rewrite Ht', list_insert_insert_eq, <-app_assoc. done.
Qed.

Lemma flow_reachable cs w s :
  Forall (λ x, deployed (sample_definition x.1.2)) cs → sample_reachable w → w_store w = dp_store s →
  ∃ w', sample_reachable w' ∧ w_store w' = dp_store (flow cs s).2 ∧
    w_threads w' = w_threads w ++ (flow cs s).1.
Proof.
  intros Hcs. revert w s.
  induction Hcs as [|[[b resend] c] cs Hd Hcs IH]; intros w s Hr Hs; simpl.
  - exists w. by rewrite app_nil_r.
  - set (d := sample_definition resend).
    destruct (run_reachable b (call_prog self d c)
      (mkWorld (w_store w) (w_threads w ++ [mkThread d [] (call_prog self d c)]) (w_versions w))
      (length (w_threads w)) d [] s) as (w1 & Hr1 & Hs1 & Ht1).
    + eapply reachable_step; [exact Hr|]. by constructor.
    + simpl. by rewrite list_lookup_middle.
    + done.
    + destruct (IH w1 (final (run (handle b) (call_prog self d c) s)) Hr1 Hs1) as (w' & Hr' & Hs' & Ht').
      destruct (flow cs _) as [ts s']. exists w'. split_and!; try done.
      rewrite Ht', Ht1. simpl. rewrite insert_app_r_alt, Nat.sub_diag by lia. simpl.
      by rewrite <-app_assoc.
Qed.

Lemma sample_world cs :
  Forall (λ x, deployed (sample_definition x.1.2)) cs →
  ∃ w, sample_reachable w ∧ w_store w = dp_store (flow cs start).2 ∧ w_threads w = (flow cs start).1.
Proof.
  intros Hcs.
  destruct (flow_reachable cs (initial_world (S := MemoryActionStore)) start Hcs) as (w & Hr & Hs & Ht);
    [constructor|done|]. by exists w.
Qed.

(** A record that is in the store was put there by some step. *)
Lemma reachable_created w k :
  sample_reachable w → proposals (memory_view (w_store w)) !! k ≠ None →
  ∃ w1 w2, sample_reachable w1 ∧ world_step (S := MemoryActionStore) self deployed w1 w2 ∧
    proposals (memory_view (w_store w1)) !! k = None ∧ proposals (memory_view (w_store w2)) !! k ≠ None.
Proof.
  induction 1 as [|w w' Hr IH Hs]; [done|]. intros Hk.
  destruct (proposals (memory_view (w_store w)) !! k) eqn:E; [by apply IH|]. eauto 10.
Qed.
End Flow.

Section Properties.
Context `{U : Unicode} {S : Type} `{Hstore : ActionStore S}.
Variable self : ActionRuntime.
Variable deployed : ActionDefinition → Prop.
Hypothesis deployed_ok : ∀ d, deployed d → definition_ok d.

Abbreviation reachable := (reachable self deployed).
Abbreviation world_step := (world_step self deployed).
Abbreviation world_ok := (world_ok deployed).

(** * The properties *)

(** C3: refinement, for concurrent calls and an unreliable store: in a reachable
    world every step of the system does to every stored record nothing, or what
    the acting call may do to it: the creation of an initial record of its
    definition, a step of the lifecycle machine on a live record of its action
    whose verdict is grounded in what the call has performed, or a marking or
    an erasure that the host authorized in this call. *)
Theorem stored_records_refine_lifecycle (w w' : world S)
  (Hreach : reachable w) (Hstep : world_step w w') :
  ∃ d h, deployed d ∧
    (h = [] ∨ ∃ i t, w_threads w !! i = Some t ∧ th_definition t = d ∧ th_history t = h) ∧
    ∀ k, stored_step d h (proposals (store_view (w_store w)) !! k)
           (proposals (store_view (w_store w')) !! k).
Proof.
  refine (proj2 (world_step_ok self deployed deployed_ok w w' _ Hstep)). by eapply reachable_ok.
Qed.

(** C6: invariant of a deployment: every record stored in a reachable world is
    well-formed, stored under its own key, holds the claim of its effect while
    the effect is live, and is the only live record of that effect. *)
Theorem stored_records_well_formed (w : world S) (k : ProposalKey) (p : StoredProposal)
  (Hreach : reachable w) (Hp : proposals (store_view (w_store w)) !! k = Some p) :
  well_formed p ∧ record_ok k p (store_view (w_store w)) ∧
  ∀ k' q, proposals (store_view (w_store w)) !! k' = Some q → claim_key q = claim_key p →
    effect_live (sp_lifecycle_status p) = true → effect_live (sp_lifecycle_status q) = true → k' = k.
Proof.
  destruct (reachable_ok self deployed deployed_ok w Hreach) as [Hv Hl _].
  split_and!; [by eapply versions_well_formed, versions_current|by apply Hv|].
  intros k' q Hq Hck Hlp Hlq. destruct (Hv k p Hp) as [Hk _ Hclaim].
  destruct (Hv k' q Hq) as [Hk' _ Hclaim'].
  specialize (Hclaim Hlp). specialize (Hclaim' Hlq). rewrite Hck, Hclaim in Hclaim'.
  rewrite <-Hk, <-Hk'. unfold claim_key, claim_key_of in Hck. unfold proposal_key. congruence.
Qed.

(** C1: an effect is sent again only on an authoritative verdict: whatever calls
    run concurrently, crash, or lose answers of the store, a proposal for which
    the executor is called twice is one for which a verifier answered that the
    effect is finally absent, with the settling boundary passed and the target's
    idempotency guaranteed, under a definition that allows resending. *)
Theorem second_execution_needs_resend (w : world S) (i j n m : nat) (k : ProposalKey)
  (Hreach : reachable w) (Hfirst : executor_call w i n k) (Hsecond : executor_call w j m k)
  (Hdistinct : (i, n) ≠ (j, m)) :
  resend_granted (w_threads w) k.
Proof.
  destruct (executor_calls_apart deployed w i j n m k) as [[-> ->]|]; try done.
  - by eapply reachable_ok.
  - by eapply reachable_effects.
Qed.

(** C5: at most once: when no definition in use allows resending, the executor is
    called at most once for a proposal, over all calls of the deployment. *)
Theorem executor_at_most_once (w : world S) (i j n m : nat) (k : ProposalKey)
  (Hnever : ∀ d, deployed d → ad_allow_resend_after_final_absence d = false)
  (Hreach : reachable w) (Hfirst : executor_call w i n k) (Hsecond : executor_call w j m k) :
  i = j ∧ n = m.
Proof.
  assert (Hok : world_ok w) by by eapply reachable_ok.
  destruct (executor_calls_apart deployed w i j n m k Hok (reachable_effects self deployed deployed_ok w Hreach) Hfirst Hsecond)
    as [|(a & t & ctx & v & Ha & _ & _ & _ & Hr)]; [done|].
  assert (Hd := Hnever _ (thread_deployed _ _ _ (world_threads _ w Hok a t Ha))).
  unfold resend_allowed in Hr. by rewrite Hd in Hr.
Qed.

End Properties.

(** * The scenario *)

Section Witness.

Definition context : ReadContext := mkReadContext "tenant" (mkEvidenceConsumer "auditor").
Definition absent : behaviour := mkBehaviour false None (Ok accepting) (Ok finally_absent).

(** Prepare, approve, execute; the target says the effect is finally absent;
    execute again when the definition allows it. *)
Definition sample_calls (resend : bool) : list (behaviour * bool * runtime_call) :=
  [(usual, resend, CallPrepare "tenant" (mkPyModel "Command" []) customer None (Some "order:7"%py));
   (usual, resend, CallRecordAuthority (approval prepared_world "order:7") approver None);
   (usual, resend, CallExecute "tenant" "order:7");
   (absent, resend, CallReconcile "tenant" "order:7");
   (usual, resend, CallExecute "tenant" "order:7")].

Definition sample_threads (resend : bool) : list thread := (flow (sample_calls resend) start).1.

(** Where a thread calls the executor, and for which proposal. *)
Definition execute_context (e : event) : option ProposalKey :=
  match ev_op e with
  | Execute _ _ ctx _ => Some (xc_tenant_reference ctx, xc_proposal_reference ctx)
  | _ => None
  end.

Lemma executor_call_intro {S} (w : world S) i n k :
  (t ← w_threads w !! i; e ← th_history t !! n; execute_context e) = Some k →
  executor_call w i n k.
Proof.
  unfold executor_call. intros (t & Hi & (e & Hn & He)%bind_Some)%bind_Some.
  destruct e as [o r]. destruct o; try done. injection He as He.
  do 6 eexists. split_and!; [exact Hi|exact Hn|exact He].
Qed.

Lemma second_execution_needs_resend_witness :
  ∃ w : world MemoryActionStore, executor_call w 2 14 ("tenant"%py, "order:7"%py) ∧
    executor_call w 4 14 ("tenant"%py, "order:7"%py) ∧
    resend_granted (w_threads w) ("tenant"%py, "order:7"%py).
Proof.
  destruct (sample_world sample_deployed (sample_calls true)) as (w & Hr & _ & Ht);
    [by repeat constructor; eexists|]. exists w.
  assert (H2 : executor_call w 2 14 ("tenant"%py, "order:7"%py))
    by (apply executor_call_intro; rewrite Ht; vm_compute; reflexivity).
  assert (H4 : executor_call w 4 14 ("tenant"%py, "order:7"%py))
    by (apply executor_call_intro; rewrite Ht; vm_compute; reflexivity).
  split; [exact H2|]. split; [exact H4|].
  apply (second_execution_needs_resend self sample_deployed sample_deployed_ok w 2 4 14 14 _ Hr H2 H4).
  discriminate.
Defined.

Definition never_resent (d : ActionDefinition) : Prop := d = sample_definition false.

Lemma never_resent_ok d : never_resent d → definition_ok d.
Proof. intros ->. by apply sample_deployed_ok; eexists. Qed.

Lemma executor_at_most_once_witness :
  ∃ w : world MemoryActionStore, executor_call w 2 14 ("tenant"%py, "order:7"%py) ∧
    ∀ j m, executor_call w j m ("tenant"%py, "order:7"%py) → 2 = j ∧ 14 = m.
Proof.
  destruct (sample_world never_resent (sample_calls false)) as (w & Hr & _ & Ht);
    [by repeat constructor|]. exists w.
  assert (H2 : executor_call w 2 14 ("tenant"%py, "order:7"%py))
    by (apply executor_call_intro; rewrite Ht; vm_compute; reflexivity).
  split; [exact H2|]. intros j m Hj.
  apply (executor_at_most_once self never_resent never_resent_ok w 2 j 14 m ("tenant"%py, "order:7"%py)); try done.
  by intros d ->.
Defined.

Lemma stored_records_well_formed_witness :
  ∃ (w : world MemoryActionStore) p,
    proposals (memory_view (w_store w)) !! ("tenant"%py, "order:7"%py) = Some p ∧ well_formed p.
Proof.
  destruct (sample_world never_resent (sample_calls false)) as (w & Hr & Hs & _);
    [by repeat constructor|]. exists w.
  assert (Hp : is_Some (proposals (memory_view (w_store w)) !! ("tenant"%py, "order:7"%py)))
    by (rewrite Hs; vm_compute; eexists; reflexivity).
  destruct Hp as [p Hp]. exists p. split; [exact Hp|].
  apply (stored_records_well_formed self never_resent never_resent_ok w ("tenant"%py, "order:7"%py) p Hr Hp).
Defined.

(** The step that creates the proposal. *)
Lemma stored_records_refine_lifecycle_witness :
  ∃ (w w' : world MemoryActionStore) p,
    proposals (memory_view (w_store w)) !! ("tenant"%py, "order:7"%py) = None ∧
    proposals (memory_view (w_store w')) !! ("tenant"%py, "order:7"%py) = Some p ∧
    initial_record (sample_definition false) p.
Proof.
  destruct (sample_world never_resent (sample_calls false)) as (w & Hr & Hs & _);
    [by repeat constructor|].
  destruct (reachable_created never_resent w ("tenant"%py, "order:7"%py) Hr) as (w1 & w2 & Hr1 & Hst & H1 & H2);
    [rewrite Hs; vm_compute; discriminate|].
  destruct (stored_records_refine_lifecycle self never_resent never_resent_ok w1 w2 Hr1 Hst)
    as (d & h & -> & _ & Hk).
  assert (Hs1 : stored_step (sample_definition false) h
    (proposals (memory_view (w_store w1)) !! ("tenant"%py, "order:7"%py))
    (proposals (memory_view (w_store w2)) !! ("tenant"%py, "order:7"%py))) by exact (Hk _).
  rewrite H1 in Hs1.
  destruct (proposals (memory_view (w_store w2)) !! ("tenant"%py, "order:7"%py)) as [p|] eqn:E;
    [|by destruct H2].
  exists w1, w2, p. split; [exact H1|]. split; [exact E|]. by inversion Hs1.
Defined.

End Witness.
