(* ===== verification/EvidenceOfRecords.v ===== *)
(** Evidence of the records a deployment stores: what the runtime writes is
    accepted by the package's own validation of evidence, and the two kinds of
    records for which it is not. *)

From S2P Require Import Prelude Models Canonical Authority Receipts Registry StoreBase StoreContract.
From S2P Require Import MemoryStore Recovery Evidence Program Runtime Scenario.
From S2P Require Import Lifecycle RuntimeGuarantee RuntimeCalls RuntimeWorld RuntimeEffects.

Lemma live_attributable p : live_record p → attributable p.
Proof.
  intros Hl. constructor.
  - destruct (live_prepared p Hl) as (b & pr & pa & rest & ->). by exists (ProposalReceipt b PR_PREPARED pr pa), rest.
  - intros r Hr. destruct (live_receipts p Hl r Hr). done.
  - intros r Hr. destruct (live_receipts p Hl r Hr). done.
  - intros r Hr. destruct (live_receipts p Hl r Hr). done.
  - intros Hv. apply (live_verified p Hl). rewrite Hv. apply elem_of_cons. by left.
Qed.

(** A failure that the validation finds no receipt of is a final absence. *)
Lemma live_unrecorded_failure p :
  live_record p → unrecorded_failure p = true →
  ∃ r, r ∈ sp_receipts p ∧ verification_status r = Some VR_AUTHORITATIVE_FINAL_ABSENCE.
Proof.
  intros Hl [Hf%bool_decide_eq_true Hno]%andb_true_iff.
  destruct (live_failed p Hl Hf) as (r & Hr & Hs). exists r. split; [done|].
  apply negb_true_iff in Hno. rewrite existsb_false_elem in Hno. specialize (Hno r Hr).
  apply orb_false_iff in Hno as [He%bool_decide_eq_false Hv%bool_decide_eq_false].
  destruct Hs as [Hs|Hs]; [done|]. apply elem_of_cons in Hs as [Hs|Hs%list_elem_of_singleton]; done.
Qed.

(** A record nobody decided upon has expired undecided. *)
Lemma live_undecided p :
  live_record p → undecided p = true → sp_lifecycle_status p = EXPIRED.
Proof.
  intros Hl [Hne%negb_true_iff%bool_decide_eq_false Hnil%bool_decide_eq_true]%andb_true_iff.
  apply length_zero_iff_nil in Hnil.
  assert (Hpost := live_approved p Hl). assert (Hden := live_denied p Hl). rewrite Hnil in *.
  destruct (sp_lifecycle_status p); try done;
    try (by destruct (Hpost eq_refl) as (e & He%elem_of_nil & _)).
  by destruct (Hden eq_refl) as (e & He%elem_of_nil & _).
Qed.

Section Records.
Context `{U : Unicode} {S : Type} `{Hstore : ActionStore S}.
Variable self : ActionRuntime.
Variable deployed : ActionDefinition → Prop.
Hypothesis deployed_ok : ∀ d, deployed d → definition_ok d.
(** The dump of the source excludes the digest it is digested for. *)
Variable dump : ActionEvidenceBundle → JsonObject.
Variable sha256 : bytes → pystr.
Hypothesis dump_excludes_digest : ∀ b d, dump (set_content_digest d b) = dump b.

(** C22: what an audit says of what a deployment stores, exactly: in a reachable
    world, whatever bundle is built from a stored record has a matching digest
    and is reported as [audit_report] says: an erased record as insufficient for
    that reason alone; another as inconsistent when two of its receipts have the
    same reference (duplicate receipt) or it failed without a receipt of a failed
    execution or verified terminal failure (lifecycle mismatch), and for no
    other reason; else as insufficient when nobody decided upon it (authority
    history missing); and as consistent in all other cases.  The failures it
    mistakes are those recorded as an authoritative final absence, and the
    undecided records those that expired before a decision. *)
Theorem stored_records_audit (w : world S) (k : ProposalKey) (p : StoredProposal)
  (exported_at : datetime) (revision : pystr) (b : ActionEvidenceBundle)
  (Hreach : reachable self deployed w)
  (Hp : proposals (store_view (w_store w)) !! k = Some p)
  (Hbuild : build_evidence_bundle dump sha256 p exported_at revision = Ok b) :
  validate_evidence_bundle dump sha256 b = Ok (audit_report p) ∧
  (record_erased p = false →
     (unrecorded_failure p = true → ∃ r, r ∈ sp_receipts p ∧
        verification_status r = Some VR_AUTHORITATIVE_FINAL_ABSENCE) ∧
     (undecided p = true → sp_lifecycle_status p = EXPIRED)).
Proof.
  destruct (reachable_ok self deployed deployed_ok w Hreach) as [Hv Hl _].
  assert (Hwf : well_formed p) by by eapply versions_well_formed, versions_current.
  assert (Hlive : record_erased p = false → live_record p) by (intros; by apply well_formed_live).
  split; [|intros He; split; intros Hx; [apply live_unrecorded_failure|apply live_undecided]; auto].
  eapply attributable_report; [done|done|]. intros He. by apply live_attributable, Hlive.
Qed.

End Records.

(** * The scenario *)

Section Witness.

(** Stand-ins for serialization and hashing. *)
#[local] Definition a_dump (b : ActionEvidenceBundle) : JsonObject :=
  [("proposal_reference"%py, JStr (eb_proposal_reference b));
   ("source_revision"%py, JInt (eb_source_revision b))].
#[local] Definition a_hash (b : bytes) : pystr := PyStr (Z.to_N <$> b).

Definition stored (s : deployment) : option StoredProposal := get "tenant" "order:7" (dp_store s).

(** Build the bundle of the stored proposal, and validate it. *)
Definition audit (s : deployment) : option (LifecycleStatus * res EvidenceValidationReport) :=
  p ← stored s;
  match build_evidence_bundle a_dump a_hash p 0 "threvo-actions/1.0.0" with
  | Ok b => Some (sp_lifecycle_status p, validate_evidence_bundle a_dump a_hash b)
  | Err _ => None
  end.

Definition audited_calls (last : behaviour) : list (behaviour * bool * runtime_call) :=
  [(usual, false, CallPrepare "tenant" (mkPyModel "Command" []) customer None (Some "order:7"%py));
   (usual, false, CallRecordAuthority (approval prepared_world "order:7") approver None);
   (usual, false, CallExecute "tenant" "order:7");
   (last, false, CallReconcile "tenant" "order:7")].

Lemma stored_records_audit_witness : ∃ (w : world MemoryActionStore) p b,
  proposals (memory_view (w_store w)) !! ("tenant"%py, "order:7"%py) = Some p ∧
  sp_lifecycle_status p = VERIFIED ∧
  validate_evidence_bundle a_dump a_hash b = Ok (mkEvidenceValidationReport CONSISTENT [] true false).
Proof.
  destruct (sample_world never_resent (audited_calls usual)) as (w & Hr & Hs & _);
    [by repeat constructor|].
  set (o := stored (flow (audited_calls usual) start).2). vm_compute in o.
  match eval unfold o in o with Some ?p => set (q := p) in * end.
  assert (Hp : proposals (memory_view (w_store w)) !! ("tenant"%py, "order:7"%py) = Some q)
    by (rewrite Hs; vm_compute; reflexivity).
  assert (Hb : ∃ b, build_evidence_bundle a_dump a_hash q 0 "threvo-actions/1.0.0" = Ok b)
    by (vm_compute; eexists; reflexivity).
  destruct Hb as [b Hb]. exists w, q, b. split; [exact Hp|]. split; [reflexivity|].
  refine (eq_trans (proj1 (stored_records_audit self never_resent never_resent_ok a_dump a_hash _ w _ q 0
    "threvo-actions/1.0.0" b Hr Hp Hb)) _).
  - reflexivity.
  - vm_compute. reflexivity.
Defined.

(** A final absence settles the proposal as failed, and the evidence of it is
    reported as inconsistent: the validation does not know that outcome. *)
Example final_absence_is_inconsistent :
  audit (flow (audited_calls absent) start).2 =
  Some (FAILED_KNOWN, Ok (mkEvidenceValidationReport INCONSISTENT [LIFECYCLE_EVIDENCE_MISMATCH] true false)).
Proof. vm_compute. reflexivity. Qed.

Definition later (t : datetime) (s : deployment) : deployment :=
  mkDeployment (dp_store s) t (dp_identifiers s).

(** A proposal nobody decided upon before it expired is reported as lacking the
    history of its authority. *)
Example undecided_expiry_is_insufficient :
  audit (final (run (handle usual) (expire_due self (sample_definition false) "tenant" "order:7")
                  (later (minutes 20) prepared_world))) =
  Some (EXPIRED, Ok (mkEvidenceValidationReport INSUFFICIENT [AUTHORITY_HISTORY_MISSING] true false)).
Proof. vm_compute. reflexivity. Qed.

(** * A lost acknowledgement of a creation *)

(** The store creates the proposal, another call approves it, and the answer to
    the creation is lost. *)
Definition lossy_handle (o : op) (s : deployment) : res (resp o) * deployment :=
  match o return res (resp o) * deployment with
  | Store (Create p) =>
      let s1 := (handle usual (Store (Create p)) s).2 in
      let approve := record_authority self (sample_definition false) (approval s1 "order:7") approver None in
      (fail (OtherException "ConnectionError"), final (run (handle usual) approve s1))
  | o => handle usual o s
  end.

Definition lossy_run := run lossy_handle prepare_call start.

Definition destroyed (h : history) : list ProtectedPayload :=
  omap (λ e, match ev_op e with DestroyPayloadFor _ _ x | DestroyPayload _ x => Some x | _ => None end) h.

(** The reconciling read finds the proposal in a later revision than the one
    that was created, and the preparation destroys the protected snapshot of a
    proposal that is stored and authorized. *)
Example lost_creation_destroys_stored_payload :
  ∃ p payload, stored (final lossy_run) = Some p ∧ sp_lifecycle_status p = AUTHORIZED ∧
    sp_protected_private_snapshot p = Some payload ∧ payload ∈ destroyed lossy_run.1.1.
Proof.
  set (o := stored (final lossy_run)). vm_compute in o.
  match eval unfold o in o with Some ?p => exists p end.
  eexists. split_and!; [reflexivity..|].
  set (l := destroyed lossy_run.1.1). vm_compute in l. subst l.
  apply elem_of_cons. left. reflexivity.
Qed.
End Witness.
