(* ===== verification/StripeGoverned.v ===== *)
(** The runtime with a Stripe action group as its host: the calls of the
    workflow answered by the workflow's own program, so that what a governed
    call does at Stripe stands behind the gate of the runtime and the gate of
    the workflow. *)

From S2P Require Import Prelude Models Canonical Authority Receipts Registry StripeModels StoreBase.
From S2P Require Import StoreContract Recovery Evidence Program StripeOperation StripeRefunds StripeBilling.
From S2P Require Import StripeActions StripeSafety StripeEffects Runtime Lifecycle RuntimeGuarantee RuntimeCalls.

Lemma runs_trans {A} (p q r : prog A) es es' : runs p es q → runs q es' r → runs p (es ++ es') r.
Proof. intros Hp Hq. induction Hp as [p|o k x es q Hp IH]; [done|]. constructor. by apply IH. Qed.

(** * Answering operations by programs *)

(** [p], with the operations [serve] takes answered by their programs. *)
Fixpoint inline {A} (serve : ∀ o, option (prog (resp o))) (p : prog A) : prog A :=
  match p with
  | Ret a => Ret a
  | Raise e => Raise e
  | Vis o k =>
      match serve o with
      | Some q => r ← attempt q; inline serve (k r)
      | None => Vis o (λ r, inline serve (k r))
      end
  end.

Section Inline.
Variable serve : ∀ o, option (prog (resp o)).

(** [expands es es']: [es'] is [es] with the served operations replaced by what
    their programs did. *)
Inductive expands : history → history → Prop :=
  | expands_nil : expands [] []
  | expands_kept o r es es' : serve o = None → expands es es' → expands (Event o r :: es) (Event o r :: es')
  | expands_served o q sub r es es' :
      serve o = Some q → runs q sub (lift r) → expands es es' → expands (Event o r :: es) (sub ++ es').

(** An execution of a bind, as far as it has got. *)
Lemma runs_bind_split {A B} (p : prog A) (f : A → prog B) es q :
  runs (p ≫= f) es q →
  (∃ p', runs p es p') ∨ ∃ es1 es2 a, es = es1 ++ es2 ∧ runs p es1 (Ret a) ∧ runs (f a) es2 q.
Proof.
  revert es. induction p as [a|e|o k IH]; intros es H.
  - right. exists [], es, a. split_and!; [done|constructor|done].
  - left. apply runs_follows in H. destruct es; [exists (Raise e); constructor|done].
  - apply runs_follows in H. destruct es as [|e es]; [left; exists (Vis o k); constructor|].
    destruct H as (r & -> & H). apply runs_follows, IH in H as [[p' H]|(es1 & es2 & a & -> & H1 & H2)].
    + left. exists p'. by constructor.
    + right. exists (Event o r :: es1), es2, a. split_and!; [done|by constructor|done].
Qed.

Lemma runs_attempt_any {A} (p : prog A) es q : runs (attempt p) es q → ∃ p', runs p es p'.
Proof.
  revert es. induction p as [a|e|o k IH]; intros es H; apply runs_follows in H;
    (destruct es as [|x es]; [eexists; constructor|]); [done..|].
  destruct H as (r & -> & H). apply runs_follows, IH in H as [p' H]. exists p'. by constructor.
Qed.

(** An execution of [inline serve p] comes from one of [p]: all but the last of
    its operations done, the last perhaps under way. *)
Lemma inline_runs {A} (p : prog A) es q :
  runs (inline serve p) es q →
  ∃ es0 q0 done_ doing, runs p es0 q0 ∧ expands es0 done_ ∧ es = done_ ++ doing ∧
    (doing = [] ∨ ∃ o k qo rest, q0 = Vis o k ∧ serve o = Some qo ∧ runs qo doing rest).
Proof.
  revert es. induction p as [a|e|o k IH]; intros es H; cbn [inline] in H.
  - apply runs_follows in H. destruct es; [|done].
    exists [], (Ret a), [], []. split_and!; [constructor|constructor|done|by left].
  - apply runs_follows in H. destruct es; [|done].
    exists [], (Raise e), [], []. split_and!; [constructor|constructor|done|by left].
  - destruct (serve o) as [qo|] eqn:Hs.
    + apply runs_bind_split in H as [[p' H]|(es1 & es2 & r & -> & H1 & H2)].
      * apply runs_attempt_any in H as [rest H]. exists [], (Vis o k), [], es.
        split_and!; [constructor|constructor|done|]. right. by exists o, k, qo, rest.
      * apply runs_attempt_inv in H1. assert (runs qo es1 (lift r)) as Hq by (by destruct r).
        destruct (IH r es2 H2) as (es0 & q0 & done_ & doing & Hr & He & -> & Hd).
        exists (Event o r :: es0), q0, (es1 ++ done_), doing.
        split_and!; [by constructor|by eapply expands_served|by rewrite app_assoc|done].
    + apply runs_follows in H. destruct es as [|x es].
      { exists [], (Vis o k), [], []. split_and!; [constructor|constructor|done|by left]. }
      destruct H as (r & -> & H). apply runs_follows in H.
      destruct (IH r es H) as (es0 & q0 & done_ & doing & Hr & He & -> & Hd).
      exists (Event o r :: es0), q0, (Event o r :: done_), doing.
      split_and!; [by constructor|by constructor|done|done].
Qed.

(** Where an event of an expansion comes from: it was kept, or the program of a
    served operation performed it. *)
Lemma expands_split es es' a e b :
  expands es es' → es' = a ++ e :: b →
  (∃ es1 es2, es = es1 ++ e :: es2 ∧ expands es1 a ∧ serve (ev_op e) = None) ∨
  ∃ es1 o r es2 q a' s1 s2, es = es1 ++ Event o r :: es2 ∧ expands es1 a' ∧ a = a' ++ s1 ∧
    serve o = Some q ∧ runs q (s1 ++ e :: s2) (lift r).
Proof.
  intros H. revert a. induction H as [|o r es es' Hs _ IH|o q sub r es es' Hs Hr _ IH]; intros a Ha.
  - by destruct a.
  - destruct a as [|x a]; injection Ha as <- Ha.
    + left. exists [], es. split_and!; [done|constructor|done].
    + destruct (IH a Ha) as [(es1 & es2 & -> & He & Hn)|(es1 & o' & r' & es2 & q & a' & s1 & s2 & -> & He & -> & Hq & Hr)].
      * left. exists (Event o r :: es1), es2. split_and!; [done|by constructor|done].
      * right. exists (Event o r :: es1), o', r', es2, q, (Event o r :: a'), s1, s2.
        split_and!; [done|by constructor|done..].
  - apply app_eq_inv in Ha as [(l & -> & Hl)|(l & -> & Hl)].
    + destruct l as [|x l].
      * rewrite app_nil_r in Hr. destruct (IH [] (eq_sym Hl)) as
          [(es1 & es2 & -> & He & Hn)|(es1 & o' & r' & es2 & q' & a' & s1 & s2 & -> & He & Ha & Hq & Hr')].
        -- left. exists (Event o r :: es1), es2. split_and!; [done| |done].
           rewrite <-(app_nil_r a). by eapply expands_served.
        -- symmetry in Ha. apply app_eq_nil in Ha as [-> ->].
           right. exists (Event o r :: es1), o', r', es2, q', (a ++ []), [], s2.
           split_and!; [done|by eapply expands_served|by rewrite !app_nil_r|done..].
      * injection Hl as <- ->. right. exists [], o, r, es, q, [], a, l.
        split_and!; [done|constructor|done..].
    + destruct (IH l Hl) as
        [(es1 & es2 & -> & He & Hn)|(es1 & o' & r' & es2 & q' & a' & s1 & s2 & -> & He & -> & Hq & Hr')].
      * left. exists (Event o r :: es1), es2. split_and!; [done|by eapply expands_served|done].
      * right. exists (Event o r :: es1), o', r', es2, q', (sub ++ a'), s1, s2.
        split_and!; [done|by eapply expands_served|by rewrite app_assoc|done..].
Qed.

Lemma expands_elem es es' e : expands es es' → e ∈ es → serve (ev_op e) = None → e ∈ es'.
Proof.
  induction 1 as [|o r es es' Hs _ IH|o q sub r es es' Hs _ _ IH]; [by intros ?%elem_of_nil| |].
  - intros [->|He]%elem_of_cons Hn; [left|right; by apply IH].
  - intros [->|He]%elem_of_cons Hn; [simpl in Hn; congruence|]. apply elem_of_app. right. by apply IH.
Qed.

(** If neither the kept operations nor the programs of the served ones do
    something, the expansion does not. *)
Lemma expands_none (f : event → bool) es es' :
  (∀ e, e ∈ es → match serve (ev_op e) with
     | None => f e = false
     | Some q => ∀ sub rest, runs q sub rest → existsb f sub = false
     end) →
  expands es es' → existsb f es' = false.
Proof.
  intros Hf H. induction H as [|o r es es' Hs _ IH|o q sub r es es' Hs Hr _ IH]; [done|..];
    (assert (Ho := Hf (Event o r) ltac:(left)); cbn [ev_op] in Ho; rewrite Hs in Ho;
     rewrite ?existsb_app; simpl).
  - rewrite Ho. apply IH. intros e He. apply Hf. by right.
  - rewrite (Ho _ _ Hr). apply IH. intros e He. apply Hf. by right.
Qed.

End Inline.

(** * A workflow as the host of its definition *)

(** Programs that do not dispatch. *)
Fixpoint undispatching {A} (p : prog A) : Prop :=
  match p with
  | Ret _ | Raise _ => True
  | Vis o k => dispatches o = false ∧ ∀ r, undispatching (k r)
  end.

Lemma undispatching_bind {A B} (p : prog A) (f : A → prog B) :
  undispatching p → (∀ a, undispatching (f a)) → undispatching (p ≫= f).
Proof.
  intros Hp Hf. induction p as [a|e|o k IH]; [apply Hf|done|]. destruct Hp as [Ho Hk].
  split; [done|]. intros r. by apply IH.
Qed.

Lemma undispatching_call o : dispatches o = false → undispatching (call o).
Proof. intros Ho. split; [done|]. by intros [a|e]. Qed.

Lemma undispatching_idles {A} (p : prog A) : idles p → undispatching p.
Proof.
  induction p as [a|e|o k IH]; [done..|]. intros [Ho Hk]. split; [by apply idle_not_dispatch|].
  intros r. by apply IH.
Qed.

Lemma undispatching_runs {A} (p q : prog A) es :
  undispatching p → runs p es q → dispatched es = false.
Proof.
  intros Hp Hr. induction Hr as [p|o k r es q Hr IH]; [done|]. destruct Hp as [Ho Hk].
  simpl. rewrite Ho. by apply IH.
Qed.

(** Programs built from operations that do not dispatch. *)
Ltac solve_undispatching :=
  repeat match goal with
  | |- undispatching (mbind _ _) => apply undispatching_bind; [|intros]
  | |- undispatching (call _) => by apply undispatching_call
  | |- undispatching (repository _ _) => by apply undispatching_call
  | |- undispatching (gateway _) => by apply undispatching_call
  | |- undispatching (lift _) => apply undispatching_idles, idles_lift
  | |- undispatching (if ?b then _ else _) => destruct b
  | |- undispatching (match ?x with _ => _ end) => destruct x
  | |- undispatching (mret _) => exact I
  | |- undispatching (verification _ _) => exact I
  | |- undispatching preparation_refused => exact I
  end.

Section Governed.
Context `{U : Unicode, D : PyDump}.

Lemma stripe_prepare_undispatching w command context : undispatching (stripe_prepare w command context).
Proof.
  destruct w as [w|policy a|policy a].
  - cbn [stripe_prepare stripe_verify]; unfold refund_prepare. solve_undispatching.
  - cbn [stripe_prepare stripe_verify]; unfold workflow_prepare. solve_undispatching.
    apply undispatching_idles, (prepare_idles (WorkflowLaws := subscription_laws policy)).
  - cbn [stripe_prepare stripe_verify]; unfold workflow_prepare. solve_undispatching.
    apply undispatching_idles, (prepare_idles (WorkflowLaws := credit_laws policy)).
Qed.

Lemma stripe_resolve_undispatching w s context : undispatching (stripe_resolve w s context).
Proof.
  destruct w as [w|policy a|policy a]; apply undispatching_idles.
  - apply refund_resolve_idles.
  - apply (resolve_idles SUBSCRIPTIONS (L := subscription_laws policy)).
  - apply (resolve_idles CREDIT_NOTES (L := credit_laws policy)).
Qed.

Lemma verify_undispatching self intent : undispatching (verify self intent).
Proof. apply undispatching_idles. unfold verify. solve_idles. apply observe_pages_idles. Qed.

Lemma stripe_verify_undispatching w context : undispatching (stripe_verify w context).
Proof.
  destruct w as [w|policy a|policy a].
  - cbn [stripe_prepare stripe_verify]; unfold refund_verify, refund_observe. solve_undispatching. apply verify_undispatching.
  - cbn [stripe_prepare stripe_verify]; unfold workflow_verify. solve_undispatching.
    apply undispatching_idles, (verify_idles (WorkflowLaws := subscription_laws policy)).
  - cbn [stripe_prepare stripe_verify]; unfold workflow_verify. solve_undispatching.
    apply undispatching_idles, (verify_idles (WorkflowLaws := credit_laws policy)).
Qed.

(** * A workflow behind its definition *)

Variables (self : port) (w : stripe_workflow).
(** The typed command and snapshot a model of the boundary is. *)
Variables (command_of : PyModel → request_of w) (snapshot_at : PyModel → snapshot_of (group_of w)).

(** The object [_definition] passes as preparation, state resolver, executor,
    verifier and retention. *)
Definition serve (o : op) : option (prog (resp o)) :=
  match o return option (prog (resp o)) with
  | Prepare p command context =>
      if bool_decide (p = self) then Some (
        prepared ← stripe_prepare w (command_of command) context;
        mret (mkPreparedAction (model_of _ (sp_private_snapshot prepared)) (sp_preview prepared)
                (sp_effect prepared)))
      else None
  | Resolve p snapshot context =>
      if bool_decide (p = self) then Some (
        resolved ← stripe_resolve w (snapshot_at snapshot) context;
        mret (mkResolvedState snapshot resolved.1 resolved.2 None))
      else None
  | Execute p snapshot context execution_precondition =>
      if bool_decide (p = self) then
        Some (stripe_execute w (snapshot_at snapshot) context execution_precondition)
      else None
  | Verify p context => if bool_decide (p = self) then Some (stripe_verify w context) else None
  | AuthorizeErasure p proposal_reference context =>
      if bool_decide (p = self) then Some (authorize_erasure proposal_reference context) else None
  | _ => None
  end.

Lemma serve_undispatching o q :
  serve o = Some q → is_execute o = false → undispatching q.
Proof.
  destruct o; simpl; try done; (case_bool_decide; [|done]); intros [= <-] _.
  - apply undispatching_bind; [apply stripe_prepare_undispatching|done].
  - apply undispatching_bind; [apply stripe_resolve_undispatching|done].
  - apply stripe_verify_undispatching.
  - exact I.
Qed.

(** A served operation that dispatches is the execution of a snapshot. *)
Lemma serve_dispatch o q es1 e es2 rest :
  serve o = Some q → runs q (es1 ++ e :: es2) rest → dispatches (ev_op e) = true →
  ∃ snapshot context pre, o = Execute self snapshot context pre ∧
    ev_op e = submission (group_of w) (snapshot_at snapshot) ∧
    submission_gate (group_of w) (authorization_of w) (snapshot_at snapshot) context es1.
Proof.
  intros Hs Hr Hd. destruct (is_execute o) eqn:Hx.
  - destruct o; simpl in Hs, Hx; try done. case_bool_decide; [|done]. injection Hs as <-. subst.
    do 3 eexists. split; [done|].
    destruct (wp_runs _ _ _ _ _ [] _ (stripe_execute_guarantee w _ _ _) Hr) as [_ Hg]; [done|].
    by apply (proj1 (Hg es1 e es2 eq_refl)).
  - assert (H := undispatching_runs _ _ _ (serve_undispatching _ _ Hs Hx) Hr).
    rewrite dispatched_app in H. simpl in H. rewrite Hd, orb_true_r in H. done.
Qed.

Section Call.
Variables (runtime : ActionRuntime) (d : ActionDefinition).

(** What the runtime sees before a dispatch does not dispatch. *)
Lemma gate_undispatched h h' :
  quiet h → (∀ n e, h !! n = Some e → guarantee d (take n h) (ev_op e)) →
  expands serve h h' → dispatched h' = false.
Proof.
  intros Hq Hg. apply expands_none. intros e He.
  destruct (serve (ev_op e)) as [q|] eqn:Hs.
  - intros sub rest Hr. eapply undispatching_runs; [|exact Hr].
    apply (serve_undispatching _ _ Hs). by apply Hq.
  - apply list_elem_of_lookup in He as [n Hn]. specialize (Hg _ _ Hn). destruct (ev_op e); done.
Qed.

(** The gate of the runtime before the gate of the workflow. *)
Definition governed_gate (h sub : history) (o : op) : Prop :=
  ∃ snapshot context pre c u commitment evidence resolved admitted_at now,
    execution_gate d h snapshot context pre c u commitment evidence resolved admitted_at now ∧
    o = submission (group_of w) (snapshot_at snapshot) ∧
    submission_gate (group_of w) (authorization_of w) (snapshot_at snapshot) context sub.

Lemma served_gate es q h o qo sub e sub2 rest call :
  runs (call_prog runtime d call) (h ++ es) q → reads_well_formed (h ++ es) →
  (∃ r es', es = Event o r :: es') → serve o = Some qo → runs qo (sub ++ e :: sub2) rest →
  dispatches (ev_op e) = true → quiet h ∧ governed_gate h sub (ev_op e).
Proof.
  intros Hr Hwf (r & es' & ->) Hs Hq Hd.
  destruct (serve_dispatch _ _ _ _ _ _ Hs Hq Hd) as (snapshot & context & pre & -> & He & Hg).
  assert (Hn := list_lookup_middle h es' (Event (Execute self snapshot context pre) r) (length h) eq_refl).
  assert (H := call_guarantee runtime d call _ q _ _ Hr Hwf Hn).
  rewrite take_app_length in H.
  destruct H as (_ & c & u & k & ev & rs & at_ & now & Hx).
  split; [exact (gate_quiet _ _ _ _ _ _ _ _ _ _ _ _ Hx)|]. do 10 eexists. by split_and!.
Qed.
Lemma expands_reads es es' : expands serve es es' → reads_well_formed es' → reads_well_formed es.
Proof. intros He Hwf t p c Hc. apply (Hwf t p). by apply (expands_elem _ _ _ _ He Hc). Qed.

(** A dispatch of a governed call, wherever it stands. *)
Lemma governed_event es q call es1 e es2 :
  runs (inline serve (call_prog runtime d call)) es q → reads_well_formed es →
  es = es1 ++ e :: es2 → dispatches (ev_op e) = true →
  ∃ h h' sub, es1 = h' ++ sub ∧ expands serve h h' ∧ quiet h ∧
    (∀ n x, h !! n = Some x → guarantee d (take n h) (ev_op x)) ∧ governed_gate h sub (ev_op e).
Proof.
  intros Hr Hwf He Hd.
  destruct (inline_runs _ _ _ _ Hr) as (es0 & q0 & done_ & doing & H0 & Hx & Hes & Hdoing).
  assert (Hwf0 : reads_well_formed es0).
  { apply (expands_reads _ _ Hx). intros t p c Hc. apply (Hwf t p). rewrite Hes. apply elem_of_app. by left. }
  assert (HG : ∀ n x, es0 !! n = Some x → guarantee d (take n es0) (ev_op x))
    by (intros n x; by apply (call_guarantee runtime d call es0 q0)).
  assert (HGl : ∀ h t, es0 = h ++ t → ∀ n x, h !! n = Some x → guarantee d (take n h) (ev_op x)).
  { intros h t -> n x Hn. assert (n < length h) by (by eapply lookup_lt_Some).
    rewrite <-(take_app_le h t) by lia. apply HG. by apply lookup_app_l_Some. }
  assert (Hcase : (∃ l, done_ = es1 ++ e :: l) ∨ ∃ k, es1 = done_ ++ k ∧ doing = k ++ e :: es2).
  { rewrite Hes in He. apply app_eq_inv in He as [(l & Hl & Hl')|(l & Hl & Hl')]; [|right; by exists l].
    destruct l as [|x l]; [right|left].
    - exists []. rewrite app_nil_r in Hl. simpl in Hl'. by rewrite app_nil_r.
    - injection Hl' as <- _. by exists l. }
  destruct Hcase as [[l Hl]|(k & -> & Hk)].
  - destruct (expands_split _ _ _ _ _ _ Hx Hl) as
      [(h & t & Ht & _)|(h & o & r & t & qo & h' & s1 & s2 & Ht & Hh & -> & Ho & Hro)].
    + assert (Hf := HG (length h) e ltac:(by rewrite Ht, list_lookup_middle)).
      by destruct (ev_op e).
    + rewrite Ht in H0, Hwf0. destruct (served_gate (Event o r :: t) q0 h o qo s1 e s2 (lift r) call) as [Hq Hg];
        [done|done|by exists r, t|done..|].
      exists h, h', s1. split_and!; [done|done|done|by apply (HGl h (Event o r :: t))|done].
  - destruct Hdoing as [->|(o & c & qo & rest & -> & Ho & Hro)]; [by destruct k|].
    rewrite Hk in Hro. set (x := Err (raised (OtherException "stopped")) : res (resp o)).
    assert (Hwfx : reads_well_formed (es0 ++ [Event o x])).
    { intros t p y [Hy|Hy]%elem_of_app; [by apply (Hwf0 t p)|].
      apply list_elem_of_singleton in Hy. by apply (f_equal failed) in Hy. }
    destruct (served_gate [Event o x] (c x) es0 o qo k e es2 rest call) as [Hq Hg];
      [|done|by exists x, []|done..|].
    { eapply runs_trans; [exact H0|]. apply (runs_cons o c x). constructor. }
    exists es0, done_, k. split_and!; [done|done|done|done|done].
Qed.

End Call.

(** C11: a Stripe action run through the runtime. Whatever the store, the clock,
    the authorities, the host and Stripe answer, a call of the runtime whose
    definition is the workflow's calls a Stripe mutation at most once, and only
    behind both gates: what the runtime saw so far ([h], of which [h'] is what
    happened) passed the gate of an execution (an authorized and unexpired
    proposal, its valid evidence satisfying the evaluator, the committed
    snapshot, an undrifted resolution, the admission of the store), and within
    that execution what the workflow did ([sub]) passed its own gate (the
    reservation until the earliest deadline of the stored record, then the
    authority, the provider and the clock again), for the very snapshot the
    runtime passed on. *)
Theorem governed_dispatch (runtime : ActionRuntime) (action_type : ActionType)
  (settings : StripeActionSettings) (evaluator : port) (provider : CommitmentProviderPort)
  (codec : ProtectionCodecPort) (call : runtime_call) (es : history) (q : prog unit)
  (Hruns : runs (inline serve (call_prog runtime
     (_definition self w action_type settings evaluator provider codec) call)) es q)
  (Hwf : reads_well_formed es) (es1 : history) (e : event) (es2 : history)
  (Hes : es = es1 ++ e :: es2) (Hdispatch : dispatches (ev_op e) = true) :
  dispatched es1 = false ∧ dispatched es2 = false ∧
  ∃ h h' sub, es1 = h' ++ sub ∧ expands serve h h' ∧
    governed_gate (_definition self w action_type settings evaluator provider codec) h sub (ev_op e).
Proof.
  set (d := _definition _ _ _ _ _ _ _) in *.
  assert (Hquiet : ∀ a x b, es = a ++ x :: b → dispatches (ev_op x) = true → dispatched a = false ∧
    ∃ h h' sub, a = h' ++ sub ∧ expands serve h h' ∧ governed_gate d h sub (ev_op x)).
  { intros a x b Hab Hx.
    destruct (governed_event runtime d es q call a x b Hruns Hwf Hab Hx)
      as (h & h' & sub & -> & Hh & Hq & HG & Hg).
    split; [|by exists h, h', sub]. rewrite dispatched_app, (gate_undispatched d h h' Hq HG Hh).
    destruct Hg as (? & ? & ? & ? & ? & ? & ? & ? & ? & ? & _ & _ & Hs). apply Hs. }
  destruct (Hquiet es1 e es2 Hes Hdispatch) as [H1 H2]. split; [exact H1|]. split; [|exact H2].
  destruct (dispatched es2) eqn:E; [|done]. apply existsb_exists in E as (x & Hx & Hd).
  apply list_elem_of_In, list_elem_of_split in Hx as (a & b & ->).
  destruct (Hquiet (es1 ++ e :: a) x b) as [H _]; [by rewrite Hes, <-app_assoc|done|].
  rewrite dispatched_app in H. simpl in H. rewrite Hdispatch, orb_true_r in H. done.
Qed.
End Governed.
