(* ===== verification/StripeGovernedScenario.v ===== *)
(** A refund from its preparation to its dispatch, through the runtime, on the
    deployment of [Scenario] and the provider of [StripeScenario]. *)

From S2P Require Import Prelude Models Canonical Authority Receipts Registry StripeModels StoreBase.
From S2P Require Import StoreContract MemoryStore Recovery Evidence Program StripeOperation StripeRefunds.
From S2P Require Import StripeBilling StripeActions StripeSafety Runtime Scenario RuntimeGuarantee.
From S2P Require Import RuntimeCalls RuntimeSafety StripeGoverned StripeScenario.

#[local] Existing Instance plain_dump.

(** Stripe and the host answer as in [StripeScenario], everybody else as in
    [Scenario]. *)
#[local] Definition answers (o : op) (s : deployment) : res (resp o) * deployment :=
  match o return res (resp o) * deployment with
  | Stripe (Repository REFUNDS (Remember _ _)) => (Ok (), s)
  | Stripe x => (StripeScenario.answer (Stripe x), s)
  | ValidateJson model _ => (Ok (StripeScenario.no_model model), s)
  | o => Scenario.handle usual o s
  end.

#[local] Definition request : RefundRequest := mkRefundRequest "intent:1" "payment:1" (StripeScenario.euros 1250).
#[local] Definition settings : StripeActionSettings :=
  mkStripeActionSettings (mkGovernedExecutor "executor") "audience" "session" (minutes 10) (seconds 10)
    (minutes 2) 30.

#[local] Definition refund_definition : ActionDefinition :=
  _definition 5 StripeScenario.workflow (mkActionType "stripe.refunds" "create" 1) settings 3 (CommitmentProvider 7)
    (ProposalBoundProtectionCodec 8).

#[local] Definition governed (c : runtime_call) : prog unit :=
  inline (serve 5 StripeScenario.workflow (λ _, request) (λ _, StripeScenario.snapshot)) (call_prog Scenario.self refund_definition c).

#[local] Definition prepared : history * res unit * deployment :=
  run answers (governed (CallPrepare "t" (StripeScenario.no_model "RefundRequest") (mkRequestingPrincipal "requester")
    None (Some "proposal:1"%py))) start.

(** The approval, for the commitment the store holds. *)
#[local] Definition approval : AuthorityEvidence :=
  let digest := match MemoryStore.get "t" "proposal:1" (dp_store prepared.2) with
    | Some p => match sp_commitment p with Some k => kc_digest k | None => PyStr [] end
    | None => PyStr []
    end in
  mkAuthorityEvidence "t" (mkActionType "stripe.refunds" "create" 1) "proposal:1" StripeScenario.effect
    Scenario.approver ["audience"%py] APPROVE digest "session" 0 (minutes 5) None.

#[local] Definition authorized : history * res unit * deployment :=
  run answers (governed (CallRecordAuthority approval Scenario.approver None)) prepared.2.

#[local] Definition executed : history * res unit * deployment :=
  run answers (governed (CallExecute "t" "proposal:1")) authorized.2.

#[local] Lemma governed_reads : reads_well_formed executed.1.1.
Proof.
  apply reads_well_formed_intro. set (l := omap _ _). vm_compute in l. subst l.
  repeat (constructor; [unfold Lifecycle.well_formed; simpl; live_concrete|]). constructor.
Qed.

(** Twenty-three operations of the runtime and of the workflow stand before the
    call of Stripe. *)
Lemma governed_dispatch_witness :
  executed.1.1 !! 23 = Some (Event (Stripe (Refunds (CreateRefund StripeScenario.intent)))
    (Ok StripeScenario.refund)) ∧
  dispatched (drop 24 executed.1.1) = false ∧
  ∃ h h' sub, take 23 executed.1.1 = h' ++ sub ∧
    expands (serve 5 StripeScenario.workflow (λ _, request) (λ _, StripeScenario.snapshot)) h h' ∧
    governed_gate StripeScenario.workflow (λ _, StripeScenario.snapshot) refund_definition h sub
      (Stripe (Refunds (CreateRefund StripeScenario.intent))).
Proof.
  assert (H : executed.1.1 !! 23 = Some (Event (Stripe (Refunds (CreateRefund StripeScenario.intent)))
    (Ok StripeScenario.refund))) by (vm_compute; reflexivity).
  split; [exact H|].
  exact (proj2 (governed_dispatch 5 StripeScenario.workflow (λ _, request) (λ _, StripeScenario.snapshot)
    Scenario.self (mkActionType "stripe.refunds" "create" 1) settings 3 (CommitmentProvider 7)
    (ProposalBoundProtectionCodec 8) (CallExecute "t" "proposal:1") executed.1.1 _ (run_runs _ _ _)
    governed_reads (take 23 executed.1.1) _ (drop 24 executed.1.1)
    (eq_sym (take_drop_middle _ _ _ H)) eq_refl)).
Defined.
