(* ===== verification/Sessions.v ===== *)
(** Sessions of a database: methods that send several statements and
    transactions over one shared state, interleaved with the statements of every
    other session, and the rule that proves what they answer.

    A statement or a transaction is one atomic step on the state; between two
    of them any other session may run.  A session that is never continued is a
    caller that was cancelled, crashed or lost its connection. *)

From S2P Require Import Prelude.

(** What runs atomically: an answer or an exception, and the state after it. *)
Definition atomic (S A : Type) : Type := S → res A * S.

(** [async with connection.transaction()]: an exception rolls back. *)
Definition transaction {S A} (m : atomic S A) : atomic S A := λ s,
  match m s with
  | (Ok a, s') => (Ok a, s')
  | (Err e, _) => (Err e, s)
  end.

Inductive session (S A : Type) : Type :=
  | Answer (r : res A)
  | Statement (X : Type) (m : atomic S X) (k : res X → session S A).
Arguments Answer {S A} r.
Arguments Statement {S A X} m k.

#[export] Instance atomic_ret S : MRet (atomic S) := λ A a s, (Ok a, s).
#[export] Instance atomic_bind S : MBind (atomic S) := λ A B f m s,
  match m s with
  | (Ok a, s') => f a s'
  | (Err e, s') => (Err e, s')
  end.

#[export] Instance session_ret S : MRet (session S) := λ A a, Answer (Ok a).
#[export] Instance session_bind S : MBind (session S) := λ A B f,
  fix go p :=
    match p with
    | Answer (Ok a) => f a
    | Answer (Err e) => Answer (Err e)
    | Statement m k => Statement m (λ x, go (k x))
    end.

(** A value or an exception that leaves the state. *)
Definition atomic_lift {S A} (r : res A) : atomic S A := λ s, (r, s).

(** One step of a session of its own, and a value that needs none. *)
Definition send {S A} (m : atomic S A) : session S A := Statement m Answer.
Definition session_lift {S A} (r : res A) : session S A := Answer r.

(** Run without interference. *)
Fixpoint alone {S A} (p : session S A) (s : S) : res A * S :=
  match p with
  | Answer r => (r, s)
  | Statement m k => let '(x, s') := m s in alone (k x) s'
  end.

(** * Interleaving *)

(** A system is its state and the sessions that were opened. *)
Inductive system_step {S A : Type} (opens : session S A → Prop)
  : S * list (session S A) → S * list (session S A) → Prop :=
  | system_open s l p : opens p → system_step opens (s, l) (s, l ++ [p])
  | system_send s l1 l2 X (m : atomic S X) k :
      system_step opens (s, l1 ++ Statement m k :: l2) ((m s).2, l1 ++ k (m s).1 :: l2).

Definition system_reachable {S A} (opens : session S A → Prop) (s0 : S) : S * list (session S A) → Prop :=
  rtc (system_step opens) (s0, []).

(** A session that nobody interrupts ends as it does alone. *)
Lemma system_alone {S A} (opens : session S A → Prop) s0 s l p :
  system_reachable opens s0 (s, l) → opens p →
  system_reachable opens s0 ((alone p s).2, l ++ [Answer (alone p s).1]).
Proof.
  intros Hr Ho. assert (rtc (system_step opens) (s0, []) (s, l ++ [p])) as H.
  { eapply rtc_r; [exact Hr|by constructor]. }
  clear Hr Ho. revert s H. induction p as [r|X m k IH]; intros s H; [exact H|].
  cbn [alone]. destruct (m s) as [x s'] eqn:E. apply IH.
  eapply rtc_r; [exact H|]. assert (G := system_send opens s l [] X m k). by rewrite E in G.
Qed.

(** * The proof rule

    [I] holds of the state between two steps and [G] of the states before and
    after any number of them.  A session that meets [serves] keeps both and
    answers only what [Q] allows. *)
Section Serves.
Context {S A : Type} (I : S → Prop) (G : S → S → Prop) `{!PreOrder G}.

Fixpoint serves (Q : S → res A → Prop) (p : session S A) (s : S) : Prop :=
  match p with
  | Answer r => Q s r
  | Statement m k => ∀ s', I s' → G s s' →
      I (m s').2 ∧ G s' (m s').2 ∧ serves Q (k (m s').1) (m s').2
  end.

Context (Q : S → res A → Prop) (Q_stable : ∀ s s' r, G s s' → Q s r → Q s' r).

Lemma serves_later p s s' : G s s' → serves Q p s → serves Q p s'.
Proof.
  intros Hs. destruct p as [r|X m k]; cbn [serves]; [by apply Q_stable|].
  intros H s'' Hi Hg. apply H; [done|by etrans].
Qed.

Theorem system_serves (opens : session S A → Prop) (s0 : S) (w : S * list (session S A)) :
  I s0 → (∀ p s, opens p → I s → serves Q p s) →
  system_reachable opens s0 w →
  I w.1 ∧ G s0 w.1 ∧ ∀ p, p ∈ w.2 → serves Q p w.1.
Proof.
  intros H0 Ho Hr.
  enough (∀ w0 w', rtc (system_step opens) w0 w' → I w0.1 → (∀ p, p ∈ w0.2 → serves Q p w0.1) →
    I w'.1 ∧ G w0.1 w'.1 ∧ ∀ p, p ∈ w'.2 → serves Q p w'.1) as H.
  { apply (H (s0, [])); [done|done|]. intros p []%elem_of_nil. }
  clear Hr w H0. induction 1 as [w0|w0 w1 w2 Hstep _ IH]; intros Hi Hp; [by split_and!|].
  destruct Hstep as [s l p Hopen|s l1 l2 X m k]; simpl in *.
  - apply IH; [done|]. intros q [Hq|Hq%list_elem_of_singleton]%elem_of_app; [by apply Hp|subst; auto].
  - assert (serves Q (Statement m k) s) as Hs by (apply Hp; set_solver).
    destruct (Hs s Hi (reflexivity s)) as (Hi' & Hg & Hk). destruct IH as (? & ? & ?); [done| |split_and!; [done|by etrans|done]].
    intros q [Hq|[->|Hq]%elem_of_cons]%elem_of_app; [|done|]; (eapply serves_later; [done|]; apply Hp; set_solver).
Qed.

(** What a reachable answer is. *)
Corollary system_answers (opens : session S A → Prop) (s0 : S) (w : S * list (session S A)) (r : res A) :
  I s0 → (∀ p s, opens p → I s → serves Q p s) → system_reachable opens s0 w →
  Answer r ∈ w.2 → Q w.1 r.
Proof. intros H0 Ho Hr Ha. destruct (system_serves opens s0 w H0 Ho Hr) as (_ & _ & H). by apply (H (Answer r)). Qed.

(** One statement, then the rest. *)
Lemma serves_statement {X} (m : atomic S X) (k : res X → session S A) s :
  (∀ s', I s' → G s s' → I (m s').2 ∧ G s' (m s').2 ∧ serves Q (k (m s').1) (m s').2) →
  serves Q (Statement m k) s.
Proof. done. Qed.

End Serves.
