(* ===== verification/ApprovalRequests.v ===== *)
(** Approval requests a host keeps for its approval channels
    ([integrations/approval_channels]): the models of [models.py] with their
    validators, and the PostgreSQL store of [postgres.py] over the table and the
    trigger of [_migrations/approval_postgres].

    The table is keyed by the request reference and unique in tenant and
    proposal.  A row keeps JSON documents; the class [ApprovalCodec] has what
    the store relies on of Pydantic and of [jsonb]: a valid model is read back
    from the document it was dumped to.  Every document the store writes is an
    object, so the [jsonb_typeof] checks hold of them. *)

From S2P Require Import Prelude Models Canonical Authority Receipts StoreBase StoredValidity Sessions.

(** * Models *)

(** The literal [schema_version] has one value and is left out. *)
Record ApprovalRequestBinding := mkApprovalRequestBinding {
  qb_request_reference : pystr;
  qb_tenant_reference : pystr;
  qb_proposal_reference : pystr;
  qb_semantic_effect_reference : pystr;
  qb_action_type : ActionType;
  qb_proposal_commitment : pystr;
  qb_intended_authority : pystr;
  qb_audience : pystr;
  qb_channel_assurance : pystr;
  qb_created_at : datetime;
  qb_expires_at : datetime
}.

Record ApprovalRequestView := mkApprovalRequestView {
  qv_request_reference : pystr;
  qv_proposal_reference : pystr;
  qv_semantic_effect_reference : pystr;
  qv_intended_authority : pystr;
  qv_audience : pystr;
  qv_channel_assurance : pystr;
  qv_expires_at : datetime;
  qv_decision : option AuthorityDecision
}.

Record ApprovalDecisionRecord := mkApprovalDecisionRecord {
  dr_decision : AuthorityDecision;
  dr_evidence : AuthorityEvidence;
  dr_recorded_at : datetime
}.

Record ApprovalRequestRecord := mkApprovalRequestRecord {
  rr_binding : ApprovalRequestBinding;
  rr_decision : option ApprovalDecisionRecord
}.

#[export] Instance ApprovalRequestBinding_eq_dec : EqDecision ApprovalRequestBinding.
Proof. solve_decision. Defined.
#[export] Instance ApprovalDecisionRecord_eq_dec : EqDecision ApprovalDecisionRecord.
Proof. solve_decision. Defined.
#[export] Instance ApprovalRequestRecord_eq_dec : EqDecision ApprovalRequestRecord.
Proof. solve_decision. Defined.

Definition valid_window (b : ApprovalRequestBinding) : res ApprovalRequestBinding :=
  if (qb_expires_at b <=? qb_created_at b)%Z then
    fail (ValueErrorLike "approval request must expire after creation")
  else Ok b.

Definition decision_matches_evidence (d : ApprovalDecisionRecord) : res ApprovalDecisionRecord :=
  if bool_decide (dr_decision d ≠ ae_decision (dr_evidence d)) then
    fail (ValueErrorLike "approval decision must match its authority evidence")
  else Ok d.

Definition decision_matches_binding (r : ApprovalRequestRecord) : res ApprovalRequestRecord :=
  match rr_decision r with
  | None => Ok r
  | Some decision =>
      let evidence := dr_evidence decision in
      let binding := rr_binding r in
      if bool_decide (ae_tenant_reference evidence ≠ qb_tenant_reference binding)
         || bool_decide (ae_action_type evidence ≠ qb_action_type binding)
         || bool_decide (ae_proposal_instance_reference evidence ≠ qb_proposal_reference binding)
         || bool_decide (ae_semantic_effect_reference evidence ≠ qb_semantic_effect_reference binding)
         || bool_decide (ae_proposal_commitment evidence ≠ qb_proposal_commitment binding)
         || bool_decide (ca_reference (ae_authority evidence) ≠ qb_intended_authority binding)
         || bool_decide (ae_audience evidence ≠ [qb_audience binding])
         || bool_decide (ae_channel_assurance evidence ≠ qb_channel_assurance binding)
         || (ae_issued_at evidence <? qb_created_at binding)%Z
         || (qb_expires_at binding <? ae_expires_at evidence)%Z
      then fail (ValueErrorLike "approval decision evidence must match the request binding")
      else Ok r
  end.

Definition view (r : ApprovalRequestRecord) : ApprovalRequestView :=
  let b := rr_binding r in
  mkApprovalRequestView (qb_request_reference b) (qb_proposal_reference b)
    (qb_semantic_effect_reference b) (qb_intended_authority b) (qb_audience b)
    (qb_channel_assurance b) (qb_expires_at b) (dr_decision <$> rr_decision r).

(** [ApprovalRequestRecord(binding=..., decision=...)]. *)
Definition request_record (b : ApprovalRequestBinding) (d : option ApprovalDecisionRecord)
  : res ApprovalRequestRecord :=
  match decision_matches_binding (mkApprovalRequestRecord b d) with
  | Ok r => Ok r
  | Err _ => fail ValidationError
  end.

Section Validity.
Context `{U : Unicode}.

Definition binding_valid (b : ApprovalRequestBinding) : bool :=
  safe_reference (qb_request_reference b) && safe_reference (qb_tenant_reference b)
  && safe_reference (qb_proposal_reference b) && safe_reference (qb_semantic_effect_reference b)
  && action_type_valid (qb_action_type b) && safe_reference (qb_proposal_commitment b)
  && safe_reference (qb_intended_authority b) && safe_reference (qb_audience b)
  && safe_reference (qb_channel_assurance b)
  && match valid_window b with Ok _ => true | Err _ => false end.

Definition decision_valid (d : ApprovalDecisionRecord) : bool :=
  authority_evidence_valid (dr_evidence d)
  && match decision_matches_evidence d with Ok _ => true | Err _ => false end.

End Validity.

(** * The table *)

Class ApprovalCodec `{U : Unicode} := {
  document : Type;
  document_eq_dec : EqDecision document;
  binding_json : ApprovalRequestBinding → document;
  binding_of_json : document → option ApprovalRequestBinding;
  decision_json : ApprovalDecisionRecord → document;
  decision_of_json : document → option ApprovalDecisionRecord;
  binding_dumped b : binding_valid b = true → binding_of_json (binding_json b) = Some b;
  decision_dumped d : decision_valid d = true → decision_of_json (decision_json d) = Some d
}.
#[export] Existing Instance document_eq_dec.

Section Store.
Context `{C : ApprovalCodec}.

Record approval_row := mkApprovalRow {
  row_tenant_reference : pystr;
  row_proposal_reference : pystr;
  row_binding_data : document;
  row_decision_data : option document;
  row_created_at : datetime
}.

Record approval_db := mkApprovalDb {
  approval_requests : gmap pystr approval_row;
  approval_clock : nat → datetime;
  approval_readings : nat
}.

Definition put_request (reference : pystr) (row : approval_row) (db : approval_db) : approval_db :=
  mkApprovalDb (<[reference := row]> (approval_requests db)) (approval_clock db) (approval_readings db).

(** The trigger [approval_request_update_guard] lets [new] replace [old], which
    is of the same request. *)
Definition enforce_approval_request_update (old new : approval_row) : bool :=
  bool_decide (row_tenant_reference new = row_tenant_reference old)
  && bool_decide (row_proposal_reference new = row_proposal_reference old)
  && bool_decide (row_binding_data new = row_binding_data old)
  && bool_decide (row_created_at new = row_created_at old)
  && negb (bool_decide (is_Some (row_decision_data old))
           && bool_decide (row_decision_data new ≠ row_decision_data old)).

(** * Statements *)

Definition approval_error (message : pystr) : exn_kind := OtherException message.

(** [WHERE tenant_reference = $1 AND proposal_reference = $2]. *)
Definition of_proposal (tenant_reference proposal_reference : pystr) (row : approval_row) : bool :=
  bool_decide (row_tenant_reference row = tenant_reference)
  && bool_decide (row_proposal_reference row = proposal_reference).

Definition select_proposal (tenant_reference proposal_reference : pystr)
  : atomic approval_db (option approval_row) := λ db,
  (Ok (List.find (of_proposal tenant_reference proposal_reference)
         ((map_to_list (approval_requests db)).*2)), db).

Definition select_request (request_reference : pystr) : atomic approval_db (option approval_row) := λ db,
  (Ok (approval_requests db !! request_reference), db).

(** [INSERT ... ON CONFLICT (tenant_reference, proposal_reference) DO NOTHING]. *)
Definition insert_request (binding : ApprovalRequestBinding) : atomic approval_db unit := λ db,
  let now := approval_clock db (approval_readings db) in
  let db' := mkApprovalDb (approval_requests db) (approval_clock db) (S (approval_readings db)) in
  if existsb (of_proposal (qb_tenant_reference binding) (qb_proposal_reference binding))
       ((map_to_list (approval_requests db)).*2) then (Ok tt, db')
  else
    match approval_requests db !! qb_request_reference binding with
    | Some _ => (fail (OtherException "UniqueViolationError"), db')
    | None =>
        (Ok tt, put_request (qb_request_reference binding)
                  (mkApprovalRow (qb_tenant_reference binding) (qb_proposal_reference binding)
                     (binding_json binding) None now) db')
    end.

(** [UPDATE ... SET decision_data = $2 WHERE request_reference = $1 AND
    decision_data IS NULL], and the number of rows it updates. *)
Definition update_decision (request_reference : pystr) (decision_data : document)
  : atomic approval_db nat := λ db,
  match approval_requests db !! request_reference with
  | Some (mkApprovalRow t p b None c as old) =>
      let new := mkApprovalRow t p b (Some decision_data) c in
      if enforce_approval_request_update old new then (Ok 1, put_request request_reference new db)
      else (fail (OtherException "CheckViolationError"), db)
  | _ => (Ok 0, db)
  end.

(** * The store *)

Definition _record (row : approval_row) : res ApprovalRequestRecord :=
  let corrupt := fail (approval_error "stored approval request data is corrupt") in
  match binding_of_json (row_binding_data row) with
  | None => corrupt
  | Some binding =>
      match (match row_decision_data row with
             | None => Some None
             | Some data => Some <$> decision_of_json data
             end) with
      | None => corrupt
      | Some decision =>
          match request_record binding decision with Ok r => Ok r | Err _ => corrupt end
      end
  end.

(** [existing.binding.model_dump(exclude={"request_reference", "created_at"})]
    and the same of [binding] agree. *)
Definition same_terms (existing binding : ApprovalRequestBinding) : bool :=
  bool_decide (qb_tenant_reference existing = qb_tenant_reference binding)
  && bool_decide (qb_proposal_reference existing = qb_proposal_reference binding)
  && bool_decide (qb_semantic_effect_reference existing = qb_semantic_effect_reference binding)
  && bool_decide (qb_action_type existing = qb_action_type binding)
  && bool_decide (qb_proposal_commitment existing = qb_proposal_commitment binding)
  && bool_decide (qb_intended_authority existing = qb_intended_authority binding)
  && bool_decide (qb_audience existing = qb_audience binding)
  && bool_decide (qb_channel_assurance existing = qb_channel_assurance binding)
  && bool_decide (qb_expires_at existing = qb_expires_at binding).

Definition unavailable {A} : res A := fail (approval_error "approval request is unavailable").

Definition create (binding : ApprovalRequestBinding) : session approval_db ApprovalRequestRecord :=
  _ ← send (insert_request binding);
  row ← send (select_proposal (qb_tenant_reference binding) (qb_proposal_reference binding));
  match row with
  | None => session_lift unavailable
  | Some row =>
      existing ← session_lift (_record row);
      if negb (same_terms (rr_binding existing) binding) then
        session_lift (fail (approval_error "approval request is already bound differently"))
      else mret existing
  end.

Definition get (request_reference : pystr) : session approval_db ApprovalRequestRecord :=
  row ← send (select_request request_reference);
  match row with
  | None => session_lift unavailable
  | Some row => session_lift (_record row)
  end.

Definition for_proposal (tenant_reference proposal_reference : pystr)
  : session approval_db ApprovalRequestRecord :=
  row ← send (select_proposal tenant_reference proposal_reference);
  match row with
  | None => session_lift unavailable
  | Some row => session_lift (_record row)
  end.

(** The body of the transaction of [record_decision]; [FOR UPDATE] holds the
    row until it ends. *)
Definition decide_request (request_reference : pystr) (decision : ApprovalDecisionRecord)
  : atomic approval_db ApprovalRequestRecord :=
  row ← select_request request_reference;
  match row with
  | None => atomic_lift unavailable
  | Some row =>
      current ← atomic_lift (_record row);
      match request_record (rr_binding current) (Some decision) with
      | Err _ => atomic_lift (fail (approval_error "approval decision does not match the request binding"))
      | Ok decided =>
          match rr_decision current with
          | Some d =>
              if bool_decide (dr_decision d ≠ dr_decision decision) then
                atomic_lift (fail (approval_error "approval request already has a decision"))
              else mret current
          | None =>
              result ← update_decision request_reference (decision_json decision);
              if negb (result =? 1)%nat then
                atomic_lift (fail (approval_error "approval decision result is uncertain"))
              else mret decided
          end
      end
  end.

Definition record_decision (request_reference : pystr) (decision : ApprovalDecisionRecord)
  : session approval_db ApprovalRequestRecord :=
  send (transaction (decide_request request_reference decision)).

(** ["approval-request:" + secrets.token_hex(16)]. *)
Definition new_reference (token_hex : pystr) : pystr := ("approval-request:" +:+ token_hex)%py.

(** The methods a host calls, with arguments its models accept. *)
Inductive approval_call : session approval_db ApprovalRequestRecord → Prop :=
  | call_create b : binding_valid b = true → approval_call (create b)
  | call_get r : approval_call (get r)
  | call_for_proposal t p : approval_call (for_proposal t p)
  | call_record_decision r d : decision_valid d = true → approval_call (record_decision r d).

Definition fresh_approvals (clock : nat → datetime) : approval_db := mkApprovalDb ∅ clock 0.

End Store.

(** * Rows and what is answered of them *)

Section Agreement.
Context `{C : ApprovalCodec}.

(** The row keeps the record's binding and, once it is decided, its decision. *)
Record carries (r : ApprovalRequestRecord) (row : approval_row) : Prop := {
  carries_valid : binding_valid (rr_binding r) = true;
  carries_tenant : row_tenant_reference row = qb_tenant_reference (rr_binding r);
  carries_proposal : row_proposal_reference row = qb_proposal_reference (rr_binding r);
  carries_binding : row_binding_data row = binding_json (rr_binding r);
  carries_matches : decision_matches_binding r = Ok r;
  carries_decision d : rr_decision r = Some d →
    decision_valid d = true ∧ row_decision_data row = Some (decision_json d)
}.

Definition row_ok (reference : pystr) (row : approval_row) : Prop :=
  ∃ r, carries r row ∧ qb_request_reference (rr_binding r) = reference ∧
    (rr_decision r = None → row_decision_data row = None).

(** Every row is one the store wrote, and no two are of one proposal. *)
Definition table_ok (db : approval_db) : Prop :=
  (∀ k row, approval_requests db !! k = Some row → row_ok k row) ∧
  (∀ k k' row row', approval_requests db !! k = Some row → approval_requests db !! k' = Some row' →
    row_tenant_reference row = row_tenant_reference row' →
    row_proposal_reference row = row_proposal_reference row' → k = k').

(** Rows stay, but for a decision where there was none. *)
Definition row_keeps (row row' : approval_row) : Prop :=
  row_tenant_reference row' = row_tenant_reference row ∧
  row_proposal_reference row' = row_proposal_reference row ∧
  row_binding_data row' = row_binding_data row ∧
  (row_decision_data row = None ∨ row_decision_data row' = row_decision_data row).

Definition table_keeps (db db' : approval_db) : Prop :=
  ∀ k row, approval_requests db !! k = Some row →
    ∃ row', approval_requests db' !! k = Some row' ∧ row_keeps row row'.

(** The refusals of the store: it never finds its own rows corrupt, nor its own
    update uncertain. *)
Definition approval_refusals : list exn_kind :=
  [approval_error "approval request is unavailable"; OtherException "UniqueViolationError";
   approval_error "approval request is already bound differently";
   approval_error "approval decision does not match the request binding";
   approval_error "approval request already has a decision"].

Definition answered (db : approval_db) (r : res ApprovalRequestRecord) : Prop :=
  match r with
  | Ok r => ∃ row, approval_requests db !! qb_request_reference (rr_binding r) = Some row ∧ carries r row
  | Err e => exn_class e ∈ approval_refusals
  end.

#[local] Instance row_keeps_preorder : PreOrder row_keeps.
Proof.
  split; [by intros row; split_and!; auto|].
  intros r1 r2 r3 (A1 & A2 & A3 & A4) (B1 & B2 & B3 & B4).
  split_and!; [congruence..|]. destruct A4 as [?|E]; [by left|]. destruct B4; [left; by rewrite <-E|right; by etrans].
Qed.

#[export] Instance table_keeps_preorder : PreOrder table_keeps.
Proof.
  split; [intros db k row ?; by exists row|].
  intros d1 d2 d3 H1 H2 k row (row' & (row'' & ? & ?)%H2 & ?)%H1.
  exists row''. split; [done|]. by etrans.
Qed.

Lemma carries_keeps r row row' : carries r row → row_keeps row row' → carries r row'.
Proof.
  intros [V T P B M D] (K1 & K2 & K3 & K4). split; [done|congruence..|].
  intros d [Hv Hd]%D. split; [done|]. destruct K4; congruence.
Qed.

Lemma answered_keeps db db' r : table_keeps db db' → answered db r → answered db' r.
Proof.
  intros Hk. destruct r as [r|e]; [|done]. intros (row & (row' & ? & ?)%Hk & Hc).
  exists row'. split; [done|]. by eapply carries_keeps.
Qed.

(** ** Reading *)

Lemma request_record_Ok b d r :
  request_record b d = Ok r → r = mkApprovalRequestRecord b d ∧ decision_matches_binding r = Ok r.
Proof.
  unfold request_record. destruct (decision_matches_binding _) as [x|] eqn:E; intros [= <-].
  assert (x = mkApprovalRequestRecord b d) as -> by (
    unfold decision_matches_binding in E; simpl in E; destruct d; [case_match|]; simplify_eq; done). done.
Qed.

Lemma request_record_same r :
  decision_matches_binding r = Ok r → request_record (rr_binding r) (rr_decision r) = Ok r.
Proof. destruct r as [b d]. unfold request_record. cbn [rr_binding rr_decision]. by intros ->. Qed.

Lemma record_of_carries r row :
  carries r row → (rr_decision r = None → row_decision_data row = None) → _record row = Ok r.
Proof.
  intros [V _ _ B M D] Hn. unfold _record. rewrite B, binding_dumped by done.
  destruct (rr_decision r) as [d|] eqn:Ed.
  - destruct (D d eq_refl) as [Hv ->]. simpl. rewrite decision_dumped by done. simpl.
    by rewrite <-Ed, request_record_same.
  - rewrite Hn by done. by rewrite <-Ed, request_record_same.
Qed.

Lemma find_proposal t p db row :
  List.find (of_proposal t p) ((map_to_list (approval_requests db)).*2) = Some row →
  ∃ k, approval_requests db !! k = Some row ∧ row_tenant_reference row = t ∧ row_proposal_reference row = p.
Proof.
  intros [Hin Hp]%find_some. apply list_elem_of_In, list_elem_of_fmap in Hin as ([k row'] & -> & Hk).
  exists k. apply elem_of_map_to_list in Hk. unfold of_proposal in Hp. to_prop. done.
Qed.

Lemma find_proposal_none t p db :
  existsb (of_proposal t p) ((map_to_list (approval_requests db)).*2) = false →
  ∀ k row, approval_requests db !! k = Some row →
    row_tenant_reference row = t → row_proposal_reference row = p → False.
Proof.
  intros H k row Hk Ht Hp. rewrite existsb_false_elem in H.
  assert (of_proposal t p row = false) as E.
  { apply H, list_elem_of_fmap. exists (k, row). split; [done|]. by apply elem_of_map_to_list. }
  unfold of_proposal in E. by rewrite !bool_decide_eq_true_2 in E.
Qed.

Lemma row_answers db k row :
  table_ok db → approval_requests db !! k = Some row → ∃ r, _record row = Ok r ∧ answered db (Ok r) ∧
    qb_request_reference (rr_binding r) = k ∧ carries r row ∧
    (rr_decision r = None → row_decision_data row = None).
Proof.
  intros [Hok _] Hk. destruct (Hok k row Hk) as (r & Hc & He & Hn).
  exists r. split; [by apply record_of_carries|]. split; [|done]. exists row. by rewrite He.
Qed.

(** Documents are read back, so a row carries one binding and one decision. *)
Lemma carries_agree r1 r2 row :
  carries r1 row → carries r2 row →
  rr_binding r1 = rr_binding r2 ∧ ∀ d1 d2, rr_decision r1 = Some d1 → rr_decision r2 = Some d2 → d1 = d2.
Proof.
  intros [V1 _ _ B1 _ D1] [V2 _ _ B2 _ D2]. split.
  - apply Some_inj. rewrite <-(binding_dumped _ V1), <-(binding_dumped _ V2). congruence.
  - intros d1 d2 [Hv1 E1]%D1 [Hv2 E2]%D2. apply Some_inj.
    rewrite <-(decision_dumped _ Hv1), <-(decision_dumped _ Hv2). congruence.
Qed.

(** ** Writing *)

Lemma insert_request_ok b db :
  binding_valid b = true → table_ok db →
  table_ok (insert_request b db).2 ∧ table_keeps db (insert_request b db).2 ∧
  match (insert_request b db).1 with Ok _ => True | Err e => exn_class e ∈ approval_refusals end.
Proof.
  intros Hv [Hok Hu]. unfold insert_request.
  destruct (existsb _ _) eqn:E; [split_and!; [by split|intros k row ?; by exists row|done]|].
  destruct (_ !! _) as [old|] eqn:Ho; simpl.
  { split_and!; [by split|intros k row ?; by exists row|unfold approval_refusals; set_solver]. }
  assert (Hnew := find_proposal_none _ _ _ E). split_and!; [split|..]; simpl; [| | |done].
  - intros k row [[<- <-]|[? Hk]]%lookup_insert_Some; [|by apply Hok].
    exists (mkApprovalRequestRecord b None). split_and!; [|done|done]. by split.
  - intros k k' row row' [[<- <-]|[? Hk]]%lookup_insert_Some [[<- <-]|[? Hk']]%lookup_insert_Some Ht Hp;
      simpl in *; [done|by destruct (Hnew k' row')|by destruct (Hnew k row)|by eapply Hu].
  - intros k row Hk. exists row. simpl. rewrite lookup_insert_ne by congruence. done.
Qed.

(** A decision that matches fills an undecided row. *)
Lemma decide_row_ok db k row r d :
  table_ok db → approval_requests db !! k = Some row → carries r row →
  qb_request_reference (rr_binding r) = k → row_decision_data row = None →
  decision_valid d = true →
  decision_matches_binding (mkApprovalRequestRecord (rr_binding r) (Some d)) =
    Ok (mkApprovalRequestRecord (rr_binding r) (Some d)) →
  let '(n, db') := update_decision k (decision_json d) db in
  n = Ok 1 ∧ table_ok db' ∧ table_keeps db db' ∧
    answered db' (Ok (mkApprovalRequestRecord (rr_binding r) (Some d))).
Proof.
  intros [Hok Hu] Hk [V T P B M D] He Hn Hd Hm. unfold update_decision. rewrite Hk.
  destruct row as [t p bd dd c]. simpl in *. subst dd.
  unfold enforce_approval_request_update. rewrite !bool_decide_eq_true_2, bool_decide_eq_false_2 by done.
  simpl. set (row' := mkApprovalRow t p bd (Some (decision_json d)) c).
  assert (carries (mkApprovalRequestRecord (rr_binding r) (Some d)) row') as Hc.
  { split; [done..|]. by intros ? [= <-]. }
  split_and!; [done|split; cbn [put_request approval_requests]| |].
  - intros k' x [[<- <-]|[? Hx]]%lookup_insert_Some; [|by apply Hok]. eexists. split_and!; [exact Hc|done|done].
  - intros k1 k2 r1 r2 [[<- <-]|[? H1]]%lookup_insert_Some [[<- <-]|[? H2]]%lookup_insert_Some Ht Hp;
      [done| | |by eapply Hu].
    + by apply (Hu _ _ _ _ Hk H2).
    + symmetry. by apply (Hu _ _ _ _ Hk H1).
  - intros k' x Hx. simpl. destruct (decide (k' = k)) as [->|].
    + exists row'. rewrite lookup_insert_eq. simplify_eq/=. split; [done|]. split_and!; [done..|by left].
    + exists x. rewrite lookup_insert_ne by done. done.
  - exists row'. simpl. by rewrite He, lookup_insert_eq.
Qed.

Lemma decide_request_ok k d db :
  decision_valid d = true → table_ok db →
  let '(r, db') := transaction (decide_request k d) db in
  table_ok db' ∧ table_keeps db db' ∧ answered db' r.
Proof.
  intros Hd Hok. unfold transaction, decide_request, mbind, atomic_bind, select_request.
  destruct (approval_requests db !! k) as [row|] eqn:Hk;
    [|split_and!; [done|done|simpl; unfold approval_refusals; set_solver]].
  destruct (row_answers db k row Hok Hk) as (r & -> & Ha & He & Hc & Hn).
  cbn [atomic_lift]. destruct (request_record (rr_binding r) (Some d)) as [decided|] eqn:Hr;
    [|split_and!; [done|done|simpl; unfold approval_refusals; set_solver]].
  apply request_record_Ok in Hr as [-> Hm].
  destruct (rr_decision r) as [d'|] eqn:Ed.
  { case_bool_decide; split_and!; try done. simpl; unfold approval_refusals; set_solver. }
  assert (H := decide_row_ok db k row r d Hok Hk Hc He (Hn eq_refl) Hd Hm).
  destruct (update_decision k (decision_json d) db) as [n db'] eqn:E.
  destruct H as (-> & ? & ? & ?). done.
Qed.

(** ** The methods *)

Lemma serves_record row s :
  table_ok s → (∃ k, approval_requests s !! k = Some row) →
  serves table_ok table_keeps answered (session_lift (_record row)) s.
Proof. intros Hok [k Hk]. by destruct (row_answers s k row Hok Hk) as (r & -> & Ha & _). Qed.

Lemma refused k s : k ∈ approval_refusals → serves table_ok table_keeps answered (Answer (fail k)) s.
Proof. done. Qed.

Lemma approval_call_serves p s :
  approval_call p → table_ok s → serves table_ok table_keeps answered p s.
Proof.
  intros Hp _. destruct Hp as [b Hv|k|t p|k d Hd]; apply serves_statement; intros s1 Hok _.
  - destruct (insert_request_ok b s1 Hv Hok) as (Hok1 & Hk1 & Ha).
    destruct (insert_request b s1) as [[[]|e] s2]; simpl in *; [|done].
    split_and!; [done..|]. intros s3 Hok3 Hk3. split_and!; [done..|].
    destruct (List.find _ _) as [row|] eqn:Hf; [|apply refused; unfold approval_refusals; set_solver].
    apply find_proposal in Hf as (k & Hk & _).
    destruct (row_answers s3 k row Hok3 Hk) as (r & -> & Hr & _). simpl.
    destruct (same_terms _ _); simpl; [done|]. unfold approval_refusals. set_solver.
  - split_and!; [done..|]. simpl.
    destruct (_ !! _) eqn:Hk; [eapply serves_record; eauto|apply refused; unfold approval_refusals; set_solver].
  - split_and!; [done..|]. simpl.
    destruct (List.find _ _) eqn:Hf; [|apply refused; unfold approval_refusals; set_solver].
    apply find_proposal in Hf as (k & Hk & _). eapply serves_record; eauto.
  - assert (H := decide_request_ok k d s1 Hd Hok).
    by destruct (transaction (decide_request k d) s1) as [r s2].
Qed.

Lemma fresh_table_ok clock : table_ok (fresh_approvals clock).
Proof. split; intros; simplify_map_eq. Qed.

Lemma approvals_answered clock w r :
  system_reachable approval_call (fresh_approvals clock) w → Answer r ∈ w.2 → table_ok w.1 ∧ answered w.1 r.
Proof.
  intros Hr Ha. destruct (system_serves table_ok table_keeps answered answered_keeps approval_call
    (fresh_approvals clock) w (fresh_table_ok clock) approval_call_serves Hr) as (Hok & _ & H).
  split; [done|]. exact (H (Answer r) Ha).
Qed.

(** What the runtime compares evidence with, as the request binds it. *)
Definition binding_terms (b : ApprovalRequestBinding) : AuthorityBinding :=
  mkAuthorityBinding (qb_tenant_reference b) (qb_action_type b) (qb_proposal_reference b)
    (qb_semantic_effect_reference b) (qb_proposal_commitment b) (qb_audience b) (qb_channel_assurance b).

Lemma decision_matches_bound b d :
  decision_matches_binding (mkApprovalRequestRecord b (Some d)) = Ok (mkApprovalRequestRecord b (Some d)) →
  evidence_bound (dr_evidence d) (binding_terms b) ∧
  ca_reference (ae_authority (dr_evidence d)) = qb_intended_authority b ∧
  (qb_created_at b <= ae_issued_at (dr_evidence d))%Z ∧ (ae_expires_at (dr_evidence d) <= qb_expires_at b)%Z.
Proof.
  unfold decision_matches_binding. cbn [rr_decision rr_binding]. case_match eqn:E; [done|]. intros _.
  to_prop. repeat match goal with H : ¬ (_ ≠ _) |- _ => apply dec_stable in H end.
  split_and!; [|done|lia|lia]. split; simpl; try done.
  match goal with H : ae_audience _ = _ |- _ => rewrite H end. by left.
Qed.

(** C35: whatever sessions of hosts interleave, and whichever are abandoned, the
    answers of the store agree. Two answers of one request, or of one proposal of
    a tenant, have the same binding, and when both are decided the same decision,
    which the first decision fixed. A decided answer holds evidence of that very
    decision, by the intended authority, within the window of the request, that
    the runtime's validation finds bound to the terms of the request. And the
    store never finds its own data corrupt or its own writes uncertain. *)
Theorem approval_answers_agree (clock : nat → datetime) (w : approval_db * list (session approval_db _))
  (Hr : system_reachable approval_call (fresh_approvals clock) w) :
  (∀ r1 r2, Answer (Ok r1) ∈ w.2 → Answer (Ok r2) ∈ w.2 →
    qb_request_reference (rr_binding r1) = qb_request_reference (rr_binding r2) ∨
    (qb_tenant_reference (rr_binding r1) = qb_tenant_reference (rr_binding r2) ∧
     qb_proposal_reference (rr_binding r1) = qb_proposal_reference (rr_binding r2)) →
    rr_binding r1 = rr_binding r2 ∧
    ∀ d1 d2, rr_decision r1 = Some d1 → rr_decision r2 = Some d2 → d1 = d2) ∧
  (∀ r d, Answer (Ok r) ∈ w.2 → rr_decision r = Some d →
    dr_decision d = ae_decision (dr_evidence d) ∧
    ca_reference (ae_authority (dr_evidence d)) = qb_intended_authority (rr_binding r) ∧
    ∀ now, av_failure (validate_authority_evidence (dr_evidence d) (binding_terms (rr_binding r)) now)
             ≠ Some BINDING_MISMATCH ∧
      (av_valid (validate_authority_evidence (dr_evidence d) (binding_terms (rr_binding r)) now) = true →
       qb_created_at (rr_binding r) <= now < qb_expires_at (rr_binding r))%Z) ∧
  (∀ e, Answer (Err e) ∈ w.2 → exn_class e ∈ approval_refusals).
Proof.
  assert (K := λ r, approvals_answered clock w r Hr). split_and!.
  - intros r1 r2 H1 H2 Hs. apply K in H1 as [Hok (row1 & Hl1 & C1)].
    apply K in H2 as [_ (row2 & Hl2 & C2)].
    assert (qb_request_reference (rr_binding r1) = qb_request_reference (rr_binding r2)) as E.
    { destruct Hs as [|[Ht Hp]]; [done|]. destruct Hok as [_ Hu]. apply (Hu _ _ _ _ Hl1 Hl2).
      - by rewrite (carries_tenant _ _ C1), (carries_tenant _ _ C2).
      - by rewrite (carries_proposal _ _ C1), (carries_proposal _ _ C2). }
    rewrite E, Hl2 in Hl1. injection Hl1 as ->. by apply carries_agree with row1.
  - intros r d Ha Hd. apply K in Ha as [_ (row & _ & [_ _ _ _ M D])].
    destruct (D d Hd) as [Hv _]. destruct r as [b o]. simpl in Hd. subst o.
    apply decision_matches_bound in M as (Hb & Hau & Hi & Hx). split_and!; [|done|intros now; split].
    + unfold decision_valid, decision_matches_evidence in Hv. to_prop. by case_bool_decide.
    + assert (H := validate_authority_evidence_correct (dr_evidence d) (binding_terms b) now).
      cbn [rr_binding]. intros Hf. rewrite Hf in H. tauto.
    + rewrite validate_authority_evidence_valid. simpl. lia.
  - intros e Ha. by apply K in Ha as [_ H].
Qed.

End Agreement.

(** * A concrete store *)

(** Documents that are the models themselves. *)
#[local] Existing Instance ascii_unicode.
#[local] Instance model_codec : ApprovalCodec := {|
  document := ApprovalRequestBinding + ApprovalDecisionRecord;
  document_eq_dec := sum_eq_dec;
  binding_json := inl;
  binding_of_json d := match d with inl b => Some b | inr _ => None end;
  decision_json := inr;
  decision_of_json d := match d with inr d => Some d | inl _ => None end;
  binding_dumped _ _ := eq_refl;
  decision_dumped _ _ := eq_refl
|}.

#[local] Definition request : ApprovalRequestBinding :=
  mkApprovalRequestBinding "approval-request:1" "tenant" "proposal:1" "effect:1"
    (mkActionType "billing.refunds" "refund" 1) "digest" "manager" "approvals" "session" 10 90.

#[local] Definition approval (decision : AuthorityDecision) (issued_at : datetime) : ApprovalDecisionRecord :=
  mkApprovalDecisionRecord decision
    (mkAuthorityEvidence "tenant" (mkActionType "billing.refunds" "refund" 1) "proposal:1" "effect:1"
       (mkConfirmingAuthority "manager") ["approvals"%py] decision "digest" "session" issued_at 80 None)
    issued_at.

(** A request is created twice, approved twice, and rejected too late. *)
#[local] Definition callbacks : list (session approval_db ApprovalRequestRecord) :=
  [create request;
   create (mkApprovalRequestBinding "approval-request:2" "tenant" "proposal:1" "effect:1"
    (mkActionType "billing.refunds" "refund" 1) "digest" "manager" "approvals" "session" 20 90);
   record_decision "approval-request:1" (approval APPROVE 20);
   record_decision "approval-request:1" (approval APPROVE 30);
   record_decision "approval-request:1" (approval REJECT 40)].

#[local] Definition called : approval_db * list (session approval_db ApprovalRequestRecord) :=
  fold_left (λ w p, ((alone p w.1).2, w.2 ++ [Answer (alone p w.1).1])) callbacks (fresh_approvals (λ n, Z.of_nat n), []).

Lemma called_reachable : system_reachable approval_call (fresh_approvals (λ n, Z.of_nat n)) called.
Proof.
  unfold called, callbacks. cbn [fold_left].
  do 5 (apply system_alone; [|constructor; vm_compute; reflexivity]). apply rtc_refl.
Qed.

Lemma approval_answers_agree_witness :
  called.2 = [Answer (Ok (mkApprovalRequestRecord request None));
              Answer (Ok (mkApprovalRequestRecord request None));
              Answer (Ok (mkApprovalRequestRecord request (Some (approval APPROVE 20))));
              Answer (Ok (mkApprovalRequestRecord request (Some (approval APPROVE 20))));
              Answer (fail (approval_error "approval request already has a decision"))] ∧
  (∀ e, Answer (Err e) ∈ called.2 → exn_class e ∈ approval_refusals).
Proof.
  split; [vm_compute; reflexivity|].
  apply (approval_answers_agree (λ n, Z.of_nat n) called called_reachable).
Defined.
