(* ===== verification/Attribution.v ===== *)
(** Which library code produces receipts ([attribution.py]): the exact release,
    or the source commit with a digest of the package tree.

    The installation is data: what the distribution's metadata says, and the
    file system under a record of functions ([Installation]).  SHA-256 and the
    interpreter's path functions are fields of it. *)

From stdpp Require Import sorting.
From S2P Require Import Prelude Models Canonical.

(** * Strings *)

Definition starts_with (prefix s : pystr) : bool :=
  bool_decide (take (pystr_len prefix) (code_points s) = code_points prefix).
Definition ends_with (suffix s : pystr) : bool :=
  bool_decide (drop (pystr_len s - pystr_len suffix) (code_points s) = code_points suffix).
Definition remove_prefix (prefix s : pystr) : pystr :=
  if starts_with prefix s then PyStr (drop (pystr_len prefix) (code_points s)) else s.

(** [s.split(" ", maxsplit=1)[0]]. *)
Fixpoint before_space (l : list N) : list N :=
  match l with
  | [] => []
  | c :: l' => if (c =? 32)%N then [] else c :: before_space l'
  end.

(** [s.splitlines()]: the line boundaries of Python, with [\r\n] as one. *)
Definition line_break (c : N) : bool :=
  existsb (N.eqb c) [10; 11; 12; 13; 28; 29; 30; 133; 8232; 8233]%N.

Fixpoint split_lines (line l : list N) : list (list N) :=
  match l with
  | [] => match line with [] => [] | _ => [reverse line] end
  | c :: l' =>
      if line_break c then
        reverse line ::
          (match c, l' with
           | 13%N, 10%N :: l'' => split_lines [] l''
           | _, _ => split_lines [] l'
           end)
      else split_lines (c :: line) l'
  end.
Definition splitlines (s : pystr) : list pystr := PyStr <$> split_lines [] (code_points s).

(** [s.lower()], of which only the letters A to F matter here. *)
Definition lower_hex (s : pystr) : pystr :=
  PyStr ((λ c, if (65 <=? c)%N && (c <=? 70)%N then c + 32 else c)%N <$> code_points s).

Definition hex_digit (c : N) : bool := digit c || ((97 <=? c)%N && (c <=? 102)%N).
Definition alphanumeric (c : N) : bool := digit c || lower c || upper c.

(** * Revisions *)

Definition _DISTRIBUTION_NAME : pystr := "threvo-actions".
Definition _UNRELEASED_VERSIONS : list pystr := ["0.0.0"; "0+unknown"]%py.

(** [[0-9a-f]{n}] of a whole string. *)
Definition hex_string (n : nat) (l : list N) : bool := (length l =? n)%nat && forallb hex_digit l.

Definition release_tail (c : N) : bool := alphanumeric c || existsb (N.eqb c) [46; 33; 43; 95; 45]%N.

(** [_RELEASE_REVISION.fullmatch(value)]. *)
Definition _RELEASE_REVISION (value : pystr) : bool :=
  let version := remove_prefix "threvo-actions/" value in
  starts_with "threvo-actions/" value && negb (bool_decide (version = "0.0.0"%py))
  && match code_points version with
     | [] => false
     | c :: l => alphanumeric c && forallb release_tail l
     end.

(** [_SOURCE_REVISION.fullmatch(value)]. *)
Definition _SOURCE_REVISION (value : pystr) : bool :=
  let rest := code_points (remove_prefix "threvo-actions/commit:" value) in
  let tree := PyStr (drop 40 rest) in
  starts_with "threvo-actions/commit:" value && hex_string 40 (take 40 rest)
  && (bool_decide (tree = PyStr [])
      || (starts_with "+tree:" tree && hex_string 64 (code_points (remove_prefix "+tree:" tree))))%py.

Definition attribution_error : exn_kind := OtherException "RuntimeAttributionError".

Definition validate_runtime_revision (value : pystr) : res pystr :=
  if negb (_RELEASE_REVISION value) && negb (_SOURCE_REVISION value) then fail attribution_error
  else Ok value.

(** * The installation *)

(** An entry below the package root: its parts below the root, and, of a file,
    its suffix and bytes. *)
Record TreeEntry := mkTreeEntry {
  te_parts : list pystr;
  te_is_file : bool;
  te_suffix : pystr;
  te_bytes : bytes
}.

(** [direct_url.json] is absent, is no JSON, or is a document. *)
Inductive DirectUrl := DU_NONE | DU_INVALID | DU_DOCUMENT (document : json).

Record Installation := mkInstallation {
  distribution_version : option pystr;
  direct_url : DirectUrl;
  is_dir : pystr → bool;
  is_file : pystr → bool;
  (* [path.read_text(encoding="utf-8")]; [None] is an [OSError] *)
  read_text : pystr → option pystr;
  resolve_path : pystr → pystr;
  parents : pystr → list pystr;
  path_parts : pystr → list pystr;
  rglob : pystr → list TreeEntry;
  sha256_hexdigest : bytes → pystr
}.

Section Installation.
Context (E : Installation).

Definition is_absolute (path : pystr) : bool := starts_with "/" path.

(** [path / name]. *)
Definition join_path (path name : pystr) : pystr :=
  (if is_absolute name then name else path +:+ "/" +:+ name)%py.

Definition _installed_distribution_is_editable : res bool :=
  match direct_url E with
  | DU_NONE | DU_INVALID => Ok false
  | DU_DOCUMENT (JObj document) =>
      match snd <$> List.find (λ '(k, _), bool_decide (k = "dir_info"%py)) document with
      | Some (JObj directory) =>
          Ok (match snd <$> List.find (λ '(k, _), bool_decide (k = "editable"%py)) directory with
              | Some (JBool b) => b
              | _ => false
              end)
      | _ => Ok false
      end
  | DU_DOCUMENT _ => fail (OtherException "AttributeError")
  end.

(** ** The source commit *)

(** The loop of [_find_git_directory] over the root and its parents. *)
Fixpoint find_git_directory (candidates : list pystr) : option pystr :=
  match candidates with
  | [] => None
  | candidate :: candidates' =>
      let marker := join_path candidate ".git" in
      if is_dir E marker then Some marker
      else if negb (is_file E marker) then find_git_directory candidates'
      else
        match strip <$> read_text E marker with
        | None => None
        | Some content =>
            if negb (starts_with "gitdir: " content) then None
            else
              let path := remove_prefix "gitdir: " content in
              Some (if is_absolute path then path else resolve_path E (join_path candidate path))
        end
  end.

Definition _find_git_directory (package_root : pystr) : option pystr :=
  find_git_directory (package_root :: parents E package_root).

(** The line of [packed-refs] that ends in the reference. *)
Definition packed_reference (reference : pystr) (packed_refs : list pystr) : option pystr :=
  (λ line, PyStr (before_space (code_points line))) <$>
    List.find (ends_with (" " +:+ reference)%py) packed_refs.

(** The loop of [_read_git_reference] over its search roots. *)
Fixpoint search_reference (reference : pystr) (search_roots : list pystr) : option pystr :=
  match search_roots with
  | [] => None
  | root :: search_roots' =>
      match read_text E (join_path root reference) with
      | Some text => Some (strip text)
      | None =>
          match read_text E (join_path root "packed-refs") with
          | None => search_reference reference search_roots'
          | Some text =>
              match packed_reference reference (splitlines text) with
              | Some commit => Some commit
              | None => search_reference reference search_roots'
              end
          end
      end
  end.

Definition _read_git_reference (git_dir reference : pystr) : option pystr :=
  let common := default (PyStr []) (strip <$> read_text E (join_path git_dir "commondir")) in
  let common_roots :=
    if bool_decide (common = PyStr []) then []
    else [if is_absolute common then common else resolve_path E (join_path git_dir common)] in
  search_reference reference (git_dir :: common_roots).

Definition _source_commit (package_root : pystr) : option pystr :=
  git_dir ← _find_git_directory package_root;
  head ← strip <$> read_text E (join_path git_dir "HEAD");
  let commit := if starts_with "ref: " head then _read_git_reference git_dir (remove_prefix "ref: " head)
                else Some head in
  let normalized := default (PyStr []) (lower_hex <$> commit) in
  if hex_string 40 (code_points normalized) then Some normalized else None.

(** ** The digest of the package tree *)

Fixpoint parts_leb (a b : list pystr) : bool :=
  match a, b with
  | [], _ => true
  | _ :: _, [] => false
  | x :: a', y :: b' =>
      if decide (x = y) then parts_leb a' b' else points_leb (code_points x) (code_points y)
  end.
Definition entry_le (a b : TreeEntry) : Prop := parts_leb (te_parts a) (te_parts b) = true.
#[export] Instance entry_le_dec : RelDecision entry_le.
Proof. intros a b. unfold entry_le. apply _. Defined.

Definition counted (root : pystr) (e : TreeEntry) : bool :=
  te_is_file e
  && negb (bool_decide ("__pycache__"%py ∈ path_parts E root ++ te_parts e))
  && negb (bool_decide (te_suffix e ∈ [".pyc"; ".pyo"]%py)).

(** [relative_to(package_root).as_posix()]. *)
Fixpoint as_posix (parts : list pystr) : pystr :=
  match parts with
  | [] => "."
  | [p] => p
  | p :: parts' => p +:+ "/" +:+ as_posix parts'
  end%py.

(** What one file adds to the digest, and what is digested. *)
Definition digest_entry (relative payload : bytes) : res bytes :=
  relative_length ← to_bytes_big 8 (Z.of_nat (length relative));
  payload_length ← to_bytes_big 8 (Z.of_nat (length payload));
  Ok (relative_length ++ relative ++ payload_length ++ payload).

Fixpoint digest_input (files : list TreeEntry) : res bytes :=
  match files with
  | [] => Ok []
  | e :: files' =>
      relative ← utf8 (code_points (as_posix (te_parts e)));
      entry ← digest_entry relative (te_bytes e);
      rest ← digest_input files';
      Ok (entry ++ rest)
  end.

(** [sorted(path for path in package_root.rglob("*") if ...)]. *)
Definition package_files (package_root : pystr) : list TreeEntry :=
  merge_sort entry_le (List.filter (counted package_root) (rglob E package_root)).

Definition _package_tree_digest (package_root : pystr) : res pystr :=
  input ← digest_input (package_files package_root);
  Ok (sha256_hexdigest E input).

(** ** The revision *)

(** The version of an installation that is a release and not editable. *)
Definition released_version : res (option pystr) :=
  match distribution_version E with
  | None => Ok None
  | Some version =>
      if bool_decide (version ∈ _UNRELEASED_VERSIONS) then Ok None
      else
        editable ← _installed_distribution_is_editable;
        Ok (if (editable : bool) then None else Some version)
  end.

Definition _resolve_runtime_revision_at (package_root : pystr) : res pystr :=
  released ← released_version;
  match (released : option pystr) with
  | Some version => validate_runtime_revision (_DISTRIBUTION_NAME +:+ "/" +:+ version)%py
  | None =>
      match _source_commit package_root with
      | None => fail attribution_error
      | Some commit =>
          tree_digest ← _package_tree_digest package_root;
          validate_runtime_revision
            (_DISTRIBUTION_NAME +:+ "/commit:" +:+ commit +:+ "+tree:" +:+ tree_digest)%py
      end
  end.

(** [resolve_runtime_revision()] where the package was imported from, and what
    the runtime is given. *)
Definition runtime_revision_of (package_root : pystr) (runtime_revision : option pystr) : res pystr :=
  match runtime_revision with
  | None => _resolve_runtime_revision_at package_root
  | Some value => validate_runtime_revision value
  end.

End Installation.

(** * What a revision identifies *)

Lemma digest_entry_app relative payload relative' payload' b b' r r' :
  digest_entry relative payload = Ok b → digest_entry relative' payload' = Ok b' → b ++ r = b' ++ r' →
  relative = relative' ∧ payload = payload' ∧ r = r'.
Proof.
  unfold digest_entry. intros H H' Ea.
  apply res_bind_Ok in H as (l1 & [-> B1]%to_bytes_big_inv & H).
  apply res_bind_Ok in H as (l2 & [-> B2]%to_bytes_big_inv & <-%Ok_inj).
  apply res_bind_Ok in H' as (l3 & [-> B3]%to_bytes_big_inv & H').
  apply res_bind_Ok in H' as (l4 & [-> B4]%to_bytes_big_inv & <-%Ok_inj).
  rewrite <-!app_assoc in Ea.
  apply app_inj_1 in Ea as [E1 Ea]; [|by rewrite !length_big_endian].
  apply big_endian_inj in E1; [|lia..].
  apply app_inj_1 in Ea as [<- Ea]; [|lia].
  apply app_inj_1 in Ea as [E2 Ea]; [|by rewrite !length_big_endian].
  apply big_endian_inj in E2; [|lia..].
  apply app_inj_1 in Ea as [<- <-]; [done|lia].
Qed.

(** What of a file the digest covers. *)
Definition covers (e : TreeEntry) : pystr * bytes := (as_posix (te_parts e), te_bytes e).

Lemma digest_input_nonempty e l : digest_input (e :: l) ≠ Ok [].
Proof.
  simpl. intros H. apply res_bind_Ok in H as (p & _ & H). apply res_bind_Ok in H as (d & Hd & H).
  apply res_bind_Ok in H as (rest & _ & Hn%Ok_inj). unfold digest_entry in Hd.
  apply res_bind_Ok in Hd as (l1 & [-> _]%to_bytes_big_inv & Hd).
  apply res_bind_Ok in Hd as (l2 & _ & <-%Ok_inj). apply (f_equal length) in Hn.
  rewrite !length_app, length_big_endian in Hn. simpl in Hn. lia.
Qed.

Lemma digest_input_inj l l' b : digest_input l = Ok b → digest_input l' = Ok b → covers <$> l = covers <$> l'.
Proof.
  revert l' b. induction l as [|e l IH]; intros [|e' l'] b H H'; [done|..]; simpl in H, H'.
  - injection H as <-. by apply digest_input_nonempty in H'.
  - injection H' as <-. by apply digest_input_nonempty in H.
  - apply res_bind_Ok in H as (p & Hp & H). apply res_bind_Ok in H as (d & Hd & H).
    apply res_bind_Ok in H as (rest & Hr & <-%Ok_inj).
    apply res_bind_Ok in H' as (p' & Hp' & H'). apply res_bind_Ok in H' as (d' & Hd' & H').
    apply res_bind_Ok in H' as (rest' & Hr' & Eb%Ok_inj).
    destruct (digest_entry_app _ _ _ _ _ _ _ _ Hd' Hd Eb) as (-> & Hb & ->).
    assert (code_points (as_posix (te_parts e)) = code_points (as_posix (te_parts e'))) as Ep by by eapply utf8_inj.
    simpl. f_equal; [|by eapply IH]. unfold covers. rewrite <-Hb. f_equal.
    by destruct (as_posix (te_parts e)), (as_posix (te_parts e')); simpl in Ep; subst.
Qed.

(** The files a digest covers, as it covers them. *)
Definition package_tree (E : Installation) (root : pystr) : list (pystr * bytes) :=
  covers <$> package_files E root.

Lemma hex_string_length n l : hex_string n l = true → length l = n.
Proof. unfold hex_string. intros [H%Nat.eqb_eq _]%andb_prop. done. Qed.

Lemma source_commit_hex E root c : _source_commit E root = Some c → pystr_len c = 40.
Proof.
  unfold _source_commit. intros H. apply bind_Some in H as (d & _ & H). apply bind_Some in H as (h & _ & H).
  split_if; [|done]. injection H as <-. by apply hex_string_length.
Qed.

Lemma pystr_app_inj a b c d : pystr_len a = pystr_len c → (a +:+ b = c +:+ d)%py → a = c ∧ b = d.
Proof.
  destruct a, b, c, d. unfold pystr_app, pystr_len. simpl. intros Hl [= E].
  apply app_inj_1 in E as [-> ->]; done.
Qed.

(** A revision that is resolved from a source checkout is exact. It has the
    form receipts require, and two installations of one revision, neither a
    release, have the same commit and, unless SHA-256 collides on their two trees,
    the same package files with the same bytes. *)
Theorem resolved_revision_exact (E E' : Installation) (root root' r : pystr)
  (Hr : _resolve_runtime_revision_at E root = Ok r)
  (Hr' : _resolve_runtime_revision_at E' root' = Ok r)
  (Hsource : released_version E = Ok None) (Hsource' : released_version E' = Ok None)
  (Hsha : ∀ b b', digest_input (package_files E root) = Ok b → digest_input (package_files E' root') = Ok b' →
    sha256_hexdigest E b = sha256_hexdigest E' b' → b = b') :
  validate_runtime_revision r = Ok r ∧ _source_commit E root = _source_commit E' root' ∧
  package_tree E root = package_tree E' root'.
Proof.
  unfold _resolve_runtime_revision_at in Hr, Hr'. rewrite Hsource in Hr. rewrite Hsource' in Hr'. simpl in Hr, Hr'.
  destruct (_source_commit E root) as [c|] eqn:Ec; [|done].
  destruct (_source_commit E' root') as [c'|] eqn:Ec'; [|done].
  apply res_bind_Ok in Hr as (d & Hd & Hr). apply res_bind_Ok in Hr' as (d' & Hd' & Hr').
  assert (∀ v x, validate_runtime_revision v = Ok x → x = v) as Hv.
  { intros v x. unfold validate_runtime_revision. split_if; [done|congruence]. }
  assert (validate_runtime_revision r = Ok r) as Hok by (by rewrite (Hv _ _ Hr) at 1; rewrite Hr).
  apply Hv in Hr, Hr'. split; [done|]. rewrite Hr in Hr'. clear Hr.
  repeat (apply pystr_app_inj in Hr' as [_ Hr']; [|done]).
  apply source_commit_hex in Ec, Ec'. apply pystr_app_inj in Hr' as [-> Hr']; [|congruence].
  apply pystr_app_inj in Hr' as [_ ->]; [|done]. split; [done|].
  unfold _package_tree_digest in Hd, Hd'. apply res_bind_Ok in Hd as (b & Hb & [= Hd]).
  apply res_bind_Ok in Hd' as (b' & Hb' & [= Hd']). rewrite <-Hd' in Hd. apply (Hsha _ _ Hb Hb') in Hd as ->.
  by eapply digest_input_inj.
Qed.

(** * A checkout *)

#[local] Definition checkout : Installation :=
  mkInstallation None DU_NONE (λ p, bool_decide (p = "/repo/.git"%py)) (λ _, false)
    (λ p, if bool_decide (p = "/repo/.git/HEAD"%py) then Some "ref: refs/heads/main"%py
          else if bool_decide (p = "/repo/.git/packed-refs"%py) then
            Some (PyStr (code_points "0123456789ABCDEF0123456789abcdef01234567 refs/heads/main" ++ [10%N]))
          else None)
    id (λ p, if bool_decide (p = "/repo/src"%py) then ["/repo"; "/"]%py else []) (λ _, ["/"; "repo"; "src"]%py)
    (λ _, [mkTreeEntry ["runtime.pyc"%py] true ".pyc" [1%Z]; mkTreeEntry ["runtime.py"%py] true ".py" [120%Z];
           mkTreeEntry ["a.py"%py] true ".py" []])
    (λ _, PyStr (replicate 64 48%N)).

Lemma resolved_revision_exact_witness :
  package_tree checkout "/repo/src" = [("a.py"%py, []); ("runtime.py"%py, [120%Z])] ∧
  ∃ r, _resolve_runtime_revision_at checkout "/repo/src" = Ok r ∧ validate_runtime_revision r = Ok r.
Proof.
  split; [vm_compute; reflexivity|]. eexists. split; [vm_compute; reflexivity|].
  apply (resolved_revision_exact checkout checkout "/repo/src" "/repo/src"); try (vm_compute; reflexivity).
  intros b b' H H' _. rewrite H in H'. injection H' as E. exact E.
Defined.
