(* ===== verification/Authoring.v ===== *)
(** The two ways a host declares an action without writing an
    [ActionDefinition]: the [Action] base class ([action.py]), and the
    specifications and recipes of an [ActionApplication]
    ([experimental/application.py], [experimental/inspection.py]).

    Both end in an [ActionDefinition], which is checked when it is built.  A
    subclass of [Action] is what its class statement and its bases give: the
    arguments of its generic bases, and the class attributes it declares.  An
    application keeps its registrations under the identifiers it hands out;
    the handles are checked by the identity of the application. *)

From S2P Require Import Prelude Models Canonical Authority Receipts Registry Conformance StripeModels.
From S2P Require Import CustodyModels AgentModels StoreBase StoreContract Recovery Evidence Program Runtime Attribution.

(** * The [Action] class *)

(** One of [__orig_bases__]: whether its origin is [Action], and its arguments,
    of which the Pydantic classes have a name. *)
Record OrigBase := mkOrigBase { ob_is_Action : bool; ob_arguments : list (option pystr) }.

Abbreviation ModelTypes := (pystr * pystr * pystr * pystr)%type.

(** The class attributes; the first six have no default. *)
Record ActionClass := mkActionClass {
  ak_orig_bases : list OrigBase;
  ak_inherited_model_types : option ModelTypes;
  ak_action_type : option ActionType;
  ak_proposal_ttl : option timedelta;
  ak_executor_identity : option GovernedExecutor;
  ak_target_identity : option AuthoritativeTarget;
  ak_authority_audience : option pystr;
  ak_authority_channel_assurance : option pystr;
  ak_verification_delay : timedelta;
  ak_max_verification_attempts : Z;
  ak_effect_kind : EffectKind;
  ak_allow_resend_after_final_absence : bool;
  ak_verification_lease_duration : timedelta
}.

(** The loop of [__init_subclass__]: the first base that is [Action] with four
    model classes. *)
Fixpoint declared_model_types (bases : list OrigBase) : option ModelTypes :=
  match bases with
  | [] => None
  | mkOrigBase true [Some c; Some s; Some v; Some r] :: _ => Some (c, s, v, r)
  | _ :: bases' => declared_model_types bases'
  end.

Definition _model_types (cls : ActionClass) : option ModelTypes :=
  match declared_model_types (ak_orig_bases cls) with
  | Some types => Some types
  | None => ak_inherited_model_types cls
  end.

Definition configuration_error : exn_kind := OtherException "ActionConfigurationError".

(** An instance: the host object itself and the three services it was given. *)
Record Action := mkAction {
  act_class : ActionClass;
  act_self : port;
  _authority_evaluator : port;
  _commitment_provider : CommitmentProviderPort;
  _protection_codec : ProtectionCodecPort
}.

Section Definitions.
Context `{U : Unicode} (classes : gmap pystr ModelClass).

Definition declared {A} (o : option A) : res A :=
  match o with Some a => Ok a | None => fail configuration_error end.

Definition to_definition (a : Action) : res ActionDefinition :=
  let cls := act_class a in
  let self := act_self a in
  types ← declared (_model_types cls);
  let '(command_model, snapshot_model, preview_model, result_model) := (types : ModelTypes) in
  action_type ← declared (ak_action_type cls);
  proposal_ttl ← declared (ak_proposal_ttl cls);
  executor_identity ← declared (ak_executor_identity cls);
  target_identity ← declared (ak_target_identity cls);
  authority_audience ← declared (ak_authority_audience cls);
  authority_channel_assurance ← declared (ak_authority_channel_assurance cls);
  ActionDefinition_post_init classes
    (mkActionDefinition action_type command_model snapshot_model preview_model result_model
       self self (_authority_evaluator a) self self self (_commitment_provider a) (_protection_codec a) self
       proposal_ttl executor_identity target_identity authority_audience authority_channel_assurance
       (Some self) (ak_verification_delay cls) (ak_max_verification_attempts cls) (ak_effect_kind cls)
       (ak_allow_resend_after_final_absence cls) (ak_verification_lease_duration cls)).

(** [can_recover] and [authorize_erasure] where a subclass does not override
    them: they deny. *)
Definition can_recover : AuthorizationResult := mkAuthorizationResult false (Some "recovery_not_authorized"%py).
Definition authorize_erasure : bool := false.

(** * Applications *)

Inductive ActionIssueCode :=
  | INVALID_SPECIFICATION | DUPLICATE_ACTION_TYPE | REGISTRATION_FROZEN | INCOMPLETE_BINDING
  | BINDING_INACTIVE | DEFINITION_NONCONFORMING | POLICY_UNAVAILABLE.

Definition issue_code_value (c : ActionIssueCode) : pystr :=
  match c with
  | INVALID_SPECIFICATION => "invalid_specification"
  | DUPLICATE_ACTION_TYPE => "duplicate_action_type"
  | REGISTRATION_FROZEN => "registration_frozen"
  | INCOMPLETE_BINDING => "incomplete_binding"
  | BINDING_INACTIVE => "binding_inactive"
  | DEFINITION_NONCONFORMING => "definition_nonconforming"
  | POLICY_UNAVAILABLE => "policy_unavailable"
  end.

Definition issue_codes : list ActionIssueCode :=
  [INVALID_SPECIFICATION; DUPLICATE_ACTION_TYPE; REGISTRATION_FROZEN; INCOMPLETE_BINDING;
   BINDING_INACTIVE; DEFINITION_NONCONFORMING; POLICY_UNAVAILABLE].

Definition _ISSUE_MESSAGES (c : ActionIssueCode) : pystr :=
  match c with
  | INVALID_SPECIFICATION => "action specification is invalid"
  | DUPLICATE_ACTION_TYPE => "action type is already registered"
  | REGISTRATION_FROZEN => "action registration is frozen"
  | INCOMPLETE_BINDING => "action binding is incomplete"
  | BINDING_INACTIVE => "action binding is inactive"
  | DEFINITION_NONCONFORMING => "compiled action definition is nonconforming"
  | POLICY_UNAVAILABLE => "required action policy is unavailable"
  end.

(** [ActionApplicationError(code)]. *)
Definition application_error (c : ActionIssueCode) : exn_kind :=
  OtherException ("ActionApplicationError: " +:+ _ISSUE_MESSAGES c)%py.

Record ActionSpec := mkActionSpec {
  as_action_type : ActionType;
  as_command_model : pystr;
  as_private_snapshot_model : pystr;
  as_display_preview_model : pystr;
  as_result_model : pystr;
  as_proposal_ttl : timedelta;
  as_executor_identity : GovernedExecutor;
  as_target_identity : AuthoritativeTarget;
  as_authority_audience : pystr;
  as_authority_channel_assurance : pystr;
  as_verification_delay : timedelta;
  as_max_verification_attempts : Z;
  as_effect_kind : EffectKind;
  as_allow_resend_after_final_absence : bool;
  as_verification_lease_duration : timedelta
}.

(** The constraints of the fields of [ActionSpec]. *)
Definition spec_fields_valid (s : ActionSpec) : bool :=
  action_type_valid (as_action_type s) && (0 <? as_proposal_ttl s)%Z
  && safe_reference (ge_reference (as_executor_identity s)) && safe_reference (tg_reference (as_target_identity s))
  && safe_reference (as_authority_audience s) && safe_reference (as_authority_channel_assurance s)
  && (0 <=? as_verification_delay s)%Z && (0 <? as_max_verification_attempts s)%Z
  && (0 <? as_verification_lease_duration s)%Z.

(** [translate_validation_failure] around the construction. *)
Definition translate_validation_failure (s : ActionSpec) : res ActionSpec :=
  let conforms := assert_boundary_models_conform classes (as_command_model s) (as_private_snapshot_model s)
                    (as_display_preview_model s) (as_result_model s) in
  match (if spec_fields_valid s then conforms else fail ValidationError) with
  | Ok _ => Ok s
  | Err _ => fail (application_error INVALID_SPECIFICATION)
  end.

(** A handle names its application by identity. *)
Record RegisteredAction := mkRegisteredAction {
  ra_action_type : ActionType;
  ra_registration_id : Z;
  ra_application_token : positive
}.

Record ActionApplication := mkActionApplication {
  app_token : positive;
  app_registrations : gmap Z (ActionSpec * port);
  app_action_keys : gset ActionKey;
  app_next_registration_id : Z;
  is_frozen : bool
}.

Definition new_application (token : positive) : ActionApplication := mkActionApplication token ∅ ∅ 1 false.

Definition app_register (specification : ActionSpec) (recipe : port) (app : ActionApplication)
  : res (RegisteredAction * ActionApplication) :=
  if is_frozen app then fail (application_error REGISTRATION_FROZEN)
  else
    let key := _action_key (as_action_type specification) in
    if bool_decide (key ∈ app_action_keys app) then fail (application_error DUPLICATE_ACTION_TYPE)
    else
      let registration_id := app_next_registration_id app in
      Ok (mkRegisteredAction (as_action_type specification) registration_id (app_token app),
          mkActionApplication (app_token app)
            (<[registration_id := (specification, recipe)]> (app_registrations app))
            ({[key]} ∪ app_action_keys app) (registration_id + 1) (is_frozen app)).

Definition freeze (app : ActionApplication) : ActionApplication :=
  mkActionApplication (app_token app) (app_registrations app) (app_action_keys app)
    (app_next_registration_id app) true.

Definition _typed_registration (app : ActionApplication) (action : RegisteredAction) : res (ActionSpec * port) :=
  if negb (bool_decide (ra_application_token action = app_token app)) then
    fail (application_error INCOMPLETE_BINDING)
  else
    match app_registrations app !! ra_registration_id action with
    | None => fail (application_error INCOMPLETE_BINDING)
    | Some registration => Ok registration
    end.

Definition _command_model_for (app : ActionApplication) (action : RegisteredAction) : res pystr :=
  if negb (is_frozen app) then fail (application_error INCOMPLETE_BINDING)
  else
    registration ← _typed_registration app action;
    Ok (as_command_model registration.1).

(** ** Inspection *)

Record ActionSettingsInspection := mkActionSettingsInspection {
  si_proposal_ttl : timedelta;
  si_verification_delay : timedelta;
  si_max_verification_attempts : Z;
  si_effect_kind : EffectKind;
  si_allow_resend_after_final_absence : bool;
  si_verification_lease_duration : timedelta
}.

(** The literal fields have one value each and are left out. *)
Record ActionInspection := mkActionInspection {
  ai_action_type : ActionType;
  ai_boundary_models : list pystr;
  ai_settings : ActionSettingsInspection;
  ai_issue_codes : list pystr;
  ai_catalog_frozen : bool
}.

Definition inspect (app : ActionApplication) (action : RegisteredAction) : res ActionInspection :=
  registration ← _typed_registration app action;
  let specification := registration.1 in
  Ok (mkActionInspection (as_action_type specification)
        ["command"; "private_snapshot"; "display_preview"; "result"]%py
        (mkActionSettingsInspection (as_proposal_ttl specification) (as_verification_delay specification)
           (as_max_verification_attempts specification) (as_effect_kind specification)
           (as_allow_resend_after_final_absence specification)
           (as_verification_lease_duration specification))
        (issue_code_value <$> issue_codes) (is_frozen app)).

(** ** Bindings *)

(** [_BindingState]: the borrowed definition and runtime, until it is
    released. *)
Record BindingState := mkBindingState { bs_parts : option (ActionDefinition * ActionRuntime) }.

Definition binding_parts (state : BindingState) : res (ActionDefinition * ActionRuntime) :=
  match bs_parts state with
  | None => fail (application_error BINDING_INACTIVE)
  | Some parts => Ok parts
  end.

Definition release (state : BindingState) : BindingState := mkBindingState None.

(** *** The methods of [BoundAction] *)

Definition with_parts {A} (state : BindingState) (f : ActionDefinition → ActionRuntime → prog A) : prog A :=
  parts ← lift (binding_parts state); f (fst (parts : ActionDefinition * ActionRuntime)) (snd parts).

Section BoundAction.
Variable _state : BindingState.

Definition bound_prepare (tenant_reference : pystr) (command : PyModel) (requesting_principal : RequestingPrincipal)
  (proposing_agent : option ProposingAgent) (proposal_reference : option pystr) : prog ActionOperationResult :=
  with_parts _state (λ definition runtime,
    prepare runtime definition tenant_reference command requesting_principal proposing_agent proposal_reference).

Definition bound_record_authority (evidence : AuthorityEvidence) (authenticated_authority : ConfirmingAuthority)
  (proposal_reference : option pystr) : prog ActionOperationResult :=
  with_parts _state (λ definition runtime,
    record_authority runtime definition evidence authenticated_authority proposal_reference).

Definition bound_expire_due (tenant_reference proposal_reference : pystr) : prog ActionOperationResult :=
  with_parts _state (λ definition runtime, expire_due runtime definition tenant_reference proposal_reference).

Definition bound_execute (tenant_reference proposal_reference : pystr) : prog ActionOperationResult :=
  with_parts _state (λ definition runtime, execute runtime definition tenant_reference proposal_reference).

Definition bound_reconcile (tenant_reference proposal_reference : pystr) : prog ActionOperationResult :=
  with_parts _state (λ definition runtime, reconcile runtime definition tenant_reference proposal_reference).

Definition bound_resume_verification (tenant_reference proposal_reference : pystr) (expected_revision : Z)
  (operator : RecoveryOperator) (intervention_reference : pystr) : prog ActionOperationResult :=
  with_parts _state (λ definition runtime,
    resume_verification runtime definition tenant_reference proposal_reference expected_revision operator
      intervention_reference).

Definition bound_read (proposal_reference : pystr) (context : ReadContext) : prog ProposalView :=
  with_parts _state (λ definition _, read definition proposal_reference context).

Definition bound_read_recovery (proposal_reference : pystr) (context : ReadContext) : prog ActionRecoveryView :=
  with_parts _state (λ definition _, read_recovery definition proposal_reference context).

Definition bound_export_evidence (dump : ActionEvidenceBundle → JsonObject) (sha256 : bytes → pystr)
  (proposal_reference : pystr) (context : ReadContext) : prog ActionEvidenceBundle :=
  with_parts _state (λ definition runtime, export_evidence dump sha256 runtime definition proposal_reference context).

Definition bound_observation_context (proposal_reference : pystr) (context : ReadContext) : prog ExecutionContext :=
  with_parts _state (λ definition _, observation_context definition proposal_reference context).

Definition bound_erase (proposal_reference : pystr) (context : ReadContext) : prog ActionOperationResult :=
  with_parts _state (λ definition runtime, erase runtime definition proposal_reference context).

End BoundAction.


(** The definition of a specification over components; [None] if a required one
    is [None]. *)
Definition bound_definition (s : ActionSpec) (c : ActionComponents) : option ActionDefinition :=
  preparation ← cm_preparation c;
  authorization ← cm_authorization c;
  authority_evaluator ← cm_authority_evaluator c;
  state_resolver ← cm_state_resolver c;
  executor ← cm_executor c;
  verifier ← cm_verifier c;
  commitment_provider ← cm_commitment_provider c;
  protection_codec ← cm_protection_codec c;
  retention ← cm_retention c;
  _ ← cm_store c;
  Some (mkActionDefinition (as_action_type s) (as_command_model s) (as_private_snapshot_model s)
          (as_display_preview_model s) (as_result_model s) preparation authorization authority_evaluator
          state_resolver executor verifier commitment_provider protection_codec retention
          (as_proposal_ttl s) (as_executor_identity s) (as_target_identity s) (as_authority_audience s)
          (as_authority_channel_assurance s) (cm_recovery_authorization c) (as_verification_delay s)
          (as_max_verification_attempts s) (as_effect_kind s) (as_allow_resend_after_final_absence s)
          (as_verification_lease_duration s)).

(** [ActionRuntime(...)], of an installation of the package at [root]. *)
Definition action_runtime (E : Installation) (root : pystr) (retention_store : option port)
  (runtime_revision : option pystr) : res ActionRuntime :=
  revision ← runtime_revision_of E root runtime_revision;
  Ok (mkActionRuntime (bool_decide (is_Some retention_store)) revision).

(** Entering [application.bind(action, dependencies=...)]. *)
Definition bind_enter (E : Installation) (root : pystr) (app : ActionApplication) (action : RegisteredAction)
  (dependencies : port) : prog BindingState :=
  if negb (is_frozen app) then raise (application_error INCOMPLETE_BINDING)
  else
    registration ← lift (_typed_registration app action);
    let '(specification, recipe) := (registration : ActionSpec * port) in
    components ← call (Agent (BindRecipe recipe dependencies));
    match (components : option ActionComponents) with
    | None => raise (application_error INCOMPLETE_BINDING)
    | Some components =>
        match bound_definition specification components with
        | None => raise (application_error INCOMPLETE_BINDING)
        | Some definition =>
            definition ← lift (ActionDefinition_post_init classes definition);
            runtime ← lift (action_runtime E root (cm_retention_store components) (cm_runtime_revision components));
            Ret (mkBindingState (Some (definition, runtime)))
        end
    end.

(** * What a handle gives *)

Inductive application_step : ActionApplication → ActionApplication → Prop :=
  | step_register app spec recipe handle app' :
      app_register spec recipe app = Ok (handle, app') → application_step app app'
  | step_freeze app : application_step app (freeze app).

(** Registered types are in the key set, each once, under identifiers already
    given out. *)
Record application_ok (app : ActionApplication) : Prop := {
  ok_next id r : app_registrations app !! id = Some r → (id < app_next_registration_id app)%Z;
  ok_keys id r : app_registrations app !! id = Some r → _action_key (as_action_type r.1) ∈ app_action_keys app;
  ok_types id id' r r' : app_registrations app !! id = Some r → app_registrations app !! id' = Some r' →
    as_action_type r.1 = as_action_type r'.1 → id = id'
}.

Lemma register_inv spec recipe app handle app' :
  app_register spec recipe app = Ok (handle, app') →
  is_frozen app = false ∧ _action_key (as_action_type spec) ∉ app_action_keys app ∧
  handle = mkRegisteredAction (as_action_type spec) (app_next_registration_id app) (app_token app) ∧
  app' = mkActionApplication (app_token app)
    (<[app_next_registration_id app := (spec, recipe)]> (app_registrations app))
    ({[_action_key (as_action_type spec)]} ∪ app_action_keys app) (app_next_registration_id app + 1) (is_frozen app).
Proof. unfold app_register. split_if; [done|]. case_bool_decide; [done|]. intros [= <- <-]. done. Qed.

Lemma application_step_ok app app' : application_step app app' → application_ok app → application_ok app'.
Proof.
  intros [a spec recipe h a' H|a] [Hn Hk Ht]; [|by split].
  apply register_inv in H as (_ & Hnew & _ & ->). split; simpl.
  - intros id r [[<- <-]|[? ?%Hn]]%lookup_insert_Some; lia.
  - intros id r [[<- <-]|[? ?%Hk]]%lookup_insert_Some; simpl; apply elem_of_union;
      [left; by apply elem_of_singleton|by right].
  - intros id id' r r' [[<- <-]|[? H1]]%lookup_insert_Some [[<- <-]|[? H2]]%lookup_insert_Some E; simpl in E.
    + done.
    + apply Hk in H2. by rewrite <-E in H2.
    + apply Hk in H1. by rewrite E in H1.
    + by eapply Ht.
Qed.

(** Registrations stay as they are, and a frozen application is final. *)
Definition application_keeps (app app' : ActionApplication) : Prop :=
  app_token app' = app_token app ∧ app_registrations app ⊆ app_registrations app' ∧
  (is_frozen app = true → app' = app).

Lemma application_step_keeps app app' :
  application_step app app' → application_ok app → application_keeps app app'.
Proof.
  intros [a spec recipe h a' H|a] [Hn _ _].
  - apply register_inv in H as (Hf & _ & _ & ->). split_and!; simpl; [done| |congruence].
    apply insert_subseteq. destruct (_ !! _) eqn:E; [apply Hn in E; lia|done].
  - split_and!; [done..|]. intros Hf. destruct a. simpl in *. unfold freeze. simpl. by rewrite Hf.
Qed.

Lemma application_steps app app' :
  rtc application_step app app' → application_ok app → application_ok app' ∧ application_keeps app app'.
Proof.
  induction 1 as [a|a b c Hs _ IH]; intros Hok; [split; [done|by split_and!]|].
  destruct (IH (application_step_ok _ _ Hs Hok)) as [Hc (T2 & R2 & F2)].
  destruct (application_step_keeps _ _ Hs Hok) as (T1 & R1 & F1). split; [done|split_and!].
  - congruence.
  - by etrans.
  - intros Hf. specialize (F1 Hf) as ->. by apply F2.
Qed.

Lemma bound_definition_spec s c d :
  bound_definition s c = Some d →
  ad_action_type d = as_action_type s ∧ model_contract d =
    (as_command_model s, as_private_snapshot_model s, as_display_preview_model s, as_result_model s) ∧
  Some (ad_executor d) = cm_executor c ∧ Some (ad_verifier d) = cm_verifier c.
Proof.
  unfold bound_definition. intros H. repeat (apply bind_Some in H as (? & ? & H)). by injection H as <-.
Qed.

Lemma post_init_same d d' : ActionDefinition_post_init classes d = Ok d' → d' = d.
Proof.
  unfold ActionDefinition_post_init. repeat (split_if; [done|]). intros H.
  repeat (apply res_bind_Ok in H as (? & _ & H)). congruence.
Qed.

(** A handle that [register] gave names its registration for as long as the
    application lives, whatever else is registered, and no other registration has
    its action type. A binding of the handle succeeds only in a frozen
    application, asks exactly the recipe that was registered with it, and holds a
    definition of that action type with the registered models over the recipe's
    components, that passed the construction checks, and a runtime whose receipts
    name an exact revision of the package. *)
Theorem handles_bind_registrations (token : positive) (app app1 app' : ActionApplication)
  (specification : ActionSpec) (recipe : port) (handle : RegisteredAction)
  (Hreach : rtc application_step (new_application token) app)
  (Hregister : app_register specification recipe app = Ok (handle, app1))
  (Hlater : rtc application_step app1 app') :
  _typed_registration app' handle = Ok (specification, recipe) ∧
  (∀ other r, _typed_registration app' other = Ok r → as_action_type r.1 = as_action_type specification →
     ra_registration_id other = ra_registration_id handle) ∧
  ∀ E root dependencies es state, runs (bind_enter E root app' handle dependencies) es (Ret state) →
    is_frozen app' = true ∧
    ∃ components definition runtime,
      es = [Event (Agent (BindRecipe recipe dependencies)) (Ok (Some components))] ∧
      state = mkBindingState (Some (definition, runtime)) ∧
      bound_definition specification components = Some definition ∧
      ad_action_type definition = ra_action_type handle ∧
      ActionDefinition_post_init classes definition = Ok definition ∧
      runtime_revision_of E root (cm_runtime_revision components) = Ok (_runtime_revision runtime).
Proof.
  assert (application_ok app) as Hok by (eapply application_steps; [exact Hreach|split; done]).
  assert (application_ok app1) as Hok1 by (eapply application_step_ok; [by econstructor|done]).
  destruct (application_steps _ _ Hlater Hok1) as [Hok' (Ht & Hr & _)].
  apply register_inv in Hregister as (_ & _ & -> & E1). subst app1. simpl in *.
  assert (app_registrations app' !! app_next_registration_id app = Some (specification, recipe)) as Hl.
  { eapply lookup_weaken; [|exact Hr]. apply lookup_insert_eq. }
  assert (_typed_registration app' (mkRegisteredAction (as_action_type specification)
    (app_next_registration_id app) (app_token app)) = Ok (specification, recipe)) as Htyped.
  { unfold _typed_registration. simpl. by rewrite Ht, bool_decide_eq_true_2, Hl by done. }
  split_and!; [done|..].
  - intros other r H E. unfold _typed_registration in H. split_if; [done|].
    destruct (_ !! ra_registration_id other) as [r'|] eqn:Hr'; [|done]. injection H as ->.
    by apply (ok_types _ Hok' _ _ _ _ Hr' Hl).
  - intros I root dependencies es state H. unfold bind_enter in H.
    destruct (is_frozen app') eqn:Hf; simpl negb in H; cbn iota in H; [|by apply runs_raise_inv in H].
    rewrite Htyped in H. cbn [lift mbind prog_bind prog_bind_] in H. split; [done|].
    apply runs_bind_inv in H as (es1 & es2 & o & -> & H1 & H).
    apply (runs_call_inv (Agent (BindRecipe recipe dependencies))) in H1. subst es1.
    destruct o as [components|]; [|by apply runs_raise_inv in H].
    destruct (bound_definition specification components) as [d|] eqn:Hd; [|by apply runs_raise_inv in H].
    destruct (ActionDefinition_post_init classes d) as [d'|e] eqn:Hp; [|by apply runs_raise_inv in H].
    assert (d' = d) as -> by by eapply post_init_same. cbn [lift mbind prog_bind prog_bind_] in H.
    unfold action_runtime in H. destruct (runtime_revision_of _ _ _) as [v|] eqn:Hv; [|by apply runs_raise_inv in H].
    cbn [lift mbind prog_bind prog_bind_ res_bind] in H. apply runs_ret_inv in H as [-> ->].
    destruct (bound_definition_spec _ _ _ Hd) as [? _].
    by eexists components, d, _.
Qed.

End Definitions.
