(* ===== verification/AgentTools.v ===== *)
(** The tools an agent framework is given ([integrations/pydantic_ai.py]): a tool
    call prepares a proposal and suspends, and when the framework says that it
    was approved, executes the proposal of its continuation through the runtime.

    The framework hands a tool its arguments, whether the call was approved, and
    the metadata of the suspension; all three are data here, and nothing is
    assumed of them.  Suspension ([raise ApprovalRequired(metadata=...)]) is an
    outcome of a tool call.

    Parameters ([AgentCodec]): what Pydantic makes of continuation metadata and
    how Python prints a float. *)

From S2P Require Import Prelude Models Canonical Authority Receipts Registry Conformance StripeModels.
From S2P Require Import CustodyModels AgentModels StoreBase StoreContract Recovery Program Runtime.
From S2P Require Import Attribution Authoring.

(** * Models *)

Inductive IntegrationOutcome :=
  | BINDING_UNAVAILABLE | INVALID_CONTINUATION | OPERATION_OUTCOME_UNKNOWN | PREPARATION_DENIED
  | PREPARED_NOT_VISIBLE.

Record ActionToolResult := mkActionToolResult {
  tr_proposal_reference : option pystr;
  tr_lifecycle_status : option LifecycleStatus;
  tr_outcome : OperationOutcome + IntegrationOutcome;
  tr_revision : option Z;
  tr_display_preview : JsonObject;
  tr_safe_result : option JsonObject;
  tr_fresh_proposal_reference : option pystr
}.

(** [_ContinuationMetadata]. *)
Record ContinuationMetadata := mkContinuationMetadata {
  cn_proposal_reference : pystr;
  cn_tool_name : pystr;
  cn_action_type : ActionType;
  cn_display_preview : JsonObject
}.

Record ActionRecoveryToolResult := mkActionRecoveryToolResult {
  rt_visible : bool;
  rt_recovery : option ActionRecoveryView
}.

(** [_TOOL_NAME_PATTERN.fullmatch(name)]. *)
Definition tool_name_valid (name : pystr) : bool :=
  ActionName name && (pystr_len name <=? 64)%nat.

Definition DEFAULT_INTERNAL_ACTION_ARGUMENTS : list pystr :=
  ["authority_evidence"; "organization_id"; "private_snapshot"; "proposal_reference"; "request_id";
   "snapshot"; "tenant_reference"; "user_id"]%py.

(** * Existing tools of the host *)

Record ExistingToolActionBinding := mkExistingToolActionBinding {
  et_name : pystr;
  et_action_type : ActionType;
  et_forbidden_model_arguments : list pystr
}.

Definition ExistingToolActionBinding_post_init (b : ExistingToolActionBinding) : res ExistingToolActionBinding :=
  if negb (tool_name_valid (et_name b)) then
    fail (ValueErrorLike "tool name must be a lowercase Python-style identifier")
  else if bool_decide (et_forbidden_model_arguments b = []) then
    fail (ValueErrorLike "forbidden model arguments must not be empty")
  else Ok b.

(** A host function: its [__name__], and the names of its parameters. *)
Record ToolFunction := mkToolFunction { fn_name : option pystr; fn_parameters : list pystr }.

Definition validate_executor (b : ExistingToolActionBinding) (executor : ToolFunction) : res ToolFunction :=
  if negb (bool_decide (fn_name executor = Some (et_name b))) then
    fail (ValueErrorLike "action tool changed executor identity")
  else
    let model_arguments := List.filter (λ p, negb (bool_decide (p = "ctx"%py))) (fn_parameters executor) in
    if existsb (λ p, bool_decide (p ∈ et_forbidden_model_arguments b)) model_arguments then
      fail (ValueErrorLike "action tool exposes internal arguments")
    else Ok executor.

(** The loop of [build_existing_tool_action_toolset]; every tool it adds asks
    for approval. *)
Fixpoint add_functions (executors : gmap pystr ToolFunction) (bindings : list ExistingToolActionBinding)
  : res (list ToolFunction) :=
  match bindings with
  | [] => Ok []
  | binding :: bindings' =>
      match executors !! et_name binding with
      | None => fail (ValueErrorLike "action tool has no executor")
      | Some executor =>
          tool ← validate_executor binding executor;
          tools ← add_functions executors bindings';
          Ok (tool :: tools)
      end
  end.

Definition build_existing_tool_action_toolset (bindings : list ExistingToolActionBinding)
  (executors : gmap pystr ToolFunction) : res (list ToolFunction) :=
  if bool_decide (bindings = []) then
    fail (ValueErrorLike "at least one existing tool action binding is required")
  else if negb (bool_decide (NoDup (et_name <$> bindings))) then
    fail (ValueErrorLike "existing action tool names must be unique")
  else add_functions executors bindings.

(** * Arguments *)

(** What the check of decimals sees of an annotation. The arguments of a type it
    has no rule for (a union, or a bare class) are all tried. *)
Inductive command_annotation :=
  | CDecimal
  | CModel (fields : list command_field)
  | CSequence (arguments : list command_annotation)
  | CTuple (arguments : list command_annotation) (variadic : bool)
  | CMapping (key value : command_annotation)
  | COther (arguments : list command_annotation)
with command_field :=
  | CField (field_name : pystr) (alias validation_alias : option pystr) (a : command_annotation).

(** The names under which a field may be given, the first that is counts. *)
Definition input_names (f : command_field) : list pystr :=
  match f with
  | CField field_name alias validation_alias _ =>
      match validation_alias with Some n => [n] | None => [] end
        ++ match alias with Some n => [n] | None => [] end ++ [field_name]
  end.

(** [value[name]] for the first of the names that is in it. *)
Fixpoint first_input {A} (names : list pystr) (items : list (pystr * A)) : option A :=
  match names with
  | [] => None
  | name :: names' =>
      match List.find (λ '(k, _), bool_decide (k = name)) items with
      | Some (_, v) => Some v
      | None => first_input names' items
      end
  end.

(** [_contains_json_float_for_decimal]. A [str] is a [Sequence] as well, of
    strings, in which no float is found. *)
Fixpoint contains_json_float_for_decimal (value : json) : command_annotation → bool :=
  let items := match value with JList l => Some (List.map contains_json_float_for_decimal l) | _ => None end in
  let entries :=
    match value with
    | JObj o => Some (List.map (λ '(k, v), (k, contains_json_float_for_decimal v)) o)
    | _ => None
    end in
  let text := match value with JStr _ => true | _ => false end in
  fix check (a : command_annotation) : bool :=
    match a with
    | CDecimal => match value with JFloat _ => true | _ => false end
    | CModel fields =>
        match entries with
        | None => false
        | Some entries =>
            existsb (λ f, match f with CField _ _ _ fa =>
              match first_input (input_names f) entries with Some v => v fa | None => false end end) fields
        end
    | CSequence (argument :: _) =>
        match items with Some items => existsb (λ v, v argument) items | None => false end
    | CSequence [] => false
    | CTuple arguments variadic =>
        match items with
        | Some items =>
            match arguments with
            | [] => false
            | argument :: _ =>
                if variadic then existsb (λ v, v argument) items
                else existsb id (zip_with (λ item_annotation v, v item_annotation) arguments items)
            end
        | None => if text then false else existsb check arguments
        end
    | CMapping key_annotation value_annotation =>
        match entries with
        | Some entries => existsb (λ '(_, v), v value_annotation) entries
        | None => check key_annotation || check value_annotation
        end
    | COther arguments => existsb check arguments
    end.

(** * Continuations *)

Class AgentCodec := {
  continuation_dump : ContinuationMetadata → json;
  continuation_validate : json → option ContinuationMetadata;
  float_repr : pyfloat → list N
}.

Section Tools.
Context `{U : Unicode, C : AgentCodec} (classes : gmap pystr ModelClass).

(** [json.dumps(arguments)], with its default separators. *)
Fixpoint json_dumps (v : json) : list N :=
  match v with
  | JNull => [110; 117; 108; 108]%N
  | JBool true => [116; 114; 117; 101]%N
  | JBool false => [102; 97; 108; 115; 101]%N
  | JInt z => dumps_int z
  | JFloat f => float_repr f
  | JStr s => dumps_str s
  | JList [] => [91; 93]%N
  | JList (x :: l) => 91%N :: json_dumps x ++ flat_map (λ y, [44; 32]%N ++ json_dumps y) l ++ [93%N]
  | JObj [] => [123; 125]%N
  | JObj ((k, x) :: o) =>
      123%N :: dumps_str k ++ [58; 32]%N ++ json_dumps x
        ++ flat_map (λ '(k', y), [44; 32]%N ++ dumps_str k' ++ [58; 32]%N ++ json_dumps y) o ++ [125%N]
  end.

Definition _continuation_metadata (value : json) : option ContinuationMetadata := continuation_validate value.

Definition _safe_failure (outcome : IntegrationOutcome) : ActionToolResult :=
  mkActionToolResult None None (inr outcome) None [] None None.

Definition _tool_result (result : ActionOperationResult) : ActionToolResult :=
  mkActionToolResult (Some (ar_proposal_reference result)) (Some (ar_lifecycle_status result))
    (inl (ar_outcome result)) (Some (ar_revision result)) (ar_display_preview result)
    (ar_safe_result result) (ar_fresh_proposal_reference result).

(** * Operations

    The interface [_ActionOperations], and its two implementations. *)
Class ActionOperations := {
  op_prepare : pystr → PyModel → RequestingPrincipal → option ProposingAgent → prog ActionOperationResult;
  op_execute : pystr → pystr → prog ActionOperationResult;
  op_reconcile : pystr → pystr → prog ActionOperationResult;
  op_read : pystr → ReadContext → prog ProposalView
}.

(** [_FixedActionOperations]. *)
Definition fixed_operations (runtime : ActionRuntime) (definition : ActionDefinition) : ActionOperations := {|
  op_prepare t command principal agent := prepare runtime definition t command principal agent None;
  op_execute t p := execute runtime definition t p;
  op_reconcile t p := reconcile runtime definition t p;
  op_read p context := read definition p context
|}.

(** [BoundAction]: every method takes the parts of its binding first. *)
Definition bound_operations (state : BindingState) : ActionOperations := {|
  op_prepare t command principal agent := bound_prepare state t command principal agent None;
  op_execute := bound_execute state;
  op_reconcile := bound_reconcile state;
  op_read := bound_read state
|}.

(** * A tool call *)

(** [isinstance(e, (TypeError, ValueError))]. *)
Definition is_TypeError_or_ValueError (e : exn) : bool :=
  match exn_class e with
  | InvalidAuthorityEvidenceError _ | ValidationError | CanonicalizationError _ | UnicodeEncodeError
  | ValueErrorLike _ => true
  | OtherException n => bool_decide (n = "TypeError"%py)
  | _ => false
  end.

Definition is_ProposalNotFoundError (e : exn) : bool :=
  match exn_class e with ProposalNotFoundError => true | _ => false end.

Definition is_AuthorizationDeniedError (e : exn) : bool :=
  match exn_class e with AuthorizationDeniedError _ => true | _ => false end.

(** [try: body except <f>: handled]. *)
Definition catch {A} (f : exn → bool) (body : prog A) (handled : exn → prog A) : prog A :=
  outcome ← attempt body;
  match (outcome : res A) with
  | Ok a => Ret a
  | Err e => if f e then handled e else Raise e
  end.

(** A model class of the tool: its name and the annotation of its fields. *)
Record CommandModel := mkCommandModel { cd_name : pystr; cd_annotation : command_annotation }.

(** The command of the arguments, if they are one. *)
Definition tool_command (command_model : CommandModel) (arguments : JsonObject) : prog (option PyModel) :=
  catch is_TypeError_or_ValueError
    (if contains_json_float_for_decimal (JObj arguments) (cd_annotation command_model) then
       raise (ValueErrorLike "Decimal fields require JSON string values")
     else
       document ← lift (utf8 (json_dumps (JObj arguments)));
       command ← call (ValidateJson (cd_name command_model) document);
       Ret (Some command))
    (λ _, Ret None).

Definition invalid_continuation : ActionToolResult := _safe_failure INVALID_CONTINUATION.

(** The approved branch of [_invoke_action_tool], from its [try] on. *)
Definition continue_action (operations : ActionOperations) (trusted : ActionAgentContext)
  (continuation : ContinuationMetadata) : prog ActionOperationResult :=
  let read_context := mkReadContext (ac_tenant_reference trusted) (ac_evidence_consumer trusted) in
  _ ← op_read (cn_proposal_reference continuation) read_context;
  executed ← op_execute (ac_tenant_reference trusted) (cn_proposal_reference continuation);
  result ← (if bool_decide (ar_outcome executed = OO_VERIFICATION_PENDING)
               || bool_decide (ar_outcome executed = OO_FAILED_UNKNOWN)
            then op_reconcile (ac_tenant_reference trusted) (ar_proposal_reference executed)
            else Ret executed);
  _ ← op_read (ar_proposal_reference result) read_context;
  match ar_fresh_proposal_reference result with
  | Some fresh => _ ← op_read fresh read_context; Ret result
  | None => Ret result
  end.

(** The other branch, from the command on. *)
Definition prepare_action (operations : ActionOperations) (trusted : ActionAgentContext)
  (action_type : ActionType) (tool_name : pystr) (command : PyModel)
  : prog (ActionToolResult + ContinuationMetadata) :=
  prepared ← attempt (op_prepare (ac_tenant_reference trusted) command
                        (ac_requesting_principal trusted) (ac_proposing_agent trusted));
  match (prepared : res ActionOperationResult) with
  | Err e => if is_AuthorizationDeniedError e then Ret (inl (_safe_failure PREPARATION_DENIED)) else Raise e
  | Ok prepared =>
      prepared_view ← attempt (op_read (ar_proposal_reference prepared)
                         (mkReadContext (ac_tenant_reference trusted) (ac_evidence_consumer trusted)));
      match (prepared_view : res ProposalView) with
      | Err e => if is_ProposalNotFoundError e then Ret (inl (_safe_failure PREPARED_NOT_VISIBLE)) else Raise e
      | Ok prepared_view =>
          Ret (inr (mkContinuationMetadata (ar_proposal_reference prepared) tool_name action_type
                      (pv_display_preview prepared_view)))
      end
  end.

Definition _invoke_action_tool (approved : bool) (continuation_value : json) (arguments : JsonObject)
  (command_model : CommandModel) (action_type : ActionType) (operations : ActionOperations)
  (trusted : ActionAgentContext) (tool_name : pystr) : prog (ActionToolResult + ContinuationMetadata) :=
  if approved then
    match _continuation_metadata continuation_value with
    | None => Ret (inl invalid_continuation)
    | Some continuation =>
        if negb (bool_decide (cn_tool_name continuation = tool_name))
           || negb (bool_decide (cn_action_type continuation = action_type))
        then Ret (inl invalid_continuation)
        else
          catch is_ProposalNotFoundError
            (result ← continue_action operations trusted continuation; Ret (inl (_tool_result result)))
            (λ _, Ret (inl invalid_continuation))
    end
  else
    command ← tool_command command_model arguments;
    match (command : option PyModel) with
    | None => raise (OtherException "ModelRetry")
    | Some command => prepare_action operations trusted action_type tool_name command
    end.

(** [with suppress(Exception): handler(...)]. *)
Definition _report_tool_failure (handler : option port) (failure : exn) (action_type : ActionType)
  (tool_name : pystr) : prog unit :=
  match handler with
  | None => Ret ()
  | Some handler => catch is_Exception (call (Agent (ReportFailure handler failure action_type tool_name)))
                      (λ _, Ret ())
  end.

(** What the framework gives a call: [ctx.deps], [ctx.tool_call_approved],
    [ctx.tool_call_metadata] and the keyword arguments. *)
Record ToolCall := mkToolCall {
  tc_deps : port;
  tc_approved : bool;
  tc_metadata : json;
  tc_arguments : JsonObject
}.

(** A call ends in a result, or suspends with metadata. *)
Inductive tool_outcome := ToolReturned (r : ActionToolResult) | ApprovalRequired (metadata : json).

Definition suspend (outcome : ActionToolResult + ContinuationMetadata) : tool_outcome :=
  match outcome with
  | inl r => ToolReturned r
  | inr continuation => ApprovalRequired (continuation_dump continuation)
  end.

(** ** Fixed bindings *)

Record ActionToolBinding := mkActionToolBinding {
  tb_definition : ActionDefinition;
  tb_command_model : CommandModel;
  tb_context_resolver : port;
  tb_name : pystr;
  tb_description : pystr;
  tb_binding_failure_handler : option port
}.

(** The [__post_init__] of the three bindings. *)
Definition tool_binding_post_init (name description : pystr) : res unit :=
  if negb (tool_name_valid name) then
    fail (ValueErrorLike "tool name must be a lowercase Python-style identifier")
  else if bool_decide (strip description = PyStr []) then
    fail (ValueErrorLike "tool description must not be empty")
  else Ok ().

(** The function [ActionToolBinding.build_tool] makes. *)
Definition governed_action_tool (b : ActionToolBinding) (runtime : ActionRuntime) (ctx : ToolCall)
  : prog tool_outcome :=
  let definition := tb_definition b in
  trusted ← attempt (call (Agent (ResolveContext (tb_context_resolver b) (tc_deps ctx))));
  match (trusted : res ActionAgentContext) with
  | Err failure =>
      if is_Exception failure then
        _ ← _report_tool_failure (tb_binding_failure_handler b) failure (ad_action_type definition) (tb_name b);
        Ret (ToolReturned (_safe_failure BINDING_UNAVAILABLE))
      else Raise failure
  | Ok trusted =>
      outcome ← _invoke_action_tool (tc_approved ctx) (tc_metadata ctx) (tc_arguments ctx)
                  (tb_command_model b) (ad_action_type definition) (fixed_operations runtime definition)
                  trusted (tb_name b);
      Ret (suspend outcome)
  end.

Definition build_tool (b : ActionToolBinding) (runtime : option ActionRuntime)
  : res (ToolCall → prog tool_outcome) :=
  match runtime with
  | None => fail (ValueErrorLike "fixed action tool bindings require an action runtime")
  | Some runtime => Ok (governed_action_tool b runtime)
  end.

(** ** Recovery *)

(** [ActionRecoveryToolRequest.model_validate(arguments)]. *)
Definition ActionRecoveryToolRequest (arguments : JsonObject) : res pystr :=
  match arguments with
  | [(k, JStr reference)] =>
      if bool_decide (k = "proposal_reference"%py) then SafeReference reference else fail ValidationError
  | _ => fail ValidationError
  end.

Definition is_not_visible (e : exn) : bool :=
  match exn_class e with ValidationError | ProposalNotFoundError => true | _ => false end.

(** The function [ActionRecoveryToolBinding.build_tool] makes. *)
Definition recovery_tool (definition : ActionDefinition) (context_resolver : port) (ctx : ToolCall)
  : prog ActionRecoveryToolResult :=
  catch is_not_visible
    (request ← lift (ActionRecoveryToolRequest (tc_arguments ctx));
     trusted ← call (Agent (ResolveContext context_resolver (tc_deps ctx)));
     view ← read_recovery definition request
              (mkReadContext (ac_tenant_reference trusted) (ac_evidence_consumer trusted));
     Ret (mkActionRecoveryToolResult true (Some view)))
    (λ _, Ret (mkActionRecoveryToolResult false None)).

(** ** Scoped bindings *)

Record ScopedActionToolBinding := mkScopedActionToolBinding {
  sb_application : ActionApplication;
  sb_action : RegisteredAction;
  sb_command_annotation : command_annotation;
  sb_dependency_scope : port;
  sb_context_resolver : port;
  sb_name : pystr;
  sb_description : pystr;
  sb_binding_failure_handler : option port
}.

(** [stack.__aexit__] with an exception or without one, when the scope was
    entered. Leaving the binding only releases it, and neither raises nor
    suppresses anything. *)
Definition exit_stack (scope : port) (entered : option port) (failure : option exn) : prog unit :=
  match entered with
  | None => Ret ()
  | Some dependencies => _ ← call (Agent (ExitScope scope dependencies failure)); Ret ()
  end.

(** What the first [try] acquires: the scope as it is entered, and the context
    and the binding. *)
Definition enter_scope (E : Installation) (root : pystr) (b : ScopedActionToolBinding) (dependencies : port)
  : prog (ActionAgentContext * BindingState) :=
  trusted ← call (Agent (ResolveContext (sb_context_resolver b) dependencies));
  state ← bind_enter classes E root (sb_application b) (sb_action b) dependencies;
  Ret ((trusted : ActionAgentContext), state).

Section Scoped.
Variables (E : Installation) (root : pystr) (b : ScopedActionToolBinding) (command_model : CommandModel).

Definition report (failure : exn) : prog unit :=
  _report_tool_failure (sb_binding_failure_handler b) failure (ra_action_type (sb_action b)) (sb_name b).

(** Close the stack after a failure; a failure of that is reported. *)
Definition exit_after (entered : option port) (failure : exn) : prog unit :=
  catch is_Exception (exit_stack (sb_dependency_scope b) entered (Some failure)) report.

(** The end of the first [try]: the binding failed. *)
Definition binding_failed (entered : option port) (failure : exn) : prog tool_outcome :=
  if is_Exception failure then
    _ ← report failure;
    _ ← exit_after entered failure;
    Ret (ToolReturned (_safe_failure BINDING_UNAVAILABLE))
  else Raise failure.

(** The rest of the call: invoke, close, suspend or return. *)
Definition invoke_scoped (ctx : ToolCall) (dependencies : port) (trusted : ActionAgentContext)
  (bound : BindingState) : prog tool_outcome :=
  outcome ← attempt (_invoke_action_tool (tc_approved ctx) (tc_metadata ctx) (tc_arguments ctx) command_model
              (ra_action_type (sb_action b)) (bound_operations bound) trusted (sb_name b));
  match (outcome : res (ActionToolResult + ContinuationMetadata)) with
  | Err failure => _ ← exit_after (Some dependencies) failure; Raise failure
  | Ok outcome =>
      closed ← attempt (exit_stack (sb_dependency_scope b) (Some dependencies) None);
      match (closed : res unit) with
      | Ok _ => Ret (suspend outcome)
      | Err failure =>
          if is_Exception failure then
            _ ← report failure; Ret (ToolReturned (_safe_failure OPERATION_OUTCOME_UNKNOWN))
          else Raise failure
      end
  end.

(** The function [ScopedActionToolBinding.build_tool] makes. *)
Definition scoped_action_tool (ctx : ToolCall) : prog tool_outcome :=
  entered ← attempt (call (Agent (EnterScope (sb_dependency_scope b) (tc_deps ctx))));
  match (entered : res port) with
  | Err failure => binding_failed None failure
  | Ok dependencies =>
      acquired ← attempt (enter_scope E root b dependencies);
      match (acquired : res (ActionAgentContext * BindingState)) with
      | Err failure => binding_failed (Some dependencies) failure
      | Ok (trusted, bound) => invoke_scoped ctx dependencies trusted bound
      end
  end.

End Scoped.

(** [build_tool] resolves the command model when the tool is built. *)
Definition build_scoped_tool (E : Installation) (root : pystr) (b : ScopedActionToolBinding)
  : res (ToolCall → prog tool_outcome) :=
  command_model ← _command_model_for (sb_application b) (sb_action b);
  Ok (scoped_action_tool E root b (mkCommandModel command_model (sb_command_annotation b))).

(** * The capability *)

(** [ActionCapability]: the names of its tools and its inline handler. *)
Record ActionCapability := mkActionCapability {
  _tool_names : list pystr;
  _inline_authority_handler : option port
}.

Definition capability_init (names : list pystr) (handler : option port) : res ActionCapability :=
  if bool_decide (names = []) then fail (ValueErrorLike "at least one action tool binding is required")
  else if negb (bool_decide (NoDup names)) then fail (ValueErrorLike "action tool names must be unique")
  else Ok (mkActionCapability names handler).

Inductive ToolApproval := ToolApproved | ToolDenied (message : pystr).

(** [DeferredToolRequests]: the calls that wait for approval, by identifier and
    name, and their metadata. *)
Record DeferredToolRequests := mkDeferredToolRequests {
  dq_approvals : list (pystr * pystr);
  dq_metadata : gmap pystr json
}.

Record DeferredToolResults := mkDeferredToolResults {
  ds_approvals : gmap pystr ToolApproval;
  ds_metadata : gmap pystr json
}.

Definition no_results : DeferredToolResults := mkDeferredToolResults ∅ ∅.

(** The metadata [build_continuation_results] keeps: of the calls decided. *)
Definition build_continuation_results (requests : DeferredToolRequests) (decisions : gmap pystr bool)
  : gmap pystr bool * gmap pystr json :=
  (decisions, filter (λ '(tool_call_id, _), is_Some (decisions !! tool_call_id)) (dq_metadata requests)).

(** One iteration of [handle_deferred_tool_calls]. *)
Definition handle_deferred_call (self : ActionCapability) (handler deps : port)
  (requests : DeferredToolRequests) (results : DeferredToolResults) (deferred : pystr * pystr)
  : prog DeferredToolResults :=
  let '(tool_call_id, tool_name) := deferred in
  if negb (bool_decide (tool_name ∈ _tool_names self)) then Ret results
  else
    match (dq_metadata requests !! tool_call_id) ≫= _continuation_metadata with
    | Some continuation =>
        if bool_decide (cn_tool_name continuation = tool_name) then
          approved ← call (Agent (InlineAuthority handler
                       (mkDeferredActionRequest tool_call_id tool_name (cn_proposal_reference continuation)
                          (cn_action_type continuation)) deps));
          Ret (mkDeferredToolResults
                 (<[tool_call_id := if (approved : bool) then ToolApproved
                                    else ToolDenied "Action authority was not established."]> (ds_approvals results))
                 (<[tool_call_id := continuation_dump continuation]> (ds_metadata results)))
        else
          Ret (mkDeferredToolResults
                 (<[tool_call_id := ToolDenied "Action continuation metadata is invalid."]> (ds_approvals results))
                 (ds_metadata results))
    | None =>
        Ret (mkDeferredToolResults
               (<[tool_call_id := ToolDenied "Action continuation metadata is invalid."]> (ds_approvals results))
               (ds_metadata results))
    end.

Fixpoint handle_deferred_calls (self : ActionCapability) (handler deps : port) (requests : DeferredToolRequests)
  (deferred : list (pystr * pystr)) (results : DeferredToolResults) : prog DeferredToolResults :=
  match deferred with
  | [] => Ret results
  | d :: deferred' =>
      results ← handle_deferred_call self handler deps requests results d;
      handle_deferred_calls self handler deps requests deferred' results
  end.

Definition handle_deferred_tool_calls (self : ActionCapability) (deps : port) (requests : DeferredToolRequests)
  : prog (option DeferredToolResults) :=
  match _inline_authority_handler self with
  | None => Ret None
  | Some handler =>
      results ← handle_deferred_calls self handler deps requests (dq_approvals requests) no_results;
      Ret (if bool_decide (ds_approvals results = ∅) then None else Some results)
  end.

End Tools.
