(* ===== verification/AgentSafety.v ===== *)
(** What a tool call of an agent may do, whatever the agent, the framework and
    the host objects answer: it reaches the executor only for the proposal of a
    valid continuation that its trusted consumer may read, behind the gate of the
    runtime; what it says names only proposals that consumer may read; and the
    dependency scope it enters is left again. *)

From S2P Require Import Prelude Models Canonical Authority Receipts Registry Conformance StripeModels.
From S2P Require Import CustodyModels AgentModels StoreBase StoreContract Recovery Evidence Program Runtime.
From S2P Require Import Lifecycle RuntimeGuarantee RuntimeCalls RuntimeReads Attribution Authoring AgentTools.

(** * What programs never do *)

Definition is_agent (o : op) : bool := match o with Agent _ => true | _ => false end.

Section Never.
Variable f : op → bool.

Fixpoint never {A} (p : prog A) : Prop :=
  match p with
  | Ret _ | Raise _ => True
  | Vis o k => f o = false ∧ ∀ r, never (k r)
  end.

Lemma never_bind {A B} (p : prog A) (g : A → prog B) : never p → (∀ a, never (g a)) → never (p ≫= g).
Proof.
  intros Hp Hf. induction p as [a|e|o k IH]; [apply Hf|done|]. destruct Hp as [Ho Hk].
  split; [done|]. intros r. by apply IH.
Qed.

Lemma never_attempt {A} (p : prog A) : never p → never (attempt p).
Proof. induction p as [a|e|o k IH]; [done..|]. intros [Ho Hk]. split; [done|]. intros r. by apply IH. Qed.

Lemma never_call o : f o = false → never (call o).
Proof. intros Ho. split; [done|]. by intros [a|e]. Qed.

Lemma never_lift {A} (r : res A) : never (lift r).
Proof. by destruct r. Qed.

Lemma never_runs {A} (p q : prog A) es : never p → runs p es q → Forall (λ e, f (ev_op e) = false) es.
Proof.
  intros Hp Hr. induction Hr as [p|o k r es q Hr IH]; [constructor|]. destruct Hp as [Ho Hk].
  constructor; [done|by apply IH].
Qed.

End Never.

Create HintDb never discriminated.

(** Split a program into its parts; what is left are calls of named programs. *)
Ltac solve_never :=
  repeat match goal with
  | |- never _ (mbind _ _) => apply never_bind; [|intros]
  | |- never _ (attempt _) => apply never_attempt
  | |- never _ (call _) => apply never_call; first [reflexivity|solve [auto with never]]
  | |- never _ (lift _) => apply never_lift
  | |- never _ (Ret _) => exact I
  | |- never _ (raise _) => exact I
  | |- never _ (Raise _) => exact I
  | |- never _ (let '(_, _) := ?x in _) => destruct x
  | |- never _ (let x := _ in _) => cbv zeta
  | |- never _ (if ?b then _ else _) => destruct b
  | |- never _ (match ?x with _ => _ end) => destruct x
  | |- never _ _ => solve [auto with never]
  end.

Section Quiet.
Context `{U : Unicode} (f : op → bool).
Hypothesis quiet_f : ∀ o, is_execute o = false → is_agent o = false → f o = false.

#[local] Hint Extern 1 (f _ = false) => apply quiet_f; reflexivity : never.


Lemma never_required t p : never f (_required t p).
Proof. unfold _required. solve_never. Qed.
Lemma never_cas c u : never f (_cas c u).
Proof. unfold _cas. solve_never. Qed.
Lemma never_emit r e t x : never f (_emit r e t x).
Proof. unfold _emit. solve_never. Qed.
Lemma never_base self r c t x y : never f (new_receipt_base self r c t x y).
Proof. unfold new_receipt_base. solve_never. Qed.
Lemma never_destroy_payload codec i p : never f (_destroy_payload codec i p).
Proof. unfold _destroy_payload. solve_never. Qed.
Lemma never_destroy_commitment provider i c : never f (_destroy_commitment provider i c).
Proof. unfold _destroy_commitment. solve_never. Qed.
Lemma never_create_commitment provider i b : never f (_create_commitment provider i b).
Proof. unfold _create_commitment. solve_never. Qed.
Lemma never_verify_commitment provider i b c : never f (_verify_commitment provider i b c).
Proof. unfold _verify_commitment. solve_never. Qed.
Lemma never_protect codec i b : never f (_protect_payload codec i b).
Proof. unfold _protect_payload. solve_never. Qed.
Lemma never_unprotect codec i b : never f (_unprotect_payload codec i b).
Proof. unfold _unprotect_payload. solve_never. Qed.
#[local] Hint Resolve never_required never_cas never_emit never_base never_destroy_payload never_destroy_commitment
  never_create_commitment never_verify_commitment never_protect never_unprotect : never.

Lemma never_expire_unexecuted r : never f (expire_unexecuted r).
Proof. unfold expire_unexecuted. solve_never. Qed.
Lemma never_block self d r t x : never f (_block self d r t x).
Proof. unfold _block. solve_never. Qed.
Lemma never_settle_execution self d r x t : never f (_settle_execution self d r x t).
Proof. unfold _settle_execution. solve_never. Qed.
Lemma never_settle_verification self d r v t : never f (_settle_verification self d r v t).
Proof. unfold _settle_verification. solve_never. Qed.
Lemma never_load_private d r : never f (_load_private d r).
Proof. unfold _load_private. solve_never. Qed.
Lemma never_evaluate d r b t : never f (_evaluate_authority d r b t).
Proof. unfold _evaluate_authority. solve_never. Qed.
Lemma never_cleanup d i c p e : never f (_preparation_cleanup d i c p e).
Proof. unfold _preparation_cleanup. solve_never. Qed.
#[local] Hint Resolve never_expire_unexecuted never_block never_settle_execution never_settle_verification
  never_load_private never_evaluate never_cleanup : never.

Lemma never_failed d i c p r e : never f (_preparation_failed d i c p r e).
Proof. unfold _preparation_failed. solve_never. Qed.
#[local] Hint Resolve never_failed : never.
Lemma never_persist self d t x pr pa n p : never f (_persist_prepared self d t x pr pa n p).
Proof. unfold _persist_prepared. solve_never. Qed.
#[local] Hint Resolve never_persist : never.
Lemma never_prepare self d t x pr pa p : never f (prepare self d t x pr pa p).
Proof. unfold prepare. solve_never. Qed.
Lemma never_supersede self d r x t : never f (_supersede_stale self d r x t).
Proof. unfold _supersede_stale. solve_never. Qed.
Lemma never_reconcile_pending self d t p c n : never f (reconcile_pending self d t p c n).
Proof. unfold reconcile_pending. solve_never. Qed.
#[local] Hint Resolve never_supersede never_reconcile_pending : never.
Lemma never_reconcile self d t p : never f (reconcile self d t p).
Proof. unfold reconcile. solve_never. Qed.
Lemma never_read d p x : never f (read d p x).
Proof. unfold read, authorize_read. solve_never. Qed.

End Quiet.

Lemma execute_is_execute o : is_execute o = false → is_agent o = false → is_execute o = false.
Proof. done. Qed.
Lemma agent_is_agent o : is_execute o = false → is_agent o = false → is_agent o = false.
Proof. done. Qed.

#[export] Hint Resolve execute_is_execute agent_is_agent never_required never_cas never_emit never_base
  never_expire_unexecuted never_block never_settle_execution never_settle_verification never_load_private
  never_evaluate never_prepare never_supersede never_reconcile never_read : never.

Section Keyed.
Context `{U : Unicode}.

(** * Executions are of the proposal that was asked for *)

Definition of_proposal (t p : pystr) (o : op) : Prop :=
  match o with
  | Execute _ _ context _ => xc_tenant_reference context = t ∧ xc_proposal_reference context = p
  | _ => True
  end.

Abbreviation executes t p := (wp (λ _, of_proposal t p) (λ _ _, True)).

Lemma quiet_executes {A} t p (q : prog A) (Q : history → res A → Prop) h :
  never is_execute q → (∀ h r, Q h r) → executes t p q Q h.
Proof.
  intros Hq HQ. revert h. induction q as [a|e|o k IH]; intros h; [apply HQ..|]. destruct Hq as [Ho Hk].
  split; [by destruct o|]. intros r _. by apply IH.
Qed.

Lemma required_executes {B} t p (f : StoredProposal → prog B) (Q : history → res B → Prop) h :
  (∀ c h, sp_tenant_reference c = t → sp_proposal_reference c = p → executes t p (f c) Q h) →
  (∀ h e, Q h (Err e)) → executes t p (c ← _required t p; f c) Q h.
Proof.
  intros Hf HE. apply wp_bind. unfold _required. apply wp_bind, wp_call; [done|].
  intros [[c|]|e] _; [|apply HE..]. split_if; [apply HE|]. to_prop. by apply Hf.
Qed.

(** A part that does not execute, before the rest. *)
Lemma quiet_then {A B} t p (q : prog A) (f : A → prog B) (Q : history → res B → Prop) h :
  never is_execute q → (∀ a h, executes t p (f a) Q h) → (∀ h e, Q h (Err e)) → executes t p (a ← q; f a) Q h.
Proof. intros Hq Hf HE. apply wp_bind, quiet_executes; [done|]. intros h' [a|e]; auto. Qed.

Lemma execution_context_key c now es ctx :
  _execution_context c now es = Ok ctx →
  xc_tenant_reference ctx = sp_tenant_reference c ∧ xc_proposal_reference ctx = sp_proposal_reference c.
Proof. intros H. by destruct (execution_context_for _ _ _ _ H) as (? & ? & ?). Qed.

Lemma execute_admitted_keyed self d c x b es r t h :
  executes (sp_tenant_reference c) (sp_proposal_reference c) (execute_admitted self d c x b es r t)
    (λ _ _, True) h.
Proof.
  unfold execute_admitted. apply quiet_then; [by apply never_call|intros now h1; cbv zeta|done].
  match goal with |- context [match ?x with Some _ => _ | None => _ end] => destruct x as [reason|] end;
    [apply quiet_executes; [solve_never|done]|].
  destruct (_execution_context c now (Some es)) as [ctx|] eqn:Hx; [|done].
  apply execution_context_key in Hx as [? ?]. apply wp_bind. cbn [lift wp].
  apply wp_bind, wp_call; [done|]. intros [y|e] _; [|done].
  apply quiet_executes; [solve_never|done].
Qed.

Lemma execute_resolved_keyed self d c b r h :
  executes (sp_tenant_reference c) (sp_proposal_reference c) (execute_resolved self d c b r) (λ _ _, True) h.
Proof.
  unfold execute_resolved.
  apply quiet_then; [by apply never_call|intros t1 h1|done]. destruct (_ <=? _)%Z; [by apply quiet_executes; [auto with never|]|].
  apply quiet_then; [auto with never|intros [es a] h2|done]. destruct (negb _); [by apply quiet_executes; [auto with never|]|].
  apply quiet_then; [apply never_lift|intros x h3|done]. apply quiet_then; [by apply never_call|intros z h4|done].
  destruct (negb _); [by apply quiet_executes; [auto with never|]|].
  apply quiet_then; [by apply never_call|intros t2 h5|done]. destruct (_ <=? _)%Z; [by apply quiet_executes; [auto with never|]|].
  destruct (negb _); [by apply quiet_executes; [auto with never|]|].
  apply quiet_then; [auto with never|intros base h6|done]. cbv zeta.
  apply quiet_then; [by apply never_call|intros [] h7|done]; try (apply quiet_executes; [by solve_never|done]);
    apply execute_admitted_keyed.
Qed.

Lemma execute_keyed self d t p h : executes t p (execute self d t p) (λ _ _, True) h.
Proof.
  unfold execute. apply required_executes; [|done]. intros c h1 <- <-.
  apply quiet_then; [apply never_lift|intros [] h2|done]. destruct (bool_decide _); [done|]. destruct (negb _); [done|].
  apply quiet_then; [by apply never_call|intros now h3|done]. destruct (_ <=? _)%Z; [by apply quiet_executes; [auto with never|]|].
  apply quiet_then; [auto with never|intros [s|] h4|done]; [|by apply quiet_executes; [auto with never|]].
  destruct (sp_commitment c) as [k|]; [|by apply quiet_executes; [auto with never|]]. cbv zeta.
  apply quiet_then; [auto with never|intros [es a] h5|done]. destruct (negb _); [by apply quiet_executes; [auto with never|]|].
  apply quiet_then; [apply never_lift|intros x h6|done]. apply quiet_then; [by apply never_call|intros rs h7|done].
  destruct (negb _); [done|]. destruct (rs_materially_drifted rs); [by apply quiet_executes; [auto with never|]|].
  apply execute_resolved_keyed.
Qed.

(** Its host objects are those of the runtime, not those of an agent. *)
Lemma execute_agentless self d t p : never is_agent (execute self d t p).
Proof. unfold execute, execute_resolved, execute_admitted. solve_never. Qed.

End Keyed.

(** * Framing and catching *)

(** What a program guarantees from its own start, after anything else. *)
Lemma wp_after {A} (G : history → op → Prop) (R : history → event → Prop) (p : prog A)
  (Q : history → res A → Prop) h0 h1 :
  (∀ h h' e, R h e → R h' e) → wp G R p Q h1 →
  wp (λ h o, ∃ h', h = h0 ++ h' ∧ G h' o) R p (λ h r, ∃ h', h = h0 ++ h' ∧ Q h' r) (h0 ++ h1).
Proof.
  intros HR. revert h1. induction p as [a|e|o k IH]; intros h1 H; simpl; [by exists h1..|].
  destruct H as [Ho Hk]. split; [by exists h1|]. intros r Hr. rewrite <-app_assoc. apply IH, Hk.
  by eapply HR.
Qed.

(** The history only grows. *)
Lemma wp_prefix {A} (G : history → op → Prop) (R : history → event → Prop) (p : prog A)
  (Q : history → res A → Prop) h0 h :
  h0 `prefix_of` h → wp G R p Q h →
  wp (λ h o, h0 `prefix_of` h ∧ G h o) R p (λ h r, h0 `prefix_of` h ∧ Q h r) h.
Proof.
  revert h. induction p as [a|e|o k IH]; intros h Hp H; [done..|]. destruct H as [Ho Hk].
  split; [done|]. intros r Hr. apply IH; [by apply prefix_app_r|by apply Hk].
Qed.

Lemma wp_catch {A} G R (f : exn → bool) (body : prog A) (handled : exn → prog A) (Q : history → res A → Prop) h :
  wp G R body (λ h (r : res A), match r with
    | Ok a => Q h (Ok a)
    | Err e => if f e then wp G R (handled e) Q h else Q h (Err e)
    end) h →
  wp G R (catch f body handled) Q h.
Proof.
  intros H. unfold catch. apply wp_bind, wp_attempt. eapply wp_mono; [exact H|].
  intros h' [a|e] _ HQ; cbn [wp]; [done|]. by destruct (f e).
Qed.

Lemma wp_never {A} f (G : history → op → Prop) R (p : prog A) h :
  (∀ h o, f o = false → G h o) → never f p → wp G R p (λ _ _, True) h.
Proof.
  intros HG. revert h. induction p as [a|e|o k IH]; intros h; [done..|]. intros [Ho Hk].
  split; [by apply HG|]. intros r _. by apply IH.
Qed.

Lemma permitted_grows d p x h h' : h `prefix_of` h' → permitted d p x h → permitted d p x h'.
Proof. intros [l ->] H. apply elem_of_app. by left. Qed.

(** * The gate of a tool *)

Section Gate.
Context `{U : Unicode, C : AgentCodec} (classes : gmap pystr ModelClass).

(** What the framework said of the call, and what the host trusts of it. *)
Variables (approved : bool) (metadata : json) (tool_name : pystr) (action_type : ActionType).

Definition trusted_reader (trusted : ActionAgentContext) : ReadContext :=
  mkReadContext (ac_tenant_reference trusted) (ac_evidence_consumer trusted).

(** Before the executor: the call was approved with a continuation of this tool
    and action type; its proposal was shown readable by the trusted consumer;
    then, within the execution of that proposal in the trusted tenant, the whole
    gate of the runtime. *)
Definition tool_gate (trusted : ActionAgentContext) (d : ActionDefinition) (h : history) (o : op) : Prop :=
  match o with
  | Execute executor snapshot context pre =>
      approved = true ∧ ∃ c h0 h1,
        _continuation_metadata metadata = Some c ∧ cn_tool_name c = tool_name ∧ cn_action_type c = action_type ∧
        h = h0 ++ h1 ∧ permitted d (cn_proposal_reference c) (trusted_reader trusted) h0 ∧
        xc_tenant_reference context = ac_tenant_reference trusted ∧
        xc_proposal_reference context = cn_proposal_reference c ∧
        executor = ad_executor d ∧ ∃ record executing commitment evidence resolved admitted_at now,
          execution_gate d h1 snapshot context pre record executing commitment evidence resolved admitted_at now
  | _ => True
  end.

(** What is said names only proposals that the trusted consumer may read. *)
Definition discloses (trusted : ActionAgentContext) (d : ActionDefinition) (h : history)
  (outcome : ActionToolResult + ContinuationMetadata) : Prop :=
  let visible p := permitted d p (trusted_reader trusted) h in
  match outcome with
  | inl r =>
      (∃ failure, r = _safe_failure failure) ∨
      (∃ p, tr_proposal_reference r = Some p ∧ visible p) ∧
      ∀ p, tr_fresh_proposal_reference r = Some p → visible p
  | inr c => visible (cn_proposal_reference c) ∧ cn_tool_name c = tool_name ∧ cn_action_type c = action_type
  end.

Section Invoke.
Variables (trusted : ActionAgentContext) (runtime : ActionRuntime) (d : ActionDefinition).

Abbreviation tool := (wp (tool_gate trusted d) rely).

Lemma tool_read p (Q : history → res ProposalView → Prop) h :
  (∀ h' v, h `prefix_of` h' → permitted d p (trusted_reader trusted) h' → Q h' (Ok v)) →
  (∀ h' e, h `prefix_of` h' → Q h' (Err e)) → tool (read d p (trusted_reader trusted)) Q h.
Proof.
  intros HQ HE. eapply wp_mono.
  - eapply wp_weaken; [apply (wp_read d p (trusted_reader trusted))|by intros h' [] Ho|done].
  - intros h' [v|e] Hp Hv; [|by apply HE]. destruct (Hv v eq_refl) as (c & Hc & _).
    apply HQ; [done|]. destruct Hc as (_ & Hc & _). exact Hc.
Qed.

Lemma tool_quiet {A} (p : prog A) (Q : history → res A → Prop) h :
  never is_execute p → (∀ h' r, h `prefix_of` h' → Q h' r) → tool p Q h.
Proof.
  intros Hp HQ. eapply wp_mono; [eapply (wp_never is_execute); [by intros h' []|done]|]. auto.
Qed.

Lemma tool_execute c (Q : history → res ActionOperationResult → Prop) h :
  approved = true → _continuation_metadata metadata = Some c → cn_tool_name c = tool_name →
  cn_action_type c = action_type → permitted d (cn_proposal_reference c) (trusted_reader trusted) h →
  (∀ h' r, h `prefix_of` h' → Q h' r) →
  tool (execute runtime d (ac_tenant_reference trusted) (cn_proposal_reference c)) Q h.
Proof.
  intros Ha Hc Hn Ht Hp HQ. eapply wp_mono; [|intros h' r Hpre _; by apply HQ].
  assert (wp (guarantee d) rely (execute runtime d (ac_tenant_reference trusted) (cn_proposal_reference c))
    (λ _ _, True) []) as H1 by (apply safe_execute; apply quiet_nil).
  assert (H2 := execute_keyed runtime d (ac_tenant_reference trusted) (cn_proposal_reference c) []).
  assert (H3 := wp_conj _ _ _ _ _ _ _ H1 (wp_weaken _ _ _ rely _ _ _ H2 ltac:(done) ltac:(done))).
  assert (H4 := wp_after _ rely _ _ h [] ltac:(done) H3). rewrite app_nil_r in H4.
  eapply wp_mono; [eapply wp_weaken; [exact H4| |done]|done].
  intros h' o (h1 & -> & Hg & Hk). destruct o; try done. destruct Hk as [Hk1 Hk2], Hg as [-> Hg].
  split; [done|]. by exists c, h, h1.
Qed.

Lemma tool_continue c h :
  approved = true → _continuation_metadata metadata = Some c → cn_tool_name c = tool_name →
  cn_action_type c = action_type →
  tool (continue_action (fixed_operations runtime d) trusted c)
    (λ h r, ∀ a, r = Ok a → discloses trusted d h (inl (_tool_result a))) h.
Proof.
  intros Ha Hc Hn Ht. unfold continue_action. cbv zeta. cbn [op_read op_execute op_reconcile fixed_operations].
  apply wp_bind, tool_read; [|done]. intros h1 v1 _ Hp1.
  apply wp_bind, tool_execute; [done..|]. intros h2 [executed|e] Hpre2; [|done].
  apply wp_bind. set (K := λ (h' : history) (r : res ActionOperationResult), _).
  assert (∀ h' r, K h' r) as HK.
  { intros h' [result|e]; unfold K; [|done].
    apply wp_bind, tool_read; [|done]. intros h3 v3 _ Hp3.
    destruct (ar_fresh_proposal_reference result) as [fresh|] eqn:Hf.
    - apply wp_bind, tool_read; [|done]. intros h4 v4 Hpre4 Hp4 a [= <-]. right. simpl. rewrite Hf.
      split; [eexists; split; [done|]; by eapply permitted_grows|]. by intros p [= <-].
    - intros a [= <-]. right. simpl. rewrite Hf. split; [by eexists|done]. }
  clearbody K. destruct (_ || _); [|by apply HK]. apply tool_quiet; [auto with never|]. intros h' r _. apply HK.
Qed.

Lemma tool_prepare command h :
  tool (prepare_action (fixed_operations runtime d) trusted action_type tool_name command)
    (λ h r, ∀ a, r = Ok a → discloses trusted d h a) h.
Proof.
  unfold prepare_action. cbn [op_read op_prepare fixed_operations].
  apply wp_bind, wp_attempt, tool_quiet; [auto with never|].
  intros h1 [prepared|e] _; [|destruct (is_AuthorizationDeniedError e); [|done]; intros a [= <-]; left; by eexists].
  apply wp_bind, wp_attempt, tool_read.
  - intros h2 v _ Hp a [= <-]. by split_and!.
  - intros h2 e _. cbv beta iota. destruct (is_ProposalNotFoundError e); [|done]. intros a [= <-]. left. by eexists.
Qed.

Lemma command_never m arguments : never is_execute (tool_command m arguments).
Proof. unfold tool_command, catch. solve_never. Qed.

Lemma tool_invoke arguments m h :
  tool (_invoke_action_tool approved metadata arguments m action_type (fixed_operations runtime d) trusted tool_name)
    (λ h r, ∀ a, r = Ok a → discloses trusted d h a) h.
Proof.
  unfold _invoke_action_tool. destruct approved eqn:Ha.
  - destruct (_continuation_metadata metadata) as [c|] eqn:Hc; [|intros a [= <-]; left; by eexists].
    case_bool_decide as Hn; [|intros a [= <-]; left; by eexists].
    case_bool_decide as Ht; [|intros a [= <-]; left; by eexists]. cbn [negb orb].
    apply wp_catch, wp_bind. eapply wp_mono; [by apply tool_continue|].
    intros h' [r|e] _ H; cbn [wp]; cbv beta.
    + intros a [= <-]. by apply H.
    + destruct (is_ProposalNotFoundError e); [|done]. intros a [= <-]. left. by eexists.
  - apply wp_bind, tool_quiet; [apply command_never|]. intros h' [[command|]|e] _; [|done..].
    apply tool_prepare.
Qed.

End Invoke.
End Gate.

(** * The tools *)

Section Tools.
Context `{U : Unicode, C : AgentCodec} (classes : gmap pystr ModelClass).

(** A tool that was built from a fixed or a scoped binding. *)
Inductive action_tool :=
  | FixedTool (b : ActionToolBinding) (runtime : ActionRuntime)
  | ScopedTool (E : Installation) (root : pystr) (b : ScopedActionToolBinding) (command_model : CommandModel).

Definition tool_prog (t : action_tool) (ctx : ToolCall) : prog tool_outcome :=
  match t with
  | FixedTool b runtime => governed_action_tool b runtime ctx
  | ScopedTool E root b command_model => scoped_action_tool classes E root b command_model ctx
  end.

Definition tool_name_of (t : action_tool) : pystr :=
  match t with FixedTool b _ => tb_name b | ScopedTool _ _ b _ => sb_name b end.

Definition tool_action (t : action_tool) : ActionType :=
  match t with
  | FixedTool b _ => ad_action_type (tb_definition b)
  | ScopedTool _ _ b _ => ra_action_type (sb_action b)
  end.

(** Where a call got its context and its definition from: the resolver of the
    binding, and the binding or, in a scope that was entered, the recipe of the
    registration. *)
Definition tool_grants (t : action_tool) (ctx : ToolCall) (trusted : ActionAgentContext)
  (d : ActionDefinition) (h : history) : Prop :=
  match t with
  | FixedTool b _ => d = tb_definition b ∧
      Event (Agent (ResolveContext (tb_context_resolver b) (tc_deps ctx))) (Ok trusted) ∈ h
  | ScopedTool _ _ b _ => ∃ dependencies specification recipe components,
      Event (Agent (EnterScope (sb_dependency_scope b) (tc_deps ctx))) (Ok dependencies) ∈ h ∧
      Event (Agent (ResolveContext (sb_context_resolver b) dependencies)) (Ok trusted) ∈ h ∧
      is_frozen (sb_application b) = true ∧
      _typed_registration (sb_application b) (sb_action b) = Ok (specification, recipe) ∧
      Event (Agent (BindRecipe recipe dependencies)) (Ok (Some components)) ∈ h ∧
      bound_definition specification components = Some d ∧
      ActionDefinition_post_init classes d = Ok d
  end.

Variables (t : action_tool) (ctx : ToolCall).

(** The gate of the tool, for what the call was granted. *)
Definition granted_gate (h : history) (o : op) : Prop :=
  is_execute o = true → ∃ trusted d, tool_grants t ctx trusted d h ∧
    tool_gate (tc_approved ctx) (tc_metadata ctx) (tool_name_of t) (tool_action t) trusted d h o.

(** What a call says in the end. *)
Definition granted_disclosure (h : history) (outcome : tool_outcome) : Prop :=
  match outcome with
  | ToolReturned r => (∃ failure, r = _safe_failure failure) ∨ ∃ trusted d,
      tool_grants t ctx trusted d h ∧ discloses (tool_name_of t) (tool_action t) trusted d h (inl r)
  | ApprovalRequired m => ∃ c trusted d, m = continuation_dump c ∧
      tool_grants t ctx trusted d h ∧ discloses (tool_name_of t) (tool_action t) trusted d h (inr c)
  end.

Abbreviation granted := (wp granted_gate rely).
Abbreviation said := (λ h (r : res tool_outcome), ∀ o, r = Ok o → granted_disclosure h o).

Lemma granted_quiet {A} (p : prog A) (Q : history → res A → Prop) h :
  never is_execute p → (∀ h' r, h `prefix_of` h' → Q h' r) → granted p Q h.
Proof.
  intros Hp HQ. eapply wp_mono; [eapply (wp_never is_execute); [|exact Hp]|].
  - intros h' o Ho Hx. congruence.
  - auto.
Qed.

Lemma granted_call o (Q : history → res (resp o) → Prop) h :
  is_execute o = false → (∀ r, Q (h ++ [Event o r]) r) → granted (call o) Q h.
Proof. intros Ho HQ. apply wp_call; [|auto]. intros Hx. congruence. Qed.

Lemma grants_grow trusted d h h' :
  h `prefix_of` h' → tool_grants t ctx trusted d h → tool_grants t ctx trusted d h'.
Proof.
  intros [l ->]. destruct t; simpl; [intros []; split; [done|]; apply elem_of_app; by left|].
  intros (deps & s & r & c & ? & ? & ? & ? & ? & ? & ?). exists deps, s, r, c.
  split_and!; try done; apply elem_of_app; by left.
Qed.

(** The invocation, once the context and the definition are granted. *)
Lemma granted_invoke trusted d runtime m action name h :
  action = tool_action t → name = tool_name_of t → tool_grants t ctx trusted d h →
  granted (_invoke_action_tool (tc_approved ctx) (tc_metadata ctx) (tc_arguments ctx) m action
             (fixed_operations runtime d) trusted name)
    (λ h' r, h `prefix_of` h' ∧ ∀ a, r = Ok a →
       tool_grants t ctx trusted d h' ∧ discloses (tool_name_of t) (tool_action t) trusted d h' a) h.
Proof.
  intros -> -> Hg. assert (H := tool_invoke (tc_approved ctx) (tc_metadata ctx) (tool_name_of t) (tool_action t)
    trusted runtime d (tc_arguments ctx) m h).
  assert (H2 := wp_prefix _ _ _ _ h h ltac:(reflexivity) H).
  eapply wp_mono; [eapply wp_weaken; [exact H2| |done]|].
  - intros h' o [Hp Ho] _. exists trusted, d. split; [by eapply grants_grow|done].
  - intros h' r _ [Hp Hr]. split; [done|]. intros a Ha. split; [by eapply grants_grow|by apply Hr].
Qed.

(** ** Fixed bindings *)

Lemma discloses_said trusted d h (a : ActionToolResult + ContinuationMetadata) :
  tool_grants t ctx trusted d h → discloses (tool_name_of t) (tool_action t) trusted d h a →
  granted_disclosure h (suspend a).
Proof. destruct a as [r|c]; intros Hg Hd; [right; by exists trusted, d|by exists c, trusted, d]. Qed.

Lemma report_never handler failure a n : never is_execute (_report_tool_failure handler failure a n).
Proof. unfold _report_tool_failure, catch. solve_never. Qed.

Lemma fixed_tool_granted b runtime h :
  t = FixedTool b runtime → granted (governed_action_tool b runtime ctx) said h.
Proof.
  intros Ht. unfold governed_action_tool. cbv zeta. apply wp_bind, wp_attempt, granted_call; [done|].
  intros [trusted|failure]; cbv beta iota.
  - assert (tool_grants t ctx trusted (tb_definition b)
      (h ++ [Event (Agent (ResolveContext (tb_context_resolver b) (tc_deps ctx))) (Ok trusted)])) as Hg.
    { rewrite Ht. split; [done|]. apply elem_of_app. right. by apply list_elem_of_singleton. }
    apply wp_bind. eapply wp_mono; [apply granted_invoke; [by rewrite Ht..|exact Hg]|].
    intros h' [a|e] _ [_ H]; cbn [wp]; cbv beta; [|done]. intros o [= <-].
    destruct (H a eq_refl). by eapply discloses_said.
  - destruct (is_Exception failure); [|done]. apply wp_bind, granted_quiet; [apply report_never|].
    intros h' [u|e] _; [|done]. intros o [= <-]. left. by eexists.
Qed.

(** ** Scoped bindings *)

Lemma exit_never entered scope failure : never is_execute (exit_stack scope entered failure).
Proof. unfold exit_stack. solve_never. Qed.

Lemma exit_after_never b entered failure : never is_execute (exit_after b entered failure).
Proof.
  unfold exit_after, catch, report. solve_never; [apply exit_never|apply report_never].
Qed.

Lemma binding_failed_said b entered failure h : granted (binding_failed b entered failure) said h.
Proof.
  unfold binding_failed. destruct (is_Exception failure); [|done].
  apply wp_bind, granted_quiet; [apply report_never|]. intros h1 [u1|e] _; [|done].
  apply wp_bind, granted_quiet; [apply exit_after_never|]. intros h2 [u2|e] _; [|done].
  intros o [= <-]. left. by eexists.
Qed.

Lemma enter_scope_granted E root b m dependencies h :
  t = ScopedTool E root b m →
  Event (Agent (EnterScope (sb_dependency_scope b) (tc_deps ctx))) (Ok dependencies) ∈ h →
  granted (enter_scope classes E root b dependencies)
    (λ h' r, ∀ trusted bound, r = Ok (trusted, bound) →
       ∃ d runtime, bound = mkBindingState (Some (d, runtime)) ∧ tool_grants t ctx trusted d h') h.
Proof.
  intros Hs Hin. unfold enter_scope. apply wp_bind, granted_call; [done|]. intros [trusted|e]; [|done].
  apply wp_bind. unfold bind_enter. destruct (is_frozen (sb_application b)) eqn:Hf; [|done]. cbn [negb].
  destruct (_typed_registration _ _) as [[specification recipe]|e] eqn:Ht; [|done]. apply wp_bind. cbn [lift wp].
  apply wp_bind, granted_call; [done|]. intros [[components|]|e]; [|done..].
  destruct (bound_definition specification components) as [d|] eqn:Hd; [|done].
  destruct (ActionDefinition_post_init classes d) as [d'|e] eqn:Hp; [|done].
  assert (d' = d) as -> by by eapply post_init_same. apply wp_bind. cbn [lift wp].
  destruct (action_runtime _ _ _ _) as [runtime|e]; [|done]. apply wp_bind. cbn [lift wp].
  intros ? ? [= <- <-]. exists d, runtime. split; [done|]. rewrite Hs. exists dependencies, specification, recipe, components.
  rewrite !elem_of_app, !list_elem_of_singleton. split_and!; auto.
Qed.

Lemma invoke_scoped_said E root b m trusted bound dependencies d runtime h :
  t = ScopedTool E root b m → bound = mkBindingState (Some (d, runtime)) → tool_grants t ctx trusted d h →
  granted (invoke_scoped b m ctx dependencies trusted bound) said h.
Proof.
  intros Hs -> Hg. unfold invoke_scoped. apply wp_bind, wp_attempt.
  eapply wp_mono; [apply (granted_invoke trusted d runtime m); [by rewrite Hs..|exact Hg]|].
  intros h1 [a|failure] _ [Hp H]; cbv beta iota.
  - apply wp_bind, wp_attempt, granted_quiet; [apply exit_never|]. intros h2 [u|e] Hp2; cbv beta iota.
    + intros o [= <-]. destruct (H a eq_refl) as [Hg1 Hd].
      assert (tool_grants t ctx trusted d h2) by by eapply grants_grow.
      apply discloses_said with trusted d; [done|]. destruct a as [r|c]; simpl in *.
      * destruct Hd as [?|[(p & ? & Hv) Hfresh]]; [by left|right]. split.
        -- exists p. split; [done|by eapply permitted_grows].
        -- intros q ?%Hfresh. by eapply permitted_grows.
      * destruct Hd as (? & ? & ?). split_and!; [by eapply permitted_grows|done..].
    + destruct (is_Exception e); [|done]. apply wp_bind, granted_quiet; [apply report_never|].
      intros h3 [u|e'] _; [|done]. intros o [= <-]. left. by eexists.
  - apply wp_bind, granted_quiet; [apply exit_after_never|]. by intros h2 [u|e] _.
Qed.

Lemma scoped_tool_granted E root b m h :
  t = ScopedTool E root b m → granted (scoped_action_tool classes E root b m ctx) said h.
Proof.
  intros Ht. unfold scoped_action_tool. apply wp_bind, wp_attempt, granted_call; [done|].
  intros [dependencies|failure]; cbv beta iota; [|apply binding_failed_said].
  apply wp_bind, wp_attempt. eapply wp_mono; [eapply enter_scope_granted; [exact Ht|]|].
  { apply elem_of_app. right. by apply list_elem_of_singleton. }
  intros h' [[trusted bound]|failure] _ H; cbv beta iota; [|apply binding_failed_said].
  destruct (H trusted bound eq_refl) as (d & runtime & -> & Hg). by eapply invoke_scoped_said.
Qed.

Lemma tool_granted h : granted (tool_prog t ctx) said h.
Proof. destruct t eqn:E; [by eapply fixed_tool_granted|by eapply scoped_tool_granted]. Qed.

(** ** What holds of every call *)

Lemma tool_runs es q :
  runs (tool_prog t ctx) es q → reads_well_formed es →
  wp granted_gate rely q said es ∧ ∀ n e, es !! n = Some e → granted_gate (take n es) (ev_op e).
Proof.
  intros Hr Hwf. destruct (wp_runs _ _ _ q es [] _ (tool_granted []) Hr) as [Hq HG].
  - unfold rely. intros es1 e' es2 -> r p c ->. apply (Hwf r p). apply elem_of_app. right. apply elem_of_cons. by left.
  - split; [done|]. intros n e Hn. apply (HG (take n es) e (drop (S n) es)). by rewrite take_drop_middle.
Qed.

(** C13: an agent cannot reach the executor by itself. Whatever arguments,
    approval and metadata the framework passes to a tool, and whatever the host
    answers, the executor is called only in a call the framework marked as
    approved, for the proposal of a continuation of this very tool and action
    type, in the tenant that the host's own context resolver gave, after that
    proposal was shown readable by the trusted consumer, and then only behind
    the whole gate of the runtime, for the definition of the binding: the fixed
    one, or the registered one, checked and bound in the scope of this call. *)
Theorem tools_execute_behind_gate (es : history) (q : prog tool_outcome) (n : nat) (executor : port)
  (snapshot : PyModel) (context : ExecutionContext) (pre : pystr) (r : res ExecutionResult)
  (Hruns : runs (tool_prog t ctx) es q) (Hreads : reads_well_formed es)
  (Hcall : es !! n = Some (Event (Execute executor snapshot context pre) r)) :
  ∃ trusted d, tool_grants t ctx trusted d (take n es) ∧
    tool_gate (tc_approved ctx) (tc_metadata ctx) (tool_name_of t) (tool_action t) trusted d (take n es)
      (Execute executor snapshot context pre).
Proof. destruct (tool_runs es q Hruns Hreads) as [_ H]. by apply (H n _ Hcall). Qed.

(** C14: what a tool call gives back to the agent, a result or the metadata of a
    suspension, names no proposal but ones whose reading the host permitted to
    the trusted consumer during this very call: the one acted on, its fresh
    replacement, or the one prepared. Every other result is one of the fixed
    failures, which say nothing of any proposal. *)
Theorem tools_name_only_readable (es : history) (o : tool_outcome)
  (Hruns : runs (tool_prog t ctx) es (Ret o)) (Hreads : reads_well_formed es) :
  granted_disclosure es o.
Proof. destruct (tool_runs es _ Hruns Hreads) as [H _]. by apply H. Qed.

End Tools.

(** * Dependency scopes *)

Definition is_scope (o : op) : bool :=
  match o with Agent (EnterScope _ _) | Agent (ExitScope _ _ _) => true | _ => false end.
Definition is_exit (o : op) : bool := match o with Agent (ExitScope _ _ _) => true | _ => false end.
Definition is_report (o : op) : bool := match o with Agent (ReportFailure _ _ _ _) => true | _ => false end.

(** A context resolver, a recipe or a failure handler that raises what is no
    [Exception]: a cancellation, an interrupt. *)
Definition escapes (e : event) : Prop :=
  match e with
  | Event (Agent (ResolveContext _ _)) (Err failure)
  | Event (Agent (BindRecipe _ _)) (Err failure)
  | Event (Agent (ReportFailure _ _ _ _)) (Err failure) => is_Exception failure = false
  | _ => False
  end.

Definition scope_events (h : history) : history := List.filter (λ e, is_scope (ev_op e)) h.

Lemma scope_events_app h h' : scope_events (h ++ h') = scope_events h ++ scope_events h'.
Proof. apply List.filter_app. Qed.

Lemma never_sub {A} (f g : op → bool) (p : prog A) : (∀ o, g o = false → f o = false) → never g p → never f p.
Proof.
  intros H. induction p as [a|e|o k IH]; [done..|]. intros [Ho Hk]. split; [by apply H|]. intros r. by apply IH.
Qed.

(** The operations of a binding are those of the runtime, or fail at once. *)
Lemma bound_prepare_agentless `{U : Unicode} state t c a g :
  never is_agent (@op_prepare (bound_operations state) t c a g).
Proof. apply never_bind; [apply never_lift|intros [d r]; cbn [fst snd]; auto with never]. Qed.
Lemma bound_execute_agentless `{U : Unicode} state t p : never is_agent (@op_execute (bound_operations state) t p).
Proof. apply never_bind; [apply never_lift|intros [d r]; cbn [fst snd]; apply execute_agentless]. Qed.
Lemma bound_reconcile_agentless `{U : Unicode} state t p :
  never is_agent (@op_reconcile (bound_operations state) t p).
Proof. apply never_bind; [apply never_lift|intros [d r]; cbn [fst snd]; auto with never]. Qed.
Lemma bound_read_agentless `{U : Unicode} state p x : never is_agent (@op_read (bound_operations state) p x).
Proof. apply never_bind; [apply never_lift|intros [d r]; cbn [fst snd]; auto with never]. Qed.
#[local] Hint Resolve bound_prepare_agentless bound_execute_agentless bound_reconcile_agentless
  bound_read_agentless : never.

Lemma invoke_agentless `{U : Unicode, C : AgentCodec} approved metadata arguments m action state trusted name :
  never is_agent (_invoke_action_tool approved metadata arguments m action (bound_operations state) trusted name).
Proof.
  unfold _invoke_action_tool, catch, continue_action, prepare_action, tool_command. solve_never.
  unfold catch. solve_never.
Qed.

Lemma scope_events_quiet h o r : is_scope o = false → scope_events (h ++ [Event o r]) = scope_events h.
Proof. intros Ho. rewrite scope_events_app. unfold scope_events at 2. simpl. rewrite Ho. apply app_nil_r. Qed.

(** * Pure parts raise only [Exception]s *)

Definition ordinary {A} (r : res A) : Prop := ∀ e, r = Err e → is_Exception e = true.

Lemma ordinary_ok {A} (a : A) : ordinary (Ok a).
Proof. by intros e. Qed.
Lemma ordinary_fail {A} k : is_Exception (raised k) = true → ordinary (@fail A k).
Proof. by intros H e [= <-]. Qed.
Lemma ordinary_bind {A B} (r : res A) (f : A → res B) : ordinary r → (∀ a, ordinary (f a)) → ordinary (r ≫= f).
Proof. intros Hr Hf. destruct r as [a|e]; [apply Hf|]. intros e' [= <-]. by apply Hr. Qed.

Create HintDb ordinary discriminated.
Ltac solve_ordinary :=
  repeat match goal with
  | |- ordinary (mbind _ _) => apply ordinary_bind; [|intros]
  | |- ordinary (Ok _) => apply ordinary_ok
  | |- ordinary (fail _) => by apply ordinary_fail
  | |- ordinary (let '(_, _) := ?x in _) => destruct x
  | |- ordinary (let x := _ in _) => cbv zeta
  | |- ordinary (if ?b then _ else _) => destruct b
  | |- ordinary (match ?x with _ => _ end) => destruct x
  | |- ordinary _ => solve [auto with ordinary]
  end.

Lemma ordinary_to_bytes_big n z : ordinary (to_bytes_big n z).
Proof. unfold to_bytes_big. solve_ordinary. Qed.
Lemma ordinary_utf8 l : ordinary (utf8 l).
Proof. induction l as [|c l IH]; [by intros e|]. cbn [utf8]. unfold utf8_char. solve_ordinary. Qed.
#[local] Hint Resolve ordinary_to_bytes_big ordinary_utf8 : ordinary.
Lemma ordinary_digest_input files : ordinary (digest_input files).
Proof.
  induction files as [|e files IH]; [by intros e|]. cbn [digest_input]. unfold digest_entry. solve_ordinary.
Qed.
Lemma ordinary_validate v : ordinary (validate_runtime_revision v).
Proof. unfold validate_runtime_revision. solve_ordinary. Qed.
#[local] Hint Resolve ordinary_digest_input ordinary_validate : ordinary.
Lemma ordinary_revision E root v : ordinary (runtime_revision_of E root v).
Proof.
  unfold runtime_revision_of, _resolve_runtime_revision_at, released_version, _installed_distribution_is_editable,
    _package_tree_digest. solve_ordinary.
Qed.
Lemma ordinary_reference `{U : Unicode} v : ordinary (SafeReference v).
Proof. unfold SafeReference. solve_ordinary. Qed.
Lemma ordinary_boundary classes c p d r : ordinary (assert_boundary_models_conform classes c p d r).
Proof. unfold assert_boundary_models_conform. solve_ordinary. Qed.
#[local] Hint Resolve ordinary_revision ordinary_reference ordinary_boundary : ordinary.
Lemma ordinary_post_init `{U : Unicode} classes d : ordinary (ActionDefinition_post_init classes d).
Proof. unfold ActionDefinition_post_init. solve_ordinary. Qed.
Lemma ordinary_runtime E root s v : ordinary (action_runtime E root s v).
Proof. unfold action_runtime. solve_ordinary. Qed.
Lemma ordinary_registration app action : ordinary (_typed_registration app action).
Proof. unfold _typed_registration. solve_ordinary. Qed.

Section Scopes.
Context `{U : Unicode, C : AgentCodec} (classes : gmap pystr ModelClass).
Variables (E : Installation) (root : pystr) (b : ScopedActionToolBinding) (m : CommandModel) (ctx : ToolCall).

Definition entering : op := Agent (EnterScope (sb_dependency_scope b) (tc_deps ctx)).
Definition leaving (dependencies : port) (failure : option exn) : op :=
  Agent (ExitScope (sb_dependency_scope b) dependencies failure).

(** Once the scope is left, failures may be reported and that is all. *)
Definition nothing_after_exit (h : history) (o : op) : Prop :=
  Exists (λ e, is_exit (ev_op e) = true) h → is_report o = true.

Definition open_with (dependencies : port) (h : history) : Prop :=
  scope_events h = [Event entering (Ok dependencies)].
Definition left_with (dependencies : port) (h : history) : Prop :=
  ∃ failure r, scope_events h = [Event entering (Ok dependencies); Event (leaving dependencies failure) r].

Definition scope_closed (h : history) : Prop :=
  (∃ failure, scope_events h = [Event entering (Err failure)]) ∨
  (∃ dependencies, left_with dependencies h) ∨
  (∃ dependencies, open_with dependencies h ∧ Exists escapes h).

Abbreviation scoped := (wp nothing_after_exit (λ _ _, True)).

Lemma exit_is_scope h : Exists (λ e, is_exit (ev_op e) = true) h →
  Exists (λ e, is_exit (ev_op e) = true) (scope_events h).
Proof.
  intros (e & He & Hx)%List.Exists_exists. apply List.Exists_exists. exists e. split; [|done].
  apply List.filter_In. split; [done|]. destruct e as [o r]. simpl in *. by destruct o as [| | | | | | | | | | | | | | | | | | | | | | | | | | | | | | | | |[]].
Qed.

Lemma open_no_exit dependencies h o : open_with dependencies h → nothing_after_exit h o.
Proof.
  intros Ho Hx%exit_is_scope. rewrite Ho in Hx. by apply List.Exists_cons in Hx as [|Hx%List.Exists_nil].
Qed.

(** What does not touch scopes runs while the scope is open. *)
Lemma scoped_quiet {A} (p : prog A) (Q : history → res A → Prop) dependencies h :
  never is_scope p → open_with dependencies h →
  (∀ h' r, h `prefix_of` h' → open_with dependencies h' → Q h' r) → scoped p Q h.
Proof.
  intros Hp Ho HQ. revert h Ho HQ. induction p as [a|e|o k IH]; intros h Ho HQ; [by apply HQ..|].
  destruct Hp as [Hq Hk]. split; [by eapply open_no_exit|]. intros r _. apply IH; [done| |].
  - unfold open_with. by rewrite scope_events_quiet.
  - intros h' x Hpre. apply HQ. etrans; [|exact Hpre]. by apply prefix_app_r.
Qed.

Lemma scoped_call (Q : history → res bool → Prop) dependencies failure h :
  open_with dependencies h →
  (∀ r, left_with dependencies (h ++ [Event (leaving dependencies failure) r]) →
    Q (h ++ [Event (leaving dependencies failure) r]) r) → scoped (call (leaving dependencies failure)) Q h.
Proof.
  intros Ho HQ. apply wp_call; [by eapply open_no_exit|]. intros r _. apply HQ.
  exists failure, r. by rewrite scope_events_app, Ho.
Qed.

Lemma invoke_scopeless approved metadata arguments action state trusted name :
  never is_scope (_invoke_action_tool approved metadata arguments m action (bound_operations state) trusted name).
Proof. eapply never_sub; [|apply invoke_agentless]. by intros []. Qed.

(** Reports after the scope is left change nothing, and may be the last thing. *)
Lemma scoped_report (handler : option port) failure action name (Q : history → res unit → Prop) h :
  (∀ h' r, h `prefix_of` h' → scope_events h' = scope_events h →
    (∀ e, r = Err e → Exists escapes h') → Q h' r) →
  scoped (_report_tool_failure handler failure action name) Q h.
Proof.
  intros HQ. unfold _report_tool_failure. destruct handler as [handler|]; [|by apply HQ].
  apply wp_catch, wp_call; [done|]. intros r _.
  assert (H : scope_events (h ++ [Event (Agent (ReportFailure handler failure action name)) r]) = scope_events h)
    by by apply scope_events_quiet.
  destruct r as [u|e]; [apply HQ; [by apply prefix_app_r|done|done]|].
  destruct (is_Exception e) eqn:He; cbn [wp]; (apply HQ; [by apply prefix_app_r|done|]); [done|].
  intros e' _. apply List.Exists_exists. eexists. split; [apply in_app_iff; right; by left|done].
Qed.

Lemma scoped_exit_after dependencies failure (Q : history → res unit → Prop) h :
  open_with dependencies h → (∀ h' r, h `prefix_of` h' → left_with dependencies h' → Q h' r) →
  scoped (exit_after b (Some dependencies) failure) Q h.
Proof.
  intros Ho HQ. unfold exit_after, exit_stack. apply wp_catch, wp_bind, scoped_call; [done|].
  intros r Hl. destruct r as [s|e]; cbn [wp]; [apply HQ; [by apply prefix_app_r|done]|].
  destruct (is_Exception e); [|apply HQ; [by apply prefix_app_r|done]].
  apply scoped_report. intros h' r Hp Hs _. apply HQ; [etrans; [|exact Hp]; by apply prefix_app_r|].
  unfold left_with. by rewrite Hs.
Qed.

Lemma scoped_failed dependencies failure h :
  open_with dependencies h → (is_Exception failure = false → Exists escapes h) →
  scoped (binding_failed b (Some dependencies) failure) (λ h _, scope_closed h) h.
Proof.
  intros Ho He. unfold binding_failed. destruct (is_Exception failure); cbn [wp].
  - apply wp_bind, scoped_report. intros h1 [u|e] Hp Hs Hx.
    + apply wp_bind, (scoped_exit_after dependencies); [unfold open_with; by rewrite Hs|].
      intros h2 [u2|e] _ Hl; right; left; by exists dependencies.
    + right; right. exists dependencies. split; [unfold open_with; by rewrite Hs|by eapply Hx].
  - right; right. exists dependencies. auto.
Qed.

Lemma scoped_agent o (Q : history → res (resp o) → Prop) dependencies h :
  is_scope o = false → open_with dependencies h →
  (∀ r, open_with dependencies (h ++ [Event o r]) → Q (h ++ [Event o r]) r) → scoped (call o) Q h.
Proof.
  intros Hs Ho HQ. apply wp_call; [by eapply open_no_exit|]. intros r _. apply HQ.
  unfold open_with. by rewrite scope_events_quiet.
Qed.

Lemma last_escapes h e : escapes e → Exists escapes (h ++ [e]).
Proof. intros He. apply List.Exists_exists. exists e. split; [apply in_app_iff; right; by left|done]. Qed.

(** What acquiring may end in: with the scope open, and in an escape if with
    what is no [Exception]. *)
Definition acquired {A} (dependencies : port) (h : history) (r : res A) : Prop :=
  open_with dependencies h ∧ ∀ e, r = Err e → is_Exception e = false → Exists escapes h.

Lemma acquired_ordinary {A} dependencies h (r : res A) : open_with dependencies h → ordinary r → acquired dependencies h r.
Proof. intros Ho Hr. split; [done|]. intros e He%Hr. congruence. Qed.

Lemma lift_acquired {A B} (r : res A) (f : A → prog B) dependencies h :
  open_with dependencies h → ordinary r → (∀ a, r = Ok a → scoped (f a) (acquired dependencies) h) →
  scoped (a ← lift r; f a) (acquired dependencies) h.
Proof.
  intros Ho Hr Hf. apply wp_bind, wp_lift. destruct r as [a|e]; [by apply Hf|].
  apply acquired_ordinary; [done|]. intros e' [= <-]. by apply Hr.
Qed.

Lemma scoped_bind app action dependencies h :
  open_with dependencies h →
  scoped (bind_enter classes E root app action dependencies) (acquired dependencies) h.
Proof.
  intros Ho. unfold bind_enter. destruct (negb _); [by apply acquired_ordinary; [|apply ordinary_fail]|].
  apply lift_acquired; [done|apply ordinary_registration|]. intros [specification recipe] _.
  apply wp_bind, (scoped_agent (Agent (BindRecipe recipe dependencies)) _ dependencies); [done..|].
  intros [[c|]|e] Ho1.
  - destruct (bound_definition specification c) as [d|]; [|by apply acquired_ordinary; [|apply ordinary_fail]].
    apply lift_acquired; [done|apply ordinary_post_init|]. intros d' _.
    apply lift_acquired; [done|apply ordinary_runtime|]. intros r _. by apply acquired_ordinary; [|apply ordinary_ok].
  - by apply acquired_ordinary; [|apply ordinary_fail].
  - split; [done|]. intros e' [= <-] He. by apply last_escapes.
Qed.

Lemma scoped_enter dependencies h :
  open_with dependencies h →
  scoped (enter_scope classes E root b dependencies) (acquired dependencies) h.
Proof.
  intros Ho. unfold enter_scope. apply wp_bind, (scoped_agent (Agent (ResolveContext (sb_context_resolver b) dependencies)) _ dependencies); [done..|].
  intros [trusted|e] Ho1.
  - apply wp_bind. eapply wp_mono; [by apply scoped_bind|]. intros h' [state|e] _ [Ho2 He]; split; try done.
    intros e' [= <-]. by apply He.
  - split; [done|]. intros e' [= <-] He. by apply last_escapes.
Qed.

Lemma scoped_invoke trusted bound dependencies h :
  open_with dependencies h →
  scoped (invoke_scoped b m ctx dependencies trusted bound) (λ h _, scope_closed h) h.
Proof.
  intros Ho. unfold invoke_scoped. apply wp_bind, wp_attempt.
  apply (scoped_quiet _ _ dependencies); [apply invoke_scopeless|done|].
  intros h1 [a|failure] _ Ho1; cbv beta iota.
  - apply wp_bind, wp_attempt. unfold exit_stack. apply wp_bind, scoped_call; [done|].
    intros [s|e] Hl; cbn [wp]; [right; left; by eexists|].
    destruct (is_Exception e); [|right; left; by eexists].
    apply wp_bind, scoped_report. intros h2 r _ Hs _.
    assert (left_with dependencies h2) by (unfold left_with; by rewrite Hs).
    destruct r; right; left; by eexists.
  - apply wp_bind, (scoped_exit_after dependencies); [done|]. intros h2 [u|e] _ Hl; right; left; by eexists.
Qed.

Lemma scoped_closed : scoped (scoped_action_tool classes E root b m ctx) (λ h _, scope_closed h) [].
Proof.
  unfold scoped_action_tool. apply wp_bind, wp_attempt, wp_call; [by intros ?%List.Exists_nil|].
  intros [dependencies|failure] _; cbv beta iota.
  - apply wp_bind, wp_attempt. eapply wp_mono; [by apply scoped_enter|].
    intros h [[trusted bound]|failure] _ [Ho He]; cbv beta iota; [by apply scoped_invoke|].
    apply scoped_failed; [done|]. by apply He.
  - assert (scoped (exit_after b None failure) (λ h _, h = [Event entering (Err failure)]) [Event entering (Err failure)]) as Hx
      by done.
    unfold binding_failed. destruct (is_Exception failure); [|left; by eexists].
    apply wp_bind, scoped_report. intros h [u|e] _ Hs _; [|left; by exists failure].
    left. by exists failure.
Qed.

(** A scoped tool leaves the dependency scope it enters. In every call that
    comes to its end, by a result, a suspension or an exception, the scope was
    either never entered, or entered once and left exactly once, after the last
    operation on the proposal, the store or the executor: only failures are
    reported after that. The one exception is an escape: a context resolver, a
    recipe or a failure handler that raises what is no [Exception], a
    cancellation or an interrupt, while the binding is acquired. *)
Theorem scopes_are_left (es : history) (r : res tool_outcome)
  (Hruns : runs (scoped_action_tool classes E root b m ctx) es (lift r)) :
  scope_closed es ∧
  ∀ (n : nat) (e : event), es !! n = Some e → nothing_after_exit (take n es) (ev_op e).
Proof.
  destruct (wp_runs _ _ _ _ es [] _ scoped_closed Hruns) as [Hq HG]; [done|]. split; [by destruct r|].
  intros n e Hn. apply (HG (take n es) e (drop (S n) es)). by rewrite take_drop_middle.
Qed.

End Scopes.
