(* ===== verification/AgentScenario.v ===== *)
(** An agent's tool call on the deployment of [Scenario]: the refund that was
    prepared and approved there is continued by a scoped tool of a frozen
    application, and the same tool reports a binding that fails. *)

From S2P Require Import Prelude Models Canonical Authority Receipts Registry Conformance StripeModels.
From S2P Require Import CustodyModels AgentModels StoreBase StoreContract MemoryStore Recovery Evidence Program.
From S2P Require Import Runtime Scenario RuntimeGuarantee RuntimeCalls RuntimeReads RuntimeSafety Attribution.
From S2P Require Import Authoring AgentTools AgentSafety.

(** Metadata as the framework keeps them between two calls. *)
#[local] Instance scenario_codec : AgentCodec := {|
  continuation_dump c :=
    JObj [("proposal_reference"%py, JStr (cn_proposal_reference c)); ("tool_name"%py, JStr (cn_tool_name c));
          ("namespace"%py, JStr (at_namespace (cn_action_type c))); ("name"%py, JStr (at_name (cn_action_type c)));
          ("version"%py, JInt (at_version (cn_action_type c))); ("display_preview"%py, JObj (cn_display_preview c))];
  continuation_validate v :=
    match v with
    | JObj [(_, JStr p); (_, JStr t); (_, JStr d); (_, JStr n); (_, JInt z); (_, JObj preview)] =>
        Some (mkContinuationMetadata p t (mkActionType d n z) preview)
    | _ => None
    end;
  float_repr _ := []
|}.

#[local] Definition boundary : ModelClass :=
  mkModelClass (mkModelConfig (Some "forbid"%py) (Some true) (Some true)) [("order"%py, AScalar)].
#[local] Definition classes : gmap pystr ModelClass :=
  list_to_map ((λ c, (c, boundary)) <$> ["Command"; "Snapshot"; "Preview"; "Result"]%py).

#[local] Definition specification : ActionSpec :=
  let d := sample_definition false in
  mkActionSpec sample_action "Command" "Snapshot" "Preview" "Result" (ad_proposal_ttl d) (ad_executor_identity d)
    (ad_target_identity d) (ad_authority_audience d) (ad_authority_channel_assurance d) (ad_verification_delay d)
    (ad_max_verification_attempts d) (ad_effect_kind d) (ad_allow_resend_after_final_absence d)
    (ad_verification_lease_duration d).

#[local] Definition components : ActionComponents :=
  mkActionComponents (Some 1%positive) (Some 2%positive) (Some 3%positive) (Some 4%positive) (Some 5%positive) (Some 6%positive)
    (Some (CommitmentProvider 7)) (Some (ProposalBoundProtectionCodec 8)) (Some 9%positive) (Some 11%positive) None
    (Some "threvo-actions/1.0.0"%py) (Some 10%positive).

#[local] Definition nowhere : Installation :=
  mkInstallation None DU_NONE (λ _, false) (λ _, false) (λ _, None) id (λ _, []) (λ _, []) (λ _, []) (λ _, PyStr []).

#[local] Definition registration : RegisteredAction * ActionApplication :=
  match app_register specification 20 (new_application 1) with
  | Ok r => r
  | Err _ => (mkRegisteredAction sample_action 0 1, new_application 1)
  end.
#[local] Definition application : ActionApplication := freeze registration.2.

#[local] Definition binding : ScopedActionToolBinding :=
  mkScopedActionToolBinding application registration.1 (CModel []) 21 22 "refund_order" "Refund an order." (Some 23%positive).
#[local] Definition refund_tool : action_tool :=
  ScopedTool nowhere "/package" binding (mkCommandModel "Command" (CModel [])).

#[local] Definition trusted : ActionAgentContext :=
  mkActionAgentContext "tenant" customer (mkEvidenceConsumer "agent:1") None.

(** The agent's host answers; the recipe answers [components] or as given. *)
#[local] Definition answers (recipe : res (option ActionComponents)) (o : op) (w : deployment)
  : res (resp o) * deployment :=
  match o return res (resp o) * deployment with
  | Agent (ResolveContext _ _) => (Ok trusted, w)
  | Agent (EnterScope _ dependencies) => (Ok dependencies, w)
  | Agent (ExitScope _ _ _) => (Ok false, w)
  | Agent (BindRecipe _ _) => (recipe, w)
  | Agent (ReportFailure _ _ _ _) => (Ok (), w)
  | o => handle usual o w
  end.

#[local] Definition continuation : ContinuationMetadata :=
  mkContinuationMetadata "order:7" "refund_order" sample_action [].
#[local] Definition approved_call : ToolCall := mkToolCall 30 true (continuation_dump continuation) [].
#[local] Definition call_tool (recipe : res (option ActionComponents)) : history * res tool_outcome * deployment :=
  run (answers recipe) (tool_prog classes refund_tool approved_call) authorized_world.

#[local] Definition continued := call_tool (Ok (Some components)).

#[local] Lemma continued_reads : reads_well_formed continued.1.1.
Proof.
  apply reads_well_formed_intro. set (l := omap _ _). vm_compute in l. subst l.
  repeat (constructor; [unfold Lifecycle.well_formed; simpl; live_concrete|]). constructor.
Qed.

(** The twentieth operation of the call is the one of the executor. *)
Lemma tools_execute_behind_gate_witness : ∃ executor snapshot context pre r,
  continued.1.1 !! 19 = Some (Event (Execute executor snapshot context pre) r) ∧
  ∃ trusted d, tool_grants classes refund_tool approved_call trusted d (take 19 continued.1.1) ∧
    tool_gate true (continuation_dump continuation) "refund_order" sample_action trusted d
      (take 19 continued.1.1) (Execute executor snapshot context pre).
Proof.
  do 5 eexists. split; [vm_compute; reflexivity|].
  eapply (tools_execute_behind_gate classes refund_tool approved_call continued.1.1).
  - apply run_runs.
  - exact continued_reads.
  - vm_compute; reflexivity.
Defined.

Lemma tools_name_only_readable_witness : ∃ o,
  continued.1.2 = Ok o ∧ granted_disclosure classes refund_tool approved_call continued.1.1 o.
Proof.
  eexists. split; [vm_compute; reflexivity|].
  apply (tools_name_only_readable classes refund_tool approved_call continued.1.1).
  - match goal with |- runs _ _ (Ret ?o) => assert (H : continued.1.2 = Ok o) by (vm_compute; reflexivity) end.
    assert (R := run_runs (answers (Ok (Some components))) (tool_prog classes refund_tool approved_call) authorized_world).
    unfold continued, call_tool in H |- *. destruct (run _ _ _) as [[es r] w]. simpl in *. subst r. exact R.
  - exact continued_reads.
Defined.

(** The recipe is interrupted: the scope stays open. *)
#[local] Definition interrupted := call_tool (fail CancelledError).
#[local] Definition unavailable := call_tool (Ok None).

Example scope_events_of_calls :
  length (scope_events continued.1.1) = 2 ∧ length (scope_events unavailable.1.1) = 2 ∧
  length (scope_events interrupted.1.1) = 1.
Proof. vm_compute. repeat split. Qed.

Lemma scopes_are_left_witness :
  unavailable.1.2 = Ok (ToolReturned (_safe_failure BINDING_UNAVAILABLE)) ∧
  scope_closed binding approved_call unavailable.1.1.
Proof.
  assert (H : unavailable.1.2 = Ok (ToolReturned (_safe_failure BINDING_UNAVAILABLE))) by (vm_compute; reflexivity).
  split; [exact H|].
  apply (scopes_are_left classes nowhere "/package" binding (mkCommandModel "Command" (CModel [])) approved_call
    unavailable.1.1 (Ok (ToolReturned (_safe_failure BINDING_UNAVAILABLE)))).
  assert (R := run_runs (answers (Ok None)) (tool_prog classes refund_tool approved_call) authorized_world).
  unfold unavailable, call_tool in H |- *. destruct (run _ _ _) as [[es r] w]. simpl in *. subst r. exact R.
Defined.

Lemma handles_bind_registrations_witness :
  _typed_registration application registration.1 = Ok (specification, 20%positive) ∧
  ∃ es state, runs (bind_enter classes nowhere "/package" application registration.1 30) es (Ret state) ∧
    ∃ components d runtime, es = [Event (Agent (BindRecipe 20 30)) (Ok (Some components))] ∧
      state = mkBindingState (Some (d, runtime)) ∧ ad_action_type d = sample_action.
Proof.
  assert (Hr : app_register specification 20 (new_application 1) = Ok registration) by (vm_compute; reflexivity).
  destruct (handles_bind_registrations classes 1 (new_application 1) registration.2 application specification 20
    registration.1) as (Ht & _ & Hb).
  - apply rtc_refl.
  - rewrite Hr. by destruct registration.
  - apply rtc_once. exact (step_freeze _).
  - split; [exact Ht|].
    set (p := bind_enter classes nowhere "/package" application registration.1 30).
    assert (R := run_runs (answers (Ok (Some components))) p authorized_world).
    destruct (run (answers (Ok (Some components))) p authorized_world) as [[es r] w] eqn:E.
    destruct r as [state|e].
    + exists es, state. split; [exact R|]. destruct (Hb _ _ _ _ _ R) as (_ & c & d & t & H1 & H2 & _ & H4 & _).
      exists c, d, t. split; [exact H1|]. split; [exact H2|]. rewrite H4. vm_compute. reflexivity.
    + vm_compute in E. discriminate E.
Defined.
