(* ===== verification/SqlText.v ===== *)
(** SQL as text: what [migrations.py] and [mysql_migrations.py] quote and render,
    and what a server reads of it.

    [quote] is the way PostgreSQL and MySQL quote literals and identifiers: the
    quotation mark before and after, and doubled inside.  [unquote] is the
    reader of the server; it gives the value and the rest of the text. *)

From S2P Require Import Prelude Models Canonical Registry StoreBase.

(** * Python's [str.replace], [str.join] and [str(int)] *)

(** Without overlaps, from the left; [skip] counts what is left of a match. *)
Fixpoint replace_points (old new : list N) (skip : nat) (l : list N) : list N :=
  match l with
  | [] => []
  | c :: l' =>
      match skip with
      | S skip => replace_points old new skip l'
      | O =>
          if bool_decide (take (length old) l = old) then new ++ replace_points old new (pred (length old)) l'
          else c :: replace_points old new 0 l'
      end
  end.

Definition replace (value old new : pystr) : pystr :=
  PyStr (replace_points (code_points old) (code_points new) 0 (code_points value)).

Fixpoint join (separator : pystr) (parts : list pystr) : pystr :=
  match parts with
  | [] => PyStr []
  | [p] => p
  | p :: parts' => p +:+ separator +:+ join separator parts'
  end%py.

Definition str_int (z : Z) : pystr := PyStr (dumps_int z).

Definition concat_str (parts : list pystr) : pystr := join (PyStr []) parts.

(** * Quoting *)

Definition quotation (q : N) (l : list N) : list N := flat_map (λ c, if (c =? q)%N then [q; q] else [c]) l.

Definition quote (q : N) (value : pystr) : pystr := PyStr (q :: quotation q (code_points value) ++ [q]).

Fixpoint read_quoted (q : N) (l : list N) : option (list N * list N) :=
  match l with
  | [] => None
  | c :: l' =>
      if (c =? q)%N then
        match l' with
        | c' :: l'' =>
            if (c' =? q)%N then '(v, rest) ← read_quoted q l''; Some (q :: v, rest) else Some ([], l')
        | [] => Some ([], [])
        end
      else '(v, rest) ← read_quoted q l'; Some (c :: v, rest)
  end.

Definition unquote (q : N) (text : pystr) : option (pystr * pystr) :=
  match code_points text with
  | c :: l => if (c =? q)%N then '(v, rest) ← read_quoted q l; Some (PyStr v, PyStr rest) else None
  | [] => None
  end.

Definition starts_with_mark (q : N) (text : pystr) : bool :=
  match code_points text with c :: _ => (c =? q)%N | [] => false end.

(** [value.replace(q, q + q)] is [quotation]. *)
Lemma replace_mark q l : replace_points [q] [q; q] 0 l = quotation q l.
Proof.
  unfold quotation. induction l as [|c l IH]; [done|]. simpl. rewrite take_0. case_bool_decide as Hd.
  - injection Hd as ->. by rewrite N.eqb_refl, IH.
  - destruct (N.eqb_spec c q) as [->|]; [done|]. by rewrite IH.
Qed.

Lemma read_quoted_quotation q l rest :
  (∀ r, rest ≠ q :: r) → read_quoted q (quotation q l ++ q :: rest) = Some (l, rest).
Proof.
  intros Hr. induction l as [|c l IH].
  - simpl. rewrite N.eqb_refl. destruct rest as [|c rest]; [done|].
    destruct (N.eqb_spec c q) as [->|]; [by edestruct Hr|done].
  - cbn [quotation flat_map]. destruct (N.eqb_spec c q) as [->|Hc]; cbn [app read_quoted].
    + rewrite !N.eqb_refl. fold (quotation q l). by rewrite IH.
    + rewrite (proj2 (N.eqb_neq c q)) by done. fold (quotation q l). by rewrite IH.
Qed.

(** Whatever the value, its quotation is read back as that value, and ends where
    the quotation ends. *)
Lemma unquote_quote q value rest :
  starts_with_mark q rest = false → unquote q (quote q value +:+ rest)%py = Some (value, rest).
Proof.
  intros Hr. unfold unquote, quote, pystr_app. cbn [code_points app]. rewrite N.eqb_refl.
  rewrite <-app_assoc. cbn [app]. rewrite read_quoted_quotation.
  - by destruct value, rest.
  - intros r E. unfold starts_with_mark in Hr. rewrite E, N.eqb_refl in Hr. done.
Qed.

(** ** What the code quotes *)

Definition apostrophe : N := 39.
Definition double_quote : N := 34.
Definition backtick : N := 96.

Definition NUL : N := 0.

Definition lower_or_digit_or_underscore (c : N) : bool := lower c || digit c || (c =? 95)%N.

(** [_SCHEMA_PATTERN.fullmatch]. *)
Definition schema_pattern (schema : pystr) : bool :=
  match code_points schema with
  | [] => false
  | c :: l => lower c && forallb lower_or_digit_or_underscore l && (length l <=? 62)%nat
  end.

Definition has_prefix (prefix s : pystr) : bool :=
  bool_decide (take (pystr_len prefix) (code_points s) = code_points prefix).

Definition quote_schema_name (schema : pystr) : res pystr :=
  if negb (schema_pattern schema) || has_prefix "pg_" schema || bool_decide (schema = "public"%py) then
    fail (ValueErrorLike "InvalidSchemaNameError")
  else Ok (PyStr (double_quote :: code_points schema ++ [double_quote])).

Definition _quote_postgres_role (role : pystr) : res pystr :=
  if bool_decide (role = PyStr []) || bool_decide (NUL ∈ code_points role) then
    fail (ValueErrorLike "PostgreSQL role must be 1 to 63 UTF-8 bytes without NUL")
  else
    encoded ← utf8 (code_points role);
    if (63 <? length (encoded : bytes))%nat then
      fail (ValueErrorLike "PostgreSQL role must be 1 to 63 UTF-8 bytes without NUL")
    else
      Ok (PyStr [double_quote] +:+ replace role (PyStr [double_quote]) (PyStr [double_quote; double_quote])
            +:+ PyStr [double_quote])%py.

Definition _quote_postgres_literal (value : pystr) : pystr :=
  (PyStr [apostrophe] +:+ replace value (PyStr [apostrophe]) (PyStr [apostrophe; apostrophe])
     +:+ PyStr [apostrophe])%py.

Definition _quote_mysql_identifier (value : pystr) : res pystr :=
  if bool_decide (value = PyStr []) || bool_decide (NUL ∈ code_points value) || (64 <? pystr_len value)%nat then
    fail (ValueErrorLike "MySQL identifier must be 1 to 64 characters without NUL")
  else
    Ok (PyStr [backtick] +:+ replace value (PyStr [backtick]) (PyStr [backtick; backtick])
          +:+ PyStr [backtick])%py.

Definition _quote_mysql_account_part (value : pystr) (maximum : nat) : res pystr :=
  if bool_decide (value = PyStr []) || bool_decide (NUL ∈ code_points value)
     || bool_decide (92%N ∈ code_points value) || (maximum <? pystr_len value)%nat then
    fail (ValueErrorLike "MySQL account part is invalid")
  else
    Ok (PyStr [apostrophe] +:+ replace value (PyStr [apostrophe]) (PyStr [apostrophe; apostrophe])
          +:+ PyStr [apostrophe])%py.

Lemma quoted_by_replace q value :
  (PyStr [q] +:+ replace value (PyStr [q]) (PyStr [q; q]) +:+ PyStr [q])%py = quote q value.
Proof. unfold quote, replace, pystr_app. simpl. by rewrite replace_mark. Qed.

(** A schema name needs no doubling. *)
Lemma schema_name_quoted schema quoted :
  quote_schema_name schema = Ok quoted → quoted = quote double_quote schema ∧ schema_pattern schema = true.
Proof.
  unfold quote_schema_name. destruct (schema_pattern schema) eqn:Hp; [|done]. split_if; [done|]. intros <-%Ok_inj.
  split; [|done]. unfold quote. do 3 f_equal. symmetry.
  assert (Forall (λ c, c ≠ double_quote) (code_points schema)) as Hf.
  { unfold schema_pattern in Hp. destruct (code_points schema) as [|c l]; [done|]. to_prop. constructor.
    - unfold lower in *. to_prop. intros ->. done.
    - apply List.Forall_forall. intros x Hx. eapply forallb_forall in Hx; [|eassumption].
      intros ->. by vm_compute in Hx. }
  unfold quotation. clear Hp. induction Hf as [|c l Hc _ IH]; [done|]. simpl.
  by rewrite (proj2 (N.eqb_neq c _) Hc), IH.
Qed.

(** * The lifecycle in the schema *)

Definition _postgres_lifecycle_edges : list (LifecycleStatus * LifecycleStatus) :=
  flat_map (λ source, (λ target, (source, target)) <$>
    List.filter (λ target, bool_decide (target ∈ ALLOWED_LIFECYCLE_TRANSITIONS source)) lifecycle_statuses)
    lifecycle_statuses.

Definition _postgres_lifecycle_transition_predicate : pystr :=
  join (PyStr (10%N :: replicate 8 32%N) +:+ "OR ")%py
    ((λ '(source, target), "(OLD.lifecycle_status = '" +:+ lifecycle_value source
        +:+ "' AND NEW.lifecycle_status = '" +:+ lifecycle_value target +:+ "')")%py
     <$> _postgres_lifecycle_edges).

Definition _SCHEMA_PLACEHOLDER : pystr := "__THREVO_ACTIONS_SCHEMA__".
Definition _TRANSITIONS_PLACEHOLDER : pystr := "__THREVO_ACTIONS_LIFECYCLE_TRANSITIONS__".
Definition _STATUSES_PLACEHOLDER : pystr := "__THREVO_ACTIONS_LIFECYCLE_STATUSES__".

Definition _render_migration_sql (sql quoted_schema : pystr) : pystr :=
  replace (replace (replace sql _SCHEMA_PLACEHOLDER quoted_schema)
             _TRANSITIONS_PLACEHOLDER _postgres_lifecycle_transition_predicate)
    _STATUSES_PLACEHOLDER
    (join ", " ((λ status, "'" +:+ lifecycle_value status +:+ "'")%py <$> lifecycle_statuses)).

(** ** What the server reads of the predicate

    A disjunction of [(OLD.lifecycle_status = literal AND NEW.lifecycle_status =
    literal)], evaluated for two statuses. *)

Fixpoint strip_prefix (prefix l : list N) : option (list N) :=
  match prefix, l with
  | [], _ => Some l
  | p :: prefix', c :: l' => if (p =? c)%N then strip_prefix prefix' l' else None
  | _ :: _, [] => None
  end.

Fixpoint skip_blanks (l : list N) : list N :=
  match l with c :: l' => if (c =? 32)%N || (c =? 10)%N then skip_blanks l' else l | [] => [] end.

Definition read_edge (l : list N) : option (pystr * pystr * list N) :=
  l ← strip_prefix (code_points "(OLD.lifecycle_status = ") l;
  '(source, l) ← unquote apostrophe (PyStr l);
  l ← strip_prefix (code_points " AND NEW.lifecycle_status = ") (code_points l);
  '(target, l) ← unquote apostrophe (PyStr l);
  l ← strip_prefix (code_points ")") (code_points l);
  Some (source, target, l).

(** [fuel] disjuncts at most; every one takes a character, so that the length of
    the text is fuel enough. *)
Fixpoint read_edges (fuel : nat) (l : list N) : option (list (pystr * pystr)) :=
  match fuel with
  | O => None
  | S fuel =>
      '(source, target, l) ← read_edge l;
      match skip_blanks l with
      | [] => Some [(source, target)]
      | l =>
          l ← strip_prefix (code_points "OR ") l;
          edges ← read_edges fuel l; Some ((source, target) :: edges)
      end
  end.

Definition predicate_holds (predicate : pystr) (old new : pystr) : option bool :=
  edges ← read_edges (pystr_len predicate) (code_points predicate);
  Some (existsb (λ '(source, target), bool_decide (source = old) && bool_decide (target = new)) edges).

(** The predicate of the schema is the table of the package, status by status. *)
Theorem lifecycle_predicate_exact (old new : LifecycleStatus) :
  predicate_holds _postgres_lifecycle_transition_predicate (lifecycle_value old) (lifecycle_value new) =
    Some (bool_decide (new ∈ ALLOWED_LIFECYCLE_TRANSITIONS old)).
Proof. destruct old, new; vm_compute; reflexivity. Qed.
