(* ===== verification/Migrations.v ===== *)
(** Schema migrations ([migration_compatibility.py], [migrations.py],
    [sqlite_migrations.py], [mysql_migrations.py] and the two
    [postgres_migrations.py] of the integrations): the packaged files, the ledger
    of a schema, and how the missing files are applied.

    A database is the ledger, which is [None] before its table exists, and
    everything else in the schema, of which the model knows only what statements
    do to it ([SqlServer], a parameter).  Migrations of one schema exclude each
    other: PostgreSQL and MySQL by an advisory lock and SQLite by its write lock,
    which every migration takes before it reads the ledger, so that an attempt is
    one step on the database; a lock that is not obtained in time is an argument
    ([contended]).  In PostgreSQL and SQLite the attempt is one transaction.  In
    MySQL a statement of a migration commits by itself, and any statement may
    fail. *)

From Stdlib Require Import Floats.SpecFloat.
From stdpp Require Import sorting.
From S2P Require Import Prelude Models Canonical Registry StoreBase Sessions SqlText.

(** * Compatibility *)

Inductive MigrationPhase := EXPAND | CONTRACT.

Record MigrationCompatibility := mkMigrationCompatibility {
  co_version : Z;
  co_filename : pystr;
  co_phase : MigrationPhase;
  co_compatible_with_previous_runtime : bool;
  co_requires_writer_quiescence : bool
}.

Definition migrations_requiring_writer_quiescence (compatibility : list MigrationCompatibility)
  (applied_versions pending_versions : list Z) : list MigrationCompatibility :=
  match applied_versions with
  | [] => []
  | _ => List.filter (λ m, bool_decide (co_version m ∈ pending_versions) && co_requires_writer_quiescence m)
           compatibility
  end.

Definition expand (version : Z) (filename : pystr) : MigrationCompatibility :=
  mkMigrationCompatibility version filename EXPAND true false.
Definition contract (version : Z) (filename : pystr) : MigrationCompatibility :=
  mkMigrationCompatibility version filename CONTRACT false true.

Definition postgres_migration_compatibility : list MigrationCompatibility :=
  [expand 1 "001_action_runtime.sql"; expand 2 "002_stale_no_effect.sql";
   contract 3 "003_generated_lifecycle_guard.sql"; contract 4 "004_active_lifecycle_guard.sql";
   contract 5 "005_operator_recovery.sql"].
Definition sqlite_migration_compatibility : list MigrationCompatibility :=
  [expand 1 "001_action_runtime.sql"; contract 2 "002_operator_recovery.sql"].
Definition mysql_migration_compatibility : list MigrationCompatibility :=
  [expand 1 "001_action_runtime.sql"; contract 2 "002_harden_database_boundaries.sql";
   contract 3 "003_operator_recovery.sql"; contract 4 "004_external_authority_attestation.sql"].

(** * Packaged migrations *)

Record Migration := mkMigration {
  mg_version : Z;
  mg_filename : pystr;
  mg_sql : pystr;
  mg_checksum : pystr
}.

(** The files of the package, and [hashlib.sha256(sql.encode()).hexdigest()]. *)
Class PackagedFiles := {
  packaged_text : pystr → pystr → pystr;
  sha256_text : pystr → pystr;
  sha256_length text : pystr_len (sha256_text text) = 64%nat
}.

Definition packaged `{PackagedFiles} (directory : pystr) (compatibility : list MigrationCompatibility)
  : list Migration :=
  (λ c, let sql := packaged_text directory (co_filename c) in
        mkMigration (co_version c) (co_filename c) sql (sha256_text sql)) <$> compatibility.

Definition _packaged_migrations `{PackagedFiles} : list Migration :=
  packaged "postgres" postgres_migration_compatibility.
Definition _packaged_sqlite_migrations `{PackagedFiles} : list Migration :=
  packaged "sqlite" sqlite_migration_compatibility.
Definition _packaged_mysql_migrations `{PackagedFiles} : list Migration :=
  packaged "mysql" mysql_migration_compatibility.

(** * The ledger *)

(** What a driver gives for a column. *)
Inductive cell := CellInt (z : Z) | CellStr (s : pystr) | CellOther.

Record Row := mkRow { row_version : cell; row_filename : cell; row_checksum : cell }.

Definition state_error {A} (message : pystr) : res A :=
  fail (OtherException ("MigrationStateError: " +:+ message)%py).

(** [{item.version: item for item in migrations}.get(version)]. *)
Definition known_by_version (migrations : list Migration) (version : Z) : option Migration :=
  find_last (λ m, (mg_version m =? version)%Z) migrations.

(** The loop of [_migration_status], which the three adapters have alike. *)
Fixpoint check_history (migrations : list Migration) (expected_version : Z) (rows : list Row) : res (list Z) :=
  match rows with
  | [] => Ok []
  | row :: rows' =>
      match row_version row, row_filename row, row_checksum row with
      | CellInt version, CellStr filename, CellStr checksum =>
          if negb (version =? expected_version)%Z then state_error "migration history has a gap"
          else
            match known_by_version migrations version with
            | None => state_error "schema is newer than this library"
            | Some known =>
                if negb (bool_decide (filename = mg_filename known))
                   || negb (bool_decide (checksum = mg_checksum known))
                then state_error "migration checksum does not match"
                else applied ← check_history migrations (expected_version + 1) rows'; Ok (version :: applied)
            end
      | _, _, _ => state_error "migration history is corrupt"
      end
  end.

Record MigrationStatus := mkMigrationStatus {
  applied_versions : list Z;
  pending_versions : list Z;
  connected_role_owns_proposals : option bool
}.

Definition _migration_status (rows : list Row) (migrations : list Migration) : res MigrationStatus :=
  applied ← check_history migrations 1 rows;
  Ok (mkMigrationStatus applied
        (List.filter (λ version, negb (bool_decide (version ∈ (applied : list Z)))) (mg_version <$> migrations)) None).

(** ** The table *)

Record LedgerRow := mkLedgerRow { lr_version : Z; lr_filename : pystr; lr_checksum : pystr }.

Record database (O : Type) := mkDatabase { db_ledger : option (list LedgerRow); db_objects : O }.
Arguments mkDatabase {O} _ _.
Arguments db_ledger {O} _.
Arguments db_objects {O} _.

Section Ledger.
Context {O : Type}.

Definition ledger_rows (db : database O) : list LedgerRow := default [] (db_ledger db).

(** [CREATE TABLE IF NOT EXISTS schema_migrations]. *)
Definition create_ledger : atomic (database O) unit := λ db,
  (Ok (), mkDatabase (Some (ledger_rows db)) (db_objects db)).

Definition version_le (a b : LedgerRow) : Prop := (lr_version a <= lr_version b)%Z.
#[global] Instance version_le_dec : RelDecision version_le.
Proof. intros a b. unfold version_le. apply _. Defined.

Definition row_of (r : LedgerRow) : Row :=
  mkRow (CellInt (lr_version r)) (CellStr (lr_filename r)) (CellStr (lr_checksum r)).

(** [SELECT version, filename, checksum ... ORDER BY version]; a missing table is
    an error. *)
Definition undefined_table : exn_kind := OtherException "UndefinedTableError".

Definition select_history : atomic (database O) (list Row) := λ db,
  match db_ledger db with
  | None => (fail undefined_table, db)
  | Some l => (Ok (row_of <$> merge_sort version_le l), db)
  end.

(** INSERT of a row, under the primary key and the checks of the table. *)
Definition insert_version (m : Migration) : atomic (database O) unit := λ db,
  if negb (0 <? mg_version m)%Z || negb (pystr_len (mg_checksum m) =? 64)%nat
     || existsb (λ r, (lr_version r =? mg_version m)%Z) (ledger_rows db)
  then (fail (OtherException "IntegrityError"), db)
  else
    (Ok (), mkDatabase (Some (ledger_rows db ++ [mkLedgerRow (mg_version m) (mg_filename m) (mg_checksum m)]))
              (db_objects db)).

(** What changes or reads the objects of the schema. *)
Definition on_objects {A} (f : O → res A * O) : atomic (database O) A := λ db,
  let '(r, o) := f (db_objects db) in (r, mkDatabase (db_ledger db) o).

(** The loop over the migrations, given how one is applied. *)
Fixpoint apply_pending (run_migration : Migration → atomic O unit) (pending : list Z) (migrations : list Migration)
  : atomic (database O) unit :=
  match migrations with
  | [] => mret ()
  | m :: migrations' =>
      _ ← (if bool_decide (mg_version m ∈ pending) then
             _ ← on_objects (run_migration m); insert_version m
           else mret ());
      apply_pending run_migration pending migrations'
  end.

End Ledger.

(** The refusal while writers may run. *)
Definition require_quiescence (compatibility : list MigrationCompatibility) (status : MigrationStatus)
  (writers_quiesced : bool) : res unit :=
  let required := migrations_requiring_writer_quiescence compatibility (applied_versions status)
                    (pending_versions status) in
  if negb (bool_decide (length required = 0)) && negb writers_quiesced then
    state_error ("migrations " +:+ join ", " (str_int ∘ co_version <$> required)
      +:+ " require stopped runtime and retention writers; "
      +:+ "retry with writers_quiesced=True after draining them")
  else Ok ().

(** What the adapters have alike inside their transaction. *)
Definition bring_up {O} (run_migration : Migration → atomic O unit) (migrations : list Migration)
  (compatibility : list MigrationCompatibility) (writers_quiesced : bool) : atomic (database O) unit :=
  _ ← create_ledger;
  rows ← select_history;
  status ← atomic_lift (_migration_status rows migrations);
  _ ← atomic_lift (require_quiescence compatibility status writers_quiesced);
  apply_pending run_migration (pending_versions status) migrations.

(** * Timeouts

    [timedelta.total_seconds()] is the quotient of two integers as a binary64
    number, correctly rounded for durations below [2 ^ 53] microseconds, some 285
    years; the multiplication rounds again. *)

Definition binary64 (z : Z) : spec_float := binary_normalize 53 1024 z 0 false.
Definition total_seconds (t : timedelta) : spec_float := SFdiv 53 1024 (binary64 t) (binary64 1000000).

(** [int(x)] and [ceil(x)] of a finite number. *)
Definition float_magnitude (m : positive) (e : Z) (up : bool) : Z :=
  if (0 <=? e)%Z then (Zpos m * 2 ^ e)%Z
  else if up then (- (- Zpos m / 2 ^ (- e)))%Z else (Zpos m / 2 ^ (- e))%Z.
Definition float_int (x : spec_float) : Z :=
  match x with
  | S754_finite false m e => float_magnitude m e false
  | S754_finite true m e => (- float_magnitude m e false)%Z
  | _ => 0%Z
  end.
Definition float_ceil (x : spec_float) : Z :=
  match x with
  | S754_finite false m e => float_magnitude m e true
  | S754_finite true m e => (- float_magnitude m e false)%Z
  | _ => 0%Z
  end.

Definition _timeout_milliseconds (lock_timeout : timedelta) : res Z :=
  let seconds := total_seconds lock_timeout in
  if SFleb seconds (binary64 0) then
    fail (ValueErrorLike "migration lock timeout must be finite and positive")
  else
    let milliseconds := float_int (SFmul 53 1024 seconds (binary64 1000)) in
    if (milliseconds <=? 0)%Z then
      fail (ValueErrorLike "migration lock timeout must be at least one millisecond")
    else Ok milliseconds.

Definition _lock_timeout_seconds (lock_timeout : timedelta) : res Z :=
  let seconds := total_seconds lock_timeout in
  if SFleb seconds (binary64 0) then
    fail (ValueErrorLike "migration lock timeout must be finite and positive")
  else Ok (Z.max 1 (float_ceil seconds)).

(** A millisecond is lost to rounding; half a second is a second for MySQL. *)
Example timeouts :
  _timeout_milliseconds (seconds 30) = Ok 30000%Z ∧ _timeout_milliseconds 1001000 = Ok 1000%Z ∧
  _lock_timeout_seconds 500000 = Ok 1%Z ∧ _lock_timeout_seconds (seconds 30) = Ok 30%Z ∧
  (∃ e, _timeout_milliseconds 999 = Err e) ∧ (∃ e, _lock_timeout_seconds 0 = Err e).
Proof. split_and!; try (vm_compute; reflexivity); eexists; vm_compute; reflexivity. Qed.

(** * Servers *)

Inductive owner_cell := OwnerNone | OwnerBool (b : bool) | OwnerOther.

(** What statements do to the objects of a schema. *)
Class SqlServer (O : Type) := {
  (* the statements of a text; when one fails, what was done before it may stay *)
  execute_sql : pystr → atomic O unit;
  (* [CREATE SCHEMA IF NOT EXISTS]: refused, or without effect on the objects *)
  create_schema_refused : pystr → O → option exn;
  (* [SELECT count] of the proposals in a retired state *)
  count_retired : pystr → O → res cell;
  (* the catalog query for the owner of the proposals *)
  proposals_owner : pystr → O → res owner_cell
}.

Section Migrate.
Context `{F : PackagedFiles} {O : Type} `{V : SqlServer O}.

Definition refuse_if (o : option exn) : res unit := match o with Some e => Err e | None => Ok () end.

Definition create_schema (quoted_schema : pystr) : atomic O unit := λ o,
  (refuse_if (create_schema_refused quoted_schema o), o).

(** ** PostgreSQL *)

Definition _assert_no_retired_lifecycle_states (quoted_schema : pystr) : atomic O unit := λ o,
  (count ← count_retired quoted_schema o;
   match (count : cell) with
   | CellInt n => if (0 <? n)%Z then state_error "PostgreSQL schema contains retired lifecycle states" else Ok ()
   | _ => state_error "PostgreSQL lifecycle state inspection failed"
   end, o).

Definition _connected_role_owns_proposals (schema : pystr) : atomic O (option bool) := λ o,
  (value ← proposals_owner schema o;
   match (value : owner_cell) with
   | OwnerNone => Ok None
   | OwnerBool b => Ok (Some b)
   | OwnerOther => state_error "PostgreSQL proposal ownership metadata is corrupt"
   end, o).

Definition run_postgres_migration (quoted_schema : pystr) (m : Migration) : atomic O unit :=
  _ ← (if bool_decide (mg_filename m = "004_active_lifecycle_guard.sql"%py) then
         _assert_no_retired_lifecycle_states quoted_schema
       else mret ());
  execute_sql (_render_migration_sql (mg_sql m) quoted_schema).

(** What the transaction of [migrate_postgres] holds, for a release that packages
    [migrations]. *)
Definition migrate_body (migrations : list Migration) (compatibility : list MigrationCompatibility)
  (schema quoted_schema : pystr) (contended writers_quiesced : bool) : atomic (database O) MigrationStatus :=
  _ ← atomic_lift (if contended then state_error "PostgreSQL migration lock timed out" else Ok ());
  _ ← on_objects (create_schema quoted_schema);
  _ ← bring_up (run_postgres_migration quoted_schema) migrations compatibility writers_quiesced;
  role_owns_proposals ← on_objects (_connected_role_owns_proposals schema);
  mret (mkMigrationStatus (mg_version <$> migrations) [] role_owns_proposals).

Definition migrate_release (migrations : list Migration) (compatibility : list MigrationCompatibility)
  (schema : pystr) (lock_timeout : timedelta) (contended writers_quiesced : bool)
  : atomic (database O) MigrationStatus :=
  _ ← atomic_lift (_timeout_milliseconds lock_timeout);
  quoted_schema ← atomic_lift (quote_schema_name schema);
  transaction (migrate_body migrations compatibility schema quoted_schema contended writers_quiesced).

Definition migrate_postgres : pystr → timedelta → bool → bool → atomic (database O) MigrationStatus :=
  migrate_release _packaged_migrations postgres_migration_compatibility.

(** [inspect_postgres]: two statements outside a transaction. *)
Definition inspect_postgres (schema : pystr) : session (database O) MigrationStatus :=
  match quote_schema_name schema with
  | Err e => Answer (Err e)
  | Ok _ =>
      Statement select_history (λ rows,
        match rows with
        | Err e =>
            if bool_decide (exn_class e = undefined_table) then
              Answer (Ok (mkMigrationStatus [] (mg_version <$> _packaged_migrations) None))
            else Answer (Err e)
        | Ok rows =>
            role_owns_proposals ← send (on_objects (_connected_role_owns_proposals schema));
            status ← session_lift (_migration_status rows _packaged_migrations);
            mret (mkMigrationStatus (applied_versions status) (pending_versions status) role_owns_proposals)
        end)
  end.

(** ** SQLite *)

(** [sql.splitlines(keepends=True)] of a text whose line breaks are newlines. *)
Fixpoint split_keepends (line l : list N) : list (list N) :=
  match l with
  | [] => match line with [] => [] | _ => [line] end
  | c :: l' => if (c =? 10)%N then (line ++ [c]) :: split_keepends [] l' else split_keepends (line ++ [c]) l'
  end.

(** [_split_sql_statements], for [sqlite3.complete_statement] and [str.strip]. *)
Fixpoint split_buffers (complete_statement : list N → bool) (buffer : list N) (lines : list (list N))
  : list (list N) * list N :=
  match lines with
  | [] => ([], buffer)
  | line :: lines' =>
      if complete_statement (buffer ++ line) then
        let '(statements, rest) := split_buffers complete_statement [] lines' in (((buffer ++ line) :: statements), rest)
      else split_buffers complete_statement (buffer ++ line) lines'
  end.

Definition blank `{Unicode} (l : list N) : bool := bool_decide (strip (PyStr l) = PyStr []).

Definition _split_sql_statements `{Unicode} (complete_statement : list N → bool) (sql : pystr) : res (list pystr) :=
  let '(buffers, rest) := split_buffers complete_statement [] (split_keepends [] (code_points sql)) in
  if blank rest then Ok ((λ b, strip (PyStr b)) <$> List.filter (λ b, negb (blank b)) buffers)
  else state_error "packaged SQLite migration is incomplete".

Fixpoint execute_all (statements : list pystr) : atomic O unit :=
  match statements with
  | [] => mret ()
  | s :: statements' => _ ← execute_sql s; execute_all statements'
  end.

Definition run_sqlite_migration `{Unicode} (complete_statement : list N → bool) (m : Migration) : atomic O unit :=
  statements ← atomic_lift (_split_sql_statements complete_statement (mg_sql m));
  execute_all statements.

Definition migrate_sync_release `{Unicode} (complete_statement : list N → bool) (migrations : list Migration)
  (compatibility : list MigrationCompatibility) (contended writers_quiesced : bool)
  : atomic (database O) MigrationStatus :=
  transaction (
    _ ← atomic_lift (if contended then fail (OtherException "OperationalError") else Ok ());
    _ ← bring_up (run_sqlite_migration complete_statement) migrations compatibility writers_quiesced;
    mret (mkMigrationStatus (mg_version <$> migrations) [] None)).

Definition migrate_sqlite `{Unicode} (complete_statement : list N → bool) (lock_timeout : timedelta)
  (contended writers_quiesced : bool) : atomic (database O) MigrationStatus :=
  _ ← atomic_lift (_timeout_milliseconds lock_timeout);
  migrate_sync_release complete_statement _packaged_sqlite_migrations sqlite_migration_compatibility contended
    writers_quiesced.

Definition inspect_sqlite : atomic (database O) MigrationStatus := λ db,
  match db_ledger db with
  | None => (Ok (mkMigrationStatus [] (mg_version <$> _packaged_sqlite_migrations) None), db)
  | Some _ => (rows ← select_history; atomic_lift (_migration_status rows _packaged_sqlite_migrations)) db
  end.

(** ** The stores of the integrations: one file each *)

Definition approval_postgres_migration : Migration :=
  let sql := packaged_text "approval_postgres" "001_approval_requests.sql" in
  mkMigration 1 "001_approval_requests.sql" sql (sha256_text sql).
Definition stripe_postgres_migration : Migration :=
  let sql := packaged_text "stripe_postgres" "001_host_ledger.sql" in
  mkMigration 1 "001_host_ledger.sql" sql (sha256_text sql).

Definition cell_is_version (c : cell) (version : Z) : bool :=
  match c with CellInt z => (z =? version)%Z | _ => false end.
Definition cell_is_text (c : cell) (s : pystr) : bool :=
  match c with CellStr t => bool_decide (t = s) | _ => false end.

Definition install_single (placeholder quoted_schema : pystr) (migration : Migration) : atomic (database O) unit :=
  _ ← on_objects (execute_sql (replace (mg_sql migration) placeholder quoted_schema)); insert_version migration.

Definition same_file (migration : Migration) (row : Row) : bool :=
  cell_is_text (row_filename row) (mg_filename migration) && cell_is_text (row_checksum row) (mg_checksum migration).

Definition migrate_approval_postgres (schema : pystr) : atomic (database O) Migration :=
  quoted_schema ← atomic_lift (quote_schema_name schema);
  let migration := approval_postgres_migration in
  transaction (
    _ ← on_objects (create_schema quoted_schema);
    _ ← create_ledger;
    rows ← select_history;
    _ ← (if existsb (λ row, negb (cell_is_version (row_version row) (mg_version migration))) rows then
           atomic_lift (state_error "approval PostgreSQL migration history contains an unsupported version")
         else
           match (rows : list Row) with
           | row :: _ =>
               atomic_lift (if same_file migration row then Ok ()
                            else state_error "approval PostgreSQL migration history is inconsistent")
           | [] => install_single "__THREVO_APPROVAL_SCHEMA__" quoted_schema migration
           end);
    mret migration).

Definition migrate_stripe_postgres (schema : pystr) : atomic (database O) Migration :=
  quoted_schema ← atomic_lift (quote_schema_name schema);
  let migration := stripe_postgres_migration in
  transaction (
    _ ← on_objects (create_schema quoted_schema);
    _ ← create_ledger;
    rows ← select_history;
    _ ← match List.find (λ row, cell_is_version (row_version row) 1) rows with
        | Some row =>
            atomic_lift (if same_file migration row then Ok ()
                         else state_error "Stripe PostgreSQL migration history is inconsistent")
        | None => install_single "__THREVO_STRIPE_SCHEMA__" quoted_schema migration
        end;
    mret migration).

End Migrate.

(** ** MySQL *)

(** [sql.split(separator)]; [skip] counts what is left of a separator. *)
Fixpoint split_points (separator : list N) (skip : nat) (part l : list N) : list (list N) :=
  match l with
  | [] => [part]
  | c :: l' =>
      match skip with
      | S skip => split_points separator skip part l'
      | O =>
          if bool_decide (take (length separator) l = separator) then
            part :: split_points separator (pred (length separator)) [] l'
          else split_points separator 0 (part ++ [c]) l'
      end
  end.

Definition _STATEMENT_SEPARATOR : pystr := "-- threvo-actions:next".

Definition contains (needle : list N) (l : list N) : bool :=
  bool_decide (1 < length (split_points needle 0 [] l)).

Definition _statements `{Unicode} (sql : pystr) : res (list pystr) :=
  let statements := List.filter (λ p, negb (bool_decide (p = PyStr [])))
    ((λ part, strip (PyStr part)) <$> split_points (code_points _STATEMENT_SEPARATOR) 0 [] (code_points sql)) in
  if bool_decide (statements = [])
     || existsb (λ s, contains (code_points _STATEMENT_SEPARATOR) (code_points s)) statements
  then state_error "packaged MySQL migration is incomplete"
  else Ok statements.

(** The leading number of a text, and the rest. *)
Fixpoint read_number (acc : option Z) (l : list N) : option (Z * list N) :=
  match l with
  | c :: l' =>
      if digit c then read_number (Some (10 * default 0 acc + (Z.of_N c - 48))%Z) l'
      else (λ z, (z, l)) <$> acc
  | [] => (λ z, (z, [])) <$> acc
  end.

Definition dot (l : list N) : option (list N) :=
  match l with c :: l' => if (c =? 46)%N then Some l' else None | [] => None end.

Definition _version_tuple (version : pystr) : res (Z * Z * Z) :=
  match ('(major, l) ← read_number None (code_points version); l ← dot l;
         '(minor, l) ← read_number None l; l ← dot l;
         '(patch, _) ← read_number None l; Some (major, minor, patch)) with
  | Some t => Ok t
  | None => state_error "MySQL server returned an unrecognized version"
  end.

Definition before_supported (v : Z * Z * Z) : bool :=
  let '(major, minor, patch) := v in
  (major <? 8)%Z || ((major =? 8)%Z && ((minor <? 0)%Z || ((minor =? 0)%Z && (patch <? 16)%Z))).

Definition lower_point (c : N) : N := if upper c then (c + 32)%N else c.

Definition _validate_server (version : cell) : res pystr :=
  match version with
  | CellStr version =>
      if contains (code_points "mariadb") (lower_point <$> code_points version) then
        state_error "MySQL 8.0.16 or newer is required; MariaDB is unsupported"
      else
        t ← _version_tuple version;
        if before_supported t then state_error "MySQL 8.0.16 or newer is required; MariaDB is unsupported"
        else Ok version
  | _ => state_error "MySQL server returned an invalid version"
  end.

(** How a statement ends: it works; it fails before it does anything; its effect
    stays and the answer is lost. *)
Inductive fault := Works | Fails (e : exn) | Lost (e : exn).

Section MySQL.
Context `{U : Unicode, F : PackagedFiles} {O : Type} `{V : SqlServer O}.
Context (server_version : O → cell) (assert_current_schema : O → res unit).

(** A connection: the database, and what will become of its next statements. *)
Record connection := mkConnection { cn_database : database O; cn_faults : list fault }.

Definition statement {A} (m : atomic (database O) A) : atomic connection A := λ c,
  let '(f, faults) := match cn_faults c with [] => (Works, []) | f :: fs => (f, fs) end in
  match f with
  | Fails e => (Err e, mkConnection (cn_database c) faults)
  | Lost e => (Err e, mkConnection (m (cn_database c)).2 faults)
  | Works => let '(r, db) := m (cn_database c) in (r, mkConnection db faults)
  end.

Definition _server_version : atomic connection pystr :=
  value ← statement (on_objects (λ o, (Ok (server_version o), o)));
  atomic_lift (_validate_server value).

(** [_history]: no rows while there is no table. *)
Definition _history : atomic connection (list Row) :=
  exists_ ← statement (λ db, (Ok (bool_decide (is_Some (db_ledger db))), db));
  if (exists_ : bool) then statement select_history else mret [].

Fixpoint execute_each (statements : list pystr) : atomic connection unit :=
  match statements with
  | [] => mret ()
  | s :: statements' => _ ← statement (on_objects (execute_sql s)); execute_each statements'
  end.

(** One migration: its statements, each of which commits, then the row, which is
    durable when it is committed. *)
Definition run_mysql_migration (m : Migration) : atomic connection unit :=
  statements ← atomic_lift (_statements (mg_sql m));
  _ ← execute_each statements;
  statement (insert_version m).

Fixpoint apply_mysql (pending : list Z) (migrations : list Migration) : atomic connection unit :=
  match migrations with
  | [] => mret ()
  | m :: migrations' =>
      _ ← (if bool_decide (mg_version m ∈ pending) then run_mysql_migration m else mret ());
      apply_mysql pending migrations'
  end.

(** What runs under the lock; [finally] only releases it. *)
Definition mysql_body (migrations : list Migration) (compatibility : list MigrationCompatibility)
  (writers_quiesced : bool) : atomic connection MigrationStatus :=
  _ ← statement create_ledger;
  rows ← _history;
  status ← atomic_lift (_migration_status rows migrations);
  _ ← atomic_lift (require_quiescence compatibility status writers_quiesced);
  _ ← apply_mysql (pending_versions status) migrations;
  rows ← _history;
  final_status ← atomic_lift (_migration_status rows migrations);
  _ ← (if bool_decide (pending_versions final_status = []) then mret ()
       else atomic_lift (state_error "MySQL migrations remain pending after migration"));
  _ ← statement (on_objects (λ o, (assert_current_schema o, o)));
  mret final_status.

Definition migrate_mysql_release (migrations : list Migration) (compatibility : list MigrationCompatibility)
  (lock_timeout : timedelta) (contended writers_quiesced : bool) : atomic connection MigrationStatus :=
  _ ← atomic_lift (_lock_timeout_seconds lock_timeout);
  _ ← _server_version;
  _ ← atomic_lift (if contended then state_error "timed out acquiring the MySQL migration lock" else Ok ());
  mysql_body migrations compatibility writers_quiesced.

Definition migrate_mysql : timedelta → bool → bool → atomic connection MigrationStatus :=
  migrate_mysql_release _packaged_mysql_migrations mysql_migration_compatibility.

Definition inspect_mysql : atomic connection MigrationStatus :=
  _ ← _server_version;
  rows ← _history;
  status ← atomic_lift (_migration_status rows _packaged_mysql_migrations);
  _ ← (if bool_decide (pending_versions status = []) then
         statement (on_objects (λ o, (assert_current_schema o, o)))
       else mret ());
  mret status.

End MySQL.
