(* ===== verification/MigrationSafety.v ===== *)
(** What migrating does to a schema, for any sequence of releases of the package
    whose migrations extend each other: the ledger is always a prefix of the
    migrations, and the objects are what these migrations, run once each and in
    order, make of the objects there were.  In MySQL, where an attempt may stop in
    the middle of a migration, the ledger names the migrations that were run to
    their end. *)

From stdpp Require Import sorting list_numbers.
From S2P Require Import Prelude Models Canonical Registry StoreBase Sessions SqlText Migrations.

#[local] Coercion Z.of_nat : nat >-> Z.

(** * Histories *)

Definition ledger_row (m : Migration) : LedgerRow := mkLedgerRow (mg_version m) (mg_filename m) (mg_checksum m).

(** Versions from one on, and checksums of the length of SHA-256. *)
Record numbered (migrations : list Migration) : Prop := {
  numbered_versions : mg_version <$> migrations = seqZ 1 (length migrations);
  numbered_checksums : Forall (λ m, pystr_len (mg_checksum m) = 64) migrations
}.

Lemma numbered_lookup all i m : numbered all → all !! i = Some m → mg_version m = (1 + Z.of_nat i)%Z.
Proof.
  intros [Hv _] Hi. assert ((mg_version <$> all) !! i = Some (mg_version m)) as H by by rewrite list_lookup_fmap, Hi.
  rewrite Hv in H. by apply lookup_seqZ in H as [-> _].
Qed.

Lemma numbered_take all k : numbered all → numbered (take k all).
Proof.
  intros [Hv Hc]. split; [|by apply Forall_take].
  rewrite fmap_take, Hv, length_take. apply list_eq. intros i.
  destruct (decide (i < k)) as [Hi|Hi].
  - rewrite lookup_take_lt by done. destruct (decide (i < length all)).
    + rewrite !lookup_seqZ_lt by lia. done.
    + rewrite !lookup_seqZ_ge by lia. done.
  - rewrite lookup_take_ge by lia. symmetry. apply lookup_seqZ_ge. lia.
Qed.

Lemma numbered_known all i : numbered all → known_by_version all (1 + Z.of_nat i) = all !! i.
Proof.
  intros Hn. unfold known_by_version. destruct (find_last _ all) as [m|] eqn:E.
  - apply find_last_Some in E as [Hm Hv]. apply Z.eqb_eq in Hv. apply list_elem_of_lookup in Hm as [j Hj].
    assert (Hj' := numbered_lookup _ _ _ Hn Hj). assert (j = i) as -> by lia. done.
  - destruct (all !! i) as [m|] eqn:Hi; [|done].
    assert (Hf := find_last_None _ _ E m (list_elem_of_lookup_2 _ _ _ Hi)). cbv beta in Hf.
    by rewrite (numbered_lookup _ _ _ Hn Hi), Z.eqb_refl in Hf.
Qed.

Lemma seqZ_take i n l : n ≤ l → take n (seqZ i l) = seqZ i n.
Proof.
  intros Hn. apply list_eq. intros j. destruct (decide (j < n)).
  - rewrite lookup_take_lt, !lookup_seqZ_lt by lia. done.
  - rewrite lookup_take_ge by lia. symmetry. apply lookup_seqZ_ge. lia.
Qed.

Lemma take_versions all n : numbered all → n ≤ length all → mg_version <$> take n all = seqZ 1 n.
Proof. intros [Hv _] Hn. rewrite fmap_take, Hv. by apply seqZ_take. Qed.

Lemma drop_versions all n : numbered all → n ≤ length all → mg_version <$> drop n all = seqZ (1 + n) (length all - n).
Proof.
  intros [Hv _] Hn. rewrite fmap_drop, Hv. apply list_eq. intros j. rewrite lookup_drop.
  destruct (decide (n + j < length all)).
  - rewrite !lookup_seqZ_lt by lia. f_equal. lia.
  - rewrite !lookup_seqZ_ge by lia. done.
Qed.

(** A history is accepted just when it is the head of the migrations. *)
Lemma check_history_exact all rows i applied :
  numbered all → i ≤ length all →
  check_history all (1 + Z.of_nat i) rows = Ok applied ↔
  rows = row_of ∘ ledger_row <$> take (length rows) (drop i all) ∧ i + length rows ≤ length all ∧
  applied = seqZ (1 + i) (length rows).
Proof.
  intros Hn. revert i applied. induction rows as [|row rows IH]; intros i applied Hi; cbn [check_history length].
  - rewrite seqZ_nil by lia. split; [intros <-%Ok_inj|intros (_ & _ & ->)]; split_and?; (done || lia).
  - destruct row as [v f s]. cbn [row_version row_filename row_checksum].
    destruct (drop i all) as [|m rest] eqn:Hd.
    { assert (i = length all) as -> by (assert (H := length_drop all i); rewrite Hd in H; simpl in H; lia).
      split; [|intros (_ & ? & _); lia]. destruct v as [v| |], f as [|f|], s as [|s|]; try done.
      destruct (Z.eqb_spec v (1 + Z.of_nat (length all))) as [->|]; [|done]. cbn [negb].
      by rewrite numbered_known, lookup_ge_None_2 by done. }
    assert (all !! i = Some m) as Hm by by rewrite <-(Nat.add_0_r i), <-lookup_drop, Hd.
    assert (drop (S i) all = rest) as Hr by (rewrite <-Nat.add_1_r, <-drop_drop, Hd; done).
    assert (S i ≤ length all) as Hsi by (apply lookup_lt_Some in Hm; lia).
    replace (1 + Z.of_nat i + 1)%Z with (1 + Z.of_nat (S i))%Z by lia.
    cbn [take]. rewrite fmap_cons. cbn [compose].
    split.
    + intros H. destruct v as [v| |], f as [|f|], s as [|s|]; try done.
      destruct (Z.eqb_spec v (1 + Z.of_nat i)) as [->|]; [|done]. cbn [negb] in H.
      rewrite numbered_known, Hm in H by done. split_if; [done|].
      apply res_bind_Ok in H as (a & Ha & <-%Ok_inj). to_prop.
      apply IH in Ha as (Hrows & Hl & ->); [|done]. rewrite Hr in Hrows.
      split_and!; [|lia|].
      * f_equal; [|exact Hrows]. unfold row_of, ledger_row. simpl. rewrite (numbered_lookup all i m) by done.
        congruence.
      * rewrite (seqZ_cons (1 + i)) by lia. f_equal. f_equal; lia.
    + intros (Hrow & Hl & ->). injection Hrow as -> -> -> Hrows. rewrite (numbered_lookup all i m) by done.
      rewrite Z.eqb_refl. cbn [negb]. rewrite numbered_known, Hm by done.
      rewrite !bool_decide_eq_true_2 by done. cbn [negb orb].
      rewrite (proj2 (IH (S i) (seqZ (1 + S i) (length rows)) ltac:(done))).
      * cbn [mbind res_bind]. rewrite (seqZ_cons (1 + i)) by lia. f_equal. f_equal; f_equal; lia.
      * rewrite Hr. split_and!; [exact Hrows|lia|done].
Qed.

(** ** Reading the ledger *)

#[local] Instance version_le_trans : Transitive version_le.
Proof. intros a b c. unfold version_le. lia. Qed.
#[local] Instance version_le_total : Total version_le.
Proof. intros a b. unfold version_le. lia. Qed.

Lemma ledger_sorted all n : numbered all → n ≤ length all →
  merge_sort version_le (ledger_row <$> take n all) = ledger_row <$> take n all.
Proof.
  intros Hn Hl. apply (Sorted_unique_strong version_le).
  - intros r1 r2 H1 H2 H12 H21. rewrite merge_sort_Permutation in H1.
    apply list_elem_of_fmap in H1 as (m1 & -> & H1), H2 as (m2 & -> & H2).
    apply list_elem_of_lookup in H1 as [i1 H1], H2 as [i2 H2].
    assert (Hv1 := numbered_lookup _ _ _ (numbered_take all n Hn) H1).
    assert (Hv2 := numbered_lookup _ _ _ (numbered_take all n Hn) H2).
    unfold version_le in *. simpl in *. assert (i1 = i2) as -> by lia. congruence.
  - apply Sorted_merge_sort, _.
  - apply StronglySorted_Sorted.
    assert (StronglySorted version_le (ledger_row <$> drop (n - n) (take n all))) as H; [|by rewrite Nat.sub_diag in H].
    generalize (n - n) as j. intros j. remember (length (drop j (take n all))) as len eqn:El.
    revert j El. induction len as [|len IH]; intros j El.
    + symmetry in El. apply length_zero_iff_nil in El. rewrite El. constructor.
    + destruct (drop j (take n all)) as [|m rest] eqn:Hd; [done|]. cbn [fmap list_fmap].
      assert (drop (S j) (take n all) = rest) as Hr by (rewrite <-Nat.add_1_r, <-drop_drop, Hd; done).
      constructor; [rewrite <-Hr; apply IH; rewrite Hr; simpl in El; lia|].
      apply Forall_fmap, List.Forall_forall. intros x Hx.
      apply list_elem_of_In, list_elem_of_lookup in Hx as [i Hx]. rewrite <-Hr, lookup_drop in Hx.
      assert (take n all !! j = Some m) as Hm by by rewrite <-(Nat.add_0_r j), <-lookup_drop, Hd.
      assert (H1 := numbered_lookup _ _ _ (numbered_take all n Hn) Hx).
      assert (H2 := numbered_lookup _ _ _ (numbered_take all n Hn) Hm).
      simpl. unfold version_le. simpl. lia.
  - apply merge_sort_Permutation.
Qed.


Lemma pending_versions_of n k : n ≤ k →
  List.filter (λ version, negb (bool_decide (version ∈ seqZ 1 n))) (seqZ 1 k) = seqZ (1 + n) (k - n).
Proof.
  intros Hn. replace (Z.of_nat k) with (n + (k - n))%Z at 1 by lia. rewrite seqZ_app, List.filter_app by lia.
  rewrite (List.filter_ext_in _ (λ _, false) (seqZ 1 n)), List.filter_false.
  - rewrite (List.filter_ext_in _ (λ _, true)), List.filter_true; [f_equal; lia|].
    intros v Hv%list_elem_of_In. apply elem_of_seqZ in Hv. apply negb_true_iff, bool_decide_eq_false.
    rewrite elem_of_seqZ. lia.
  - intros v Hv%list_elem_of_In. by apply negb_false_iff, bool_decide_eq_true.
Qed.

Section Release.
Variables (all : list Migration) (Hall : numbered all).

(** The ledger that names the first [n] migrations. *)
Definition ledger_of (n : nat) : list LedgerRow := ledger_row <$> take n all.

Lemma length_ledger_of n : n ≤ length all → length (ledger_of n) = n.
Proof. intros Hn. unfold ledger_of. rewrite length_fmap, length_take. lia. Qed.

Lemma release_status n k : n ≤ k → k ≤ length all →
  _migration_status (row_of <$> ledger_of n) (take k all) =
    Ok (mkMigrationStatus (seqZ 1 n) (seqZ (1 + n) (k - n)) None).
Proof.
  intros Hn Hk. unfold _migration_status.
  assert (check_history (take k all) (1 + 0%nat) (row_of <$> ledger_of n) = Ok (seqZ 1 n)) as Hc.
  { apply check_history_exact; [by apply numbered_take|lia|]. rewrite length_fmap, length_ledger_of by lia.
    split_and!; [|rewrite length_take; lia|done]. unfold ledger_of. rewrite <-list_fmap_compose, drop_0, take_take.
    by rewrite Nat.min_l by lia. }
  replace (1 + 0%nat)%Z with 1%Z in Hc by lia. rewrite Hc. cbn [mbind res_bind].
  by rewrite take_versions, pending_versions_of by done.
Qed.

(** An older release does not know the next migration. *)
Lemma newer_status n k : k < n → n ≤ length all →
  ∃ e, _migration_status (row_of <$> ledger_of n) (take k all) = Err e.
Proof.
  intros Hk Hn. unfold _migration_status.
  destruct (check_history (take k all) 1 (row_of <$> ledger_of n)) as [a|e] eqn:E; [|by eexists].
  replace 1%Z with (1 + 0%nat)%Z in E by lia. apply check_history_exact in E as (_ & Hl & _); [|by apply numbered_take|lia].
  rewrite length_fmap, length_ledger_of, length_take in Hl by done. lia.
Qed.

(** ** Applying *)

Lemma atomic_bind_Ok {S A B} (m : atomic S A) (f : A → atomic S B) s s' b :
  (m ≫= f) s = (Ok b, s') → ∃ a s1, m s = (Ok a, s1) ∧ f a s1 = (Ok b, s').
Proof. unfold mbind, atomic_bind. destruct (m s) as [[a|e] s1]; [|done]. eauto. Qed.

Lemma atomic_bind_assoc {S A B C} (m : atomic S A) (f : A → atomic S B) (g : B → atomic S C) s :
  ((m ≫= f) ≫= g) s = (m ≫= λ a, f a ≫= g) s.
Proof. unfold mbind, atomic_bind. by destruct (m s) as [[a|e] s1]. Qed.

Lemma atomic_bind_ext {S A B} (m : atomic S A) (f g : A → atomic S B) s :
  (∀ a s', f a s' = g a s') → (m ≫= f) s = (m ≫= g) s.
Proof. unfold mbind, atomic_bind. intros H. destruct (m s) as [[a|e] s1]; [apply H|done]. Qed.

Lemma atomic_lift_Ok {S A} (r : res A) s s' (a : A) : @atomic_lift S A r s = (Ok a, s') → r = Ok a ∧ s' = s.
Proof. unfold atomic_lift. by intros [= -> ->]. Qed.

Section Apply.
Context {O : Type} (run : Migration → atomic O unit).

(** The migrations on the objects, each once; [None] when one of them fails. *)
Fixpoint replay (ms : list Migration) (o : O) : option O :=
  match ms with
  | [] => Some o
  | m :: ms' => match run m o with (Ok _, o') => replay ms' o' | (Err _, _) => None end
  end.

Lemma replay_app ms ms' o : replay (ms ++ ms') o = replay ms o ≫= replay ms'.
Proof. revert o. induction ms as [|m ms IH]; intros o; [done|]. simpl. destruct (run m o) as [[u|e] o']; [apply IH|done]. Qed.

Lemma on_objects_Ok {A} (f : atomic O A) (db db' : database O) (a : A) :
  on_objects f db = (Ok a, db') →
  f (db_objects db) = (Ok a, db_objects db') ∧ db_ledger db' = db_ledger db.
Proof. unfold on_objects. destruct (f (db_objects db)) as [r o]. by intros [= -> <-]. Qed.

Lemma insert_version_Ok m (db db' : database O) :
  insert_version m db = (Ok (), db') →
  db_ledger db' = Some (ledger_rows db ++ [ledger_row m]) ∧ db_objects db' = db_objects db.
Proof. unfold insert_version. split_if; [done|]. by intros [= <-]. Qed.

Lemma apply_skips pending ms db :
  Forall (λ m, mg_version m ∉ pending) ms → apply_pending run pending ms db = (Ok (), db).
Proof. induction 1 as [|m ms Hm _ IH]; [done|]. cbn [apply_pending]. by rewrite bool_decide_eq_false_2. Qed.

Lemma apply_app pending ms ms' db :
  apply_pending run pending (ms ++ ms') db = (_ ← apply_pending run pending ms; apply_pending run pending ms') db.
Proof.
  revert db. induction ms as [|m ms IH]; intros db; [done|]. cbn [app apply_pending].
  rewrite atomic_bind_assoc. apply atomic_bind_ext. intros _ s. apply IH.
Qed.

Lemma apply_runs pending k ms n db db' :
  ms = drop n (take k all) → k ≤ length all → n ≤ k → Forall (λ m, mg_version m ∈ pending) ms →
  db_ledger db = Some (ledger_of n) → apply_pending run pending ms db = (Ok (), db') →
  db_ledger db' = Some (ledger_of k) ∧ replay ms (db_objects db) = Some (db_objects db').
Proof.
  intros Hms Hk Hnk Hp. revert n Hms Hnk db. induction Hp as [|m ms Hm _ IH]; intros n Hms Hnk db Hl H.
  - injection H as <-. assert (n = k) as ->; [|done].
    assert (E := length_drop (take k all) n). rewrite <-Hms, length_take in E. simpl in E. lia.
  - cbn [apply_pending] in H. rewrite bool_decide_eq_true_2 in H by done.
    apply atomic_bind_Ok in H as ([] & db2 & H & H2). apply atomic_bind_Ok in H as ([] & db1 & H & H1).
    apply on_objects_Ok in H as [Hr Hl1]. apply insert_version_Ok in H1 as [Hl2 Ho2].
    assert (take k all !! n = Some m) as Hn by (rewrite <-(Nat.add_0_r n), <-lookup_drop, <-Hms; done).
    assert (n < k ∧ all !! n = Some m) as [Hlt Hn'] by (apply lookup_take_Some in Hn as [? ?]; done).
    cbn [replay]. rewrite Hr, <-Ho2. apply (IH (S n)); [|lia| |exact H2].
    + by rewrite <-Nat.add_1_r, <-drop_drop, <-Hms.
    + rewrite Hl2. unfold ledger_rows. rewrite Hl1, Hl. cbn [default]. unfold ledger_of.
      by rewrite (take_S_r all n m), fmap_app by done.
Qed.

(** [bring_up], from a ledger of the first [n] migrations. *)
Lemma bring_up_eq compatibility quiesced n k (db : database O) :
  ledger_rows db = ledger_of n → n ≤ k → k ≤ length all →
  bring_up run (take k all) compatibility quiesced db =
    (_ ← atomic_lift (require_quiescence compatibility
           (mkMigrationStatus (seqZ 1 n) (seqZ (1 + n) (k - n)) None) quiesced);
     apply_pending run (seqZ (1 + n) (k - n)) (drop n (take k all)))
    (mkDatabase (Some (ledger_of n)) (db_objects db)).
Proof.
  intros Hl Hnk Hk. unfold bring_up, select_history, create_ledger. unfold mbind at 1, atomic_bind at 1. rewrite Hl.
  unfold mbind at 1, atomic_bind at 1. cbn [db_ledger].
  assert (merge_sort version_le (ledger_of n) = ledger_of n) as -> by (apply ledger_sorted; [done|lia]).
  unfold mbind at 1, atomic_bind at 1. unfold atomic_lift at 1. rewrite release_status by done.
  cbn [pending_versions]. apply atomic_bind_ext. intros _ s.
  rewrite <-(take_drop n (take k all)) at 1. rewrite apply_app, take_take, Nat.min_l by lia.
  unfold mbind, atomic_bind. rewrite apply_skips; [done|].
  apply List.Forall_forall. intros m Hm%list_elem_of_In. rewrite elem_of_seqZ.
  apply list_elem_of_lookup in Hm as [i Hi]. apply lookup_take_Some in Hi as [Hi ?].
  rewrite (numbered_lookup all i m) by done. lia.
Qed.

Lemma dropped_pending n k : n ≤ k → k ≤ length all →
  Forall (λ m, mg_version m ∈ seqZ (1 + n) (k - n)) (drop n (take k all)).
Proof.
  intros Hnk Hk. apply List.Forall_forall. intros m Hm%list_elem_of_In. rewrite elem_of_seqZ.
  apply list_elem_of_lookup in Hm as [i Hi]. rewrite lookup_drop in Hi. apply lookup_take_Some in Hi as [Hi ?].
  rewrite (numbered_lookup all (n + i) m) by done. lia.
Qed.

(** An older release does not get past the ledger. *)
Lemma bring_up_newer compatibility quiesced n k (db : database O) r db' :
  ledger_rows db = ledger_of n → k < n → n ≤ length all →
  bring_up run (take k all) compatibility quiesced db = (r, db') → ∃ e, r = Err e.
Proof.
  intros Hl Hkn Hn. unfold bring_up, select_history, create_ledger, mbind, atomic_bind, atomic_lift. rewrite Hl.
  cbn [db_ledger].
  assert (merge_sort version_le (ledger_of n) = ledger_of n) as -> by by apply ledger_sorted.
  destruct (newer_status n k Hkn Hn) as [e ->]. intros [= <- _]. by eexists.
Qed.

(** What [bring_up] did when it ended well. *)
Lemma bring_up_Ok compatibility quiesced n k db db' :
  ledger_rows db = ledger_of n → n ≤ length all → k ≤ length all →
  bring_up run (take k all) compatibility quiesced db = (Ok (), db') →
  n ≤ k ∧ require_quiescence compatibility (mkMigrationStatus (seqZ 1 n) (seqZ (1 + n) (k - n)) None) quiesced = Ok () ∧
  db_ledger db' = Some (ledger_of k) ∧ replay (drop n (take k all)) (db_objects db) = Some (db_objects db').
Proof.
  intros Hl Hn Hk H. destruct (decide (n ≤ k)) as [Hnk|Hnk].
  2: { apply bring_up_newer with (n := n) in H as [e [=]]; [done|lia|done]. }
  rewrite bring_up_eq with (n := n) in H by done.
  apply atomic_bind_Ok in H as ([] & db1 & Hq & H). apply atomic_lift_Ok in Hq as [Hq ->].
  destruct (apply_runs _ k _ n (mkDatabase (Some (ledger_of n)) (db_objects db)) db' eq_refl Hk Hnk
    (dropped_pending n k Hnk Hk) eq_refl H). done.
Qed.

End Apply.

(** ** Attempts *)

Section Attempts.
Context `{F : PackagedFiles} {O : Type} `{V : SqlServer O}.

Lemma transaction_Ok {S A} (m : atomic S A) s s' a : transaction m s = (Ok a, s') → m s = (Ok a, s').
Proof. unfold transaction. destruct (m s) as [[b|e] s1]; [done|]. done. Qed.
Lemma transaction_Err {S A} (m : atomic S A) s s' e : transaction m s = (Err e, s') → s' = s.
Proof. unfold transaction. destruct (m s) as [[b|e'] s1]; [done|]. by intros [= _ <-]. Qed.
Lemma lift_Err {S A B} (r : res A) (f : A → atomic S B) s s' e :
  (∀ a, f a s = (Err e, s') → s' = s) → (a ← atomic_lift r; f a) s = (Err e, s') → s' = s.
Proof. unfold mbind, atomic_bind, atomic_lift. intros H. destruct r as [a|e']; [apply H|]. by intros [= _ <-]. Qed.

(** What an attempt of the release that packages the first [k] migrations does. *)
Definition attempt_of (run : Migration → atomic O unit) (k : nat) (compatibility : list MigrationCompatibility)
  (quiesced : bool) (m : atomic (database O) MigrationStatus) : Prop :=
  ∀ db r db', m db = (r, db') →
    match r with
    | Err _ => db' = db
    | Ok status => bring_up run (take k all) compatibility quiesced db = (Ok (), db') ∧
        applied_versions status = mg_version <$> take k all ∧ pending_versions status = []
    end.

Lemma postgres_attempt k compatibility schema quoted lock_timeout contended quiesced :
  quote_schema_name schema = Ok quoted →
  attempt_of (run_postgres_migration quoted) k compatibility quiesced
    (migrate_release (take k all) compatibility schema lock_timeout contended quiesced).
Proof.
  intros Hq db r db' H. unfold migrate_release in H. destruct r as [status|e].
  - apply atomic_bind_Ok in H as (ms & db1 & H1 & H). apply atomic_lift_Ok in H1 as [_ ->].
    apply atomic_bind_Ok in H as (q & db2 & H2 & H). apply atomic_lift_Ok in H2 as [H2 ->].
    rewrite Hq in H2. injection H2 as <-. apply transaction_Ok in H. unfold migrate_body in H.
    apply atomic_bind_Ok in H as ([] & db3 & H3 & H). apply atomic_lift_Ok in H3 as [_ ->].
    apply atomic_bind_Ok in H as ([] & db4 & H4 & H). apply on_objects_Ok in H4 as [H4 L4].
    unfold create_schema in H4. injection H4 as _ H4.
    assert (db4 = db) as -> by (destruct db, db4; simpl in *; congruence).
    apply atomic_bind_Ok in H as ([] & db5 & H5 & H).
    apply atomic_bind_Ok in H as (owner & db6 & H6 & H). apply on_objects_Ok in H6 as [H6 L6].
    unfold _connected_role_owns_proposals in H6. injection H6 as _ H6. injection H as <- <-.
    assert (db6 = db5) as -> by (destruct db5, db6; simpl in *; congruence). done.
  - eapply lift_Err; [|exact H]. intros ms H1. eapply lift_Err; [|exact H1]. intros q. apply transaction_Err.
Qed.

Lemma sqlite_attempt `{U : Unicode} complete_statement k compatibility contended quiesced :
  attempt_of (run_sqlite_migration complete_statement) k compatibility quiesced
    (migrate_sync_release complete_statement (take k all) compatibility contended quiesced).
Proof.
  intros db r db' H. unfold migrate_sync_release in H. destruct r as [status|e].
  - apply transaction_Ok in H.
    apply atomic_bind_Ok in H as ([] & db3 & H3 & H). apply atomic_lift_Ok in H3 as [_ ->].
    apply atomic_bind_Ok in H as ([] & db5 & H5 & H). by injection H as <- <-.
  - by eapply transaction_Err.
Qed.

Section Backend.
Context (run : Migration → atomic O unit) (o0 : O).

(** The state an interrupted or complete sequence of attempts keeps. *)
Definition brought_to (n : nat) (db : database O) : Prop :=
  n ≤ length all ∧ ledger_rows db = ledger_of n ∧ replay run (take n all) o0 = Some (db_objects db).

Lemma attempt_brings k compatibility quiesced m n db r db' :
  attempt_of run k compatibility quiesced m → k ≤ length all → brought_to n db → m db = (r, db') →
  ∃ n', n ≤ n' ∧ brought_to n' db' ∧
    ∀ status, r = Ok status → n' = k ∧ applied_versions status = seqZ 1 k ∧ pending_versions status = [].
Proof.
  intros Hm Hk (Hn & Hl & Hr) H. apply Hm in H. destruct r as [status|e]; [|subst db'; by exists n].
  destruct H as (H & Ha & Hp). destruct (bring_up_Ok run _ _ n k _ _ Hl Hn Hk H) as (Hnk & _ & Hl' & Hr').
  exists k. split; [done|]. split.
  - split_and!; [done|unfold ledger_rows; by rewrite Hl'|].
    rewrite <-(take_drop n (take k all)), take_take, Nat.min_l by lia.
    rewrite replay_app, Hr. exact Hr'.
  - intros s [= <-]. rewrite Ha, take_versions by done. done.
Qed.

Inductive attempts (attempt : nat → atomic (database O) MigrationStatus → Prop)
  : session (database O) MigrationStatus → Prop :=
  | attempts_release k m : k ≤ length all → attempt k m → attempts attempt (send m)
  (* the server or the connection fails; the transaction is undone *)
  | attempts_aborted e : attempts attempt (send (λ db, (Err e, db))).

Lemma attempts_in_order attempt w :
  (∀ k m, attempt k m → ∃ compatibility quiesced, attempt_of run k compatibility quiesced m) →
  system_reachable (attempts attempt) (mkDatabase None o0) w →
  ∃ n, brought_to n w.1 ∧ ∀ status, Answer (Ok status) ∈ w.2 →
    ∃ k, k ≤ n ∧ applied_versions status = seqZ 1 k ∧ pending_versions status = [].
Proof.
  intros Ha Hr.
  set (I := λ db, ∃ n, brought_to n db). set (G := λ a b : database O, length (ledger_rows a) ≤ length (ledger_rows b)).
  set (Q := λ (db : database O) (r : res MigrationStatus), ∀ status, r = Ok status →
    ∃ k, k ≤ length (ledger_rows db) ∧ applied_versions status = seqZ 1 k ∧ pending_versions status = []).
  assert (PreOrder G) by (split; unfold G; [intros x|intros x y z]; lia).
  destruct (system_serves I G Q) with (opens := attempts attempt) (s0 := mkDatabase (@None (list LedgerRow)) o0) (w := w)
    as (HI & _ & HQ).
  - intros s s' r Hg Hq status Hs. destruct (Hq status Hs) as (k & Hk & Hx). exists k. split; [unfold G in Hg; lia|done].
  - exists 0. split_and!; [lia|done|]. by rewrite take_0.
  - intros p s [k m Hk Hm|e] _.
    + destruct (Ha k m Hm) as (c & q & Hat). apply serves_statement. intros db [n Hb] _.
      destruct (m db) as [r db'] eqn:E. cbn [fst snd].
      destruct (attempt_brings k c q m n db r db' Hat Hk Hb E) as (n' & Hnn & Hb' & Hs).
      assert (length (ledger_rows db) = n) as L1 by (destruct Hb as (? & -> & _); by apply length_ledger_of).
      assert (length (ledger_rows db') = n') as L2 by (destruct Hb' as (? & -> & _); by apply length_ledger_of).
      split; [by exists n'|]. split; [unfold G; lia|]. intros status Hst. destruct (Hs status Hst) as (-> & ? & ?).
      exists k. rewrite L2. done.
    + apply serves_statement. intros db Hb _. split; [done|]. split; [unfold G; simpl; lia|]. intros status Hst. done.
  - done.
  - destruct HI as [n Hb]. exists n. split; [done|]. intros status Hs.
    destruct (HQ _ Hs status eq_refl) as (k & Hk & Hx). exists k. split; [|done].
    destruct Hb as (? & Hl & _). rewrite Hl, length_ledger_of in Hk; done.
Qed.

End Backend.

(** ** PostgreSQL and SQLite *)

Inductive adapter :=
  | PostgresAdapter (schema : pystr)
  | SqliteAdapter (complete_statement : list N → bool).

Section Adapters.
Context `{U : Unicode}.

(** How a migration is run: rendered for the schema, or split into statements. *)
Definition adapter_run (a : adapter) : Migration → atomic O unit :=
  match a with
  | PostgresAdapter schema => run_postgres_migration (quote double_quote schema)
  | SqliteAdapter complete_statement => run_sqlite_migration complete_statement
  end.

(** An attempt of the release that packages the first [k] migrations. *)
Definition adapter_attempt (a : adapter) (k : nat) (compatibility : list MigrationCompatibility)
  (lock_timeout : timedelta) (contended quiesced : bool) : atomic (database O) MigrationStatus :=
  match a with
  | PostgresAdapter schema => migrate_release (take k all) compatibility schema lock_timeout contended quiesced
  | SqliteAdapter complete_statement =>
      migrate_sync_release complete_statement (take k all) compatibility contended quiesced
  end.

Lemma adapter_attempts a k compatibility lock_timeout contended quiesced :
  attempt_of (adapter_run a) k compatibility quiesced
    (adapter_attempt a k compatibility lock_timeout contended quiesced).
Proof.
  destruct a as [schema|complete_statement]; [|apply sqlite_attempt].
  destruct (quote_schema_name schema) as [q|e] eqn:Hq.
  - apply postgres_attempt. cbn [adapter_run]. rewrite Hq. by apply schema_name_quoted in Hq as [-> _].
  - intros db r db' H. cbn [adapter_attempt] in H. unfold migrate_release in H. rewrite Hq in H.
    destruct r as [status|e'].
    + apply atomic_bind_Ok in H as (ms & db1 & H1 & H). by apply atomic_bind_Ok in H as (q & db2 & H2 & H).
    + eapply lift_Err; [|exact H]. intros ms H1. by injection H1 as _ <-.
Qed.

(** C37: migrating applies the packaged migrations, in order and once. Whatever
    releases of the package are run against a database, older and newer ones
    interleaved, contended, refused, or undone in the middle, the ledger names
    the first so many of the migrations, and the schema is what exactly these
    make, one after the other, of the schema there was; and an attempt that
    reports its migrations as applied leaves no pending one and is never taken
    back. *)
Theorem migrations_applied_in_order (a : adapter) (o0 : O)
  (w : database O * list (session (database O) MigrationStatus))
  (Hr : system_reachable (attempts (λ k m, ∃ compatibility lock_timeout contended quiesced,
          m = adapter_attempt a k compatibility lock_timeout contended quiesced)) (mkDatabase None o0) w) :
  ∃ n, n ≤ length all ∧ ledger_rows w.1 = ledger_of n ∧
    replay (adapter_run a) (take n all) o0 = Some (db_objects w.1) ∧
    ∀ status, Answer (Ok status) ∈ w.2 →
      ∃ k, k ≤ n ∧ applied_versions status = seqZ 1 k ∧ pending_versions status = [].
Proof.
  edestruct (attempts_in_order (adapter_run a) o0) as (n & (Hn & Hl & Ho) & Hs); [|exact Hr|by exists n].
  intros k m (c & t & b & q & ->). exists c, q. apply adapter_attempts.
Qed.

(** C38: an attempt is all or nothing. One that fails leaves the database as it was.
    One that succeeds found the ledger of its own release or of an older one; if
    there was a history and writers were not declared stopped, no migration it
    had to apply requires that; it ran just the missing migrations, in order, and
    recorded them; and another attempt of the same release changes nothing. *)
Theorem migration_attempt_exact (a : adapter) (n k : nat) (compatibility : list MigrationCompatibility)
  (lock_timeout : timedelta) (contended quiesced : bool) (db db' : database O) (r : res MigrationStatus)
  (Hn : n ≤ length all) (Hk : k ≤ length all) (Hl : ledger_rows db = ledger_of n)
  (H : adapter_attempt a k compatibility lock_timeout contended quiesced db = (r, db')) :
  match r with
  | Err _ => db' = db
  | Ok status =>
      n ≤ k ∧ applied_versions status = seqZ 1 k ∧ pending_versions status = [] ∧
      (n = 0 ∨ quiesced = true ∨ ∀ c, c ∈ compatibility → (n < co_version c <= k)%Z →
         co_requires_writer_quiescence c = false) ∧
      db_ledger db' = Some (ledger_of k) ∧
      replay (adapter_run a) (drop n (take k all)) (db_objects db) = Some (db_objects db') ∧
      ∀ compatibility' lock_timeout' contended' quiesced',
        (adapter_attempt a k compatibility' lock_timeout' contended' quiesced' db').2 = db'
  end.
Proof.
  assert (Ha := adapter_attempts a). apply Ha in H. destruct r as [status|e]; [|done].
  destruct H as (H & Hv & Hp). destruct (bring_up_Ok _ _ _ n k _ _ Hl Hn Hk H) as (Hnk & Hq & Hl' & Hr).
  split_and!; [done|by rewrite Hv, take_versions|done| |done|done|].
  - unfold require_quiescence in Hq. destruct quiesced; [auto|]. rewrite andb_true_r in Hq.
    destruct n as [|n]; [auto|]. right; right. intros c Hc Hcv.
    cbn [applied_versions pending_versions] in Hq. destruct (co_requires_writer_quiescence c) eqn:Hco; [|done]. exfalso.
    unfold migrations_requiring_writer_quiescence in Hq. rewrite (seqZ_cons 1) in Hq by lia.
    set (required := List.filter _ _) in Hq.
    assert (List.In c required) as Hin.
    { apply List.filter_In. split; [by apply list_elem_of_In|]. rewrite Hco, andb_true_r.
      apply bool_decide_eq_true, elem_of_seqZ. lia. }
    by destruct required.
  - intros c' t' b' q'. destruct (adapter_attempt a k c' t' b' q' db') as [r2 db2] eqn:E2. apply Ha in E2.
    destruct r2 as [s2|e2]; [|done]. destruct E2 as (E2 & _).
    assert (ledger_rows db' = ledger_of k) as Hl2 by (unfold ledger_rows; by rewrite Hl').
    destruct (bring_up_Ok _ _ _ k k _ _ Hl2 Hk Hk E2) as (_ & _ & Hl3 & Hr3).
    rewrite (drop_ge (take k all)) in Hr3 by (rewrite length_take; lia). injection Hr3 as Hr3.
    destruct db', db2. simpl in *. congruence.
Qed.

End Adapters.

(** ** MySQL *)

Section MySQL.
Context `{U : Unicode} (server_version : O → cell) (assert_current_schema : O → res unit) (o0 : O).

(** The statements on the objects, whether they work or fail in the middle. *)
Definition sent (statements : list pystr) (o : O) : O := foldl (λ o s, (execute_sql s o).2) o statements.

(** The objects after the first [n] migrations were each run to their end, with
    what attempts that stopped had run of a migration before. *)
Inductive mysql_history : nat → O → Prop :=
  | history_start : mysql_history 0 o0
  | history_part n o m statements part :
      mysql_history n o → all !! n = Some m → _statements (mg_sql m) = Ok statements →
      part `prefix_of` statements → mysql_history n (sent part o)
  | history_done n o m statements o' :
      mysql_history n o → all !! n = Some m → _statements (mg_sql m) = Ok statements →
      execute_all statements o = (Ok (), o') → mysql_history (S n) o'.

Definition mysql_state (n : nat) (c : connection) : Prop :=
  n ≤ length all ∧ ledger_rows (cn_database c) = ledger_of n ∧ mysql_history n (db_objects (cn_database c)).

(** How one statement ends. *)
Lemma statement_cases {A} (m : atomic (database O) A) c r c' :
  statement m c = (r, c') →
  (cn_database c' = cn_database c ∧ ∃ e, r = Err e) ∨
  (cn_database c' = (m (cn_database c)).2 ∧ ((∃ e, r = Err e) ∨ r = (m (cn_database c)).1)).
Proof.
  unfold statement. destruct (cn_faults c) as [|[|e|e] fs]; [| |intros [= <- <-]; left; eauto|intros [= <- <-]; right; eauto];
    destruct (m (cn_database c)) as [x db]; intros [= <- <-]; right; simpl; auto.
Qed.

(** A statement that only reads. *)
Lemma statement_reads {A} (m : atomic (database O) A) n c r c' :
  (∀ db, (m db).2 = db) → mysql_state n c → statement m c = (r, c') →
  mysql_state n c' ∧ ∀ a, r = Ok a → (m (cn_database c)).1 = Ok a.
Proof.
  intros Hm Hs H. apply statement_cases in H as [(E & e & ->)|(E & Hr)].
  - split; [|done]. unfold mysql_state. by rewrite E.
  - rewrite Hm in E. split; [unfold mysql_state; by rewrite E|]. intros a ->. by destruct Hr as [[e ?]|Hr].
Qed.

Lemma bind_cases {S A B} (m : atomic S A) (f : A → atomic S B) s r s' :
  (m ≫= f) s = (r, s') →
  (∃ e, m s = (Err e, s') ∧ r = Err e) ∨ ∃ a s1, m s = (Ok a, s1) ∧ f a s1 = (r, s').
Proof. unfold mbind, atomic_bind. destruct (m s) as [[a|e] s1]; [eauto|]. intros [= <- <-]. eauto. Qed.

Lemma execute_each_state statements n m done_part c r c' o :
  mysql_history n o → all !! n = Some m → _statements (mg_sql m) = Ok (done_part ++ statements) →
  n ≤ length all → ledger_rows (cn_database c) = ledger_of n →
  execute_all done_part o = (Ok (), db_objects (cn_database c)) → sent done_part o = db_objects (cn_database c) →
  execute_each statements c = (r, c') →
  mysql_state n c' ∧ (r = Ok () → execute_all (done_part ++ statements) o = (Ok (), db_objects (cn_database c'))).
Proof.
  intros Ho Hm. revert done_part c. induction statements as [|s ss IH]; intros done_part c Hs Hn Hl He Hd H; cbn [execute_each] in H.
  - injection H as <- <-. rewrite app_nil_r in *. split; [|done]. split_and!; [done..|]. rewrite <-Hd.
    by eapply history_part.
  - assert (mysql_history n (sent (done_part ++ [s]) o)) as Hpart.
    { eapply history_part; [done..|]. exists ss. by rewrite <-app_assoc. }
    assert (sent (done_part ++ [s]) o = (execute_sql s (db_objects (cn_database c))).2) as Esent.
    { unfold sent in *. rewrite foldl_app. cbn [foldl]. by rewrite Hd. }
    assert (mysql_history n (db_objects (cn_database c))) as Hnow.
    { rewrite <-Hd. eapply history_part; [done..|]. by exists (s :: ss). }
    apply bind_cases in H as [(e & H & ->)|([] & c1 & H & H1)].
    + split; [|done]. apply statement_cases in H as [(E & _)|(E & _)]; unfold mysql_state; rewrite E.
      * done.
      * unfold on_objects. destruct (execute_sql s (db_objects (cn_database c))) as [x o1] eqn:Ex. simpl.
        rewrite Esent in Hpart. done.
    + apply statement_cases in H as [(_ & e & [=])|(E & [[e [=]]|Hok])].
      unfold on_objects in E, Hok. destruct (execute_sql s (db_objects (cn_database c))) as [x o1] eqn:Ex.
      simpl in E, Hok, Esent. subst x.
      destruct (IH (done_part ++ [s]) c1) as [H2 H3]; [by rewrite <-app_assoc|done| | | |exact H1|].
      * rewrite E. done.
      * rewrite E. simpl. clear -He Ex. revert o He. induction done_part as [|d dp IHd]; intros o He.
        -- injection He as ->. cbn [app execute_all]. unfold mbind, atomic_bind. by rewrite Ex.
        -- cbn [app execute_all] in *. unfold mbind, atomic_bind in *. destruct (execute_sql d o) as [[u|e] o2]; [|done].
           by apply IHd.
      * by rewrite E, Esent.
      * split; [done|]. by rewrite <-app_assoc in H3.
Qed.

Lemma run_mysql_state n m c r c' :
  mysql_state n c → all !! n = Some m → run_mysql_migration m c = (r, c') →
  ∃ n', n ≤ n' ∧ mysql_state n' c' ∧ (r = Ok () → n' = S n).
Proof.
  intros (Hn & Hl & Hh) Hm H. unfold run_mysql_migration in H.
  apply bind_cases in H as [(e & H & ->)|(ss & c1 & H & H1)]; unfold atomic_lift in H.
  { injection H as _ <-. exists n. split_and!; done. }
  injection H as Hs <-.
  apply bind_cases in H1 as [(e & H & ->)|([] & c2 & H & H2)];
    (eapply (execute_each_state ss n m [] c) in H as [Hst Hdone]; [|done..]).
  { exists n. split_and!; done. }
  specialize (Hdone eq_refl). cbn [app] in Hdone.
  assert (mysql_history (S n) (db_objects (cn_database c2))) as Hnew by (eapply history_done; [exact Hh|done..]).
  assert (mysql_state (S n) (mkConnection (mkDatabase (Some (ledger_of n ++ [ledger_row m]))
    (db_objects (cn_database c2))) [])) as Hnext.
  { split_and!; [apply lookup_lt_Some in Hm; lia| |exact Hnew]. unfold ledger_rows, ledger_of. simpl.
    by rewrite (take_S_r all n m), fmap_app by done. }
  destruct Hst as (_ & Hl2 & Hh2).
  assert (∀ c3, cn_database c3 = cn_database c2 → mysql_state n c3) as Hsame.
  { intros c3 E. unfold mysql_state. rewrite E. done. }
  assert (∀ x db, insert_version m (cn_database c2) = (x, db) →
    (∃ e, x = Err e) ∧ db = cn_database c2 ∨ x = Ok () ∧ db = mkDatabase (Some (ledger_of n ++ [ledger_row m])) (db_objects (cn_database c2)))
    as Hins.
  { intros x db. unfold insert_version. rewrite Hl2. split_if; intros [= <- <-]; [left; split; [by eexists|done]|by right]. }
  destruct (insert_version m (cn_database c2)) as [x db] eqn:Ei. destruct (Hins x db eq_refl) as [[[e ->] ->]|[-> ->]];
    apply statement_cases in H2 as [(E & e' & ->)|(E & Hr)]; rewrite ?Ei in *; simpl in *.
  - exists n. split_and!; auto; done.
  - exists n. split_and!; auto. by destruct Hr as [[? ->]| ->].
  - exists n. split_and!; auto; done.
  - exists (S n). split_and!; [lia| |done]. unfold mysql_state in *. rewrite E. exact Hnext.
Qed.

Lemma apply_mysql_state k ms n pending c r c' :
  ms = drop n (take k all) → n ≤ k → k ≤ length all → Forall (λ m, mg_version m ∈ pending) ms →
  mysql_state n c → apply_mysql pending ms c = (r, c') →
  ∃ n', n ≤ n' ∧ mysql_state n' c' ∧ (r = Ok () → n' = k).
Proof.
  intros Hms Hnk Hk Hp. revert n Hms Hnk c. induction Hp as [|m ms Hm _ IH]; intros n Hms Hnk c Hs H.
  - injection H as <- <-. exists n. split_and!; [done..|]. intros _.
    assert (E := length_drop (take k all) n). rewrite <-Hms, length_take in E. simpl in E. lia.
  - cbn [apply_mysql] in H. rewrite bool_decide_eq_true_2 in H by done.
    assert (take k all !! n = Some m) as Hn by (rewrite <-(Nat.add_0_r n), <-lookup_drop, <-Hms; done).
    assert (n < k ∧ all !! n = Some m) as [Hlt Hn'] by (apply lookup_take_Some in Hn as [? ?]; done).
    apply bind_cases in H as [(e & H & ->)|([] & c1 & H & H1)];
      (eapply run_mysql_state in H as (n1 & Hle & Hs1 & Hok); [|done..]).
    + exists n1. split_and!; done.
    + rewrite (Hok eq_refl) in Hs1. destruct (IH (S n)) with (c := c1) as (n2 & ? & ? & ?); [|lia|done..|].
      * by rewrite <-Nat.add_1_r, <-drop_drop, <-Hms.
      * exists n2. split_and!; [lia|done..].
Qed.

Lemma apply_mysql_skips pending ms ms' c :
  Forall (λ m, mg_version m ∉ pending) ms → apply_mysql pending (ms ++ ms') c = apply_mysql pending ms' c.
Proof.
  induction 1 as [|m ms Hm _ IH]; [done|]. cbn [app apply_mysql]. rewrite bool_decide_eq_false_2 by done. exact IH.
Qed.

(** What the history statements read. *)
Lemma history_reads n c r c' :
  mysql_state n c → _history c = (r, c') →
  mysql_state n c' ∧ ∀ rows, r = Ok rows → rows = row_of <$> ledger_of n.
Proof.
  intros Hs H. unfold _history in H. apply bind_cases in H as [(e & H & ->)|(x & c1 & H & H1)];
    (eapply statement_reads in H as [Hs1 Hx]; [|done..]); [done|].
  specialize (Hx x eq_refl). injection Hx as <-.
  destruct (db_ledger (cn_database c)) as [l|] eqn:El; rewrite ?bool_decide_eq_true_2, ?bool_decide_eq_false_2 in H1 by
    (eauto; by intros [? ?]).
  - eapply statement_reads in H1 as [Hs2 Hrows]; [| |exact Hs1].
    + split; [done|]. intros rows ->. specialize (Hrows rows eq_refl). unfold select_history in Hrows.
      destruct Hs1 as (Hn & Hl & _). unfold ledger_rows in Hl.
      destruct (db_ledger (cn_database c1)) as [l1|]; [|done]. simpl in Hl. subst l1. injection Hrows as <-.
      unfold ledger_of. by rewrite (ledger_sorted all n Hall Hn).
    + intros db. unfold select_history. by destruct (db_ledger db).
  - injection H1 as <- <-. split; [done|]. intros rows [= <-].
    destruct Hs as (Hn & Hl & _). unfold ledger_rows in Hl. rewrite El in Hl. simpl in Hl. by rewrite <-Hl.
Qed.

Lemma mysql_state_same n c c' : cn_database c' = cn_database c → mysql_state n c → mysql_state n c'.
Proof. unfold mysql_state. by intros ->. Qed.

(** A query that looks at the objects. *)
Lemma check_statement {A} (f : O → res A) c r c' :
  statement (on_objects (λ o, (f o, o))) c = (r, c') →
  cn_database c' = cn_database c ∧ ∀ a, r = Ok a → f (db_objects (cn_database c)) = Ok a.
Proof.
  intros H. apply statement_cases in H as [(E & e & ->)|(E & H)]; [done|].
  unfold on_objects in E, H. simpl in E, H. split; [by destruct (cn_database c)|].
  intros a ->. by destruct H as [[e ?]|H].
Qed.

Lemma mysql_body_state k compatibility quiesced n c r c' :
  k ≤ length all → mysql_state n c →
  mysql_body assert_current_schema (take k all) compatibility quiesced c = (r, c') →
  ∃ n', n ≤ n' ∧ mysql_state n' c' ∧
    ∀ status, r = Ok status → n' = k ∧ applied_versions status = seqZ 1 k ∧ pending_versions status = [] ∧
      assert_current_schema (db_objects (cn_database c')) = Ok () ∧
      require_quiescence compatibility (mkMigrationStatus (seqZ 1 n) (seqZ (1 + n) (k - n)) None) quiesced = Ok ().
Proof.
  intros Hk Hs H. unfold mysql_body in H.
  apply bind_cases in H as [(e & H & ->)|([] & c1 & H & H1)].
  { exists n. split_and!; [done| |done]. apply statement_cases in H as [(E & _)|(E & _)]; unfold mysql_state; by rewrite E. }
  assert (mysql_state n c1) as Hs1.
  { apply statement_cases in H as [(E & _)|(E & _)]; unfold mysql_state; by rewrite E. }
  clear H Hs. apply bind_cases in H1 as [(e & H & ->)|(rows & c2 & H & H2)];
    (eapply history_reads in H as [Hs2 Hrows]; [|done]); [by exists n|].
  rewrite (Hrows rows eq_refl) in H2. clear Hrows Hs1.
  apply bind_cases in H2 as [(e & H & ->)|(status & c3 & H & H3)]; injection H as Hst <-; [by exists n|].
  destruct (decide (n ≤ k)) as [Hnk|Hnk].
  2: { destruct (newer_status n k) as [e He]; [lia|by destruct Hs2|]. by rewrite He in Hst. }
  rewrite release_status in Hst by done. injection Hst as <-.
  apply bind_cases in H3 as [(e & H & ->)|([] & c4 & H & H4)]; injection H as Hq <-; [by exists n|].
  cbn [pending_versions] in H4. apply bind_cases in H4 as [(e & H & ->)|([] & c5 & H & H5)];
    rewrite <-(take_drop n (take k all)), take_take, Nat.min_l, apply_mysql_skips in H by
      (try lia; apply List.Forall_forall; intros m Hm%list_elem_of_In; rewrite elem_of_seqZ;
       apply list_elem_of_lookup in Hm as [i Hi]; apply lookup_take_Some in Hi as [Hi ?];
       rewrite (numbered_lookup all i m) by done; lia).
  all: eapply (apply_mysql_state k _ n) in H as (n5 & Hle & Hs5 & Hok); [|done..| |exact Hs2].
  2, 4: apply List.Forall_forall; intros m Hm%list_elem_of_In; rewrite elem_of_seqZ;
    apply list_elem_of_lookup in Hm as [i Hi]; rewrite lookup_drop in Hi; apply lookup_take_Some in Hi as [Hi ?];
    rewrite (numbered_lookup all (n + i) m) by done; lia.
  { exists n5. split_and!; done. }
  rewrite (Hok eq_refl) in Hs5. clear Hs2 Hok Hle.
  apply bind_cases in H5 as [(e & H & ->)|(rows' & c6 & H & H6)];
    (eapply history_reads in H as [Hs6 Hrows]; [|exact Hs5]); [by exists k|].
  rewrite (Hrows rows' eq_refl), release_status in H6 by done. clear Hrows Hs5.
  apply bind_cases in H6 as [(e & H & ->)|(final & c7 & H & H7)]; injection H as Hf <-; [by exists k|].
  assert (final = mkMigrationStatus (seqZ 1 k) [] None) as ->.
  { rewrite <-Hf. by rewrite (seqZ_nil (1 + k)) by lia. }
  cbn [pending_versions] in H7. rewrite bool_decide_eq_true_2 in H7 by done.
  apply bind_cases in H7 as [(e & H & ->)|([] & c8 & H & H8)]; [done|]. injection H as <-.
  apply bind_cases in H8 as [(e & H & ->)|([] & c9 & H & H9)]; apply check_statement in H as [E Hc].
  - exists k. unfold mysql_state. rewrite E. done.
  - injection H9 as <- <-. exists k. unfold mysql_state. rewrite E. split; [lia|]. split; [done|].
    intros status [= <-]. split_and!; try done. by apply Hc.
Qed.

Lemma migrate_mysql_state k compatibility lock_timeout contended quiesced n c r c' :
  k ≤ length all → mysql_state n c →
  migrate_mysql_release server_version assert_current_schema (take k all) compatibility lock_timeout contended quiesced c =
    (r, c') →
  ∃ n', n ≤ n' ∧ mysql_state n' c' ∧
    ∀ status, r = Ok status → n' = k ∧ applied_versions status = seqZ 1 k ∧ pending_versions status = [] ∧
      assert_current_schema (db_objects (cn_database c')) = Ok () ∧
      require_quiescence compatibility (mkMigrationStatus (seqZ 1 n) (seqZ (1 + n) (k - n)) None) quiesced = Ok ().
Proof.
  intros Hk Hs H. unfold migrate_mysql_release in H.
  apply bind_cases in H as [(e & H & ->)|(t & c1 & H & H1)]; injection H as _ <-; [by exists n|].
  apply bind_cases in H1 as [(e & H & ->)|(v & c2 & H & H2)]; unfold _server_version in H.
  - apply bind_cases in H as [(e' & H & _)|(x & c3 & H & H3)].
    + apply (check_statement (λ o, Ok (server_version o))) in H as [E _]. exists n.
      split; [done|]. split; [by eapply mysql_state_same|done].
    + apply (check_statement (λ o, Ok (server_version o))) in H as [E _]. injection H3 as _ <-. exists n.
      split; [done|]. split; [by eapply mysql_state_same|done].
  - apply bind_cases in H as [(e' & H & [=])|(x & c3 & H & H3)].
    apply (check_statement (λ o, Ok (server_version o))) in H as [E _]. injection H3 as _ <-.
    apply bind_cases in H2 as [(e & H & ->)|([] & c4 & H & H4)]; injection H as _ <-.
    + exists n. split; [done|]. split; [by eapply mysql_state_same|done].
    + eapply mysql_body_state; [done| |exact H4]. by eapply mysql_state_same.
Qed.

(** A sequence of attempts, by any releases; the connection of each fails as it
    will. *)
Inductive mysql_attempt : database O → database O → Prop :=
  | one_attempt k compatibility lock_timeout contended quiesced faults db r c' :
      k ≤ length all →
      migrate_mysql_release server_version assert_current_schema (take k all) compatibility lock_timeout contended
        quiesced (mkConnection db faults) = (r, c') →
      mysql_attempt db (cn_database c').

Lemma attempts_state db :
  rtc mysql_attempt (mkDatabase None o0) db → ∃ n, mysql_state n (mkConnection db []).
Proof.
  revert db. apply (rtc_ind_r (λ db, ∃ n, mysql_state n (mkConnection db []))).
  - exists 0. split_and!; [simpl; lia|done|constructor].
  - intros db1 db2 _ [k c t b q faults db0 r c' Hk H1] [n Hn].
    eapply migrate_mysql_state in H1 as (n' & _ & Hs & _); [|done|exact Hn]. by exists n'.
Qed.

(** C39: MySQL commits statement by statement, so that an attempt may stop inside a
    migration; still the ledger never names more than was done. After any
    attempts of any releases, with connections that fail before or after any
    statement, the ledger names the first so many migrations, each of which was
    run, all statements in order and without an error, after the ones before it;
    besides, only beginnings of a migration not yet recorded were run. An attempt
    that reports success leaves nothing pending and the schema it checks; over a
    history it was either declared quiescent or had nothing that requires it. *)
Theorem mysql_ledger_names_complete (k : nat) (compatibility : list MigrationCompatibility)
  (lock_timeout : timedelta) (contended quiesced : bool) (faults : list fault) (db : database O)
  (r : res MigrationStatus) (c' : connection)
  (Hr : rtc mysql_attempt (mkDatabase None o0) db) (Hk : k ≤ length all)
  (H : migrate_mysql_release server_version assert_current_schema (take k all) compatibility lock_timeout contended
         quiesced (mkConnection db faults) = (r, c')) :
  ∃ n n', n ≤ n' ∧ n' ≤ length all ∧ ledger_rows db = ledger_of n ∧ ledger_rows (cn_database c') = ledger_of n' ∧
    mysql_history n (db_objects db) ∧ mysql_history n' (db_objects (cn_database c')) ∧
    ∀ status, r = Ok status → n' = k ∧ applied_versions status = seqZ 1 k ∧ pending_versions status = [] ∧
      assert_current_schema (db_objects (cn_database c')) = Ok () ∧
      require_quiescence compatibility (mkMigrationStatus (seqZ 1 n) (seqZ (1 + n) (k - n)) None) quiesced = Ok ().
Proof.
  destruct (attempts_state db Hr) as [n Hn]. exists n.
  destruct (migrate_mysql_state k _ _ _ _ n (mkConnection db faults) _ _ Hk Hn H) as (n' & Hle & Hs & Hok).
  exists n'. destruct Hn as (_ & Hl & Hh), Hs as (Hn' & Hl' & Hh'). split_and!; done.
Qed.
End MySQL.
End Attempts.
End Release.
