(* ===== verification/MigrationScripts.v ===== *)
(** Offline PostgreSQL migrations ([migrations.py]): the plan, the script that
    [render_postgres_migration_script] renders, and what running it does.

    A script is a list of sections; [render_section] is the text of each.  The
    effect of a section is the effect of its statements, and a script, which is
    one transaction, applies all of them or none. *)

From stdpp Require Import sorting list_numbers.
From S2P Require Import Prelude Models Canonical Registry StoreBase Sessions SqlText Migrations MigrationSafety.

#[local] Coercion Z.of_nat : nat >-> Z.

(** * The plan *)

(** One pending migration, rendered for a schema. *)
Record PostgresMigrationSQL := mkPostgresMigrationSQL {
  pm_version : Z;
  pm_filename : pystr;
  pm_checksum : pystr;
  pm_phase : MigrationPhase;
  pm_compatible_with_previous_runtime : bool;
  pm_requires_writer_quiescence : bool;
  pm_sql : pystr
}.

(** [{migration.version: migration for ...}[version]]. *)
Definition compatibility_of (version : Z) : option MigrationCompatibility :=
  find_last (λ c, (co_version c =? version)%Z) postgres_migration_compatibility.

Section Scripts.
Context `{F : PackagedFiles}.

Definition planned (quoted_schema : pystr) (m : Migration) : option PostgresMigrationSQL :=
  c ← compatibility_of (mg_version m);
  Some (mkPostgresMigrationSQL (mg_version m) (mg_filename m) (mg_checksum m) (co_phase c)
          (co_compatible_with_previous_runtime c) (co_requires_writer_quiescence c)
          (_render_migration_sql (mg_sql m) quoted_schema)).

Definition plan_postgres_migrations (schema : pystr) (pending_versions : option (list Z))
  : res (list PostgresMigrationSQL) :=
  quoted_schema ← quote_schema_name schema;
  let known := mg_version <$> _packaged_migrations in
  let selected := default known pending_versions in
  if negb (forallb (λ v, bool_decide (v ∈ known)) selected) then
    state_error "PostgreSQL migration plan contains an unknown version"
  else
    match mapM (planned quoted_schema)
            (List.filter (λ m, bool_decide (mg_version m ∈ selected)) _packaged_migrations) with
    | Some plan => Ok plan
    | None => fail (KeyErrorLike "KeyError")
    end.

(** * The sections of a script *)

Inductive section :=
  | Begin
  | SetLockTimeout
  | AdvisoryLock (schema : pystr)
  | CreateSchema (quoted_schema : pystr)
  | CreateLedger (quoted_schema : pystr)
  | AssertHistory (quoted_schema : pystr) (expected : list Migration) (from_version : Z)
  | DeclaredQuiesced
  | Heading (version : Z) (filename : pystr)
  | AssertNoRetired (quoted_schema : pystr)
  | Statements (m : PostgresMigrationSQL)
  | RecordVersion (quoted_schema : pystr) (m : PostgresMigrationSQL)
  | Commit.

Definition newline : pystr := PyStr [10%N].

Definition _render_postgres_history_assertion (quoted_schema : pystr) (expected : list Migration)
  (from_version : Z) : pystr :=
  let mismatch :=
    match expected with
    | [] => "EXISTS (SELECT 1 FROM " +:+ quoted_schema +:+ ".schema_migrations)"
    | _ =>
        let values := join ("," +:+ newline +:+ "        ")
          ((λ m, "(" +:+ str_int (mg_version m) +:+ ", " +:+ _quote_postgres_literal (mg_filename m) +:+ ", "
               +:+ _quote_postgres_literal (mg_checksum m) +:+ ")")%py <$> expected) in
        "EXISTS (
        SELECT 1
        FROM " +:+ quoted_schema +:+ ".schema_migrations AS actual
        FULL OUTER JOIN (
            VALUES
        " +:+ values +:+ "
        ) AS expected(version, filename, checksum) USING (version)
        WHERE actual.version IS NULL
           OR expected.version IS NULL
           OR actual.filename IS DISTINCT FROM expected.filename
           OR actual.checksum IS DISTINCT FROM expected.checksum
    )"
    end%py in
  let message := ("PostgreSQL migration history does not match expected version " +:+ str_int from_version)%py in
  ("DO $threvo_actions_history$
BEGIN
    IF " +:+ mismatch +:+ " THEN
        RAISE EXCEPTION " +:+ _quote_postgres_literal message +:+ " USING ERRCODE = '55000';
    END IF;
END;
$threvo_actions_history$;")%py.

Definition _render_postgres_retired_state_assertion (quoted_schema : pystr) : pystr :=
  let message := ("PostgreSQL schema contains retired lifecycle states; "
    +:+ "remediate them explicitly before retrying the forward migration")%py in
  ("DO $threvo_actions_lifecycle$
BEGIN
    IF EXISTS (
        SELECT 1 FROM " +:+ quoted_schema +:+ ".proposals
        WHERE lifecycle_status IN ('prepared', 'compensated')
    ) THEN
        RAISE EXCEPTION " +:+ _quote_postgres_literal message +:+ "
            USING ERRCODE = '55000';
    END IF;
END;
$threvo_actions_lifecycle$;")%py.

(** [str.rstrip], for [str.isspace]. *)
Fixpoint drop_spaces (space : N → bool) (l : list N) : list N :=
  match l with c :: l' => if space c then drop_spaces space l' else l | [] => [] end.
Definition rstrip `{Unicode} (s : pystr) : pystr := PyStr (rev (drop_spaces is_space (rev (code_points s)))).

Definition render_section `{Unicode} (s : section) : pystr :=
  match s with
  | Begin => "BEGIN;"
  | SetLockTimeout => "SET LOCAL lock_timeout = '30s';"
  | AdvisoryLock schema =>
      "SELECT pg_advisory_xact_lock(hashtextextended("
      +:+ _quote_postgres_literal ("threvo-actions:migrations:" +:+ schema) +:+ "::text, 0));"
  | CreateSchema quoted_schema => "CREATE SCHEMA IF NOT EXISTS " +:+ quoted_schema +:+ ";"
  | CreateLedger quoted_schema =>
      "CREATE TABLE IF NOT EXISTS " +:+ quoted_schema +:+ ".schema_migrations (
    version integer PRIMARY KEY CHECK (version > 0),
    filename text NOT NULL,
    checksum text NOT NULL CHECK (length(checksum) = 64),
    applied_at timestamptz NOT NULL DEFAULT now()
);"
  | AssertHistory quoted_schema expected from_version =>
      _render_postgres_history_assertion quoted_schema expected from_version
  | DeclaredQuiesced =>
      "-- Runtime and retention writers were declared quiesced when this script was rendered."
  | Heading version filename => "-- Migration " +:+ str_int version +:+ ": " +:+ filename
  | AssertNoRetired quoted_schema => _render_postgres_retired_state_assertion quoted_schema
  | Statements m => rstrip (pm_sql m)
  | RecordVersion quoted_schema m =>
      "INSERT INTO " +:+ quoted_schema +:+ ".schema_migrations " +:+ "(version, filename, checksum) "
      +:+ "VALUES (" +:+ str_int (pm_version m) +:+ ", " +:+ _quote_postgres_literal (pm_filename m) +:+ ", "
      +:+ _quote_postgres_literal (pm_checksum m) +:+ ");"
  | Commit => "COMMIT;"
  end%py.

Definition migration_sections (quoted_schema : pystr) (m : PostgresMigrationSQL) : list section :=
  Heading (pm_version m) (pm_filename m)
  :: (if bool_decide (pm_filename m ∈ ["004_active_lifecycle_guard.sql"; "005_operator_recovery.sql"]%py)
      then [AssertNoRetired quoted_schema] else [])
  ++ [Statements m; RecordVersion quoted_schema m].

(** The [sections] of [render_postgres_migration_script]. *)
Definition script_sections (schema : pystr) (from_version : Z) (writers_quiesced : bool) : res (list section) :=
  quoted_schema ← quote_schema_name schema;
  let migrations := _packaged_migrations in
  let latest_version := match rev migrations with m :: _ => mg_version m | [] => 0%Z end in
  if (from_version <? 0)%Z || (latest_version <? from_version)%Z then
    state_error "PostgreSQL migration script has an unknown from-version"
  else
    let applied_versions := seqZ 1 from_version in
    let pending_versions := List.filter (λ v, (from_version <? v)%Z) (mg_version <$> migrations) in
    let required := migrations_requiring_writer_quiescence postgres_migration_compatibility applied_versions
                      pending_versions in
    if (0 <? from_version)%Z && negb (bool_decide (length required = 0)) && negb writers_quiesced then
      state_error ("PostgreSQL migrations " +:+ join ", " (str_int ∘ co_version <$> required)
        +:+ " require stopped runtime and retention writers; "
        +:+ "retry with writers_quiesced=True after draining them")
    else
      plan ← plan_postgres_migrations schema (Some pending_versions);
      Ok ([Begin; SetLockTimeout; AdvisoryLock schema; CreateSchema quoted_schema; CreateLedger quoted_schema;
           AssertHistory quoted_schema (take (Z.to_nat from_version) migrations) from_version]
          ++ (if bool_decide (length required = 0) then [] else [DeclaredQuiesced])
          ++ flat_map (migration_sections quoted_schema) plan
          ++ [Commit]).

Definition render_postgres_migration_script `{Unicode} (schema : pystr) (from_version : Z) (writers_quiesced : bool)
  : res pystr :=
  sections ← script_sections schema from_version writers_quiesced;
  Ok (join (newline +:+ newline) (render_section <$> (sections : list section)) +:+ newline)%py.

(** * Running a script *)

Section Run.
Context {O : Type} `{V : SqlServer O}.

(** The FULL OUTER JOIN of the assertion finds a row that does not match. *)
Definition history_mismatch (expected : list Migration) (actual : list LedgerRow) : bool :=
  match expected with
  | [] => negb (bool_decide (length actual = 0))
  | _ =>
      existsb (λ a, negb (existsb (λ e, (mg_version e =? lr_version a)%Z
                      && bool_decide (lr_filename a = mg_filename e)
                      && bool_decide (lr_checksum a = mg_checksum e)) expected)) actual
      || existsb (λ e, negb (existsb (λ a, (mg_version e =? lr_version a)%Z) actual)) expected
  end.

Definition assertion_failed : exn_kind := OtherException "ObjectNotInPrerequisiteStateError".

Definition assert_no_retired (quoted_schema : pystr) : atomic O unit := λ o,
  (count ← count_retired quoted_schema o;
   match (count : cell) with
   | CellInt n => if (0 <? n)%Z then fail assertion_failed else Ok ()
   | _ => Ok ()
   end, o).

Definition run_section (contended : bool) (s : section) : atomic (database O) unit :=
  match s with
  | Begin | SetLockTimeout | DeclaredQuiesced | Heading _ _ | Commit => mret ()
  | AdvisoryLock _ =>
      atomic_lift (if contended then fail (OtherException "LockNotAvailableError") else Ok ())
  | CreateSchema quoted_schema => on_objects (create_schema quoted_schema)
  | CreateLedger _ => create_ledger
  | AssertHistory _ expected _ => λ db,
      (if history_mismatch expected (ledger_rows db) then fail assertion_failed else Ok (), db)
  | AssertNoRetired quoted_schema => on_objects (assert_no_retired quoted_schema)
  | Statements m => on_objects (execute_sql (pm_sql m))
  | RecordVersion _ m => insert_version (mkMigration (pm_version m) (pm_filename m) (pm_sql m) (pm_checksum m))
  end.

Fixpoint run_sections (contended : bool) (sections : list section) : atomic (database O) unit :=
  match sections with
  | [] => mret ()
  | s :: sections' => _ ← run_section contended s; run_sections contended sections'
  end.

Definition run_script (contended : bool) (sections : list section) : atomic (database O) unit :=
  transaction (run_sections contended sections).

(** * The script does what [migrate_postgres] does *)

Lemma run_sections_app contended l l' (db : database O) :
  run_sections contended (l ++ l') db = (_ ← run_sections contended l; run_sections contended l') db.
Proof.
  revert db. induction l as [|s l IH]; intros db; [done|]. cbn [app run_sections].
  rewrite atomic_bind_assoc. apply atomic_bind_ext. intros _ s'. apply IH.
Qed.

Lemma packaged_numbered : numbered _packaged_migrations.
Proof.
  split; [vm_compute; reflexivity|]. unfold _packaged_migrations, packaged. apply Forall_fmap.
  apply List.Forall_forall. intros c _. simpl. apply sha256_length.
Qed.

Lemma history_matches n (actual : list LedgerRow) :
  n ≤ 5 → history_mismatch (take n _packaged_migrations) actual = false → 
  ∀ m, actual = ledger_of _packaged_migrations m → m ≤ 5 → m = n.
Proof.
  intros Hn H m -> Hm.
  assert (∀ i j, i ≤ 5 → j ≤ 5 → history_mismatch (take i _packaged_migrations) (ledger_of _packaged_migrations j) = false →
    j = i) as Hx; [|by apply Hx].
  clear. intros i j Hi Hj.
  do 6 (destruct i as [|i]; [do 6 (destruct j as [|j]; [cbn; rewrite ?bool_decide_eq_true_2 by done; done || (intros; discriminate)|]); lia|]). lia.
Qed.

(** ** The plan of the pending versions *)

Definition plan_item (quoted_schema : pystr) (m : Migration) : PostgresMigrationSQL :=
  let c := default (expand 0 "") (compatibility_of (mg_version m)) in
  mkPostgresMigrationSQL (mg_version m) (mg_filename m) (mg_checksum m) (co_phase c)
    (co_compatible_with_previous_runtime c) (co_requires_writer_quiescence c)
    (_render_migration_sql (mg_sql m) quoted_schema).

Lemma planned_all quoted ms :
  Forall (λ m, is_Some (compatibility_of (mg_version m))) ms →
  mapM (planned quoted) ms = Some (plan_item quoted <$> ms).
Proof.
  induction 1 as [|m ms [c Hc] _ IH]; [done|]. cbn [mapM].
  assert (planned quoted m = Some (plan_item quoted m)) as -> by (unfold planned, plan_item; by rewrite Hc).
  cbn. by rewrite IH.
Qed.

Lemma pending_from n : n ≤ 5 →
  List.filter (λ v, (n <? v)%Z) (mg_version <$> _packaged_migrations) = seqZ (1 + n) (5 - n).
Proof. intros Hn. do 6 (destruct n as [|n]; [vm_compute; reflexivity|]). lia. Qed.

Lemma selected_from n : n ≤ 5 →
  List.filter (λ m, bool_decide (mg_version m ∈ seqZ (1 + n) (5 - n))) _packaged_migrations =
    drop n _packaged_migrations.
Proof. intros Hn. do 6 (destruct n as [|n]; [reflexivity|]). lia. Qed.

Lemma plan_from schema quoted n : quote_schema_name schema = Ok quoted → n ≤ 5 →
  plan_postgres_migrations schema (Some (seqZ (1 + n) (5 - n))) = Ok (plan_item quoted <$> drop n _packaged_migrations).
Proof.
  intros Hq Hn. unfold plan_postgres_migrations. rewrite Hq. cbn [mbind res_bind]. cbv zeta. cbn [from_option id].
  assert (forallb (λ v, bool_decide (v ∈ mg_version <$> _packaged_migrations)) (seqZ (1 + n) (5 - n)) = true) as ->.
  { do 6 (destruct n as [|n]; [vm_compute; reflexivity|]). lia. }
  cbn [negb]. rewrite selected_from, planned_all; [done| |done].
  apply Forall_drop. unfold _packaged_migrations, packaged. apply Forall_fmap.
  repeat constructor; eexists; vm_compute; reflexivity.
Qed.

(** ** One migration *)

Variables (schema quoted : pystr) (Hquoted : quote_schema_name schema = Ok quoted).

(** [SELECT count] answers an integer; the CHECK constraint that the fourth
    migration adds leaves no row in a retired state; and the catalog says who
    owns the proposals. *)
Hypothesis count_integer : ∀ o c, count_retired quoted o = Ok c → ∃ z, c = CellInt z.
Hypothesis guarded : ∀ m o o', m ∈ drop 3 _packaged_migrations →
  run_postgres_migration quoted m o = (Ok (), o') → count_retired quoted o' = Ok (CellInt 0).
Hypothesis catalog_complete : ∀ o, ∃ owner, _connected_role_owns_proposals schema o = (Ok owner, o).

(** The effect of one migration, in the script and in [migrate_postgres]. *)
Lemma section_of m (db : database O) :
  m ∈ _packaged_migrations →
  (mg_filename m = "004_active_lifecycle_guard.sql"%py ∨
   (mg_filename m = "005_operator_recovery.sql"%py ∧ count_retired quoted (db_objects db) = Ok (CellInt 0)) ∨
   mg_filename m ∉ ["004_active_lifecycle_guard.sql"; "005_operator_recovery.sql"]%py) →
  ∀ db', run_sections false (migration_sections quoted (plan_item quoted m)) db = (Ok (), db') ↔
    (_ ← on_objects (run_postgres_migration quoted m); insert_version m) db = (Ok (), db').
Proof.
  intros Hm Hc db'. unfold migration_sections.
  change (pm_filename (plan_item quoted m)) with (mg_filename m).
  unfold run_postgres_migration. set (sql := _render_migration_sql (mg_sql m) quoted).
  assert (∀ db1 : database O, run_sections false [Statements (plan_item quoted m); RecordVersion quoted (plan_item quoted m)] db1
    = (_ ← on_objects (execute_sql sql); insert_version m) db1) as Hrest.
  { intros db1. cbn [run_sections run_section]. apply atomic_bind_ext. intros [] s.
    unfold mbind, atomic_bind. change (insert_version _ s) with (insert_version m s).
    by destruct (insert_version m s) as [[[]|e] s1]. }
  generalize dependent [Statements (plan_item quoted m); RecordVersion quoted (plan_item quoted m)].
  intros rest Hrest. destruct Hc as [Hf|[[Hf Hz]|Hf]].
  - rewrite !bool_decide_eq_true_2 by (rewrite Hf; (done || left)). cbn [app run_sections run_section].
    unfold mbind, atomic_bind, on_objects, assert_no_retired, _assert_no_retired_lifecycle_states in *.
    cbn [mret atomic_ret]. destruct db as [l o]. cbn [db_objects db_ledger] in *.
    destruct (count_retired quoted o) as [c|e] eqn:E; [|done]. destruct (count_integer _ _ E) as [z ->].
    cbn [mbind res_bind]. destruct (0 <? z)%Z; [done|]. specialize (Hrest (mkDatabase l o)).
    cbn [db_objects db_ledger] in Hrest. rewrite Hrest. by destruct (execute_sql sql o) as [[[]|e] o'].
  - rewrite bool_decide_eq_true_2 by (rewrite Hf; right; left).
    rewrite bool_decide_eq_false_2 by (rewrite Hf; done). cbn [app run_sections run_section].
    unfold mbind, atomic_bind, on_objects, assert_no_retired in *.
    cbn [mret atomic_ret]. destruct db as [l o]. cbn [db_objects db_ledger] in *. rewrite Hz. cbn.
    specialize (Hrest (mkDatabase l o)). cbn [db_objects db_ledger] in Hrest. rewrite Hrest.
    by destruct (execute_sql sql o) as [[[]|e] o'].
  - rewrite bool_decide_eq_false_2 by done.
    rewrite bool_decide_eq_false_2 by (intros E; apply Hf; rewrite E; left). cbn [app].
    cbn [run_sections run_section]. unfold mbind, atomic_bind, on_objects in *. cbn [mret atomic_ret].
    rewrite Hrest.
    by destruct (execute_sql sql (db_objects db)) as [[[]|e] o'].
Qed.

Lemma atomic_bind_iff {A} (m : atomic A unit) (f : unit → atomic A unit) s s' :
  (m ≫= f) s = (Ok (), s') ↔ ∃ s1, m s = (Ok (), s1) ∧ f () s1 = (Ok (), s').
Proof.
  split; [intros ([] & s1 & H)%atomic_bind_Ok; by exists s1|]. intros (s1 & H & H1).
  unfold mbind, atomic_bind. by rewrite H.
Qed.

Lemma filename_of n m : _packaged_migrations !! n = Some m →
  (mg_filename m = "004_active_lifecycle_guard.sql"%py ∧ n = 3) ∨
  (mg_filename m = "005_operator_recovery.sql"%py ∧ n = 4) ∨
  (mg_filename m ∉ ["004_active_lifecycle_guard.sql"; "005_operator_recovery.sql"]%py ∧ n < 3).
Proof.
  intros H. destruct n as [|[|[|[|[|n]]]]]; [..|done]; injection H as <-; cbn [mg_filename];
    [right; right; split; [by vm_compute; intros X; elem_cases X|lia]..|by left|by right; left].
Qed.

Lemma sections_apply pending ms n (db : database O) :
  ms = drop n _packaged_migrations → Forall (λ m, mg_version m ∈ pending) ms →
  (n = 4 → count_retired quoted (db_objects db) = Ok (CellInt 0)) →
  ∀ db', run_sections false (flat_map (migration_sections quoted) (plan_item quoted <$> ms)) db = (Ok (), db') ↔
    apply_pending (run_postgres_migration quoted) pending ms db = (Ok (), db').
Proof.
  intros Hms Hp. revert n Hms db. induction Hp as [|m ms Hm _ IH]; intros n Hms db Hc db'; [done|].
  assert (_packaged_migrations !! n = Some m) as Hn by by rewrite <-(Nat.add_0_r n), <-lookup_drop, <-Hms.
  cbn [fmap list_fmap flat_map apply_pending]. rewrite bool_decide_eq_true_2, run_sections_app by done.
  assert (Hf := filename_of n m Hn).
  assert (∀ db1, run_sections false (migration_sections quoted (plan_item quoted m)) db = (Ok (), db1) ↔
    (_ ← on_objects (run_postgres_migration quoted m); insert_version m) db = (Ok (), db1)) as Hone.
  { apply section_of; [by eapply list_elem_of_lookup_2|]. destruct Hf as [[? _]|[[? ->]|[? _]]]; auto. }
  rewrite !atomic_bind_iff. apply exist_proper. intros db1. rewrite Hone.
  assert ((_ ← on_objects (run_postgres_migration quoted m); insert_version m) db = (Ok (), db1) →
    S n = 4 → count_retired quoted (db_objects db1) = Ok (CellInt 0)) as Hg.
  { intros H [= ->]. apply atomic_bind_Ok in H as ([] & db0 & H & H1). apply on_objects_Ok in H as [H _].
    apply insert_version_Ok in H1 as [_ ->]. eapply guarded; [|exact H]. rewrite <-Hms. left. }
  split; intros [H1 H2]; (split; [done|]); specialize (Hg H1);
    eapply (IH (S n)); [by rewrite <-Nat.add_1_r, <-drop_drop, <-Hms| |exact H2|by rewrite <-Nat.add_1_r, <-drop_drop, <-Hms| |exact H2]; done.
Qed.

Definition required_from (n : nat) : list MigrationCompatibility :=
  migrations_requiring_writer_quiescence postgres_migration_compatibility (seqZ 1 n) (seqZ (1 + n) (5 - n)).

(** What [script_sections] gives. *)
Lemma script_sections_Ok from_version quiesced sections :
  script_sections schema from_version quiesced = Ok sections →
  ∃ i : nat, i ≤ 5 ∧ from_version = i ∧ (required_from i = [] ∨ quiesced = true) ∧
    sections = [Begin; SetLockTimeout; AdvisoryLock schema; CreateSchema quoted; CreateLedger quoted;
                AssertHistory quoted (take i _packaged_migrations) from_version]
      ++ (if bool_decide (length (required_from i) = 0) then [] else [DeclaredQuiesced])
      ++ flat_map (migration_sections quoted) (plan_item quoted <$> drop i _packaged_migrations) ++ [Commit].
Proof.
  unfold script_sections. rewrite Hquoted. cbn [mbind res_bind]. cbv zeta.
  change (match rev _packaged_migrations with [] => 0%Z | m :: _ => mg_version m end) with 5%Z.
  split_if; [done|]. to_prop. intros Hs.
  assert (∃ i : nat, from_version = i ∧ i ≤ 5) as (i & -> & Hi) by (exists (Z.to_nat from_version); lia).
  rewrite pending_from in Hs by done. fold (required_from i) in Hs. rewrite Nat2Z.id in Hs.
  destruct ((0 <? i)%Z && negb (bool_decide (length (required_from i) = 0)) && negb quiesced) eqn:Hif0; [done|].
  rewrite (plan_from schema quoted i Hquoted Hi) in Hs. cbn [mbind res_bind] in Hs.
  injection Hs as <-. exists i. split_and!; [done|done| |done].
  destruct quiesced; [by right|left]. rewrite andb_true_r in Hif0. destruct i as [|i]; [done|].
  rewrite (proj2 (Z.ltb_lt _ _)) in Hif0 by lia. cbn [andb] in Hif0. apply negb_false_iff, bool_decide_eq_true in Hif0.
  by apply length_zero_iff_nil.
Qed.

Lemma quiescence_from (n : nat) quiesced :
  require_quiescence postgres_migration_compatibility (mkMigrationStatus (seqZ 1 n) (seqZ (1 + n) (5 - n)) None) quiesced
    = Ok () ↔ required_from n = [] ∨ quiesced = true.
Proof.
  unfold require_quiescence. cbn [applied_versions pending_versions]. fold (required_from n).
  destruct quiesced; [rewrite andb_false_r; split; auto|]. rewrite andb_true_r.
  destruct (required_from n); split; auto; [done|intros [|]; done].
Qed.

(** What [migrate_postgres] comes to, from a ledger of the first [n] migrations. *)
Lemma migrate_postgres_iff (n : nat) contended quiesced (db db' : database O) :
  n ≤ 5 → ledger_rows db = ledger_of _packaged_migrations n →
  (∃ status, migrate_postgres schema (seconds 30) contended quiesced db = (Ok status, db')) ↔
  contended = false ∧ create_schema_refused quoted (db_objects db) = None ∧
  (required_from n = [] ∨ quiesced = true) ∧
  apply_pending (run_postgres_migration quoted) (seqZ (1 + n) (5 - n)) (drop n _packaged_migrations)
    (mkDatabase (Some (ledger_of _packaged_migrations n)) (db_objects db)) = (Ok (), db').
Proof.
  intros Hn Hl. unfold migrate_postgres, migrate_release.
  assert (_timeout_milliseconds (seconds 30) = Ok 30000%Z) as -> by (vm_compute; reflexivity).
  rewrite Hquoted. unfold mbind at 1 2, atomic_bind at 1 2, atomic_lift at 1 2. cbv beta iota.
  assert (∀ m : atomic (database O) MigrationStatus, (∃ s, transaction m db = (Ok s, db')) ↔ ∃ s, m db = (Ok s, db')) as ->.
  { intros m. unfold transaction. split; intros [s H]; exists s; destruct (m db) as [[b|e] s1]; done. }
  unfold migrate_body, mbind, atomic_bind, atomic_lift, on_objects, create_schema.
  destruct contended; [split; [intros [s H]; done|intros [? _]; done]|].
  destruct (create_schema_refused quoted (db_objects db)) as [e|]; [split; [intros [s H]; done|intros (_ & ? & _); done]|].
  cbn [refuse_if]. assert (mkDatabase (db_ledger db) (db_objects db) = db) as -> by by destruct db.
  assert (E := bring_up_eq _packaged_migrations packaged_numbered (run_postgres_migration quoted)
    postgres_migration_compatibility quiesced n 5 db Hl Hn ltac:(vm_compute; lia)).
  change (take 5 _packaged_migrations) with _packaged_migrations in E. rewrite E.
  unfold mbind, atomic_bind, atomic_lift.
  destruct (require_quiescence _ _ quiesced) as [[]|e] eqn:Eq.
  - apply quiescence_from in Eq. destruct (apply_pending _ _ _ _) as [[[]|e] db1].
    + destruct (catalog_complete (db_objects db1)) as [owner Ho]. rewrite Ho.
      assert (mkDatabase (db_ledger db1) (db_objects db1) = db1) as -> by by destruct db1.
      split; [intros [s [= _ <-]]; done|]. intros (_ & _ & _ & [= <-]). by eexists.
    + split; [intros [s H]; done|intros (_ & _ & _ & H); done].
  - split; [intros [s H]; done|]. intros (_ & _ & H & _). apply quiescence_from in H.
    change (Z.of_nat 5) with 5%Z in Eq. by rewrite H in Eq.
Qed.

Lemma own_history n : n ≤ 5 →
  history_mismatch (take n _packaged_migrations) (ledger_of _packaged_migrations n) = false.
Proof.
  intros Hn. do 6 (destruct n as [|n]; [cbn; rewrite ?bool_decide_eq_true_2 by done; done|]). lia.
Qed.

(** C40: an offline script does what the online migration does. Rendered for the
    version the database has, it ends well exactly when [migrate_postgres], with
    the same declaration about writers, would, and with the same schema and
    ledger; rendered for another version, or refused anywhere on its way, it
    changes nothing.  Supposed of the schema ([guarded], [Hguard]): once migration 004 has
    run, its constraint leaves no row in a retired state, so that the count the online
    migration makes before 005 and the script does not is zero. *)
Theorem offline_script_equivalent (from_version : Z) (contended quiesced : bool) (sections : list section)
  (n : nat) (db db' : database O)
  (Hsections : script_sections schema from_version quiesced = Ok sections)
  (Hn : n ≤ 5) (Hl : ledger_rows db = ledger_of _packaged_migrations n)
  (Hguard : n = 4 → count_retired quoted (db_objects db) = Ok (CellInt 0)) :
  (run_script contended sections db = (Ok (), db') ↔
   from_version = n ∧ ∃ status, migrate_postgres schema (seconds 30) contended quiesced db = (Ok status, db')) ∧
  ∀ e db2, run_script contended sections db = (Err e, db2) → db2 = db.
Proof.
  split; [|intros e db2; apply transaction_Err].
  apply script_sections_Ok in Hsections as (i & Hi & -> & Hq & ->).
  rewrite migrate_postgres_iff by done.
  assert (∀ m : atomic (database O) unit, transaction m db = (Ok (), db') ↔ m db = (Ok (), db')) as Ht.
  { intros m. unfold transaction. destruct (m db) as [[b|e] s1]; done. }
  unfold run_script. rewrite Ht. cbn [app run_sections run_section]. rewrite !app_assoc.
  unfold mbind, atomic_bind, atomic_lift, on_objects, create_schema, create_ledger. cbn [mret atomic_ret].
  destruct contended; [split; [done|intros (_ & ? & _); done]|].
  destruct (create_schema_refused quoted (db_objects db)) as [e|]; [split; [done|intros (_ & _ & ? & _); done]|].
  cbn [refuse_if db_ledger db_objects].
  assert (ledger_rows (mkDatabase (db_ledger db) (db_objects db)) = ledger_of _packaged_migrations n) as -> by exact Hl.
  change (ledger_rows (mkDatabase (Some ?l) _)) with l.
  set (db0 := mkDatabase (Some (ledger_of _packaged_migrations n)) (db_objects db)).
  assert (∀ l (s : database O), run_sections false (l ++ [Commit]) s = (Ok (), db') ↔ run_sections false l s = (Ok (), db'))
    as Hcommit.
  { intros l s. rewrite run_sections_app, atomic_bind_iff. cbn [run_sections run_section].
    split; [intros (s1 & H & [= ->]); done|]. intros H. by exists db'. }
  assert (∀ l (s : database O), run_sections false ((if bool_decide (length (required_from i) = 0) then []
    else [DeclaredQuiesced]) ++ l) s = run_sections false l s) as Hdeclared by (intros l s; by case_bool_decide).
  destruct (history_mismatch _ _) eqn:Em.
  - split; [done|]. intros (->%Nat2Z.inj & _). by rewrite own_history in Em.
  - assert (i = n) as -> by (symmetry; by eapply history_matches). rewrite Hcommit, Hdeclared.
    rewrite (sections_apply (seqZ (1 + n) (5 - n)) _ n db0 eq_refl); [|by apply (dropped_pending _ packaged_numbered n 5)|done].
    intuition.
Qed.


End Run.
End Scripts.
