(* ===== verification/Readiness.v ===== *)
(** Startup readiness ([readiness.py], [store_security.py] and the readiness and
    grants of [migrations.py] and [mysql_migrations.py]).

    The privileges of a PostgreSQL schema are what PUBLIC and each role were
    granted on the schema, its tables, their columns and its functions; a role
    has what it was granted and what PUBLIC was.  A grants script is a list of
    statements, each with its text and its effect. *)

From S2P Require Import Prelude Models Canonical Registry StoreBase Sessions SqlText Migrations MigrationSafety MigrationScripts.

Lemma unless_nil `{Decision P} {A} (x : A) : (if bool_decide P then [] else [x]) = [] → P.
Proof. by case_bool_decide. Qed.

Inductive DatabaseAdapter := POSTGRESQL | MYSQL | SQLITE.
Inductive DatabaseAccessLane := RUNTIME | RETENTION.

Record DatabaseReadiness := mkDatabaseReadiness {
  dr_adapter : DatabaseAdapter;
  dr_lane : DatabaseAccessLane;
  dr_applied_versions : list Z;
  dr_pending_versions : list Z;
  dr_schema_current : bool;
  dr_privilege_boundary_valid : bool;
  dr_issues : list pystr
}.

Definition ready (d : DatabaseReadiness) : bool :=
  dr_schema_current d && dr_privilege_boundary_valid d && bool_decide (dr_issues d = []).

(** * Security profiles ([store_security.py]) *)

Inductive StoreSupportTier := PRODUCTION_ORIENTED_OFFICIAL | BOUNDED_USE_OFFICIAL.
Inductive StoreWriterTopology := MULTI_PROCESS | BOUNDED_SINGLE_WRITER.
Inductive StorePrivilegeBoundary := DATABASE_ROLES | PROCESS_ONLY.
Inductive StoreGuarantee :=
  | LIFECYCLE_TRANSITIONS | ATOMIC_EFFECT_ADMISSION | APPEND_ONLY_EVIDENCE | ROLE_SEPARATED_ERASURE.
Inductive StoreGuaranteeLevel := DATABASE_ENGINE | ADAPTER_PROCESS | UNSUPPORTED.

Record StoreGuaranteeEnforcement := mkStoreGuaranteeEnforcement {
  sge_guarantee : StoreGuarantee;
  sge_level : StoreGuaranteeLevel
}.

Record StoreSecurityProfile := mkStoreSecurityProfile {
  sp_identifier : pystr;
  sp_adapter : DatabaseAdapter;
  sp_support_tier : StoreSupportTier;
  sp_writer_topology : StoreWriterTopology;
  sp_privilege_boundary : StorePrivilegeBoundary;
  sp_guarantee_enforcement : list StoreGuaranteeEnforcement;
  sp_qualification_targets : list pystr;
  sp_independent_connection_conformance : bool;
  sp_requires_host_protected_private_state : bool;
  sp_adapter_manages_at_rest_encryption : bool;
  sp_adapter_authenticates_evidence_issuers : bool;
  sp_adapter_erases_external_copies : bool;
  sp_limitations : list pystr
}.

Definition _DATABASE_ENGINE_GUARANTEES : list StoreGuaranteeEnforcement :=
  (λ g, mkStoreGuaranteeEnforcement g DATABASE_ENGINE) <$>
    [LIFECYCLE_TRANSITIONS; ATOMIC_EFFECT_ADMISSION; APPEND_ONLY_EVIDENCE; ROLE_SEPARATED_ERASURE].

Definition POSTGRESQL_STORE_SECURITY_PROFILE : StoreSecurityProfile :=
  mkStoreSecurityProfile "postgresql/v1" POSTGRESQL PRODUCTION_ORIENTED_OFFICIAL MULTI_PROCESS DATABASE_ROLES
    _DATABASE_ENGINE_GUARANTEES ["PostgreSQL 15"; "PostgreSQL 16"]%py true true false false false
    ["logical erasure does not erase WAL, replicas, snapshots, exports, or backups";
     "target-side idempotency and authoritative verification remain host responsibilities"]%py.

Definition MYSQL_STORE_SECURITY_PROFILE : StoreSecurityProfile :=
  mkStoreSecurityProfile "mysql/v1" MYSQL PRODUCTION_ORIENTED_OFFICIAL MULTI_PROCESS DATABASE_ROLES
    _DATABASE_ENGINE_GUARANTEES ["MySQL 8.0"; "MySQL 8.4"]%py true true false false false
    ["logical erasure does not erase binary logs, undo history, replicas, exports, or backups";
     "MariaDB and MySQL 5.7 are outside the official profile"]%py.

Definition SQLITE_STORE_SECURITY_PROFILE : StoreSecurityProfile :=
  mkStoreSecurityProfile "sqlite/v1" SQLITE BOUNDED_USE_OFFICIAL BOUNDED_SINGLE_WRITER PROCESS_ONLY
    [mkStoreGuaranteeEnforcement LIFECYCLE_TRANSITIONS DATABASE_ENGINE;
     mkStoreGuaranteeEnforcement ATOMIC_EFFECT_ADMISSION DATABASE_ENGINE;
     mkStoreGuaranteeEnforcement APPEND_ONLY_EVIDENCE ADAPTER_PROCESS;
     mkStoreGuaranteeEnforcement ROLE_SEPARATED_ERASURE UNSUPPORTED]
    ["CPython sqlite3 on Python 3.11-3.13"]%py true true false false false
    ["no database-role separation between runtime and retention";
     "logical erasure does not erase free pages, journals, WAL files, snapshots, or backups";
     "not qualified for general multi-worker financial production use"]%py.

Definition official_store_security_profiles : list StoreSecurityProfile :=
  [POSTGRESQL_STORE_SECURITY_PROFILE; MYSQL_STORE_SECURITY_PROFILE; SQLITE_STORE_SECURITY_PROFILE].

(** * Privileges of a PostgreSQL schema *)

Inductive privilege := SELECT | INSERT | UPDATE | DELETE | TRUNCATE | REFERENCES | TRIGGER.
Inductive table := MigrationLedger | Proposals | Evidence | Receipts | EffectClaims.
Inductive function := TransferClaim | MarkErasure | CompleteErasure.
Inductive schema_privilege := USAGE | CREATE.

(** One thing that can be granted. *)
Inductive grant :=
  | OnSchema (p : schema_privilege)
  | OnTable (t : table) (p : privilege)
  | OnColumn (t : table) (column : pystr) (p : privilege)
  | OnFunction (f : function).

#[export] Instance privilege_eq_dec : EqDecision privilege.
Proof. solve_decision. Defined.
#[export] Instance table_eq_dec : EqDecision table.
Proof. solve_decision. Defined.
#[export] Instance function_eq_dec : EqDecision function.
Proof. solve_decision. Defined.
#[export] Instance schema_privilege_eq_dec : EqDecision schema_privilege.
Proof. solve_decision. Defined.
#[export] Instance grant_eq_dec : EqDecision grant.
Proof. solve_decision. Defined.
#[export] Instance lane_eq_dec : EqDecision DatabaseAccessLane.
Proof. solve_decision. Defined.

Record privileges := mkPrivileges { public_grants : list grant; role_grants : gmap pystr (list grant) }.

Definition granted_to (p : privileges) (role : pystr) (g : grant) : bool :=
  bool_decide (g ∈ default [] (role_grants p !! role)) || bool_decide (g ∈ public_grants p).

(** [has_schema_privilege], [has_table_privilege], [has_column_privilege] and
    [has_function_privilege] of the current user; a privilege on a table is one on
    all its columns. *)
Definition has_privilege (p : privileges) (role : pystr) (g : grant) : bool :=
  match g with
  | OnColumn t _ q => granted_to p role g || granted_to p role (OnTable t q)
  | _ => granted_to p role g
  end.

(** ** Names *)

Definition privilege_name (p : privilege) : pystr :=
  match p with
  | SELECT => "SELECT" | INSERT => "INSERT" | UPDATE => "UPDATE" | DELETE => "DELETE"
  | TRUNCATE => "TRUNCATE" | REFERENCES => "REFERENCES" | TRIGGER => "TRIGGER"
  end.
Definition privilege_lower (p : privilege) : pystr :=
  match p with
  | SELECT => "select" | INSERT => "insert" | UPDATE => "update" | DELETE => "delete"
  | TRUNCATE => "truncate" | REFERENCES => "references" | TRIGGER => "trigger"
  end.
Definition table_name (t : table) : pystr :=
  match t with
  | MigrationLedger => "schema_migrations" | Proposals => "proposals" | Evidence => "authority_evidence"
  | Receipts => "receipts" | EffectClaims => "effect_claims"
  end.
(** The keys of [table_names]. *)
Definition table_label (t : table) : pystr :=
  match t with
  | MigrationLedger => "migration-ledger" | Proposals => "proposal" | Evidence => "evidence"
  | Receipts => "receipt" | EffectClaims => "effect-claim"
  end.
Definition function_name (f : function) : pystr :=
  match f with
  | TransferClaim => "transfer_failed_known_effect_claim" | MarkErasure => "mark_erasure_pending"
  | CompleteErasure => "complete_erasure"
  end.
Definition function_arguments (f : function) : pystr :=
  match f with
  | TransferClaim => "text, text, text, integer, text, text, text, timestamptz"
  | MarkErasure | CompleteErasure => "text, text, bigint, timestamptz"
  end.

Definition tables : list table := [MigrationLedger; Proposals; Evidence; Receipts; EffectClaims].
Definition table_privileges : list privilege := [SELECT; INSERT; UPDATE; DELETE; TRUNCATE; REFERENCES; TRIGGER].
Definition proposal_columns : list pystr :=
  ["tenant_reference"; "proposal_reference"; "action_namespace"; "action_name"; "action_version";
   "semantic_effect_reference"; "effect_kind"; "lifecycle_status"; "revision"; "commitment_digest"; "created_at";
   "expires_at"; "status_changed_at"; "next_verification_at"; "proposal_data"]%py.
Definition updated_columns : list pystr :=
  ["lifecycle_status"; "revision"; "expires_at"; "status_changed_at"; "next_verification_at"; "proposal_data"]%py.

(** ** The checks *)

Definition allowed_tables (lane : DatabaseAccessLane) (t : table) : list privilege :=
  match lane, t with
  | _, MigrationLedger => [SELECT]
  | RUNTIME, _ => [SELECT; INSERT]
  | RETENTION, EffectClaims => []
  | RETENTION, _ => [SELECT]
  end.

Definition allowed_proposal_updates (lane : DatabaseAccessLane) : list pystr :=
  match lane with RUNTIME => updated_columns | RETENTION => [] end.

(** A check: what is reported if the answer is not the expected one. *)
Record privilege_check := mkPrivilegeCheck { pc_description : pystr; pc_expected : bool; pc_query : grant }.

Definition table_check (lane : DatabaseAccessLane) (t : table) (p : privilege) : privilege_check :=
  let expected := bool_decide (p ∈ allowed_tables lane t) in
  mkPrivilegeCheck
    (if expected then "missing " +:+ table_label t +:+ " " +:+ privilege_lower p +:+ " privilege"
     else table_label t +:+ " " +:+ privilege_lower p +:+ " privilege must be absent")%py
    expected (OnTable t p).

Definition column_check (lane : DatabaseAccessLane) (column : pystr) : privilege_check :=
  let expected := bool_decide (column ∈ allowed_proposal_updates lane) in
  mkPrivilegeCheck
    (if expected then "missing proposal update privilege for " +:+ column
     else "proposal update privilege for " +:+ column +:+ " must be absent")%py
    expected (OnColumn Proposals column UPDATE).

Definition function_checks (lane : DatabaseAccessLane) : list privilege_check :=
  match lane with
  | RUNTIME =>
      [mkPrivilegeCheck "missing claim-transfer privilege" true (OnFunction TransferClaim);
       mkPrivilegeCheck "runtime must not execute retention erasure" false (OnFunction MarkErasure);
       mkPrivilegeCheck "runtime must not complete retention erasure" false (OnFunction CompleteErasure)]
  | RETENTION =>
      [mkPrivilegeCheck "retention must not transfer claims" false (OnFunction TransferClaim);
       mkPrivilegeCheck "missing mark-erasure privilege" true (OnFunction MarkErasure);
       mkPrivilegeCheck "missing complete-erasure privilege" true (OnFunction CompleteErasure)]
  end.

Definition _postgres_privilege_checks (lane : DatabaseAccessLane) : list privilege_check :=
  [mkPrivilegeCheck "missing schema usage privilege" true (OnSchema USAGE);
   mkPrivilegeCheck "schema create privilege must be absent" false (OnSchema CREATE)]
  ++ flat_map (λ t, table_check lane t <$> table_privileges) tables
  ++ (column_check lane <$> proposal_columns)
  ++ function_checks lane.

(** The descriptions of the checks that fail, in order. *)
Definition privilege_issues (answer : grant → bool) (lane : DatabaseAccessLane) : list pystr :=
  pc_description <$> List.filter (λ c, negb (Bool.eqb (answer (pc_query c)) (pc_expected c)))
    (_postgres_privilege_checks lane).

(** [check_postgres_readiness], for what [inspect_postgres] ends in and what the
    privilege queries answer. *)
Definition check_postgres_readiness (inspected : res MigrationStatus) (insufficient_privilege : exn → bool)
  (answer : grant → bool) (lane : DatabaseAccessLane) : res DatabaseReadiness :=
  match inspected with
  | Err exc =>
      if insufficient_privilege exc then
        Ok (mkDatabaseReadiness POSTGRESQL lane [] [] false false
              ["migration ledger is not readable by the connected role"%py])
      else Err exc
  | Ok status =>
      let issues :=
        (if bool_decide (pending_versions status = []) then [] else ["database migrations are pending"%py])
        ++ (if bool_decide (connected_role_owns_proposals status = Some false) then []
            else ["connected role must not own proposal tables"%py]) in
      if negb (bool_decide (issues = [])) then
        Ok (mkDatabaseReadiness POSTGRESQL lane (applied_versions status) (pending_versions status)
              (bool_decide (pending_versions status = [])) false issues)
      else
        let issues := privilege_issues answer lane in
        Ok (mkDatabaseReadiness POSTGRESQL lane (applied_versions status) (pending_versions status) true
              (bool_decide (issues = [])) issues)
  end.

(** * The grants script *)

Inductive grant_statement :=
  | RevokeAllPublic (what : pystr)
  | GrantSchemaUsage (roles : list pystr)
  | GrantLedgerSelect (roles : list pystr)
  | GrantTables (ps : list privilege) (ts : list table) (role : pystr)
  | GrantUpdateColumns (columns : list pystr) (role : pystr)
  | GrantExecute (f : function) (role : pystr)
  | BlankLine.

Definition indented (lines : list pystr) : pystr :=
  join ("," +:+ newline)%py ((λ l, "    " +:+ l)%py <$> lines).

Definition render_grant_statement (quoted_schema : pystr) (s : grant_statement) : pystr :=
  match s with
  | RevokeAllPublic what => "REVOKE ALL ON " +:+ what +:+ "SCHEMA " +:+ quoted_schema +:+ " FROM PUBLIC;"
  | GrantSchemaUsage roles => "GRANT USAGE ON SCHEMA " +:+ quoted_schema +:+ " TO " +:+ join ", " roles +:+ ";"
  | GrantLedgerSelect roles =>
      "GRANT SELECT ON " +:+ quoted_schema +:+ ".schema_migrations TO " +:+ join ", " roles +:+ ";"
  | GrantTables ps ts role =>
      "GRANT " +:+ join ", " (privilege_name <$> ps) +:+ " ON" +:+ newline
      +:+ indented ((λ t, quoted_schema +:+ "." +:+ table_name t) <$> ts) +:+ newline +:+ "TO " +:+ role +:+ ";"
  | GrantUpdateColumns columns role =>
      "GRANT UPDATE (" +:+ newline +:+ indented columns +:+ newline +:+ ") ON " +:+ quoted_schema
      +:+ ".proposals TO " +:+ role +:+ ";"
  | GrantExecute f role =>
      "GRANT EXECUTE ON FUNCTION " +:+ quoted_schema +:+ "." +:+ function_name f +:+ "(" +:+ newline
      +:+ "    " +:+ function_arguments f +:+ newline +:+ ") TO " +:+ role +:+ ";"
  | BlankLine => PyStr []
  end%py.

Definition grant_script (runtime retention : pystr) : list grant_statement :=
  [RevokeAllPublic (PyStr []); RevokeAllPublic "ALL TABLES IN "; RevokeAllPublic "ALL FUNCTIONS IN "; BlankLine;
   GrantSchemaUsage [runtime; retention]; GrantLedgerSelect [runtime; retention]; BlankLine;
   GrantTables [SELECT; INSERT] [Proposals; Evidence; Receipts; EffectClaims] runtime;
   GrantUpdateColumns updated_columns runtime; GrantExecute TransferClaim runtime; BlankLine;
   GrantTables [SELECT] [Proposals; Evidence; Receipts] retention;
   GrantExecute MarkErasure retention; GrantExecute CompleteErasure retention].

Definition render_postgres_grants (schema runtime_role retention_role : pystr) : res pystr :=
  quoted_schema ← quote_schema_name schema;
  runtime ← _quote_postgres_role runtime_role;
  retention ← _quote_postgres_role retention_role;
  if bool_decide (runtime = retention) then
    fail (ValueErrorLike "PostgreSQL runtime and retention roles must be distinct")
  else
    Ok (join newline (render_grant_statement quoted_schema <$> grant_script runtime retention) +:+ newline)%py.

(** ** Its effect *)

Definition grant_all (gs : list grant) (roles : list pystr) (p : privileges) : privileges :=
  foldl (λ p role, mkPrivileges (public_grants p)
           (<[role := default [] (role_grants p !! role) ++ gs]> (role_grants p))) p roles.

(** Which of PUBLIC's privileges a REVOKE names. *)
Definition on_schema (g : grant) : bool := match g with OnSchema _ => true | _ => false end.
Definition on_tables (g : grant) : bool := match g with OnTable _ _ | OnColumn _ _ _ => true | _ => false end.
Definition on_functions (g : grant) : bool := match g with OnFunction _ => true | _ => false end.

Definition revoked (what : pystr) : grant → bool :=
  if bool_decide (what = PyStr []) then on_schema
  else if bool_decide (what = "ALL TABLES IN "%py) then on_tables else on_functions.

(** Roles are named as they are quoted. *)
Definition run_grant_statement (p : privileges) (s : grant_statement) : privileges :=
  match s with
  | RevokeAllPublic what =>
      mkPrivileges (List.filter (λ g, negb (revoked what g)) (public_grants p)) (role_grants p)
  | GrantSchemaUsage roles => grant_all [OnSchema USAGE] roles p
  | GrantLedgerSelect roles => grant_all [OnTable MigrationLedger SELECT] roles p
  | GrantTables ps ts role => grant_all (flat_map (λ t, OnTable t <$> ps) ts) [role] p
  | GrantUpdateColumns columns role => grant_all ((λ c, OnColumn Proposals c UPDATE) <$> columns) [role] p
  | GrantExecute f role => grant_all [OnFunction f] [role] p
  | BlankLine => p
  end.

Definition run_grants (runtime retention : pystr) (p : privileges) : privileges :=
  foldl run_grant_statement p (grant_script runtime retention).

Lemma public_after runtime retention p : public_grants (run_grants runtime retention p) = [].
Proof.
  unfold run_grants, grant_script. cbn [foldl run_grant_statement grant_all public_grants].
  induction (public_grants p) as [|g l IH]; [done|]. destruct g; exact IH.
Qed.

Definition runtime_grants : list grant :=
  [OnSchema USAGE; OnTable MigrationLedger SELECT]
  ++ flat_map (λ t, OnTable t <$> [SELECT; INSERT]) [Proposals; Evidence; Receipts; EffectClaims]
  ++ ((λ c, OnColumn Proposals c UPDATE) <$> updated_columns) ++ [OnFunction TransferClaim].

Definition retention_grants : list grant :=
  [OnSchema USAGE; OnTable MigrationLedger SELECT]
  ++ flat_map (λ t, OnTable t <$> [SELECT]) [Proposals; Evidence; Receipts]
  ++ [OnFunction MarkErasure; OnFunction CompleteErasure].

Definition lane_grants (lane : DatabaseAccessLane) : list grant :=
  match lane with RUNTIME => runtime_grants | RETENTION => retention_grants end.
Definition lane_role (runtime retention : pystr) (lane : DatabaseAccessLane) : pystr :=
  match lane with RUNTIME => runtime | RETENTION => retention end.

Definition grants_of (p : privileges) (role : pystr) : list grant := default [] (role_grants p !! role).

Lemma grants_of_one gs role' p role :
  grants_of (grant_all gs [role'] p) role = grants_of p role ++ (if bool_decide (role = role') then gs else []).
Proof.
  unfold grants_of, grant_all. cbn [foldl role_grants]. case_bool_decide as Hr.
  - subst. by rewrite lookup_insert_eq.
  - by rewrite lookup_insert_ne, app_nil_r by congruence.
Qed.

Lemma grants_of_two gs role1 role2 p role :
  grants_of (grant_all gs [role1; role2] p) role =
    (grants_of p role ++ (if bool_decide (role = role1) then gs else []))
      ++ (if bool_decide (role = role2) then gs else []).
Proof. rewrite <-!grants_of_one. done. Qed.

Lemma grants_of_revoke what p role : grants_of (run_grant_statement p (RevokeAllPublic what)) role = grants_of p role.
Proof. done. Qed.

Lemma grants_after runtime retention p lane :
  runtime ≠ retention → grants_of p (lane_role runtime retention lane) = [] →
  grants_of (run_grants runtime retention p) (lane_role runtime retention lane) = lane_grants lane.
Proof.
  intros Hd Hr. unfold run_grants, grant_script. cbn [foldl run_grant_statement].
  rewrite !grants_of_one, !grants_of_two. unfold grants_of at 1. cbn [role_grants]. fold (grants_of p (lane_role runtime retention lane)).
  rewrite Hr. destruct lane; cbn [lane_role].
  - rewrite !(bool_decide_eq_true_2 (runtime = runtime)), !(bool_decide_eq_false_2 (runtime = retention)) by done.
    reflexivity.
  - rewrite !(bool_decide_eq_true_2 (retention = retention)), !(bool_decide_eq_false_2 (retention = runtime)) by done.
    reflexivity.
Qed.

(** What a role has of a schema where it was granted [gs] and PUBLIC nothing. *)
Definition has_of (gs : list grant) (g : grant) : bool :=
  match g with
  | OnColumn t _ q => bool_decide (g ∈ gs) || bool_decide (OnTable t q ∈ gs)
  | _ => bool_decide (g ∈ gs)
  end.

Lemma has_privilege_of p role g :
  public_grants p = [] → has_privilege p role g = has_of (grants_of p role) g.
Proof.
  intros Hp. unfold has_privilege, has_of, granted_to. rewrite Hp. fold (grants_of p role).
  assert (∀ x : grant, bool_decide (x ∈ []) = false) as E by (intros x; by apply bool_decide_eq_false_2, not_elem_of_nil).
  destruct g; rewrite ?E, ?orb_false_r; done.
Qed.

Lemma privilege_issues_ext answer answer' lane :
  (∀ g, answer g = answer' g) → privilege_issues answer lane = privilege_issues answer' lane.
Proof. intros H. unfold privilege_issues. f_equal. apply List.filter_ext. intros c. by rewrite H. Qed.

(** No issue: every query is answered as expected. *)
Lemma no_issues answer lane :
  privilege_issues answer lane = [] ↔
  ∀ c, c ∈ _postgres_privilege_checks lane → answer (pc_query c) = pc_expected c.
Proof.
  unfold privilege_issues. split.
  - intros H%fmap_nil_inv c Hc%list_elem_of_In. destruct (Bool.eqb (answer (pc_query c)) (pc_expected c)) eqn:E; [by apply eqb_prop|].
    assert (List.In c []) as []. rewrite <-H. apply List.filter_In. by rewrite E.
  - intros H. induction (_postgres_privilege_checks lane) as [|c l IH]; [done|]. cbn [List.filter].
    rewrite (H c) by left. rewrite Bool.eqb_reflx. apply IH. intros c' Hc'. apply H. by right.
Qed.

(** The checks, one for each privilege that matters. *)
Definition checked (g : grant) : Prop :=
  match g with
  | OnSchema _ | OnTable _ _ | OnFunction _ => True
  | OnColumn t c q => t = Proposals ∧ c ∈ proposal_columns ∧ q = UPDATE
  end.

Lemma checks_cover lane g : checked g → ∃ c, c ∈ _postgres_privilege_checks lane ∧ pc_query c = g ∧
  pc_expected c = has_of (lane_grants lane) g.
Proof.
  intros Hg.
  assert (existsb (λ c, bool_decide (pc_query c = g) && Bool.eqb (pc_expected c) (has_of (lane_grants lane) g))
    (_postgres_privilege_checks lane) = true) as H.
  { destruct g as [s|t q|t column q|f].
    - destruct lane, s; vm_compute; reflexivity.
    - destruct lane, t, q; vm_compute; reflexivity.
    - destruct Hg as (-> & Hcol & ->). apply list_elem_of_In in Hcol.
      destruct lane; simpl in Hcol; destruct_or? Hcol; subst; try done; vm_compute; reflexivity.
    - destruct lane, f; vm_compute; reflexivity. }
  apply existsb_elem in H as (c & Hc & [H1 H2]%andb_prop). exists c.
  apply bool_decide_eq_true in H1. apply eqb_prop in H2. done.
Qed.

Definition checkedb (g : grant) : bool :=
  match g with
  | OnSchema _ | OnTable _ _ | OnFunction _ => true
  | OnColumn t c q => bool_decide (t = Proposals) && bool_decide (c ∈ proposal_columns) && bool_decide (q = UPDATE)
  end.

Lemma checkedb_spec g : checkedb g = true → checked g.
Proof.
  destruct g; simpl; try done. intros [[H1%bool_decide_eq_true H2%bool_decide_eq_true]%andb_prop H3%bool_decide_eq_true]%andb_prop.
  done.
Qed.

Lemma checks_match lane c : c ∈ _postgres_privilege_checks lane → checked (pc_query c) ∧
  pc_expected c = has_of (lane_grants lane) (pc_query c).
Proof.
  intros Hc%list_elem_of_In.
  assert (forallb (λ c, checkedb (pc_query c) && Bool.eqb (pc_expected c) (has_of (lane_grants lane) (pc_query c)))
    (_postgres_privilege_checks lane) = true) as H by (destruct lane; vm_compute; reflexivity).
  rewrite List.forallb_forall in H. apply H, andb_prop in Hc as [H1%checkedb_spec H2%eqb_prop]. done.
Qed.

(** The grants and the readiness check agree. After the official grants script
    has run for two roles that had nothing of the schema, whatever PUBLIC had,
    each role is ready for its lane and for no other. And readiness means just
    these grants: a connection that is found ready, whoever it is and whatever it
    was granted, runs on the current schema, does not own the proposals, and has
    of every table, column of the proposals, function and of the schema exactly
    what the script grants for that lane. *)
Theorem grants_make_ready (runtime retention : pystr) (p : privileges) (lane : DatabaseAccessLane)
  (refused : exn → bool) (status : MigrationStatus)
  (Hdistinct : runtime ≠ retention)
  (Hruntime : grants_of p runtime = []) (Hretention : grants_of p retention = [])
  (Hcurrent : pending_versions status = []) (Howner : connected_role_owns_proposals status = Some false) :
  let connected_as lane := has_privilege (run_grants runtime retention p) (lane_role runtime retention lane) in
  (∀ lane', ∃ d, check_postgres_readiness (Ok status) refused (connected_as lane') lane = Ok d ∧
     ready d = bool_decide (lane' = lane)) ∧
  ∀ inspected answer d, check_postgres_readiness inspected refused answer lane = Ok d → ready d = true →
    (∃ status', inspected = Ok status' ∧ pending_versions status' = [] ∧
       connected_role_owns_proposals status' = Some false) ∧
    ∀ g, checked g → answer g = connected_as lane g.
Proof.
  intros connected_as.
  assert (∀ l g, connected_as l g = has_of (lane_grants l) g) as Hhas.
  { intros l g. unfold connected_as. rewrite has_privilege_of by apply public_after.
    rewrite grants_after; [done..|by destruct l]. }
  split.
  - intros lane'. unfold check_postgres_readiness. rewrite Hcurrent, Howner.
    cbn [app negb]. rewrite (bool_decide_eq_true_2 ([] = [])), (bool_decide_eq_true_2 (Some false = Some false)) by done.
    cbn [app]. rewrite bool_decide_eq_true_2 by done. cbn [negb]. eexists. split; [done|]. unfold ready. cbn [dr_schema_current dr_privilege_boundary_valid dr_issues andb].
    rewrite andb_diag. apply bool_decide_ext. rewrite (privilege_issues_ext _ _ _ (Hhas lane')).
    split; [|intros ->; apply no_issues; intros c Hc; by apply checks_match in Hc as [_ ->]].
    rewrite no_issues. intros H. destruct (decide (lane' = lane)) as [|Hne]; [done|]. exfalso.
    destruct (checks_cover lane (OnFunction MarkErasure)) as (c & Hc & Hq & He); [done|].
    specialize (H c Hc). rewrite Hq, He in H. destruct lane, lane'; try done; by vm_compute in H.
  - intros inspected answer d H Hd. unfold check_postgres_readiness in H. destruct inspected as [s|e].
    2: { destruct (refused e); [|done]. injection H as <-. done. }
    destruct (negb (bool_decide _)) eqn:Hi in H; [injection H as <-; unfold ready in Hd; simpl in Hd; by rewrite andb_false_r in Hd|].
    injection H as <-. apply negb_false_iff, bool_decide_eq_true, app_eq_nil in Hi as [H1 H2]. split.
    + exists s. split; [done|].
      split; by eapply unless_nil.
    + intros g Hg. rewrite Hhas. unfold ready in Hd. simpl in Hd. rewrite andb_diag in Hd.
      apply bool_decide_eq_true in Hd. destruct (checks_cover lane g Hg) as (c & Hc & <- & <-).
      by apply (proj1 (no_issues answer lane) Hd).
Qed.

(** * MySQL

    The privileges of a MySQL account are what [SHOW GRANTS] prints. *)

Definition runtime_procedures : list pystr :=
  ["threvo_actions_create_proposal"; "threvo_actions_claim_effect"; "threvo_actions_runtime_update_proposal";
   "threvo_actions_transfer_effect_claim"]%py.
Definition retention_procedures : list pystr :=
  ["threvo_actions_mark_erasure_pending"; "threvo_actions_complete_erasure"]%py.

Definition quoted_account (user host : pystr) : res pystr :=
  u ← _quote_mysql_account_part user 32;
  h ← _quote_mysql_account_part host 255;
  Ok (u +:+ "@" +:+ h)%py.

Definition render_mysql_grants (database runtime_user runtime_host retention_user retention_host : pystr) : res pystr :=
  db ← _quote_mysql_identifier database;
  runtime ← quoted_account runtime_user runtime_host;
  retention ← quoted_account retention_user retention_host;
  if bool_decide (runtime = retention) then
    fail (ValueErrorLike "MySQL runtime and retention accounts must be distinct")
  else
    let on privilege what account := ("GRANT " +:+ privilege +:+ " ON " +:+ what +:+ " TO " +:+ account +:+ ";")%py in
    let grant_table privilege t account := on privilege (db +:+ ".`threvo_actions_" +:+ t +:+ "`")%py account in
    let grant_procedure account p := on "EXECUTE"%py ("PROCEDURE " +:+ db +:+ ".`" +:+ p +:+ "`")%py account in
    let statements :=
      [grant_table "SELECT" "schema_migrations" runtime; grant_table "SELECT" "proposals" runtime;
       grant_table "SELECT" "effect_claims" runtime; grant_table "UPDATE (`lifecycle_status`)" "proposals" runtime]%py
      ++ (grant_procedure runtime <$> runtime_procedures) ++ [PyStr []]
      ++ [grant_table "SELECT" "schema_migrations" retention; grant_table "SELECT" "proposals" retention;
          grant_table "UPDATE (`lifecycle_status`)" "proposals" retention]%py
      ++ (grant_procedure retention <$> retention_procedures) in
    Ok (join newline statements +:+ newline)%py.

(** [str.rpartition]: the last occurrence. *)
Fixpoint rpartition_points (separator l : list N) : option (list N * list N) :=
  match l with
  | [] => if bool_decide (separator = []) then Some ([], []) else None
  | c :: l' =>
      match rpartition_points separator l' with
      | Some (before, after) => Some (c :: before, after)
      | None => if bool_decide (take (length separator) l = separator) then Some ([], drop (length separator) l) else None
      end
  end.

(** [str.upper], for the characters whose upper case has a letter of the alphabet;
    the others stay out of it. *)
Definition upper_point (c : N) : list N :=
  if lower c then [c - 32]%N
  else
    match c with
    | 223 => [83; 83] | 305 => [73] | 383 => [83] | 329 => [700; 78] | 496 => [74; 780]
    | 7830 => [72; 817] | 7831 => [84; 776] | 7832 => [87; 778] | 7833 => [89; 778] | 7834 => [65; 702]
    | 64256 => [70; 70] | 64257 => [70; 73] | 64258 => [70; 76] | 64259 => [70; 70; 73] | 64260 => [70; 70; 76]
    | 64261 | 64262 => [83; 84]
    | _ => [c]
    end%N.

Definition upper_text (l : list N) : list N := flat_map upper_point l.

Definition _mysql_grant_prefix (grant : pystr) : pystr :=
  let '(prefix, separator, account) :=
    match rpartition_points (code_points " TO ") (code_points grant) with
    | Some (before, after) => (before, true, after)
    | None => ([], false, code_points grant)
    end in
  if contains (code_points " WITH GRANT OPTION") (upper_text account) then grant
  else if separator then PyStr prefix else grant.

Definition _expected_mysql_grant_prefixes (database : pystr) (lane : DatabaseAccessLane) : res (list pystr) :=
  quoted_database ← _quote_mysql_identifier database;
  let on_procedure p := ("GRANT EXECUTE ON PROCEDURE " +:+ quoted_database +:+ ".`" +:+ p +:+ "`")%py in
  let common := ["GRANT USAGE ON *.*";
                 "GRANT SELECT ON " +:+ quoted_database +:+ ".`threvo_actions_schema_migrations`"]%py in
  let proposals :=
    ("GRANT SELECT, UPDATE (`lifecycle_status`) ON " +:+ quoted_database +:+ ".`threvo_actions_proposals`")%py in
  Ok (match lane with
      | RUNTIME =>
          common ++ [("GRANT SELECT ON " +:+ quoted_database +:+ ".`threvo_actions_effect_claims`")%py; proposals]
            ++ (on_procedure <$> runtime_procedures)
      | RETENTION => common ++ [proposals] ++ (on_procedure <$> retention_procedures)
      end).

Definition set_difference (a b : list pystr) : list pystr :=
  List.filter (λ x, negb (bool_decide (x ∈ b))) (remove_dups a).

Definition text_cell (row : list cell) : option pystr :=
  match row with [CellStr s] => Some s | _ => None end.

(** [_check_mysql_readiness_cursor], for what the server's version, the history,
    [SHOW GRANTS FOR CURRENT_USER()] and [SELECT DATABASE()] answer. *)
Definition _check_mysql_readiness_cursor (version : res pystr) (history : res (list Row)) (migrations : list Migration)
  (table_access_denied : exn → bool) (shown : res (list (list cell))) (current : res (option (list cell)))
  (lane : DatabaseAccessLane) : res DatabaseReadiness :=
  _ ← version;
  match (rows ← history; _migration_status rows migrations) with
  | Err exc =>
      if table_access_denied exc then
        Ok (mkDatabaseReadiness MYSQL lane [] [] false false
              ["migration ledger is not readable by the connected account"%py])
      else Err exc
  | Ok status =>
      if negb (bool_decide (pending_versions status = [])) then
        Ok (mkDatabaseReadiness MYSQL lane (applied_versions status) (pending_versions status) false false
              ["database migrations are pending"%py])
      else
        rows ← shown;
        database_row ← current;
        match (database_row : option (list cell)) ≫= text_cell with
        | None => state_error "MySQL current database is unavailable"
        | Some database =>
            let grants := omap text_cell (rows : list (list cell)) in
            expected ← _expected_mysql_grant_prefixes database lane;
            let actual := _mysql_grant_prefix <$> grants in
            let missing := set_difference expected actual in
            let unexpected := set_difference actual expected in
            let issues :=
              (if bool_decide (missing = []) then []
               else [("missing " +:+ str_int (Z.of_nat (length missing)) +:+ " required privilege statements")%py])
              ++ (if bool_decide (unexpected = []) then []
                  else [("found " +:+ str_int (Z.of_nat (length unexpected)) +:+ " unexpected privilege statements")%py]) in
            Ok (mkDatabaseReadiness MYSQL lane (applied_versions status) (pending_versions status) true
                  (bool_decide (issues = [])) issues)
        end
  end.

Lemma set_difference_nil (a b : list pystr) : set_difference a b = [] ↔ a ⊆ b.
Proof.
  unfold set_difference. split.
  - intros H x Hx. destruct (decide (x ∈ b)) as [|Hn]; [done|]. exfalso.
    apply elem_of_remove_dups, list_elem_of_In in Hx.
    assert (List.In x []) as []. rewrite <-H. apply List.filter_In. split; [exact Hx|]. by rewrite bool_decide_eq_false_2.
  - intros H. assert (∀ x, x ∈ remove_dups a → x ∈ b) as Hx by (intros x Hx; apply H, elem_of_remove_dups, Hx).
    induction (remove_dups a) as [|x l IH]; [done|]. cbn [List.filter].
    rewrite bool_decide_eq_true_2 by (apply Hx; left). apply IH. intros y Hy. apply Hx. by right.
Qed.

Lemma rpartition_split separator l before after :
  rpartition_points separator l = Some (before, after) → l = before ++ separator ++ after.
Proof.
  revert before. induction l as [|c l IH]; intros before H; cbn [rpartition_points] in H.
  - by case_bool_decide; simplify_eq.
  - destruct (rpartition_points separator l) as [[b a]|].
    + injection H as <- <-. cbn [app]. f_equal. by apply IH.
    + case_bool_decide as Ht; [|done]. injection H as <- <-. cbn [app]. rewrite <-Ht at 1. by rewrite take_drop.
Qed.

(** A statement is taken for one of the expected ones only if it is one, or is one
    followed by an account and without the grant option. *)
Lemma grant_prefix_reads grant prefix :
  _mysql_grant_prefix grant = prefix →
  grant = prefix ∨
  ∃ account, grant = (prefix +:+ " TO " +:+ account)%py ∧
    contains (code_points " WITH GRANT OPTION") (upper_text (code_points account)) = false.
Proof.
  unfold _mysql_grant_prefix. destruct rpartition_points as [[b a]|] eqn:E; [|case_match; auto].
  apply rpartition_split in E. destruct (contains _ (upper_text a)) eqn:Hc; [by left|].
  intros <-. right. exists (PyStr a). split; [|done]. destruct grant as [l]. cbn in E. subst. done.
Qed.

(** The last six characters; they tell the statements of the two lanes apart. *)
Definition ending (s : pystr) : list N := take 6 (rev (code_points s)).

Lemma ending_of a quoted t : 6 <= pystr_len t → ending (a +:+ quoted +:+ t)%py = ending t.
Proof.
  intros Ht. unfold ending, pystr_app. cbn [code_points]. rewrite !rev_app_distr, <-app_assoc.
  apply take_app_le. by rewrite length_rev.
Qed.

Lemma lanes_differ database expected expected' :
  _expected_mysql_grant_prefixes database RUNTIME = Ok expected →
  _expected_mysql_grant_prefixes database RETENTION = Ok expected' →
  ∃ prefix, prefix ∈ expected' ∧ prefix ∉ expected.
Proof.
  unfold _expected_mysql_grant_prefixes. intros (q & Hq & <-%Ok_inj)%res_bind_Ok (q' & Hq' & <-%Ok_inj)%res_bind_Ok.
  rewrite Hq in Hq'. apply Ok_inj in Hq' as <-.
  exists ("GRANT EXECUTE ON PROCEDURE " +:+ q +:+ ".`threvo_actions_mark_erasure_pending`")%py. split.
  - apply list_elem_of_In. do 3 right. left. unfold pystr_app. cbn [code_points]. do 2 f_equal.
  - intros H%(list_elem_of_fmap_2 ending). rewrite ending_of in H by (vm_compute; lia).
    rewrite !fmap_app in H. cbn [fmap list_fmap runtime_procedures] in H.
    rewrite !(ending_of _ q) in H by (vm_compute; lia). apply list_elem_of_In in H. vm_compute in H.
    repeat (destruct H as [H|H]; [discriminate H|]). destruct H.
Qed.

(** ** The readiness of MySQL, and what it promises *)

Lemma mysql_ready_inv version history migrations denied shown current lane d :
  _check_mysql_readiness_cursor version history migrations denied shown current lane = Ok d → ready d = true →
  ∃ rows database expected, shown = Ok rows ∧ current = Ok (Some [CellStr database]) ∧
    (∃ status, (rs ← history; _migration_status rs migrations) = Ok status ∧ pending_versions status = [] ∧
       applied_versions status = dr_applied_versions d) ∧
    _expected_mysql_grant_prefixes database lane = Ok expected ∧
    expected ⊆ _mysql_grant_prefix <$> omap text_cell rows ∧ _mysql_grant_prefix <$> omap text_cell rows ⊆ expected.
Proof.
  unfold _check_mysql_readiness_cursor. intros (v & _ & H)%res_bind_Ok Hd.
  destruct (rs ← history; _) as [status|e] eqn:Hs.
  2: { destruct (denied e); [|done]. apply Ok_inj in H as <-. done. }
  destruct (decide (pending_versions status = [])) as [Hp|Hp].
  2: { rewrite bool_decide_eq_false_2 in H by done. apply Ok_inj in H as <-. done. }
  rewrite bool_decide_eq_true_2 in H by done. cbn [negb] in H.
  apply res_bind_Ok in H as (rows & Hshown & H). apply res_bind_Ok in H as (row & Hrow & H).
  destruct (row ≫= text_cell) as [database|] eqn:Hdb; [|done]. apply res_bind_Ok in H as (expected & He & <-%Ok_inj).
  unfold ready in Hd. cbn [dr_schema_current dr_privilege_boundary_valid dr_issues andb] in Hd.
  rewrite andb_diag in Hd. apply bool_decide_eq_true, app_eq_nil in Hd as [Hm Hu].
  exists rows, database, expected. split; [done|]. split.
  { destruct row as [ [|[z|s|] [|]]|]; simplify_eq/=; done. }
  split; [by exists status|]. split; [done|]. rewrite <-!set_difference_nil.
  split; by eapply unless_nil.
Qed.

(** On MySQL a connection is found ready only when the packaged migrations are
    all applied, the statements the server shows for the account are the ones of
    its lane and no other, each of them granted without the grant option, and none
    of the lane is missing. And the names of the two lanes cannot be confused: no
    account is ready for both. *)
Theorem mysql_ready_exact version history migrations denied shown current (lane : DatabaseAccessLane) d :
  _check_mysql_readiness_cursor version history migrations denied shown current lane = Ok d →
  ready d = true →
  ∃ rows database expected, shown = Ok rows ∧ current = Ok (Some [CellStr database]) ∧
    (∃ status, (rs ← history; _migration_status rs migrations) = Ok status ∧ pending_versions status = [] ∧
       applied_versions status = dr_applied_versions d) ∧
    _expected_mysql_grant_prefixes database lane = Ok expected ∧
    (∀ grant, [CellStr grant] ∈ rows → ∃ prefix, prefix ∈ expected ∧
       (grant = prefix ∨ ∃ account, grant = (prefix +:+ " TO " +:+ account)%py ∧
          contains (code_points " WITH GRANT OPTION") (upper_text (code_points account)) = false)) ∧
    (∀ prefix, prefix ∈ expected → ∃ grant, [CellStr grant] ∈ rows ∧ _mysql_grant_prefix grant = prefix) ∧
    ∀ lane' d', _check_mysql_readiness_cursor version history migrations denied shown current lane' = Ok d' →
      ready d' = true → lane' = lane.
Proof.
  intros H Hd. destruct (mysql_ready_inv _ _ _ _ _ _ _ _ H Hd) as (rows & db & expected & Hs & Hc & Hst & He & Hm & Hu).
  exists rows, db, expected. do 4 (split; [done|]). split_and!.
  - intros g Hg. exists (_mysql_grant_prefix g). split; [|by apply grant_prefix_reads].
    apply Hu, list_elem_of_fmap_2, list_elem_of_omap. by exists [CellStr g].
  - intros prefix (g & -> & Hg)%Hm%list_elem_of_fmap. apply list_elem_of_omap in Hg as (row & Hrow & Ht).
    exists g. split; [|done]. destruct row as [|[z|s|] [|]]; simplify_eq/=; done.
  - intros lane' d' H' Hd'.
    destruct (mysql_ready_inv _ _ _ _ _ _ _ _ H' Hd') as (rows' & db' & expected' & Hs' & Hc' & _ & He' & Hm' & Hu').
    rewrite Hs in Hs'. apply Ok_inj in Hs' as <-. rewrite Hc in Hc'. injection Hc' as <-.
    destruct lane, lane'; try done; exfalso;
      [destruct (lanes_differ _ _ _ He He') as (p & Hp & Hn)|destruct (lanes_differ _ _ _ He' He) as (p & Hp & Hn)];
      apply Hn; auto.
Qed.
