(* ===== verification/MigrationScenario.v ===== *)
(** Worked databases for the migration theorems: packaged files whose text names
    them, and servers whose objects are the statements they were sent. *)

From stdpp Require Import sorting list_numbers.
From S2P Require Import Prelude Models Canonical Registry StoreBase Sessions SqlText Migrations MigrationSafety.
From S2P Require Import MigrationScripts Readiness.

#[local] Existing Instance ascii_unicode.

(** A checksum of 64 characters: the text, filled up with zeros. *)
Definition filled (text : pystr) : pystr := PyStr (take 64 (code_points text ++ repeat 48%N 64)).

Lemma filled_length text : pystr_len (filled text) = 64%nat.
Proof.
  unfold pystr_len, filled. cbn [code_points]. rewrite length_take, length_app, repeat_length. lia.
Qed.

#[local] Instance named_files : PackagedFiles := {|
  packaged_text directory filename := ("-- " +:+ directory +:+ "/" +:+ filename)%py;
  sha256_text := filled;
  sha256_length := filled_length
|}.

#[local] Instance journal_server : SqlServer (list pystr) := {|
  execute_sql text o := (Ok (), o ++ [text]);
  create_schema_refused _ _ := None;
  count_retired _ _ := Ok (CellInt 0);
  proposals_owner _ _ := Ok (OwnerBool true)
|}.

Lemma mysql_numbered : numbered _packaged_mysql_migrations.
Proof.
  split; [vm_compute; reflexivity|]. unfold _packaged_mysql_migrations, packaged. apply Forall_fmap.
  apply List.Forall_forall. intros c _. simpl. apply filled_length.
Qed.

Definition schema : pystr := "actions".

Definition online : atomic (database (list pystr)) MigrationStatus :=
  migrate_release (take 5 _packaged_migrations) postgres_migration_compatibility schema (seconds 30) false true.

Definition older : atomic (database (list pystr)) MigrationStatus :=
  migrate_release (take 3 _packaged_migrations) postgres_migration_compatibility schema (seconds 30) false false.

(** The database after a release of three migrations, and after all five. *)
Definition at_three : database (list pystr) := (older (mkDatabase None [])).2.
Definition at_five : database (list pystr) := (online at_three).2.

Example migrated : (online at_three).1 = Ok (mkMigrationStatus [1; 2; 3; 4; 5]%Z [] (Some true)) ∧
  length (db_objects at_five) = 5%nat.
Proof. vm_compute. done. Qed.

Definition attempt_instance (k : nat) (m : atomic (database (list pystr)) MigrationStatus) : Prop :=
  ∃ compatibility lock_timeout contended quiesced,
    m = adapter_attempt _packaged_migrations (PostgresAdapter schema) k compatibility lock_timeout contended quiesced.

Lemma two_releases :
  system_reachable (attempts _packaged_migrations attempt_instance) (mkDatabase None [])
    (at_five, [Answer (older (mkDatabase None [])).1; Answer (online at_three).1]).
Proof.
  assert (length _packaged_migrations = 5%nat) as H5 by (vm_compute; reflexivity).
  eapply rtc_r with (y := (at_three, [Answer (older (mkDatabase None [])).1; send online])).
  2: { exact (system_send _ at_three [Answer (older (mkDatabase None [])).1] [] _ online _). }
  eapply rtc_r with (y := (at_three, [Answer (older (mkDatabase None [])).1])).
  2: { apply (system_open _ at_three [Answer (older (mkDatabase None [])).1]). apply (attempts_release _ _ 5); [by rewrite H5|].
    by exists postgres_migration_compatibility, (seconds 30), false, true. }
  eapply rtc_r with (y := (mkDatabase None [], [send older])).
  2: { exact (system_send _ (mkDatabase None []) [] [] _ older _). }
  eapply rtc_r; [constructor|]. apply (system_open _ (mkDatabase None []) []). apply (attempts_release _ _ 3); [rewrite H5; lia|].
  by exists postgres_migration_compatibility, (seconds 30), false, false.
Qed.

Lemma migrations_applied_in_order_witness : ∃ n, ledger_rows at_five = ledger_of _packaged_migrations n.
Proof.
  destruct (migrations_applied_in_order _packaged_migrations packaged_numbered (PostgresAdapter schema) [] _ two_releases)
    as (n & _ & Hl & _).
  by exists n.
Defined.

Lemma migration_attempt_exact_witness : db_ledger at_five = Some (ledger_of _packaged_migrations 5).
Proof.
  assert (ledger_rows at_three = ledger_of _packaged_migrations 3) as Hl by (vm_compute; reflexivity).
  destruct (migration_attempt_exact _packaged_migrations packaged_numbered (PostgresAdapter schema) 3 5
    postgres_migration_compatibility (seconds 30) false true at_three at_five
    (Ok (mkMigrationStatus [1; 2; 3; 4; 5]%Z [] (Some true))))
    as (_ & _ & _ & _ & H & _);
    [vm_compute; lia|vm_compute; lia|exact Hl|vm_compute; reflexivity|exact H].
Defined.

(** A first attempt loses its connection after a statement whose effect stays; the
    next one, of the same release, ends the migrations. *)
Definition mysql_release (faults : list fault) (db : database (list pystr))
  : res MigrationStatus * connection :=
  migrate_mysql_release (λ _, CellStr "8.4.0") (λ _, Ok ()) (take 4 _packaged_mysql_migrations)
    mysql_migration_compatibility (seconds 30) false true (mkConnection db faults).

Definition lost_faults : list fault :=
  [Works; Works; Works; Works; Works; Works; Lost (raised (OtherException "OperationalError"))].
Definition interrupted : database (list pystr) := cn_database (mysql_release lost_faults (mkDatabase None [])).2.
Definition finished : res MigrationStatus * connection := mysql_release [] interrupted.

Example interrupted_in_the_middle :
  length (ledger_rows interrupted) = 1%nat ∧ length (db_objects interrupted) = 2%nat ∧
  finished.1 = Ok (mkMigrationStatus [1; 2; 3; 4]%Z [] None) ∧
  length (db_objects (cn_database finished.2)) = 5%nat.
Proof. vm_compute. done. Qed.

Lemma mysql_ledger_names_complete_witness :
  ∃ n n', n ≤ n' ∧ ledger_rows interrupted = ledger_of _packaged_mysql_migrations n ∧
    ledger_rows (cn_database finished.2) = ledger_of _packaged_mysql_migrations n' ∧ n' = 4%nat.
Proof.
  assert (rtc (mysql_attempt _packaged_mysql_migrations (λ _, CellStr "8.4.0") (λ _, Ok ())) (mkDatabase None []) interrupted)
    as Hr.
  { eapply rtc_l; [|constructor].
    apply (one_attempt _ _ _ 4 mysql_migration_compatibility (seconds 30) false true lost_faults _
             (mysql_release lost_faults (mkDatabase None [])).1).
    - vm_compute. lia.
    - vm_compute. reflexivity. }
  destruct (mysql_ledger_names_complete _packaged_mysql_migrations mysql_numbered (λ _, CellStr "8.4.0") (λ _, Ok ()) [] 4
    mysql_migration_compatibility (seconds 30) false true [] interrupted finished.1 finished.2 Hr)
    as (n & n' & Hle & _ & Hl & Hl' & _ & _ & Hs).
  - vm_compute. lia.
  - vm_compute. reflexivity.
  - exists n, n'. destruct (Hs (mkMigrationStatus [1; 2; 3; 4]%Z [] None)) as [Hn _]; [vm_compute; reflexivity|].
    done.
Defined.

(** ** The offline script *)

Definition offline_sections : list section :=
  match script_sections schema 3 true with Ok sections => sections | Err _ => [] end.

Lemma offline_script_equivalent_witness :
  run_script false offline_sections at_three = (Ok (), at_five).
Proof.
  destruct (offline_script_equivalent schema (quote double_quote schema) ltac:(vm_compute; reflexivity)
    (λ o c H, ex_intro _ 0%Z (Ok_inj _ _ (eq_sym H))) (λ m o o' _ _, eq_refl) (λ o, ex_intro _ (Some true) eq_refl)
    3 false true offline_sections 3 at_three at_five) as [H _].
  - vm_compute. reflexivity.
  - lia.
  - vm_compute. reflexivity.
  - done.
  - apply H. split; [done|]. exists (mkMigrationStatus [1; 2; 3; 4; 5]%Z [] (Some true)). vm_compute. reflexivity.
Defined.

(** ** Readiness *)

(** PUBLIC may do everything with the tables before the script is run. *)
Definition open_schema : privileges :=
  mkPrivileges [OnSchema USAGE; OnSchema CREATE; OnTable Proposals DELETE; OnFunction CompleteErasure] ∅.

Definition current_status : MigrationStatus := mkMigrationStatus [1; 2; 3; 4; 5]%Z [] (Some false).

Lemma grants_make_ready_witness :
  ∃ d, check_postgres_readiness (Ok current_status) (λ _, false)
         (has_privilege (run_grants "runtime" "retention" open_schema) "runtime") RUNTIME = Ok d ∧ ready d = true.
Proof.
  destruct (grants_make_ready "runtime" "retention" open_schema RUNTIME (λ _, false) current_status) as [H _];
    [done|done|done|done|done|].
  destruct (H RUNTIME) as (d & Hd & Hr). exists d. split; [exact Hd|]. rewrite Hr. by apply bool_decide_eq_true.
Defined.

(** What MySQL shows of an account that was granted its lane. *)
Definition shown_runtime : list (list cell) :=
  match _expected_mysql_grant_prefixes "host" RUNTIME with
  | Ok prefixes => (λ p, [CellStr (p +:+ " TO `app`@`%`")%py]) <$> prefixes
  | Err _ => []
  end.
Definition history_rows : list Row := row_of <$> ledger_of _packaged_mysql_migrations 4.

Definition mysql_readiness (lane : DatabaseAccessLane) : res DatabaseReadiness :=
  _check_mysql_readiness_cursor (Ok "8.4.0"%py) (Ok history_rows) _packaged_mysql_migrations (λ _, false)
    (Ok shown_runtime) (Ok (Some [CellStr "host"])) lane.

Definition ready_runtime : DatabaseReadiness := mkDatabaseReadiness MYSQL RUNTIME [1; 2; 3; 4]%Z [] true true [].

Example runtime_only : mysql_readiness RUNTIME = Ok ready_runtime ∧
  match mysql_readiness RETENTION with Ok d => dr_issues d | Err _ => [] end =
    ["missing 2 required privilege statements"; "found 5 unexpected privilege statements"]%py.
Proof. vm_compute. done. Qed.

Lemma mysql_ready_exact_witness :
  ∀ lane d, mysql_readiness lane = Ok d → ready d = true → lane = RUNTIME.
Proof.
  destruct (mysql_ready_exact (Ok "8.4.0"%py) (Ok history_rows) _packaged_mysql_migrations (λ _, false) (Ok shown_runtime)
    (Ok (Some [CellStr "host"])) RUNTIME ready_runtime) as (rows & database & expected & _ & _ & _ & _ & _ & _ & H).
  - vm_compute. reflexivity.
  - vm_compute. reflexivity.
  - exact H.
Defined.
