(* ===== verification/MysqlStore.v ===== *)
(** The MySQL store ([stores/mysql.py]) with its tables, trigger and stored
    procedures ([_migrations/mysql]).

    A statement either works or fails with an error of the server ([db_errors]:
    a deadlock, a lock timeout, a duplicate key of a transaction that was first,
    a lost connection), and reads the clock of its own moment ([db_clock]).  What
    fails is undone: a statement for itself, a unit of work altogether, while
    clock and errors go on.

    Text columns compare as [utf8mb4_bin] does, which pads with spaces: [collate]
    is the class of a text.  The columns hold what the model gives; the document
    in [proposal_data] is what the server keeps of the text it is sent.

    A commit that fails has not happened: the answer that is lost after one did is
    not modelled.

    Parameters ([MySqlServer]): that document, up to the order of the members of
    its objects, [JSON] comparison, SHA-256, and the category [\p{C}] of the
    server's regular expressions.

    The procedures test what they are given: that it has the members and types of
    a proposal, and that their values are those of one.  The texts the store sends
    are dumps of [StoredProposal], of which the tests of members and types hold by
    the type of the model; [threvo_actions_validate_proposal_data] and [append_only]
    are the tests of the values, for the migrations up to
    [004_external_authority_attestation.sql]. *)

From S2P Require Import Prelude Models Canonical Authority Receipts Registry StoreBase StoredValidity.
From S2P Require Import StoreContract Documents Sessions SqlText MemoryStore.

(** The integers MySQL keeps in a document, others become floats. *)
Fixpoint json_exact (v : json) : bool :=
  match v with
  | JInt z => (- 2 ^ 63 <=? z)%Z && (z <? 2 ^ 64)%Z
  | JList l => forallb json_exact l
  | JObj o => forallb (λ '(_, x), json_exact x) o
  | _ => true
  end.

Definition document_storable (p : StoredProposal) : bool :=
  json_fields p && json_exact (JObj (sp_display_preview p))
  && optional (λ o, json_exact (JObj o)) (sp_safe_result p).

(** Its dictionaries are written by name, too. *)
Definition document_exact (p : StoredProposal) : bool :=
  bool_decide (by_name_record p = p) && document_storable p.

Class MySqlServer `{U : Unicode} := {
  (* the text of [_mysql_proposal_json] *)
  _mysql_proposal_json : StoredProposal → pystr;
  (* the proposal that is read back from the column; [None] when the text is
     refused or is no proposal *)
  column_document : pystr → option StoredProposal;
  json_equal : JsonObject → JsonObject → bool;
  sha256 : bytes → bytes;
  icu_other : N → bool;
  (* a valid proposal without infinite numbers has a text; one within the
     integers of the server is kept, in an order of members of the server's own *)
  document_text p : stored_proposal_valid p = true → json_fields p = true →
    unicode_text (_mysql_proposal_json p) = true;
  column_document_kept p : stored_proposal_valid p = true → document_storable p = true →
    by_name_record <$> column_document (_mysql_proposal_json p) = Some (by_name_record p);
  json_equal_refl o : json_equal o o = true
}.

(** A document in a column is the proposal that is read from it, its
    dictionaries written by name. *)
Definition stored_document `{U : Unicode, V : !MySqlServer} (text : pystr) : option StoredProposal :=
  by_name_record <$> column_document text.

(** * Tables *)

Record MysqlRow := mkMysqlRow {
  my_tenant_reference : pystr;
  my_proposal_reference : pystr;
  my_action_key : ActionKey;
  my_semantic_effect_reference : pystr;
  my_effect_kind : EffectKind;
  my_lifecycle_status : LifecycleStatus;
  my_revision : Z;
  my_created_at : datetime;
  my_expires_at : datetime;
  my_proposal_data : pystr
}.

Record MysqlClaim := mkMysqlClaim {
  mc_tenant_reference : pystr;
  mc_action_key : ActionKey;
  mc_semantic_effect_reference : pystr;
  mc_proposal_reference : pystr;
  mc_admitted_at : datetime
}.

Record Tables := mkTables {
  my_proposals : gmap ProposalKey MysqlRow;
  my_claims : gmap (pystr * bytes) MysqlClaim
}.

Record MysqlDatabase := mkMysqlDatabase { db_tables : Tables; db_clock : list datetime; db_errors : list (option exn) }.

Definition with_tables (t : Tables) (db : MysqlDatabase) : MysqlDatabase :=
  mkMysqlDatabase t (db_clock db) (db_errors db).

(** Trailing spaces do not count. *)
Fixpoint drop_blanks (l : list N) : list N :=
  match l with c :: l' => if (c =? 32)%N then drop_blanks l' else l | [] => [] end.
Definition collate (s : pystr) : pystr := PyStr (rev (drop_blanks (rev (code_points s)))).

Definition my_key (tenant_reference proposal_reference : pystr) : ProposalKey :=
  (collate tenant_reference, collate proposal_reference).

(** * Errors *)

Definition mysql_error (code : Z) : exn_kind := OtherException ("OperationalError " +:+ str_int code)%py.

(** [_mysql_error_code(exc) == code]. *)
Definition error_code_is (code : Z) (e : exn) : bool := bool_decide (exn_class e = mysql_error code).

Definition DUPLICATE_KEY : Z := 1062.
Definition SIGNALED : Z := 1644.
Definition CHECK_VIOLATED : Z := 3819.
Definition INVALID_JSON : Z := 3140.

Abbreviation adapter_limit := (ValueErrorLike "MySQLAdapterLimitError").
Abbreviation corrupt := (OtherException "MySQLStoredDataCorruptionError").

(** * Statements and units of work *)

(** One statement: at its moment, it works or leaves the tables. *)
Definition statement {A} (m : datetime → Tables → res A * Tables) : atomic MysqlDatabase A := λ db,
  let after t := mkMysqlDatabase t (tail (db_clock db)) (tail (db_errors db)) in
  match db_errors db with
  | Some e :: _ => (Err e, after (db_tables db))
  | _ =>
      match m (default 0%Z (head (db_clock db))) (db_tables db) with
      | (Ok a, t) => (Ok a, after t)
      | (Err e, _) => (Err e, after (db_tables db))
      end
  end.

Definition select {A} (f : Tables → A) : atomic MysqlDatabase A := statement (λ _ t, (Ok (f t), t)).

(** [begin], a body that answers and says whether it commits, and [commit] or
    [rollback]. *)
Definition unit_of_work {A} (body : atomic MysqlDatabase (A * bool)) : atomic MysqlDatabase A := λ db,
  match body db with
  | (Ok (a, true), db1) =>
      match select (λ _, tt) db1 with
      | (Ok _, db2) => (Ok a, db2)
      | (Err e, db2) => (Err e, with_tables (db_tables db) db2)
      end
  | (Ok (a, false), db1) => (Ok a, with_tables (db_tables db) db1)
  | (Err e, db1) => (Err e, with_tables (db_tables db) db1)
  end.

Section Mysql.
Context `{U : Unicode, V : !MySqlServer}.

(** * Limits and validation *)

Definition _MAX_MYSQL_TEXT_BYTES : Z := 65535.
Definition _MAX_MYSQL_INT_UNSIGNED : Z := 2 ^ 32 - 1.
Definition _MAX_MYSQL_BIGINT_UNSIGNED : Z := 2 ^ 64 - 1.

(** The first instant of the year 1000. *)
Definition _MIN_MYSQL_DATETIME : datetime := -30610224000000000%Z.

Definition _utf8 (value : pystr) : res bytes :=
  match utf8 (code_points value) with Ok b => Ok b | Err _ => fail adapter_limit end.

(** Only whether a text can be sent matters. *)
Definition _text (value : pystr) : res unit := _ ← _utf8 value; Ok ().

Definition _validated_datetime (value : datetime) : res datetime :=
  if (value <? _MIN_MYSQL_DATETIME)%Z then fail adapter_limit else Ok value.

Definition _validate_mysql_effect_identity (action_type : ActionType) : res unit :=
  namespace ← _utf8 (at_namespace action_type);
  if (_MAX_MYSQL_TEXT_BYTES <? Z.of_nat (length (namespace : bytes)))%Z then fail adapter_limit
  else
    name ← _utf8 (at_name action_type);
    if (_MAX_MYSQL_TEXT_BYTES <? Z.of_nat (length (name : bytes)))%Z then fail adapter_limit
    else if (_MAX_MYSQL_INT_UNSIGNED <? at_version action_type)%Z then fail adapter_limit
    else Ok ().

Definition _validated_proposal (proposal : StoredProposal) : res StoredProposal :=
  if negb (stored_proposal_valid proposal) then fail ValidationError
  else
    _ ← _validate_mysql_effect_identity (sp_action_type proposal);
    if (_MAX_MYSQL_BIGINT_UNSIGNED <? sp_revision proposal)%Z
       || (_MAX_MYSQL_BIGINT_UNSIGNED <? sp_verification_attempts proposal)%Z
       || (_MAX_MYSQL_BIGINT_UNSIGNED <? sp_max_verification_attempts proposal)%Z
    then fail adapter_limit
    else
      _ ← _validated_datetime (sp_created_at proposal);
      _ ← _validated_datetime (sp_expires_at proposal);
      _ ← _text (_mysql_proposal_json proposal);
      Ok proposal.

(** ** The identity of an effect *)

Definition octets (value : pystr) : bytes :=
  match utf8 (code_points value) with Ok b => b | Err _ => [] end.

Definition component (c : bytes) : bytes := (Z.of_N <$> dumps_int (Z.of_nat (length c))) ++ 58%Z :: c.

Definition effect_canonical (k : ActionKey) (effect : pystr) : bytes :=
  component (octets k.1.1) ++ component (octets k.1.2) ++ component (Z.of_N <$> dumps_int k.2)
    ++ component (octets effect).

(** The generated column [effect_identity], the CHECK on claims and the identity
    a claim is inserted with: [UNHEX(SHA2(CONCAT(OCTET_LENGTH(...), ':', ...), 256))]. *)
Definition effect_identity (k : ActionKey) (effect : pystr) : bytes := sha256 (effect_canonical k effect).

Definition _effect_identity (action_type : ActionType) (effect : pystr) : res bytes :=
  _ ← _validate_mysql_effect_identity action_type;
  namespace ← _utf8 (at_namespace action_type);
  name ← _utf8 (at_name action_type);
  reference ← _utf8 effect;
  let encoded_components := [namespace; name; Z.of_N <$> dumps_int (at_version action_type); reference] in
  Ok (sha256 (concat (component <$> encoded_components))).

(** * Rows *)

Definition mysql_row (p : StoredProposal) : MysqlRow :=
  mkMysqlRow (sp_tenant_reference p) (sp_proposal_reference p) (_action_key (sp_action_type p))
    (sp_semantic_effect_reference p) (sp_effect_kind p) (sp_lifecycle_status p) (sp_revision p)
    (sp_created_at p) (sp_expires_at p) (_mysql_proposal_json p).

Definition indexed_identity (row : MysqlRow) :=
  (my_tenant_reference row, my_proposal_reference row, my_action_key row, my_semantic_effect_reference row,
   my_effect_kind row, my_lifecycle_status row, my_revision row, my_created_at row, my_expires_at row).

Definition model_identity (p : StoredProposal) :=
  (sp_tenant_reference p, sp_proposal_reference p, _action_key (sp_action_type p), sp_semantic_effect_reference p,
   sp_effect_kind p, sp_lifecycle_status p, sp_revision p, sp_created_at p, sp_expires_at p).

Definition load_row (tenant_reference proposal_reference : pystr) (row : option MysqlRow)
  : res (option StoredProposal) :=
  match row with
  | None => Ok None
  | Some row =>
      if negb (bool_decide ((my_tenant_reference row, my_proposal_reference row)
                            = (tenant_reference, proposal_reference))) then Ok None
      else
        match stored_document (my_proposal_data row) with
        | None => fail corrupt
        | Some proposal =>
            if negb (bool_decide (indexed_identity row = model_identity proposal)) then fail corrupt
            else Ok (Some proposal)
        end
  end.

Definition _load (tenant_reference proposal_reference : pystr) : atomic MysqlDatabase (option StoredProposal) :=
  _ ← atomic_lift (_text tenant_reference);
  _ ← atomic_lift (_text proposal_reference);
  row ← select (λ t, my_proposals t !! my_key tenant_reference proposal_reference);
  atomic_lift (load_row tenant_reference proposal_reference row).

(** The columns of the tables, and their CHECK constraints. *)
Definition row_checks (row : MysqlRow) (document : StoredProposal) : bool :=
  (0 <? (my_action_key row).2)%Z && ((my_action_key row).2 <=? _MAX_MYSQL_INT_UNSIGNED)%Z
  && (my_created_at row <? my_expires_at row)%Z
  && bool_decide (collate (sp_tenant_reference document) = collate (my_tenant_reference row))
  && bool_decide (collate (sp_proposal_reference document) = collate (my_proposal_reference row))
  && bool_decide (collate (at_namespace (sp_action_type document)) = collate (my_action_key row).1.1)
  && bool_decide (collate (at_name (sp_action_type document)) = collate (my_action_key row).1.2)
  && (at_version (sp_action_type document) =? (my_action_key row).2)%Z
  && bool_decide (collate (sp_semantic_effect_reference document) = collate (my_semantic_effect_reference row))
  && bool_decide (sp_effect_kind document = my_effect_kind row)
  && bool_decide (sp_lifecycle_status document = my_lifecycle_status row)
  && (sp_revision document =? my_revision row)%Z
  && (sp_created_at document =? my_created_at row)%Z && (sp_expires_at document =? my_expires_at row)%Z.

(** * The trigger and the procedures *)

(** The transitions the trigger lists. *)
Definition trigger_transitions : list (LifecycleStatus * LifecycleStatus) :=
  [(AWAITING_AUTHORITY, DENIED); (AWAITING_AUTHORITY, EXPIRED); (AWAITING_AUTHORITY, AUTHORIZED);
   (AUTHORIZED, EXPIRED); (AUTHORIZED, BLOCKED); (AUTHORIZED, STALE); (AUTHORIZED, EXECUTING);
   (STALE, SUPERSEDED); (EXECUTING, STALE); (EXECUTING, FAILED_KNOWN); (EXECUTING, FAILED_UNKNOWN);
   (EXECUTING, VERIFICATION_PENDING); (FAILED_UNKNOWN, VERIFICATION_PENDING);
   (VERIFICATION_PENDING, AUTHORIZED); (VERIFICATION_PENDING, EXECUTING);
   (VERIFICATION_PENDING, FAILED_KNOWN); (VERIFICATION_PENDING, FAILED_UNKNOWN);
   (VERIFICATION_PENDING, VERIFICATION_UNRESOLVED); (VERIFICATION_PENDING, PARTIALLY_SUCCEEDED);
   (VERIFICATION_PENDING, VERIFIED); (VERIFICATION_UNRESOLVED, VERIFICATION_PENDING)].

(** The columns of an action and an effect, compared as text is. *)
Definition same_effect (k k' : ActionKey) (e e' : pystr) : bool :=
  bool_decide (collate k.1.1 = collate k'.1.1) && bool_decide (collate k.1.2 = collate k'.1.2)
  && (k.2 =? k'.2)%Z && bool_decide (collate e = collate e').

Definition threvo_actions_enforce_proposal_update (old new : MysqlRow) : bool :=
  bool_decide (collate (my_tenant_reference new) = collate (my_tenant_reference old))
  && bool_decide (collate (my_proposal_reference new) = collate (my_proposal_reference old))
  && same_effect (my_action_key new) (my_action_key old) (my_semantic_effect_reference new) (my_semantic_effect_reference old)
  && bool_decide (my_effect_kind new = my_effect_kind old) && (my_created_at new =? my_created_at old)%Z
  && (my_revision new =? my_revision old + 1)%Z
  && (bool_decide (my_lifecycle_status new = my_lifecycle_status old)
      || bool_decide ((my_lifecycle_status old, my_lifecycle_status new) ∈ trigger_transitions)).

Definition put_row (key : ProposalKey) (row : MysqlRow) (t : Tables) : Tables :=
  mkTables (<[key := row]> (my_proposals t)) (my_claims t).

(** UPDATE of a row that matched, under the trigger and the CHECK constraints. *)
Definition update_row (key : ProposalKey) (old : MysqlRow) (status : LifecycleStatus) (revision : Z)
  (expires_at : datetime) (text : pystr) (document : StoredProposal) (t : Tables) : res Z * Tables :=
  let new := mkMysqlRow (my_tenant_reference old) (my_proposal_reference old) (my_action_key old)
    (my_semantic_effect_reference old) (my_effect_kind old) status revision (my_created_at old) expires_at text in
  if negb (threvo_actions_enforce_proposal_update old new) then (fail (mysql_error SIGNALED), t)
  else if negb (row_checks new document) then (fail (mysql_error CHECK_VIOLATED), t)
  else (Ok 1%Z, put_row key new t).

(** ** The tests of a document's values

    [threvo_actions_validate_proposal_data]. *)

(** The line terminators of the server's regular expressions: [$] also matches
    before one at the end. *)
Definition line_end (c : N) : bool :=
  (10 <=? c)%N && (c <=? 13)%N || (c =? 133)%N || (c =? 8232)%N || (c =? 8233)%N.

Definition at_end (f : pystr → bool) (s : pystr) : bool :=
  f s || match rev (code_points s) with
         | 10%N :: 13%N :: r => f (PyStr (rev r))
         | c :: r => line_end c && f (PyStr (rev r))
         | [] => false
         end.

Definition begins_with_space (l : list N) : bool :=
  match l with c :: _ => is_space c | [] => false end.

(** The loop over [safe_values].  [is_space] and the server's [[\p{Z}\s]] differ
    only on controls, which the test before has refused. *)
Definition safe_value (s : pystr) : bool :=
  (1 <=? pystr_len s)%nat && (pystr_len s <=? 255)%nat
  && negb (existsb icu_other (code_points s))
  && negb (begins_with_space (code_points s) || begins_with_space (rev (code_points s))).

Definition action_type_tested (a : ActionType) : bool :=
  at_end ActionNamespace (at_namespace a) && at_end ActionName (at_name a) && (1 <=? at_version a)%Z.

Definition unsigned (z : Z) : bool := (0 <=? z)%Z && (z <=? _MAX_MYSQL_BIGINT_UNSIGNED)%Z.

Definition evidence_tested (p : StoredProposal) (e : AuthorityEvidence) : bool :=
  action_type_tested (ae_action_type e)
  && negb (bool_decide (ae_audience e = []))
  && bool_decide (collate (ae_tenant_reference e) = collate (sp_tenant_reference p))
  && bool_decide (ae_action_type e = sp_action_type p)
  && bool_decide (collate (ae_proposal_instance_reference e) = collate (sp_proposal_reference p))
  && bool_decide (collate (ae_semantic_effect_reference e) = collate (sp_semantic_effect_reference p))
  && match sp_commitment p with
     | Some commitment => bool_decide (collate (ae_proposal_commitment e) = collate (kc_digest commitment))
     | None => false
     end
  && forallb safe_value ([ae_tenant_reference e; ae_proposal_instance_reference e; ae_semantic_effect_reference e;
       ca_reference (ae_authority e); ae_proposal_commitment e; ae_channel_assurance e]
     ++ match ae_external_attestation e with
        | Some a => [ea_format a; ea_issuer_reference a; ea_artifact_reference a; ea_artifact_digest a]
        | None => []
        end ++ ae_audience e)
  && (ae_issued_at e <? ae_expires_at e)%Z.

Definition receipt_values (r : Receipt) : list pystr :=
  let b := receipt_base r in
  [rb_receipt_reference b; rb_correlation_reference b; rb_causation_reference b]
  ++ option_list (rb_runtime_revision b) ++ option_list (rb_corrects_receipt_reference b)
  ++ option_list (rb_supersedes_receipt_reference b) ++ option_list (rb_reason_code b)
  ++ match rb_external_reference b with Some x => [er_system x; er_reference x] | None => [] end
  ++ match r with
     | ProposalReceipt _ _ principal agent => rp_reference principal :: option_list (pa_reference <$> agent)
     | AuthorityReceipt _ _ participant => [ca_reference participant]
     | ExecutionReceipt _ _ participant outcomes =>
         ge_reference participant :: mjoin ((λ o, io_item_reference o :: option_list (io_reason_code o)) <$> outcomes)
     | VerificationReceipt _ _ participant outcomes =>
         tg_reference participant :: mjoin ((λ o, io_item_reference o :: option_list (io_reason_code o)) <$> outcomes)
     | RecoveryReceipt _ _ participant => [ro_reference participant]
     end.

Definition receipt_tested (p : StoredProposal) (r : Receipt) : bool :=
  bool_decide (collate (rb_schema_version (receipt_base r)) = "internal/v0"%py)
  && bool_decide (collate (rb_correlation_reference (receipt_base r)) = collate (sp_proposal_reference p))
  && forallb safe_value (receipt_values r).

Definition proposal_values (p : StoredProposal) : list pystr :=
  [sp_tenant_reference p; sp_proposal_reference p; sp_semantic_effect_reference p]
  ++ option_list (sp_execution_precondition p) ++ option_list (sp_superseded_by p)
  ++ match sp_protected_private_snapshot p with
     | Some x => [pp_codec x; pp_key_handle x; pp_key_version x]
     | None => []
     end
  ++ match sp_commitment p with Some c => [kc_key_handle c; kc_key_version c; kc_digest c] | None => [] end
  ++ option_list (rp_reference <$> sp_requesting_principal p) ++ option_list (pa_reference <$> sp_proposing_agent p).

Definition erased_tested (p : StoredProposal) : bool :=
  negb (bool_decide (is_Some (sp_erased_at p)))
  || bool_decide (sp_protected_private_snapshot p = None) && bool_decide (sp_commitment p = None)
     && bool_decide (sp_display_preview p = []) && bool_decide (sp_requesting_principal p = None)
     && bool_decide (sp_proposing_agent p = None) && bool_decide (sp_authority_evidence p = [])
     && bool_decide (sp_receipts p = []) && bool_decide (sp_safe_result p = None)
     && bool_decide (sp_execution_precondition p = None) && bool_decide (sp_erasure_pending_at p = None).

Definition threvo_actions_validate_proposal_data (p : StoredProposal) : bool :=
  action_type_tested (sp_action_type p)
  && (Z.of_nat (length (octets (at_namespace (sp_action_type p)))) <=? 65535)%Z
  && (Z.of_nat (length (octets (at_name (sp_action_type p)))) <=? 65535)%Z
  && (at_version (sp_action_type p) <=? _MAX_MYSQL_INT_UNSIGNED)%Z
  && unsigned (sp_revision p) && unsigned (sp_verification_attempts p)
  && unsigned (sp_max_verification_attempts p) && (1 <=? sp_max_verification_attempts p)%Z
  && match sp_protected_private_snapshot p with
     | Some x => (1 <=? pystr_len (pp_ciphertext x))%nat && (Z.of_nat (pystr_len (pp_ciphertext x)) <=? 1048576)%Z
     | None => true
     end
  && forallb safe_value (proposal_values p)
  && (sp_created_at p <? sp_expires_at p)%Z
  && forallb (evidence_tested p) (sp_authority_evidence p)
  && forallb (receipt_tested p) (sp_receipts p)
  && erased_tested p.

(** A document parameter: parsed, then validated. *)
Definition with_document (text : pystr) (f : StoredProposal → Tables → res Z * Tables) (t : Tables) : res Z * Tables :=
  match stored_document text with
  | None => (fail (mysql_error INVALID_JSON), t)
  | Some document =>
      if threvo_actions_validate_proposal_data document then f document t else (fail (mysql_error SIGNALED), t)
  end.

Definition threvo_actions_create_proposal (row : MysqlRow) (_ : datetime) : Tables → res Z * Tables :=
  with_document (my_proposal_data row) (λ document t,
    if negb (my_revision row =? 0)%Z || negb (bool_decide (my_lifecycle_status row = AWAITING_AUTHORITY))
       || negb (bool_decide (sp_erasure_pending_at document = None))
       || negb (bool_decide (sp_erased_at document = None)) then (fail (mysql_error SIGNALED), t)
    else if negb (row_checks row document) then (fail (mysql_error CHECK_VIOLATED), t)
    else
      let key := my_key (my_tenant_reference row) (my_proposal_reference row) in
      match my_proposals t !! key with
      | Some _ => (fail (mysql_error DUPLICATE_KEY), t)
      | None => (Ok 1%Z, put_row key row t)
      end).

(** The row of a claim may be taken: authorized, unexpired, and not being erased. *)
Definition admissible (row : MysqlRow) (admitted_at now : datetime) : bool :=
  bool_decide (my_lifecycle_status row = AUTHORIZED)
  && (Z.max admitted_at now <? my_expires_at row)%Z
  && match stored_document (my_proposal_data row) with
     | Some document =>
         bool_decide (sp_erasure_pending_at document = None) && bool_decide (sp_erased_at document = None)
     | None => false
     end.

Definition put_claim_row (key : pystr * bytes) (claim : MysqlClaim) (t : Tables) : Tables :=
  mkTables (my_proposals t) (<[key := claim]> (my_claims t)).

Definition threvo_actions_claim_effect (tenant_reference proposal_reference : pystr) (admitted_at now : datetime)
  (t : Tables) : res Z * Tables :=
  match my_proposals t !! my_key tenant_reference proposal_reference with
  | Some row =>
      if admissible row admitted_at now then
        let key := (collate (my_tenant_reference row),
                    effect_identity (my_action_key row) (my_semantic_effect_reference row)) in
        match my_claims t !! key with
        | Some _ => (fail (mysql_error DUPLICATE_KEY), t)
        | None =>
            (Ok 1%Z, put_claim_row key (mkMysqlClaim (my_tenant_reference row) (my_action_key row)
                       (my_semantic_effect_reference row) (my_proposal_reference row) admitted_at) t)
        end
      else (Ok 0%Z, t)
  | None => (Ok 0%Z, t)
  end.

Definition threvo_actions_transfer_effect_claim (tenant_reference : pystr) (identity : bytes)
  (current_owner_reference replacement_reference : pystr) (admitted_at now : datetime) (t : Tables)
  : res Z * Tables :=
  let key := (collate tenant_reference, identity) in
  match my_claims t !! key with
  | Some claim =>
      let of_effect row :=
        same_effect (my_action_key row) (mc_action_key claim) (my_semantic_effect_reference row)
          (mc_semantic_effect_reference claim) in
      let owner_void :=
        match my_proposals t !! my_key (mc_tenant_reference claim) current_owner_reference with
        | Some owner => of_effect owner && bool_decide (my_lifecycle_status owner ∈ [FAILED_KNOWN; STALE])
        | None => false
        end in
      let replacement_open :=
        match my_proposals t !! my_key (mc_tenant_reference claim) replacement_reference with
        | Some replacement => of_effect replacement && admissible replacement admitted_at now
        | None => false
        end in
      if bool_decide (collate (mc_proposal_reference claim) = collate current_owner_reference)
         && owner_void && replacement_open then
        (Ok 1%Z, put_claim_row key (mkMysqlClaim (mc_tenant_reference claim) (mc_action_key claim)
                   (mc_semantic_effect_reference claim) replacement_reference admitted_at) t)
      else (Ok 0%Z, t)
  | None => (Ok 0%Z, t)
  end.

(** ** Documents compared member by member

    [JSON_REMOVE(document, ...) <=> JSON_REMOVE(document', ...)]: what is removed is
    reset, and the free documents are compared as the server compares JSON. *)

Definition same_document (a b : StoredProposal) : bool :=
  json_equal (sp_display_preview a) (sp_display_preview b)
  && match sp_safe_result a, sp_safe_result b with
     | Some x, Some y => json_equal x y
     | None, None => true
     | _, _ => false
     end
  && bool_decide (set_safe_result None (mkStoredProposal
       (sp_tenant_reference a) (sp_proposal_reference a) (sp_action_type a) (sp_semantic_effect_reference a)
       (sp_effect_kind a) (sp_lifecycle_status a) (sp_revision a) (sp_protected_private_snapshot a) (sp_commitment a)
       [] (sp_requesting_principal a) (sp_proposing_agent a) (sp_created_at a) (sp_expires_at a)
       (sp_authority_evidence a) (sp_receipts a) (sp_verification_attempts a) (sp_max_verification_attempts a)
       (sp_next_verification_at a) None (sp_execution_precondition a) (sp_superseded_by a)
       (sp_erasure_pending_at a) (sp_erased_at a))
     = set_safe_result None (mkStoredProposal
       (sp_tenant_reference b) (sp_proposal_reference b) (sp_action_type b) (sp_semantic_effect_reference b)
       (sp_effect_kind b) (sp_lifecycle_status b) (sp_revision b) (sp_protected_private_snapshot b) (sp_commitment b)
       [] (sp_requesting_principal b) (sp_proposing_agent b) (sp_created_at b) (sp_expires_at b)
       (sp_authority_evidence b) (sp_receipts b) (sp_verification_attempts b) (sp_max_verification_attempts b)
       (sp_next_verification_at b) None (sp_execution_precondition b) (sp_superseded_by b)
       (sp_erasure_pending_at b) (sp_erased_at b))).

(** Without the members a runtime update may change. *)
Definition runtime_remainder (p : StoredProposal) : StoredProposal :=
  mkStoredProposal
    (sp_tenant_reference p) (sp_proposal_reference p) (sp_action_type p) (sp_semantic_effect_reference p)
    (sp_effect_kind p) AWAITING_AUTHORITY 0 (sp_protected_private_snapshot p) (sp_commitment p)
    (sp_display_preview p) (sp_requesting_principal p) (sp_proposing_agent p) (sp_created_at p) 0 [] [] 0
    (sp_max_verification_attempts p) None None None None (sp_erasure_pending_at p) (sp_erased_at p).

(** Without those that completing an erasure changes. *)
Definition erasure_remainder (p : StoredProposal) : StoredProposal :=
  mkStoredProposal
    (sp_tenant_reference p) (sp_proposal_reference p) (sp_action_type p) (sp_semantic_effect_reference p)
    (sp_effect_kind p) (sp_lifecycle_status p) 0 None None [] None None (sp_created_at p) (sp_expires_at p) [] []
    (sp_verification_attempts p) (sp_max_verification_attempts p) None None None (sp_superseded_by p) None None.

Definition pending_remainder (p : StoredProposal) : StoredProposal := set_revision 0 (set_erasure_pending_at None p).

(** Evidence that an update appends is bound to the row, and has an audience. *)
Definition appended_evidence_bound (row : MysqlRow) (document : StoredProposal) (e : AuthorityEvidence) : bool :=
  bool_decide (collate (ae_tenant_reference e) = collate (my_tenant_reference row))
  && bool_decide (collate (ae_proposal_instance_reference e) = collate (my_proposal_reference row))
  && same_effect (_action_key (ae_action_type e)) (my_action_key row) (ae_semantic_effect_reference e)
       (my_semantic_effect_reference row)
  && match sp_commitment document with
     | Some commitment => bool_decide (collate (ae_proposal_commitment e) = collate (kc_digest commitment))
     | None => false
     end
  && negb (bool_decide (ae_audience e = [])).

Definition appended_receipt_bound (row : MysqlRow) (r : Receipt) : bool :=
  bool_decide (collate (rb_schema_version (receipt_base r)) = "internal/v0"%py)
  && bool_decide (collate (rb_correlation_reference (receipt_base r)) = collate (my_proposal_reference row)).

Definition append_only (row : MysqlRow) (old new : StoredProposal) : bool :=
  let n := length (sp_authority_evidence old) in
  let k := length (sp_receipts old) in
  (n <=? length (sp_authority_evidence new))%nat && (k <=? length (sp_receipts new))%nat
  && bool_decide (take n (sp_authority_evidence new) = sp_authority_evidence old)
  && forallb (appended_evidence_bound row old) (drop n (sp_authority_evidence new))
  && bool_decide (take k (sp_receipts new) = sp_receipts old)
  && forallb (appended_receipt_bound row) (drop k (sp_receipts new)).

Definition threvo_actions_runtime_update_proposal (tenant_reference proposal_reference : pystr)
  (expected_revision : Z) (expected_status status : LifecycleStatus) (revision : Z) (expires_at : datetime)
  (text : pystr) (_ : datetime) : Tables → res Z * Tables :=
  with_document text (λ new t,
    let key := my_key tenant_reference proposal_reference in
    match my_proposals t !! key with
    | None => (Ok 0%Z, t)
    | Some row =>
        match stored_document (my_proposal_data row) with
        | None => (Ok 0%Z, t)
        | Some old =>
            if (my_revision row =? expected_revision)%Z
               && bool_decide (my_lifecycle_status row = expected_status)
               && append_only row old new
               && same_document (runtime_remainder old) (runtime_remainder new)
            then update_row key row status revision expires_at text new t
            else (Ok 0%Z, t)
        end
    end).

Definition threvo_actions_mark_erasure_pending (tenant_reference proposal_reference : pystr)
  (expected_revision : Z) (text : pystr) (_ : datetime) : Tables → res Z * Tables :=
  with_document text (λ new t,
    let key := my_key tenant_reference proposal_reference in
    match my_proposals t !! key with
    | None => (Ok 0%Z, t)
    | Some row =>
        match stored_document (my_proposal_data row) with
        | None => (Ok 0%Z, t)
        | Some old =>
            if (my_revision row =? expected_revision)%Z
               && bool_decide (my_lifecycle_status row ∉ [EXECUTING; FAILED_UNKNOWN; VERIFICATION_PENDING])
               && bool_decide (sp_erasure_pending_at old = None) && bool_decide (sp_erased_at old = None)
               && bool_decide (sp_erasure_pending_at new ≠ None) && bool_decide (sp_erased_at new = None)
               && same_document (pending_remainder old) (pending_remainder new)
            then update_row key row (my_lifecycle_status row) (expected_revision + 1) (my_expires_at row) text new t
            else (Ok 0%Z, t)
        end
    end).

Definition threvo_actions_complete_erasure (tenant_reference proposal_reference : pystr)
  (expected_revision : Z) (text : pystr) (_ : datetime) : Tables → res Z * Tables :=
  with_document text (λ new t,
    let key := my_key tenant_reference proposal_reference in
    match my_proposals t !! key with
    | None => (Ok 0%Z, t)
    | Some row =>
        match stored_document (my_proposal_data row) with
        | None => (Ok 0%Z, t)
        | Some old =>
            if (my_revision row =? expected_revision)%Z
               && bool_decide (sp_erasure_pending_at old ≠ None) && bool_decide (sp_erased_at old = None)
               && bool_decide (sp_erased_at new ≠ None) && bool_decide (sp_erasure_pending_at new = None)
               && negb (holds_content new)
               && same_document (erasure_remainder old) (erasure_remainder new)
            then update_row key row (my_lifecycle_status row) (expected_revision + 1) (my_expires_at row) text new t
            else (Ok 0%Z, t)
        end
    end).

(** * The operations *)

(** [try ... except Exception as exc]. *)
Definition except {A} (handler : exn → res A) (m : atomic MysqlDatabase A) : atomic MysqlDatabase A := λ db,
  match m db with (Err e, db') => (handler e, db') | r => r end.

(** [_procedure_rowcount], and what is made of a count that is not one. *)
Definition one_row (message : pystr) (call : datetime → Tables → res Z * Tables) : atomic MysqlDatabase unit :=
  changed ← statement call;
  atomic_lift (if (changed =? 1)%Z then Ok () else fail (StoreInvariantError message)).

Definition _runtime_update (current updated : StoredProposal) : atomic MysqlDatabase unit :=
  one_row "guarded MySQL update lost its locked proposal"
    (threvo_actions_runtime_update_proposal (sp_tenant_reference current) (sp_proposal_reference current)
       (sp_revision current) (sp_lifecycle_status current) (sp_lifecycle_status updated) (sp_revision updated)
       (sp_expires_at updated) (_mysql_proposal_json updated)).

Definition my_create (proposal : StoredProposal) : atomic MysqlDatabase unit :=
  proposal ← atomic_lift (_validated_proposal proposal);
  _ ← atomic_lift (validate_proposal_create proposal);
  except (λ e, if error_code_is DUPLICATE_KEY e then fail (ProposalAlreadyExistsError "proposal already exists") else Err e)
    (unit_of_work (
       _ ← one_row "MySQL proposal creation was not applied" (threvo_actions_create_proposal (mysql_row proposal));
       mret (tt, true))).

Definition my_get (tenant_reference proposal_reference : pystr) : atomic MysqlDatabase (option StoredProposal) :=
  unit_of_work (proposal ← _load tenant_reference proposal_reference; mret (proposal, false)).

Definition effect_owner (tenant_reference : pystr) (action_type : ActionType) (effect : pystr)
  (claim : option MysqlClaim) : res (option pystr) :=
  match claim with
  | None => Ok None
  | Some claim =>
      if negb (bool_decide (mc_tenant_reference claim = tenant_reference)) then Ok None
      else if negb (bool_decide ((mc_action_key claim, mc_semantic_effect_reference claim)
                                 = (_action_key action_type, effect))) then fail corrupt
      else Ok (Some (mc_proposal_reference claim))
  end.

Definition _effect_owner (tenant_reference : pystr) (action_type : ActionType) (effect : pystr)
  : atomic MysqlDatabase (option pystr) :=
  _ ← atomic_lift (_text tenant_reference);
  identity ← atomic_lift (_effect_identity action_type effect);
  claim ← select (λ t, my_claims t !! (collate tenant_reference, identity));
  atomic_lift (effect_owner tenant_reference action_type effect claim).

Definition my_get_effect_claim_owner (tenant_reference : pystr) (action_type : ActionType) (effect : pystr)
  : atomic MysqlDatabase (option pystr) :=
  unit_of_work (owner ← _effect_owner tenant_reference action_type effect; mret (owner, false)).

Definition _claim_owner (proposal : StoredProposal) : atomic MysqlDatabase (option pystr) :=
  _effect_owner (sp_tenant_reference proposal) (sp_action_type proposal) (sp_semantic_effect_reference proposal).

Definition my_compare_and_set (tenant_reference proposal_reference : pystr) (expected_revision : Z)
  (expected_statuses : list LifecycleStatus) (updated : StoredProposal) : atomic MysqlDatabase bool :=
  updated ← atomic_lift (_validated_proposal updated);
  unit_of_work (
    loaded ← _load tenant_reference proposal_reference;
    match (loaded : option StoredProposal) with
    | None => mret (false, false)
    | Some current =>
        if negb (sp_revision current =? expected_revision)%Z
           || negb (bool_decide (sp_lifecycle_status current ∈ expected_statuses)) then mret (false, false)
        else
          _ ← atomic_lift (validate_proposal_update current updated);
          _ ← (if bool_decide (sp_lifecycle_status updated = EXECUTING)
                  && negb (bool_decide (sp_lifecycle_status current = EXECUTING)) then
                 owner ← _claim_owner current;
                 atomic_lift (if bool_decide (owner = Some (sp_proposal_reference current)) then Ok ()
                              else fail (StoreInvariantError
                                "execution requires this proposal to own the semantic effect claim"))
               else mret ());
          _ ← _runtime_update current updated;
          mret (true, true)
    end).

(** The insertion of a claim: another transaction may have been first. *)
Definition acquire_claim (proposal : StoredProposal) (admitted_at : datetime) : atomic MysqlDatabase EffectClaimResult :=
  except (λ e, if error_code_is DUPLICATE_KEY e then Ok CONFLICT else Err e)
    (_ ← one_row "guarded MySQL effect claim was refused"
           (threvo_actions_claim_effect (sp_tenant_reference proposal) (sp_proposal_reference proposal) admitted_at);
     mret ACQUIRED).

Definition _claim_effect (proposal : StoredProposal) (admitted_at : datetime) : atomic MysqlDatabase EffectClaimResult :=
  identity ← atomic_lift (_effect_identity (sp_action_type proposal) (sp_semantic_effect_reference proposal));
  owner ← _claim_owner proposal;
  match (owner : option pystr) with
  | None => acquire_claim proposal admitted_at
  | Some owner =>
      if bool_decide (owner = sp_proposal_reference proposal) then mret OWNED_BY_PROPOSAL
      else
        changed ← statement (threvo_actions_transfer_effect_claim (sp_tenant_reference proposal) identity owner
                               (sp_proposal_reference proposal) admitted_at);
        mret (if (changed =? 1)%Z then ACQUIRED else CONFLICT)
  end.

Definition _admit_execution_once (tenant_reference proposal_reference : pystr) (expected_revision : Z)
  (admitted_at : datetime) (updated : StoredProposal) : atomic MysqlDatabase EffectClaimResult :=
  unit_of_work (
    loaded ← _load tenant_reference proposal_reference;
    match (loaded : option StoredProposal) with
    | None => mret (PROPOSAL_NOT_FOUND, false)
    | Some current =>
        database_now ← statement (λ now t, (Ok now, t));
        if negb (sp_revision current =? expected_revision)%Z
           || negb (bool_decide (sp_lifecycle_status current = AUTHORIZED))
           || bool_decide (is_Some (sp_erasure_pending_at current))
           || bool_decide (is_Some (sp_erased_at current))
           || (sp_expires_at current <=? admitted_at)%Z || (sp_expires_at current <=? database_now)%Z then
          mret (PROPOSAL_NOT_AUTHORIZED, false)
        else
          _ ← atomic_lift (validate_proposal_update current updated);
          _ ← atomic_lift (if bool_decide (sp_lifecycle_status updated = EXECUTING) then Ok ()
                           else fail (StoreInvariantError "execution admission must enter executing"));
          claim ← _claim_effect current admitted_at;
          if bool_decide (claim = CONFLICT) then mret (claim, false)
          else _ ← _runtime_update current updated; mret (claim, true)
    end).

(** [range(3)]: a lock that was not granted and a deadlock are tried again. *)
Fixpoint attempts {A} (more : nat) (once : atomic MysqlDatabase A) : atomic MysqlDatabase A := λ db,
  match once db with
  | (Err e, db') =>
      match more with
      | O => (Err e, db')
      | S more => if error_code_is 1205 e || error_code_is 1213 e then attempts more once db' else (Err e, db')
      end
  | r => r
  end.

Definition my_admit_execution (tenant_reference proposal_reference : pystr) (expected_revision : Z)
  (admitted_at : datetime) (updated : StoredProposal) : atomic MysqlDatabase EffectClaimResult :=
  admitted_at ← atomic_lift (_validated_datetime admitted_at);
  updated ← atomic_lift (_validated_proposal updated);
  attempts 2 (_admit_execution_once tenant_reference proposal_reference expected_revision admitted_at updated).

Definition my_mark_erasure_pending (tenant_reference proposal_reference : pystr) (expected_revision : Z)
  (pending_at : datetime) : atomic MysqlDatabase bool :=
  pending_at ← atomic_lift (_validated_datetime pending_at);
  unit_of_work (
    loaded ← _load tenant_reference proposal_reference;
    match (loaded : option StoredProposal) with
    | None => mret (false, false)
    | Some current =>
        if negb (sp_revision current =? expected_revision)%Z
           || negb (bool_decide (sp_lifecycle_status current ∈ ERASABLE_LIFECYCLE_STATUSES))
           || bool_decide (is_Some (sp_erased_at current)) then mret (false, false)
        else if bool_decide (is_Some (sp_erasure_pending_at current)) then mret (true, false)
        else
          updated ← atomic_lift (_validated_proposal (proposal_with_erasure_pending current pending_at));
          _ ← atomic_lift (validate_proposal_update current updated);
          _ ← one_row "guarded MySQL erasure update was refused"
                (threvo_actions_mark_erasure_pending tenant_reference proposal_reference expected_revision
                   (_mysql_proposal_json updated));
          mret (true, true)
    end).

Definition my_complete_erasure (tenant_reference proposal_reference : pystr) (expected_revision : Z)
  (erased_at : datetime) : atomic MysqlDatabase bool :=
  erased_at ← atomic_lift (_validated_datetime erased_at);
  unit_of_work (
    loaded ← _load tenant_reference proposal_reference;
    match (loaded : option StoredProposal) with
    | None => mret (false, false)
    | Some current =>
        if negb (sp_revision current =? expected_revision)%Z
           || bool_decide (sp_erasure_pending_at current = None)
           || bool_decide (is_Some (sp_erased_at current)) then mret (false, false)
        else
          updated ← atomic_lift (_validated_proposal (erased_proposal current erased_at));
          _ ← atomic_lift (validate_proposal_update current updated);
          _ ← one_row "guarded MySQL erasure completion was refused"
                (threvo_actions_complete_erasure tenant_reference proposal_reference expected_revision
                   (_mysql_proposal_json updated));
          mret (true, true)
    end).

Definition mysql_run (o : store_op) : atomic MysqlDatabase (store_resp o) :=
  match o with
  | Create p => my_create p
  | Get t p => my_get t p
  | CompareAndSet t p revision statuses updated => my_compare_and_set t p revision statuses updated
  | AdmitExecution t p revision admitted_at updated => my_admit_execution t p revision admitted_at updated
  | GetEffectClaimOwner t a e => my_get_effect_claim_owner t a e
  | MarkErasurePending t p revision at_ => my_mark_erasure_pending t p revision at_
  | CompleteErasure t p revision at_ => my_complete_erasure t p revision at_
  end.

(** What a client can observe: the rows that can be read, and the owners of
    claims. *)
Definition row_view (row : MysqlRow) : option StoredProposal :=
  match load_row (my_tenant_reference row) (my_proposal_reference row) (Some row) with Ok p => p | Err _ => None end.

Definition claim_row_key (c : MysqlClaim) : ClaimKey :=
  (mc_tenant_reference c, mc_action_key c, mc_semantic_effect_reference c).

Definition claims_view (claims : gmap (pystr * bytes) MysqlClaim) : gmap ClaimKey pystr :=
  list_to_map ((λ '(_, c), (claim_row_key c, mc_proposal_reference c)) <$> map_to_list claims).

Definition mysql_view (t : Tables) : StoreView :=
  mkStoreView (map_imap (λ _ row, row_view row) (my_proposals t)) (claims_view (my_claims t)).
End Mysql.
