(* ===== verification/MysqlRefinement.v ===== *)
(** The MySQL store keeps the persistence contract, whatever statements fail,
    whatever the clock shows, and whatever SHA-256 makes of effects. *)

From S2P Require Import Prelude Models Canonical Authority Receipts Registry StoreBase StoredValidity.
From S2P Require Import StoreContract Documents Sessions MysqlStore.

(** * Text that is compared with padding *)

Lemma lstrip_head l : lstrip_points l = [] ∨ ∃ c r, lstrip_points l = c :: r ∧ is_space c = false.
Proof. induction l as [|c l IH]; [by left|]. simpl. destruct (is_space c) eqn:E; [done|]. eauto. Qed.

Lemma drop_blanks_lstrip l : drop_blanks (lstrip_points l) = lstrip_points l.
Proof.
  destruct (lstrip_head l) as [->|(c & r & -> & Hc)]; [done|]. simpl.
  destruct (N.eqb_spec c 32) as [->|]; [done|]. done.
Qed.

Section Refinement.
Context `{U : Unicode, V : !MySqlServer}.

(** A document the server keeps is read back. *)
Lemma document_kept p :
  stored_proposal_valid p = true → document_exact p = true →
  stored_document (_mysql_proposal_json p) = Some p.
Proof.
  intros Hv [Hn%bool_decide_eq_true He]%andb_prop. unfold stored_document.
  rewrite column_document_kept by done. by rewrite Hn.
Qed.

Lemma collate_safe s : safe_reference s = true → collate s = s.
Proof.
  unfold safe_reference, SafeReference, _validate_safe_reference. intros H. do 2 (split_if; [|done]).
  destruct (bool_decide (s = strip s)) eqn:E; [|done]. apply bool_decide_eq_true in E.
  unfold collate. rewrite E. unfold strip. cbn [code_points].
  assert (∀ x : list N, rev x = reverse x) as Hr by (intros x; apply rev_alt).
  by rewrite !Hr, reverse_involutive, drop_blanks_lstrip.
Qed.

Lemma safe_stored p :
  stored_proposal_valid p = true →
  collate (sp_tenant_reference p) = sp_tenant_reference p ∧ collate (sp_proposal_reference p) = sp_proposal_reference p ∧
  my_key (sp_tenant_reference p) (sp_proposal_reference p) = proposal_key p.
Proof.
  unfold stored_proposal_valid. intros H. repeat (apply andb_prop in H as [H ?]).
  unfold my_key, proposal_key. rewrite !collate_safe by done. done.
Qed.

(** * What the tables hold *)

Definition row_ok (key : ProposalKey) (row : MysqlRow) : Prop :=
  ∃ p, key = proposal_key p ∧ row = mysql_row p ∧ stored_proposal_valid p = true ∧ document_exact p = true.

Definition primary_key (c : ClaimKey) : pystr * bytes := (c.1.1, effect_identity c.1.2 c.2).

Record claim_ok (key : pystr * bytes) (c : MysqlClaim) : Prop := {
  claim_primary : key = primary_key (claim_row_key c);
  claim_tenant : collate (mc_tenant_reference c) = mc_tenant_reference c;
  claim_proposal : collate (mc_proposal_reference c) = mc_proposal_reference c
}.

Record tables_ok (t : Tables) : Prop := {
  rows_ok : ∀ key row, my_proposals t !! key = Some row → row_ok key row;
  claims_ok : ∀ key c, my_claims t !! key = Some c → claim_ok key c
}.

Lemma row_view_of p : stored_proposal_valid p = true → document_exact p = true → row_view (mysql_row p) = Some p.
Proof.
  intros Hv He. unfold row_view, load_row. simpl. rewrite (bool_decide_eq_true_2 (_ = _)) by done. simpl.
  rewrite document_kept by done. by rewrite bool_decide_eq_true_2.
Qed.

Lemma view_row t k p :
  tables_ok t →
  proposals (mysql_view t) !! k = Some p ↔
    my_proposals t !! k = Some (mysql_row p) ∧ k = proposal_key p ∧
    stored_proposal_valid p = true ∧ document_exact p = true.
Proof.
  intros Hok. simpl. rewrite map_lookup_imap. split.
  - intros (row & Hrow & Hp)%bind_Some. destruct (rows_ok t Hok k row Hrow) as (q & -> & -> & Hv & He).
    rewrite row_view_of in Hp by done. by simplify_eq.
  - intros (-> & -> & Hv & He). simpl. by apply row_view_of.
Qed.

Lemma load_row_view t T R :
  tables_ok t → load_row T R (my_proposals t !! my_key T R) = Ok (proposals (mysql_view t) !! (T, R)).
Proof.
  intros Hok.
  assert (∀ p, proposals (mysql_view t) !! (T, R) = Some p →
    my_proposals t !! my_key T R = Some (mysql_row p) ∧ (T, R) = proposal_key p) as Hin.
  { intros p (Hr & Hk & Hv & He)%view_row; [|done]. split; [|done]. unfold proposal_key in Hk. simplify_eq.
    destruct (safe_stored p Hv) as (_ & _ & ->). done. }
  destruct (my_proposals t !! my_key T R) as [row|] eqn:Hrow.
  - destruct (rows_ok t Hok _ _ Hrow) as (p & Hk & -> & Hv & He). unfold load_row. cbn [my_tenant_reference my_proposal_reference mysql_row].
    case_bool_decide as Ht; cbn [negb].
    + injection Ht as <- <-. cbn [my_proposal_data mysql_row]. rewrite document_kept, bool_decide_eq_true_2 by done. cbn [negb]. f_equal. symmetry.
      destruct (safe_stored p Hv) as (_ & _ & Hs). rewrite Hs in Hrow. apply view_row; [done|]. by split_and!.
    + f_equal. symmetry. destruct (proposals (mysql_view t) !! (T, R)) as [q|] eqn:E; [|done]. exfalso.
      destruct (Hin q eq_refl) as [Hq Hkq]. injection Hq as Hq. injection Hkq as -> ->. apply Ht. f_equal; congruence.
  - f_equal. symmetry. destruct (proposals (mysql_view t) !! (T, R)) as [q|] eqn:E; [|done].
    by destruct (Hin q eq_refl).
Qed.

(** ** Claims *)

Lemma claims_view_lookup t c owner :
  tables_ok t →
  effect_claims (mysql_view t) !! c = Some owner ↔
    ∃ row, my_claims t !! primary_key c = Some row ∧ claim_row_key row = c ∧ mc_proposal_reference row = owner.
Proof.
  intros Hok. simpl. unfold claims_view. split.
  - intros ([k row] & E & Hin)%elem_of_list_to_map_2%list_elem_of_fmap. simplify_eq.
    apply elem_of_map_to_list in Hin. exists row. split; [|done].
    by rewrite <-(claim_primary _ _ (claims_ok t Hok _ _ Hin)).
  - intros (row & Hrow & <- & <-). apply elem_of_list_to_map_1.
    + rewrite <-list_fmap_compose. apply NoDup_fmap_2_strong; [|apply NoDup_map_to_list].
      intros [k x] [k' x'] Hx Hx' E. simpl in E. apply elem_of_map_to_list in Hx, Hx'.
      assert (k = k') as ->.
      { rewrite (claim_primary _ _ (claims_ok t Hok _ _ Hx)), (claim_primary _ _ (claims_ok t Hok _ _ Hx')). by rewrite E. }
      congruence.
    + apply list_elem_of_fmap. exists (primary_key (claim_row_key row), row). split; [done|]. by apply elem_of_map_to_list.
Qed.

Lemma view_put t p :
  tables_ok t → stored_proposal_valid p = true → document_exact p = true →
  let t' := put_row (proposal_key p) (mysql_row p) t in
  tables_ok t' ∧ mysql_view t' = put_proposal (proposal_key p) p (mysql_view t).
Proof.
  intros Hok Hv He. split.
  - split; [|exact (claims_ok t Hok)]. intros k row. simpl. intros [[<- <-]|[_ Hk]]%lookup_insert_Some; [by exists p|by apply (rows_ok t)].
  - unfold mysql_view, put_proposal. simpl. f_equal. apply map_eq. intros k.
    rewrite map_lookup_imap. destruct (decide (k = proposal_key p)) as [->|Hne].
    + rewrite !lookup_insert_eq. simpl. by apply row_view_of.
    + by rewrite !lookup_insert_ne, map_lookup_imap by done.
Qed.

Lemma view_put_claim t c :
  tables_ok t → claim_ok (primary_key (claim_row_key c)) c →
  (∀ c', my_claims t !! primary_key (claim_row_key c) = Some c' → claim_row_key c' = claim_row_key c) →
  let t' := put_claim_row (primary_key (claim_row_key c)) c t in
  tables_ok t' ∧ mysql_view t' = put_claim (claim_row_key c) (mc_proposal_reference c) (mysql_view t).
Proof.
  intros Hok Hc Hsame t'.
  assert (tables_ok t') as Hok'.
  { split; [exact (rows_ok t Hok)|]. intros k x. simpl. intros [[<- <-]|[_ Hk]]%lookup_insert_Some; [done|by apply (claims_ok t)]. }
  split; [done|]. unfold put_claim.
  assert (effect_claims (mysql_view t') = <[claim_row_key c := mc_proposal_reference c]> (effect_claims (mysql_view t))) as <-; [|done].
  apply map_eq. intros k. apply option_eq. intros owner. rewrite claims_view_lookup by done.
  rewrite lookup_insert_Some, claims_view_lookup by done. cbn [my_claims t' put_claim_row]. split.
  - intros (row & [[Hk <-]|[Hk Hrow]]%lookup_insert_Some & <- & <-); [by left|]. right. split; [|by exists row].
    intros E. apply Hk. by rewrite E.
  - intros [[<- <-]|[Hne (row & Hrow & <- & <-)]].
    + exists c. by rewrite lookup_insert_eq.
    + exists row. split; [|done]. rewrite lookup_insert_ne; [done|]. intros E. rewrite <-E in Hrow.
      apply Hne. by rewrite (Hsame row Hrow).
Qed.

(** * Triples

    Only what ends well matters of the body of a unit of work: the rest is rolled
    back. *)

Definition yields {A} (t : Tables) (m : atomic MysqlDatabase A) (Q : A → Tables → Prop) : Prop :=
  ∀ db a db', db_tables db = t → m db = (Ok a, db') → Q a (db_tables db').

Lemma yields_ret {A} t (a : A) Q : Q a t → yields t (mret a) Q.
Proof. intros H db b db' <- [= <- <-]. done. Qed.

Lemma yields_bind {A B} t (m : atomic MysqlDatabase A) (f : A → atomic MysqlDatabase B) Q :
  yields t m (λ a t', yields t' (f a) Q) → yields t (m ≫= f) Q.
Proof.
  intros H db b db' Ht. unfold mbind, atomic_bind. destruct (m db) as [[a|e] db1] eqn:E; [|done].
  by apply (H db a db1 Ht E).
Qed.

Lemma yields_lift {A} t (r : res A) (Q : A → Tables → Prop) :
  (∀ a, r = Ok a → Q a t) → yields t (atomic_lift r) Q.
Proof. intros H db a db' <- [= -> <-]. by apply H. Qed.

Lemma yields_statement {A} t (m : datetime → Tables → res A * Tables) (Q : A → Tables → Prop) :
  (∀ now a t', m now t = (Ok a, t') → Q a t') → yields t (statement m) Q.
Proof.
  intros H db a db' <-. unfold statement. set (now := default 0%Z _).
  destruct (db_errors db) as [|[e|] es]; [| done |];
    (destruct (m now (db_tables db)) as [[b|e'] t'] eqn:E; [|done]); intros [= <- <-]; by eapply H.
Qed.

Lemma yields_select {A} t (f : Tables → A) (Q : A → Tables → Prop) : Q (f t) t → yields t (select f) Q.
Proof. intros H. apply yields_statement. by intros now a t' [= <- <-]. Qed.

Lemma yields_except {A} t (handler : exn → res A) m (Q : A → Tables → Prop) :
  yields t m Q → (∀ e a t', handler e = Ok a → Q a t') → yields t (except handler m) Q.
Proof.
  intros Hm Hh db a db' Ht. unfold except. destruct (m db) as [[b|e] db1] eqn:E.
  - intros [= <- <-]. by eapply Hm.
  - intros [= H <-]. by eapply Hh.
Qed.

Lemma yields_mono {A} t m (Q Q' : A → Tables → Prop) :
  yields t m Q → (∀ a t', Q a t' → Q' a t') → yields t m Q'.
Proof. intros H HQ db a db' Ht E. by eapply HQ, H. Qed.

Lemma yields_one_row t message call (Q : unit → Tables → Prop) :
  (∀ now t', call now t = (Ok 1%Z, t') → Q tt t') → yields t (one_row message call) Q.
Proof.
  intros H. apply yields_bind, yields_statement. intros now n t' E. apply yields_lift. intros [] Hn.
  destruct (Z.eqb_spec n 1) as [->|]; [by eapply H|done].
Qed.

(** What a whole operation does; one that raises does nothing. *)
Definition performs {A} (t : Tables) (m : atomic MysqlDatabase A) (P : A → Tables → Prop) : Prop :=
  ∀ db, db_tables db = t →
    match m db with
    | (Ok a, db') => P a (db_tables db')
    | (Err _, db') => db_tables db' = t
    end.

Lemma performs_unit {A} t (body : atomic MysqlDatabase (A * bool)) (P : A → Tables → Prop) :
  yields t body (λ x t', P x.1 (if x.2 : bool then t' else t)) → performs t (unit_of_work body) P.
Proof.
  intros H db Ht. unfold unit_of_work. destruct (body db) as [[[a commit]|e] db1] eqn:E; [|done].
  specialize (H db _ db1 Ht E). simpl in H. destruct commit; [|by rewrite <-Ht in H].
  unfold select, statement. by destruct (db_errors db1) as [|[e|] es].
Qed.

Lemma performs_lift {A B} t (r : res A) (f : A → atomic MysqlDatabase B) P :
  (∀ a, r = Ok a → performs t (f a) P) → performs t (x ← atomic_lift r; f x) P.
Proof.
  intros H db Ht. unfold mbind, atomic_bind, atomic_lift. destruct r as [a|e]; [by apply H|done].
Qed.

Lemma performs_except {A} t (handler : exn → res A) m P :
  performs t m P → (∀ e, ∃ e', handler e = Err e') → performs t (except handler m) P.
Proof.
  intros H Hh db Ht. specialize (H db Ht). unfold except. destruct (m db) as [[a|e] db']; [done|].
  by destruct (Hh e) as [e' ->].
Qed.

Lemma performs_attempts {A} t n (once : atomic MysqlDatabase A) P :
  performs t once P → performs t (attempts n once) P.
Proof.
  intros H. induction n as [|n IH]; intros db Ht; simpl; specialize (H db Ht);
    destruct (once db) as [[a|e] db']; try done.
  split_if; [by apply IH|done].
Qed.

(** * Statements *)

Lemma load_yields t T R : tables_ok t → yields t (_load T R) (λ x t', t' = t ∧ x = proposals (mysql_view t) !! (T, R)).
Proof.
  intros Hok. apply yields_bind, yields_lift. intros _ _. apply yields_bind, yields_lift. intros _ _.
  apply yields_bind, yields_select, yields_lift. intros x Hx. rewrite load_row_view in Hx by done. by injection Hx as <-.
Qed.

(** [_effect_identity] is the identity the schema computes. *)
Lemma utf8_octets s b : _utf8 s = Ok b → b = octets s.
Proof. unfold _utf8, octets. destruct (utf8 (code_points s)); [congruence|done]. Qed.

Lemma effect_identity_eq a e d : _effect_identity a e = Ok d → d = effect_identity (_action_key a) e.
Proof.
  unfold _effect_identity. intros (? & _ & H)%res_bind_Ok. apply res_bind_Ok in H as (n & ->%utf8_octets & H).
  apply res_bind_Ok in H as (m & ->%utf8_octets & H). apply res_bind_Ok in H as (r & ->%utf8_octets & <-%Ok_inj).
  unfold effect_identity, effect_canonical. simpl. by rewrite app_nil_r.
Qed.

Lemma owner_yields t T a e :
  tables_ok t → yields t (_effect_owner T a e) (λ x t', t' = t ∧ x = effect_claims (mysql_view t) !! claim_key_of T a e).
Proof.
  intros Hok. apply yields_bind, yields_lift. intros _ _. apply yields_bind, yields_lift. intros d ->%effect_identity_eq.
  apply yields_bind, yields_select, yields_lift. intros x Hx. split; [done|].
  assert (∀ o, effect_claims (mysql_view t) !! claim_key_of T a e = Some o →
    ∃ row, my_claims t !! (collate T, effect_identity (_action_key a) e) = Some row ∧
      claim_row_key row = claim_key_of T a e ∧ mc_proposal_reference row = o) as Hin.
  { intros o (row & Hrow & Hk & Ho)%claims_view_lookup; [|done]. exists row. split; [|done].
    assert (collate T = T) as ->; [|done]. destruct (claims_ok t Hok _ _ Hrow) as [_ Ht _].
    unfold claim_row_key, claim_key_of in Hk. by injection Hk as <- _ _. }
  unfold effect_owner in Hx. destruct (my_claims t !! _) as [row|] eqn:Hrow.
  - case_bool_decide as Ht; cbn [negb] in Hx.
    + case_bool_decide as Hf; cbn [negb] in Hx; [|done]. injection Hx as <-. symmetry. apply claims_view_lookup; [done|].
      destruct (claims_ok t Hok _ _ Hrow) as [Hk _ _]. exists row.
      assert (claim_row_key row = claim_key_of T a e) as E.
      { unfold claim_row_key, claim_key_of. injection Hf as Hf1 Hf2. by rewrite Ht, Hf1, Hf2. }
      split; [|done]. rewrite <-E, <-Hk. exact Hrow.
    + injection Hx as <-. destruct (effect_claims _ !! _) as [o|] eqn:E; [|done]. exfalso.
      destruct (Hin o eq_refl) as (row' & Hrow' & Hk & _). unfold claim_row_key, claim_key_of in Hk. congruence.
  - injection Hx as <-. destruct (effect_claims _ !! _) as [o|] eqn:E; [|done].
    by destruct (Hin o eq_refl) as (row' & Hrow' & _).
Qed.

(** A stored proposal and its row. *)
Lemma stored_row t T R current :
  tables_ok t → proposals (mysql_view t) !! (T, R) = Some current →
  (T, R) = proposal_key current ∧ stored_proposal_valid current = true ∧ document_exact current = true ∧
  my_proposals t !! proposal_key current = Some (mysql_row current) ∧ my_key T R = proposal_key current.
Proof.
  intros Hok (Hrow & Hk & Hv & He)%view_row; [|done]. split_and!; try done; [by rewrite <-Hk|].
  unfold proposal_key in Hk. injection Hk as -> ->. by apply safe_stored.
Qed.

(** An UPDATE of the row of [current] with the columns of [updated] stores
    [updated]. *)
Lemma update_row_stores t current updated n t' :
  tables_ok t → proposal_identity current = proposal_identity updated →
  stored_proposal_valid updated = true → document_exact updated = true →
  update_row (proposal_key current) (mysql_row current) (sp_lifecycle_status updated) (sp_revision updated)
    (sp_expires_at updated) (_mysql_proposal_json updated) updated t = (Ok n, t') →
  tables_ok t' ∧ mysql_view t' = put_proposal (proposal_key current) updated (mysql_view t).
Proof.
  intros Hok Hid Hv He. unfold update_row. cbv zeta. do 2 (split_if; [done|]). intros [= _ <-].
  unfold proposal_identity in Hid.
  assert (proposal_key current = proposal_key updated) as Hk by (unfold proposal_key; congruence).
  assert (mysql_row updated = mkMysqlRow (sp_tenant_reference current) (sp_proposal_reference current)
    (_action_key (sp_action_type current)) (sp_semantic_effect_reference current) (sp_effect_kind current)
    (sp_lifecycle_status updated) (sp_revision updated) (sp_created_at current) (sp_expires_at updated)
    (_mysql_proposal_json updated)) as Hrow by (unfold mysql_row; congruence).
  rewrite Hk. cbn [mysql_row my_tenant_reference my_proposal_reference my_action_key my_semantic_effect_reference
    my_effect_kind my_created_at]. rewrite <-Hrow. by apply view_put.
Qed.

Lemma validated_Ok p q : _validated_proposal p = Ok q → q = p ∧ stored_proposal_valid p = true.
Proof.
  unfold _validated_proposal. split_if; [done|]. to_prop. intros (? & _ & H)%res_bind_Ok. split_if; [done|].
  do 3 apply res_bind_Ok in H as (? & _ & H). by injection H as <-.
Qed.

Lemma validated_datetime_Ok a b : _validated_datetime a = Ok b → b = a.
Proof. unfold _validated_datetime. split_if; [done|]. by intros [= ->]. Qed.

Lemma exact_pending p at_ : document_exact p = true → document_exact (proposal_with_erasure_pending p at_) = true.
Proof.
  intros [Hn%bool_decide_eq_true He]%andb_prop. apply andb_true_iff. split; [|exact He].
  apply bool_decide_eq_true_2. change (proposal_with_erasure_pending (by_name_record p) at_ = proposal_with_erasure_pending p at_).
  by rewrite Hn.
Qed.

Lemma exact_erased p at_ : document_exact (erased_proposal p at_) = true.
Proof. apply andb_true_iff. split; [|done]. by apply bool_decide_eq_true_2. Qed.

Section Stored.
Context (t : Tables) (T R : pystr) (current : StoredProposal).
Hypothesis (Hok : tables_ok t) (Hcurrent : proposals (mysql_view t) !! (T, R) = Some current).

(** A procedure that writes a document starts from the stored one. *)
Lemma with_document_stored updated f n t' :
  stored_proposal_valid updated = true → document_exact updated = true →
  with_document (_mysql_proposal_json updated) f t = (Ok n, t') → f updated t = (Ok n, t').
Proof.
  intros Hv He. unfold with_document. rewrite document_kept by done. by split_if.
Qed.

Lemma runtime_update_yields updated (Q : unit → Tables → Prop) :
  proposal_identity current = proposal_identity updated →
  stored_proposal_valid updated = true → document_exact updated = true →
  (∀ t', tables_ok t' → mysql_view t' = put_proposal (T, R) updated (mysql_view t) → Q tt t') →
  yields t (_runtime_update current updated) Q.
Proof.
  intros Hid Hv He HQ. destruct (stored_row _ _ _ _ Hok Hcurrent) as (Hk & Hvc & Hec & Hrow & Hkey).
  rewrite Hk in HQ. apply yields_one_row. intros now t' H. unfold threvo_actions_runtime_update_proposal in H.
  apply with_document_stored in H; [|done..]. cbv zeta in H. unfold proposal_key in Hk. injection Hk as -> ->.
  rewrite Hkey, Hrow in H. cbn [my_proposal_data mysql_row] in H. rewrite document_kept in H by done.
  split_if; [|done]. apply update_row_stores in H as [? ?]; auto.
Qed.

Lemma mark_yields revision at_ (Q : unit → Tables → Prop) message :
  sp_revision current = revision →
  (∀ t', tables_ok t' → mysql_view t' = put_proposal (T, R) (proposal_with_erasure_pending current at_) (mysql_view t) → Q tt t') →
  yields t (one_row message (threvo_actions_mark_erasure_pending T R revision
    (_mysql_proposal_json (proposal_with_erasure_pending current at_)))) Q.
Proof.
  intros <- HQ. destruct (stored_row _ _ _ _ Hok Hcurrent) as (Hk & Hvc & Hec & Hrow & Hkey).
  apply yields_one_row. intros now t' H. unfold threvo_actions_mark_erasure_pending in H.
  apply with_document_stored in H; [|by apply stored_proposal_valid_pending|by apply exact_pending]. cbv zeta in H.
  rewrite Hkey, Hrow in H. cbn [my_proposal_data mysql_row] in H. rewrite document_kept in H by done.
  split_if; [|done]. rewrite Hk in HQ.
  apply (update_row_stores t current (proposal_with_erasure_pending current at_)) in H as [? ?];
    [by apply HQ|done|done|by apply stored_proposal_valid_pending|by apply exact_pending].
Qed.

Lemma complete_yields revision at_ (Q : unit → Tables → Prop) message :
  sp_revision current = revision →
  (∀ t', tables_ok t' → mysql_view t' = put_proposal (T, R) (erased_proposal current at_) (mysql_view t) → Q tt t') →
  yields t (one_row message (threvo_actions_complete_erasure T R revision
    (_mysql_proposal_json (erased_proposal current at_)))) Q.
Proof.
  intros <- HQ. destruct (stored_row _ _ _ _ Hok Hcurrent) as (Hk & Hvc & Hec & Hrow & Hkey).
  apply yields_one_row. intros now t' H. unfold threvo_actions_complete_erasure in H.
  apply with_document_stored in H; [|by apply stored_proposal_valid_erased|apply exact_erased]. cbv zeta in H.
  rewrite Hkey, Hrow in H. cbn [my_proposal_data mysql_row] in H. rewrite document_kept in H by done.
  split_if; [|done]. rewrite Hk in HQ.
  apply (update_row_stores t current (erased_proposal current at_)) in H as [? ?];
    [by apply HQ|done|done|by apply stored_proposal_valid_erased|apply exact_erased].
Qed.

(** ** Claims *)

Lemma claim_key_primary :
  (collate (sp_tenant_reference current), effect_identity (_action_key (sp_action_type current)) (sp_semantic_effect_reference current))
    = primary_key (claim_key current).
Proof.
  destruct (stored_row _ _ _ _ Hok Hcurrent) as (_ & Hvc & _ & _ & _).
  destruct (safe_stored current Hvc) as (-> & _ & _). done.
Qed.

Definition claims_for (r : EffectClaimResult) (t' : Tables) : Prop :=
  r = CONFLICT ∨
  ((r = ACQUIRED ∨ r = OWNED_BY_PROPOSAL) ∧
   claimable (mysql_view t) (claim_key current) (sp_proposal_reference current) ∧ tables_ok t' ∧
   mysql_view t' = put_claim (claim_key current) (sp_proposal_reference current) (mysql_view t)).

Lemma acquire_yields admitted_at :
  effect_claims (mysql_view t) !! claim_key current = None →
  yields t (acquire_claim current admitted_at) claims_for.
Proof.
  intros Hnone. destruct (stored_row _ _ _ _ Hok Hcurrent) as (Hk & Hvc & Hec & Hrow & Hkey).
  destruct (safe_stored current Hvc) as (Ht & Hp & Hmk).
  apply yields_except.
  - apply yields_bind, yields_one_row. intros now t' H. apply yields_ret. right. split; [by left|].
    split; [unfold claimable; by rewrite Hnone|]. unfold threvo_actions_claim_effect in H. rewrite Hmk, Hrow in H.
    split_if; [|done]. cbv zeta in H. cbn [mysql_row my_tenant_reference my_action_key my_semantic_effect_reference my_proposal_reference] in H.
    rewrite claim_key_primary in H. destruct (my_claims t !! primary_key (claim_key current)) eqn:Hc; [done|].
    injection H as <-.
    apply (view_put_claim t (mkMysqlClaim (sp_tenant_reference current) (_action_key (sp_action_type current))
             (sp_semantic_effect_reference current) (sp_proposal_reference current) admitted_at)); [done|by split|].
    intros c' Hc'. exfalso. change (claim_row_key _) with (claim_key current) in Hc'. congruence.
  - intros e r t'. split_if; [|done]. intros [= <-]. by left.
Qed.

Lemma transfer_yields owner admitted_at :
  effect_claims (mysql_view t) !! claim_key current = Some owner →
  yields t (changed ← statement (threvo_actions_transfer_effect_claim (sp_tenant_reference current)
      (effect_identity (_action_key (sp_action_type current)) (sp_semantic_effect_reference current)) owner
      (sp_proposal_reference current) admitted_at);
    mret (if (changed =? 1)%Z then ACQUIRED else CONFLICT)) claims_for.
Proof.
  intros Howner. destruct (stored_row _ _ _ _ Hok Hcurrent) as (Hk & Hvc & Hec & Hrow & Hkey).
  destruct (safe_stored current Hvc) as (Ht & Hp & Hmk).
  assert (Howner' := Howner). apply claims_view_lookup in Howner' as (row & Hclaim & Hckey & Hcowner); [|done].
  apply yields_bind, yields_statement. intros now n t' H. apply yields_ret.
  destruct (Z.eqb_spec n 1) as [->|]; [|by left]. right. split; [by left|].
  unfold threvo_actions_transfer_effect_claim in H. cbv zeta in H. rewrite claim_key_primary, Hclaim in H.
  split_if; [|done]. injection H as <-. apply andb_prop in Hif as [[_ Hov]%andb_prop _].
  destruct (claims_ok t Hok _ _ Hclaim) as [_ Hct Hcp].
  assert (mc_tenant_reference row = sp_tenant_reference current) as Htn.
  { unfold claim_row_key, claim_key, claim_key_of in Hckey. by injection Hckey. }
  split.
  - unfold claimable. rewrite Howner. right.
    assert (my_key (mc_tenant_reference row) owner = (sp_tenant_reference current, owner)) as Emk
      by (unfold my_key; by rewrite Htn, Ht, <-Hcowner, Hcp).
    rewrite Emk in Hov. destruct (my_proposals t !! (sp_tenant_reference current, owner)) as [orow|] eqn:Horow; [|done].
    apply andb_prop in Hov as [_ Hst%bool_decide_eq_true_1].
    destruct (rows_ok t Hok _ _ Horow) as (q & Hkq & -> & Hvq & Heq). exists q. split; [|exact Hst].
    apply view_row; [done|]. split_and!; [exact Horow|exact Hkq|done|done].
  - set (c := mkMysqlClaim _ _ _ _ _).
    assert (claim_row_key c = claim_key current) as Hc by exact Hckey.
    change (sp_proposal_reference current) with (mc_proposal_reference c). rewrite <-Hc. rewrite <-Hc in Hclaim.
    apply view_put_claim; [done| |].
    + split; [done|exact Hct|exact Hp].
    + intros c' Hc'. rewrite Hclaim in Hc'. injection Hc' as <-. by rewrite Hc.
Qed.

Lemma claim_yields admitted_at : yields t (_claim_effect current admitted_at) claims_for.
Proof.
  apply yields_bind, yields_lift. intros d ->%effect_identity_eq. apply yields_bind.
  eapply yields_mono; [by apply owner_yields|]. intros x t' [-> Hx].
  change (claim_key_of _ _ _) with (claim_key current) in Hx. symmetry in Hx.
  destruct x as [owner|]; [|by apply acquire_yields]. case_bool_decide as Hself; [|by apply transfer_yields].
  apply yields_ret. right. split; [by right|]. subst owner. unfold claimable. rewrite Hx. split; [by left|].
  split; [done|]. unfold put_claim. rewrite insert_id by done. by destruct (mysql_view t).
Qed.

End Stored.

(** * Operations *)

(** What is handed to the store is kept by the server: its two documents hold
    JSON, and no integer outside 64 bits. *)
Definition my_storable (o : store_op) : bool :=
  match o with
  | Create p | CompareAndSet _ _ _ _ p | AdmitExecution _ _ _ _ p => document_storable p
  | _ => true
  end.

(** ... and its dictionaries are written by name. *)
Definition my_kept (o : store_op) : bool :=
  match o with
  | Create p | CompareAndSet _ _ _ _ p | AdmitExecution _ _ _ _ p => document_exact p
  | _ => true
  end.

Lemma json_exact_by_name v : json_exact (by_name v) = json_exact v.
Proof.
  induction v as [| | | | |l IH|o IH] using json_ind'; try done.
  - simpl. induction IH as [|x l Hx _ IHl]; simpl; [done|]. by rewrite Hx, IHl.
  - rewrite by_name_JObj. simpl. apply forallb_by_name. eapply List.Forall_impl; [|exact IH]. by intros [k x].
Qed.

Lemma document_exact_by_name p : document_storable p = true → document_exact (by_name_record p) = true.
Proof.
  intros Hs. unfold document_exact, document_storable in *. rewrite json_fields_by_name.
  cbn [by_name_record sp_display_preview sp_safe_result]. rewrite <-by_name_JObj, json_exact_by_name.
  apply andb_prop in Hs as [Hs Hr]. assert (Hf := Hs). apply andb_prop in Hf as [Hf _]. rewrite Hs.
  rewrite bool_decide_eq_true_2 by by apply by_name_record_idemp.
  destruct (sp_safe_result p) as [o|]; [|done]. cbn [fmap option_fmap option_map optional andb] in *.
  by rewrite <-by_name_JObj, json_exact_by_name.
Qed.

Lemma my_kept_by_name os : forallb my_storable os = true → forallb my_kept (by_name_op <$> os) = true.
Proof.
  induction os as [|o os IH]; [done|]. cbn [forallb]. intros [Ho Hos]%andb_prop.
  cbn [fmap list_fmap forallb]. rewrite IH, andb_true_r by done.
  destruct o; simpl in *; try done; by apply document_exact_by_name.
Qed.

(** An answer the contract allows. *)
Definition allowed (o : store_op) (t : Tables) (a : store_resp o) (t' : Tables) : Prop :=
  tables_ok t' ∧ contract (mysql_view t) o (Ok a) (mysql_view t').

Lemma contract_refused v o e : contract v o (Err e) v.
Proof. by destruct o. Qed.

Section Operations.
Context (t : Tables) (Hok : tables_ok t).

Lemma create_performs p : document_exact p = true → performs t (my_create p) (allowed (Create p) t).
Proof.
  intros He. apply performs_lift. intros q [-> Hv]%validated_Ok. apply performs_lift. intros [] Hc%validate_create_ok.
  apply performs_except; [|intros e; split_if; eauto].
  apply performs_unit, yields_bind, yields_one_row. intros now t' H. apply yields_ret. simpl.
  unfold threvo_actions_create_proposal in H. apply with_document_stored in H; [|done..].
  do 2 (split_if; [done|]). destruct (safe_stored p Hv) as (_ & _ & Hk). cbn [my_tenant_reference my_proposal_reference mysql_row] in H.
  rewrite Hk in H. destruct (my_proposals t !! proposal_key p) eqn:Hnone; [done|]. injection H as <-.
  destruct (view_put t p Hok Hv He) as [Hok' Hview]. split; [done|]. simpl. rewrite <-Hview. split_and!; try done.
  by rewrite map_lookup_imap, Hnone.
Qed.

Lemma get_performs T R : performs t (my_get T R) (allowed (Get T R) t).
Proof.
  apply performs_unit, yields_bind. eapply yields_mono; [by apply load_yields|]. intros x t' [-> ->].
  apply yields_ret. split; [done|]. split; [done|]. by intros y [= <-].
Qed.

Lemma owner_performs T a e : performs t (my_get_effect_claim_owner T a e) (allowed (GetEffectClaimOwner T a e) t).
Proof.
  apply performs_unit, yields_bind. eapply yields_mono; [by apply owner_yields|]. intros x t' [-> ->].
  apply yields_ret. split; [done|]. split; [done|]. by intros y [= <-].
Qed.

Lemma compare_and_set_performs T R revision statuses updated :
  document_exact updated = true →
  performs t (my_compare_and_set T R revision statuses updated)
    (allowed (CompareAndSet T R revision statuses updated) t).
Proof.
  intros He. apply performs_lift. intros q [-> Hv]%validated_Ok. apply performs_unit, yields_bind.
  eapply yields_mono; [by apply load_yields|]. intros x t' [-> Hx].
  destruct x as [current|]; [|by apply yields_ret]. split_if; [by apply yields_ret|]. to_prop.
  apply yields_bind, yields_lift. intros [] Hu%validate_update_ok. symmetry in Hx.
  apply yields_bind, (yields_mono _ _ (λ _ t', t' = t ∧
    (sp_lifecycle_status updated = EXECUTING → sp_lifecycle_status current ≠ EXECUTING →
     effect_claims (mysql_view t) !! claim_key current = Some (sp_proposal_reference current)))).
  - split_if.
    + apply yields_bind. eapply yields_mono; [by apply owner_yields|]. intros owner t' [-> ->].
      apply yields_lift. intros [] Ho. split; [done|]. by case_bool_decide.
    + apply yields_ret. split; [done|]. intros Hx1 Hx2. apply andb_false_iff in Hif as [Hif|Hif]; by to_prop.
  - intros [] t' [-> Hown]. apply yields_bind, (runtime_update_yields t T R current Hok Hx); [apply Hu|done|done|].
    intros t' Hok' Hview. apply yields_ret. split; [done|]. simpl. rewrite Hview. exists current. by split_and!.
Qed.

Lemma admit_performs T R revision admitted_at updated :
  document_exact updated = true →
  performs t (my_admit_execution T R revision admitted_at updated)
    (allowed (AdmitExecution T R revision admitted_at updated) t).
Proof.
  intros He. apply performs_lift. intros d ->%validated_datetime_Ok. apply performs_lift. intros q [-> Hv]%validated_Ok.
  apply performs_attempts, performs_unit, yields_bind.
  eapply yields_mono; [by apply load_yields|]. intros x t' [-> Hx].
  destruct x as [current|]; [|by apply yields_ret]. symmetry in Hx.
  apply yields_bind, yields_statement. intros _ now t' [= -> <-]. split_if; [by apply yields_ret|]. to_prop.
  apply yields_bind, yields_lift. intros [] Hu%validate_update_ok.
  apply yields_bind, yields_lift. intros [] Hexec. split_if; [|done]. to_prop.
  apply yields_bind. eapply yields_mono; [by apply (claim_yields t T R current Hok Hx)|].
  intros claim t' [->|(Hclaim & Hable & Hok1 & Hview1)].
  - by apply yields_ret.
  - rewrite bool_decide_eq_false_2 by (by destruct Hclaim as [->| ->]).
    destruct (stored_row _ _ _ _ Hok Hx) as (Hk & _).
    assert (proposals (mysql_view t') !! (T, R) = Some current) as Hx' by (rewrite Hview1; exact Hx).
    apply yields_bind, (runtime_update_yields t' T R current Hok1 Hx'); [apply Hu|done|done|].
    intros t2 Hok2 Hview2. apply yields_ret. split; [done|].
    assert (admit_effect (mysql_view t) (T, R) revision admitted_at updated (mysql_view t2)) as Hadmit.
    { exists current. rewrite Hview2, Hview1. unfold proposal_key in Hk. injection Hk as -> ->.
      split_and!; try done; try lia; by apply eq_None_not_Some. }
    by destruct Hclaim as [->| ->].
Qed.

Lemma mark_performs T R revision pending_at :
  performs t (my_mark_erasure_pending T R revision pending_at) (allowed (MarkErasurePending T R revision pending_at) t).
Proof.
  apply performs_lift. intros d ->%validated_datetime_Ok. apply performs_unit, yields_bind.
  eapply yields_mono; [by apply load_yields|]. intros x t' [-> Hx].
  destruct x as [current|]; [|by apply yields_ret]. symmetry in Hx. split_if; [by apply yields_ret|]. to_prop.
  split_if; to_prop.
  - apply yields_ret. split; [done|]. exists current. split_and!; eauto. by apply eq_None_not_Some.
  - apply yields_bind, yields_lift. intros q [-> Hv]%validated_Ok. apply yields_bind, yields_lift. intros [] Hu%validate_update_ok.
    apply yields_bind, (mark_yields t T R current Hok Hx); [done|]. intros t' Hok' Hview. apply yields_ret.
    split; [done|]. simpl. rewrite Hview. exists current. split_and!; eauto. by apply eq_None_not_Some.
Qed.

Lemma complete_performs T R revision erased_at :
  performs t (my_complete_erasure T R revision erased_at) (allowed (CompleteErasure T R revision erased_at) t).
Proof.
  apply performs_lift. intros d ->%validated_datetime_Ok. apply performs_unit, yields_bind.
  eapply yields_mono; [by apply load_yields|]. intros x t' [-> Hx].
  destruct x as [current|]; [|by apply yields_ret]. symmetry in Hx. split_if; [by apply yields_ret|]. to_prop.
  apply yields_bind, yields_lift. intros q [-> Hv]%validated_Ok. apply yields_bind, yields_lift. intros [] Hu%validate_update_ok.
  apply yields_bind, (complete_yields t T R current Hok Hx); [done|]. intros t' Hok' Hview. apply yields_ret.
  split; [done|]. simpl. rewrite Hview. exists current. split_and!; eauto; [|by apply eq_None_not_Some].
  by destruct (None_or_Some (sp_erasure_pending_at current)).
Qed.

Lemma mysql_run_performs o : my_kept o = true → performs t (mysql_run o) (allowed o t).
Proof.
  destruct o; intros Hs; cbn [mysql_run];
    eauto using create_performs, get_performs, compare_and_set_performs, admit_performs, owner_performs, mark_performs, complete_performs.
Qed.
End Operations.

(** * Histories *)

Fixpoint mysql_run_all (os : list store_op) (db : MysqlDatabase) : list store_event * MysqlDatabase :=
  match os with
  | [] => ([], db)
  | o :: os' =>
      let '(r, db1) := mysql_run o db in
      let '(es, db2) := mysql_run_all os' db1 in
      (StoreEvent o r :: es, db2)
  end.

Lemma mysql_run_contract o db :
  tables_ok (db_tables db) → my_kept o = true →
  tables_ok (db_tables (mysql_run o db).2) ∧
  contract (mysql_view (db_tables db)) o (mysql_run o db).1 (mysql_view (db_tables (mysql_run o db).2)).
Proof.
  intros Hok Hs. assert (H := mysql_run_performs (db_tables db) Hok o Hs db eq_refl).
  destruct (mysql_run o db) as [[a|e] db']; [exact H|]. simpl in *. rewrite H. split; [done|]. apply contract_refused.
Qed.

Lemma mysql_history os db :
  tables_ok (db_tables db) → forallb my_kept os = true →
  tables_ok (db_tables (mysql_run_all os db).2) ∧
  contract_trace (mysql_view (db_tables db)) (mysql_run_all os db).1 (mysql_view (db_tables (mysql_run_all os db).2)).
Proof.
  revert db. induction os as [|o os IH]; intros db Hok Hs; [split; [done|constructor]|].
  cbn [forallb] in Hs. apply andb_prop in Hs as [Ho Hs]. destruct (mysql_run_contract o db Hok Ho) as [Hok1 Hc].
  specialize (IH (mysql_run o db).2 Hok1 Hs). cbn [mysql_run_all]. destruct (mysql_run o db) as [r db1]. cbn [snd fst] in *.
  destruct (mysql_run_all os db1) as [es db2]. cbn [snd fst] in *. destruct IH as [Hok2 IH]. split; [done|]. by econstructor.
Qed.

Definition empty_tables : Tables := mkTables ∅ ∅.

Lemma empty_tables_ok : tables_ok empty_tables.
Proof. by split; intros k x; simpl; rewrite lookup_empty. Qed.

(** C28: whatever statements fail, whatever the clock shows and whatever SHA-256
    makes of effects, each answer of the MySQL store and what it leaves are what
    the contract allows, so that no history takes an effect twice.  Dictionaries
    are values without order: the server may return their members in any order,
    and the history is stated over their representatives ([by_name_op]), one for
    each dictionary.  Supposed: the two free-form members of the records handed
    over are JSON documents (distinct keys, encodable text, finite numbers)
    without integers outside [- 2 ^ 63, 2 ^ 64), which the store does not refuse
    and the server turns into floats. *)
Theorem mysql_store_refines_contract (os : list store_op) (clock : list datetime) (errors : list (option exn))
  (Hs : forallb my_storable os = true) :
  let run := mysql_run_all (by_name_op <$> os) (mkMysqlDatabase empty_tables clock errors) in
  contract_trace empty_view run.1 (mysql_view (db_tables run.2)) ∧ view_ok (mysql_view (db_tables run.2)).
Proof.
  intros run.
  destruct (mysql_history _ (mkMysqlDatabase empty_tables clock errors) empty_tables_ok (my_kept_by_name os Hs)) as [_ Ht].
  change (mysql_view (db_tables _)) with empty_view in Ht at 1. split; [exact Ht|].
  by eapply view_ok_trace, Ht.
Qed.
End Refinement.
