(* ===== verification/MysqlLiveness.v ===== *)
(** The MySQL store does what the contract allows it to do: when no statement
    fails, an update and an admission within the limits of the adapter go
    through the procedures, the trigger and the CHECK constraints. *)

From S2P Require Import Prelude Models Canonical Authority Receipts Registry StoreBase StoredValidity.
From S2P Require Import StoreContract Documents Sessions SqliteStore MysqlStore MysqlRefinement.

(** The trigger and the table of [stores/base.py] agree. *)
Lemma mysql_transitions_allowed s t :
  (s, t) ∈ MysqlStore.trigger_transitions ↔ t ∈ ALLOWED_LIFECYCLE_TRANSITIONS s.
Proof.
  split.
  - intros H. elem_cases H; simplify_eq; apply (bool_decide_unpack _); done.
  - intros H. apply list_elem_of_In. destruct s; elem_cases H; simpl; tauto.
Qed.

Section Liveness.
Context `{U : Unicode, V : !MySqlServer}.
(** The server's Unicode data has every character that Python's has. *)
Hypothesis Hicu : ∀ c, icu_other c = true → category_other c = true.

(** * Undisturbed work

    No statement is to fail, and every moment the clock shows is of [P]. *)

Section Finishes.
Context (P : datetime → Prop).

Record undisturbed (db : MysqlDatabase) : Prop := {
  no_errors : db_errors db = [];
  moments : P (default 0%Z (head (db_clock db))) ∧ P 0%Z ∧ Forall P (db_clock db)
}.

Definition finishes {A} (t : Tables) (m : atomic MysqlDatabase A) (a : A) (t' : Tables) : Prop :=
  ∀ db, db_tables db = t → undisturbed db →
    ∃ db', m db = (Ok a, db') ∧ db_tables db' = t' ∧ undisturbed db'.

Lemma finishes_ret {A} t (a : A) : finishes t (mret a) a t.
Proof. intros db Ht Hu. by exists db. Qed.

Lemma finishes_bind {A B} t t1 t2 (m : atomic MysqlDatabase A) (f : A → atomic MysqlDatabase B) a b :
  finishes t m a t1 → finishes t1 (f a) b t2 → finishes t (m ≫= f) b t2.
Proof.
  intros Hm Hf db Ht Hu. destruct (Hm db Ht Hu) as (db1 & E & Ht1 & Hu1).
  unfold mbind, atomic_bind. rewrite E. by apply Hf.
Qed.

Lemma finishes_lift {A} t (r : res A) a : r = Ok a → finishes t (atomic_lift r) a t.
Proof. intros -> db Ht Hu. by exists db. Qed.

Lemma undisturbed_next db t :
  undisturbed db → undisturbed (mkMysqlDatabase t (tail (db_clock db)) (tail (db_errors db))).
Proof.
  intros [He (H1 & H0 & Hc)]. split; simpl; [by rewrite He|]. split_and!; [|done|].
  - destruct (db_clock db) as [|x [|y l]]; simpl; [done..|].
    inversion_clear Hc as [|? ? _ Hl]. by inversion_clear Hl.
  - destruct (db_clock db) as [|x l]; simpl; [done|]. by inversion_clear Hc.
Qed.

Lemma finishes_statement {A} t (m : datetime → Tables → res A * Tables) a t' :
  (∀ now, P now → m now t = (Ok a, t')) → finishes t (statement m) a t'.
Proof.
  intros H db <- Hu. destruct (moments db Hu) as (Hnow & _). unfold statement.
  destruct (db_errors db) eqn:E; [|by rewrite (no_errors db Hu) in E]. rewrite (H _ Hnow), <-E.
  eexists. split; [done|]. split; [done|]. by apply undisturbed_next.
Qed.

Lemma finishes_select {A} t (f : Tables → A) : finishes t (select f) (f t) t.
Proof. by apply finishes_statement. Qed.

Lemma finishes_now {B} t (f : datetime → atomic MysqlDatabase B) b t' :
  (∀ now, P now → finishes t (f now) b t') →
  finishes t (database_now ← statement (λ now t, (Ok now, t)); f database_now) b t'.
Proof.
  intros H db Ht Hu. destruct (moments db Hu) as (Hnow & _). unfold mbind, atomic_bind, statement.
  destruct (db_errors db) eqn:E; [|by rewrite (no_errors db Hu) in E]. apply (H _ Hnow); [done|].
  rewrite <-E. by apply undisturbed_next.
Qed.

Lemma finishes_one_row t message call t' :
  (∀ now, P now → call now t = (Ok 1%Z, t')) → finishes t (one_row message call) tt t'.
Proof. intros H. eapply finishes_bind; [by apply finishes_statement|]. by apply finishes_lift. Qed.

Lemma finishes_except {A} t handler (m : atomic MysqlDatabase A) a t' :
  finishes t m a t' → finishes t (except handler m) a t'.
Proof.
  intros H db Ht Hu. destruct (H db Ht Hu) as (db' & E & ?). exists db'. split; [|done]. unfold except. by rewrite E.
Qed.

Lemma finishes_commit {A} t (body : atomic MysqlDatabase (A * bool)) a t' :
  finishes t body (a, true) t' → finishes t (unit_of_work body) a t'.
Proof.
  intros H db Ht Hu. destruct (H db Ht Hu) as (db1 & E & Ht1 & Hu1).
  destruct (finishes_select t' (λ _, tt) db1 Ht1 Hu1) as (db2 & E2 & Ht2 & Hu2).
  exists db2. unfold unit_of_work. by rewrite E, E2.
Qed.

Lemma finishes_attempts {A} t n (once : atomic MysqlDatabase A) a t' :
  finishes t once a t' → finishes t (attempts n once) a t'.
Proof.
  intros H db Ht Hu. destruct (H db Ht Hu) as (db' & E & ?). exists db'. split; [|done]. destruct n; simpl; by rewrite E.
Qed.
End Finishes.

(** * What is accepted

    Beyond the contract: the proposal is within the limits of the adapter and its
    documents are kept, it is not a tombstone and expires after it was created,
    its references can be encoded, and of its members only those change that
    [threvo_actions_runtime_update_proposal] leaves free. *)
Record acceptable (current updated : StoredProposal) : Prop := {
  acc_limits : _validated_proposal updated = Ok updated;
  acc_exact : document_exact updated = true;
  acc_remainder : runtime_remainder current = runtime_remainder updated;
  acc_live : sp_erased_at updated = None;
  acc_expires : (sp_created_at updated < sp_expires_at updated)%Z;
  acc_tenant : _text (sp_tenant_reference updated) = Ok tt;
  acc_proposal : _text (sp_proposal_reference updated) = Ok tt;
  acc_effect : _text (sp_semantic_effect_reference updated) = Ok tt
}.

Lemma limits_version p : _validated_proposal p = Ok p → _validate_mysql_effect_identity (sp_action_type p) = Ok tt.
Proof.
  unfold _validated_proposal. split_if; [done|]. by intros ([] & -> & _)%res_bind_Ok.
Qed.

Lemma same_document_refl p : same_document p p = true.
Proof.
  unfold same_document. rewrite json_equal_refl, bool_decide_eq_true_2 by done.
  destruct (sp_safe_result p); [|done]. by rewrite json_equal_refl.
Qed.

Lemma same_effect_refl k e : same_effect k k e e = true.
Proof. unfold same_effect. rewrite !bool_decide_eq_true_2, Z.eqb_refl by done. done. Qed.

(** The CHECK constraints hold of the row of a proposal. *)
Lemma mysql_row_checks p :
  stored_proposal_valid p = true → _validate_mysql_effect_identity (sp_action_type p) = Ok tt →
  (sp_created_at p < sp_expires_at p)%Z → row_checks (mysql_row p) p = true.
Proof.
  intros Hv Hlim Hexp. unfold stored_proposal_valid in Hv.
  assert (0 < at_version (sp_action_type p))%Z.
  { repeat (apply andb_prop in Hv as [Hv ?]). unfold action_type_valid in *. to_prop. lia. }
  assert (at_version (sp_action_type p) <= _MAX_MYSQL_INT_UNSIGNED)%Z.
  { unfold _validate_mysql_effect_identity in Hlim. apply res_bind_Ok in Hlim as (? & _ & Hlim). split_if; [done|].
    apply res_bind_Ok in Hlim as (? & _ & Hlim). do 2 (split_if; [done|]). lia. }
  unfold row_checks. simpl. rewrite !Z.eqb_refl, !bool_decide_eq_true_2 by done.
  rewrite !andb_true_iff. split_and!; try done; by (apply Z.ltb_lt || apply Z.leb_le).
Qed.

Lemma prefix_parts {A} (l k : list A) :
  l `prefix_of` k → (length l <= length k)%nat ∧ take (length l) k = l ∧ ∀ x, x ∈ drop (length l) k → x ∈ k.
Proof.
  intros [r ->]. rewrite length_app, take_app_length, drop_app_length. split_and!; [lia|done|].
  intros x Hx. apply elem_of_app. by right.
Qed.

(** ** The tests of the procedures *)

Lemma lstrip_shorter l : lstrip_points l = l ∨ (length (lstrip_points l) < length l)%nat.
Proof.
  induction l as [|c l IH]; [by left|]. simpl. destruct (is_space c); [right|by left].
  destruct IH as [->|IH]; simpl; lia.
Qed.

Lemma lstripped l : lstrip_points l = l → begins_with_space l = false.
Proof. intros <-. destruct (lstrip_head l) as [->|(c & r & -> & Hc)]; [done|exact Hc]. Qed.

Lemma stripped s :
  strip s = s → begins_with_space (code_points s) = false ∧ begins_with_space (rev (code_points s)) = false.
Proof.
  destruct s as [l]. unfold strip. cbn [code_points]. intros [= H].
  assert (Hlen := f_equal length H). rewrite length_reverse in Hlen.
  assert (Hle : ∀ k, (length (lstrip_points k) <= length k)%nat) by (intros k; destruct (lstrip_shorter k) as [->|]; lia).
  assert (H1 := Hle (reverse (lstrip_points l))). rewrite length_reverse in H1.
  destruct (lstrip_shorter l) as [Hl|Hl]; [|lia]. split; [by apply lstripped|].
  rewrite rev_alt. change (rev_append l []) with (reverse l). rewrite Hl in H. rewrite <-H at 1.
  rewrite reverse_involutive. destruct (lstrip_head (reverse l)) as [->|(c & r & -> & Hc)]; [done|exact Hc].
Qed.

(** A reference the models take is one the procedures take. *)
Lemma safe_reference_value s : safe_reference s = true → safe_value s = true.
Proof.
  intros (_ & Hs & [H1 H2] & Hc)%safe_reference_inv. destruct (stripped s Hs) as [Hb He]. unfold safe_value.
  rewrite Hb, He, (proj2 (Nat.leb_le _ _) H1), (proj2 (Nat.leb_le _ _) H2). cbn [andb orb negb]. rewrite andb_true_r.
  apply negb_true_iff, existsb_false_elem. intros c Hin. destruct (icu_other c) eqn:E; [|done].
  apply Hicu in E. by rewrite (Hc c Hin) in E.
Qed.

Lemma option_values o : optional safe_reference o = true → forallb safe_value (option_list o) = true.
Proof. destruct o; simpl; [|done]. intros H. by rewrite safe_reference_value. Qed.

Lemma action_type_valid_tested a : action_type_valid a = true → action_type_tested a = true.
Proof.
  unfold action_type_valid, action_type_tested, at_end. intros H.
  apply andb_prop in H as [[-> ->]%andb_prop ->]. done.
Qed.

Lemma audience_values l : forallb safe_reference l = true → forallb safe_value l = true.
Proof.
  intros H. apply forallb_forall. intros x Hx. rewrite forallb_forall in H. by apply safe_reference_value, H.
Qed.

(** A conjunction of tests, from what is known of the values. *)
Ltac tested :=
  repeat match goal with H : _ && _ = true |- _ => apply andb_prop in H as [? ?] end;
  repeat match goal with H : bool_decide _ = true |- _ => apply bool_decide_eq_true_1 in H end;
  rewrite ?andb_true_iff; split_and?;
  try solve
    [ assumption | reflexivity | by apply safe_reference_value | by apply option_values | by apply audience_values
    | by apply action_type_valid_tested | apply bool_decide_eq_true_2; congruence
    | by apply Z.leb_le; repeat match goal with H : (_ <=? _)%Z = true |- _ => apply Z.leb_le in H end; lia ].

Lemma evidence_valid_tested p e :
  authority_evidence_valid e = true → evidence_matches_proposal e p = true → evidence_tested p e = true.
Proof.
  unfold authority_evidence_valid, evidence_matches_proposal, evidence_tested, expiry_follows_issue_time.
  destruct (sp_commitment p) as [commitment|]; [|done]. intros Hv Hm.
  rewrite !forallb_app. cbn [forallb]. tested.
  - destruct (ae_external_attestation e) as [a|]; [|done]. cbn [optional forallb] in *. unfold attestation_valid in *. by tested.
  - apply Z.ltb_lt. by destruct (Z.leb_spec (ae_expires_at e) (ae_issued_at e)).
Qed.

Lemma outcome_values l :
  forallb item_outcome_valid l = true →
  forallb safe_value (mjoin ((λ o, io_item_reference o :: option_list (io_reason_code o)) <$> l)) = true.
Proof.
  induction l as [|o l IH]; [done|]. cbn [forallb]. intros [Ho Hl]%andb_prop.
  rewrite fmap_cons. change (mjoin (?x :: ?k)) with (x ++ mjoin k). rewrite forallb_app, IH, andb_true_r by done.
  cbn [forallb]. unfold item_outcome_valid in Ho. by tested.
Qed.

Lemma receipt_valid_tested p r :
  receipt_valid r = true → rb_correlation_reference (receipt_base r) = sp_proposal_reference p →
  receipt_tested p r = true.
Proof.
  unfold receipt_valid, receipt_base_valid, receipt_tested, receipt_values. intros [Hb Hr]%andb_prop Hc.
  rewrite Hc, !forallb_app. cbn [forallb]. rewrite <-Hc. tested.
  - apply bool_decide_eq_true_2. by match goal with H : rb_schema_version _ = _ |- _ => rewrite H end.
  - destruct (rb_external_reference _) as [x|]; [|done]. cbn [optional forallb] in *. unfold external_reference_valid in *. by tested.
  - destruct r as [? ? principal agent|? ? participant|? ? participant outcomes|? ? participant outcomes|? ? participant];
      cbn [forallb]; tested; [|by apply outcome_values..].
    destruct agent; cbn [optional fmap option_fmap option_map option_list forallb] in *; [|done]. by tested.
Qed.

(** A proposal within the limits of the adapter, bound to its entries, passes. *)
Lemma document_tested p :
  _validated_proposal p = Ok p → bindings_ok p → sp_erased_at p = None → (sp_created_at p < sp_expires_at p)%Z →
  threvo_actions_validate_proposal_data p = true.
Proof.
  intros Hlim [Hev Hrec] Hlive Hexp. destruct (validated_Ok _ _ Hlim) as [_ Hv].
  assert (Hid := limits_version p Hlim).
  assert ((sp_revision p <= _MAX_MYSQL_BIGINT_UNSIGNED)%Z ∧ (sp_verification_attempts p <= _MAX_MYSQL_BIGINT_UNSIGNED)%Z ∧
    (sp_max_verification_attempts p <= _MAX_MYSQL_BIGINT_UNSIGNED)%Z) as (Hr1 & Hr2 & Hr3).
  { unfold _validated_proposal in Hlim. split_if; [done|]. apply res_bind_Ok in Hlim as ([] & _ & Hlim).
    split_if; [done|]. to_prop. lia. }
  unfold _validate_mysql_effect_identity in Hid. apply res_bind_Ok in Hid as (n & Hn%utf8_octets & Hid). split_if; [done|].
  apply res_bind_Ok in Hid as (m & Hm%utf8_octets & Hid). do 2 (split_if; [done|]). subst n m.
  assert (forallb (evidence_tested p) (sp_authority_evidence p) = true) as He'.
  { apply forallb_forall. intros e He. apply evidence_valid_tested; [|by apply Hev, list_elem_of_In].
    unfold stored_proposal_valid in Hv. tested. by eapply (proj1 (forallb_forall _ _)). }
  assert (forallb (receipt_tested p) (sp_receipts p) = true) as Hr'.
  { apply forallb_forall. intros r Hr. apply receipt_valid_tested; [|by apply Hrec, list_elem_of_In].
    unfold stored_proposal_valid in Hv. tested. by eapply (proj1 (forallb_forall _ _)). }
  unfold stored_proposal_valid in Hv. unfold threvo_actions_validate_proposal_data, unsigned, proposal_values, erased_tested.
  rewrite Hlive, !forallb_app. cbn [forallb]. unfold _MAX_MYSQL_TEXT_BYTES in *.
  tested.
  - destruct (sp_protected_private_snapshot p) as [x|]; [|done]. cbn [optional] in *.
    unfold payload_valid, OpaquePayload in *. tested. apply Nat.leb_le. to_prop. lia.
  - destruct (sp_protected_private_snapshot p) as [x|]; [|done]. cbn [optional forallb] in *. unfold payload_valid in *. by tested.
  - destruct (sp_commitment p) as [c|]; [|done]. cbn [optional forallb] in *. unfold commitment_valid in *. by tested.
  - destruct (sp_requesting_principal p); cbn [optional fmap option_fmap option_map option_list forallb] in *; [|done]. by tested.
  - destruct (sp_proposing_agent p); cbn [optional fmap option_fmap option_map option_list forallb] in *; [|done]. by tested.
  - by apply Z.ltb_lt.
Qed.

(** What an update appends is bound to the row. *)
Lemma append_only_ok current updated :
  update_ok current updated → sp_erased_at updated = None → sp_commitment current = sp_commitment updated →
  stored_proposal_valid updated = true → append_only (mysql_row current) current updated = true.
Proof.
  intros Hu Hlive Hcom Hv. destruct (prefix_parts _ _ (update_evidence _ _ Hu Hlive)) as (He1 & He2 & He3).
  destruct (prefix_parts _ _ (update_receipts _ _ Hu Hlive)) as (Hr1 & Hr2 & Hr3).
  assert (Hid := update_identity _ _ Hu). unfold proposal_identity in Hid. injection Hid as Ht Hp Ha Hef _ _.
  assert (Haud : ∀ e, e ∈ sp_authority_evidence updated → negb (bool_decide (ae_audience e = [])) = true).
  { intros e He. unfold stored_proposal_valid in Hv. tested.
    assert (He' : authority_evidence_valid e = true) by (by eapply (proj1 (forallb_forall _ _)), list_elem_of_In).
    unfold authority_evidence_valid in He'. by tested. }
  assert (Hschema : ∀ r, r ∈ sp_receipts updated → rb_schema_version (receipt_base r) = "internal/v0"%py).
  { intros r Hr. unfold stored_proposal_valid in Hv. tested.
    assert (Hr' : receipt_valid r = true) by (by eapply (proj1 (forallb_forall _ _)), list_elem_of_In).
    unfold receipt_valid, receipt_base_valid in Hr'. by tested. }
  unfold append_only. rewrite He2, Hr2, !bool_decide_eq_true_2 by done. rewrite !andb_true_iff, !Nat.leb_le.
  split_and!; try done; apply forallb_forall; intros x Hx%list_elem_of_In.
  - specialize (bindings_evidence _ (update_bindings _ _ Hu) x (He3 x Hx)). unfold evidence_matches_proposal, appended_evidence_bound.
    rewrite Hcom. destruct (sp_commitment updated) as [k|]; [|done]. intros H. to_prop.
    cbn [mysql_row my_tenant_reference my_proposal_reference my_action_key my_semantic_effect_reference].
    rewrite Ht, Hp, Ha, Hef. repeat match goal with H : _ = _ |- _ => rewrite H end.
    rewrite Haud by by apply He3. by rewrite !bool_decide_eq_true_2, same_effect_refl.
  - unfold appended_receipt_bound. cbn [mysql_row my_proposal_reference].
    rewrite Hp, (bindings_receipts _ (update_bindings _ _ Hu) x (Hr3 x Hx)), Hschema by by apply Hr3.
    by rewrite !bool_decide_eq_true_2.
Qed.

Lemma runtime_update_succeeds t T R current updated now :
  tables_ok t → proposals (mysql_view t) !! (T, R) = Some current →
  update_ok current updated → acceptable current updated →
  threvo_actions_runtime_update_proposal (sp_tenant_reference current) (sp_proposal_reference current)
    (sp_revision current) (sp_lifecycle_status current) (sp_lifecycle_status updated) (sp_revision updated)
    (sp_expires_at updated) (_mysql_proposal_json updated) now t
  = (Ok 1%Z, put_row (proposal_key current) (mysql_row updated) t).
Proof.
  intros Hok Hcurrent Hu [Hlim He Hrem Hlive Hexp _ _ _].
  destruct (stored_row _ _ _ _ Hok Hcurrent) as (Hk & Hvc & Hec & Hrow & _).
  destruct (validated_Ok _ _ Hlim) as [_ Hv].
  assert (Hid := update_identity _ _ Hu). unfold proposal_identity in Hid. injection Hid as Ht Hp Ha Hef Hki Hcr.
  destruct (safe_stored current Hvc) as (_ & _ & Hkey).
  unfold threvo_actions_runtime_update_proposal, with_document. rewrite document_kept by done.
  rewrite (document_tested updated Hlim (update_bindings _ _ Hu) Hlive Hexp). cbv zeta.
  rewrite Hkey, Hrow. cbn [mysql_row my_proposal_data my_revision my_lifecycle_status]. rewrite document_kept by done.
  assert (sp_commitment current = sp_commitment updated) as Hcom by (apply (f_equal sp_commitment) in Hrem; exact Hrem).
  rewrite Z.eqb_refl, bool_decide_eq_true_2, (append_only_ok current updated), Hrem, same_document_refl by done. cbn [andb].
  unfold update_row. cbv zeta.
  match goal with |- context [threvo_actions_enforce_proposal_update _ ?new] => assert (new = mysql_row updated) as -> end.
  { unfold mysql_row. simpl. congruence. }
  rewrite mysql_row_checks by (done || by apply limits_version).
  assert (threvo_actions_enforce_proposal_update (mysql_row current) (mysql_row updated) = true) as ->; [|done].
  unfold threvo_actions_enforce_proposal_update. simpl. rewrite Ht, Hp, Ha, Hef, Hki, Hcr, (update_revision _ _ Hu), same_effect_refl, !Z.eqb_refl.
  rewrite !(bool_decide_eq_true_2 (_ = _)) by done. simpl.
  destruct (update_status _ _ Hu) as [->|Hs]; [by rewrite bool_decide_eq_true_2|].
  rewrite orb_true_iff. right. apply bool_decide_eq_true_2. by apply mysql_transitions_allowed.
Qed.

(** * Operations *)

Section Operations.
Context (P : datetime → Prop) (t : Tables) (T R : pystr) (current updated : StoredProposal).
Hypothesis (Hok : tables_ok t) (Hcurrent : proposals (mysql_view t) !! (T, R) = Some current).
Hypothesis (Hu : update_ok current updated) (Ha : acceptable current updated).

Lemma current_identity :
  T = sp_tenant_reference current ∧ R = sp_proposal_reference current ∧ T = sp_tenant_reference updated ∧
  R = sp_proposal_reference updated ∧ sp_action_type current = sp_action_type updated ∧
  sp_semantic_effect_reference current = sp_semantic_effect_reference updated.
Proof.
  destruct (stored_row _ _ _ _ Hok Hcurrent) as (Hk & _). unfold proposal_key in Hk. injection Hk as -> ->.
  assert (Hid := update_identity _ _ Hu). unfold proposal_identity in Hid. by injection Hid.
Qed.

Lemma text_encodes s : _text s = Ok tt → _utf8 s = Ok (octets s).
Proof. unfold _text, octets, _utf8. by destruct (utf8 (code_points s)). Qed.

Lemma load_finishes : finishes P t (_load T R) (Some current) t.
Proof.
  destruct current_identity as (_ & _ & HT & HR & _). eapply finishes_bind; [apply finishes_lift; rewrite HT; apply Ha|].
  eapply finishes_bind; [apply finishes_lift; rewrite HR; apply Ha|]. eapply finishes_bind; [apply finishes_select|].
  apply finishes_lift. by rewrite load_row_view, Hcurrent.
Qed.

Lemma update_finishes :
  finishes P t (_runtime_update current updated) tt (put_row (proposal_key current) (mysql_row updated) t).
Proof. apply finishes_one_row. intros now _. by eapply runtime_update_succeeds. Qed.

Lemma identity_computed :
  _effect_identity (sp_action_type current) (sp_semantic_effect_reference current)
  = Ok (effect_identity (_action_key (sp_action_type current)) (sp_semantic_effect_reference current)).
Proof.
  destruct current_identity as (_ & _ & _ & _ & -> & ->).
  assert (Hl := limits_version _ (acc_limits _ _ Ha)). unfold _effect_identity. rewrite Hl. cbn [mbind res_bind].
  unfold _validate_mysql_effect_identity in Hl. apply res_bind_Ok in Hl as (n & Hn & Hl). split_if; [done|].
  apply res_bind_Ok in Hl as (m & Hm & _). rewrite Hn, Hm, text_encodes by apply Ha. cbn [mbind res_bind].
  rewrite (utf8_octets _ _ Hn), (utf8_octets _ _ Hm). unfold effect_identity, effect_canonical.
  simpl. by rewrite app_nil_r.
Qed.

(** No claim with the digest of this effect is another effect's. *)
Definition digest_own : Prop :=
  ∀ row, my_claims t !! primary_key (claim_key current) = Some row → claim_row_key row = claim_key current.

Lemma owner_finishes :
  digest_own → finishes P t (_claim_owner current) (effect_claims (mysql_view t) !! claim_key current) t.
Proof.
  intros Hd. destruct current_identity as (HT & _ & HT' & _). unfold _claim_owner.
  eapply finishes_bind; [apply finishes_lift; rewrite <-HT, HT'; apply Ha|].
  eapply finishes_bind; [apply finishes_lift, identity_computed|].
  eapply finishes_bind; [apply finishes_select|]. apply finishes_lift.
  rewrite (claim_key_primary _ _ _ _ Hok Hcurrent). unfold effect_owner.
  destruct (my_claims t !! primary_key (claim_key current)) as [row|] eqn:Hrow.
  - assert (Hk := Hd row Hrow). assert (Hk' := Hk). unfold claim_row_key, claim_key, claim_key_of in Hk'. injection Hk' as H1 H2 H3.
    rewrite H1, H2, H3, !bool_decide_eq_true_2 by done. cbn [negb]. f_equal. symmetry. apply claims_view_lookup; [done|]. by exists row.
  - f_equal. symmetry. destruct (effect_claims _ !! _) as [o|] eqn:E; [|done].
    apply claims_view_lookup in E as (row & Hr & _); [|done]. congruence.
Qed.

Lemma compare_and_set_finishes revision statuses :
  sp_revision current = revision → sp_lifecycle_status current ∈ statuses →
  (sp_lifecycle_status updated = EXECUTING → sp_lifecycle_status current ≠ EXECUTING →
   effect_claims (mysql_view t) !! claim_key current = Some (sp_proposal_reference current)) →
  finishes P t (my_compare_and_set T R revision statuses updated) true
    (put_row (proposal_key current) (mysql_row updated) t).
Proof.
  intros <- Hst Hcl. eapply finishes_bind; [apply finishes_lift, Ha|]. apply finishes_commit.
  eapply finishes_bind; [apply load_finishes|]. lazy beta iota. rewrite Z.eqb_refl, bool_decide_eq_true_2 by done. cbn [negb orb].
  eapply finishes_bind; [by apply finishes_lift, validate_update_ok|].
  eapply finishes_bind; [|eapply finishes_bind; [apply update_finishes|apply finishes_ret]].
  case_bool_decide as He; [|apply finishes_ret]. case_bool_decide as Hc; [apply finishes_ret|]. cbn [negb andb].
  specialize (Hcl He Hc). eapply finishes_bind; [apply owner_finishes|].
  - intros row Hrow. apply claims_view_lookup in Hcl as (row' & Hrow' & Hk & _); [|done]. congruence.
  - apply finishes_lift. by rewrite Hcl, bool_decide_eq_true_2.
Qed.
End Operations.

Lemma finishes_yields {A} (P : datetime → Prop) t (m : atomic MysqlDatabase A) a t' Q :
  P 0%Z → finishes P t m a t' → yields t m Q → Q a t'.
Proof.
  intros H0 Hf Hy. set (db := mkMysqlDatabase t [] []).
  destruct (Hf db eq_refl) as (db' & E & <- & _); [by split; simpl|]. exact (Hy db a db' eq_refl E).
Qed.

(** ** Admission *)

Section Admission.
Context (t : Tables) (T R : pystr) (current updated : StoredProposal) (admitted_at : datetime).
Hypothesis (Hok : tables_ok t) (Hcurrent : proposals (mysql_view t) !! (T, R) = Some current).
Hypothesis (Hu : update_ok current updated) (Ha : acceptable current updated).
Hypothesis (Hd : digest_own t current) (Howned : claims_owned (mysql_view t)).
Hypothesis (Hauthorized : sp_lifecycle_status current = AUTHORIZED) (Hpending : sp_erasure_pending_at current = None)
  (Herased : sp_erased_at current = None) (Hexpires : (admitted_at < sp_expires_at current)%Z).

(** The database's clock stays before the deadline. *)
Definition in_time (now : datetime) : Prop := (now < sp_expires_at current)%Z.

Lemma current_admissible now : in_time now → admissible (mysql_row current) admitted_at now = true.
Proof.
  intros Hnow. destruct (stored_row _ _ _ _ Hok Hcurrent) as (_ & Hv & He & _). unfold admissible. simpl.
  rewrite document_kept by done. unfold in_time in Hnow.
  rewrite Hauthorized, Hpending, Herased, !bool_decide_eq_true_2, !andb_true_r by done. apply Z.ltb_lt. lia.
Qed.

Lemma acquire_finishes :
  effect_claims (mysql_view t) !! claim_key current = None →
  ∃ t1, finishes in_time t (acquire_claim current admitted_at) ACQUIRED t1.
Proof.
  intros Hnone. destruct (stored_row _ _ _ _ Hok Hcurrent) as (_ & Hv & _ & Hrow & _). destruct (safe_stored current Hv) as (_ & _ & Hkey).
  eexists. apply finishes_except. eapply finishes_bind; [|apply finishes_ret]. apply finishes_one_row. intros now Hnow.
  unfold threvo_actions_claim_effect. rewrite Hkey, Hrow, current_admissible by done. cbv zeta.
  cbn [mysql_row my_tenant_reference my_action_key my_semantic_effect_reference].
  rewrite (claim_key_primary _ _ _ _ Hok Hcurrent).
  destruct (my_claims t !! primary_key (claim_key current)) as [row|] eqn:Hc; [|done].
  assert (Hk := Hd row Hc). exfalso.
  enough (effect_claims (mysql_view t) !! claim_key current = Some (mc_proposal_reference row)) by congruence.
  apply claims_view_lookup; [done|]. by exists row.
Qed.

Lemma transfer_finishes owner :
  effect_claims (mysql_view t) !! claim_key current = Some owner → owner ≠ sp_proposal_reference current →
  claimable (mysql_view t) (claim_key current) (sp_proposal_reference current) →
  ∃ t1, finishes in_time t (changed ← statement (threvo_actions_transfer_effect_claim (sp_tenant_reference current)
      (effect_identity (_action_key (sp_action_type current)) (sp_semantic_effect_reference current)) owner
      (sp_proposal_reference current) admitted_at);
    mret (if (changed =? 1)%Z then ACQUIRED else CONFLICT)) ACQUIRED t1.
Proof.
  intros Howner Hne Hable. destruct (stored_row _ _ _ _ Hok Hcurrent) as (_ & Hv & _ & Hrow & _).
  destruct (safe_stored current Hv) as (HcT & _ & Hkey).
  unfold claimable in Hable. rewrite Howner in Hable. destruct Hable as [|(record & Hrec & Hvoid)]; [done|].
  destruct (Howned _ _ Howner) as (record' & Hrec' & Hck). rewrite Hrec in Hrec'. injection Hrec' as <-.
  apply claims_view_lookup in Howner as (claim & Hclaim & Hckey & <-); [|done].
  destruct (stored_row _ _ _ _ Hok Hrec) as (Hk & Hvr & _ & Hrowr & Hkeyr).
  assert (Hckey' := Hckey). unfold claim_row_key, claim_key, claim_key_of in Hckey'. injection Hckey' as HmT HmA HmE.
  assert (HrA := f_equal (λ c, c.1.2) Hck : _action_key (sp_action_type record) = _).
  assert (HrE := f_equal snd Hck : sp_semantic_effect_reference record = _). cbn [claim_key claim_key_of fst snd] in HrA, HrE.
  eexists. eapply (finishes_bind _ _ _ _ _ _ 1%Z); [|apply finishes_ret]. apply finishes_statement. intros now Hnow.
  unfold threvo_actions_transfer_effect_claim. cbv zeta. rewrite (claim_key_primary _ _ _ _ Hok Hcurrent), Hclaim.
  rewrite HmT, HmA, HmE, Hkey, Hrow, current_admissible by done.
  change (claim_key current).1.1 with (sp_tenant_reference current) in *. rewrite Hkeyr, Hrowr.
  cbn [mysql_row my_action_key my_semantic_effect_reference my_lifecycle_status].
  rewrite HrA, HrE, same_effect_refl, !bool_decide_eq_true_2 by done. done.
Qed.

Lemma claim_finishes :
  claimable (mysql_view t) (claim_key current) (sp_proposal_reference current) →
  ∃ r t1, (r = ACQUIRED ∨ r = OWNED_BY_PROPOSAL) ∧ finishes in_time t (_claim_effect current admitted_at) r t1.
Proof.
  intros Hable.
  assert (∀ r t1 o, effect_claims (mysql_view t) !! claim_key current = o →
    finishes in_time t (match o with
      | None => acquire_claim current admitted_at
      | Some owner =>
          if bool_decide (owner = sp_proposal_reference current) then mret OWNED_BY_PROPOSAL
          else
            changed ← statement (threvo_actions_transfer_effect_claim (sp_tenant_reference current)
              (effect_identity (_action_key (sp_action_type current)) (sp_semantic_effect_reference current)) owner
              (sp_proposal_reference current) admitted_at);
            mret (if (changed =? 1)%Z then ACQUIRED else CONFLICT)
      end) r t1 → finishes in_time t (_claim_effect current admitted_at) r t1) as Hstart.
  { intros r t1 o <- H. eapply finishes_bind; [by eapply finishes_lift, identity_computed|].
    eapply finishes_bind; [by eapply owner_finishes|exact H]. }
  destruct (effect_claims (mysql_view t) !! claim_key current) as [owner|] eqn:Ho.
  - destruct (decide (owner = sp_proposal_reference current)) as [->|Hne].
    + exists OWNED_BY_PROPOSAL, t. split; [by right|]. apply (Hstart _ _ _ eq_refl). cbv beta iota.
      rewrite bool_decide_eq_true_2 by done. apply finishes_ret.
    + destruct (transfer_finishes owner Ho Hne Hable) as [t1 H]. exists ACQUIRED, t1. split; [by left|].
      apply (Hstart _ _ _ eq_refl). cbv beta iota. rewrite bool_decide_eq_false_2 by done. exact H.
  - destruct (acquire_finishes Ho) as [t1 H]. exists ACQUIRED, t1. split; [by left|]. by apply (Hstart _ _ _ eq_refl).
Qed.

Lemma admit_finishes revision :
  in_time 0 → sp_revision current = revision → sp_lifecycle_status updated = EXECUTING →
  claimable (mysql_view t) (claim_key current) (sp_proposal_reference current) →
  (_MIN_MYSQL_DATETIME <= admitted_at)%Z →
  ∃ r t', (r = ACQUIRED ∨ r = OWNED_BY_PROPOSAL) ∧
    finishes in_time t (my_admit_execution T R revision admitted_at updated) r t'.
Proof.
  intros H0 <- Hexec Hable Hmin. destruct (claim_finishes Hable) as (r & t1 & Hr & Hclaim).
  assert (claims_for t current r t1) as [->|(_ & _ & Hok1 & Hview1)]
    by (by eapply finishes_yields, claim_yields); [by destruct Hr|].
  exists r, (put_row (proposal_key current) (mysql_row updated) t1). split; [done|].
  eapply finishes_bind.
  { apply finishes_lift. unfold _validated_datetime. destruct (Z.ltb_spec admitted_at _MIN_MYSQL_DATETIME); [lia|done]. }
  eapply finishes_bind; [apply finishes_lift, Ha|]. apply finishes_attempts, finishes_commit.
  eapply finishes_bind; [by eapply load_finishes|]. lazy beta iota.
  apply finishes_now. intros now Hnow. unfold in_time in Hnow. rewrite Z.eqb_refl, bool_decide_eq_true_2 by done.
  rewrite Hpending, Herased, !(bool_decide_eq_false_2 (is_Some None)) by by intros [].
  rewrite (proj2 (Z.leb_gt _ _) Hexpires), (proj2 (Z.leb_gt _ _) Hnow). cbn [negb orb].
  eapply finishes_bind; [by apply finishes_lift, validate_update_ok|].
  eapply finishes_bind; [apply finishes_lift; by rewrite bool_decide_eq_true_2|].
  eapply finishes_bind; [exact Hclaim|]. lazy beta iota. rewrite bool_decide_eq_false_2 by (by destruct Hr as [->| ->]).
  eapply finishes_bind; [|apply finishes_ret]. eapply update_finishes; [done| |done..]. rewrite Hview1. exact Hcurrent.
Qed.
End Admission.

(** * Properties *)

Lemma claims_owned_trace v es v' :
  view_ok v → claims_owned v → contract_trace v es v' → claims_owned v'.
Proof. intros Hv Ho Ht. induction Ht; eauto using view_ok_contract, claims_owned_contract. Qed.

Lemma mysql_reached os clock errors :
  forallb my_kept os = true →
  let t := db_tables (mysql_run_all os (mkMysqlDatabase empty_tables clock errors)).2 in
  tables_ok t ∧ claims_owned (mysql_view t).
Proof.
  intros Hs. destruct (mysql_history os (mkMysqlDatabase empty_tables clock errors) empty_tables_ok Hs) as [Hok Ht].
  split; [exact Hok|]. eapply claims_owned_trace; [apply view_ok_empty| |exact Ht].
  intros c owner H. simpl in H. by rewrite lookup_empty in H.
Qed.

(** What an update or an admission needs of the database: that no statement
    fails, and that its clock is before the deadline. *)
Definition calm (deadline : datetime) (db : MysqlDatabase) : Prop :=
  db_errors db = [] ∧ Forall (λ now, now < deadline)%Z (0%Z :: db_clock db).

Lemma calm_undisturbed deadline db : calm deadline db → undisturbed (λ now, now < deadline)%Z db.
Proof.
  intros [He Hc]. inversion_clear Hc as [|? ? H0 Hl]. split; [done|]. split_and!; [|done..].
  by destruct Hl.
Qed.

(** Whatever happened before, when no statement fails the MySQL store answers
    [True] to every update the contract allows and [acceptable] describes, and
    stores it: no procedure, trigger or constraint of the schema stands in its
    way. *)
Theorem mysql_applies_updates (os : list store_op) (clock : list datetime) (errors : list (option exn))
  (T R : pystr) (revision : Z) (statuses : list LifecycleStatus) (updated : StoredProposal) (v' : StoreView)
  (Hs : forallb my_kept os = true)
  (db := (mysql_run_all os (mkMysqlDatabase empty_tables clock errors)).2)
  (Hquiet : db_errors db = [])
  (Hcas : cas_effect (mysql_view (db_tables db)) (T, R) revision statuses updated v')
  (Haccept : ∀ current, proposals (mysql_view (db_tables db)) !! (T, R) = Some current → acceptable current updated) :
  let '(r, db') := my_compare_and_set T R revision statuses updated db in
  r = Ok true ∧ mysql_view (db_tables db') = v'.
Proof.
  destruct (mysql_reached os clock errors Hs) as [Hok _]. fold db in Hok.
  destruct Hcas as (c & Hc & Hrev & Hst & Hu & Hcl & ->).
  destruct (compare_and_set_finishes (λ _, True) _ _ _ c updated Hok Hc Hu (Haccept c Hc) revision statuses Hrev Hst Hcl
    db eq_refl) as (db' & -> & -> & _); [by split; [|split_and!; [..|apply Forall_true]]|]. split; [done|].
  destruct (Haccept c Hc). destruct (stored_row _ _ _ _ Hok Hc) as (-> & _).
  destruct (update_ok_keys _ _ Hu) as [<- _]. by apply view_put; [|by eapply validated_Ok|].
Qed.

(** C29: whatever happened before, when no statement fails and the clock of the
    server is before the deadline, the MySQL store answers an execution the
    contract admits with [ACQUIRED] or [OWNED_BY_PROPOSAL] and stores it: the
    tests of the procedures, the trigger and the CHECK constraints hold of it.
    Supposed of the update ([acceptable]): it is within the limits of the adapter
    ([_validated_proposal]) with documents the server keeps, written by name; it
    changes only the members [threvo_actions_runtime_update_proposal] leaves free
    (not the snapshot, commitment, preview, participants, number of attempts
    allowed or erasure marks, which the contract would let change); it is no
    tombstone, its deadline follows its creation, and its references can be
    encoded.  Supposed of the database: no other effect with the same SHA-256 is
    claimed, and its Unicode data has the characters Python's has. *)
Theorem mysql_admits (os : list store_op) (clock : list datetime) (errors : list (option exn))
  (T R : pystr) (revision : Z) (admitted_at : datetime) (updated : StoredProposal) (v' : StoreView)
  (Hs : forallb my_storable os = true)
  (db := (mysql_run_all (by_name_op <$> os) (mkMysqlDatabase empty_tables clock errors)).2)
  (Hadmit : admit_effect (mysql_view (db_tables db)) (T, R) revision admitted_at updated v')
  (Haccept : ∀ current, proposals (mysql_view (db_tables db)) !! (T, R) = Some current →
     acceptable current updated ∧ digest_own (db_tables db) current ∧ calm (sp_expires_at current) db)
  (Hmin : (_MIN_MYSQL_DATETIME <= admitted_at)%Z) :
  let '(r, db') := my_admit_execution T R revision admitted_at updated db in
  (r = Ok ACQUIRED ∨ r = Ok OWNED_BY_PROPOSAL) ∧ mysql_view (db_tables db') = v'.
Proof.
  destruct (mysql_reached _ clock errors (my_kept_by_name os Hs)) as [Hok Howned]. fold db in Hok, Howned.
  destruct Hadmit as (c & Hc & Hrev & Hst & Hp & He & Hexp & Hu & Hex & Hable & ->).
  destruct (Haccept c Hc) as (Ha & Hd & Hcalm).
  destruct (stored_row _ _ _ _ Hok Hc) as (Hk & _). unfold proposal_key in Hk. injection Hk as HT HR. cbn [snd] in *.
  rewrite HR in Hable.
  destruct (admit_finishes _ _ _ c updated admitted_at Hok Hc Hu Ha Hd Howned Hst Hp He Hexp revision) as (r & t' & Hr & Hf);
    [by destruct Hcalm as [_ Hcl]; inversion_clear Hcl|done..|].
  destruct (Hf db eq_refl (calm_undisturbed _ _ Hcalm)) as (db' & E & <- & _).
  destruct (mysql_run_contract (AdmitExecution T R revision admitted_at updated) db Hok (acc_exact _ _ Ha)) as [_ Hcon].
  cbn [mysql_run] in Hcon. rewrite E in *. cbn [fst snd contract] in Hcon.
  assert (admit_effect (mysql_view (db_tables db)) (T, R) revision admitted_at updated (mysql_view (db_tables db')))
    as (c' & Hc' & _ & _ & _ & _ & _ & _ & _ & _ & ->) by (by destruct Hr as [->| ->]).
  rewrite Hc in Hc'. injection Hc' as <-. split; [|done]. destruct Hr as [->| ->]; auto.
Qed.
End Liveness.
