(* ===== verification/MysqlScenario.v ===== *)
(** A worked MySQL database: a server that keeps documents with their members in
    another order and hashes effects in the worst way, on which the theorems are
    applied. *)

From S2P Require Import Prelude Models Canonical Authority Receipts StoreBase StoredValidity StoreContract Documents.
From S2P Require Import Sessions SqliteStore ProposalEncoding MysqlStore MysqlRefinement MysqlLiveness.

#[local] Existing Instance ascii_unicode.
#[local] Existing Instance binary_codec.

#[local] Definition stored (reference effect : pystr) (revision : Z) (s : LifecycleStatus) : StoredProposal :=
  mkStoredProposal "t" reference (mkActionType "a.b" "c" 1) effect single s revision None None
    [("reason"%py, JStr "duplicate"); ("amount"%py, JInt 5)] None None 0 1000 [] [] 0 3 None None None None None None.

(** The proposals of the example have short texts, a letter and their number in
    unary; the others their binary one. *)
#[local] Definition samples : list StoredProposal :=
  ('(reference, effect) ← [("p"%py, "effect"%py); ("q"%py, "effect"%py); ("r"%py, "other"%py)];
   (λ '(revision, s), by_name_record (stored reference effect revision s))
     <$> [(0%Z, AWAITING_AUTHORITY); (1%Z, AUTHORIZED); (2%Z, EXECUTING); (2%Z, EXPIRED)]).

#[local] Definition text (p : StoredProposal) : pystr :=
  match list_find (p =.) samples with
  | Some (i, _) => PyStr (65%N :: repeat 49%N i)
  | None => proposal_json p
  end.

#[local] Definition document (s : pystr) : option StoredProposal :=
  match code_points s with
  | c :: l => if (c =? 65)%N then samples !! length l else proposal_of_json s
  | [] => None
  end.

Lemma digits_head p : ∃ c l, digits p = c :: l ∧ c ≠ 65%N.
Proof. destruct p; simpl; by eexists _, _. Qed.

Lemma digits_unicode p : unicode_text (PyStr (digits p)) = true.
Proof. unfold unicode_text. cbn [code_points]. by induction p. Qed.

Lemma long_text p : ∃ n, proposal_json p = PyStr (digits n).
Proof. by eexists. Qed.

Lemma document_of_text p : document (text p) = Some p.
Proof.
  unfold document, text. destruct (list_find (p =.) samples) as [[i q]|] eqn:E.
  - apply list_find_Some in E as (Hi & <- & _). simpl. by rewrite repeat_length.
  - assert (proposal_of_json (proposal_json p) = Some p) as H by exact (of_text_of p).
    destruct (long_text p) as [n Hn]. rewrite Hn in *. cbn [code_points].
    destruct (digits_head n) as (c & l & Hd & Hc). rewrite Hd in *. by destruct (N.eqb_spec c 65).
Qed.

Lemma text_unicode p : unicode_text (text p) = true.
Proof.
  unfold text. destruct (list_find _ _) as [[i q]|].
  - unfold unicode_text. simpl. by induction i.
  - destruct (long_text p) as [n ->]. apply digits_unicode.
Qed.

(** The members of the two documents in the reverse order. *)
#[local] Definition reordered (p : StoredProposal) : StoredProposal :=
  mkStoredProposal (sp_tenant_reference p) (sp_proposal_reference p) (sp_action_type p)
    (sp_semantic_effect_reference p) (sp_effect_kind p) (sp_lifecycle_status p) (sp_revision p)
    (sp_protected_private_snapshot p) (sp_commitment p) (reverse (sp_display_preview p))
    (sp_requesting_principal p) (sp_proposing_agent p) (sp_created_at p) (sp_expires_at p)
    (sp_authority_evidence p) (sp_receipts p) (sp_verification_attempts p)
    (sp_max_verification_attempts p) (sp_next_verification_at p)
    (reverse <$> sp_safe_result p) (sp_execution_precondition p) (sp_superseded_by p)
    (sp_erasure_pending_at p) (sp_erased_at p).

Lemma reverse_same o : json_document (JObj o) = true → by_name_object (reverse o) = by_name_object o.
Proof.
  intros [Hnd _]%json_document_entries. apply by_name_object_Permutation; [|apply reverse_Permutation].
  by rewrite reverse_Permutation.
Qed.

Lemma reordered_same p : json_fields p = true → by_name_record (reordered p) = by_name_record p.
Proof.
  unfold json_fields. intros [Hp Hr]%andb_prop. unfold by_name_record. cbn [reordered sp_display_preview sp_safe_result].
  rewrite reverse_same by done. f_equal. destruct (sp_safe_result p) as [o|]; [|done].
  cbn [fmap option_fmap option_map optional] in *. by rewrite reverse_same.
Qed.

Lemma column_kept p :
  stored_proposal_valid p = true → document_storable p = true →
  by_name_record <$> (reordered <$> document (text p)) = Some (by_name_record p).
Proof.
  intros _ Hs. rewrite document_of_text. cbn [fmap option_fmap option_map]. f_equal. apply reordered_same.
  unfold document_storable in Hs. apply andb_prop in Hs as [Hs _]. by apply andb_prop in Hs as [? _].
Qed.

(** Every effect has the same digest. *)
#[local] Instance colliding_server : MySqlServer := {|
  _mysql_proposal_json := text;
  column_document s := reordered <$> document s;
  json_equal a b := bool_decide (by_name_object a = by_name_object b);
  sha256 _ := [];
  icu_other := category_other;
  document_text p _ _ := text_unicode p;
  column_document_kept := column_kept;
  json_equal_refl o := bool_decide_eq_true_2 _ eq_refl
|}.

#[local] Definition authorize (reference effect : pystr) : list store_op :=
  [Create (stored reference effect 0 AWAITING_AUTHORITY);
   CompareAndSet "t" reference 0 [AWAITING_AUTHORITY] (stored reference effect 1 AUTHORIZED)].

#[local] Definition start (reference effect : pystr) : store_op :=
  AdmitExecution "t" reference 1 5 (stored reference effect 2 EXECUTING).

(** Two proposals of one effect, and one of another effect with its digest. *)
#[local] Definition history : list store_op :=
  authorize "p" "effect" ++ authorize "q" "effect" ++ authorize "r" "other"
    ++ [start "p" "effect"; start "q" "effect"; start "r" "other"; Create (stored "p" "effect" 0 AWAITING_AUTHORITY)].

(** A deadlock at the first statement of the first admission. *)
#[local] Definition failures : list (option exn) :=
  repeat None 15 ++ [Some (raised (mysql_error 1213))].

(** The deadlock is tried again, the second proposal of the effect does not get
    its claim, and the other effect is refused rather than taken for it. *)
#[local] Definition after := mysql_run_all (by_name_op <$> history) (mkMysqlDatabase empty_tables [] failures).

Lemma mysql_store_refines_contract_witness :
  forallb my_storable history = true ∧
  drop 6 after.1 =
  [StoreEvent (by_name_op (start "p" "effect")) (Ok ACQUIRED); StoreEvent (by_name_op (start "q" "effect")) (Ok CONFLICT);
   StoreEvent (by_name_op (start "r" "other")) (fail corrupt);
   StoreEvent (by_name_op (Create (stored "p" "effect" 0 AWAITING_AUTHORITY)))
     (fail (ProposalAlreadyExistsError "proposal already exists"))] ∧
  contract_trace empty_view after.1 (mysql_view (db_tables after.2)).
Proof.
  split_and!; [vm_compute; reflexivity..|].
  exact (proj1 (mysql_store_refines_contract history [] failures eq_refl)).
Defined.

(** ** Undisturbed work *)

#[local] Definition listed (reference effect : pystr) (revision : Z) (s : LifecycleStatus) : StoredProposal :=
  by_name_record (stored reference effect revision s).

#[local] Definition before : list store_op := authorize "p" "effect" ++ authorize "q" "effect".

#[local] Definition calm_db : MysqlDatabase := (mysql_run_all (by_name_op <$> before) (mkMysqlDatabase empty_tables [] [])).2.

#[local] Definition execution : StoredProposal := listed "p" "effect" 2 EXECUTING.

Lemma p_stored : proposals (mysql_view (db_tables calm_db)) !! ("t"%py, "p"%py) = Some (listed "p" "effect" 1 AUTHORIZED).
Proof. vm_compute. reflexivity. Qed.

Lemma p_accepts s :
  s ∈ [EXECUTING; EXPIRED] → acceptable (listed "p" "effect" 1 AUTHORIZED) (listed "p" "effect" 2 s).
Proof. intros H. elem_cases H; by split; vm_compute. Qed.

Lemma p_update s : s ∈ [EXECUTING; EXPIRED] → update_ok (listed "p" "effect" 1 AUTHORIZED) (listed "p" "effect" 2 s).
Proof. intros H. apply validate_update_ok. by elem_cases H; vm_compute. Qed.

Lemma mysql_applies_updates_witness :
  let '(r, db') := my_compare_and_set "t" "p" 1 [AUTHORIZED] (listed "p" "effect" 2 EXPIRED) calm_db in
  r = Ok true ∧ mysql_view (db_tables db')
  = put_proposal ("t"%py, "p"%py) (listed "p" "effect" 2 EXPIRED) (mysql_view (db_tables calm_db)).
Proof.
  apply (mysql_applies_updates (V := colliding_server) (λ _ H, H) (by_name_op <$> before) [] [] "t" "p" 1 [AUTHORIZED] (listed "p" "effect" 2 EXPIRED)).
  - vm_compute. reflexivity.
  - vm_compute. reflexivity.
  - exists (listed "p" "effect" 1 AUTHORIZED). split_and!; [exact p_stored|reflexivity|left| |intros [=]|reflexivity].
    apply p_update. right. left.
  - intros current H. change (mysql_run_all _ _).2 with calm_db in H. rewrite p_stored in H. injection H as <-.
    apply p_accepts. right. left.
Defined.

Lemma mysql_admits_witness :
  let '(r, db') := my_admit_execution "t" "p" 1 5 execution calm_db in
  (r = Ok ACQUIRED ∨ r = Ok OWNED_BY_PROPOSAL) ∧ mysql_view (db_tables db')
  = put_proposal ("t"%py, "p"%py) execution
      (put_claim (claim_key (listed "p" "effect" 1 AUTHORIZED)) "p" (mysql_view (db_tables calm_db))).
Proof.
  apply (mysql_admits (V := colliding_server) (λ _ H, H) before [] [] "t" "p" 1 5 execution).
  - vm_compute. reflexivity.
  - exists (listed "p" "effect" 1 AUTHORIZED). split_and!; [exact p_stored|reflexivity..|by vm_compute|apply p_update; left|reflexivity| |reflexivity].
    vm_compute. done.
  - intros current H. change (mysql_run_all _ _).2 with calm_db in H. rewrite p_stored in H. injection H as <-.
    split_and!; [apply p_accepts; left| |split; [vm_compute; reflexivity|by repeat constructor]].
    intros row H. vm_compute in H. done.
  - vm_compute. done.
Defined.
