(* ===== verification/StoreHarness.v ===== *)
(** The conformance harness of stores ([conformance.py]): what a store is asked
    and which answers pass.

    A harness is a program of calls of stores, one after the other or two at a
    time ([asyncio.gather]); the stores themselves are whatever answers
    ([conduct]).  Parameter: SHA-256, from which the harness derives the
    references of its own proposals. *)

From S2P Require Import Prelude Models Canonical Authority Receipts StoreBase StoreContract.

(** * Programs of store calls *)

(** The stores of a case. *)
Inductive StoreHandle := STORE | RETENTION_STORE | FIRST_STORE | SECOND_STORE.

Inductive test (A : Type) :=
  | Done (r : res A)
  | Call (h : StoreHandle) (o : store_op) (k : res (store_resp o) → test A)
  | Gather (h1 : StoreHandle) (o1 : store_op) (h2 : StoreHandle) (o2 : store_op)
      (k : res (store_resp o1) → res (store_resp o2) → test A).
Arguments Done {A} r.
Arguments Call {A} h o k.
Arguments Gather {A} h1 o1 h2 o2 k.

#[export] Instance test_ret : MRet test := λ A a, Done (Ok a).
#[export] Instance test_bind : MBind test := λ A B f,
  fix go t :=
    match t with
    | Done (Ok a) => f a
    | Done (Err e) => Done (Err e)
    | Call h o k => Call h o (λ r, go (k r))
    | Gather h1 o1 h2 o2 k => Gather h1 o1 h2 o2 (λ r1 r2, go (k r1 r2))
    end.

Definition call (h : StoreHandle) (o : store_op) : test (store_resp o) := Call h o Done.

Definition gather (h1 : StoreHandle) (o1 : store_op) (h2 : StoreHandle) (o2 : store_op)
  : test (store_resp o1 * store_resp o2) :=
  Gather h1 o1 h2 o2 (λ r1 r2,
    match r1, r2 with
    | Ok a, Ok b => Done (Ok (a, b))
    | Err e, _ | _, Err e => Done (Err e)
    end).

Definition ConformanceError (code : pystr) : exn_kind := OtherException ("ConformanceError: " +:+ code)%py.

Definition _require (condition : bool) (code : pystr) : test unit :=
  Done (if condition then Ok () else fail (ConformanceError code)).

Definition is_StoreInvariantError (e : exn) : bool :=
  match exn_class e with StoreInvariantError _ => true | _ => false end.

(** * Stores that answer *)

Inductive step :=
  | One (h : StoreHandle) (e : store_event)
  | Two (h1 : StoreHandle) (e1 : store_event) (h2 : StoreHandle) (e2 : store_event).

(** Anything that answers, in view of what it was asked before. *)
Definition stores : Type := list step → ∀ (h : StoreHandle) (o : store_op), res (store_resp o).

Fixpoint conduct {A} (env : stores) (before : list step) (t : test A) : res A * list step :=
  match t with
  | Done r => (r, [])
  | Call h o k =>
      let r := env before h o in
      let s := One h (StoreEvent o r) in
      let '(a, steps) := conduct env (before ++ [s]) (k r) in (a, s :: steps)
  | Gather h1 o1 h2 o2 k =>
      let r1 := env before h1 o1 in
      let r2 := env (before ++ [One h1 (StoreEvent o1 r1)]) h2 o2 in
      let s := Two h1 (StoreEvent o1 r1) h2 (StoreEvent o2 r2) in
      let '(a, steps) := conduct env (before ++ [s]) (k r1 r2) in (a, s :: steps)
  end.

Class Sha256 := { sha256_hexdigest : bytes → pystr }.

Section Harness.
Context `{U : Unicode, D : !Sha256}.

(** * Derived proposals *)

Definition NUL : pystr := PyStr [0%N].

Definition _derived_safe_reference (source purpose discriminator : pystr) : res pystr :=
  b ← utf8 (code_points (purpose +:+ NUL +:+ source +:+ NUL +:+ discriminator)%py);
  SafeReference ("conformance:" +:+ purpose +:+ ":" +:+ sha256_hexdigest b)%py.

Definition derived_payload (discriminator : pystr) (p : option ProtectedPayload) : res (option ProtectedPayload) :=
  match p with
  | Some p =>
      key_handle ← _derived_safe_reference (pp_key_handle p) "payload-key" discriminator;
      Ok (Some (mkProtectedPayload (pp_codec p) key_handle (pp_key_version p) (pp_ciphertext p)))
  | None => Ok None
  end.

Definition derived_commitment (discriminator : pystr) (c : option KeyedCommitment) : res (option KeyedCommitment) :=
  match c with
  | Some c =>
      key_handle ← _derived_safe_reference (kc_key_handle c) "commitment-key" discriminator;
      digest ← _derived_safe_reference (kc_digest c) "commitment-digest" discriminator;
      Ok (Some (mkKeyedCommitment (kc_algorithm c) key_handle (kc_key_version c) digest))
  | None => Ok None
  end.

(** [model_copy] of what identifies a proposal and its protected state. *)
Definition rebound (reference effect : pystr) (payload : option ProtectedPayload) (commitment : option KeyedCommitment)
  (p : StoredProposal) : StoredProposal :=
  mkStoredProposal (sp_tenant_reference p) reference (sp_action_type p) effect (sp_effect_kind p)
    (sp_lifecycle_status p) (sp_revision p) payload commitment (sp_display_preview p) (sp_requesting_principal p)
    (sp_proposing_agent p) (sp_created_at p) (sp_expires_at p) (sp_authority_evidence p) (sp_receipts p)
    (sp_verification_attempts p) (sp_max_verification_attempts p) (sp_next_verification_at p) (sp_safe_result p)
    (sp_execution_precondition p) (sp_superseded_by p) (sp_erasure_pending_at p) (sp_erased_at p).

(** Another proposal of the same effect. *)
Definition derived_contender (purpose discriminator keys : pystr) (p : StoredProposal) : res StoredProposal :=
  reference ← _derived_safe_reference (sp_proposal_reference p) purpose discriminator;
  payload ← derived_payload keys (sp_protected_private_snapshot p);
  commitment ← derived_commitment keys (sp_commitment p);
  Ok (rebound reference (sp_semantic_effect_reference p) payload commitment p).

Record StoreConformanceCase := mkStoreConformanceCase {
  original : StoredProposal;
  evidence : AuthorityEvidence;
  observed_at : datetime
}.

(** A proposal of an effect of its own. *)
Definition _conformance_proposal (c : StoreConformanceCase) (suffix : pystr) : res StoredProposal :=
  let p := original c in
  reference ← _derived_safe_reference (sp_proposal_reference p) "proposal-probe" suffix;
  effect ← _derived_safe_reference (sp_semantic_effect_reference p) "semantic-effect" suffix;
  payload ← derived_payload suffix (sp_protected_private_snapshot p);
  commitment ← derived_commitment suffix (sp_commitment p);
  Ok (set_authority_evidence [] $ set_receipts [] $ set_revision 0 $
      mkStoredProposal (sp_tenant_reference p) reference (sp_action_type p) effect (sp_effect_kind p)
        (sp_lifecycle_status p) (sp_revision p) payload commitment (sp_display_preview p) (sp_requesting_principal p)
        (sp_proposing_agent p) (sp_created_at p) (sp_expires_at p) (sp_authority_evidence p) (sp_receipts p)
        (sp_verification_attempts p) (sp_max_verification_attempts p) (sp_next_verification_at p) (sp_safe_result p)
        (sp_execution_precondition p) (sp_superseded_by p) None None).

(** ** Evidence for them *)

Definition rebound_evidence (reference effect digest channel_assurance : pystr) (e : AuthorityEvidence) : AuthorityEvidence :=
  mkAuthorityEvidence (ae_tenant_reference e) (ae_action_type e) reference effect (ae_authority e) (ae_audience e)
    (ae_decision e) digest channel_assurance (ae_issued_at e) (ae_expires_at e) (ae_external_attestation e).

Definition commitment_digest (p : StoredProposal) : pystr :=
  match sp_commitment p with Some k => kc_digest k | None => "missing" end.

(** The effect of the evidence stays. *)
Definition _independent_evidence (e : AuthorityEvidence) (p : StoredProposal) : AuthorityEvidence :=
  rebound_evidence (sp_proposal_reference p) (ae_semantic_effect_reference e) (commitment_digest p)
    (ae_channel_assurance e) e.

Definition _conformance_evidence (c : StoreConformanceCase) (p : StoredProposal) : AuthorityEvidence :=
  let e := evidence c in
  rebound_evidence (sp_proposal_reference p) (sp_semantic_effect_reference p) (commitment_digest p)
    (ae_channel_assurance e) e.

Definition moved (status : LifecycleStatus) (p : StoredProposal) : StoredProposal :=
  set_lifecycle_status status $ set_revision (sp_revision p + 1) p.

Definition authorized_with (es : list AuthorityEvidence) (p : StoredProposal) : StoredProposal :=
  set_authority_evidence es $ moved AUTHORIZED p.

(** * Steps of the harness *)

Definition cas (h : StoreHandle) (p : StoredProposal) (statuses : list LifecycleStatus) (updated : StoredProposal) : test bool :=
  call h (CompareAndSet (sp_tenant_reference p) (sp_proposal_reference p) (sp_revision p) statuses updated).

Definition admission (c : StoreConformanceCase) (p updated : StoredProposal) : store_op :=
  AdmitExecution (sp_tenant_reference p) (sp_proposal_reference p) (sp_revision p) (observed_at c) updated.

Definition owner_of (h : StoreHandle) (p : StoredProposal) : test (option pystr) :=
  call h (GetEffectClaimOwner (sp_tenant_reference p) (sp_action_type p) (sp_semantic_effect_reference p)).

Definition read (h : StoreHandle) (p : StoredProposal) : test (option StoredProposal) :=
  call h (Get (sp_tenant_reference p) (sp_proposal_reference p)).

(** An update that must raise [StoreInvariantError] or answer [False], and must
    leave the proposal. *)
Definition _require_update_rejected (current updated : StoredProposal) (code : pystr) : test unit :=
  changed ← Call STORE (CompareAndSet (sp_tenant_reference current) (sp_proposal_reference current)
      (sp_revision current) [sp_lifecycle_status current] updated)
    (λ r, Done (match r with Err e => if is_StoreInvariantError e then Ok false else Err e | Ok _ => r end));
  _ ← _require (negb changed) code;
  stored ← read STORE current;
  _require (bool_decide (stored = Some current)) (code +:+ ":no_mutation")%py.

(** ** Lifecycle transitions *)

Definition _lifecycle_seed_paths (s : LifecycleStatus) : list LifecycleStatus :=
  match s with
  | AWAITING_AUTHORITY => []
  | AUTHORIZED => [AUTHORIZED]
  | BLOCKED => [AUTHORIZED; BLOCKED]
  | DENIED => [DENIED]
  | EXECUTING => [AUTHORIZED; EXECUTING]
  | EXPIRED => [EXPIRED]
  | FAILED_KNOWN => [AUTHORIZED; EXECUTING; FAILED_KNOWN]
  | FAILED_UNKNOWN => [AUTHORIZED; EXECUTING; FAILED_UNKNOWN]
  | PARTIALLY_SUCCEEDED => [AUTHORIZED; EXECUTING; VERIFICATION_PENDING; PARTIALLY_SUCCEEDED]
  | STALE => [AUTHORIZED; STALE]
  | SUPERSEDED => [AUTHORIZED; STALE; SUPERSEDED]
  | VERIFICATION_PENDING => [AUTHORIZED; EXECUTING; VERIFICATION_PENDING]
  | VERIFICATION_UNRESOLVED => [AUTHORIZED; EXECUTING; VERIFICATION_PENDING; VERIFICATION_UNRESOLVED]
  | VERIFIED => [AUTHORIZED; EXECUTING; VERIFICATION_PENDING; VERIFIED]
  end.

Fixpoint move_along (c : StoreConformanceCase) (targets : list LifecycleStatus) (current : StoredProposal)
  : test StoredProposal :=
  match targets with
  | [] => mret current
  | target :: targets' =>
      let updated := moved target current in
      _ ← (if bool_decide (target = EXECUTING) then
             result ← call STORE (admission c current updated);
             _require (bool_decide (result ∈ [ACQUIRED; OWNED_BY_PROPOSAL])) "store_transition_probe_execution"
           else
             changed ← cas STORE current [sp_lifecycle_status current] updated;
             _require changed "store_transition_probe_setup");
      move_along c targets' updated
  end.

Definition _proposal_at_status (c : StoreConformanceCase) (status : LifecycleStatus) : test StoredProposal :=
  probe ← Done (_conformance_proposal c ("transition:" +:+ lifecycle_value status)%py);
  let current := set_lifecycle_status AWAITING_AUTHORITY probe in
  _ ← call STORE (Create current);
  move_along c (_lifecycle_seed_paths status) current.

Fixpoint reject_targets (current : StoredProposal) (source : LifecycleStatus) (targets : list LifecycleStatus) : test unit :=
  match targets with
  | [] => mret ()
  | target :: targets' =>
      _ ← (if bool_decide (target = source) || bool_decide (target ∈ ALLOWED_LIFECYCLE_TRANSITIONS source) then mret ()
           else _require_update_rejected current (moved target current)
                  ("store_lifecycle_transition:" +:+ lifecycle_value source +:+ ":" +:+ lifecycle_value target)%py);
      reject_targets current source targets'
  end.

Fixpoint guard_sources (c : StoreConformanceCase) (sources : list LifecycleStatus) : test unit :=
  match sources with
  | [] => mret ()
  | source :: sources' =>
      current ← _proposal_at_status c source;
      _ ← reject_targets current source lifecycle_statuses;
      guard_sources c sources'
  end.

Definition _assert_lifecycle_transition_guards (c : StoreConformanceCase) : test unit :=
  guard_sources c lifecycle_statuses.

(** ** Evidence and receipts are only appended *)

Definition second_evidence_of (e : AuthorityEvidence) : res AuthorityEvidence :=
  channel ← _derived_safe_reference (ae_channel_assurance e) "authority-channel" "second";
  Ok (rebound_evidence (ae_proposal_instance_reference e) (ae_semantic_effect_reference e)
        (ae_proposal_commitment e) channel e).

Definition probe_receipt (c : StoreConformanceCase) (probe : StoredProposal) (e : AuthorityEvidence) (reference : pystr)
  : Receipt :=
  AuthorityReceipt (mkReceiptBase "internal/v0" reference (sp_proposal_reference probe) (sp_proposal_reference probe)
    (observed_at c) None None None None None) AR_RECORDED (ae_authority e).

Definition set_erased_at (v : option datetime) (p : StoredProposal) : StoredProposal :=
  mkStoredProposal (sp_tenant_reference p) (sp_proposal_reference p) (sp_action_type p) (sp_semantic_effect_reference p)
    (sp_effect_kind p) (sp_lifecycle_status p) (sp_revision p) (sp_protected_private_snapshot p) (sp_commitment p)
    (sp_display_preview p) (sp_requesting_principal p) (sp_proposing_agent p) (sp_created_at p) (sp_expires_at p)
    (sp_authority_evidence p) (sp_receipts p) (sp_verification_attempts p) (sp_max_verification_attempts p)
    (sp_next_verification_at p) (sp_safe_result p) (sp_execution_precondition p) (sp_superseded_by p)
    (sp_erasure_pending_at p) v.

Definition bumped (p : StoredProposal) : StoredProposal := set_revision (sp_revision p + 1) p.

Definition append_only_checks (probe : StoredProposal) (first_evidence second_evidence : AuthorityEvidence)
  (first_receipt second_receipt : Receipt) (at_ : datetime) : test unit :=
  let authorized := set_receipts [first_receipt; second_receipt]
    (authorized_with [first_evidence; second_evidence] probe) in
  set_up ← cas STORE probe [AWAITING_AUTHORITY] authorized;
  _ ← _require set_up "store_invariant_probe_setup";
  _ ← _require_update_rejected authorized (set_authority_evidence (take 1 (sp_authority_evidence authorized)) (bumped authorized))
        "store_authority_evidence_append_only";
  _ ← _require_update_rejected authorized (set_authority_evidence (rev (sp_authority_evidence authorized)) (bumped authorized))
        "store_authority_evidence_append_only";
  _ ← _require_update_rejected authorized (set_receipts (take 1 (sp_receipts authorized)) (bumped authorized))
        "store_receipts_append_only";
  _ ← _require_update_rejected authorized (set_receipts (rev (sp_receipts authorized)) (bumped authorized))
        "store_receipts_append_only";
  _ ← _require_update_rejected authorized (set_erased_at (Some at_) (bumped authorized)) "store_content_free_tombstone";
  mret ().

Definition _assert_store_update_invariants (c : StoreConformanceCase) : test unit :=
  _ ← _assert_lifecycle_transition_guards c;
  probe ← Done (_conformance_proposal c "append-only");
  _ ← call STORE (Create probe);
  let first_evidence := _conformance_evidence c probe in
  second_evidence ← Done (second_evidence_of first_evidence);
  one ← Done (_derived_safe_reference (sp_proposal_reference probe) "receipt" "one");
  two ← Done (_derived_safe_reference (sp_proposal_reference probe) "receipt" "two");
  append_only_checks probe first_evidence second_evidence (probe_receipt c probe first_evidence one)
    (probe_receipt c probe first_evidence two) (observed_at c).

(** * The harness of a store *)

Definition other_tenant : pystr := "tenant:conformance-other".

(** Nothing of a proposal can be reached from another tenant. *)
Definition foreign_tenant_checks (c : StoreConformanceCase) (authorized : StoredProposal) : test unit :=
  let o := original c in
  changed ← call STORE (CompareAndSet other_tenant (sp_proposal_reference o) (sp_revision o) [AWAITING_AUTHORITY] authorized);
  _ ← _require (negb changed) "store_foreign_tenant_update";
  claim ← call STORE (AdmitExecution other_tenant (sp_proposal_reference o) (sp_revision o) (observed_at c) authorized);
  _ ← _require (bool_decide (claim = PROPOSAL_NOT_FOUND)) "store_foreign_tenant_admission";
  marked ← call RETENTION_STORE (MarkErasurePending other_tenant (sp_proposal_reference o) (sp_revision o) (observed_at c));
  _ ← _require (negb marked) "store_foreign_tenant_erasure";
  owner ← call STORE (GetEffectClaimOwner other_tenant (sp_action_type o) (sp_semantic_effect_reference o));
  _ ← _require (bool_decide (owner = None)) "store_foreign_tenant_effect_owner";
  stored ← read STORE o;
  _require (bool_decide (stored = Some o)) "store_foreign_tenant_no_mutation".

Definition guarded_updates (c : StoreConformanceCase) (authorized competitor competitor_authorized : StoredProposal) : test unit :=
  let o := original c in
  changed ← cas STORE o [AWAITING_AUTHORITY] authorized;
  _ ← _require changed "store_guarded_update";
  changed ← cas STORE competitor [AWAITING_AUTHORITY] competitor_authorized;
  _ ← _require changed "store_competing_authorization";
  changed ← cas STORE o [AWAITING_AUTHORITY] authorized;
  _require (negb changed) "store_stale_revision".

Definition count (x : EffectClaimResult) (l : list EffectClaimResult) : nat := length (List.filter (λ y, bool_decide (x = y)) l).

(** The one of two concurrent admissions that got the claim, and the other as it
    was authorized. *)
Definition competing_admissions (c : StoreConformanceCase) (authorized competitor_authorized : StoredProposal)
  : test (StoredProposal * StoredProposal) :=
  let executing := moved EXECUTING authorized in
  let competitor_executing := moved EXECUTING competitor_authorized in
  admissions ← gather STORE (admission c authorized executing) STORE (admission c competitor_authorized competitor_executing);
  let admissions := [fst admissions; snd admissions] in
  _ ← _require ((count ACQUIRED admissions =? 1)%nat && (count CONFLICT admissions =? 1)%nat) "store_atomic_effect_admission";
  let first_won := bool_decide (head admissions = Some ACQUIRED) in
  let winner := if first_won then executing else competitor_executing in
  let loser := if first_won then competitor_authorized else authorized in
  owner ← owner_of STORE (original c);
  _ ← _require (bool_decide (owner = Some (sp_proposal_reference winner))) "store_effect_owner";
  marked ← call RETENTION_STORE (MarkErasurePending (sp_tenant_reference winner) (sp_proposal_reference winner)
    (sp_revision winner) (observed_at c));
  _ ← _require (negb marked) "store_active_effect_not_erasable";
  mret (winner, loser).

(** An execution without effect gives its claim up; the other takes it and is
    verified. *)
Definition settle_and_transfer (c : StoreConformanceCase) (winner loser : StoredProposal) : test unit :=
  changed ← cas STORE winner [EXECUTING] (moved STALE winner);
  _ ← _require changed "store_stale_no_effect_settlement";
  let replacement_executing := moved EXECUTING loser in
  claim ← call STORE (admission c loser replacement_executing);
  _ ← _require (bool_decide (claim = ACQUIRED)) "store_stale_effect_claim_transfer";
  owner ← owner_of STORE loser;
  _ ← _require (bool_decide (owner = Some (sp_proposal_reference loser))) "store_transferred_effect_owner";
  let verification_pending := moved VERIFICATION_PENDING replacement_executing in
  changed ← cas STORE replacement_executing [EXECUTING] verification_pending;
  _ ← _require changed "store_effect_owner_verification_pending";
  changed ← cas STORE verification_pending [VERIFICATION_PENDING] (moved VERIFIED verification_pending);
  _require changed "store_effect_owner_verified".

(** A verified effect keeps its claim. *)
Definition terminal_contender_checks (c : StoreConformanceCase) (competitor : StoredProposal) : test unit :=
  terminal ← Done (derived_contender "proposal-terminal" "terminal" "terminal" competitor);
  _ ← call STORE (Create terminal);
  let terminal_authorized := authorized_with [_independent_evidence (evidence c) terminal] terminal in
  changed ← cas STORE terminal [AWAITING_AUTHORITY] terminal_authorized;
  _ ← _require changed "store_terminal_competing_authorization";
  claim ← call STORE (admission c terminal_authorized (moved EXECUTING terminal_authorized));
  _require (bool_decide (claim = CONFLICT)) "store_verified_effect_claim_not_transferable".

Definition assert_action_store_conforms (c : StoreConformanceCase) : test unit :=
  let o := original c in
  _ ← call STORE (Create o);
  competitor ← Done (derived_contender "proposal-competitor" "primary" "competitor" o);
  _ ← call STORE (Create competitor);
  stored ← read STORE o;
  _ ← _require (bool_decide (stored = Some o)) "store_round_trip";
  elsewhere ← call STORE (Get other_tenant (sp_proposal_reference o));
  _ ← _require (bool_decide (elsewhere = None)) "store_tenant_isolation";
  _ ← _assert_store_update_invariants c;
  let authorized := authorized_with [evidence c] o in
  let competitor_authorized := authorized_with [_independent_evidence (evidence c) competitor] competitor in
  _ ← foreign_tenant_checks c authorized;
  _ ← guarded_updates c authorized competitor competitor_authorized;
  sides ← competing_admissions c authorized competitor_authorized;
  _ ← settle_and_transfer c (fst sides) (snd sides);
  terminal_contender_checks c competitor.

(** * The harness of two connections *)

Definition _independent_proposal (p : StoredProposal) (suffix : pystr) : res StoredProposal :=
  derived_contender "proposal-independent" suffix ("independent:" +:+ suffix)%py p.

Definition count_bool (x : bool) (l : list bool) : nat := length (List.filter (Bool.eqb x) l).

(** One of two concurrent updates of one revision is applied, and both
    connections see it. *)
Definition independent_updates (c : StoreConformanceCase) : test unit :=
  proposal ← Done (_independent_proposal (original c) "cas");
  _ ← call FIRST_STORE (Create proposal);
  stored ← read SECOND_STORE proposal;
  _ ← _require (bool_decide (stored = Some proposal)) "independent_store_shared_visibility";
  let authorized := authorized_with [_independent_evidence (evidence c) proposal] proposal in
  let update := CompareAndSet (sp_tenant_reference proposal) (sp_proposal_reference proposal) (sp_revision proposal)
    [AWAITING_AUTHORITY] authorized in
  results ← gather FIRST_STORE update SECOND_STORE update;
  let results := [fst results; snd results] : list bool in
  _ ← _require ((count_bool true results =? 1)%nat && (count_bool false results =? 1)%nat)
        "independent_store_atomic_compare_and_set";
  first ← read FIRST_STORE proposal;
  if bool_decide (first = Some authorized) then
    second ← read SECOND_STORE proposal;
    _require (bool_decide (second = Some authorized)) "independent_store_revision_visibility"
  else _require false "independent_store_revision_visibility".

Definition independent_contender (c : StoreConformanceCase) (h : StoreHandle) (proposal : StoredProposal) : test StoredProposal :=
  _ ← call h (Create proposal);
  let current := authorized_with [_independent_evidence (evidence c) proposal] proposal in
  changed ← cas h proposal [AWAITING_AUTHORITY] current;
  _ ← _require changed "independent_store_effect_setup";
  mret current.

(** One of two concurrent admissions of one effect gets it, and both connections
    see it. *)
Definition independent_admissions (c : StoreConformanceCase) : test unit :=
  first_proposal ← Done (_independent_proposal (original c) "effect:first");
  second_proposal ← Done (_independent_proposal (original c) "effect:second");
  first ← independent_contender c FIRST_STORE first_proposal;
  second ← independent_contender c SECOND_STORE second_proposal;
  results ← gather FIRST_STORE (admission c first (moved EXECUTING first)) SECOND_STORE (admission c second (moved EXECUTING second));
  let results := [fst results; snd results] in
  _ ← _require ((count ACQUIRED results =? 1)%nat && (count CONFLICT results =? 1)%nat)
        "independent_store_atomic_effect_admission";
  let winner := if bool_decide (head results = Some ACQUIRED) then moved EXECUTING first else moved EXECUTING second in
  let owner := GetEffectClaimOwner (sp_tenant_reference winner) (sp_action_type winner) (sp_semantic_effect_reference winner) in
  owners ← gather FIRST_STORE owner SECOND_STORE owner;
  _require (bool_decide ([fst owners; snd owners]
                         = [Some (sp_proposal_reference winner); Some (sp_proposal_reference winner)] :> list (option pystr)))
    "independent_store_effect_owner_visibility".

Definition independent_checks : list pystr :=
  ["shared_visibility"; "atomic_compare_and_set"; "revision_visibility"; "atomic_effect_admission"; "effect_owner_visibility"]%py.

(** [IndependentStoreConformanceReport.checks]. *)
Definition assert_independent_store_connections_conform (c : StoreConformanceCase) : test (list pystr) :=
  _ ← independent_updates c;
  _ ← independent_admissions c;
  mret independent_checks.
End Harness.
