(* ===== verification/StoreHarnessRules.v ===== *)
(** What it means to answer as the in-memory store does, and the rules by which a
    harness is shown to pass just that ([follows]). *)

From S2P Require Import Prelude Models Canonical Authority Receipts Registry StoreBase StoreContract MemoryStore StoreHarness.

(** * Answers that agree

    Where the in-memory store refuses an update by raising, another may answer
    [False].  Where it acquires the claim of a probe, a proposal the harness made
    for an effect of its own, another may find it owned; where it acquires the
    effect of the case, which proposals compete for, another must acquire it. *)

Definition refuses (o : store_op) : res (store_resp o) → Prop :=
  match o with
  | CompareAndSet _ _ _ _ _ => λ r, r = Ok false ∨ ∃ e, r = Err e ∧ is_StoreInvariantError e = true
  | _ => λ r, ∃ e, r = Err e ∧ is_StoreInvariantError e = true
  end.

(** The answer [r] where the in-memory store answers [m]. *)
Definition same_answer (o : store_op) (r m : res (store_resp o)) : Prop :=
  match m with Ok a => r = Ok a | Err e => refuses o r ∨ r = Err e end.

Definition owned (c : StoreConformanceCase) (o : store_op) : res (store_resp o) → res (store_resp o) → Prop :=
  match o with
  | AdmitExecution _ _ _ _ u => λ r m,
      sp_semantic_effect_reference u ≠ sp_semantic_effect_reference (original c) ∧
      m = Ok ACQUIRED ∧ r = Ok OWNED_BY_PROPOSAL
  | _ => λ _ _, False
  end.

Definition like_answer (c : StoreConformanceCase) (o : store_op) (r m : res (store_resp o)) : Prop :=
  same_answer o r m ∨ owned c o r m.

(** Two calls of the in-memory store, in one order or the other. *)
Definition both (first : bool) (o1 o2 : store_op) (s : MemoryActionStore)
  : res (store_resp o1) * res (store_resp o2) * MemoryActionStore :=
  if first then
    let '(m1, s1) := memory_run o1 s in let '(m2, s2) := memory_run o2 s1 in (m1, m2, s2)
  else
    let '(m2, s1) := memory_run o2 s in let '(m1, s2) := memory_run o1 s1 in (m1, m2, s2).

(** A conversation as the in-memory store has it, concurrent calls in some order. *)
Fixpoint answers_as_memory (agree : ∀ o, res (store_resp o) → res (store_resp o) → Prop) (s : MemoryActionStore)
  (steps : list step) : Prop :=
  match steps with
  | [] => True
  | One _ (StoreEvent o r) :: steps' =>
      agree o r (memory_run o s).1 ∧ answers_as_memory agree (memory_run o s).2 steps'
  | Two _ (StoreEvent o1 r1) _ (StoreEvent o2 r2) :: steps' =>
      ∃ first, agree o1 r1 (both first o1 o2 s).1.1 ∧ agree o2 r2 (both first o1 o2 s).1.2
        ∧ answers_as_memory agree (both first o1 o2 s).2 steps'
  end.

(** The in-memory store itself. *)
Fixpoint replay (s : MemoryActionStore) (steps : list step) : MemoryActionStore :=
  match steps with
  | [] => s
  | One _ (StoreEvent o _) :: steps' => replay (memory_run o s).2 steps'
  | Two _ (StoreEvent o1 _) _ (StoreEvent o2 _) :: steps' => replay (memory_run o2 (memory_run o1 s).2).2 steps'
  end.

Definition memory_stores : stores := λ before _ o, (memory_run o (replay memory_init before)).1.

Lemma answers_app s steps steps' : replay s (steps ++ steps') = replay (replay s steps) steps'.
Proof. revert s. induction steps as [|[h [o r]|h1 [o1 r1] h2 [o2 r2]] steps IH]; intros s; simpl; by rewrite ?IH. Qed.

Lemma same_answer_refl o m : same_answer o m m.
Proof. destruct m; simpl; auto. Qed.

Lemma memory_answers c {A} (t : test A) before :
  answers_as_memory (like_answer c) (replay memory_init before) (conduct memory_stores before t).2.
Proof.
  revert before. induction t as [r|h o k IH|h1 o1 h2 o2 k IH]; intros before; simpl; [done|..].
  - set (r := memory_stores before h o). specialize (IH r (before ++ [One h (StoreEvent o r)])).
    destruct (conduct _ _ (k r)) as [x steps]. split; [left; apply same_answer_refl|]. by rewrite answers_app in IH.
  - set (r1 := memory_stores before h1 o1). set (r2 := memory_stores (before ++ [One h1 (StoreEvent o1 r1)]) h2 o2).
    specialize (IH r1 r2 (before ++ [Two h1 (StoreEvent o1 r1) h2 (StoreEvent o2 r2)])).
    destruct (conduct _ _ (k r1 r2)) as [x steps]. exists true.
    assert (r2 = (memory_run o2 (memory_run o1 (replay memory_init before)).2).1) as E
      by (unfold r2, memory_stores; by rewrite answers_app).
    rewrite answers_app in IH. cbn [replay] in IH. unfold both. rewrite E. unfold r1, memory_stores in *.
    destruct (memory_run o1 _) as [m1 s1]. cbn [fst snd] in *. destruct (memory_run o2 s1) as [m2 s2].
    split_and!; [left; apply same_answer_refl..|exact IH].
Qed.

(** * Programs that follow the in-memory store *)

Definition fails {A} (t : test A) : Prop := ∃ e, t = Done (Err e).

(** From [s] on, [t] passes what agrees, and nothing else, and ends in [Q]. *)
Fixpoint follows (c : StoreConformanceCase) {A} (Q : A → MemoryActionStore → Prop) (s : MemoryActionStore) (t : test A) : Prop :=
  match t with
  | Done (Ok a) => Q a s
  | Done (Err _) => False
  | Call _ o k =>
      let '(m, s') := memory_run o s in
      (∀ r, like_answer c o r m → follows c Q s' (k r)) ∧
      (∀ r, like_answer c o r m ∧ follows c Q s' (k r) ∨ fails (k r))
  | Gather _ o1 _ o2 k =>
      (∀ first r1 r2, like_answer c o1 r1 (both first o1 o2 s).1.1 → like_answer c o2 r2 (both first o1 o2 s).1.2 →
         follows c Q (both first o1 o2 s).2 (k r1 r2)) ∧
      (∀ r1 r2, (∃ first, like_answer c o1 r1 (both first o1 o2 s).1.1 ∧ like_answer c o2 r2 (both first o1 o2 s).1.2
         ∧ follows c Q (both first o1 o2 s).2 (k r1 r2)) ∨ fails (k r1 r2))
  end.

Lemma conduct_fails {A} env before (t : test A) : fails t → ∀ a, (conduct env before t).1 ≠ Ok a.
Proof. by intros [e ->] a. Qed.

Lemma follows_sound {c : StoreConformanceCase} {A} Q (t : test A) s env before a :
  follows c Q s t → (conduct env before t).1 = Ok a → answers_as_memory (like_answer c) s (conduct env before t).2.
Proof.
  revert s before. induction t as [r|h o k IH|h1 o1 h2 o2 k IH]; intros s before Hf Ha; simpl in *.
  - done.
  - destruct (memory_run o s) as [m s'] eqn:E. destruct Hf as [_ Hf].
    destruct (conduct env _ (k (env before h o))) as [x steps] eqn:Ek. simpl in Ha. subst x.
    destruct (Hf (env before h o)) as [[Hl Hk]|Hk].
    + simpl. rewrite E. split; [exact Hl|]. specialize (IH _ s' (before ++ [One h (StoreEvent o (env before h o))]) Hk).
      rewrite Ek in IH. by apply IH.
    + exfalso. apply (conduct_fails env (before ++ [One h (StoreEvent o (env before h o))]) _ Hk a). by rewrite Ek.
  - destruct Hf as [_ Hf]. set (r1 := env before h1 o1) in *. set (r2 := env _ h2 o2) in *.
    destruct (conduct env _ (k r1 r2)) as [x steps] eqn:Ek. simpl in Ha. subst x.
    destruct (Hf r1 r2) as [(first & H1 & H2 & Hk)|Hk].
    + exists first. split_and!; [done..|]. specialize (IH _ _ _ (before ++ [Two h1 (StoreEvent o1 r1) h2 (StoreEvent o2 r2)]) Hk).
      rewrite Ek in IH. by apply IH.
    + exfalso. apply (conduct_fails env (before ++ [Two h1 (StoreEvent o1 r1) h2 (StoreEvent o2 r2)]) _ Hk a). by rewrite Ek.
Qed.

Lemma follows_complete {c : StoreConformanceCase} {A} Q (t : test A) s env before :
  follows c Q s t → answers_as_memory (like_answer c) s (conduct env before t).2 →
  ∃ a s', (conduct env before t).1 = Ok a ∧ Q a s'.
Proof.
  revert s before. induction t as [[a|e]|h o k IH|h1 o1 h2 o2 k IH]; intros s before Hf Ha; simpl in *; [by eauto|done|..].
  - destruct (memory_run o s) as [m s'] eqn:E. destruct Hf as [Hf _].
    destruct (conduct env _ (k (env before h o))) as [x steps] eqn:Ek. simpl in Ha. rewrite E in Ha. destruct Ha as [Hr Ha].
    specialize (IH _ s' (before ++ [One h (StoreEvent o (env before h o))]) (Hf _ Hr)). rewrite Ek in IH. by apply IH.
  - destruct Hf as [Hf _]. set (r1 := env before h1 o1) in *. set (r2 := env _ h2 o2) in *.
    destruct (conduct env _ (k r1 r2)) as [x steps] eqn:Ek. simpl in Ha. destruct Ha as (first & H1 & H2 & Ha).
    specialize (IH _ _ _ (before ++ [Two h1 (StoreEvent o1 r1) h2 (StoreEvent o2 r2)]) (Hf first r1 r2 H1 H2)).
    rewrite Ek in IH. by apply IH.
Qed.

(** What passes ends where it should. *)
Lemma follows_result {c : StoreConformanceCase} {A} (Q : A → MemoryActionStore → Prop) (t : test A) s env before a :
  follows c Q s t → (conduct env before t).1 = Ok a → ∃ s', Q a s'.
Proof.
  revert s before. induction t as [[x|e]|h o k IH|h1 o1 h2 o2 k IH]; intros s before Hf Ha; simpl in *; [|done|..].
  - injection Ha as ->. by exists s.
  - destruct (memory_run o s) as [m s']. destruct Hf as [_ Hf]. set (r := env before h o) in *.
    destruct (conduct env _ (k r)) as [x steps] eqn:Ek. simpl in Ha. subst x.
    destruct (Hf r) as [[_ Hk]|Hk]; [apply (IH r s' (before ++ [One h (StoreEvent o r)]) Hk); by rewrite Ek|].
    exfalso. apply (conduct_fails env (before ++ [One h (StoreEvent o r)]) _ Hk a). by rewrite Ek.
  - destruct Hf as [_ Hf]. set (r1 := env before h1 o1) in *. set (r2 := env _ h2 o2) in *.
    destruct (conduct env _ (k r1 r2)) as [x steps] eqn:Ek. simpl in Ha. subst x.
    destruct (Hf r1 r2) as [(first & _ & _ & Hk)|Hk];
      [apply (IH _ _ _ (before ++ [Two h1 (StoreEvent o1 r1) h2 (StoreEvent o2 r2)]) Hk); by rewrite Ek|].
    exfalso. apply (conduct_fails env (before ++ [Two h1 (StoreEvent o1 r1) h2 (StoreEvent o2 r2)]) _ Hk a). by rewrite Ek.
Qed.

(** ** Rules *)

Lemma follows_mono {c : StoreConformanceCase} {A} (Q Q' : A → MemoryActionStore → Prop) s (t : test A) :
  follows c Q s t → (∀ a s', Q a s' → Q' a s') → follows c Q' s t.
Proof.
  intros Hf HQ. revert s Hf. induction t as [[a|e]|h o k IH|h1 o1 h2 o2 k IH]; intros s Hf; simpl in *; [by apply HQ|done|..].
  - destruct (memory_run o s) as [m s']. destruct Hf as [H1 H2]. split; [by auto|]. intros r.
    destruct (H2 r) as [[? ?]|?]; [left|right]; auto.
  - destruct Hf as [H1 H2]. split; [by auto|]. intros r1 r2.
    destruct (H2 r1 r2) as [(first & ? & ? & ?)|?]; [left|right]; [|done]. exists first. split_and!; auto.
Qed.

Lemma follows_bind {c : StoreConformanceCase} {A B} (Q : B → MemoryActionStore → Prop) s (t : test A) (f : A → test B) :
  follows c (λ a s', follows c Q s' (f a)) s t → follows c Q s (t ≫= f).
Proof.
  assert (∀ t : test A, fails t → fails (t ≫= f)) as Hfails by (intros ? [e ->]; by exists e).
  revert s. induction t as [[a|e]|h o k IH|h1 o1 h2 o2 k IH]; intros s Hf; simpl in *; [done..| |].
  - destruct (memory_run o s) as [m s']. destruct Hf as [H1 H2]. split; [intros r Hr; by apply IH, H1|]. intros r.
    destruct (H2 r) as [[? ?]|?]; [left; split; [done|by apply IH]|right; by apply Hfails].
  - destruct Hf as [H1 H2]. split; [intros first r1 r2 ? ?; by apply IH, H1|]. intros r1 r2.
    destruct (H2 r1 r2) as [(first & ? & ? & ?)|?]; [left|right; by apply Hfails]. exists first. split_and!; [done..|by apply IH].
Qed.

Lemma follows_ret {c : StoreConformanceCase} {A} (Q : A → MemoryActionStore → Prop) s (a : A) : Q a s → follows c Q s (mret a).
Proof. done. Qed.

Lemma follows_lift {c : StoreConformanceCase} {A B} (Q : B → MemoryActionStore → Prop) s (r : res A) a (f : A → test B) :
  r = Ok a → follows c Q s (f a) → follows c Q s (x ← Done r; f x).
Proof. by intros ->. Qed.

(** A call, a check of its answer, and the rest. *)
Lemma follows_then {c : StoreConformanceCase} {B} (Q : B → MemoryActionStore → Prop) s h o (f : store_resp o → bool) code (k : test B) :
  follows c (λ _ s', follows c Q s' k) s (x ← call h o; _require (f x) code) →
  follows c Q s (x ← call h o; _ ← _require (f x) code; k).
Proof.
  unfold call, mbind, test_bind. cbn [follows]. destruct (memory_run o s) as [m s']. intros [H1 H2]. split.
  - intros r Hr. specialize (H1 r Hr). destruct r as [x|e]; [|done]. destruct (f x); [exact H1|done].
  - intros r. specialize (H2 r). destruct r as [x|e]; [|right; by exists e]. destruct (f x); cbn in *.
    + destruct H2 as [[? ?]|[e [=]]]. by left.
    + right. by eexists.
Qed.

(** One answer passes the check. *)
Lemma follows_expect {c : StoreConformanceCase} (Q : unit → MemoryActionStore → Prop) s h o a s' (f : store_resp o → bool) code :
  memory_run o s = (Ok a, s') → (∀ x, f x = true ↔ x = a) → (∀ r, ¬ owned c o r (Ok a)) → Q tt s' →
  follows c Q s (x ← call h o; _require (f x) code).
Proof.
  intros Hm Hf Hno Hk. simpl. rewrite Hm. split.
  - intros r [->|[]%Hno]. cbn. by rewrite (proj2 (Hf a) eq_refl).
  - intros [x|e]; [|right; by exists e]. cbn. destruct (f x) eqn:E; cbn; [|by right; eexists].
    apply Hf in E as ->. left. split; [by left|done].
Qed.

Lemma follows_create {c : StoreConformanceCase} {B} (Q : B → MemoryActionStore → Prop) s h p s' (k : test B) :
  memory_run (Create p) s = (Ok tt, s') → follows c Q s' k → follows c Q s (_ ← call h (Create p); k).
Proof.
  intros Hm Hk. simpl in *. rewrite Hm. split; [by intros r [->|[]]|].
  intros [[]|e]; [left; split; [by left|done]|right; by exists e].
Qed.

(** * Steps of the in-memory store *)

Definition claimed (k : ClaimKey) (owner : pystr) (s : MemoryActionStore) : MemoryActionStore :=
  mkMemoryActionStore (_proposals s) (<[k := owner]> (_effect_claims s)).

Definition stored (s : MemoryActionStore) (p : StoredProposal) : Prop := _proposals s !! proposal_key p = Some p.

Lemma memory_create p s :
  _proposals s !! proposal_key p = None → create_ok p →
  memory_run (Create p) s = (Ok tt, store_proposal (proposal_key p) p s).
Proof. intros Hn Hc%validate_create_ok. cbn. unfold create. unfold proposal_key in Hn. by rewrite Hn, Hc. Qed.

Lemma memory_cas p u statuses s :
  stored s p → sp_lifecycle_status p ∈ statuses → update_ok p u → sp_lifecycle_status u ≠ EXECUTING →
  memory_run (CompareAndSet (sp_tenant_reference p) (sp_proposal_reference p) (sp_revision p) statuses u) s
  = (Ok true, store_proposal (proposal_key p) u s).
Proof.
  intros Hp Hs Hu%validate_update_ok Hx. cbn. unfold compare_and_set. unfold stored, proposal_key in Hp.
  rewrite Hp, Z.eqb_refl, bool_decide_eq_true_2 by done. cbn. rewrite Hu.
  by rewrite (bool_decide_eq_false_2 (sp_lifecycle_status u = EXECUTING)).
Qed.

Lemma update_error p u e : validate_proposal_update p u = Err e → is_StoreInvariantError e = true.
Proof.
  unfold validate_proposal_update, _validate_proposal_bindings.
  intros H. repeat (split_if; [by injection H as <-|]). done.
Qed.

Lemma memory_cas_rejects p u statuses s :
  stored s p → sp_lifecycle_status p ∈ statuses → ¬ update_ok p u →
  ∃ e, memory_run (CompareAndSet (sp_tenant_reference p) (sp_proposal_reference p) (sp_revision p) statuses u) s = (Err e, s) ∧
    is_StoreInvariantError e = true.
Proof.
  intros Hp Hs Hu. cbn. unfold compare_and_set. unfold stored, proposal_key in Hp.
  rewrite Hp, Z.eqb_refl, bool_decide_eq_true_2 by done. cbn.
  destruct (validate_proposal_update p u) as [[]|e] eqn:E; [by apply validate_update_ok in E|exists e].
  split; [done|by eapply update_error].
Qed.

Lemma memory_cas_stale t r p revision statuses u s :
  _proposals s !! (t, r) = Some p → sp_revision p ≠ revision ∨ sp_lifecycle_status p ∉ statuses →
  memory_run (CompareAndSet t r revision statuses u) s = (Ok false, s).
Proof.
  intros Hp Hs. cbn. unfold compare_and_set. rewrite Hp. destruct (Z.eqb_spec (sp_revision p) revision); cbn; [|done].
  destruct Hs; [done|]. by rewrite bool_decide_eq_false_2.
Qed.

(** What an execution needs to be admitted. *)
Record admissible (c : StoreConformanceCase) (p : StoredProposal) : Prop := {
  adm_status : sp_lifecycle_status p = AUTHORIZED;
  adm_pending : sp_erasure_pending_at p = None;
  adm_erased : sp_erased_at p = None;
  adm_time : (observed_at c < sp_expires_at p)%Z;
  adm_update : update_ok p (moved EXECUTING p)
}.

Lemma memory_admits c p s r s' :
  stored s p → admissible c p → _claim_effect_locked (claim_key p) (sp_proposal_reference p) s = (r, s') →
  memory_run (admission c p (moved EXECUTING p)) s
  = (Ok r, if bool_decide (r = CONFLICT) then s' else store_proposal (proposal_key p) (moved EXECUTING p) s').
Proof.
  intros Hp [Hst Hpe He Ht Hu%validate_update_ok] Hc. cbn -[moved]. unfold admit_execution. unfold stored, proposal_key in Hp.
  rewrite Hp, Hst, Hpe, He, Z.eqb_refl, Hu. unfold claim_key, claim_key_of in Hc.
  destruct (Z.leb_spec (sp_expires_at p) (observed_at c)); [lia|]. rewrite Hc.
  rewrite (bool_decide_eq_true_2 (AUTHORIZED = AUTHORIZED)), (bool_decide_eq_true_2 (sp_lifecycle_status (moved _ _) = _)) by done.
  cbn -[moved]. by destruct (bool_decide (r = CONFLICT)).
Qed.

(** ** Moves *)

Lemma moved_keys t p : proposal_key (moved t p) = proposal_key p ∧ claim_key (moved t p) = claim_key p.
Proof. done. Qed.

(** The bindings of a proposal that is only moved stay. *)
Lemma moved_update t p :
  t ∈ ALLOWED_LIFECYCLE_TRANSITIONS (sp_lifecycle_status p) → bindings_ok p → sp_erased_at p = None → update_ok p (moved t p).
Proof.
  intros Ht Hb He. split; cbn -[Z.add]; try done; [by left|rewrite He; by intros [? [=]]|by right|].
  destruct Hb as [H1 H2]. by split.
Qed.

Lemma moved_not_update t p :
  t ≠ sp_lifecycle_status p → t ∉ ALLOWED_LIFECYCLE_TRANSITIONS (sp_lifecycle_status p) → ¬ update_ok p (moved t p).
Proof. by intros Hne Ht [_ _ _ _ _ _ [H|H] _]. Qed.

Lemma empty_bindings p : sp_authority_evidence p = [] → sp_receipts p = [] → bindings_ok p.
Proof. intros He Hr. split; [rewrite He|rewrite Hr]; intros x Hx; inversion Hx. Qed.

Lemma stored_put s k p : proposal_key p = k → stored (store_proposal k p s) p.
Proof. intros <-. unfold stored. simpl. by rewrite lookup_insert_eq. Qed.

Lemma stored_put_ne s k p q : proposal_key p ≠ k → stored s p → stored (store_proposal k q s) p.
Proof. intros Hne H. unfold stored. simpl. by rewrite lookup_insert_ne. Qed.

Lemma stored_claimed s c o p : stored s p → stored (claimed c o s) p.
Proof. done. Qed.

Section Rejections.
Context `{U : Unicode, D : !Sha256}.

(** * Rejections *)

Lemma follows_rejected {c : StoreConformanceCase} {B} (Q : B → MemoryActionStore → Prop) s current updated code (k : test B) :
  stored s current → ¬ update_ok current updated → follows c Q s k →
  follows c Q s (_ ← _require_update_rejected current updated code; k).
Proof.
  intros Hs Hu Hk. apply follows_bind.
  destruct (memory_cas_rejects current updated [sp_lifecycle_status current] s Hs) as (e & He & Hinv); [by left|done|].
  assert (follows c (λ (_ : unit) s', follows c Q s' k) s (stored ← read STORE current;
    _require (bool_decide (stored = Some current)) (code +:+ ":no_mutation")%py)) as Hread.
  { eapply (follows_expect _ s STORE (Get _ _)); [cbn; unfold get; exact (f_equal (λ o, (Ok o, s)) Hs)|intros x; apply bool_decide_eq_true|by intros ? []|done]. }
  unfold _require_update_rejected. cbn -[read memory_run]. rewrite He. split.
  - intros r [[[->|(x & -> & Hx)]| ->]|[]]; cbn -[read]; [exact Hread|rewrite Hx|rewrite Hinv]; cbn -[read]; exact Hread.
  - intros [[]|x]; cbn -[read]; [right; by eexists|left; split; [left; left; by left|exact Hread]|].
    destruct (is_StoreInvariantError x) eqn:Ex; [|right; by eexists]. left. cbn -[read]. split; [|exact Hread].
    left. left. right. by exists x.
Qed.
End Rejections.
