(* ===== verification/StoreHarnessExact.v ===== *)
(** The harness of stores passes exactly the stores that answer as the in-memory
    store, up to the way an update is refused and the claims of its probes: its
    lifecycle probes, its appends, its race of two admissions and what follows,
    and the harness of two connections. *)

From S2P Require Import Prelude Models Canonical Authority Receipts Registry StoreBase StoreContract MemoryStore StoreHarness.
From S2P Require Import StoreHarnessRules.

Section Exact.
Context `{U : Unicode, D : !Sha256}.

(** * The probes of the lifecycle *)

(** A proposal without evidence or receipts, alive and in time. *)
Record clean (c : StoreConformanceCase) (p : StoredProposal) : Prop := {
  clean_evidence : sp_authority_evidence p = [];
  clean_receipts : sp_receipts p = [];
  clean_pending : sp_erasure_pending_at p = None;
  clean_erased : sp_erased_at p = None;
  clean_time : (observed_at c < sp_expires_at p)%Z
}.

Lemma clean_moved c t p : clean c p → clean c (moved t p).
Proof. by intros [? ? ? ? ?]. Qed.

Lemma clean_update c t p : clean c p → t ∈ ALLOWED_LIFECYCLE_TRANSITIONS (sp_lifecycle_status p) → update_ok p (moved t p).
Proof. intros [? ? ? ? ?] Ht. apply moved_update; [done|by apply empty_bindings|done]. Qed.

Lemma clean_create c p : clean c p → sp_lifecycle_status p = AWAITING_AUTHORITY → sp_revision p = 0%Z → create_ok p.
Proof. intros [? ? ? ? ?] ? ?. split; try done. by apply empty_bindings. Qed.

(** Nothing but [p] and its claim differs. *)
Definition only (p : StoredProposal) (s s' : MemoryActionStore) : Prop :=
  (∀ k, k ≠ proposal_key p → _proposals s' !! k = _proposals s !! k) ∧
  (∀ k, k ≠ claim_key p → _effect_claims s' !! k = _effect_claims s !! k).

Lemma only_put p q s s' : only p (store_proposal (proposal_key p) q s) s' → only p s s'.
Proof.
  intros [H1 H2]. split; [|exact H2]. intros k Hne. rewrite H1 by done. simpl. by rewrite lookup_insert_ne by congruence.
Qed.

Lemma only_claimed p o s s' : only p (claimed (claim_key p) o s) s' → only p s s'.
Proof.
  intros [H1 H2]. split; [exact H1|]. intros k Hne. rewrite H2 by done. simpl. by rewrite lookup_insert_ne by congruence.
Qed.

Lemma only_refl p s : only p s s.
Proof. done. Qed.

Lemma only_keys p q s s' : proposal_key p = proposal_key q → claim_key p = claim_key q → only p s s' → only q s s'.
Proof. intros Hk Hc. unfold only. by rewrite Hk, Hc. Qed.

(** A path the table allows, with at most one execution. *)
Fixpoint path_ok (s : LifecycleStatus) (targets : list LifecycleStatus) : bool :=
  match targets with
  | [] => true
  | t :: ts =>
      bool_decide (t ∈ ALLOWED_LIFECYCLE_TRANSITIONS s)
      && (negb (bool_decide (t = EXECUTING)) || (bool_decide (s = AUTHORIZED) && negb (bool_decide (EXECUTING ∈ ts))))
      && path_ok t ts
  end.

Lemma seed_paths_ok s :
  path_ok AWAITING_AUTHORITY (_lifecycle_seed_paths s) = true ∧ List.last (_lifecycle_seed_paths s) AWAITING_AUTHORITY = s.
Proof. destruct s; vm_compute; split; reflexivity. Qed.

Definition unclaimed (s : MemoryActionStore) (p : StoredProposal) : Prop := _effect_claims s !! claim_key p = None.

Lemma unclaimed_locked s p :
  unclaimed s p → _claim_effect_locked (claim_key p) (sp_proposal_reference p) s
                  = (ACQUIRED, claimed (claim_key p) (sp_proposal_reference p) s).
Proof. unfold _claim_effect_locked. by intros ->. Qed.

Lemma follows_admitted (Q : unit → MemoryActionStore → Prop) c p s code :
  stored s p → admissible c p → unclaimed s p → sp_semantic_effect_reference p ≠ sp_semantic_effect_reference (original c) →
  Q tt (store_proposal (proposal_key p) (moved EXECUTING p) (claimed (claim_key p) (sp_proposal_reference p) s)) →
  follows c Q s (r ← call STORE (admission c p (moved EXECUTING p));
               _require (bool_decide (r ∈ [ACQUIRED; OWNED_BY_PROPOSAL])) code).
Proof.
  intros Hp Ha Ho%unclaimed_locked Heff Hk. assert (Hm := memory_admits c p s _ _ Hp Ha Ho).
  rewrite bool_decide_eq_false_2 in Hm by done.
  unfold call, mbind, test_bind. cbn [follows]. rewrite Hm. split.
  - intros x [->|(_ & _ & ->)]; exact Hk.
  - intros [x|e]; [|right; by exists e]. case_bool_decide as Hx; [|by right; eexists].
    left. split; [|exact Hk]. elem_cases Hx; [by left|by right].
Qed.

Lemma follows_moved {c : StoreConformanceCase} (Q : unit → MemoryActionStore → Prop) h p u statuses s code :
  stored s p → sp_lifecycle_status p ∈ statuses → update_ok p u → sp_lifecycle_status u ≠ EXECUTING →
  Q tt (store_proposal (proposal_key p) u s) →
  follows c Q s (changed ← cas h p statuses u; _require changed code).
Proof.
  intros Hp Hst Hu Hx Hk. eapply (follows_expect _ _ _ (CompareAndSet _ _ _ _ _) true _ (λ x : bool, x));
    [by apply memory_cas|by intros []|by intros ? []|done].
Qed.

Lemma move_along_follows c targets p s :
  stored s p → clean c p → path_ok (sp_lifecycle_status p) targets = true → (EXECUTING ∈ targets → unclaimed s p) →
  sp_semantic_effect_reference p ≠ sp_semantic_effect_reference (original c) →
  follows c (λ q s', stored s' q ∧ clean c q ∧ sp_lifecycle_status q = List.last targets (sp_lifecycle_status p) ∧
                   proposal_key q = proposal_key p ∧ claim_key q = claim_key p ∧ only p s s')
    s (move_along c targets p).
Proof.
  revert p s. induction targets as [|t ts IH]; intros p s Hp Hc Hpath Hun Heff; [by apply follows_ret; split_and!|].
  cbn [path_ok] in Hpath. apply andb_prop in Hpath as [[Ht Hx]%andb_prop Hpath]. apply bool_decide_eq_true_1 in Ht.
  assert (update_ok p (moved t p)) as Hu by by eapply clean_update.
  assert (∀ s1, (EXECUTING ∈ ts → unclaimed s1 p) → (∀ s', only p (store_proposal (proposal_key p) (moved t p) s1) s' → only p s s') →
    follows c (λ q s', stored s' q ∧ clean c q ∧ sp_lifecycle_status q = List.last (t :: ts) (sp_lifecycle_status p) ∧
      proposal_key q = proposal_key p ∧ claim_key q = claim_key p ∧ only p s s')
      (store_proposal (proposal_key p) (moved t p) s1) (move_along c ts (moved t p))) as Hnext.
  { intros s1 Hun1 Honly. eapply follows_mono.
    - apply IH; [by apply stored_put|by apply clean_moved|exact Hpath|exact Hun1|exact Heff].
    - intros q s' (? & ? & Hl & ? & ? & Ho). split_and!; try done; [|apply Honly; exact Ho].
      rewrite Hl. by destruct ts as [|t' ts']; [|simpl; clear; revert t'; induction ts' as [|x l IHl]; intros; simpl in *]. }
  cbn [move_along]. case_bool_decide as He.
  - subst t. cbn [negb orb] in Hx.
    apply andb_prop in Hx as [Ha%bool_decide_eq_true_1 Hnot%negb_true_iff%bool_decide_eq_false_1].
      apply follows_bind, follows_admitted; [done| |apply Hun; by left|exact Heff|].
    + by split; try apply Hc.
    + apply Hnext; [by intros ?|]. intros s' Ho. by eapply only_claimed, only_put.
  - apply follows_bind, follows_moved; [done|by left|done|done|].
    apply Hnext; [intros ?; apply Hun; by right|]. intros s' Ho. by eapply only_put.
Qed.

(** * Cases that can be used

    The case is a new proposal without evidence or receipts, its evidence is
    for it, and the time of the case is before its deadline; what is derived with
    SHA-256 is made of valid references, all different. *)

Definition probe (c : StoreConformanceCase) (suffix : pystr) : StoredProposal :=
  match _conformance_proposal c suffix with Ok p => p | Err _ => original c end.

Definition competitor (c : StoreConformanceCase) : StoredProposal :=
  match derived_contender "proposal-competitor" "primary" "competitor" (original c) with Ok p => p | Err _ => original c end.

Definition terminal (c : StoreConformanceCase) : StoredProposal :=
  match derived_contender "proposal-terminal" "terminal" "terminal" (competitor c) with Ok p => p | Err _ => original c end.

Definition transition (s : LifecycleStatus) : pystr := ("transition:" +:+ lifecycle_value s)%py.
Definition suffixes : list pystr := "append-only"%py :: (transition <$> lifecycle_statuses).

Definition is_Ok {A} (r : res A) : bool := match r with Ok _ => true | Err _ => false end.

Record case_usable (c : StoreConformanceCase) : Prop := {
  case_create : create_ok (original c);
  case_evidence : sp_authority_evidence (original c) = [];
  case_receipts : sp_receipts (original c) = [];
  case_bound : evidence_matches_proposal (evidence c) (original c) = true;
  case_time : (observed_at c < sp_expires_at (original c))%Z
}.

Record harness_ready (c : StoreConformanceCase) : Prop := {
  ready_case : case_usable c;
  ready_tenant : sp_tenant_reference (original c) ≠ other_tenant;
  ready_probes : forallb (λ x, is_Ok (_conformance_proposal c x)) suffixes = true;
  ready_competitor : is_Ok (derived_contender "proposal-competitor" "primary" "competitor" (original c)) = true;
  ready_terminal : is_Ok (derived_contender "proposal-terminal" "terminal" "terminal" (competitor c)) = true;
  ready_references : NoDup (sp_proposal_reference <$> [original c; competitor c; terminal c] ++ (probe c <$> suffixes));
  ready_effects : NoDup (sp_semantic_effect_reference <$> original c :: (probe c <$> suffixes));
  ready_channel : ∃ channel, _derived_safe_reference (ae_channel_assurance (evidence c)) "authority-channel" "second" = Ok channel
    ∧ channel ≠ ae_channel_assurance (evidence c);
  ready_receipts : ∃ one two,
    _derived_safe_reference (sp_proposal_reference (probe c "append-only")) "receipt" "one" = Ok one ∧
    _derived_safe_reference (sp_proposal_reference (probe c "append-only")) "receipt" "two" = Ok two ∧ one ≠ two
}.

(** ** What is derived *)

Lemma conformance_proposal_inv c x p :
  _conformance_proposal c x = Ok p →
  ∃ reference effect payload commitment, derived_commitment x (sp_commitment (original c)) = Ok commitment ∧
    p = set_authority_evidence [] (set_receipts [] (set_revision 0
          (set_erasure_pending_at None (set_erased_at None (rebound reference effect payload commitment (original c)))))).
Proof.
  unfold _conformance_proposal. intros (a & _ & H)%res_bind_Ok. apply res_bind_Ok in H as (b & _ & H).
  apply res_bind_Ok in H as (d & _ & H). apply res_bind_Ok in H as (e & He & <-%Ok_inj). by exists a, b, d, e.
Qed.

Lemma derived_contender_inv purpose disc keys p q :
  derived_contender purpose disc keys p = Ok q →
  ∃ reference payload commitment, derived_commitment keys (sp_commitment p) = Ok commitment ∧
    q = rebound reference (sp_semantic_effect_reference p) payload commitment p.
Proof.
  unfold derived_contender. intros (a & _ & H)%res_bind_Ok. apply res_bind_Ok in H as (b & _ & H).
  apply res_bind_Ok in H as (d & Hd & <-%Ok_inj). by exists a, b, d.
Qed.

Lemma derived_commitment_Some disc k r :
  derived_commitment disc k = Ok r → is_Some k → is_Some r.
Proof.
  unfold derived_commitment. destruct k as [k|]; [|by intros _ [? [=]]].
  intros (a & _ & H)%res_bind_Ok _. apply res_bind_Ok in H as (b & _ & <-%Ok_inj). by eexists.
Qed.

(** Evidence bound to a proposal is bound to the proposals derived from it. *)
Lemma bound_evidence e p :
  is_Some (sp_commitment p) → ae_tenant_reference e = sp_tenant_reference p → ae_action_type e = sp_action_type p →
  ∀ channel, evidence_matches_proposal
    (rebound_evidence (sp_proposal_reference p) (sp_semantic_effect_reference p) (commitment_digest p) channel e) p = true.
Proof.
  intros [k Hk] Ht Ha channel. unfold evidence_matches_proposal, commitment_digest. rewrite Hk. cbn [rebound_evidence
    ae_tenant_reference ae_action_type ae_proposal_instance_reference ae_semantic_effect_reference ae_proposal_commitment].
  by rewrite !bool_decide_eq_true_2 by done.
Qed.

Lemma bound_inv e p : evidence_matches_proposal e p = true →
  is_Some (sp_commitment p) ∧ ae_tenant_reference e = sp_tenant_reference p ∧ ae_action_type e = sp_action_type p ∧
  ae_semantic_effect_reference e = sp_semantic_effect_reference p.
Proof. unfold evidence_matches_proposal. destruct (sp_commitment p); [|done]. intros H. to_prop. by split_and!. Qed.

(** ** Updates with evidence *)

Lemma authorized_update es p :
  sp_lifecycle_status p = AWAITING_AUTHORITY → sp_authority_evidence p = [] → sp_receipts p = [] → sp_erased_at p = None →
  (∀ e, e ∈ es → evidence_matches_proposal e p = true) → update_ok p (authorized_with es p).
Proof.
  intros Hs He Hr Her Hes. split; cbn -[Z.add]; try done.
  - by left.
  - rewrite Her. by intros [? [=]].
  - rewrite He. intros _. apply prefix_nil.
  - rewrite Hs. right. by left.
  - split; [exact Hes|]. cbn. rewrite Hr. intros r Hx. inversion Hx.
Qed.

Lemma NoDup_fmap_eq {A B} (f : A → B) l x y : NoDup (f <$> l) → x ∈ l → y ∈ l → f x = f y → x = y.
Proof.
  induction l as [|a l IH]; intros Hnd Hx Hy E; [inversion Hx|].
  rewrite fmap_cons, list.NoDup_cons in Hnd. destruct Hnd as [Hnot Hnd].
  apply elem_of_cons in Hx as [->|Hx], Hy as [->|Hy]; [done| | |by apply IH].
  - exfalso. apply Hnot. rewrite E. by apply list_elem_of_fmap_2.
  - exfalso. apply Hnot. rewrite <-E. by apply list_elem_of_fmap_2.
Qed.

Lemma elem_twice {A B C} (f : B → C) (g : A → B) x (l : list A) : x ∈ l → f (g x) ∈ f <$> (g <$> l).
Proof. intros H. by apply list_elem_of_fmap_2, list_elem_of_fmap_2. Qed.

Lemma transition_inj s t : transition s = transition t → s = t.
Proof. destruct s, t; try done; intros H; vm_compute in H; discriminate H. Qed.

Lemma transition_suffix s : transition s ∈ suffixes.
Proof. apply elem_of_cons. right. apply list_elem_of_fmap_2. apply lifecycle_statuses_complete. Qed.

Section Ready.
Context (c : StoreConformanceCase) (R : harness_ready c).

Lemma probe_ok x : x ∈ suffixes → _conformance_proposal c x = Ok (probe c x).
Proof.
  intros Hx%list_elem_of_In. assert (H := ready_probes c R). rewrite forallb_forall in H. specialize (H x Hx).
  unfold probe. by destruct (_conformance_proposal c x).
Qed.

Lemma probe_fields x : x ∈ suffixes →
  clean c (probe c x) ∧ sp_lifecycle_status (probe c x) = AWAITING_AUTHORITY ∧ sp_revision (probe c x) = 0%Z ∧
  sp_tenant_reference (probe c x) = sp_tenant_reference (original c) ∧
  sp_action_type (probe c x) = sp_action_type (original c) ∧ is_Some (sp_commitment (probe c x)).
Proof.
  intros Hx. destruct (ready_case c R) as [[_ Hst _ _ _] He Hr Hb Ht].
  destruct (conformance_proposal_inv c x _ (probe_ok x Hx)) as (a & b & p & k & Hk & ->).
  split; [by split|]. split_and!; try done. eapply derived_commitment_Some; [exact Hk|]. by apply bound_inv in Hb as [? _].
Qed.

(** A probe is of an effect of its own. *)
Lemma probe_effect x : x ∈ suffixes → sp_semantic_effect_reference (probe c x) ≠ sp_semantic_effect_reference (original c).
Proof.
  intros Hx E. assert (H := ready_effects c R). rewrite fmap_cons, list.NoDup_cons in H. destruct H as [H _].
  apply H. rewrite <-E. by apply list_elem_of_fmap_2, list_elem_of_fmap_2.
Qed.

Lemma contender_ok : derived_contender "proposal-competitor" "primary" "competitor" (original c) = Ok (competitor c).
Proof. assert (H := ready_competitor c R). unfold competitor. by destruct (derived_contender _ _ _ (original c)). Qed.

Lemma terminal_ok : derived_contender "proposal-terminal" "terminal" "terminal" (competitor c) = Ok (terminal c).
Proof. assert (H := ready_terminal c R). unfold terminal. by destruct (derived_contender _ _ _ (competitor c)). Qed.

(** A proposal of the case that is about to be created. *)
Record contender (p : StoredProposal) : Prop := {
  con_clean : clean c p;
  con_status : sp_lifecycle_status p = AWAITING_AUTHORITY;
  con_revision : sp_revision p = 0%Z;
  con_tenant : sp_tenant_reference p = sp_tenant_reference (original c);
  con_claim : claim_key p = claim_key (original c);
  con_commitment : is_Some (sp_commitment p);
  con_evidence : ae_tenant_reference (evidence c) = sp_tenant_reference p ∧ ae_action_type (evidence c) = sp_action_type p ∧
    ae_semantic_effect_reference (evidence c) = sp_semantic_effect_reference p
}.

Lemma usable_contender : case_usable c → contender (original c).
Proof.
  intros [[Hrev Hst Hp Her _] He Hr Hb Ht]. destruct (bound_inv _ _ Hb) as (? & ? & ? & ?). by split.
Qed.

Lemma original_contender : contender (original c).
Proof. apply usable_contender, R. Qed.

Lemma rebound_contender purpose disc keys p q : contender p → derived_contender purpose disc keys p = Ok q → contender q.
Proof.
  intros [[? ? ? ? ?] ? ? ? ? Hk (? & ? & ?)] (a & b & k & Hd & ->)%derived_contender_inv. split; try done.
  by eapply derived_commitment_Some.
Qed.

Lemma competitor_contender : contender (competitor c).
Proof. eapply rebound_contender, contender_ok. apply original_contender. Qed.

Lemma terminal_contender : contender (terminal c).
Proof. eapply rebound_contender, terminal_ok. apply competitor_contender. Qed.

Lemma contender_create p : contender p → create_ok p.
Proof. intros [? ? ? ? ? ? ?]. by eapply clean_create. Qed.

(** ** Different keys *)

Lemma probe_keys x y : x ∈ suffixes → y ∈ suffixes → x ≠ y →
  proposal_key (probe c x) ≠ proposal_key (probe c y) ∧ claim_key (probe c x) ≠ claim_key (probe c y).
Proof.
  intros Hx Hy Hne. assert (Hr := ready_references c R). assert (He := ready_effects c R). split; intros E; apply Hne.
  - rewrite fmap_app, <-list_fmap_compose in Hr. apply list.NoDup_app in Hr as (_ & _ & Hr).
    apply (NoDup_fmap_eq _ _ _ _ Hr); [done..|]. exact (f_equal snd E).
  - rewrite fmap_cons, <-list_fmap_compose in He. apply list.NoDup_cons in He as [_ He].
    apply (NoDup_fmap_eq _ _ _ _ He); [done..|]. exact (f_equal snd E).
Qed.

Lemma contender_keys p x : p ∈ [original c; competitor c; terminal c] → x ∈ suffixes →
  proposal_key p ≠ proposal_key (probe c x) ∧ claim_key (original c) ≠ claim_key (probe c x).
Proof.
  intros Hp Hx. assert (Hr := ready_references c R). assert (He := ready_effects c R). split; intros E.
  - rewrite fmap_app in Hr. apply list.NoDup_app in Hr as (_ & Hr & _).
    apply (Hr (sp_proposal_reference p)); [by apply list_elem_of_fmap_2|].
    exact (eq_ind_r (λ z, z ∈ _) (elem_twice _ (probe c) x suffixes Hx) (f_equal snd E)).
  - rewrite fmap_cons in He. apply list.NoDup_cons in He as [Hnot _]. apply Hnot.
    exact (eq_ind_r (λ z, z ∈ _) (elem_twice _ (probe c) x suffixes Hx) (f_equal snd E)).
Qed.

Lemma contenders_differ :
  proposal_key (original c) ≠ proposal_key (competitor c) ∧ proposal_key (original c) ≠ proposal_key (terminal c) ∧
  proposal_key (competitor c) ≠ proposal_key (terminal c).
Proof.
  assert (Hr := ready_references c R). rewrite fmap_app in Hr. apply list.NoDup_app in Hr as (Hr & _ & _).
  cbn [fmap list_fmap] in Hr. rewrite !list.NoDup_cons, !list.not_elem_of_cons in Hr.
  destruct Hr as ((H1 & H2 & _) & (H3 & _) & _). split_and!; intros E; [apply H1|apply H2|apply H3]; exact (f_equal snd E).
Qed.

(** ** The transitions the table does not have *)

Definition fresh (s : MemoryActionStore) (p : StoredProposal) : Prop :=
  _proposals s !! proposal_key p = None ∧ unclaimed s p.

Definition probe_of (s : LifecycleStatus) : StoredProposal := set_lifecycle_status AWAITING_AUTHORITY (probe c (transition s)).

Lemma follows_lift_bind {A B} (Q : B → MemoryActionStore → Prop) s (r : res A) a (f : A → test B) :
  r = Ok a → follows c Q s (f a) → follows c Q s (Done r ≫= f).
Proof. by intros ->. Qed.

Lemma reject_follows current source targets s :
  stored s current → sp_lifecycle_status current = source → follows c (λ _ s', s' = s) s (reject_targets current source targets).
Proof.
  intros Hs Hst. induction targets as [|t ts IH]; [done|]. cbn [reject_targets].
  destruct (bool_decide (t = source) || bool_decide (t ∈ _)) eqn:E; [exact IH|].
  apply orb_false_elim in E as [Hne%bool_decide_eq_false_1 Hnot%bool_decide_eq_false_1].
  apply follows_rejected; [done|apply moved_not_update; by rewrite Hst|exact IH].
Qed.

Lemma at_status_follows s source :
  fresh s (probe_of source) →
  follows c (λ q s', stored s' q ∧ sp_lifecycle_status q = source ∧ only (probe_of source) s s') s (_proposal_at_status c source).
Proof.
  intros [Hn Hu]. destruct (probe_fields _ (transition_suffix source)) as (Hcl & _ & Hrev & _).
  assert (clean c (probe_of source)) as Hcl' by (destruct Hcl; by split).
  eapply follows_lift_bind; [apply probe_ok, transition_suffix|]. cbv zeta. change (set_lifecycle_status _ _) with (probe_of source).
  eapply follows_create; [apply memory_create; [exact Hn|by apply (clean_create c)]|].
  destruct (seed_paths_ok source) as [Hpath Hlast].
  eapply follows_mono; [apply move_along_follows; [by apply stored_put|exact Hcl'|exact Hpath|by intros _|exact (probe_effect _ (transition_suffix source))]|].
  intros q s' (? & _ & Hst & _ & _ & Ho). split_and!; [done|by rewrite Hst|by eapply only_put].
Qed.

(** What a stretch of the harness leaves alone. *)
Definition untouched (ps : list StoredProposal) (s s' : MemoryActionStore) : Prop :=
  (∀ k, k ∉ proposal_key <$> ps → _proposals s' !! k = _proposals s !! k) ∧
  (∀ k, k ∉ claim_key <$> ps → _effect_claims s' !! k = _effect_claims s !! k).

Lemma only_untouched p ps s s1 s' : only p s s1 → untouched ps s1 s' → untouched (p :: ps) s s'.
Proof.
  intros [H1 H2] [G1 G2]. split; intros k Hk; rewrite fmap_cons, list.not_elem_of_cons in Hk; destruct Hk as [Hne Hk].
  - by rewrite G1, H1.
  - by rewrite G2, H2.
Qed.

Lemma only_fresh p q s s' : only p s s' → proposal_key q ≠ proposal_key p → claim_key q ≠ claim_key p → fresh s q → fresh s' q.
Proof. intros [H1 H2] Hk Hc [Hn Hu]. split; [by rewrite H1|]. unfold unclaimed. by rewrite H2. Qed.

Lemma guards_follow sources s :
  NoDup sources → (∀ x, x ∈ sources → fresh s (probe_of x)) →
  follows c (λ _ s', untouched (probe_of <$> sources) s s') s (guard_sources c sources).
Proof.
  revert s. induction sources as [|x xs IH]; intros s Hnd Hfresh; [done|]. apply list.NoDup_cons in Hnd as [Hx Hnd].
  cbn [guard_sources]. apply follows_bind. eapply follows_mono; [apply at_status_follows, Hfresh; by left|].
  intros q s1 (Hq & Hst & Ho). apply follows_bind. eapply follows_mono; [by apply reject_follows|]. intros [] s2 ->.
  eapply follows_mono; [apply IH; [done|]|].
  - intros y Hy. assert (transition y ≠ transition x) as Hne by (intros E%transition_inj; by subst).
    destruct (probe_keys _ _ (transition_suffix y) (transition_suffix x) Hne) as [Hk Hc].
    eapply only_fresh; [exact Ho|exact Hk|exact Hc|apply Hfresh; by right].
  - intros [] s' Hun. rewrite fmap_cons. by eapply only_untouched.
Qed.

(** ** Appending *)

Lemma take_not_prefix {A} (x y : A) : ¬ [x; y] `prefix_of` [x].
Proof. intros [l H]. discriminate H. Qed.

Lemma swapped_not_prefix {A} (x y : A) : x ≠ y → ¬ [x; y] `prefix_of` [y; x].
Proof. intros Hne [l H]. injection H as E _. by apply Hne. Qed.

Lemma append_checks_follow s p e1 e2 r1 r2 :
  stored s p → clean c p → sp_lifecycle_status p = AWAITING_AUTHORITY →
  evidence_matches_proposal e1 p = true → evidence_matches_proposal e2 p = true → e1 ≠ e2 → r1 ≠ r2 →
  rb_correlation_reference (receipt_base r1) = sp_proposal_reference p →
  rb_correlation_reference (receipt_base r2) = sp_proposal_reference p →
  follows c (λ _ s', only p s s') s (append_only_checks p e1 e2 r1 r2 (observed_at c)).
Proof.
  intros Hp Hcl Hst He1 He2 Hne Hnr Hr1 Hr2. unfold append_only_checks. cbv zeta.
  set (a := set_receipts [r1; r2] (authorized_with [e1; e2] p)).
  assert (update_ok p a) as Hu.
  { destruct Hcl as [He Hr Hpe Her _]. split; cbn -[Z.add]; try done.
    - by left.
    - rewrite Her. by intros [? [=]].
    - rewrite He. intros _. apply prefix_nil.
    - rewrite Hr. intros _. apply prefix_nil.
    - rewrite Hst. right. by left.
    - split; cbn; intros x Hx; elem_cases Hx. }
  apply follows_then, follows_moved; [done|rewrite Hst; by left|done|done|].
  set (s1 := store_proposal _ a s). assert (stored s1 a) as Ha by by apply stored_put.
  assert (sp_erased_at p = None) as Her by apply Hcl.
  apply follows_rejected; [done|intros Hx; by apply (take_not_prefix e1 e2), (update_evidence _ _ Hx)|].
  apply follows_rejected; [done|intros Hx; by apply (swapped_not_prefix e1 e2 Hne), (update_evidence _ _ Hx)|].
  apply follows_rejected; [done|intros Hx; by apply (take_not_prefix r1 r2), (update_receipts _ _ Hx)|].
  apply follows_rejected; [done|intros Hx; by apply (swapped_not_prefix r1 r2 Hnr), (update_receipts _ _ Hx)|].
  apply follows_rejected; [done| |by eapply follows_ret, only_put, only_refl].
  intros Hx. assert (H := update_tombstone _ _ Hx ltac:(by eexists)). unfold holds_content in H. cbn in H.
  by rewrite !orb_true_r in H.
Qed.

Lemma NoDup_lifecycle : NoDup lifecycle_statuses.
Proof. apply (bool_decide_unpack _). vm_compute. done. Qed.

Lemma invariants_follow s :
  (∀ x, x ∈ suffixes → fresh s (probe c x)) →
  follows c (λ _ s', untouched (probe c <$> suffixes) s s') s (_assert_store_update_invariants c).
Proof.
  intros Hfresh. unfold _assert_store_update_invariants, _assert_lifecycle_transition_guards.
  apply follows_bind. eapply follows_mono.
  { apply guards_follow; [apply NoDup_lifecycle|]. intros x _. exact (Hfresh _ (transition_suffix x)). }
  intros [] s1 Hun. assert ("append-only"%py ∈ suffixes) as Hin by by left.
  destruct (probe_fields _ Hin) as (Hcl & Hst & Hrev & Ht & Ha & Hk).
  destruct (ready_channel c R) as (channel & Hch & Hne). destruct (ready_receipts c R) as (one & two & Hone & Htwo & Hneq).
  eapply follows_lift_bind; [by apply probe_ok|].
  eapply follows_create; [apply memory_create; [|by apply (clean_create c)]|].
  { destruct Hun as [H1 _]. rewrite H1; [by apply Hfresh|]. intros (q & E & Hq)%list_elem_of_fmap.
    apply list_elem_of_fmap in Hq as (x & -> & _). revert E. apply (probe_keys _ _ Hin (transition_suffix x)). by destruct x. }
  cbv zeta. eapply follows_lift_bind; [unfold second_evidence_of; cbn [_conformance_evidence rebound_evidence ae_channel_assurance]; by rewrite Hch|].
  eapply follows_lift_bind; [exact Hone|]. eapply follows_lift_bind; [exact Htwo|].
  destruct (bound_inv _ _ (case_bound c (ready_case c R))) as (_ & Het & Hea & _).
  assert (∀ channel, evidence_matches_proposal (rebound_evidence (sp_proposal_reference (probe c "append-only"))
    (sp_semantic_effect_reference (probe c "append-only")) (commitment_digest (probe c "append-only")) channel (evidence c))
    (probe c "append-only") = true) as Hb by (apply bound_evidence; congruence || done).
  eapply follows_mono; [apply append_checks_follow|]; try done; [by apply stored_put|exact (Hb _)|exact (Hb channel)|by intros [= E]|by intros [= E]|].
  intros [] s' Ho%only_put. destruct Hun as [H1 H2], Ho as [G1 G2].
  split; intros k Hk'.
  - rewrite G1, H1; [done| |intros ->; apply Hk'; exact (elem_twice proposal_key (probe c) _ suffixes Hin)].
    intros (q & -> & (x & -> & _)%list_elem_of_fmap)%list_elem_of_fmap. apply Hk'.
    exact (elem_twice proposal_key (probe c) _ suffixes (transition_suffix x)).
  - rewrite G2, H2; [done| |intros ->; apply Hk'; exact (elem_twice claim_key (probe c) _ suffixes Hin)].
    intros (q & -> & (x & -> & _)%list_elem_of_fmap)%list_elem_of_fmap. apply Hk'.
    exact (elem_twice claim_key (probe c) _ suffixes (transition_suffix x)).
Qed.

(** ** Claims *)

Lemma memory_conflicts p owner q s :
  stored s p → admissible c p → _effect_claims s !! claim_key p = Some owner → owner ≠ sp_proposal_reference p →
  _proposals s !! (sp_tenant_reference p, owner) = Some q → sp_lifecycle_status q ∉ [FAILED_KNOWN; STALE] →
  memory_run (admission c p (moved EXECUTING p)) s = (Ok CONFLICT, s).
Proof.
  intros Hp Ha Ho Hne Hq Hst.
  assert (_claim_effect_locked (claim_key p) (sp_proposal_reference p) s = (CONFLICT, s)) as Hc.
  { unfold _claim_effect_locked. rewrite Ho, bool_decide_eq_false_2 by done. change (claim_key p).1.1 with (sp_tenant_reference p).
    by rewrite Hq, bool_decide_eq_false_2. }
  rewrite (memory_admits c p s _ _ Hp Ha Hc). by rewrite bool_decide_eq_true_2.
Qed.

Lemma memory_acquires p s s' :
  stored s p → admissible c p → _claim_effect_locked (claim_key p) (sp_proposal_reference p) s = (ACQUIRED, s') →
  memory_run (admission c p (moved EXECUTING p)) s = (Ok ACQUIRED, store_proposal (proposal_key p) (moved EXECUTING p) s').
Proof. intros Hp Ha Hc. rewrite (memory_admits c p s _ _ Hp Ha Hc). by rewrite bool_decide_eq_false_2. Qed.

(** The state after the admission of a proposal whose effect nobody had. *)
Definition won (p : StoredProposal) (s : MemoryActionStore) : MemoryActionStore :=
  store_proposal (proposal_key p) (moved EXECUTING p) (claimed (claim_key p) (sp_proposal_reference p) s).

Record rivals (a b : StoredProposal) (s : MemoryActionStore) : Prop := {
  riv_a : stored s a;
  riv_b : stored s b;
  riv_aa : admissible c a;
  riv_ab : admissible c b;
  riv_keys : proposal_key a ≠ proposal_key b;
  riv_claim : claim_key a = claim_key b;
  riv_free : unclaimed s a
}.

Lemma rivals_sym a b s : rivals a b s → rivals b a s.
Proof. intros [? ? ? ? ? Hc ?]. split; try done. unfold unclaimed. by rewrite <-Hc. Qed.

Lemma rivals_won a b s : rivals a b s →
  memory_run (admission c a (moved EXECUTING a)) s = (Ok ACQUIRED, won a s) ∧
  memory_run (admission c b (moved EXECUTING b)) (won a s) = (Ok CONFLICT, won a s).
Proof.
  intros [Ha Hb Haa Hab Hk Hc Hf]. split.
  - apply memory_acquires; [done..|]. by apply unclaimed_locked.
  - assert (sp_tenant_reference a = sp_tenant_reference b) as Ht by exact (f_equal (λ k, k.1.1) Hc).
    apply (memory_conflicts b (sp_proposal_reference a) (moved EXECUTING a)).
    + apply stored_put_ne; [by apply not_eq_sym|done].
    + done.
    + simpl. by rewrite Hc, lookup_insert_eq.
    + intros E. apply Hk. unfold proposal_key. by rewrite Ht, E.
    + rewrite <-Ht. exact (lookup_insert_eq _ (proposal_key a) _).
    + intros Hx. elem_cases Hx.
Qed.

(** Of two concurrent admissions one passes, whichever was first. *)
Lemma follows_race {B} (Q : B → MemoryActionStore → Prop) a b s h1 h2 code (k : list EffectClaimResult → test B) :
  rivals a b s →
  sp_semantic_effect_reference a = sp_semantic_effect_reference (original c) →
  sp_semantic_effect_reference b = sp_semantic_effect_reference (original c) →
  follows c Q (won a s) (k [ACQUIRED; CONFLICT]) → follows c Q (won b s) (k [CONFLICT; ACQUIRED]) →
  follows c Q s (admissions ← gather h1 (admission c a (moved EXECUTING a)) h2 (admission c b (moved EXECUTING b));
    let admissions := [fst admissions; snd admissions] in
    _ ← _require ((count ACQUIRED admissions =? 1)%nat && (count CONFLICT admissions =? 1)%nat) code;
    k admissions).
Proof.
  intros Hr Hea Heb Hka Hkb. destruct (rivals_won a b s Hr) as [Ha1 Ha2].
  destruct (rivals_won b a s (rivals_sym _ _ _ Hr)) as [Hb1 Hb2].
  assert (both true (admission c a (moved EXECUTING a)) (admission c b (moved EXECUTING b)) s = (Ok ACQUIRED, Ok CONFLICT, won a s)) as Ht
    by (unfold both; by rewrite Ha1, Ha2).
  assert (both false (admission c a (moved EXECUTING a)) (admission c b (moved EXECUTING b)) s = (Ok CONFLICT, Ok ACQUIRED, won b s)) as Hf
    by (unfold both; by rewrite Hb1, Hb2).
  unfold gather, mbind, test_bind. cbn [follows]. split.
  - intros [] r1 r2; [rewrite Ht|rewrite Hf]; intros [->|[[] _]] [->|[[] _]]; done || exact Hka || exact Hkb.
  - intros [x|e] [y|e']; [|right; by eexists..].
    destruct x, y; try (right; by eexists); left.
    + exists true. rewrite Ht. split_and!; [by left|by left|exact Hka].
    + exists false. rewrite Hf. split_and!; [by left|by left|exact Hkb].
Qed.

(** ** The harness of a store *)

Definition authorized_of (p : StoredProposal) : StoredProposal := authorized_with [_independent_evidence (evidence c) p] p.

Lemma independent_bound p : contender p → ∀ e, e ∈ [_independent_evidence (evidence c) p] → evidence_matches_proposal e p = true.
Proof.
  intros [_ _ _ _ _ Hk (Ht & Ha & He)] e Hin. apply list_elem_of_singleton in Hin as ->.
  unfold _independent_evidence. rewrite He. by apply bound_evidence.
Qed.

Lemma case_bound_elem e : e ∈ [evidence c] → evidence_matches_proposal e (original c) = true.
Proof. intros ->%list_elem_of_singleton. apply (case_bound c (ready_case c R)). Qed.

Lemma contender_authorized es p : contender p → (∀ e, e ∈ es → evidence_matches_proposal e p = true) →
  update_ok p (authorized_with es p) ∧ admissible c (authorized_with es p).
Proof.
  intros [[He Hr Hp Her Ht] Hst _ _ _ _ _] Hes. split; [by apply authorized_update|]. split; try done.
  apply moved_update; [by apply (bool_decide_unpack _)| |exact Her]. split; [exact Hes|]. cbn. rewrite Hr. intros r Hx. inversion Hx.
Qed.

Lemma follows_read (Q : unit → MemoryActionStore → Prop) s h p q code :
  _proposals s !! proposal_key p = Some q → Q tt s →
  follows c Q s (x ← read h p; _require (bool_decide (x = Some q)) code).
Proof.
  intros Hp HQ. eapply (follows_expect _ s h (Get _ _) (Some q) s (λ x, bool_decide (x = Some q)));
    [cbn; unfold get; exact (f_equal (λ o, (Ok o, s)) Hp)|intros x; apply bool_decide_eq_true|by intros ? []|done].
Qed.

Lemma follows_owner (Q : unit → MemoryActionStore → Prop) s h p owner code :
  _effect_claims s !! claim_key p = Some owner → Q tt s →
  follows c Q s (x ← owner_of h p; _require (bool_decide (x = Some owner)) code).
Proof.
  intros Hp HQ. eapply (follows_expect _ s h (GetEffectClaimOwner _ _ _) (Some owner) s (λ x, bool_decide (x = Some owner)));
    [cbn; unfold get_effect_claim_owner; exact (f_equal (λ o, (Ok o, s)) Hp)|intros x; apply bool_decide_eq_true|by intros ? []|done].
Qed.

Lemma follows_refused (Q : unit → MemoryActionStore → Prop) s h t r revision statuses u code :
  memory_run (CompareAndSet t r revision statuses u) s = (Ok false, s) → Q tt s →
  follows c Q s (x ← call h (CompareAndSet t r revision statuses u); _require (negb x) code).
Proof.
  intros Hm HQ. eapply (follows_expect _ s h (CompareAndSet _ _ _ _ _) false s negb); [done|by intros []|by intros ? []|done].
Qed.

Lemma follows_unmarked (Q : unit → MemoryActionStore → Prop) s h t r revision at_ code :
  memory_run (MarkErasurePending t r revision at_) s = (Ok false, s) → Q tt s →
  follows c Q s (x ← call h (MarkErasurePending t r revision at_); _require (negb x) code).
Proof.
  intros Hm HQ. eapply (follows_expect _ s h (MarkErasurePending _ _ _ _) false s negb); [done|by intros []|by intros ? []|done].
Qed.

Lemma follows_admission (Q : unit → MemoryActionStore → Prop) s h p u r s' code :
  sp_semantic_effect_reference u = sp_semantic_effect_reference (original c) →
  memory_run (admission c p u) s = (Ok r, s') → Q tt s' →
  follows c Q s (x ← call h (admission c p u); _require (bool_decide (x = r)) code).
Proof.
  intros He Hm HQ. eapply (follows_expect _ s h (admission c p u) r s' (λ x, bool_decide (x = r)));
    [done|intros x; apply bool_decide_eq_true|by intros ? [[]]|done].
Qed.

(** What the middle of the harness starts from. *)
Record prepared (s : MemoryActionStore) : Prop := {
  pre_original : stored s (original c);
  pre_competitor : stored s (competitor c);
  pre_foreign : ∀ r, _proposals s !! (other_tenant, r) = None;
  pre_foreign_claims : ∀ a e, _effect_claims s !! (other_tenant, a, e) = None;
  pre_unclaimed : unclaimed s (original c);
  pre_terminal : _proposals s !! proposal_key (terminal c) = None
}.

Lemma foreign_follows s authorized : prepared s → follows c (λ _ s', s' = s) s (foreign_tenant_checks c authorized).
Proof.
  intros [Ho _ Hf Hfc _ _]. unfold foreign_tenant_checks. cbv zeta.
  apply follows_then, follows_refused; [cbn; unfold compare_and_set; by rewrite Hf|].
  apply follows_then. eapply (follows_expect _ s STORE (AdmitExecution _ _ _ _ _) PROPOSAL_NOT_FOUND s (λ x, bool_decide (x = _)));
    [cbn; unfold admit_execution; by rewrite Hf|intros x; apply bool_decide_eq_true|by intros ? (_ & [=] & _)|].
  apply follows_then, follows_unmarked; [cbn; unfold mark_erasure_pending; by rewrite Hf|].
  apply follows_then. eapply (follows_expect _ s STORE (GetEffectClaimOwner _ _ _) None s (λ x, bool_decide (x = None)));
    [cbn; unfold get_effect_claim_owner; by rewrite Hfc|intros x; apply bool_decide_eq_true|by intros ? []|].
  by apply follows_read.
Qed.

Lemma guarded_follows s :
  prepared s →
  let a := authorized_with [evidence c] (original c) in
  let b := authorized_of (competitor c) in
  follows c (λ _ s', s' = store_proposal (proposal_key (competitor c)) b (store_proposal (proposal_key (original c)) a s)) s
    (guarded_updates c a (competitor c) b).
Proof.
  intros [Ho Hc _ _ _ _] a b. unfold guarded_updates. cbv zeta.
  destruct (contender_authorized [evidence c] _ original_contender case_bound_elem) as [Ua _].
  destruct (contender_authorized _ _ competitor_contender (independent_bound _ competitor_contender)) as [Ub _].
  destruct contenders_differ as (Hne & _).
  apply follows_then, follows_moved; [done|rewrite (con_status _ original_contender); by left|done|done|].
  apply follows_then, follows_moved; [by apply stored_put_ne; [apply not_eq_sym|]|rewrite (con_status _ competitor_contender); by left|done|done|].
  apply follows_refused; [|done].
  apply (memory_cas_stale _ _ a); [|left; cbn -[Z.add]; lia].
  cbn. rewrite lookup_insert_ne by by apply not_eq_sym. by rewrite lookup_insert_eq.
Qed.

(** *** Settlement and transfer *)

(** [x] holds the effect and is executing, [y] wants it. *)
Record held (x y : StoredProposal) (s : MemoryActionStore) : Prop := {
  held_winner : stored s (moved EXECUTING x);
  held_loser : stored s y;
  held_claim : _effect_claims s !! claim_key x = Some (sp_proposal_reference x);
  held_keys : proposal_key x ≠ proposal_key y;
  held_effect : claim_key x = claim_key y;
  held_x : bindings_ok x ∧ sp_erased_at x = None;
  held_y : admissible c y ∧ bindings_ok y
}.

Lemma won_held a b s : rivals a b s → bindings_ok a → bindings_ok b → held a b (won a s).
Proof.
  intros [? ? Haa ? ? ? ?] Hba Hbb. split; try done.
  - by apply stored_put.
  - by apply stored_put_ne; [apply not_eq_sym|].
  - simpl. by rewrite lookup_insert_eq.
  - split; [done|apply Haa].
Qed.

Lemma bindings_moved t p : bindings_ok p → bindings_ok (moved t p).
Proof. intros [H1 H2]. by split. Qed.

(** Only these two proposals are written, and the effect ends with [y]. *)
Definition settled (x y : StoredProposal) (s s' : MemoryActionStore) : Prop :=
  (∀ k, k ≠ proposal_key x → k ≠ proposal_key y → _proposals s' !! k = _proposals s !! k) ∧
  _effect_claims s' !! claim_key y = Some (sp_proposal_reference y) ∧
  ∃ q, _proposals s' !! proposal_key y = Some q ∧ sp_lifecycle_status q = VERIFIED.

Lemma settle_follows x y s :
  held x y s → sp_semantic_effect_reference y = sp_semantic_effect_reference (original c) → follows c (λ _ s', settled x y s s') s (settle_and_transfer c (moved EXECUTING x) y).
Proof.
  intros [Hx Hy Hcl Hk He [Hbx Hex] [Hay Hby]] Heff. unfold settle_and_transfer. cbv zeta.
  set (w := moved EXECUTING x) in *.
  apply follows_then, follows_moved; [done|by left|by apply moved_update; [by apply (bool_decide_unpack _)|apply bindings_moved|]|done|].
  set (s1 := store_proposal _ _ s).
  assert (stored s1 y) as Hy1 by (by apply stored_put_ne; [apply not_eq_sym|]).
  assert (sp_tenant_reference x = sp_tenant_reference y) as Ht by exact (f_equal (λ k, k.1.1) He).
  apply follows_then, (follows_admission _ _ _ _ _ ACQUIRED (store_proposal (proposal_key y) (moved EXECUTING y)
    (claimed (claim_key y) (sp_proposal_reference y) s1))); [exact Heff|..].
  { apply memory_acquires; [done..|]. unfold _claim_effect_locked. rewrite <-He. change (_effect_claims s1) with (_effect_claims s).
    rewrite Hcl. rewrite bool_decide_eq_false_2.
    - change (claim_key x).1.1 with (sp_tenant_reference x). unfold s1. cbn [store_proposal _proposals].
      change (sp_tenant_reference x, sp_proposal_reference x) with (proposal_key x). change (proposal_key w) with (proposal_key x).
      rewrite lookup_insert_eq. by rewrite bool_decide_eq_true_2 by by apply (bool_decide_unpack _).
    - intros E. apply Hk. unfold proposal_key. by rewrite Ht, E. }
  set (s2 := store_proposal _ _ _). assert (stored s2 (moved EXECUTING y)) as Hy2 by by apply stored_put.
  apply follows_then, follows_owner; [unfold s2; simpl; by rewrite lookup_insert_eq|].
  destruct Hay as [Hsty Hpy Hery _ _].
  apply follows_then, follows_moved; [done|by left|by apply moved_update; [by apply (bool_decide_unpack _)|apply bindings_moved|]|done|].
  apply follows_moved; [by apply stored_put|by left|by apply moved_update; [by apply (bool_decide_unpack _)|do 2 apply bindings_moved|]|done|].
  split_and!.
  - intros k Hkx Hky. simpl. change (proposal_key (moved _ _)) with (proposal_key y).
    by rewrite !lookup_insert_ne by by apply not_eq_sym.
  - simpl. by rewrite lookup_insert_eq.
  - eexists. split; [simpl; apply lookup_insert_eq|done].
Qed.

(** *** The last contender *)

Lemma terminal_follows s owner q :
  _proposals s !! proposal_key (terminal c) = None → _effect_claims s !! claim_key (original c) = Some owner →
  _proposals s !! (sp_tenant_reference (original c), owner) = Some q → sp_lifecycle_status q = VERIFIED →
  owner ≠ sp_proposal_reference (terminal c) →
  follows c (λ _ _, True) s (terminal_contender_checks c (competitor c)).
Proof.
  intros Hn Hcl Hq Hst Hne. unfold terminal_contender_checks.
  assert (Hterm := terminal_contender).
  eapply follows_lift_bind; [apply terminal_ok|].
  eapply follows_create; [apply memory_create; [done|by apply contender_create]|].
  cbv zeta. destruct (contender_authorized _ _ Hterm (independent_bound _ Hterm)) as [Ut At].
  apply follows_then, follows_moved; [by apply stored_put|rewrite (con_status _ Hterm); by left|exact Ut|done|].
  eapply follows_admission; [exact (f_equal snd (con_claim _ Hterm))| |done]. eapply (memory_conflicts _ owner q).
  - by apply stored_put.
  - exact At.
  - change (claim_key (authorized_with _ _)) with (claim_key (terminal c)). rewrite (con_claim _ Hterm). exact Hcl.
  - exact Hne.
  - assert (proposal_key (terminal c) ≠ (sp_tenant_reference (original c), owner)) as Hkey
      by (intros E; apply Hne; exact (eq_sym (f_equal snd E))).
    change (sp_tenant_reference (authorized_with _ (terminal c))) with (sp_tenant_reference (terminal c)).
    rewrite (con_tenant _ Hterm). cbn [store_proposal _proposals]. by rewrite !lookup_insert_ne by exact Hkey.
  - rewrite Hst. intros Hx. elem_cases Hx.
Qed.

(** *** All of it *)

Lemma prepared_after s :
  untouched (probe c <$> suffixes)
    (store_proposal (proposal_key (competitor c)) (competitor c) (store_proposal (proposal_key (original c)) (original c) memory_init)) s →
  prepared s.
Proof.
  intros [H1 H2]. destruct contenders_differ as (Hoc & Hot & Hct).
  assert (∀ p, p ∈ [original c; competitor c; terminal c] → proposal_key p ∉ proposal_key <$> (probe c <$> suffixes)) as Hkey.
  { intros p Hp (q & E & (x & -> & Hx)%list_elem_of_fmap)%list_elem_of_fmap. exact (proj1 (contender_keys p x Hp Hx) E). }
  assert (∀ x, x ∈ suffixes → sp_tenant_reference (probe c x) = sp_tenant_reference (original c)) as Hten
    by (intros x Hx; by destruct (probe_fields x Hx) as (_ & _ & _ & ? & _)).
  split.
  - unfold stored. rewrite H1 by (apply Hkey; left). cbn [store_proposal _proposals].
    rewrite lookup_insert_ne by by apply not_eq_sym. apply lookup_insert_eq.
  - unfold stored. rewrite H1 by (apply Hkey; right; left). apply lookup_insert_eq.
  - intros r. rewrite H1.
    + cbn [store_proposal _proposals memory_init].
      assert (∀ p, contender p → proposal_key p ≠ (other_tenant, r)) as Hne
        by (intros p Hp E; apply (ready_tenant c R); rewrite <-(con_tenant _ Hp); exact (f_equal fst E)).
      rewrite !lookup_insert_ne by (apply Hne; apply competitor_contender || apply original_contender). apply lookup_empty.
    + intros (q & E & (x & -> & Hx)%list_elem_of_fmap)%list_elem_of_fmap. apply (ready_tenant c R).
      rewrite <-(Hten x Hx). exact (eq_sym (f_equal fst E)).
  - intros a e. rewrite H2; [apply lookup_empty|].
    intros (q & E & (x & -> & Hx)%list_elem_of_fmap)%list_elem_of_fmap. apply (ready_tenant c R).
    rewrite <-(Hten x Hx). exact (eq_sym (f_equal (λ k, k.1.1) E)).
  - unfold unclaimed. rewrite H2; [apply lookup_empty|].
    intros (q & E & (x & -> & Hx)%list_elem_of_fmap)%list_elem_of_fmap.
    refine (proj2 (contender_keys (original c) x _ Hx) E). left.
  - rewrite H1 by (apply Hkey; do 2 right; left). cbn [store_proposal _proposals memory_init].
    rewrite !lookup_insert_ne by done. apply lookup_empty.
Qed.

Lemma store_harness_follows : follows c (λ _ _, True) memory_init (assert_action_store_conforms c).
Proof.
  unfold assert_action_store_conforms. cbv zeta. destruct contenders_differ as (Hoc & Hot & Hct).
  assert (Ho := original_contender). assert (Hcomp := competitor_contender). assert (Hterm := terminal_contender).
  eapply follows_create; [apply memory_create; [apply lookup_empty|by apply contender_create]|].
  eapply follows_lift_bind; [apply contender_ok|].
  eapply follows_create.
  { apply memory_create; [|by apply contender_create]. cbn [store_proposal _proposals memory_init].
    rewrite lookup_insert_ne by done. apply lookup_empty. }
  set (s2 := store_proposal _ _ _).
  assert (stored s2 (original c)) as Hs2 by (apply stored_put_ne; [done|by apply stored_put]).
  apply follows_then, follows_read; [done|].
  apply follows_then. eapply (follows_expect _ s2 STORE (Get _ _) None s2 (λ x, bool_decide (x = None))).
  { cbn [memory_run]. unfold get, s2. cbn [store_proposal _proposals memory_init].
    assert (∀ p, contender p → proposal_key p ≠ (other_tenant, sp_proposal_reference (original c))) as Hne
      by (intros p Hp E; apply (ready_tenant c R); rewrite <-(con_tenant _ Hp); exact (f_equal fst E)).
    by rewrite !lookup_insert_ne, lookup_empty by (by apply Hne). }
  { intros x. apply bool_decide_eq_true. }
  { by intros ? []. }
  apply follows_bind. eapply follows_mono; [apply invariants_follow|].
  { intros x Hx. split; [|done]. unfold s2. cbn [store_proposal _proposals memory_init].
    rewrite !lookup_insert_ne; [apply lookup_empty|..];
      refine (proj1 (contender_keys _ x _ Hx)); [left|right; left]. }
  intros [] s3 Hun%prepared_after. assert (Hpre := Hun). destruct Hun as [Hpo Hpc _ _ Hfree Hpt].
  apply follows_bind. eapply follows_mono; [by apply foreign_follows|]. intros [] s ->.
  apply follows_bind. eapply follows_mono; [by apply guarded_follows|]. intros [] s4 ->.
  set (a := authorized_with [evidence c] (original c)). set (b := authorized_of (competitor c)).
  destruct (contender_authorized [evidence c] _ Ho case_bound_elem) as [Ua Aa].
  destruct (contender_authorized _ _ Hcomp (independent_bound _ Hcomp)) as [Ub Ab].
  set (s4 := store_proposal _ b _).
  assert (stored s4 a) as Ha by (apply stored_put_ne; [done|by apply stored_put]).
  assert (stored s4 b) as Hb by by apply stored_put.
  assert (_proposals s4 !! proposal_key (terminal c) = None) as Hnt.
  { unfold s4. cbn [store_proposal _proposals]. by rewrite !lookup_insert_ne by done. }
  assert (rivals a b s4) as Hriv by (split; try done; exact (eq_sym (con_claim _ Hcomp))).
  assert (∀ x y, held x y (won x s4) → proposal_key x ≠ proposal_key (terminal c) → proposal_key y ≠ proposal_key (terminal c) →
    claim_key y = claim_key (original c) →
    follows c (λ _ _, True) (won x s4) (_ ← settle_and_transfer c (moved EXECUTING x) y; terminal_contender_checks c (competitor c))) as Hend.
  { intros x y Hheld Hx Hy Hey. apply follows_bind. eapply follows_mono; [by apply settle_follows; [|exact (f_equal snd Hey)]|].
    intros [] s5 (Hsame & Howner & q & Hq & Hst). rewrite Hey in Howner.
    assert (sp_tenant_reference y = sp_tenant_reference (original c)) as Hty by exact (f_equal (λ k, k.1.1) Hey).
    apply (terminal_follows s5 (sp_proposal_reference y) q); [|done|by rewrite <-Hty|done|].
    - rewrite Hsame by by apply not_eq_sym. cbn [won store_proposal claimed _proposals]. by rewrite lookup_insert_ne.
    - intros E. apply Hy. unfold proposal_key. by rewrite Hty, (con_tenant _ Hterm), E. }
  assert (∀ x y, rivals x y s4 → held x y (won x s4)) as Hheld.
  { intros x y Hr. apply won_held; [done|..].
    - assert (Hux := adm_update _ _ (riv_aa _ _ _ Hr)). destruct (update_bindings _ _ Hux) as [? ?]. by split.
    - assert (Huy := adm_update _ _ (riv_ab _ _ _ Hr)). destruct (update_bindings _ _ Huy) as [? ?]. by split. }
  apply follows_bind. assert (∀ x y, rivals x y s4 → proposal_key x ≠ proposal_key (terminal c) → proposal_key y ≠ proposal_key (terminal c) →
    claim_key x = claim_key (original c) →
    follows c (λ sides s', follows c (λ _ _, True) s' (_ ← settle_and_transfer c (fst sides) (snd sides); terminal_contender_checks c (competitor c)))
      (won x s4) (owner ← owner_of STORE (original c);
        _ ← _require (bool_decide (owner = Some (sp_proposal_reference (moved EXECUTING x)))) "store_effect_owner";
        marked ← call RETENTION_STORE (MarkErasurePending (sp_tenant_reference (moved EXECUTING x))
          (sp_proposal_reference (moved EXECUTING x)) (sp_revision (moved EXECUTING x)) (observed_at c));
        _ ← _require (negb marked) "store_active_effect_not_erasable";
        mret (moved EXECUTING x, y))) as Hside.
  { intros x y Hr Hx Hy Hcx. assert (Hh := Hheld x y Hr). destruct Hh as [Hwx _ Hcl _ Heff _ _].
    apply follows_then, follows_owner; [rewrite <-Hcx; exact Hcl|].
    apply follows_then, follows_unmarked.
    - cbn -[moved]. unfold mark_erasure_pending. unfold stored, proposal_key in Hwx. rewrite Hwx, Z.eqb_refl.
      by rewrite (bool_decide_eq_false_2 (sp_lifecycle_status (moved EXECUTING x) ∈ _)) by by apply (bool_decide_unpack _).
    - apply follows_ret. cbn [fst snd]. apply Hend; [by apply Hheld|done|done|by rewrite <-Heff]. }
  unfold competing_admissions. cbv zeta.
  refine (follows_race _ a b s4 STORE STORE "store_atomic_effect_admission" (λ admissions,
    owner ← owner_of STORE (original c);
    _ ← _require (bool_decide (owner = Some (sp_proposal_reference (if bool_decide (head admissions = Some ACQUIRED)
          then moved EXECUTING a else moved EXECUTING b)))) "store_effect_owner";
    marked ← call RETENTION_STORE (MarkErasurePending
      (sp_tenant_reference (if bool_decide (head admissions = Some ACQUIRED) then moved EXECUTING a else moved EXECUTING b))
      (sp_proposal_reference (if bool_decide (head admissions = Some ACQUIRED) then moved EXECUTING a else moved EXECUTING b))
      (sp_revision (if bool_decide (head admissions = Some ACQUIRED) then moved EXECUTING a else moved EXECUTING b)) (observed_at c));
    _ ← _require (negb marked) "store_active_effect_not_erasable";
    mret (if bool_decide (head admissions = Some ACQUIRED) then moved EXECUTING a else moved EXECUTING b,
          if bool_decide (head admissions = Some ACQUIRED) then b else a)) Hriv eq_refl (f_equal snd (con_claim _ Hcomp)) _ _).
  - exact (Hside a b Hriv Hot Hct eq_refl).
  - exact (Hside b a (rivals_sym _ _ _ Hriv) Hct Hot (con_claim _ Hcomp)).
Qed.
End Ready.

(** ** The harness of two connections *)

Definition independent_suffixes : list pystr := ["cas"; "effect:first"; "effect:second"]%py.

Definition independent (c : StoreConformanceCase) (suffix : pystr) : StoredProposal :=
  match _independent_proposal (original c) suffix with Ok p => p | Err _ => original c end.

Record independent_ready (c : StoreConformanceCase) : Prop := {
  ind_case : case_usable c;
  ind_derived : forallb (λ x, is_Ok (_independent_proposal (original c) x)) independent_suffixes = true;
  ind_references : NoDup (sp_proposal_reference <$> (independent c <$> independent_suffixes))
}.

Section Independent.
Context (c : StoreConformanceCase) (R : independent_ready c).

Lemma independent_ok x : x ∈ independent_suffixes →
  _independent_proposal (original c) x = Ok (independent c x) ∧ contender c (independent c x).
Proof.
  intros Hx%list_elem_of_In. assert (H := ind_derived c R). rewrite forallb_forall in H. specialize (H x Hx).
  assert (_independent_proposal (original c) x = Ok (independent c x)) as E
    by (unfold independent; by destruct (_independent_proposal (original c) x)).
  split; [exact E|]. eapply rebound_contender; [by apply usable_contender, R|exact E].
Qed.

(** One of two concurrent updates of one revision is applied. *)
Lemma follows_updates {B} (Q : B → MemoryActionStore → Prop) p u s h1 h2 code (k : list bool → test B) :
  stored s p → update_ok p u → sp_lifecycle_status p = AWAITING_AUTHORITY → sp_lifecycle_status u = AUTHORIZED →
  proposal_key u = proposal_key p →
  (∀ results, results ∈ [[true; false]; [false; true]] → follows c Q (store_proposal (proposal_key p) u s) (k results)) →
  let update := CompareAndSet (sp_tenant_reference p) (sp_proposal_reference p) (sp_revision p) [AWAITING_AUTHORITY] u in
  follows c Q s (results ← gather h1 update h2 update;
    let results := [fst results; snd results] : list bool in
    _ ← _require ((count_bool true results =? 1)%nat && (count_bool false results =? 1)%nat) code;
    k results).
Proof.
  intros Hp Hu Hst Hsu Hku Hk update.
  assert (memory_run update s = (Ok true, store_proposal (proposal_key p) u s)) as H1
    by (apply memory_cas; [done|rewrite Hst; by left|done|by rewrite Hsu]).
  assert (memory_run update (store_proposal (proposal_key p) u s) = (Ok false, store_proposal (proposal_key p) u s)) as H2
    by (apply (memory_cas_stale _ _ u); [apply (lookup_insert_eq _ (proposal_key p))|left; rewrite (update_revision _ _ Hu); lia]).
  assert (both true update update s = (Ok true, Ok false, store_proposal (proposal_key p) u s)) as Ht by (unfold both; by rewrite H1, H2).
  assert (both false update update s = (Ok false, Ok true, store_proposal (proposal_key p) u s)) as Hf by (unfold both; by rewrite H1, H2).
  unfold gather, mbind, test_bind. cbn [follows]. split.
  - intros [] r1 r2; [rewrite Ht|rewrite Hf]; intros [->|[]] [->|[]]; apply Hk; [left|right; left].
  - intros [x|e] [y|e']; [|right; by eexists..]. destruct x, y; try (right; by eexists); left.
    + exists true. rewrite Ht. split_and!; [by left|by left|apply Hk; left].
    + exists false. rewrite Hf. split_and!; [by left|by left|apply Hk; right; left].
Qed.

(** Two looks at one owner. *)
Lemma follows_owners (Q : unit → MemoryActionStore → Prop) p owner s h1 h2 code :
  _effect_claims s !! claim_key p = Some owner → Q tt s →
  let look := GetEffectClaimOwner (sp_tenant_reference p) (sp_action_type p) (sp_semantic_effect_reference p) in
  follows c Q s (owners ← gather h1 look h2 look;
    _require (bool_decide ([fst owners; snd owners] = [Some owner; Some owner] :> list (option pystr))) code).
Proof.
  intros Ho HQ look. assert (memory_run look s = (Ok (Some owner), s)) as H
    by (cbn; unfold get_effect_claim_owner; exact (f_equal (λ o, (Ok o, s)) Ho)).
  assert (∀ first, both first look look s = (Ok (Some owner), Ok (Some owner), s)) as Hb by (intros []; unfold both; by rewrite H, H).
  unfold gather, mbind, test_bind. cbn [follows]. split.
  - intros first r1 r2. rewrite Hb. intros [->|[]] [->|[]]. cbn. by rewrite bool_decide_eq_true_2.
  - intros [x|e] [y|e']; [|right; by eexists..]. cbn [fst snd]. case_bool_decide as E; [|right; by eexists].
    injection E as -> ->. left. exists true. rewrite Hb. split_and!; [by left|by left|exact HQ].
Qed.

Lemma follows_read_bind {B} (Q : B → MemoryActionStore → Prop) s h p q (f : option StoredProposal → test B) :
  _proposals s !! proposal_key p = Some q → follows c Q s (f (Some q)) → (∀ x, x ≠ Some q → fails (f x)) →
  follows c Q s (x ← read h p; f x).
Proof.
  intros Hp Hf Hn. simpl. unfold get. unfold proposal_key in Hp. rewrite Hp. split; [by intros r [->|[]]|].
  intros [x|e]; [|right; by eexists]. destruct (decide (x = Some q)) as [->|Hx]; [left; split; [by left|done]|right; by apply Hn].
Qed.

Lemma updates_follow : follows c (λ _ s', _effect_claims s' = ∅ ∧ ∀ k, k ≠ proposal_key (independent c "cas") → _proposals s' !! k = None)
  memory_init (independent_updates c).
Proof.
  destruct (independent_ok "cas" ltac:(left)) as [E Hp]. set (p := independent c "cas") in *.
  destruct (contender_authorized c _ _ Hp (independent_bound c _ Hp)) as [Hu _].
  eapply follows_lift_bind; [exact E|].
  eapply follows_create; [apply memory_create; [apply lookup_empty|by apply contender_create with c]|].
  apply follows_then, follows_read; [by apply stored_put|]. cbv zeta.
  eapply (follows_updates _ p _ _ FIRST_STORE SECOND_STORE _ (λ _,
    first ← read FIRST_STORE p;
    if bool_decide (first = Some (authorized_of c p)) then
      second ← read SECOND_STORE p;
      _require (bool_decide (second = Some (authorized_of c p))) "independent_store_revision_visibility"
    else _require false "independent_store_revision_visibility"));
    [by apply stored_put|exact Hu|apply (con_status _ _ Hp)|done|done|].
  intros results _. fold (authorized_of c p). set (s := store_proposal _ _ _).
  assert (_proposals s !! proposal_key p = Some (authorized_of c p)) as Hs by apply lookup_insert_eq.
  assert (follows c (λ _ s', _effect_claims s' = ∅ ∧ ∀ k, k ≠ proposal_key p → _proposals s' !! k = None) s
    (second ← read SECOND_STORE p; _require (bool_decide (second = Some (authorized_of c p))) "independent_store_revision_visibility"))
    as Hlast.
  { apply follows_read; [done|]. split; [done|]. intros k Hk. cbn [s store_proposal _proposals memory_init].
    rewrite !lookup_insert_ne by by apply not_eq_sym. apply lookup_empty. }
  eapply follows_read_bind; [exact Hs|by rewrite bool_decide_eq_true_2|].
  intros x Hx. rewrite bool_decide_eq_false_2 by done. by eexists.
Qed.

Lemma contender_follows p s h :
  contender c p → _proposals s !! proposal_key p = None →
  follows c (λ q s', q = authorized_of c p ∧ s' = store_proposal (proposal_key p) (authorized_of c p) (store_proposal (proposal_key p) p s)) s
    (independent_contender c h p).
Proof.
  intros Hp Hn. destruct (contender_authorized c _ _ Hp (independent_bound c _ Hp)) as [Hu _].
  unfold independent_contender. eapply follows_create; [apply memory_create; [done|by apply contender_create with c]|]. cbv zeta.
  apply follows_then, follows_moved; [by apply stored_put|rewrite (con_status _ _ Hp); by left|exact Hu|done|]. by apply follows_ret.
Qed.

Lemma independent_differ x y : x ∈ independent_suffixes → y ∈ independent_suffixes → x ≠ y →
  proposal_key (independent c x) ≠ proposal_key (independent c y).
Proof.
  intros Hx Hy Hne E. apply Hne. assert (H := ind_references c R). rewrite <-list_fmap_compose in H.
  apply (NoDup_fmap_eq _ _ _ _ H Hx Hy). exact (f_equal snd E).
Qed.

Lemma admissions_follow s :
  _effect_claims s = ∅ → (∀ k, k ≠ proposal_key (independent c "cas") → _proposals s !! k = None) →
  follows c (λ _ _, True) s (independent_admissions c).
Proof.
  intros Hcl Hpr.
  destruct (independent_ok "effect:first" ltac:(right; left)) as [E1 H1].
  destruct (independent_ok "effect:second" ltac:(do 2 right; left)) as [E2 H2].
  assert (D1 : proposal_key (independent c "effect:first") ≠ proposal_key (independent c "cas"))
    by (apply independent_differ; [right; left|left|done]).
  assert (D2 : proposal_key (independent c "effect:second") ≠ proposal_key (independent c "cas"))
    by (apply independent_differ; [do 2 right; left|left|done]).
  assert (D12 : proposal_key (independent c "effect:first") ≠ proposal_key (independent c "effect:second"))
    by (apply independent_differ; [right; left|do 2 right; left|done]).
  set (p := independent c "effect:first") in *. set (q := independent c "effect:second") in *.
  destruct (contender_authorized c _ _ H1 (independent_bound c _ H1)) as [U1 A1].
  destruct (contender_authorized c _ _ H2 (independent_bound c _ H2)) as [U2 A2].
  unfold independent_admissions. eapply follows_lift_bind; [exact E1|]. eapply follows_lift_bind; [exact E2|].
  apply follows_bind. eapply follows_mono; [apply contender_follows; [done|by apply Hpr]|]. intros x s1 [-> ->].
  apply follows_bind. eapply follows_mono; [apply contender_follows; [done|]|].
  { cbn [store_proposal _proposals]. rewrite !lookup_insert_ne by done. by apply Hpr. }
  intros y s2 [-> ->]. set (s2 := store_proposal _ (authorized_of c q) _).
  assert (rivals c (authorized_of c p) (authorized_of c q) s2) as Hr.
  { split; try done.
    - apply stored_put_ne; [done|]. apply stored_put_ne; [done|]. by apply stored_put.
    - by apply stored_put.
    - change (claim_key p = claim_key q). by rewrite (con_claim _ _ H1), (con_claim _ _ H2).
    - unfold unclaimed, s2. cbn [store_proposal _effect_claims]. rewrite Hcl. apply lookup_empty. }
  assert (∀ a b, rivals c a b s2 → follows c (λ _ _, True) (won a s2)
    (owners ← gather FIRST_STORE (GetEffectClaimOwner (sp_tenant_reference (moved EXECUTING a)) (sp_action_type (moved EXECUTING a))
        (sp_semantic_effect_reference (moved EXECUTING a)))
      SECOND_STORE (GetEffectClaimOwner (sp_tenant_reference (moved EXECUTING a)) (sp_action_type (moved EXECUTING a))
        (sp_semantic_effect_reference (moved EXECUTING a)));
     _require (bool_decide ([fst owners; snd owners] = [Some (sp_proposal_reference (moved EXECUTING a)); Some (sp_proposal_reference (moved EXECUTING a))]
                            :> list (option pystr))) "independent_store_effect_owner_visibility")) as Hside.
  { intros a b _. apply (follows_owners _ (moved EXECUTING a)); [|done]. apply lookup_insert_eq. }
  refine (follows_race c _ (authorized_of c p) (authorized_of c q) s2 FIRST_STORE SECOND_STORE
    "independent_store_atomic_effect_admission" (λ results,
    let winner := if bool_decide (head results = Some ACQUIRED) then moved EXECUTING (authorized_of c p) else moved EXECUTING (authorized_of c q) in
    let look := GetEffectClaimOwner (sp_tenant_reference winner) (sp_action_type winner) (sp_semantic_effect_reference winner) in
    owners ← gather FIRST_STORE look SECOND_STORE look;
    _require (bool_decide ([fst owners; snd owners] = [Some (sp_proposal_reference winner); Some (sp_proposal_reference winner)]
                           :> list (option pystr))) "independent_store_effect_owner_visibility") Hr (f_equal snd (con_claim _ _ H1)) (f_equal snd (con_claim _ _ H2)) _ _).
  - exact (Hside _ _ Hr).
  - exact (Hside _ _ (rivals_sym _ _ _ _ Hr)).
Qed.

Lemma independent_harness_follows :
  follows c (λ checks _, checks = independent_checks) memory_init (assert_independent_store_connections_conform c).
Proof.
  unfold assert_independent_store_connections_conform. apply follows_bind.
  eapply follows_mono; [apply updates_follow|]. intros [] s [Hcl Hpr].
  apply follows_bind. eapply follows_mono; [by apply admissions_follow|]. intros [] s' _. by apply follows_ret.
Qed.
End Independent.

(** * Properties *)

(** C30: the harness of stores passes exactly the stores that answer its calls as
    the in-memory store answers that conversation, concurrent calls in one order
    or the other, up to [like_answer]: an update the in-memory store refuses by
    raising may be refused with [False] or any [StoreInvariantError], and the
    claim of a probe, a proposal of an effect of its own, may be answered
    [OWNED_BY_PROPOSAL]; the claim of the effect of the case must be answered
    [ACQUIRED].  Likewise the harness of two connections to one store, whose
    report is then the list of its checks.  Supposed of the case
    ([harness_ready], [independent_ready]): a new proposal without evidence or
    receipts, evidence bound to it, a time before its deadline, a tenant that is
    not the harness's other tenant, and references derived with SHA-256 that are
    valid and differ. *)
Theorem store_harness_exact (c : StoreConformanceCase) (env : stores) (H : harness_ready c) (I : independent_ready c) :
  let run := conduct env [] (assert_action_store_conforms c) in
  let run2 := conduct env [] (assert_independent_store_connections_conform c) in
  (run.1 = Ok tt ↔ answers_as_memory (like_answer c) memory_init run.2) ∧
  (run2.1 = Ok independent_checks ↔ answers_as_memory (like_answer c) memory_init run2.2) ∧
  ∀ checks, run2.1 = Ok checks → checks = independent_checks.
Proof.
  intros run run2. assert (Hf := store_harness_follows c H). assert (Hg := independent_harness_follows c I). split_and!.
  - split; [by apply follows_sound with (1 := Hf)|].
    intros Ha. destruct (follows_complete _ _ _ env [] Hf Ha) as ([] & _ & E & _). exact E.
  - split; [by apply follows_sound with (1 := Hg)|].
    intros Ha. destruct (follows_complete _ _ _ env [] Hg Ha) as (checks & _ & E & ->). exact E.
  - intros checks E. by destruct (follows_result _ _ _ env [] checks Hg E).
Qed.

(** The in-memory store passes both. *)
Theorem memory_store_passes (c : StoreConformanceCase) (H : harness_ready c) (I : independent_ready c) :
  (conduct memory_stores [] (assert_action_store_conforms c)).1 = Ok tt ∧
  (conduct memory_stores [] (assert_independent_store_connections_conform c)).1 = Ok independent_checks.
Proof.
  split.
  - destruct (follows_complete _ _ _ memory_stores [] (store_harness_follows c H) (memory_answers _ _ [])) as ([] & _ & E & _). exact E.
  - destruct (follows_complete _ _ _ memory_stores [] (independent_harness_follows c I) (memory_answers _ _ [])) as (checks & _ & E & ->).
    exact E.
Qed.
End Exact.

(** * A case *)

Section Case.
#[local] Existing Instance ascii_unicode.

(** A digest that tells the texts of the case apart. *)
#[local] Instance polynomial_digest : Sha256 := {|
  sha256_hexdigest b := PyStr (dumps_int (foldl (λ h x, (h * 257 + x) mod (2 ^ 127 - 1))%Z 7%Z b))
|}.

#[local] Definition new_proposal : StoredProposal :=
  mkStoredProposal "t" "p" (mkActionType "a.b" "c" 1) "effect" single AWAITING_AUTHORITY 0
    (Some (mkProtectedPayload "codec" "key" "1" "ciphertext")) (Some (mkKeyedCommitment "hmac" "key" "1" "digest"))
    [("amount"%py, JInt 5)] None None 0 1000 [] [] 0 3 None None None None None None.

#[local] Definition its_evidence : AuthorityEvidence :=
  mkAuthorityEvidence "t" (mkActionType "a.b" "c" 1) "p" "effect" (mkConfirmingAuthority "boss") ["runtime"%py] APPROVE
    "digest" "console" 0 1000 None.

#[local] Definition case : StoreConformanceCase := mkStoreConformanceCase new_proposal its_evidence 5.

Lemma case_is_usable : case_usable case.
Proof. split; [apply validate_create_ok|..]; by vm_compute. Qed.

Lemma case_is_ready : harness_ready case ∧ independent_ready case.
Proof.
  split; split.
  - apply case_is_usable.
  - by vm_compute.
  - by vm_compute.
  - by vm_compute.
  - by vm_compute.
  - apply (bool_decide_unpack _). vm_compute. done.
  - apply (bool_decide_unpack _). vm_compute. done.
  - eexists. split; [vm_compute; reflexivity|done].
  - eexists _, _. split; [vm_compute; reflexivity|]. split; [vm_compute; reflexivity|done].
  - apply case_is_usable.
  - by vm_compute.
  - apply (bool_decide_unpack _). vm_compute. done.
Qed.

(** A store that finds a claim owned where the in-memory store acquires it: of
    the probes only, or of every effect. *)
#[local] Definition owning_stores (probes_only : bool) : stores := λ before h o,
  match o return res (store_resp o) with
  | AdmitExecution t p revision at_ updated =>
      match memory_stores before h (AdmitExecution t p revision at_ updated) with
      | Ok ACQUIRED =>
          if probes_only && bool_decide (sp_semantic_effect_reference updated = "effect"%py) then Ok ACQUIRED
          else Ok OWNED_BY_PROPOSAL
      | r => r
      end
  | o => memory_stores before h o
  end.

Lemma store_harness_exact_witness :
  (conduct memory_stores [] (assert_action_store_conforms case)).1 = Ok tt ∧
  answers_as_memory (like_answer case) memory_init (conduct (owning_stores true) [] (assert_action_store_conforms case)).2 ∧
  ¬ answers_as_memory (like_answer case) memory_init (conduct (owning_stores false) [] (assert_action_store_conforms case)).2.
Proof.
  destruct case_is_ready as [H I].
  assert ((conduct (owning_stores true) [] (assert_action_store_conforms case)).1 = Ok tt) as E1 by (vm_compute; reflexivity).
  assert ((conduct (owning_stores false) [] (assert_action_store_conforms case)).1 ≠ Ok tt) as E2 by (vm_compute; discriminate).
  split; [exact (proj2 (proj1 (store_harness_exact case memory_stores H I)) (memory_answers case _ []))|]. split.
  - exact (proj1 (proj1 (store_harness_exact case (owning_stores true) H I)) E1).
  - exact (λ Ha, E2 (proj2 (proj1 (store_harness_exact case (owning_stores false) H I)) Ha)).
Defined.
End Case.
