(* ===== verification/Leakage.v ===== *)
(** The search for seeded secrets in projections ([conformance.py]):
    [find_sensitive_data] walks whatever object it is given, which may share
    parts and contain itself, and reports where it met a secret.

    Objects live in a heap; a reference is their place in it.  The walk remembers
    what [id] it has seen: [id_of] is the address an object has when it is met.
    Objects that are all alive at once have different ones; objects made on the way
    may not ([reused_identity_hides_a_secret]).

    [leakage_search_exact]: it reports what there is.  The depth of Python's stack
    is not modelled.

    Parameters: [str.casefold], and the decoding of bytes with replacement. *)

From Stdlib Require Import Sorted.
From S2P Require Import Prelude Models SqlText.
From S2P Require Import StoreHarness.

Class Text := { casefold : pystr → pystr; decode_replacing : list Z → pystr }.

(** * Objects *)

Inductive value :=
  | VStr (s : pystr)
  | VBytes (b : list Z)
  | VScalar
  | VRef (h : positive).

(** What the walk makes of an object: Pydantic models and dataclasses with their
    fields, exceptions with [args] and [vars(exc)], mappings, other sequences and
    sets; of others it sees nothing.  A [bytearray] is a sequence of integers. *)
Inductive object :=
  | OModel (items : list (pystr * value))
  | OException (args attributes : value)
  | ODataclass (items : list (pystr * value))
  | OMapping (items : list (value * value))
  | OSequence (items : list value)
  | OSet (items : list value)
  | OOther.

Record LeakageFinding := mkLeakageFinding { lf_path : pystr; lf_label : pystr; lf_kind : pystr }.

(** ** Text *)

Fixpoint starts_with {A} `{EqDecision A} (l s : list A) : bool :=
  match l, s with
  | [], _ => true
  | _ :: _, [] => false
  | x :: l', y :: s' => bool_decide (x = y) && starts_with l' s'
  end.

(** [l in s]. *)
Fixpoint contains {A} `{EqDecision A} (l s : list A) : bool :=
  starts_with l s || match s with [] => false | _ :: s' => contains l s' end.

(** [literal in text]. *)
Definition is_in (literal text : pystr) : bool := contains (code_points literal) (code_points text).

(** [self.path < other.path], and so on for label and kind. *)
Fixpoint points_le (a b : list N) : bool :=
  match a, b with
  | [], _ => true
  | _ :: _, [] => false
  | x :: a', y :: b' => (x <? y)%N || ((x =? y)%N && points_le a' b')
  end.

Definition finding_le (a b : LeakageFinding) : bool :=
  let pa := code_points (lf_path a) in let pb := code_points (lf_path b) in
  let la := code_points (lf_label a) in let lb := code_points (lf_label b) in
  if bool_decide (pa = pb) then
    if bool_decide (la = lb) then points_le (code_points (lf_kind a)) (code_points (lf_kind b)) else points_le la lb
  else points_le pa pb.

Fixpoint insert_finding (x : LeakageFinding) (l : list LeakageFinding) : list LeakageFinding :=
  match l with
  | [] => [x]
  | y :: l' => if finding_le x y then x :: l else y :: insert_finding x l'
  end.

Definition sort_findings (l : list LeakageFinding) : list LeakageFinding := foldr insert_finding [] l.

Section Search.
Context `{T : !Text} (heap : gmap positive object) (id_of : positive → Z).
Context (forbidden_literals : list (pystr * pystr)) (forbidden_key_fragments : list pystr).

(** * The walk *)

(** A call that the walk makes for a part of an object. *)
Inductive entry :=
  | Key (key : pystr) (path : pystr)
  | Item (item : value) (path : pystr).

Definition field_entries (path : pystr) (items : list (pystr * value)) : list entry :=
  concat ((λ '(name, v), [Key name (path +:+ "." +:+ name); Item v (path +:+ "." +:+ name)])%py <$> items).

Definition indexed (path : pystr) (i : nat) : pystr := (path +:+ "[" +:+ str_int (Z.of_nat i) +:+ "]")%py.

Definition entries (o : object) (path : pystr) : list entry :=
  match o with
  | OModel items | ODataclass items => field_entries path items
  | OException args attributes => [Item args (path +:+ ".args"); Item attributes (path +:+ ".attributes")]%py
  | OMapping items =>
      concat (imap (λ i '(k, v),
        let entry_path := indexed path i in
        match k with VStr s => [Key s (entry_path +:+ ".key")%py] | _ => [] end
          ++ [Item k (entry_path +:+ ".key"); Item v (entry_path +:+ ".value")]%py) items)
  | OSequence items => imap (λ i v, Item v (indexed path i)) items
  | OSet items => (λ v, Item v (path +:+ "[set-item]")%py) <$> items
  | OOther => []
  end.

Record walk := mkWalk { seen : gset Z; findings : list LeakageFinding }.

Definition report (l : list LeakageFinding) (w : walk) : walk := mkWalk (seen w) (findings w ++ l).

Definition literals_in (text path : pystr) : list LeakageFinding :=
  (λ '(label, _), mkLeakageFinding path label "literal")
    <$> List.filter (λ '(_, literal), negb (bool_decide (literal = PyStr [])) && is_in literal text) forbidden_literals.

Definition normalized_fragments : list pystr := casefold <$> forbidden_key_fragments.

Definition inspect_key (key path : pystr) (w : walk) : walk :=
  report ((λ fragment, mkLeakageFinding path ("key:" +:+ fragment)%py "key")
            <$> List.filter (λ fragment, is_in fragment (casefold key)) normalized_fragments) w.

Fixpoint each {A} (f : A → walk → option walk) (l : list A) (w : walk) : option walk :=
  match l with [] => Some w | x :: l' => w' ← f x w; each f l' w' end.

(** [None] when [fuel] nested objects were not enough. *)
Fixpoint inspect_value (fuel : nat) (current : value) (path : pystr) (w : walk) : option walk :=
  match current with
  | VStr text => Some (report (literals_in text path) w)
  | VBytes b => Some (report (literals_in (decode_replacing b) path) w)
  | VScalar => Some w
  | VRef h =>
      let identity := id_of h in
      if bool_decide (identity ∈ seen w) then Some w
      else
        let w := mkWalk ({[identity]} ∪ seen w) (findings w) in
        match heap !! h with
        | None => Some w
        | Some o =>
            match fuel with
            | O => None
            | S fuel' =>
                each (λ e w, match e with
                             | Key key path => Some (inspect_key key path w)
                             | Item item path => inspect_value fuel' item path w
                             end) (entries o path) w
            end
        end
  end.

Definition find_sensitive_data (root : value) : option (list LeakageFinding) :=
  w ← inspect_value (size heap) root "$" (mkWalk ∅ []);
  Some (sort_findings (findings w)).

Definition comma (l : list pystr) : pystr := join "," l.

Definition assert_no_sensitive_data (root : value) : option (res unit) :=
  found ← find_sensitive_data root;
  Some (if bool_decide (found = []) then Ok ()
        else fail (ConformanceError ("sensitive_data:" +:+ comma ((λ f, lf_label f +:+ "@" +:+ lf_path f) <$> found))%py)).
End Search.

(** * What the search finds *)

Section Located.
Context `{T : !Text} (heap : gmap positive object).
Context (forbidden_literals : list (pystr * pystr)) (forbidden_key_fragments : list pystr).

(** [occurs root v path]: following [path] from the root gives [v]. *)
Inductive occurs (root : value) : value → pystr → Prop :=
  | occurs_root : occurs root root "$"%py
  | occurs_part h o v path path' :
      occurs root (VRef h) path → heap !! h = Some o → Item v path' ∈ entries o path →
      occurs root v path'.

Definition text_of (v : value) : option pystr :=
  match v with VStr s => Some s | VBytes b => Some (decode_replacing b) | _ => None end.

Definition keys_in (key path : pystr) : list LeakageFinding :=
  (λ fragment, mkLeakageFinding path ("key:" +:+ fragment)%py "key")
    <$> List.filter (λ fragment, is_in fragment (casefold key)) (normalized_fragments forbidden_key_fragments).

(** A secret in a text or in the name of a part, and where it is. *)
Inductive located (root : value) (f : LeakageFinding) : Prop :=
  | located_text v text path :
      occurs root v path → text_of v = Some text → f ∈ literals_in forbidden_literals text path → located root f
  | located_key h o key path path' :
      occurs root (VRef h) path → heap !! h = Some o → Key key path' ∈ entries o path →
      f ∈ keys_in key path' → located root f.
End Located.

(** The same secret, wherever it is. *)
Definition same_secret (f g : LeakageFinding) : Prop := lf_label f = lf_label g ∧ lf_kind f = lf_kind g.

Definition reported (w : walk) (f : LeakageFinding) : Prop := ∃ g, g ∈ findings w ∧ same_secret f g.

(** ** The order of reports *)

Lemma insert_finding_perm x l : insert_finding x l ≡ₚ x :: l.
Proof.
  induction l as [|y l IH]; [done|]. cbn. destruct (finding_le x y); [done|].
  rewrite IH. apply Permutation_swap.
Qed.

Lemma sort_findings_perm l : sort_findings l ≡ₚ l.
Proof. induction l as [|x l IH]; [done|]. cbn. by rewrite insert_finding_perm, IH. Qed.

Lemma points_le_total a b : points_le a b = false → points_le b a = true.
Proof.
  revert b; induction a as [|x a IH]; intros [|y b]; cbn; try done.
  rewrite !orb_false_iff, !andb_false_iff. intros [Hxy Hab]. apply orb_true_iff.
  apply N.ltb_ge in Hxy. destruct (decide (y < x)%N) as [Hlt|]; [left; by apply N.ltb_lt|].
  right. assert (x = y) as -> by lia. rewrite N.eqb_refl in *. destruct Hab as [?|?]; [done|]. by apply IH.
Qed.

Lemma finding_le_total f g : finding_le f g = false → finding_le g f = true.
Proof.
  unfold finding_le. repeat case_bool_decide; try congruence; apply points_le_total.
Qed.

Lemma insert_finding_sorted x l :
  Sorted (λ f g, finding_le f g = true) l → Sorted (λ f g, finding_le f g = true) (insert_finding x l).
Proof.
  induction 1 as [|y l Hl IH Hy]; cbn; [by repeat constructor|].
  destruct (finding_le x y) eqn:E; [by repeat constructor|].
  constructor; [done|]. destruct Hy as [|z l Hz]; cbn; [by constructor; apply finding_le_total|].
  destruct (finding_le x z); constructor; [by apply finding_le_total|done].
Qed.

Lemma sort_findings_sorted l : Sorted (λ f g, finding_le f g = true) (sort_findings l).
Proof. induction l; cbn; [constructor|by apply insert_finding_sorted]. Qed.

(** ** The walk *)

Section Walk.
Context `{T : !Text} (heap : gmap positive object) (id_of : positive → Z).
Context (forbidden_literals : list (pystr * pystr)) (forbidden_key_fragments : list pystr).
#[local] Notation inspect := (inspect_value heap id_of forbidden_literals forbidden_key_fragments).

Definition grows (w w' : walk) : Prop := seen w ⊆ seen w' ∧ findings w ⊆ findings w'.

#[local] Instance grows_preorder : PreOrder grows.
Proof. split; [done|]. intros a b c [? ?] [? ?]. split; etrans; eauto. Qed.

Lemma report_grows l w : grows w (report l w).
Proof. split; cbn; set_solver. Qed.

Definition step (fuel : nat) (e : entry) (w : walk) : option walk :=
  match e with
  | Key key path => Some (inspect_key forbidden_key_fragments key path w)
  | Item item path => inspect fuel item path w
  end.

(** The equations of the walk. *)
Lemma inspect_ref fuel h path w :
  inspect fuel (VRef h) path w =
  if bool_decide (id_of h ∈ seen w) then Some w
  else
    let w := mkWalk ({[id_of h]} ∪ seen w) (findings w) in
    match heap !! h with
    | None => Some w
    | Some o => match fuel with O => None | S fuel' => each (step fuel') (entries o path) w end
    end.
Proof. by destruct fuel. Qed.

Lemma inspect_text fuel v text path w :
  text_of v = Some text → inspect fuel v path w = Some (report (literals_in forbidden_literals text path) w).
Proof. destruct v, fuel; intros [=]; by subst. Qed.

(** What every step of the walk keeps the whole walk keeps, for steps that go on
    from one fuel to the next. *)
Lemma each_ind (R : walk → walk → Prop) (f : entry → walk → option walk) l :
  PreOrder R →
  (∀ e w w', e ∈ l → f e w = Some w' → R w w') →
  ∀ w w', each f l w = Some w' → R w w'.
Proof.
  intros HR Hf. induction l as [|e l IH]; intros w w' Hw; cbn in Hw; [by simplify_eq|].
  apply bind_Some in Hw as (v & Hv & Hw). trans v; [apply (Hf e); set_solver|].
  apply IH; [|done]. intros. eapply Hf; set_solver.
Qed.

Lemma inspect_grows fuel v path w w' : inspect fuel v path w = Some w' → grows w w'.
Proof.
  revert v path w w'. induction fuel as [|fuel IH]; intros v path w w' Hw;
    (destruct (text_of v) as [text|] eqn:Ht;
     [rewrite (inspect_text _ _ _ _ _ Ht) in Hw; simplify_eq; apply report_grows|]);
    (destruct v as [| | |h]; try done; [by cbn in Hw; simplify_eq|]);
    rewrite inspect_ref in Hw; cbv zeta in Hw; case_bool_decide; simplify_eq; try done;
    (trans (mkWalk ({[id_of h]} ∪ seen w) (findings w)); [split; cbn; set_solver|]);
    destruct (heap !! h) as [o|]; simplify_eq; try done.
  revert Hw. apply each_ind; [apply _|]. intros [] ? ? _; cbn; intros; simplify_eq; [apply report_grows|eauto].
Qed.

Lemma step_grows fuel e w w' : step fuel e w = Some w' → grows w w'.
Proof. destruct e; cbn; intros; simplify_eq; [apply report_grows|by eapply inspect_grows]. Qed.

(** *** It ends *)

(** The objects not seen yet. *)
Definition unseen (w : walk) : gset positive := filter (λ h, id_of h ∉ seen w) (dom heap).

Lemma unseen_subseteq w w' : grows w w' → unseen w' ⊆ unseen w.
Proof.
  intros [Hs _] h. unfold unseen. rewrite !elem_of_filter. intros [Hh ?].
  split; [|done]. contradict Hh. by apply Hs.
Qed.

Lemma unseen_grows w w' : grows w w' → (size (unseen w') ≤ size (unseen w))%nat.
Proof. intros. by apply subseteq_size, unseen_subseteq. Qed.

Lemma each_total fuel l w :
  (∀ v path w, (size (unseen w) ≤ fuel)%nat → is_Some (inspect fuel v path w)) →
  (size (unseen w) ≤ fuel)%nat → is_Some (each (step fuel) l w).
Proof.
  intros Hv. revert w; induction l as [|e l IH]; intros w Hw; cbn; [done|].
  assert (is_Some (step fuel e w)) as [w' Hw'] by (destruct e; cbn; eauto).
  rewrite Hw'. apply IH. apply step_grows, unseen_grows in Hw'. lia.
Qed.

Lemma inspect_total fuel v path w : (size (unseen w) ≤ fuel)%nat → is_Some (inspect fuel v path w).
Proof.
  revert v path w. induction fuel as [|fuel IH]; intros v path w Hw;
    (destruct (text_of v) as [text|] eqn:Ht; [by rewrite (inspect_text _ _ _ _ _ Ht)|]);
    (destruct v as [| | |h]; try done);
    rewrite inspect_ref; cbv zeta; case_bool_decide as Hs; try done;
    destruct (heap !! h) as [o|] eqn:Ho; try done;
    assert (h ∈ unseen w) as Hh by (unfold unseen; apply elem_of_filter; by rewrite elem_of_dom, Ho).
  - apply Nat.le_0_r, size_empty_inv in Hw. by apply Hw, not_elem_of_empty in Hh.
  - apply each_total; [done|]. enough (size (unseen (mkWalk ({[id_of h]} ∪ seen w) (findings w))) < size (unseen w)) by lia.
    apply subset_size. split; [by apply unseen_subseteq; split; cbn; [apply union_subseteq_r|]|].
    intros Hsub. apply Hsub in Hh. unfold unseen in Hh. apply elem_of_filter in Hh as [Hh _]. cbn in Hh. set_solver.
Qed.

(** *** What it reports is there *)

Definition sound_for (root : value) (w w' : walk) : Prop :=
  ∀ f, f ∈ findings w' → f ∈ findings w ∨ located heap forbidden_literals forbidden_key_fragments root f.

#[local] Instance sound_preorder root : PreOrder (sound_for root).
Proof. split; [by left|]. intros a b c Hab Hbc f Hf. destruct (Hbc f Hf); auto. Qed.

Lemma inspect_sound root fuel v path w w' :
  occurs heap root v path → inspect fuel v path w = Some w' → sound_for root w w'.
Proof.
  revert v path w w'. induction fuel as [|fuel IH]; intros v path w w' Hv Hw;
    (destruct (text_of v) as [text|] eqn:Ht;
     [rewrite (inspect_text _ _ _ _ _ Ht) in Hw; simplify_eq; intros f; cbn;
      rewrite elem_of_app; intros [?|?]; [by left|right; by eapply located_text]|]);
    (destruct v as [| | |h]; try done; [by cbn in Hw; simplify_eq|]);
    rewrite inspect_ref in Hw; cbv zeta in Hw; case_bool_decide; simplify_eq; try done;
    (trans (mkWalk ({[id_of h]} ∪ seen w) (findings w)); [by left|]);
    destruct (heap !! h) as [o|] eqn:Ho; simplify_eq; try done.
  revert Hw. apply each_ind; [apply _|]. intros [key kp|item ip] u u' He; cbn; intros Hu.
  - simplify_eq. intros f. cbn. rewrite elem_of_app. intros [?|?]; [by left|right; by eapply located_key].
  - eapply IH; [|done]. by eapply occurs_part.
Qed.

(** *** What is there it reports *)

(** A part of an object, wherever the object is. *)
Definition shape (e : entry) : pystr + value := match e with Key key _ => inl key | Item v _ => inr v end.

Lemma entries_shape o path path' : shape <$> entries o path = shape <$> entries o path'.
Proof.
  destruct o as [items|args attrs|items|items|items|items|]; cbn; unfold field_entries; try done.
  1,2: by (induction items as [|[? ?] items IH]; [done|]; cbn; by rewrite IH).
  - generalize 0%nat as i. assert (∀ (n : nat → nat), shape <$> concat (imap (λ i '(k, v),
        match k with VStr s => [Key s (indexed path (n i) +:+ ".key")%py] | _ => [] end
          ++ [Item k (indexed path (n i) +:+ ".key"); Item v (indexed path (n i) +:+ ".value")]%py) items) =
      shape <$> concat (imap (λ i '(k, v),
        match k with VStr s => [Key s (indexed path' (n i) +:+ ".key")%py] | _ => [] end
          ++ [Item k (indexed path' (n i) +:+ ".key"); Item v (indexed path' (n i) +:+ ".value")]%py) items)) as H; [|intros _; apply (H id)].
    induction items as [|[k v] items IH]; intros n; [done|].
    cbn [imap concat]. rewrite !fmap_app. f_equal; [by destruct k|]. apply (IH (n ∘ S)).
  - apply list_eq. intros i. by rewrite !list_lookup_fmap, !list_lookup_imap; destruct (items !! i).
  - rewrite <- !list_fmap_compose. done.
Qed.

Definition key_reported (w : walk) (key : pystr) : Prop :=
  ∀ path f, f ∈ keys_in forbidden_key_fragments key path → reported w f.

Definition value_covered (w : walk) (v : value) : Prop :=
  match v with
  | VRef h => id_of h ∈ seen w
  | _ => ∀ text path f, text_of v = Some text → f ∈ literals_in forbidden_literals text path → reported w f
  end.

Definition part_covered (w : walk) (p : pystr + value) : Prop :=
  match p with inl key => key_reported w key | inr v => value_covered w v end.

Definition object_covered (w : walk) (h : positive) : Prop :=
  ∀ o path e, heap !! h = Some o → e ∈ entries o path → part_covered w (shape e).

Lemma reported_grows w w' f : grows w w' → reported w f → reported w' f.
Proof. intros [_ Hf] (g & Hg & ?). exists g. split; [by apply Hf|done]. Qed.

Lemma part_covered_grows w w' p : grows w w' → part_covered w p → part_covered w' p.
Proof.
  intros Hg. destruct p as [key|[| | |h]]; cbn; unfold key_reported; eauto using reported_grows.
  destruct Hg as [Hs _]. apply Hs.
Qed.

Lemma object_covered_grows w w' h : grows w w' → object_covered w h → object_covered w' h.
Proof. intros Hg Hh o path e Ho He. eapply part_covered_grows; eauto. Qed.

Lemma literals_elsewhere text path path' f :
  f ∈ literals_in forbidden_literals text path →
  ∃ g, g ∈ literals_in forbidden_literals text path' ∧ same_secret f g.
Proof.
  unfold literals_in. rewrite list_elem_of_fmap. intros ([label literal] & -> & Hl).
  exists (mkLeakageFinding path' label "literal"). split; [|done].
  by apply (list_elem_of_fmap_2 (λ '(label, _), mkLeakageFinding path' label "literal")) in Hl.
Qed.

Lemma keys_elsewhere key path path' f :
  f ∈ keys_in forbidden_key_fragments key path →
  ∃ g, g ∈ keys_in forbidden_key_fragments key path' ∧ same_secret f g.
Proof.
  unfold keys_in. rewrite list_elem_of_fmap. intros (fragment & -> & Hl).
  eexists. split; [by apply list_elem_of_fmap_2|done].
Qed.

(** The objects seen since [w] are covered. *)
Definition new_covered (w w' : walk) : Prop :=
  ∀ h, id_of h ∈ seen w' → id_of h ∉ seen w → object_covered w' h.

Lemma new_covered_trans u v w : grows v w → new_covered u v → new_covered v w → new_covered u w.
Proof.
  intros Hg Huv Hvw h Hw Hu. destruct (decide (id_of h ∈ seen v)); [|by apply Hvw].
  by eapply object_covered_grows, Huv.
Qed.

Lemma each_complete fuel l w w' :
  (∀ v path w w', inspect fuel v path w = Some w' → value_covered w' v ∧ new_covered w w') →
  each (step fuel) l w = Some w' →
  (∀ e, e ∈ l → part_covered w' (shape e)) ∧ new_covered w w'.
Proof.
  intros Hv. revert w; induction l as [|e l IH]; intros w Hw; cbn in Hw.
  { simplify_eq. split; [set_solver|]. by intros h ? ?. }
  apply bind_Some in Hw as (u & Hu & Hw). destruct (IH u Hw) as [Hl Hnew].
  assert (grows u w') as Hg.
  { revert Hw. apply each_ind; [apply _|]. eauto using step_grows. }
  assert (part_covered u (shape e) ∧ new_covered w u) as [He Hwu].
  { destruct e as [key path|item path]; cbn in *; [|by eauto]. simplify_eq. split; [|by intros h ? ?].
    intros path' f Hf. destruct (keys_elsewhere _ _ path _ Hf) as (g & Hg' & ?).
    exists g. split; [|done]. cbn. apply elem_of_app. by right. }
  split; [|by eapply new_covered_trans].
  intros e' [->|?]%elem_of_cons; [by eapply part_covered_grows|by apply Hl].
Qed.

Lemma inspect_complete (Hid : Inj (=) (=) id_of) fuel v path w w' :
  inspect fuel v path w = Some w' → value_covered w' v ∧ new_covered w w'.
Proof.
  revert v path w w'. induction fuel as [|fuel IH]; intros v path w w' Hw;
    (destruct (text_of v) as [text|] eqn:Ht;
     [rewrite (inspect_text _ _ _ _ _ Ht) in Hw; simplify_eq; split; [|by intros h ? ?];
      assert (∀ path' f, f ∈ literals_in forbidden_literals text path' →
                reported (report (literals_in forbidden_literals text path) w) f)
        by (intros path' f (g & Hg & ?)%(literals_elsewhere _ _ path); exists g; split; [cbn; apply elem_of_app; by right|done]);
      destruct v; cbn in *; simplify_eq; intros; simplify_eq; eauto|]);
    (destruct v as [| | |h]; try done; [by cbn in Hw; simplify_eq; split; [|intros ? ? ?]|]);
    rewrite inspect_ref in Hw; cbv zeta in Hw; case_bool_decide; simplify_eq; try (by split; [|intros ? ? ?]);
    destruct (heap !! h) as [o|] eqn:Ho; simplify_eq.
  all: try (split; [cbn; set_solver|]; intros h' Hs Hn; cbn in Hs;
            assert (id_of h' = id_of h) as ->%(inj id_of) by set_solver; intros o path' e Ho'; congruence).
  apply each_complete in Hw as Hc; [|done]. destruct Hc as [He Hnew].
  assert (grows (mkWalk ({[id_of h]} ∪ seen w) (findings w)) w') as [Hs _].
  { revert Hw. apply each_ind; [apply _|]. eauto using step_grows. }
  split; [cbn; set_solver|].
  intros h' Hs' Hn. destruct (decide (h' = h)) as [->|Hne].
  - intros o' path' e Ho' He'. simplify_eq.
    assert (shape e ∈ shape <$> entries o path) as (e' & -> & ?)%list_elem_of_fmap; [|by apply He].
    rewrite (entries_shape o path path'). by apply list_elem_of_fmap_2.
  - apply Hnew; [done|]. cbn. intros [E%elem_of_singleton|?]%elem_of_union; [by apply (inj id_of) in E|done].
Qed.
End Walk.

Section Search_exact.
Context `{T : !Text} (heap : gmap positive object) (id_of : positive → Z).
Context (forbidden_literals : list (pystr * pystr)) (forbidden_key_fragments : list pystr).
#[local] Notation located := (located heap forbidden_literals forbidden_key_fragments).
#[local] Notation find := (find_sensitive_data heap id_of forbidden_literals forbidden_key_fragments).
#[local] Notation assert := (assert_no_sensitive_data heap id_of forbidden_literals forbidden_key_fragments).

(** The walk of the root ends, and every part of what it met is covered. *)
Lemma find_walk root :
  ∃ w, find root = Some (sort_findings (findings w)) ∧
    (∀ f, f ∈ findings w → located root f) ∧
    (Inj (=) (=) id_of →
      value_covered id_of forbidden_literals w root ∧
      ∀ h, id_of h ∈ seen w → object_covered heap id_of forbidden_literals forbidden_key_fragments w h).
Proof.
  destruct (inspect_total heap id_of forbidden_literals forbidden_key_fragments
              (size heap) root "$" (mkWalk ∅ [])) as [w Hw].
  { rewrite <- size_dom. apply subseteq_size. unfold unseen. intros h. by intros [_ ?]%elem_of_filter. }
  exists w. unfold find_sensitive_data. rewrite Hw. split; [done|]. split.
  - intros f Hf. destruct (inspect_sound _ _ _ _ root _ _ _ _ _ (occurs_root _ root) Hw f Hf) as [E|]; [|done].
    by apply not_elem_of_nil in E.
  - intros Hid. destruct (inspect_complete _ _ _ _ Hid _ _ _ _ _ Hw) as [Hv Hn].
    split; [done|]. intros h Hs. by apply Hn.
Qed.

Lemma occurs_covered root w v path :
  value_covered id_of forbidden_literals w root →
  (∀ h, id_of h ∈ seen w → object_covered heap id_of forbidden_literals forbidden_key_fragments w h) →
  occurs heap root v path → value_covered id_of forbidden_literals w v.
Proof.
  intros Hr Hw. induction 1 as [|h o v path path' _ IH Ho He]; [done|].
  exact (Hw h IH o path _ Ho He).
Qed.

Lemma located_reported root w f :
  value_covered id_of forbidden_literals w root →
  (∀ h, id_of h ∈ seen w → object_covered heap id_of forbidden_literals forbidden_key_fragments w h) →
  located root f → reported w f.
Proof.
  intros Hr Hw [v text path Hv Ht Hf|h o key path path' Hh Ho He Hf].
  - pose proof (occurs_covered _ _ _ _ Hr Hw Hv) as Hc. destruct v; cbn in *; simplify_eq; eauto.
  - pose proof (occurs_covered _ _ _ _ Hr Hw Hh) as Hs. exact (Hw h Hs o path _ Ho He path' f Hf).
Qed.

(** C31: The search of an object for seeded secrets always ends, however its parts
    are shared and even where it contains itself, and reports, in order, only secrets that
    are where it says.  If the objects it meets have identities of their own, it
    reports every secret that occurs anywhere, so that the assertion passes an
    object exactly when no forbidden literal is in any text and no forbidden
    fragment in any key reachable from it. *)
Theorem leakage_search_exact (root : value) :
  (∃ found, find root = Some found ∧ Sorted (λ f g, finding_le f g = true) found ∧
     (∀ f, f ∈ found → located root f) ∧
     (Inj (=) (=) id_of → ∀ f, located root f → ∃ g, g ∈ found ∧ same_secret f g)) ∧
  (Inj (=) (=) id_of → assert root = Some (Ok ()) ↔ ∀ f, ¬ located root f).
Proof.
  destruct (find_walk root) as (w & Hw & Hsound & Hcover).
  assert (∀ f, f ∈ sort_findings (findings w) ↔ f ∈ findings w) as Hf by (intros f; by rewrite (sort_findings_perm (findings w))).
  split.
  - exists (sort_findings (findings w)). split; [done|]. split; [apply sort_findings_sorted|].
    split; [intros f ?%Hf; by apply Hsound|].
    intros [Hr Ho]%Hcover f (g & Hg & ?)%(located_reported _ w); [|done..]. exists g. by split; [apply Hf|].
  - intros [Hr Ho]%Hcover. unfold assert_no_sensitive_data. rewrite Hw. cbn [mbind option_bind]. case_bool_decide as E.
    + split; [|done]. intros _ f (g & Hg & _)%(located_reported _ w); [|done..].
      rewrite <- Hf, E in Hg. by apply not_elem_of_nil in Hg.
    + split; [done|]. intros Hn. destruct E. destruct (sort_findings (findings w)) as [|g l] eqn:El; [done|].
      destruct (Hn g). apply Hsound, Hf. by left.
Qed.
End Search_exact.

(** * A concrete object *)

Section Example_search.
#[local] Instance plain_text : Text := {| casefold := id; decode_replacing _ := "?"%py |}.

(** A mapping that holds a list with a secret, itself, and the list again. *)
Definition projection : gmap positive object :=
  list_to_map [(1%positive, OMapping [(VStr "user_token", VRef 2); (VStr "self", VRef 1); (VStr "again", VRef 2)]);
               (2%positive, OSequence [VScalar; VStr "a seeded-secret here"])]%py.

Definition address (h : positive) : Z := Z.pos h.

Definition literals : list (pystr * pystr) := [("canary", "seeded-secret"); ("unset", PyStr [])]%py.

Example projection_searched :
  assert_no_sensitive_data projection address literals ["token"]%py (VRef 1) =
  Some (fail (ConformanceError "sensitive_data:key:token@$[0].key,canary@$[0].value[1]"%py)).
Proof. by vm_compute. Qed.

Lemma leakage_search_exact_witness :
  Inj (=) (=) address ∧
  ¬ (∀ f, ¬ located projection literals [] (VRef 1) f) ∧
  assert_no_sensitive_data projection address literals [] (VRef 2) ≠ Some (Ok ()) ∧
  ∀ f, ¬ located projection literals ["secret"]%py (VStr "harmless"%py) f.
Proof.
  assert (Inj (=) (=) address) as Hid by (intros a b E; by injection E).
  split; [exact Hid|]. split.
  - intros H. apply (proj2 (leakage_search_exact projection address literals [] (VRef 1))) in H; [|exact Hid].
    vm_compute in H. discriminate.
  - split; [by vm_compute|]. apply (proj2 (leakage_search_exact projection address literals ["secret"]%py (VStr "harmless"%py)) Hid).
    by vm_compute.
Defined.

(** Two objects made on the way, the second where the first was: the second is
    taken for the first, and its secret is missed. *)
Example reused_identity_hides_a_secret :
  let heap := list_to_map [(1%positive, OSequence [VRef 2; VRef 3]);
                           (2%positive, OSequence []); (3%positive, OSequence [VStr "seeded-secret"%py])] in
  let id_of h := if decide (h = 1%positive) then 1%Z else 2%Z in
  assert_no_sensitive_data heap id_of literals [] (VRef 1) = Some (Ok ()) ∧
  ∃ f, located heap literals [] (VRef 1) f.
Proof.
  split; [by vm_compute|]. exists (mkLeakageFinding "$[1][0]" "canary" "literal")%py.
  eapply (located_text _ _ _ _ _ (VStr "seeded-secret"%py)); [|done|].
  - apply (occurs_part _ _ 3 (OSequence [VStr "seeded-secret"%py]) _ "$[1]" "$[1][0]"%py); [|done|cbn; left].
    apply (occurs_part _ _ 1 (OSequence [VRef 2; VRef 3]) _ "$" "$[1]"%py); [apply occurs_root|done|cbn; right; left].
  - vm_compute. left.
Qed.
End Example_search.
