(* ===== verification/ProviderHarness.v ===== *)
(** The conformance harness of commitment providers and protection codecs
    ([assert_providers_conform] in [conformance.py]), as a program over the ports
    it is given in either of their forms. *)

From S2P Require Import Prelude Models Canonical Authority Receipts Registry StripeModels CustodyModels.
From S2P Require Import StoreHarness Leakage StoreBase StoredValidity StoreContract Recovery Custody Program.

Definition require (condition : bool) (code : pystr) : prog unit :=
  if condition then mret () else raise (ConformanceError code).

(** [try: p except Exception as refusal: del refusal]. *)
Definition disregarding_refusal (p : prog unit) : prog unit :=
  r ← attempt p;
  match r with
  | Ok _ => mret ()
  | Err e => if is_Exception e then mret () else Raise e
  end.

Section Providers.
Context `{U : Unicode, D : !Sha256}.

(** [ProposalIdentity(...)]. *)
Definition proposal_identity (tenant_reference proposal_reference : pystr) : res ProposalIdentity :=
  if safe_reference tenant_reference && safe_reference proposal_reference
  then Ok (mkProposalIdentity tenant_reference proposal_reference) else fail ValidationError.

Variables (commitment_provider : CommitmentProviderPort) (protection_codec : ProtectionCodecPort).
Variables (proposal_reference : pystr) (canonical_payload mutated_payload : bytes).

(** ** The commitment *)

Definition create (i : ProposalIdentity) : prog KeyedCommitment :=
  match commitment_provider with
  | ProposalBoundCommitmentProvider p => call (CreateCommitmentFor p i canonical_payload)
  | CommitmentProvider p => call (CreateCommitment p proposal_reference canonical_payload)
  end.

Definition verify (i : ProposalIdentity) (payload : bytes) (commitment : KeyedCommitment) : prog bool :=
  match commitment_provider with
  | ProposalBoundCommitmentProvider p => call (VerifyCommitmentFor p i payload commitment)
  | CommitmentProvider p => call (VerifyCommitment p proposal_reference payload commitment)
  end.

Definition commitment_checks (i : ProposalIdentity) : prog KeyedCommitment :=
  commitment ← create i;
  commitment_verified ← verify i canonical_payload commitment;
  mutated_commitment_verified ← verify i mutated_payload commitment;
  _ ← require commitment_verified "commitment_original_payload";
  _ ← require (negb mutated_commitment_verified) "commitment_rejects_mutation";
  mret commitment.

(** ** The protected payload *)

Definition protect (i : ProposalIdentity) : prog ProtectedPayload :=
  match protection_codec with
  | ProposalBoundProtectionCodec p => call (ProtectFor p i canonical_payload)
  | ProtectionCodec p => call (Protect p proposal_reference canonical_payload)
  end.

Definition unprotect (i : ProposalIdentity) (payload : ProtectedPayload) : prog bytes :=
  match protection_codec with
  | ProposalBoundProtectionCodec p => call (UnprotectFor p i payload)
  | ProtectionCodec p => call (Unprotect p payload)
  end.

Definition protection_checks (i : ProposalIdentity) : prog ProtectedPayload :=
  protected ← protect i;
  unprotected ← unprotect i protected;
  ciphertext ← lift (utf8 (code_points (pp_ciphertext protected)));
  _ ← require (negb (contains canonical_payload ciphertext)) "protected_payload_plaintext";
  _ ← require (bool_decide (unprotected = canonical_payload)) "protected_payload_round_trip";
  mret protected.

(** Destroying it for another proposal or another tenant leaves it; destroying it
    twice is no error. *)
Definition payload_destruction (i mismatched cross_tenant : ProposalIdentity) (protected : ProtectedPayload)
  : prog unit :=
  match protection_codec with
  | ProposalBoundProtectionCodec p =>
      _ ← disregarding_refusal (call (DestroyPayloadFor p mismatched protected));
      r ← attempt (call (UnprotectFor p i protected));
      preserved_payload ← match r with
        | Ok preserved_payload => mret preserved_payload
        | Err e => if is_KeyError_or_ValueError e
                   then raise (ConformanceError "proposal_bound_payload_mismatch_destroyed") else Raise e
        end;
      _ ← require (bool_decide (preserved_payload = canonical_payload)) "proposal_bound_payload_mismatch_changed";
      _ ← disregarding_refusal (call (DestroyPayloadFor p cross_tenant protected));
      kept ← call (UnprotectFor p i protected);
      _ ← require (bool_decide (kept = canonical_payload)) "proposal_bound_payload_cross_tenant_destroyed";
      _ ← call (DestroyPayloadFor p i protected);
      call (DestroyPayloadFor p i protected)
  | ProtectionCodec p =>
      _ ← call (DestroyPayload p protected);
      call (DestroyPayload p protected)
  end.

Definition destroyed_payload_check (i : ProposalIdentity) (protected : ProtectedPayload) : prog unit :=
  r ← attempt (unprotect i protected);
  match r with
  | Ok _ => raise (ConformanceError "protected_payload_destroyed")
  | Err e => if is_KeyError_or_ValueError e then mret () else Raise e
  end.

(** ** The destruction of the commitment *)

Definition commitment_destruction (i mismatched cross_tenant : ProposalIdentity) (commitment : KeyedCommitment)
  : prog unit :=
  match commitment_provider with
  | ProposalBoundCommitmentProvider p =>
      _ ← disregarding_refusal (call (DestroyCommitmentFor p mismatched commitment));
      kept ← call (VerifyCommitmentFor p i canonical_payload commitment);
      _ ← require kept "proposal_bound_commitment_mismatch_destroyed";
      _ ← disregarding_refusal (call (DestroyCommitmentFor p cross_tenant commitment));
      kept ← call (VerifyCommitmentFor p i canonical_payload commitment);
      _ ← require kept "proposal_bound_commitment_cross_tenant_destroyed";
      _ ← call (DestroyCommitmentFor p i commitment);
      call (DestroyCommitmentFor p i commitment)
  | CommitmentProvider p =>
      _ ← call (DestroyCommitment p commitment);
      call (DestroyCommitment p commitment)
  end.

Definition assert_providers_conform (tenant_reference : pystr) : prog unit :=
  _ ← require (negb (bool_decide (canonical_payload = mutated_payload))) "provider_distinct_payloads";
  mismatched_proposal_reference ←
    lift (_derived_safe_reference proposal_reference "provider" "mismatched-proposal");
  _ ← require (negb (bool_decide (mismatched_proposal_reference = proposal_reference)))
        "provider_distinct_proposal_references";
  i ← lift (proposal_identity tenant_reference proposal_reference);
  mismatched ← lift (proposal_identity tenant_reference mismatched_proposal_reference);
  other_tenant ← lift (_derived_safe_reference tenant_reference "provider" "mismatched-tenant");
  cross_tenant ← lift (proposal_identity other_tenant proposal_reference);
  commitment ← commitment_checks i;
  protected ← protection_checks i;
  _ ← payload_destruction i mismatched cross_tenant protected;
  _ ← destroyed_payload_check i protected;
  _ ← commitment_destruction i mismatched cross_tenant commitment;
  destroyed ← verify i canonical_payload commitment;
  require (negb destroyed) "commitment_destroyed".
End Providers.
