(* ===== verification/ProviderConformance.v ===== *)
(** What the conformance harness of providers accepts, and that the local custody
    adapter passes it on a host that keeps what its ports document: every
    check of the harness, in the order it makes them, from the first commitment to
    the last refusal. *)

From S2P Require Import Prelude Models Canonical Authority Receipts Registry StripeModels CustodyModels.
From S2P Require Import StoreHarness Leakage StoreBase StoredValidity StoreContract Recovery Program Custody LocalKek.
From S2P Require Import CustodySafety CustodyHost ProviderHarness StripeSafety StripeGoverned.

(** * Ports answered by programs *)

Section Inlined.
Variable serve : ∀ o, option (prog (resp o)).

Lemma exec_inline_bind {A B} (p : prog A) (f : A → prog B) w :
  exec (inline serve (p ≫= f)) w =
  match exec (inline serve p) w with (Ok a, w') => exec (inline serve (f a)) w' | (Err e, w') => (Err e, w') end.
Proof.
  revert w. induction p as [a|e|o k IH]; intros w; [done..|].
  change (Vis o k ≫= f) with (Vis o (λ r, k r ≫= f)). cbn [inline].
  destruct (serve o) as [q|].
  - rewrite !exec_bind, !exec_attempt. cbn [fst]. apply IH.
  - unfold exec. cbn [run]. destruct (host o w) as [r w']. specialize (IH r w'). unfold exec in IH.
    destruct (run host (inline serve (k r ≫= f)) w') as [[es x] w1],
      (run host (inline serve (k r)) w') as [[es' [a|e]] w2]; by simpl in *.
Qed.

Lemma exec_inline_call o q w : serve o = Some q → exec (inline serve (call o)) w = exec q w.
Proof.
  intros H. unfold call. cbn [inline]. rewrite H, exec_bind, exec_attempt.
  destruct (exec q w) as [[a|e] w'] eqn:E; cbn [fst snd inline]; exact (eq_refl _).
Qed.

Lemma exec_inline_attempt {A} (p : prog A) w :
  exec (inline serve (attempt p)) w = (Ok (exec (inline serve p) w).1, (exec (inline serve p) w).2).
Proof.
  revert w. induction p as [a|e|o k IH]; intros w; [done..|]. cbn [attempt inline].
  destruct (serve o) as [q|].
  - rewrite !exec_bind, !exec_attempt. cbn [fst]. apply IH.
  - unfold exec. cbn [run]. destruct (host o w) as [r w']. specialize (IH r w'). unfold exec in IH.
    destruct (run host (inline serve (attempt (k r))) w') as [[es x] w1],
      (run host (inline serve (k r)) w') as [[es' x'] w2]; by simpl in *.
Qed.

Lemma exec_inline_lift {A} (r : res A) w : exec (inline serve (lift r)) w = (r, w).
Proof. by destruct r. Qed.

Lemma exec_inline_ok {A B} (p : prog A) (f : A → prog B) w a w' :
  exec (inline serve p) w = (Ok a, w') → exec (inline serve (p ≫= f)) w = exec (inline serve (f a)) w'.
Proof. intros H. by rewrite exec_inline_bind, H. Qed.

Lemma exec_answered {B} o (f : resp o → prog B) q w r w' :
  serve o = Some q → exec q w = (Ok r, w') →
  exec (inline serve (call o ≫= f)) w = exec (inline serve (f r)) w'.
Proof. intros Ho Hq. apply exec_inline_ok. by rewrite (exec_inline_call o q w Ho). Qed.

Lemma exec_inline_require b code {B} (f : unit → prog B) w :
  b = true → exec (inline serve (require b code ≫= f)) w = exec (inline serve (f ())) w.
Proof. by intros ->. Qed.

(** A refusal is disregarded, and so is its absence. *)
Lemma exec_disregarding {B} (p : prog unit) (f : unit → prog B) w r w' :
  exec (inline serve p) w = (r, w') →
  match r with Ok _ => True | Err e => is_Exception e = true end →
  exec (inline serve (disregarding_refusal p ≫= f)) w = exec (inline serve (f ())) w'.
Proof.
  intros Hp Hr. apply exec_inline_ok. unfold disregarding_refusal.
  rewrite exec_inline_bind, exec_inline_attempt, Hp. cbn [fst snd]. destruct r as [[]|e]; [done|]. by rewrite Hr.
Qed.
End Inlined.

(** * Text of hexadecimal digits *)

Definition printable_ascii (c : N) : Prop := (32 < c < 127)%N.
Definition hexadecimal (c : N) : Prop := (48 <= c <= 57 ∨ 97 <= c <= 102)%N.

(** What [hexdigest()] of SHA-256 gives. *)
Definition hexdigest (s : pystr) : Prop := pystr_len s = 64 ∧ Forall hexadecimal (code_points s).

Lemma hexadecimal_printable c : hexadecimal c → printable_ascii c.
Proof. unfold hexadecimal, printable_ascii. lia. Qed.

Lemma printable_not_space c : printable_ascii c → is_space c = false.
Proof.
  unfold printable_ascii. intros Hc. apply not_true_iff_false. unfold is_space. rewrite existsb_exists.
  intros ([lo hi] & Hin & [Hlo%N.leb_le Hhi%N.leb_le]%andb_prop). cbn in Hin.
  repeat (destruct Hin as [E|Hin]; [injection E as <- <-; lia|]). done.
Qed.

Lemma lstrip_printable l : Forall printable_ascii l → lstrip_points l = l.
Proof. destruct 1 as [|c l Hc _]; [done|]. cbn [lstrip_points]. by rewrite (printable_not_space c Hc). Qed.

Lemma strip_printable s : Forall printable_ascii (code_points s) → strip s = s.
Proof.
  intros H. unfold strip. rewrite (lstrip_printable _ H), lstrip_printable.
  - rewrite reverse_involutive. by destruct s.
  - rewrite reverse_Permutation. exact H.
Qed.

Lemma utf8_printable s : Forall printable_ascii (code_points s) →
  utf8 (code_points s) = Ok (Z.of_N <$> code_points s).
Proof.
  intros H. apply utf8_ascii. revert H. apply Forall_impl. unfold printable_ascii. intros c Hc. lia.
Qed.

Lemma unicode_printable s : Forall printable_ascii (code_points s) → unicode_text s = true.
Proof.
  intros H. unfold unicode_text. apply forallb_forall. intros c Hc.
  rewrite List.Forall_forall in H. specialize (H c Hc). unfold printable_ascii in H.
  apply negb_true_iff. unfold is_surrogate. destruct (0xD800 <=? c)%N eqn:E; [|done]. apply N.leb_le in E. lia.
Qed.

(** ** Base 64 *)

Definition base64 (c : N) : Prop := (is_Some (b64_value c) ∨ c = 61)%N.

Lemma b64_base64 l : Forall (λ b, 0 <= b < 256)%Z l → Forall base64 (b64encode l).
Proof.
  assert (Hc : ∀ v, (0 <= v < 64)%Z → base64 (b64_char v)).
  { intros v Hv. left. by rewrite b64_value_char. }
  remember (length l) as n eqn:Hn. revert l Hn.
  induction (lt_wf n) as [n _ IH]. intros l -> Hl.
  destruct l as [|a [|b [|c l]]]; [constructor| | |];
    repeat (let H := fresh in pose proof (Forall_inv Hl) as H; cbv beta in H; apply Forall_inv_tail in Hl);
    cbn [b64encode]; repeat (apply Forall_cons; [first [apply Hc; dlia|by right]|]); try apply Forall_nil.
  apply (IH (length l)); [simpl; lia|done|done].
Qed.

Lemma base64_printable c : base64 c → printable_ascii c.
Proof.
  intros [[v Hv]| ->]; [|unfold printable_ascii; lia]. unfold b64_value in Hv. unfold printable_ascii.
  repeat (case_match; to_prop; [lia|]). done.
Qed.

Lemma b64_length l : (3 * length (b64encode l) <= 4 * length l + 8)%nat.
Proof.
  remember (length l) as n eqn:Hn. revert l Hn. induction (lt_wf n) as [n _ IH]. intros l ->.
  destruct l as [|a [|b [|c l]]]; cbn [b64encode length]; [lia..|].
  specialize (IH (length l) ltac:(cbn; lia) l eq_refl). lia.
Qed.

Lemma contains_elem {A} `{EqDecision A} (l s : list A) x : contains l s = true → x ∈ l → x ∈ s.
Proof.
  assert (Hs : ∀ l s : list A, starts_with l s = true → x ∈ l → x ∈ s).
  { clear. intros l. induction l as [|y l IH]; intros s Hs Hx; [by apply not_elem_of_nil in Hx|].
    destruct s as [|z s]; [done|]. cbn in Hs. to_prop. subst.
    apply elem_of_cons in Hx as [->|Hx]; [by left|right; by apply IH]. }
  induction s as [|y s IH]; cbn; intros [H|H]%orb_prop Hx; try done; [by eapply Hs..|]. right. by apply IH.
Qed.

(** * The local custody adapter on its host *)

Section Local.
Context `{U : Unicode, C : Cryptography, CL : !CryptographyLaws C, D : !Sha256}.
(** Printable ASCII is in no category of [C], and digests of HMAC are hexadecimal. *)
Context (ascii_printable : ∀ c, printable_ascii c → category_other c = false)
        (hmac_hexdigest : ∀ key data, hexdigest (hmac_sha256_hexdigest key data)).

Lemma printable_reference s :
  Forall printable_ascii (code_points s) → 1 ≤ pystr_len s ≤ 255 → SafeReference s = Ok s.
Proof.
  intros H [Hl Hu]. unfold SafeReference, _validate_safe_reference.
  rewrite (proj2 (Nat.leb_le _ _) Hl), (proj2 (Nat.leb_le _ _) Hu), (strip_printable _ H).
  rewrite bool_decide_eq_true_2 by done. cbn [andb negb].
  replace (existsb category_other (code_points s)) with false; [done|]. symmetry.
  apply not_true_iff_false. rewrite existsb_exists. intros (c & Hc & Hb).
  rewrite List.Forall_forall in H. rewrite ascii_printable in Hb; [done|by apply H].
Qed.

Lemma printable_safe s :
  Forall printable_ascii (code_points s) → 1 ≤ pystr_len s ≤ 255 → safe_reference s = true.
Proof. intros. unfold safe_reference. by rewrite printable_reference. Qed.

Lemma hexdigest_safe s : hexdigest s → safe_reference s = true.
Proof.
  intros [Hn Hf]. apply printable_safe; [|lia]. revert Hf. apply Forall_impl, hexadecimal_printable.
Qed.

(** ** Programs that only read *)

Definition only_reads (o : op) : Prop :=
  match o with
  | Custody (PutLocalKey _ _ _) | Custody (DeleteLocalKey _ _ _ _ _)
  | Custody (TokenBytes _) | Custody (TokenHex _) => False
  | _ => True
  end.

Fixpoint reading {A} (p : prog A) : Prop :=
  match p with Vis o k => only_reads o ∧ ∀ r, reading (k r) | _ => True end.

Lemma reading_bind {A B} (p : prog A) (f : A → prog B) : reading p → (∀ a, reading (f a)) → reading (p ≫= f).
Proof.
  intros Hp Hf. induction p as [a|e|o k IH]; [exact (Hf a)|done|]. destruct Hp as [Ho Hk]. split; [exact Ho|].
  intros r. exact (IH r (Hk r)).
Qed.

Lemma reading_attempt {A} (p : prog A) : reading p → reading (attempt p).
Proof. induction p as [a|e|o k IH]; [done..|]. intros [Ho Hk]. split; [exact Ho|]. intros r. exact (IH r (Hk r)). Qed.

Lemma reading_lift {A} (r : res A) : reading (lift r).
Proof. by destruct r. Qed.

Lemma reading_call o : only_reads o → reading (call o).
Proof. intros Ho. split; [exact Ho|]. by intros []. Qed.

Lemma reading_finally {A} (p : prog A) b : reading p → reading (finally p (_zero b)).
Proof.
  intros Hp. apply reading_bind; [by apply reading_attempt|]. intros r.
  apply reading_bind; [by apply reading_call|]. intros _. apply reading_lift.
Qed.

(** It leaves the stored keys, and what randomness there is to draw. *)
Lemma exec_reading {A} (p : prog A) w :
  reading p → cw_local (exec p w).2 = cw_local w ∧ cw_drawn (exec p w).2 = cw_drawn w.
Proof.
  unfold exec. revert w. induction p as [a|e|o k IH]; intros w; [done..|]. intros [Ho Hk]. cbn [run].
  destruct (host o w) as [r w'] eqn:E. specialize (IH r w' (Hk r)). destruct (run host (k r) w') as [[es x] w2].
  simpl in *. assert (H : cw_local w' = cw_local w ∧ cw_drawn w' = cw_drawn w).
  { replace w' with (host o w).2 by (by rewrite E). match type of Ho with only_reads ?o => destruct o as [] end; try done;
      match goal with o : custody_op |- _ => destruct o end; try done; cbn; repeat case_match; done. }
  destruct H as (<- & <-). exact IH.
Qed.

Ltac reads := repeat first
  [ apply reading_finally | apply reading_attempt | apply reading_lift | by apply reading_call
  | apply reading_bind; [|intros ?] | exact I | case_match ].

Lemma reading_unwrap self handle envelope : reading (LocalKek._unwrap self handle envelope).
Proof. unfold LocalKek._unwrap, LocalKek._validate_kek, value_error. reads. Qed.

Lemma reading_verify self i m c : reading (LocalKek.verify_for self i m c).
Proof.
  unfold LocalKek.verify_for, LocalKek.hmac_digest. reads; try apply reading_unwrap; reads.
Qed.

Lemma reading_unprotect self i p : reading (LocalKek.unprotect_for self i p).
Proof. unfold LocalKek.unprotect_for, value_error. reads; try apply reading_unwrap; reads. Qed.

(** ** Commitments *)

(** A commitment [c] to [m] for [i] under [key], as [create_for] leaves it. *)
Definition committed (i : ProposalIdentity) (m key : bytes) (c : KeyedCommitment) (kek : bytes)
  (envelope : LocalWrappedDataKey) : Prop :=
  ∃ nonce ad,
    kc_algorithm c = LocalKek._ALGORITHM ∧
    envelope = mkLocalWrappedDataKey (pi_tenant_reference i) (pi_proposal_reference i) FOR_COMMITMENT
      (kc_key_version c) (nonce ++ aes_encrypt kek nonce key ad) ∧
    kc_digest c = hmac_sha256_hexdigest key (ad ++ m) ∧
    length nonce = _NONCE_BYTES ∧ length key = _KEY_BYTES ∧ length kek = _KEY_BYTES ∧
    safe_reference (kc_key_version c) = true ∧
    LocalKek._metadata (kc_key_handle c) i FOR_COMMITMENT (kc_key_version c) = Ok ad.

Lemma committed_matches i m key c kek envelope j :
  committed i m key c kek envelope →
  LocalKek._matches envelope j FOR_COMMITMENT (kc_key_version c) = bool_decide (j = i).
Proof.
  intros (nonce & ad & _ & -> & _). unfold LocalKek._matches.
  cbn [lw_tenant_reference lw_proposal_reference lw_purpose lw_kek_version].
  destruct i as [t q], j as [t' q']. simpl. repeat case_bool_decide; simplify_eq; try done; exfalso; congruence.
Qed.

Lemma exec_hmac b handle i version m w ad key :
  LocalKek._metadata handle i FOR_COMMITMENT version = Ok ad → cw_heap w !! b = Some key →
  exec (LocalKek.hmac_digest b handle i version m) w = (Ok (hmac_sha256_hexdigest key (ad ++ m)), w).
Proof.
  intros Had Hb. unfold LocalKek.hmac_digest. rewrite (exec_bind_lift _ _ _ ad Had).
  by rewrite (exec_bind_ok _ _ _ _ _ (exec_read b w key Hb)).
Qed.

Lemma exec_create self i m w kek :
  custody_ready w i kek →
  ∃ c envelope w', exec (LocalKek.create_for self i m) w =
      (if commitment_valid c then Ok c else fail ValidationError, w') ∧
    committed i m (draw _KEY_BYTES (drawn 16 w)) c kek envelope ∧
    cw_local w' = <[handle_of w := envelope]> (cw_local w) ∧ cw_drawn w' = cw_drawn w + 60 ∧
    kc_key_handle c = handle_of w ∧ kc_key_version c = cw_current w.
Proof.
  intros Hready. destruct (ready_metadata w i kek FOR_COMMITMENT Hready) as [ad Had].
  destruct Hready as [Hkek Hlen [Hv _] [Ht _] [Hp _] Hr Hfree].
  destruct (exec_new_key self i FOR_COMMITMENT w kek ad) as (b & envelope & w1 & Hx & Hn); [done..|].
  destruct Hn as [(nonce & key & ad' & He & Hnonce & Hkey & Had' & Hb) Hlocal Hkeks _ Hrandom Hdrawn].
  assert (ad' = ad) as -> by congruence. rewrite <-Hkey.
  set (w2 := zeroed b w1).
  set (c := mkKeyedCommitment LocalKek._ALGORITHM (handle_of w) (cw_current w) (hmac_sha256_hexdigest key (ad ++ m))).
  exists c, envelope, (with_local (<[handle_of w := envelope]> (cw_local w2)) w2). split; [|split_and!].
  - unfold LocalKek.create_for. step Hx. rewrite He. cbn [lw_kek_version].
    etrans; [eapply exec_bind_ok; etrans; [apply exec_finally|]|].
    { rewrite (exec_hmac b _ i _ m w1 ad key Had Hb). reflexivity. }
    cbv beta. assert (Hfree2 : cw_local w2 !! handle_of w = None) by (simpl; by rewrite Hlocal).
    rewrite <-He. step (exec_store self (handle_of w) envelope w2 Hfree2). by rewrite exec_lift.
  - exists nonce, ad. split_and!; try done. rewrite Hkey. apply length_draw.
  - simpl. by rewrite Hlocal.
  - done.
  - done.
  - done.
Qed.

Lemma digests_compare key key' data data' :
  compare_digest (hmac_sha256_hexdigest key data) (hmac_sha256_hexdigest key' data') =
  Ok (bool_decide (hmac_sha256_hexdigest key data = hmac_sha256_hexdigest key' data')).
Proof.
  unfold compare_digest. rewrite forallb_app.
  assert (H : ∀ k d, forallb (λ c, (c <? 128)%N) (code_points (hmac_sha256_hexdigest k d)) = true).
  { intros k d. apply forallb_forall. intros x Hx. destruct (hmac_hexdigest k d) as [_ Hf].
    rewrite List.Forall_forall in Hf. specialize (Hf x Hx). unfold hexadecimal in Hf. apply N.ltb_lt. lia. }
  by rewrite !H.
Qed.

(** Verifying is comparing digests under the key of the commitment. *)
Lemma committed_verifies self i m key c kek envelope m' w :
  committed i m key c kek envelope → cw_local w !! kc_key_handle c = Some envelope →
  cw_keks w !! kc_key_version c = Some kek →
  ∃ ad, LocalKek._metadata (kc_key_handle c) i FOR_COMMITMENT (kc_key_version c) = Ok ad ∧
    (exec (LocalKek.verify_for self i m' c) w).1 =
    Ok (bool_decide (hmac_sha256_hexdigest key (ad ++ m') = hmac_sha256_hexdigest key (ad ++ m))).
Proof.
  intros Hc Hl Hk. assert (Hm := committed_matches _ _ _ _ _ _ i Hc). rewrite bool_decide_eq_true_2 in Hm by done.
  destruct Hc as (nonce & ad & Ha & He & Hd & Hn & Hkey & Hkek & Hv & Had). exists ad. split; [exact Had|].
  unfold LocalKek.verify_for. rewrite Ha, bool_decide_eq_true_2 by done. cbn [negb].
  rewrite (exec_bind_ok _ _ _ _ _ (exec_get _ _ w)). cbv beta. rewrite Hl, Hm. cbn [negb].
  destruct (exec_unwrap self i FOR_COMMITMENT (kc_key_version c) (kc_key_handle c) nonce key ad kek w)
    as (b & w' & Hu & Hb); [done..|]. rewrite <-He in Hu.
  rewrite exec_bind, exec_attempt, Hu. cbn [fst snd]. rewrite exec_finally. cbn [fst].
  rewrite He. cbn [lw_kek_version]. rewrite (exec_bind_ok _ _ _ _ _ (exec_hmac b _ i _ m' w' ad key Had Hb)).
  by rewrite exec_lift, Hd, digests_compare.
Qed.

Lemma verify_absent self i m c w :
  cw_local w !! kc_key_handle c = None → (exec (LocalKek.verify_for self i m c) w).1 = Ok false.
Proof.
  intros Hl. unfold LocalKek.verify_for. destruct (negb _); [done|].
  by rewrite (exec_bind_ok _ _ _ _ _ (exec_get _ _ w)), Hl.
Qed.

Lemma destroy_commitment_is_destroy self j c w :
  kc_algorithm c = LocalKek._ALGORITHM →
  exec (LocalKek.destroy_commitment_for self j c) w =
  exec (LocalKek._destroy self (kc_key_handle c) j FOR_COMMITMENT (kc_key_version c)) w.
Proof. intros Ha. unfold LocalKek.destroy_commitment_for. by rewrite Ha, bool_decide_eq_true_2. Qed.

(** ** The adapter under the harness *)

(** The programs that answer the calls of the harness. *)
Definition local_adapter (self : LocalKek.LocalKekEnvelopeProtection) (o : op) : option (prog (resp o)) :=
  match o return option (prog (resp o)) with
  | CreateCommitmentFor _ i m => Some (LocalKek.create_for self i m)
  | VerifyCommitmentFor _ i m c => Some (LocalKek.verify_for self i m c)
  | DestroyCommitmentFor _ i c => Some (LocalKek.destroy_commitment_for self i c)
  | ProtectFor _ i m => Some (LocalKek.protect_for self i m)
  | UnprotectFor _ i p => Some (LocalKek.unprotect_for self i p)
  | DestroyPayloadFor _ i p => Some (LocalKek.destroy_payload_for self i p)
  | _ => None
  end.

(** The same keys are stored, and the same randomness is left. *)
Record same_keys (w w' : custody_world) : Prop := {
  sk_local : cw_local w' = cw_local w;
  sk_keks : cw_keks w' = cw_keks w;
  sk_current : cw_current w' = cw_current w;
  sk_random : cw_random w' = cw_random w;
  sk_drawn : cw_drawn w' = cw_drawn w
}.

Lemma exec_known {A} (p : prog A) w r :
  reading p → (exec p w).1 = r → ∃ w', exec p w = (r, w') ∧ same_keys w w'.
Proof.
  intros Hp <-. exists (exec p w).2. split; [by destruct (exec p w)|].
  destruct (exec_reading p w Hp) as [? ?], (exec_stable p w) as (? & ? & ?). by split.
Qed.

Lemma handle_printable w : (∀ n, 0 <= cw_random w n < 256)%Z →
  Forall printable_ascii (code_points (handle_of w)) ∧ pystr_len (handle_of w) = 47.
Proof.
  intros Hr. unfold handle_of, pystr_len, hex, draw. cbn [code_points pystr_app].
  assert (Hd : ∀ z, (0 <= z < 16)%Z → printable_ascii (hex_digit z)).
  { intros z Hz. apply hexadecimal_printable. unfold hex_digit, hexadecimal. destruct (z <? 10)%Z eqn:E; to_prop; lia. }
  split.
  - apply Forall_app_2; [apply (bool_decide_unpack _); vm_compute; exact I|].
    induction (seq (cw_drawn w) 16) as [|n l IH]; cbn [fmap list_fmap flat_map]; [constructor|].
    specialize (Hr n). repeat constructor; [apply Hd; dlia..|exact IH].
  - rewrite length_app. generalize (length_seq 16 (cw_drawn w)).
    generalize (seq (cw_drawn w) 16). intros l Hl.
    assert (E : length (flat_map (λ z, [hex_digit (z / 16); hex_digit (z mod 16)]%Z) (cw_random w <$> l)) = 2 * length l).
    { clear Hl. induction l as [|n l IH]; [done|]. cbn [fmap list_fmap flat_map app length]. rewrite IH. lia. }
    rewrite E, Hl. reflexivity.
Qed.

Lemma handle_safe w : (∀ n, 0 <= cw_random w n < 256)%Z → safe_reference (handle_of w) = true.
Proof. intros Hr. destruct (handle_printable w Hr) as [Hf Hl]. apply printable_safe; [exact Hf|lia]. Qed.

Lemma committed_valid i m key c kek envelope :
  committed i m key c kek envelope → safe_reference (kc_key_handle c) = true → commitment_valid c = true.
Proof.
  intros (nonce & ad & Ha & _ & Hd & _ & _ & _ & Hv & _) Hh. unfold commitment_valid.
  rewrite Ha, Hh, Hv, Hd, hexdigest_safe by apply hmac_hexdigest. reflexivity.
Qed.

Lemma sealed_valid i m p kek envelope :
  sealed i m p kek envelope → safe_reference (pp_key_handle p) = true → (Z.of_nat (length m) <= 786000)%Z →
  payload_valid p = true.
Proof.
  intros (nonce & key & ad & nonce' & Hc & _ & Hct & Hb & _ & Hn & _ & _ & Hv & _) Hh Hm. unfold payload_valid.
  rewrite Hc, Hh, Hv. assert (H : safe_reference LocalKek._CODEC = true).
  { apply printable_safe; [apply (bool_decide_unpack _); vm_compute; exact I|]. vm_compute. lia. }
  rewrite H. cbn [andb]. set (data := nonce' ++ _) in *.
  assert (Hl : length data = length m + 28) by (unfold data; rewrite length_app, aes_length, Hn; unfold _NONCE_BYTES; lia).
  unfold OpaquePayload, pystr_len. rewrite Hct. cbn [code_points].
  rewrite (unicode_printable (PyStr (b64encode data))).
  2:{ cbn [code_points]. generalize (b64_base64 data Hb). apply Forall_impl, base64_printable. }
  cbn [andb]. assert (Hlen := b64_length data). apply andb_true_intro. split; [|apply Z.leb_le; lia].
  apply Z.leb_le. destruct data as [|a [|b [|c l]]]; cbn [b64encode length] in *; lia.
Qed.

(** What the harness looks for in the ciphertext is not there: a byte that base 64 has
    no character for. *)
Lemma sealed_hides i m p kek envelope b :
  sealed i m p kek envelope → b ∈ m → (∀ c, base64 c → Z.of_N c ≠ b) →
  ∃ ciphertext, utf8 (code_points (pp_ciphertext p)) = Ok ciphertext ∧ contains m ciphertext = false.
Proof.
  intros (nonce & key & ad & nonce' & _ & _ & Hct & Hbytes & _) Hb Hno. rewrite Hct.
  assert (Hb64 := b64_base64 _ Hbytes). eexists. split.
  { apply utf8_printable. revert Hb64. apply Forall_impl, base64_printable. }
  apply not_true_iff_false. intros Hin. apply (contains_elem _ _ _ Hin) in Hb.
  cbn [code_points] in Hb. apply list_elem_of_fmap in Hb as (c & -> & Hc).
  rewrite List.Forall_forall in Hb64. apply (Hno c); [|done]. apply Hb64. by apply list_elem_of_In.
Qed.

(** *** Its calls, one after the other *)

Variables (self : LocalKek.LocalKekEnvelopeProtection) (p q : port) (m m' : bytes).
#[local] Abbreviation provider := (ProposalBoundCommitmentProvider p).
#[local] Abbreviation codec := (ProposalBoundProtectionCodec q).
#[local] Abbreviation under := (λ A (t : prog A) w, exec (inline (local_adapter self) t) w).

(** Runs a call of the harness, whose program's outcome is known. *)
Ltac answered H :=
  lazymatch goal with |- exec (inline _ (call ?o ≫= ?f)) ?w = _ =>
    refine (eq_trans (exec_answered (local_adapter self) o f _ w _ _ eq_refl H) _) end; cbv beta.
(** Goes past a check that holds. *)
Ltac checked := etrans; [apply exec_inline_require; try done|]; cbv beta.

Lemma passes_commitment reference i kek w :
  custody_ready w i kek →
  (∀ ad, LocalKek._metadata (handle_of w) i FOR_COMMITMENT (cw_current w) = Ok ad →
     hmac_sha256_hexdigest (draw _KEY_BYTES (drawn 16 w)) (ad ++ m) ≠
     hmac_sha256_hexdigest (draw _KEY_BYTES (drawn 16 w)) (ad ++ m')) →
  ∃ c envelope w1, under _ (commitment_checks provider reference m m' i) w = (Ok c, w1) ∧
    committed i m (draw _KEY_BYTES (drawn 16 w)) c kek envelope ∧
    cw_local w1 = <[handle_of w := envelope]> (cw_local w) ∧ cw_drawn w1 = cw_drawn w + 60 ∧
    kc_key_handle c = handle_of w ∧ kc_key_version c = cw_current w ∧
    cw_keks w1 = cw_keks w ∧ cw_current w1 = cw_current w ∧ cw_random w1 = cw_random w.
Proof.
  intros Hready Hdistinct. destruct (exec_create self i m w kek Hready) as (c & envelope & w1 & Hx & Hc & Hl & Hd & Hh & Hv).
  rewrite (committed_valid _ _ _ _ _ _ Hc) in Hx; [|rewrite Hh; apply handle_safe, Hready].
  destruct (exec_stable (LocalKek.create_for self i m) w) as (Hkeks & Hcurrent & Hrandom).
  rewrite Hx in Hkeks, Hcurrent, Hrandom. cbn [snd] in *.
  assert (Hl1 : cw_local w1 !! kc_key_handle c = Some envelope) by (by rewrite Hl, Hh, lookup_insert_eq).
  assert (Hk1 : cw_keks w1 !! kc_key_version c = Some kek) by (rewrite Hkeks, Hv; apply Hready).
  destruct (committed_verifies self i m _ c kek envelope m w1 Hc Hl1 Hk1) as (ad & Had & Hm).
  rewrite bool_decide_eq_true_2 in Hm by done.
  destruct (exec_known _ _ _ (reading_verify self i m c) Hm) as (w2 & Hm2 & S2).
  rewrite <-(sk_local _ _ S2) in Hl1. rewrite <-(sk_keks _ _ S2) in Hk1.
  destruct (committed_verifies self i m _ c kek envelope m' w2 Hc Hl1 Hk1) as (ad' & Had' & Hm').
  assert (ad' = ad) as -> by congruence.
  rewrite bool_decide_eq_false_2 in Hm' by (intros E; rewrite Hh, Hv in Had; by apply (Hdistinct ad Had)).
  destruct (exec_known _ _ _ (reading_verify self i m' c) Hm') as (w3 & Hm3 & S3).
  exists c, envelope, w3. split.
  - unfold commitment_checks, create, verify. answered Hx. answered Hm2. answered Hm3. checked. by checked.
  - destruct S2, S3. split_and!; try done; congruence.
Qed.

(** A call without a continuation. *)
Ltac answered_last H :=
  lazymatch goal with |- exec (inline _ (call ?o)) ?w = _ =>
    refine (eq_trans (exec_inline_call (local_adapter self) o _ w eq_refl) H) end.

Lemma passes_protection reference i kek b w :
  custody_ready w i kek → Forall (λ b, 0 <= b < 256)%Z m → (Z.of_nat (length m) <= 786000)%Z →
  b ∈ m → (∀ c, base64 c → Z.of_N c ≠ b) →
  ∃ payload envelope w1, under _ (protection_checks codec reference m i) w = (Ok payload, w1) ∧
    sealed i m payload kek envelope ∧ cw_local w1 = <[handle_of w := envelope]> (cw_local w) ∧
    pp_key_handle payload = handle_of w ∧ pp_key_version payload = cw_current w ∧ cw_keks w1 = cw_keks w.
Proof.
  intros Hready Hm Hlen Hb Hno. destruct (exec_protect self i m w kek Hready Hm) as (x & envelope & w1 & Hx & Hs & Hl & Hh & Hv).
  rewrite (sealed_valid _ _ _ _ _ Hs) in Hx; [|rewrite Hh; apply handle_safe, Hready|exact Hlen].
  assert (Hkeks := exec_keks (LocalKek.protect_for self i m) w). rewrite Hx in Hkeks. cbn [snd] in Hkeks.
  destruct (exec_known _ _ _ (reading_unprotect self i x) (sealed_opens self i m x kek envelope w1 Hs
    ltac:(by rewrite Hl, Hh, lookup_insert_eq) ltac:(rewrite Hkeks, Hv; apply Hready))) as (w2 & Hu & S2).
  destruct (sealed_hides _ _ _ _ _ _ Hs Hb Hno) as (ciphertext & Hct & Hhide).
  exists x, envelope, w2. split.
  - unfold protection_checks, protect, unprotect. answered Hx. answered Hu.
    rewrite Hct. etrans; [apply exec_inline_ok, (exec_inline_lift _ (Ok ciphertext))|]. cbv beta.
    checked; [by rewrite Hhide|]. checked; [by apply bool_decide_eq_true_2|]. done.
  - destruct S2. split_and!; try done; congruence.
Qed.

(** Destroying for [j] a payload of [i]. *)
Lemma destroys_payload i kek envelope payload j w :
  sealed i m payload kek envelope → cw_local w !! pp_key_handle payload = Some envelope →
  exec (LocalKek.destroy_payload_for self j payload) w =
  if decide (j = i) then (Ok (), with_local (delete (pp_key_handle payload) (cw_local w)) w)
  else (fail (ValueErrorLike "key envelope metadata does not match the protected value"), w).
Proof.
  intros Hs Hl. rewrite (destroy_payload_is_destroy _ _ _ _ (sealed_codec _ _ _ _ _ Hs)).
  assert (Hm := sealed_matches _ _ _ _ _ j Hs). destruct (decide (j = i)).
  - rewrite bool_decide_eq_true_2 in Hm by done. by apply (exec_destroy _ _ _ _ _ _ envelope).
  - rewrite bool_decide_eq_false_2 in Hm by done. by apply (exec_destroy_mismatch _ _ _ _ _ _ envelope).
Qed.

Lemma passes_payload_destruction i mismatched cross_tenant kek envelope payload w :
  sealed i m payload kek envelope → cw_local w !! pp_key_handle payload = Some envelope →
  cw_keks w !! pp_key_version payload = Some kek → mismatched ≠ i → cross_tenant ≠ i →
  ∃ w1, under _ (payload_destruction codec m i mismatched cross_tenant payload) w = (Ok (), w1) ∧
    cw_local w1 = delete (pp_key_handle payload) (cw_local w) ∧ cw_keks w1 = cw_keks w.
Proof.
  intros Hs Hl Hk Hmis Hcross.
  assert (Hother : ∀ j w, j ≠ i → cw_local w !! pp_key_handle payload = Some envelope →
    under _ (call (DestroyPayloadFor q j payload)) w =
    (fail (ValueErrorLike "key envelope metadata does not match the protected value"), w)).
  { intros j w0 Hj Hl0. assert (Hd := destroys_payload i kek envelope payload j w0 Hs Hl0).
    rewrite decide_False in Hd by done. answered_last Hd. }
  destruct (exec_known _ _ _ (reading_unprotect self i payload) (sealed_opens self i m payload kek envelope w Hs Hl Hk))
    as (w1 & Hu1 & S1).
  assert (Hl1 : cw_local w1 !! pp_key_handle payload = Some envelope) by (by rewrite (sk_local _ _ S1)).
  assert (Hk1 : cw_keks w1 !! pp_key_version payload = Some kek) by (by rewrite (sk_keks _ _ S1)).
  destruct (exec_known _ _ _ (reading_unprotect self i payload) (sealed_opens self i m payload kek envelope w1 Hs Hl1 Hk1))
    as (w2 & Hu2 & S2).
  assert (Hl2 : cw_local w2 !! pp_key_handle payload = Some envelope) by (by rewrite (sk_local _ _ S2)).
  assert (Hd := destroys_payload i kek envelope payload i w2 Hs Hl2). rewrite decide_True in Hd by done.
  set (w3 := with_local _ w2) in Hd.
  assert (Hd2 : exec (LocalKek.destroy_payload_for self i payload) w3 = (Ok (), w3)).
  { rewrite (destroy_payload_is_destroy _ _ _ _ (sealed_codec _ _ _ _ _ Hs)). apply exec_destroy_absent.
    unfold w3. cbn [cw_local with_local]. apply lookup_delete_eq. }
  exists w3. split.
  - unfold payload_destruction. etrans; [apply (exec_disregarding _ _ _ _ _ _ (Hother _ _ Hmis Hl)); done|]; cbv beta.
    etrans; [apply exec_inline_ok; etrans; [apply exec_inline_attempt|]|].
    { lazymatch goal with |- context [exec (inline _ ?t) w] =>
        assert (E : exec (inline (local_adapter self) t) w = (Ok m, w1)) by (answered_last Hu1) end.
      rewrite E. reflexivity. }
    cbv beta. etrans; [apply exec_inline_ok; reflexivity|]. cbv beta.
    checked; [by apply bool_decide_eq_true_2|].
    etrans; [apply (exec_disregarding _ _ _ _ _ _ (Hother _ _ Hcross Hl1)); done|]; cbv beta.
    answered Hu2. checked; [by apply bool_decide_eq_true_2|]. answered Hd. answered_last Hd2.
  - unfold w3. destruct S1, S2. cbn. split; congruence.
Qed.

Lemma passes_destroyed_payload i payload w :
  pp_codec payload = LocalKek._CODEC → cw_local w !! pp_key_handle payload = None →
  ∃ w1, under _ (destroyed_payload_check codec i payload) w = (Ok (), w1) ∧ same_keys w w1.
Proof.
  intros Hc Hl. destruct (exec_known _ _ _ (reading_unprotect self i payload)
    (unprotect_refused self i payload w Hc ltac:(intros e He; congruence))) as (w1 & Hu & S1).
  exists w1. split; [|exact S1]. unfold destroyed_payload_check, unprotect.
  etrans; [apply exec_inline_ok; etrans; [apply exec_inline_attempt|]|].
  { lazymatch goal with |- context [@exec ?A ?t w] =>
      assert (E : @exec A t w = (fail (ValueErrorLike
        "protected payload metadata does not match its key envelope"), w1)) by (answered_last Hu) end.
    rewrite E. reflexivity. }
  reflexivity.
Qed.

(** Destroying for [j] a commitment of [i], and verifying it. *)
Lemma destroys_commitment i key kek envelope c j w :
  committed i m key c kek envelope → cw_local w !! kc_key_handle c = Some envelope →
  exec (LocalKek.destroy_commitment_for self j c) w =
  if decide (j = i) then (Ok (), with_local (delete (kc_key_handle c) (cw_local w)) w)
  else (fail (ValueErrorLike "key envelope metadata does not match the protected value"), w).
Proof.
  intros Hc Hl. assert (Ha : kc_algorithm c = LocalKek._ALGORITHM) by (by destruct Hc as (? & ? & ? & _)).
  rewrite (destroy_commitment_is_destroy _ _ _ _ Ha).
  assert (Hm := committed_matches _ _ _ _ _ _ j Hc). destruct (decide (j = i)).
  - rewrite bool_decide_eq_true_2 in Hm by done. by apply (exec_destroy _ _ _ _ _ _ envelope).
  - rewrite bool_decide_eq_false_2 in Hm by done. by apply (exec_destroy_mismatch _ _ _ _ _ _ envelope).
Qed.

Lemma verifies_commitment i key kek envelope c w :
  committed i m key c kek envelope → cw_local w !! kc_key_handle c = Some envelope →
  cw_keks w !! kc_key_version c = Some kek →
  ∃ w1, exec (LocalKek.verify_for self i m c) w = (Ok true, w1) ∧ same_keys w w1.
Proof.
  intros Hc Hl Hk. destruct (committed_verifies self i m key c kek envelope m w Hc Hl Hk) as (ad & _ & Hm).
  rewrite bool_decide_eq_true_2 in Hm by done. exact (exec_known _ _ _ (reading_verify self i m c) Hm).
Qed.

Lemma passes_commitment_destruction i mismatched cross_tenant key kek envelope c w :
  committed i m key c kek envelope → cw_local w !! kc_key_handle c = Some envelope →
  cw_keks w !! kc_key_version c = Some kek → mismatched ≠ i → cross_tenant ≠ i →
  ∃ w1, under _ (commitment_destruction provider m i mismatched cross_tenant c) w = (Ok (), w1) ∧
    cw_local w1 = delete (kc_key_handle c) (cw_local w).
Proof.
  intros Hc Hl Hk Hmis Hcross.
  assert (Hother : ∀ j w, j ≠ i → cw_local w !! kc_key_handle c = Some envelope →
    under _ (call (DestroyCommitmentFor p j c)) w =
    (fail (ValueErrorLike "key envelope metadata does not match the protected value"), w)).
  { intros j w0 Hj Hl0. assert (Hd := destroys_commitment i key kek envelope c j w0 Hc Hl0).
    rewrite decide_False in Hd by done. answered_last Hd. }
  destruct (verifies_commitment _ _ _ _ _ _ Hc Hl Hk) as (w1 & Hv1 & S1).
  assert (Hl1 : cw_local w1 !! kc_key_handle c = Some envelope) by (by rewrite (sk_local _ _ S1)).
  assert (Hk1 : cw_keks w1 !! kc_key_version c = Some kek) by (by rewrite (sk_keks _ _ S1)).
  destruct (verifies_commitment _ _ _ _ _ _ Hc Hl1 Hk1) as (w2 & Hv2 & S2).
  assert (Hl2 : cw_local w2 !! kc_key_handle c = Some envelope) by (by rewrite (sk_local _ _ S2)).
  assert (Hd := destroys_commitment i key kek envelope c i w2 Hc Hl2). rewrite decide_True in Hd by done.
  set (w3 := with_local _ w2) in Hd.
  assert (Hd2 : exec (LocalKek.destroy_commitment_for self i c) w3 = (Ok (), w3)).
  { rewrite destroy_commitment_is_destroy by (by destruct Hc as (? & ? & ? & _)). apply exec_destroy_absent.
    unfold w3. cbn [cw_local with_local]. apply lookup_delete_eq. }
  exists w3. split.
  - unfold commitment_destruction. etrans; [apply (exec_disregarding _ _ _ _ _ _ (Hother _ _ Hmis Hl)); done|]; cbv beta.
    answered Hv1. checked. etrans; [apply (exec_disregarding _ _ _ _ _ _ (Hother _ _ Hcross Hl1)); done|]; cbv beta.
    answered Hv2. checked. answered Hd. answered_last Hd2.
  - unfold w3. destruct S1, S2. cbn. congruence.
Qed.

(** What the harness derives of its arguments. *)
Record identities_of (reference tenant : pystr) (i mismatched cross_tenant : ProposalIdentity) : Prop := {
  ids_proposal : proposal_identity tenant reference = Ok i;
  ids_mismatched : ∃ r, _derived_safe_reference reference "provider" "mismatched-proposal" = Ok r ∧
    r ≠ reference ∧ proposal_identity tenant r = Ok mismatched;
  ids_cross_tenant : ∃ t, _derived_safe_reference tenant "provider" "mismatched-tenant" = Ok t ∧
    proposal_identity t reference = Ok cross_tenant
}.

(** Once the arguments are found distinct, the harness is its five parts. *)
Definition provider_checks (reference : pystr) (i mismatched cross_tenant : ProposalIdentity) : prog unit :=
  commitment ← commitment_checks provider reference m m' i;
  protected ← protection_checks codec reference m i;
  _ ← payload_destruction codec m i mismatched cross_tenant protected;
  _ ← destroyed_payload_check codec i protected;
  _ ← commitment_destruction provider m i mismatched cross_tenant commitment;
  destroyed ← verify provider reference i m commitment;
  require (negb destroyed) "commitment_destroyed".

Lemma harness_parts reference tenant i mismatched cross_tenant :
  m ≠ m' → identities_of reference tenant i mismatched cross_tenant →
  assert_providers_conform provider codec reference m m' tenant =
  provider_checks reference i mismatched cross_tenant.
Proof.
  intros Hm [Hi (r & Hr & Hne & Hmis) (t & Ht & Hcross)]. unfold assert_providers_conform.
  assert (Hlift : ∀ A B (x : A) (f : A → prog B), lift (Ok x) ≫= f = f x) by done.
  rewrite bool_decide_eq_false_2 by done. cbn [negb require].
  change (mret () ≫= ?f) with (f ()). cbv beta. rewrite Hr, Hlift.
  rewrite bool_decide_eq_false_2 by done. cbn [negb require]. change (mret () ≫= ?f) with (f ()). cbv beta.
  by rewrite Hi, Hlift, Hmis, Hlift, Ht, Hlift, Hcross, Hlift.
Qed.

(** *** What it accepts *)

(** The answers of a provider and a codec that pass. *)
Definition tolerated (r : res unit) : Prop := match r with Ok _ => True | Err e => is_Exception e = true end.

Definition conforming_history (i mismatched cross_tenant : ProposalIdentity) (es : history) : Prop :=
  ∃ c x r1 r2 r3 r4 refusal ciphertext,
    es =
      [Event (CreateCommitmentFor p i m) (Ok c); Event (VerifyCommitmentFor p i m c) (Ok true);
       Event (VerifyCommitmentFor p i m' c) (Ok false);
       Event (ProtectFor q i m) (Ok x); Event (UnprotectFor q i x) (Ok m);
       Event (DestroyPayloadFor q mismatched x) r1; Event (UnprotectFor q i x) (Ok m);
       Event (DestroyPayloadFor q cross_tenant x) r2; Event (UnprotectFor q i x) (Ok m);
       Event (DestroyPayloadFor q i x) (Ok ()); Event (DestroyPayloadFor q i x) (Ok ());
       Event (UnprotectFor q i x) (Err refusal);
       Event (DestroyCommitmentFor p mismatched c) r3; Event (VerifyCommitmentFor p i m c) (Ok true);
       Event (DestroyCommitmentFor p cross_tenant c) r4; Event (VerifyCommitmentFor p i m c) (Ok true);
       Event (DestroyCommitmentFor p i c) (Ok ()); Event (DestroyCommitmentFor p i c) (Ok ());
       Event (VerifyCommitmentFor p i m c) (Ok false)] ∧
    utf8 (code_points (pp_ciphertext x)) = Ok ciphertext ∧ contains m ciphertext = false ∧
    is_KeyError_or_ValueError refusal = true ∧ tolerated r1 ∧ tolerated r2 ∧ tolerated r3 ∧ tolerated r4.

(** The parts of an execution that ends well. *)
Lemma runs_require b code es a : runs (require b code) es (Ret a) → es = [] ∧ b = true.
Proof. destruct b; intros H; [by apply runs_ret_inv in H as [-> _]|by apply runs_raise_inv in H]. Qed.

Lemma runs_lift {A} (r : res A) es a : runs (lift r) es (Ret a) → es = [] ∧ r = Ok a.
Proof. destruct r; intros H; [by apply runs_ret_inv in H as [-> ->]|by apply runs_raise_inv in H]. Qed.

Lemma runs_attempted o es x : runs (attempt (call o)) es (Ret x) → es = [Event o x].
Proof.
  intros H%runs_follows. destruct es as [|e es]; [done|]. destruct H as (r & -> & H).
  destruct r, es; cbn in H; try done; by injection H as ->.
Qed.

Lemma runs_disregard_payload {B} j x (f : unit → prog B) es b :
  runs (disregarding_refusal (call (DestroyPayloadFor q j x)) ≫= f) es (Ret b) →
  ∃ r es', es = Event (DestroyPayloadFor q j x) r :: es' ∧ tolerated r ∧ runs (f ()) es' (Ret b).
Proof.
  intros (es1 & es2 & [] & -> & (es3 & es4 & r & -> & H1 & H2)%runs_bind_inv & H3)%runs_bind_inv.
  apply (runs_attempted (DestroyPayloadFor q j x)) in H1 as ->. exists r, es2.
  assert (es4 = [] ∧ tolerated r) as [-> Hr]; [|by split_and!].
  destruct r as [u|e]; [by apply runs_ret_inv in H2 as [-> _]|]. cbn [tolerated].
  destruct (is_Exception e); [by apply runs_ret_inv in H2 as [-> _]|by apply runs_raise_inv in H2].
Qed.

Lemma runs_disregard_commitment {B} j x (f : unit → prog B) es b :
  runs (disregarding_refusal (call (DestroyCommitmentFor p j x)) ≫= f) es (Ret b) →
  ∃ r es', es = Event (DestroyCommitmentFor p j x) r :: es' ∧ tolerated r ∧ runs (f ()) es' (Ret b).
Proof.
  intros (es1 & es2 & [] & -> & (es3 & es4 & r & -> & H1 & H2)%runs_bind_inv & H3)%runs_bind_inv.
  apply (runs_attempted (DestroyCommitmentFor p j x)) in H1 as ->. exists r, es2.
  assert (es4 = [] ∧ tolerated r) as [-> Hr]; [|by split_and!].
  destruct r as [u|e]; [by apply runs_ret_inv in H2 as [-> _]|]. cbn [tolerated].
  destruct (is_Exception e); [by apply runs_ret_inv in H2 as [-> _]|by apply runs_raise_inv in H2].
Qed.

Lemma runs_require_bind {B} b code (f : unit → prog B) es x :
  runs (require b code ≫= f) es (Ret x) → b = true ∧ runs (f ()) es (Ret x).
Proof. intros (es1 & es2 & [] & -> & [-> ->]%runs_require & H)%runs_bind_inv. done. Qed.

Ltac asked H a := apply runs_call_bind_inv in H as (a & ? & -> & H); cbv beta in H.

Lemma commitment_checks_inv reference i es c :
  runs (commitment_checks provider reference m m' i) es (Ret c) →
  es = [Event (CreateCommitmentFor p i m) (Ok c); Event (VerifyCommitmentFor p i m c) (Ok true);
        Event (VerifyCommitmentFor p i m' c) (Ok false)].
Proof.
  unfold commitment_checks, create, verify. intros H. asked H c0. asked H b1. asked H b2.
  apply runs_require_bind in H as [-> [Hb H]%runs_require_bind]. apply negb_true_iff in Hb as ->.
  by apply runs_ret_inv in H as [-> ->].
Qed.

Lemma protection_checks_inv reference i es x :
  runs (protection_checks codec reference m i) es (Ret x) →
  es = [Event (ProtectFor q i m) (Ok x); Event (UnprotectFor q i x) (Ok m)] ∧
  ∃ ciphertext, utf8 (code_points (pp_ciphertext x)) = Ok ciphertext ∧ contains m ciphertext = false.
Proof.
  unfold protection_checks, protect, unprotect. intros H. asked H x0. asked H u.
  apply runs_lift_bind_inv in H as (ciphertext & Hct & [Hb [Hu H]%runs_require_bind]%runs_require_bind).
  apply negb_true_iff in Hb. apply bool_decide_eq_true_1 in Hu as ->.
  apply runs_ret_inv in H as [-> ->]. split; [done|]. by exists ciphertext.
Qed.

Lemma payload_destruction_inv i mismatched cross_tenant x es :
  runs (payload_destruction codec m i mismatched cross_tenant x) es (Ret ()) →
  ∃ r1 r2, tolerated r1 ∧ tolerated r2 ∧
    es = [Event (DestroyPayloadFor q mismatched x) r1; Event (UnprotectFor q i x) (Ok m);
          Event (DestroyPayloadFor q cross_tenant x) r2; Event (UnprotectFor q i x) (Ok m);
          Event (DestroyPayloadFor q i x) (Ok ()); Event (DestroyPayloadFor q i x) (Ok ())].
Proof.
  unfold payload_destruction. intros (r1 & es1 & -> & Hr1 & H)%runs_disregard_payload.
  apply runs_bind_inv in H as (es2 & es3 & r & -> & Hr%(runs_attempted (UnprotectFor q i x)) & H).
  apply runs_bind_inv in H as (es4 & es5 & kept & -> & Hk & [Hb H]%runs_require_bind).
  apply bool_decide_eq_true_1 in Hb as ->.
  assert (r = Ok m ∧ es4 = []) as [-> ->].
  { destruct r as [y|e]; [by apply runs_ret_inv in Hk as [-> ->]|].
    destruct (is_KeyError_or_ValueError e); by apply runs_raise_inv in Hk. }
  apply runs_disregard_payload in H as (r2 & es6 & -> & Hr2 & H). asked H k2.
  apply runs_require_bind in H as [Hb H]. apply bool_decide_eq_true_1 in Hb as ->. asked H u.
  apply (runs_call_inv (DestroyPayloadFor q i x)) in H as ->. destruct u. exists r1, r2. by rewrite Hr.
Qed.

Lemma destroyed_payload_inv i x es :
  runs (destroyed_payload_check codec i x) es (Ret ()) →
  ∃ refusal, is_KeyError_or_ValueError refusal = true ∧ es = [Event (UnprotectFor q i x) (Err refusal)].
Proof.
  unfold destroyed_payload_check, unprotect.
  intros (es1 & es2 & r & -> & H1%(runs_attempted (UnprotectFor q i x)) & H)%runs_bind_inv.
  destruct r as [y|e]; [by apply runs_raise_inv in H|]. exists e.
  destruct (is_KeyError_or_ValueError e); [|by apply runs_raise_inv in H].
  apply runs_ret_inv in H as [-> _]. by rewrite H1.
Qed.

Lemma commitment_destruction_inv i mismatched cross_tenant c es :
  runs (commitment_destruction provider m i mismatched cross_tenant c) es (Ret ()) →
  ∃ r1 r2, tolerated r1 ∧ tolerated r2 ∧
    es = [Event (DestroyCommitmentFor p mismatched c) r1; Event (VerifyCommitmentFor p i m c) (Ok true);
          Event (DestroyCommitmentFor p cross_tenant c) r2; Event (VerifyCommitmentFor p i m c) (Ok true);
          Event (DestroyCommitmentFor p i c) (Ok ()); Event (DestroyCommitmentFor p i c) (Ok ())].
Proof.
  unfold commitment_destruction. intros (r1 & es1 & -> & Hr1 & H)%runs_disregard_commitment.
  asked H b1. apply runs_require_bind in H as [-> (r2 & es2 & -> & Hr2 & H)%runs_disregard_commitment].
  asked H b2. apply runs_require_bind in H as [-> H]. asked H u. apply (runs_call_inv (DestroyCommitmentFor p i c)) in H as ->. destruct u.
  by exists r1, r2.
Qed.

Lemma accepts_only reference i mismatched cross_tenant es :
  runs (provider_checks reference i mismatched cross_tenant) es (Ret ()) →
  conforming_history i mismatched cross_tenant es.
Proof.
  unfold provider_checks, verify.
  intros (es1 & es2 & c & -> & ->%commitment_checks_inv & H)%runs_bind_inv.
  apply runs_bind_inv in H as (es3 & es4 & x & -> & [-> (ciphertext & Hct & Hno)]%protection_checks_inv & H).
  apply runs_bind_inv in H as (es5 & es6 & [] & -> & (r1 & r2 & H1 & H2 & ->)%payload_destruction_inv & H).
  apply runs_bind_inv in H as (es7 & es8 & [] & -> & (refusal & Hr & ->)%destroyed_payload_inv & H).
  apply runs_bind_inv in H as (es9 & es10 & [] & -> & (r3 & r4 & H3 & H4 & ->)%commitment_destruction_inv & H).
  asked H b. apply runs_require in H as [-> Hb]. apply negb_true_iff in Hb as ->.
  by exists c, x, r1, r2, r3, r4, refusal, ciphertext.
Qed.

Lemma accepts reference i mismatched cross_tenant es :
  conforming_history i mismatched cross_tenant es →
  runs (provider_checks reference i mismatched cross_tenant) es (Ret ()).
Proof.
  intros (c & x & r1 & r2 & r3 & r4 & refusal & ciphertext & -> & Hct & Hno & Hr & H1 & H2 & H3 & H4).
  apply runs_follows.
  destruct r1 as [[]|e1], r2 as [[]|e2], r3 as [[]|e3], r4 as [[]|e4]; cbn [tolerated] in *.
  all: repeat first [progress cbv beta iota delta [provider_checks commitment_checks protection_checks payload_destruction destroyed_payload_check
    commitment_destruction create verify protect unprotect disregarding_refusal require lift call attempt negb raise]
   | progress cbn [mbind prog_bind prog_bind_ mret prog_ret follows]
   | eexists; split; [reflexivity|]
   | rewrite H1 | rewrite H2 | rewrite H3 | rewrite H4 | rewrite Hct | rewrite Hno | rewrite Hr | rewrite bool_decide_eq_true_2 by done].
  all: reflexivity.
Qed.

(** *** The adapter passes *)

(** What the harness and the cryptography need of the payloads on this host: their
    digests differ under the key that is drawn first, the next handle to be drawn is
    new too, and the ciphertext cannot contain the payload by accident: it has a
    byte that base 64 has no character for, as every JSON object has. *)
Record payloads_apt (w : custody_world) (i : ProposalIdentity) : Prop := {
  apt_bytes : Forall (λ b, 0 <= b < 256)%Z m;
  apt_length : (Z.of_nat (length m) <= 786000)%Z;
  apt_visible : ∃ b, b ∈ m ∧ ∀ c, base64 c → Z.of_N c ≠ b;
  apt_digests : ∀ ad, LocalKek._metadata (handle_of w) i FOR_COMMITMENT (cw_current w) = Ok ad →
    hmac_sha256_hexdigest (draw _KEY_BYTES (drawn 16 w)) (ad ++ m) ≠
    hmac_sha256_hexdigest (draw _KEY_BYTES (drawn 16 w)) (ad ++ m');
  apt_handles : handle_of (drawn 60 w) ≠ handle_of w ∧ cw_local w !! handle_of (drawn 60 w) = None
}.

Lemma identities_distinct reference tenant i mismatched cross_tenant :
  identities_of reference tenant i mismatched cross_tenant → mismatched ≠ i.
Proof.
  intros [Hi (r & _ & Hne & Hmis) _] ->. unfold proposal_identity in *.
  repeat case_match; simplify_eq.
Qed.

Lemma ready_again w w1 i kek envelope :
  custody_ready w i kek → payloads_apt w i →
  cw_local w1 = <[handle_of w := envelope]> (cw_local w) → cw_drawn w1 = cw_drawn w + 60 →
  cw_keks w1 = cw_keks w → cw_current w1 = cw_current w → cw_random w1 = cw_random w →
  custody_ready w1 i kek ∧ handle_of w1 = handle_of (drawn 60 w).
Proof.
  intros [] [_ _ _ _ [Hne Hfree]] Hl Hd Hkeks Hcur Hrand.
  assert (Hh : handle_of w1 = handle_of (drawn 60 w)).
  { unfold handle_of, draw. cbn [cw_random cw_drawn drawn]. by rewrite Hrand, Hd. }
  split; [|done]. split; rewrite ?Hkeks, ?Hcur, ?Hrand, ?Hh; try done.
  by rewrite Hl, lookup_insert_ne.
Qed.

Lemma adapter_passes reference i mismatched cross_tenant w kek :
  custody_ready w i kek → payloads_apt w i → mismatched ≠ i → cross_tenant ≠ i →
  ∃ w', under _ (provider_checks reference i mismatched cross_tenant) w = (Ok (), w') ∧ cw_local w' = cw_local w.
Proof.
  intros Hready Hapt Hmis Hcross. pose proof Hapt as [Hbytes Hlen (b & Hb & Hno) Hdig [Hne Hfree]].
  destruct (passes_commitment reference i kek w Hready Hdig)
    as (c & ce & w1 & Hx1 & Hc & Hl1 & Hd1 & Hch & Hcv & Hk1 & Hcur1 & Hr1).
  destruct (ready_again w w1 i kek ce Hready Hapt Hl1 Hd1 Hk1 Hcur1 Hr1) as [Hready1 Hh1].
  destruct (passes_protection reference i kek b w1 Hready1 Hbytes Hlen Hb Hno)
    as (x & xe & w2 & Hx2 & Hs & Hl2 & Hxh & Hxv & Hk2). rewrite Hh1 in Hl2, Hxh.
  destruct (passes_payload_destruction i mismatched cross_tenant kek xe x w2 Hs) as (w3 & Hx3 & Hl3 & Hk3); [|..|done|done|].
  { by rewrite Hl2, Hxh, lookup_insert_eq. }
  { rewrite Hk2, Hxv. apply Hready1. }
  destruct (passes_destroyed_payload i x w3 (sealed_codec _ _ _ _ _ Hs)) as (w4 & Hx4 & S4).
  { rewrite Hl3. apply lookup_delete_eq. }
  assert (Hl4 : cw_local w4 = <[handle_of w := ce]> (cw_local w)).
  { rewrite (sk_local _ _ S4), Hl3, Hl2, Hxh, Hl1. apply delete_insert_id. by rewrite lookup_insert_ne. }
  destruct (passes_commitment_destruction i mismatched cross_tenant _ kek ce c w4 Hc) as (w5 & Hx5 & Hl5); [|..|done|done|].
  { by rewrite Hl4, Hch, lookup_insert_eq. }
  { rewrite (sk_keks _ _ S4), Hk3, Hk2, Hk1, Hcv. apply Hready. }
  assert (Hl : cw_local w5 = cw_local w).
  { rewrite Hl5, Hch, Hl4. apply delete_insert_id. apply Hready. }
  destruct (exec_known _ _ _ (reading_verify self i m c) (verify_absent self i m c w5
    ltac:(rewrite Hl, Hch; apply Hready))) as (w6 & Hx6 & S6).
  exists w6. split; [|by rewrite (sk_local _ _ S6)]. unfold provider_checks, verify.
  do 5 (etrans; [eapply exec_inline_ok; eassumption|]; cbv beta). by answered Hx6.
Qed.

(** C32: The harness of providers passes a provider and a codec exactly when they answer
    its calls like this: the commitment verifies the payload and not the other one;
    the protected payload opens to the payload and does not show it; after destroying
    either for another proposal or tenant, whether that is refused or not, it verifies
    and opens still; destroying it twice is accepted; and afterwards opening is refused
    and verifying false.  The local custody adapter, on a host that keeps what
    its ports document, is such a provider and codec, and the harness leaves no key behind:
    supposed of the payload ([payloads_apt]) that it is of bytes, at most 786000, one of them
    outside the alphabet of base 64 (a JSON object has one), and that its keyed digest is not
    that of the other payload; of the host ([custody_ready]) that it has an active key of 32
    bytes under a valid version, random bytes, and that the two handles it draws are new. *)
Theorem provider_harness_exact (reference tenant : pystr) (i mismatched cross_tenant : ProposalIdentity)
  (Hm : m ≠ m') (Hids : identities_of reference tenant i mismatched cross_tenant) :
  (∀ es, runs (assert_providers_conform provider codec reference m m' tenant) es (Ret ()) ↔
     conforming_history i mismatched cross_tenant es) ∧
  (∀ w kek, custody_ready w i kek → payloads_apt w i → cross_tenant ≠ i →
     ∃ w', exec (inline (local_adapter self) (assert_providers_conform provider codec reference m m' tenant)) w = (Ok (), w') ∧
       cw_local w' = cw_local w).
Proof.
  rewrite (harness_parts reference tenant i mismatched cross_tenant Hm Hids). split.
  - intros es. split; [apply accepts_only|apply accepts].
  - intros w kek Hready Hapt Hcross. apply (adapter_passes _ _ _ _ _ kek); try done.
    by eapply identities_distinct.
Qed.
End Local.

(** * A concrete host *)

Section Example_providers.
#[local] Existing Instance ascii_unicode.

(** The sum of the bytes modulo two, as a digest. *)
#[local] Definition parity (data : bytes) : pystr :=
  PyStr (replicate 63 48%N ++ [if Z.even (foldr Z.add 0%Z data) then 48%N else 49%N]).

#[local] Instance parity_cryptography : Cryptography := {|
  aes_encrypt _ _ data _ := replicate 16 0%Z ++ data;
  aes_decrypt _ _ data _ := Some (drop 16 data);
  hmac_sha256_hexdigest _ data := parity data;
  sha256_hex _ := "digest"%py
|}.

#[local] Instance parity_laws : CryptographyLaws parity_cryptography.
Proof.
  constructor; [done|done|]. intros key nonce data aad Hd. apply Forall_app_2; [|exact Hd].
  repeat constructor; lia.
Qed.

#[local] Instance constant_digest : Sha256 := {| sha256_hexdigest _ := "digest"%py |}.

#[local] Definition adapter : LocalKek.LocalKekEnvelopeProtection := LocalKek.mkLocalKekEnvelopeProtection 1 2.
#[local] Definition kek : bytes := replicate 32 7%Z.
#[local] Definition world : custody_world :=
  mkCustodyWorld ∅ {["v1"%py := kek]} "v1" ∅ (λ n, Z.of_nat n mod 256)%Z 0.
#[local] Definition identity : ProposalIdentity := mkProposalIdentity "tenant" "proposal:1".
#[local] Definition mismatched : ProposalIdentity := mkProposalIdentity "tenant" "conformance:provider:digest".
#[local] Definition cross_tenant : ProposalIdentity := mkProposalIdentity "conformance:provider:digest" "proposal:1".
(** [{}] and [{|]. *)
#[local] Definition original_bytes : bytes := [123; 125]%Z.
#[local] Definition mutated_bytes : bytes := [123; 124]%Z.

Lemma printable_ascii_unicode c : printable_ascii c → category_other c = false.
Proof.
  unfold printable_ascii. intros Hc. cbn. apply orb_false_intro; [apply N.ltb_ge; lia|apply N.eqb_neq; lia].
Qed.

Lemma parity_hexdigest (key data : bytes) : hexdigest (hmac_sha256_hexdigest key data).
Proof.
  cbn. unfold parity. destruct (Z.even _); (split; [vm_compute; reflexivity|]); cbn [code_points replicate app];
    repeat (constructor; [unfold hexadecimal; lia|]); constructor.
Qed.

Lemma identities_derived : identities_of "proposal:1" "tenant" identity mismatched cross_tenant.
Proof.
  split; [vm_compute; reflexivity| |].
  - eexists. split; [vm_compute; reflexivity|]. split; [discriminate|vm_compute; reflexivity].
  - eexists. split; [vm_compute; reflexivity|vm_compute; reflexivity].
Qed.

Lemma sum_app (a b : bytes) : (foldr Z.add 0 (a ++ b) = foldr Z.add 0 a + foldr Z.add 0 b)%Z.
Proof. induction a as [|x a IH]; cbn; [done|]. rewrite IH. lia. Qed.

Lemma bytes_apt : payloads_apt original_bytes mutated_bytes world identity.
Proof.
  split.
  - repeat constructor; lia.
  - cbn. lia.
  - exists 123%Z. split; [left|]. intros c Hc E. assert (c = 123%N) as -> by lia.
    destruct Hc as [[v Hv]|Hc]; [vm_compute in Hv; discriminate|discriminate].
  - intros ad _. cbn [hmac_sha256_hexdigest parity_cryptography]. unfold parity. rewrite !sum_app, !Z.even_add.
    change (Z.even (foldr Z.add 0%Z original_bytes)) with true. change (Z.even (foldr Z.add 0%Z mutated_bytes)) with false.
    destruct (Z.even (foldr Z.add 0%Z ad)); discriminate.
  - split; [vm_compute; discriminate|vm_compute; reflexivity].
Qed.

Lemma custody_world_ready : custody_ready world identity kek.
Proof.
  split; try (split; [vm_compute; reflexivity|eexists; split; [reflexivity|reflexivity]]);
    try (vm_compute; reflexivity).
  intros n. apply Z.mod_pos_bound. done.
Qed.

Lemma provider_harness_exact_witness :
  (∃ w', exec (inline (local_adapter adapter) (assert_providers_conform (ProposalBoundCommitmentProvider 3)
      (ProposalBoundProtectionCodec 4) "proposal:1" original_bytes mutated_bytes "tenant")) world = (Ok (), w') ∧
    cw_local w' = ∅) ∧
  ¬ runs (assert_providers_conform (ProposalBoundCommitmentProvider 3)
      (ProposalBoundProtectionCodec 4) "proposal:1" original_bytes mutated_bytes "tenant") [] (Ret ()).
Proof.
  destruct (provider_harness_exact printable_ascii_unicode parity_hexdigest adapter 3 4 original_bytes mutated_bytes
    "proposal:1" "tenant" identity mismatched cross_tenant ltac:(discriminate) identities_derived) as [Hexact Hadapter].
  split.
  - exact (Hadapter world kek custody_world_ready bytes_apt ltac:(discriminate)).
  - intros (c & x & r1 & r2 & r3 & r4 & refusal & ciphertext & E & _)%Hexact. discriminate E.
Defined.
End Example_providers.
